(* ===== verification/_CoqProject ===== *)
-Q . S2P
Prelude.v
JsString.v
JsMap.v
Host.v
TestHost.v
JsTime.v
IsoOrder.v
JsJson.v
JsParse.v
JsPretty.v
Transitions.v
Protocol.v
DeviceKeys.v
ChallengeStore.v
AuditLog.v
Engine.v
EngineSteps.v
EngineCap.v
EngineDevices.v
EngineRefs.v
EngineRevoke.v
EngineFlow.v
CustomerOperations.v
OperationsSteps.v
OperationsInv.v
OperationsRuns.v
PartnerContract.v
PartnerReceiver.v
DurableStore.v
DurableSteps.v
DurableRecords.v
DurableOutbox.v
DurableRuns.v
PartnerDispatch.v
PartnerEndToEnd.v
PartnerRuns.v
SessionBoundary.v
LaunchPolicy.v
RemoteAudit.v
RemoteAuditRecovery.v
RemoteAuditCrash.v
RemoteAuditRuns.v
ServiceTelemetry.v
PostgresStore.v
PostgresServer.v
PostgresCaps.v
PostgresCalls.v
PostgresAlone.v
PostgresRuns.v
PostgresExamples.v
PostgresCleanup.v
Url.v
JsNumber.v
RateLimiter.v
CredentialVerifier.v
AccessToken.v
AccessRuns.v
AccessExamples.v
EngineSnapshot.v
LabRequest.v
LabIdentity.v
LabState.v
LabRoutes.v
LabServer.v
LabTenants.v
LabStoreLaws.v
LabStartup.v
LabPersistence.v
LabRuns.v
LabExamples.v
BackupFiles.v
BackupPaths.v
BackupLib.v
BackupRuns.v
BackupRoundTrip.v
BackupCommands.v
BackupExamples.v
ReleaseEvidence.v
ReleaseExamples.v
