(* ===== verification/Prelude.v ===== *)
(** * Contactless Airlock Lab, verified

    The repository is a payment-security laboratory written in TypeScript.  An
    issuer enrolls trusted devices, provisions payment tokens and authorizes
    transactions; provisioning and payment are approved by a signature of the
    device over the canonical bytes of a one-time challenge.  Around this core
    stand an audit log, a bank's case workflow, a SQLite and a Postgres store
    with an outbox, a signed webhook transport to partners, the verification of
    access tokens and of credentials, sessions, an HTTP server that demonstrates
    it all, the backup of its store, and the evidence a release rests on.  The
    development models these parts as executable functions and proves what each of
    them promises, alone and composed.

    ** How a program becomes a definition

    A call of a method is a function of its arguments, of the object's state
    and of a record ([Env], [Draw], [Draws]) of what the call draws from its
    surroundings: the readings of the clock and the random identifiers, in the
    order the code takes them, and the failures of the machine.  Its type is
    [St S A := S -> result A * S]: a call that throws keeps the state it had
    reached, as an object does, so what a failed call leaves behind is part of
    every statement.  A [result] is a value or the message of the thrown [Error];
    the server ([Srv]) and the backup ([Run]) tell kinds of exceptions apart and
    have monads of their own, with [try ... catch ... finally].  Numbers whose
    value decides something are [jsnum]: integers, fractions, infinities and NaN,
    with double arithmetic rounded to 53 bits; a [Date] is an integral time value
    or NaN; strings are lists of UTF-16 code units and byte strings lists of
    bytes; a [Map] is an association list in insertion order.  Objects handed out
    are [structuredClone]s, so values stand for them; records the code changes in
    place inside a map are updated there.

    Where calls overlap, they are programs of steps and the steps interleave: the
    statements of Postgres clients, the verifications of tokens around their
    requests, the appends to the remote log, the requests to the server around
    the bodies they await.

    What the repository calls and does not contain is a parameter with laws that
    state documented facts: [Host] (hashing, HMAC, keys, signing, the
    implementation defined part of [Date.parse], the printing of fractions),
    [Sqlite] (the text encoding of the driver), [SqliteFiles] (SQLite on the
    bytes of a file, with its online backup), [Postgres] (stored parameters),
    [Jose] and [WebAuthnLibrary] (token and assertion verification),
    [UrlParser], [PemExport] and [EngineJson] (a JSON value as a typed snapshot).
    No law says that SHA-256 has no collision: where that matters the theorem's
    conclusion names the colliding pair.  [TestHost], [DurableRuns] and the
    files of runs and examples give concrete instances, at which every theorem
    with a hypothesis is applied by computation.

    ** The files

    The language, shared by all components:
    - [Prelude]: strings, results, the state monad with its rules ([wp], [keeps],
      [preserves]), numbers, list lemmas, tactics and hints;
    - [JsString], [JsMap], [JsTime], [JsJson], [JsParse], [JsPretty]: character
      classes and encodings; maps; dates, with [Date.parse] inverting
      [toISOString]; [JSON.stringify], plain and indented; [JSON.parse], which
      reads back what either prints; [JsNumber]: double arithmetic; [Url]: what
      the program reads of a URL;
    - [IsoOrder]: timestamps of four-digit years compare as text in the order of
      their instants, which the SQL of the store relies on.

    The issuer:
    - [Transitions]: packages/state-machine/transitions.ts;
    - [Protocol]: packages/protocol, the challenge binding, its validation and its
      canonical encoding;
    - [DeviceKeys]: packages/crypto/deviceKeys.ts;
    - [ChallengeStore]: packages/state-machine/challengeStore.ts;
    - [AuditLog]: packages/audit/auditLog.ts, with [InMemoryAuditKeyring];
    - [RemoteAudit]: packages/audit/remoteAudit.ts over the interfaces of its key
      service, publisher and journal and a network that may lose requests and
      answers; [RemoteAuditRecovery] the laws of the services and of chains,
      [RemoteAuditCrash] the invariant through crashes, [RemoteAuditRuns]
      services in memory and concrete runs;
    - [Engine]: apps/issuer-simulator/airlockEngine.ts, every operation, snapshot
      and restore; [EngineSteps] its calls as a step relation;
      [EngineCap] spending caps; [EngineDevices] device identity and revocation;
      [EngineRefs] and [EngineRevoke] the references between aggregates and
      challenges and the atomicity of device actions; [EngineFlow] the life of a
      transaction; [EngineSnapshot] what a restore admits is the snapshot of the
      engine it makes.

    The bank's case workflow:
    - [CustomerOperations]: packages/customer-operations/operationsStateMachine.ts;
      [OperationsSteps] its abstract specification, as effects, and the
      refinement; [OperationsInv] the invariant proved on the effects and what
      follows; [OperationsRuns] retries and concrete runs.

    The stores and the partners:
    - [DurableStore]: packages/storage/durableStore.ts and migrations.ts, the
      SQLite tables and the calls over them; [DurableSteps] the row changes a
      call makes; [DurableRecords] versioned records and idempotent mutations;
      [DurableOutbox] claims, leases and delivery; [DurableRuns] concrete files;
    - [PostgresStore]: packages/storage/postgresStore.ts and postgresMigrations.ts,
      each call as the statements it sends, each statement over rows with locks;
      [PostgresServer] the threads of one database and the rely-guarantee rule
      for them; [PostgresCaps] and [PostgresCalls] what calls write and have done
      when they return; [PostgresRuns] the theorems over every interleaving;
      [PostgresAlone] calls begun while no other transaction is open;
      [PostgresExamples] one run; [PostgresCleanup]: [deleteTenantForTest], alone;
    - [PartnerContract]: packages/partner-transport/contract.ts and signing.ts, with
      the interface [ReplayStore]; [PartnerReceiver]: receiver.ts, with the
      interface [PartnerIdempotencyStore]; [PartnerDispatch]: dispatcher.ts and
      operations.ts, against the interface [OutboxLeaseSource];
    - [PartnerEndToEnd]: the durable outbox implements [OutboxLeaseSource], and
      store, dispatcher, wire format and receiver are composed; [PartnerRuns]
      carries one event through all of them.

    The edges:
    - [SessionBoundary]: packages/security/sessionBoundary.ts;
    - [AccessToken]: packages/identity, the verifier of access tokens with its
      cached key set; [AccessRuns] verifications interleaved; [AccessExamples];
    - [CredentialVerifier]: packages/credentials, the assertion verifier and the
      deterministic double of the tests;
    - [LaunchPolicy]: packages/operations/launchPolicy.ts;
    - [ServiceTelemetry]: packages/operations/serviceTelemetry.ts and
      capacityEvidence.ts.

    The server, apps/realtime-lab/server.ts:
    - [RateLimiter]: the limiter of mutations, token buckets in double arithmetic;
    - [LabRequest]: what is read from a request; [LabIdentity] what identifies a
      mutation and its client; [LabState]: the demonstration and its snapshots;
      [LabRoutes]: what each route does to it, by calls of the engine;
      [LabServer]: the handler, with sessions, tenants, idempotency, roll-back and
      event streams; [LabStartup]: [createLabServer];
    - [LabTenants] what crosses between tenants; [LabStoreLaws] what the server
      relies on in its database, the interface [LabStore], and a store that keeps
      it; [LabPersistence] and [LabRuns] the process and its database in step;
      [LabExamples] runs.

    The backup, src/tools/backup-lib.ts, backup-create.ts and backup-restore.ts:
    - [BackupFiles]: POSIX paths, files, directories, calls that may fail;
      [BackupPaths] resolved paths; [BackupLib]: the backup, its manifest and the
      verified restore; [BackupRuns] what they leave of the files; [BackupRoundTrip]
      a backup restores; [BackupCommands] the two commands; [BackupExamples] runs.

    The release, src/tools/release-evidence.ts:
    - [ReleaseEvidence]: the commands run on a commit and the evidence written of
      them; [ReleaseExamples] runs.

    Interfaces between components are classes with laws ([ReplayStoreLaws],
    [PartnerIdempotencyLaws], [OutboxLeaseLaws], [MacProviderLaws],
    [AnchorPublisherLaws], [StateStoreLaws], [LabStoreLaws]): the client's
    theorems use the laws alone, and the in-memory stores and the SQLite outbox
    discharge them.

    ** What is proved

    - The issuer: no sequence of calls, failed ones included, spends past a
      token's daily cap (C1); a confirmation needs a live challenge and a valid
      signature of an active device's current key (C2, C3), and a challenge is
      used once (C4); the signed bytes determine every field (C5).  Without a
      number: a transaction only moves along its table, device actions are all or
      nothing, a revoked device is revoked for good, a signature made verifies
      ([signApproval_verifies]), clearing has one outcome per state
      ([clearing_outcome]).
    - The audit log: it verifies however it is written (C6), and a restore against
      an anchor detects any other log (C7).
    - The remote audit log, for one caller at a time and as long as an answer is
      lost only with its caller: whatever requests the network loses and wherever
      the caller dies, every acknowledged event is in the log that opens (C8), and
      a failed append leaves it with its event or without, never broken (C9); the
      runs of [RemoteAuditRuns] show both provisos needed.
    - The Postgres store, over every interleaving and with lost connections:
      daily caps match the active reservations (C10), a mutation is committed once
      (C11), no update is lost (C12), a lease has one holder (C13); a reservation
      left alone ends within five steps, made or refused as the rows decide (C14).
    - Access: a verified token is signed by an admitted key and says what the
      identity says (C15), its identifier is used once (C16); a verified assertion
      has passed every check (C17) and its counter is never used again (C18).
    - The server: with a database, a mutation with a key is carried out once (C19)
      and the process and its database stay in step, but for the last result shown
      (C21); a tenant sees and changes its own state alone (C20), a start with a
      bad configuration fails (C22), the request hash determines requests whose
      bodies JSON keeps as they are (C23; [infinite_number_hashed_as_null] is a
      body it does not), a client cannot choose the address it is limited by
      (C24), and the rate of its mutations is bounded (C25).
    - The backup: a backup restores (C26); as long as the removal of what they wrote
      does not itself fail, a restore verifies or leaves nothing (C27) and a
      backup overwrites nothing (C28).
    - The release: evidence is written only of the expected commit, of a tree that
      is clean unless told otherwise and of commands that succeeded, with its
      digest (C29).
    - The workflow: each call is at most one effect of the specification (C30); a
      trust reset needs two approvers (C31), snapshots restore (C32).
    - Partners: signed events are accepted (C33), and what is sent comes of a
      claimable row of the outbox and is applied once at the partner (C34); the
      dispatcher acknowledges only what was delivered or dead-lettered (C37).
    - The SQLite store: mutations take effect exactly once (C35) and claims go in
      order of age (C36).
    - Sessions die once, at their absolute or idle lifetime or when revoked (C38).
      Admission keeps the policy's limits, and the metrics of any run of the
      telemetry can be evaluated (C39).  The launch policies that parse are exactly
      the well-formed ones (C40).  Without a number: the receiver applies each event once
      ([event_applied_once]), the breaker limits sends, tenants of the workflow
      are isolated, the bodies of the key set are bounded.

    Theorems without a number include the runs behind the reported defects:
    [EngineFlow.approval_confirms_another_transaction] and its neighbours,
    [OperationsRuns.tenants_share_cases], [PartnerReceiver.replay_at_window_edge],
    [PartnerDispatch.oversized_timeout_never_sends],
    [LaunchPolicy.nan_latency_passes], [RateLimiter.clock_step_refills],
    [AccessExamples.refresh_failure_escapes], [AccessExamples.twice_verified] and
    their neighbours, of the remote audit log [lost_publication_answer_loses_log],
    [opening_during_append_loses_log] and [concurrent_appends_lose_log], and of
    the server [unread_body_crosses_tenants], [failed_login_shows_a_tenant] and
    [late_demonstration_wedges].

    ** Bounds and fuel

    Only [JSON.parse], the decimal printer and the programs of the token verifier
    and of the Postgres calls recurse on fuel or along a trace: the parser on the
    length of its text, the printer on the bit length of its number.  Both are
    shown to suffice where a theorem needs it: the parser reads back every text
    the printers write, and decimal digits are complete; a Postgres call left
    alone ends ([PostgresAlone.call_alone]).  All other loops of the program run over finite
    lists and are structural.  Clock and size bounds in hypotheses (time values up
    to 8.64e15, years of four digits in stored timestamps, safe integers) are
    those of the language and of the formats.

    ** Not modelled

    - Of the Postgres store: the connection pool of the driver, and other calls
      during [deleteTenantForTest], which refuses to run outside tests.
    - Of the server: the admission and measurements of the telemetry in the
      handler, response headers, static files and the bodies of HEAD answers,
      cookie attributes, the heartbeats of event streams and the start of the
      process.  Writes of other processes to the database fall between handlers;
      objects of the state are values, as no route keeps a reference to one that
      another changes.
    - Of the backup: the sidecar files of SQLite's log, failures of [close], paths
      of Windows, and files that other processes create meanwhile, except where a
      claim fails and the writes to the source during the copy.
    - [assertPrivacySafeServiceMetrics], a check of printed metrics.
    - The browser page, which keeps no state of the system; the other tools and
      scripts, which drive the program over processes and the network; contracts,
      documents and tests.
    - Wall-clock timers: the timeout race of a send is the answer or rejection
      the world gives.  JavaScript's garbage collection does not matter
      to the modelled code.  Objects are values: where the code keeps what its
      caller passed (the binding given to the challenge store, the payload given
      to the audit log) a later change by the caller is not represented. *)
From stdpp Require Export base tactics list strings sets.
From Stdlib Require Export ZArith Lia.

#[export] Set Warnings "-clear-no-such-hyp,-register-all".

(** ** JavaScript strings

    A JavaScript string is a sequence of 16-bit code units. *)
Definition jstr : Type := list N.

(** ASCII literals of the source, as code units. *)
Definition js (s : string) : jstr :=
  map Ascii.N_of_ascii (String.list_ascii_of_string s).

Coercion js : string >-> jstr.

#[global] Instance jstr_eq_dec : EqDecision jstr := _.
#[global] Instance jstr_inhabited : Inhabited jstr := populate [].

(** String equality as the boolean [===] of the source. *)
Definition jeqb (a b : jstr) : bool := bool_decide (a = b).

Lemma jeqb_true a b : jeqb a b = true <-> a = b.
Proof. apply bool_decide_eq_true. Qed.
Lemma jeqb_false a b : jeqb a b = false <-> a <> b.
Proof. apply bool_decide_eq_false. Qed.
Lemma jeqb_of_eq a b : a = b -> jeqb a b = true.
Proof. intros ->. by apply bool_decide_true. Qed.

(** [list.includes(s)] and [set.has(s)] *)
Definition includes (l : list jstr) (s : jstr) : bool := bool_decide (s ∈ l).
Lemma includes_true l s : includes l s = true <-> s ∈ l.
Proof. apply bool_decide_eq_true. Qed.
Lemma includes_in l x : x ∈ l -> includes l x = true.
Proof. apply bool_decide_true. Qed.

Declare Scope js_scope.
Delimit Scope js_scope with js.
Notation "a =s? b" := (jeqb a b) (at level 70) : js_scope.
Notation "a +:+ b" := (@app N (a : jstr) (b : jstr))
  (at level 60, right associativity) : js_scope.

(** ** Results: a JavaScript call returns a value or throws an [Error]. *)
Inductive result (A : Type) : Type :=
| Ok (a : A)
| Throw (msg : jstr).
Arguments Ok {A} a.
Arguments Throw {A} msg.

#[global] Instance result_ret : MRet result := fun A a => Ok a.
#[global] Instance result_bind : MBind result := fun A B k r =>
  match r with Ok a => k a | Throw e => Throw e end.
#[global] Instance result_eq_dec {A} `{EqDecision A} : EqDecision (result A).
Proof. solve_decision. Defined.

Definition is_ok {A} (r : result A) : bool :=
  match r with Ok _ => true | Throw _ => false end.

(** [if (b) throw new Error(msg);] *)
Definition throw_if (b : bool) (msg : jstr) : result unit :=
  if b then Throw msg else Ok tt.

(** [for (const x of l) f(x);] where the body may throw. *)
Fixpoint for_each {A} (l : list A) (f : A -> result unit) : result unit :=
  match l with
  | [] => Ok tt
  | x :: l => f x ≫= fun _ => for_each l f
  end.

(** ** Stateful calls: mutation survives an exception, so a call yields a
    result together with the state left behind on either path. *)
Definition St (S A : Type) : Type := S -> result A * S.

#[global] Instance St_ret {S} : MRet (St S) := fun A a s => (Ok a, s).
#[global] Instance St_bind {S} : MBind (St S) := fun A B k m s =>
  match m s with
  | (Ok a, s') => k a s'
  | (Throw e, s') => (Throw e, s')
  end.

Definition lift {S A} (r : result A) : St S A := fun s => (r, s).
Definition sget {S} : St S S := fun s => (Ok s, s).
Definition smodify {S} (f : S -> S) : St S unit := fun s => (Ok tt, f s).

(** Running a call of a sub-object held in a field of [S]. *)
Definition zoom {S T A} (proj : S -> T) (upd : T -> S -> S) (m : St T A) : St S A :=
  fun s => let '(r, t) := m (proj s) in (r, upd t s).

Fixpoint sfor {S A} (l : list A) (f : A -> St S unit) : St S unit :=
  match l with
  | [] => mret tt
  | x :: l => f x ≫= fun _ => sfor l f
  end.

(** ** Weakest preconditions over both exits. *)
Definition wp {S A} (m : St S A) (Q : result A -> S -> Prop) (s : S) : Prop :=
  Q (m s).1 (m s).2.

Section wp.
Context {S A B : Type}.
Implicit Types (s : S).

Lemma wp_mret (a : A) (Q : result A -> S -> Prop) s :
wp (mret a) Q s <-> Q (Ok a) s.
Proof. done. Qed.

Lemma wp_lift (r : result A) (Q : result A -> S -> Prop) s :
wp (lift r) Q s <-> Q r s.
Proof. done. Qed.

Lemma wp_sget (Q : result S -> S -> Prop) s : wp sget Q s <-> Q (Ok s) s.
Proof. done. Qed.

Lemma wp_smodify (f : S -> S) (Q : result unit -> S -> Prop) s :
wp (smodify f) Q s <-> Q (Ok tt) (f s).
Proof. done. Qed.

Lemma wp_bind (m : St S A) (k : A -> St S B) (Q : result B -> S -> Prop) s :
wp (m ≫= k) Q s <->
wp m (fun r s' => match r with
        | Ok a => wp (k a) Q s'
        | Throw e => Q (Throw e) s'
        end) s.
Proof. unfold wp, mbind, St_bind. by destruct (m s) as [[a|e] s']. Qed.

Lemma wp_zoom {T} (proj : S -> T) (upd : T -> S -> S) (m : St T A)
(Q : result A -> S -> Prop) s :
wp (zoom proj upd m) Q s <-> wp m (fun r t => Q r (upd t s)) (proj s).
Proof. unfold wp, zoom. by destruct (m (proj s)). Qed.

Lemma wp_mono (m : St S A) (P Q : result A -> S -> Prop) s :
(forall r s', P r s' -> Q r s') -> wp m P s -> wp m Q s.
Proof. unfold wp. auto. Qed.

Lemma wp_conj (m : St S A) (P Q : result A -> S -> Prop) s :
wp m P s -> wp m Q s -> wp m (fun r s' => P r s' /\ Q r s') s.
Proof. unfold wp. auto. Qed.
End wp.

Lemma wp_sfor {S A} (I : S -> Prop) (l : list A) (f : A -> St S unit) s
    (Q : result unit -> S -> Prop) :
  I s ->
  (forall x s, x ∈ l -> I s -> wp (f x) (fun r s' =>
     match r with Ok _ => I s' | Throw e => Q (Throw e) s' end) s) ->
  (forall s, I s -> Q (Ok tt) s) ->
  wp (sfor l f) Q s.
Proof.
  revert s. induction l as [|x l IH]; intros s Hs Hf HQ; simpl; [by apply HQ|].
  apply wp_bind. eapply wp_mono; [|apply Hf; [constructor|done]].
  intros [[]|e] s' H; [|done]. apply IH; [done| |done].
  intros y t Hy. apply Hf. by constructor.
Qed.

(** One step through a stateful call. *)
Ltac wp_step :=
  lazymatch goal with
  | |- wp (_ ≫= _) _ _ => apply wp_bind
  | |- wp (mret _) _ _ => apply wp_mret
  | |- wp (lift _) _ _ => apply wp_lift
  | |- wp sget _ _ => apply wp_sget
  | |- wp (smodify _) _ _ => apply wp_smodify
  | |- wp (zoom _ _ _) _ _ => apply wp_zoom
  | |- wp (if ?b then _ else _) _ _ => destruct b eqn:?
  end.
Ltac wp_steps := repeat (cbv beta; wp_step).

(** ** Calls that keep a property on every exit *)

Definition keeps {S A} (I : S -> Prop) (m : St S A) : Prop := forall s, I s -> I (m s).2.

Section keeps.
Context {S : Type} (I : S -> Prop).

Lemma keeps_ret {A} (a : A) : keeps I (mret a).
Proof. by intros s. Qed.
Lemma keeps_lift {A} (r : result A) : keeps I (lift r).
Proof. by intros s. Qed.
Lemma keeps_get : keeps I sget.
Proof. by intros s. Qed.
Lemma keeps_modify f : (forall s, I s -> I (f s)) -> keeps I (smodify f).
Proof. by intros Hf s Hs; apply Hf. Qed.
Lemma keeps_bind {A B} (m : St S A) (k : A -> St S B) :
keeps I m -> (forall a, keeps I (k a)) -> keeps I (m ≫= k).
Proof.
intros Hm Hk s Hs. specialize (Hm s Hs). unfold mbind, St_bind.
destruct (m s) as [[a|e] s']; [by apply Hk|done].
Qed.
(** Reading the state first. *)
Lemma keeps_read {B} (k : S -> St S B) :
(forall s, I s -> I (k s s).2) -> keeps I (sget ≫= k).
Proof. by intros Hk s Hs; apply Hk. Qed.
Lemma keeps_lift_bind {A B} (r : result A) (k : A -> St S B) :
(forall a, r = Ok a -> keeps I (k a)) -> keeps I (lift r ≫= k).
Proof. intros Hk s Hs. cbv [mbind St_bind lift]. destruct r as [a|]; [by apply Hk|done]. Qed.
Lemma keeps_zoom {T A} (proj : S -> T) (upd : T -> S -> S) (m : St T A) :
(forall s t, I s -> I (upd t s)) -> keeps I (zoom proj upd m).
Proof. intros Hu s Hs. unfold zoom. destruct (m (proj s)). by apply Hu. Qed.
End keeps.

(** ** Inverting calls that returned *)

Lemma bind_Ok_inv {S A B} (m : St S A) (k : A -> St S B) s b s' :
  (m ≫= k) s = (Ok b, s') -> exists a s1, m s = (Ok a, s1) /\ k a s1 = (Ok b, s').
Proof. cbv [mbind St_bind]. destruct (m s) as [[a|] s1]; [|done]. by exists a, s1. Qed.

Lemma lift_inv {S A} (r : result A) s a (s' : S) : lift r s = (Ok a, s') -> r = Ok a /\ s' = s.
Proof. cbv [lift]. by intros [= -> ->]. Qed.

Lemma pair_eq {A B} (p : A * B) a b : p.1 = a -> p.2 = b -> p = (a, b).
Proof. by destruct p; intros <- <-. Qed.

(** One step of a call at a known state. *)
Section at_state.
Context {S : Type} (I : S -> Prop).

Lemma at_lift_bind {A B} (r : result A) (k : A -> St S B) s :
I s -> (forall a, r = Ok a -> I (k a s).2) -> I ((lift r ≫= k) s).2.
Proof. intros Hs Hk. cbv [mbind St_bind lift]. destruct r; [by apply Hk|done]. Qed.
Lemma at_get_bind {B} (k : S -> St S B) s : I (k s s).2 -> I ((sget ≫= k) s).2.
Proof. done. Qed.
Lemma at_modify_bind {B} f (k : unit -> St S B) s : I (k tt (f s)).2 -> I ((smodify f ≫= k) s).2.
Proof. done. Qed.
Lemma at_zoom_bind {T A B} (proj : S -> T) (upd : T -> S -> S) (m : St T A) (k : A -> St S B) s :
(forall t, I (upd t s)) -> (forall a t, I (k a (upd t s)).2) ->
I ((zoom proj upd m ≫= k) s).2.
Proof.
intros Ht Hk. cbv [mbind St_bind]. unfold zoom. destruct (m (proj s)) as [[a|] t]; [apply Hk|apply Ht].
Qed.
Lemma at_assoc {A B C} (m : St S A) (f : A -> St S B) (k : B -> St S C) s :
I ((m ≫= fun a => f a ≫= k) s).2 -> I (((m ≫= f) ≫= k) s).2.
Proof. cbv [mbind St_bind]. by destruct (m s) as [[]]. Qed.
Lemma at_ok {A B} (r : result A) a (k : A -> St S B) s :
r = Ok a -> I (k a s).2 -> I ((lift r ≫= k) s).2.
Proof. by intros ->. Qed.
Lemma at_ret {A} (a : A) s : I s -> I (mret (M := St S) a s).2.
Proof. done. Qed.
Lemma at_ret_bind {A B} (a : A) (k : A -> St S B) s : I (k a s).2 -> I ((mret a ≫= k) s).2.
Proof. done. Qed.
(** A part of a call that keeps a stronger property. *)
Lemma at_keeps_bind {A B} (J : S -> Prop) (m : St S A) (k : A -> St S B) s :
keeps J m -> J s -> (forall s', J s' -> I s') -> (forall a s', J s' -> I (k a s').2) ->
I ((m ≫= k) s).2.
Proof.
intros Hm Hs HI Hk. specialize (Hm s Hs). cbv [mbind St_bind].
destruct (m s) as [[a|] s']; [by apply Hk|by apply HI].
Qed.
Lemma at_keeps {A} (J : S -> Prop) (m : St S A) s :
keeps J m -> J s -> (forall s', J s' -> I s') -> I (m s).2.
Proof. intros Hm Hs HI. by apply HI, Hm. Qed.
End at_state.

(** Decomposes a call down to its primitive state changes. *)
Ltac keeps_step :=
  lazymatch goal with
  | |- keeps _ (mret _) => apply keeps_ret
  | |- keeps _ (lift _) => apply keeps_lift
  | |- keeps _ sget => apply keeps_get
  | |- keeps _ (smodify _) => apply keeps_modify; intros
  | |- keeps _ (lift _ ≫= _) => apply keeps_lift_bind; intros
  | |- keeps _ (_ ≫= _) => apply keeps_bind; [|intros]
  | |- keeps _ (if ?b then _ else _) => destruct b eqn:?
  | |- keeps _ (match ?o with Some _ => _ | None => _ end) => destruct o eqn:?
  | |- keeps _ (let '(_, _) := ?p in _) => destruct p
  end.
Ltac keeps_steps := repeat (cbv beta zeta; keeps_step).

(** ** JavaScript numbers

    A number is an integer, a finite non-integer, a NaN or an infinity; every
    arithmetic result the code keeps is first tested by
    [Number.isSafeInteger]. *)
Inductive jsnum : Type :=
| NInt (z : Z)
| NFrac (num : Z) (den : positive)
| NNaN
| NInf (negative : bool).

#[global] Instance jsnum_eq_dec : EqDecision jsnum.
Proof. solve_decision. Defined.

Open Scope Z_scope.

Definition MAX_SAFE_INTEGER : Z := 9007199254740991.

Definition safe_int (z : Z) : bool := Z.abs z <=? MAX_SAFE_INTEGER.

(** [Number.isSafeInteger(n) && lo <= n && n <= hi], giving the integer. *)
Definition safe_between (n : jsnum) (lo hi : Z) : option Z :=
  match n with
  | NInt z => if safe_int z && (lo <=? z) && (z <=? hi) then Some z else None
  | _ => None
  end.

Lemma safe_between_Some n lo hi z :
  safe_between n lo hi = Some z <->
  n = NInt z /\ Z.abs z <= MAX_SAFE_INTEGER /\ lo <= z <= hi.
Proof.
  unfold safe_between, safe_int.
  destruct n as [m| | |]; [|split; [done|by intros [[=] _]]..].
  destruct (_ && _) eqn:E; rewrite ?andb_true_iff, ?andb_false_iff,
    ?Z.leb_le, ?Z.leb_gt in E; (split; [try done|]).
  - intros [= <-]. intuition lia.
  - by intros [[= ->] _].
  - intros [[= ->] H]. lia.
Qed.

(** IEEE-754 double addition of two integers: exact up to 2^53, otherwise
    rounded to 53 significant bits, ties to even. *)
Definition round53 (z : Z) : Z :=
  let a := Z.abs z in
  let e := Z.max 0 (Z.log2 a - 52) in
  let q := a / 2 ^ e in
  let r := a mod 2 ^ e in
  let half := 2 ^ e / 2 in
  let up := if (e =? 0) then false
            else if r <? half then false
            else if half <? r then true else Z.odd q in
  Z.sgn z * ((if up then q + 1 else q) * 2 ^ e).

Definition num_add (a b : Z) : Z := round53 (a + b).
Definition num_sub (a b : Z) : Z := round53 (a - b).

Lemma round53_small z : Z.abs z <= 2 ^ 53 -> round53 z = z.
Proof.
  intros Hz. unfold round53.
  destruct (Z.eq_dec (Z.abs z) (2 ^ 53)) as [E|NE].
  - rewrite E. change (Z.sgn z * 2 ^ 53 = z). lia.
  - assert (Z.log2 (Z.abs z) <= 52).
    { destruct (Z.eq_dec z 0) as [->|]; [done|].
      apply Z.lt_succ_r, Z.log2_lt_pow2; change (Z.succ 52) with 53; lia. }
    rewrite Z.max_l by lia. simpl. rewrite Z.div_1_r. lia.
Qed.

Lemma round53_big z : 2 ^ 53 <= z -> 2 ^ 53 <= round53 z.
Proof.
  intros Hz. unfold round53.
  assert (Hlog : 53 <= Z.log2 z) by (by apply Z.log2_le_pow2; lia).
  rewrite Z.abs_eq, Z.sgn_pos, Z.mul_1_l, Z.max_r by lia.
  set (e := Z.log2 z - 52).
  assert (Hq : 2 ^ 52 <= z / 2 ^ e).
  { apply Z.div_le_lower_bound; [apply Z.pow_pos_nonneg; lia|].
    rewrite <-Z.pow_add_r by lia. replace (e + 52) with (Z.log2 z) by lia.
    apply Z.log2_spec. lia. }
  assert (He : 2 <= 2 ^ e).
  { change 2 with (2 ^ 1) at 1. apply Z.pow_le_mono_r; lia. }
  change (2 ^ 53) with (2 ^ 52 * 2). repeat case_match; nia.
Qed.

(** Addition of safe integers is exact whenever the sum is safe, and a sum
    beyond the safe range is never rounded back into it. *)
Lemma num_add_exact a b : Z.abs (a + b) <= MAX_SAFE_INTEGER -> num_add a b = a + b.
Proof. intros. apply round53_small. unfold MAX_SAFE_INTEGER in *. lia. Qed.

Lemma num_add_le_cap a b cap :
  0 <= a + b -> cap <= MAX_SAFE_INTEGER -> num_add a b <= cap ->
  num_add a b = a + b /\ a + b <= cap.
Proof.
  unfold num_add, MAX_SAFE_INTEGER. intros Hab Hcap H.
  destruct (Z.le_gt_cases (a + b) (2 ^ 53)) as [Hs|Hb].
  - rewrite round53_small in * by lia. lia.
  - pose proof (round53_big (a + b)). lia.
Qed.

(** Linear arithmetic with the defining equations of [/] and [mod]. *)
Ltac div_lia := zify; Z.to_euclidean_division_equations; lia.

(** ** Lists *)
Lemma forallb_Forall {A} (f : A -> bool) l :
  forallb f l = true <-> Forall (fun x => f x = true) l.
Proof.
  induction l as [|x l IH]; simpl; [by split|].
  by rewrite Forall_cons, andb_true_iff, IH.
Qed.

Lemma existsb_false_Forall {A} (f : A -> bool) l :
  existsb f l = false <-> Forall (fun x => f x = false) l.
Proof.
  induction l as [|x l IH]; simpl; [by split|].
  by rewrite Forall_cons, orb_false_iff, IH.
Qed.

(** ** Inverting guarded computations *)
Lemma result_bind_Ok {A B} (m : result A) (k : A -> result B) b :
  (m ≫= k) = Ok b <-> exists a, m = Ok a /\ k a = Ok b.
Proof.
  destruct m as [a|e]; simpl; split.
  - by exists a.
  - by intros (? & [= <-] & ?).
  - done.
  - by intros (? & ? & _).
Qed.

Lemma throw_if_bind_Ok {B} b msg (k : unit -> result B) r :
  (throw_if b msg ≫= k) = Ok r <-> b = false /\ k tt = Ok r.
Proof.
  rewrite result_bind_Ok. unfold throw_if. destruct b; split.
  - by intros (? & ? & _).
  - by intros [? _].
  - by intros ([] & _ & ?).
  - intros [_ ?]. by exists tt.
Qed.

Lemma throw_unless_Ok b msg u : throw_if (negb b) msg = Ok u <-> b = true.
Proof. unfold throw_if. destruct b, u; split; done. Qed.

Lemma throw_if_Ok b msg u : throw_if b msg = Ok u <-> b = false.
Proof. unfold throw_if. destruct b, u; split; done. Qed.

Lemma for_each_bind_Ok {A B} (l : list A) (f : A -> result unit) (k : unit -> result B) r :
  (for_each l f ≫= k) = Ok r <-> Forall (fun x => f x = Ok tt) l /\ k tt = Ok r.
Proof.
  induction l as [|x l IH]; simpl; [by split; [|intros [_ ?]]|].
  rewrite Forall_cons. destruct (f x) as [[]|e]; simpl; [|by split; [|intros [[? _] _]]].
  change (for_each l f ≫= k) with (for_each l f ≫= k) in IH. rewrite IH. tauto.
Qed.

Lemma for_each_Ok {A} (l : list A) f :
  for_each l f = Ok tt <-> Forall (fun x => f x = Ok tt) l.
Proof.
  pose proof (for_each_bind_Ok l f (fun _ => Ok tt) tt) as E.
  assert (Hb : (for_each l f ≫= fun _ => Ok tt) = for_each l f) by (by destruct (for_each l f) as [[]|]).
  rewrite Hb in E. rewrite E. by split; [intros [? _]|].
Qed.
