(* ===== verification/JsString.v ===== *)
(** JsString: the parts of the JavaScript string library the program uses on
    its identifiers and its canonical encodings: character classes and the
    identifier pattern, decimal rendering, surrogate well-formedness and
    UTF-8, with the lemmas that make each encoding uniquely decodable. *)
From S2P Require Import Prelude.
Open Scope N_scope.

(** ** Character classes and the identifier pattern *)

Definition in_range (lo hi c : N) : bool := (lo <=? c) && (c <=? hi).
Definition is_digit (c : N) : bool := in_range 48 57 c.
Definition is_upper (c : N) : bool := in_range 65 90 c.
Definition is_lower (c : N) : bool := in_range 97 122 c.
Definition is_alnum (c : N) : bool := is_digit c || is_upper c || is_lower c.

(** [[A-Za-z0-9._:-]] *)
Definition is_id_char (c : N) : bool :=
  is_alnum c || (c =? 46) || (c =? 95) || (c =? 58) || (c =? 45).

(** [/^[A-Za-z0-9][A-Za-z0-9._:-]{0,max}$/] *)
Definition id_pattern_max (max : nat) (s : jstr) : bool :=
  match s with
  | [] => false
  | c :: r => is_alnum c && forallb is_id_char r && (length r <=? max)%nat
  end.

(** The program's identifier pattern [/^[A-Za-z0-9][A-Za-z0-9._:-]{0,127}$/]. *)
Definition id_pattern (s : jstr) : bool := id_pattern_max 127 s.

(** [/^[A-Za-z0-9_-]{n}$/] *)
Definition is_base64url_char (c : N) : bool := is_alnum c || (c =? 95) || (c =? 45).
Definition base64url_of_length (n : nat) (s : jstr) : bool :=
  (length s =? n)%nat && forallb is_base64url_char s.

(** [/^[a-f0-9]{n}$/] *)
Definition is_hex_char (c : N) : bool := is_digit c || in_range 97 102 c.
Definition hex_of_length (n : nat) (s : jstr) : bool :=
  (length s =? n)%nat && forallb is_hex_char s.

Lemma id_pattern_nonempty s : id_pattern s = true -> s <> [].
Proof. by destruct s. Qed.

(** No identifier contains a code unit outside the class, in particular no
    separator used to build composite keys. *)
Lemma id_pattern_chars s : id_pattern s = true -> Forall (fun c => is_id_char c = true) s.
Proof.
  destruct s as [|c r]; [done|]. unfold id_pattern, id_pattern_max.
  rewrite !andb_true_iff. intros [[Hc Hr] _]. constructor.
  - unfold is_id_char. by rewrite Hc.
  - apply Forall_forall. intros x Hx. eapply forallb_forall in Hr; [done|].
    by apply list_elem_of_In.
Qed.

(** ** [trim] and ordering *)

(** White space and line terminators, as [String.prototype.trim] strips them. *)
Definition is_js_space (c : N) : bool :=
  in_range 9 13 c || (c =? 32) || (c =? 160) || (c =? 5760) || in_range 8192 8202 c
  || (c =? 8232) || (c =? 8233) || (c =? 8239) || (c =? 8287) || (c =? 12288) || (c =? 65279).

Fixpoint trim_start (s : jstr) : jstr :=
  match s with
  | [] => []
  | c :: r => if is_js_space c then trim_start r else s
  end.

(** [s.trim()] *)
Definition trim (s : jstr) : jstr := reverse (trim_start (reverse (trim_start s))).

(** The order of [Array.prototype.sort] on strings: by code units. *)
Fixpoint jstr_le (s t : jstr) : bool :=
  match s, t with
  | [], _ => true
  | _ :: _, [] => false
  | c :: s, d :: t => if c =? d then jstr_le s t else c <? d
  end.

(** ** Decimal rendering *)

(** Fixed-width, zero-padded digits: [String(n).padStart(w, "0")] for
    [n < 10^w]. *)
Fixpoint pad_digits (w : nat) (n : N) : jstr :=
  match w with
  | O => []
  | S w => pad_digits w (n / 10) ++ [48 + n mod 10]
  end.

Fixpoint decimal_aux (fuel : nat) (n : N) (acc : jstr) : jstr :=
  match fuel with
  | O => acc
  | S fuel =>
      let acc := (48 + n mod 10) :: acc in
      if n / 10 =? 0 then acc else decimal_aux fuel (n / 10) acc
  end.

(** [String(n)] for a natural number below 10^21. *)
Definition decimal (n : N) : jstr := decimal_aux (S (N.to_nat (N.log2 n))) n [].

(** [String(z)] for an integer below 10^21 in absolute value. *)
Definition decimal_Z (z : Z) : jstr :=
  if (z <? 0)%Z then 45 :: decimal (Z.to_N (- z)) else decimal (Z.to_N z).

(** The value of a run of digits. *)
Definition digits_value (s : jstr) : N := fold_left (fun a c => a * 10 + (c - 48)) s 0.

Lemma digits_value_app s t :
  digits_value (s ++ t) = fold_left (fun a c => a * 10 + (c - 48)) t (digits_value s).
Proof. unfold digits_value. by rewrite fold_left_app. Qed.

Lemma digits_value_pad w n : digits_value (pad_digits w n) = n mod 10 ^ N.of_nat w.
Proof.
  revert n. induction w as [|w IH]; intros n; [by rewrite N.mod_1_r|].
  cbn [pad_digits]. rewrite digits_value_app, IH. cbn [fold_left].
  rewrite Nnat.Nat2N.inj_succ, N.pow_succ_r', N.Div0.mod_mul_r.
  generalize (n / 10 mod 10 ^ N.of_nat w). intros q. div_lia.
Qed.

Lemma pad_digits_inj w n m :
  n < 10 ^ N.of_nat w -> m < 10 ^ N.of_nat w ->
  pad_digits w n = pad_digits w m -> n = m.
Proof.
  intros Hn Hm E. apply (f_equal digits_value) in E.
  by rewrite !digits_value_pad, !N.mod_small in E.
Qed.

Lemma pad_digits_length w n : length (pad_digits w n) = w.
Proof. revert n. induction w; intros; simpl; rewrite ?length_app, ?IHw; simpl; lia. Qed.

Lemma pad_digits_are_digits w n : Forall (fun c => is_digit c = true) (pad_digits w n).
Proof.
  revert n. induction w as [|w IH]; intros n; simpl; [constructor|].
  apply Forall_app. split; [apply IH|]. repeat constructor.
  unfold is_digit, in_range. rewrite andb_true_iff, !N.leb_le. div_lia.
Qed.

Lemma decimal_aux_value fuel n acc :
  (0 < fuel)%nat -> n < 2 ^ N.of_nat fuel ->
  fold_left (fun a c => a * 10 + (c - 48)) (decimal_aux fuel n acc) 0 =
  fold_left (fun a c => a * 10 + (c - 48)) acc n.
Proof.
  revert n acc. induction fuel as [|fuel IH]; intros n acc Hf Hn; [lia|].
  cbn [decimal_aux].
  destruct (N.eqb_spec (n / 10) 0) as [E|NE].
  - cbn [fold_left]. f_equal. div_lia.
  - rewrite Nnat.Nat2N.inj_succ, N.pow_succ_r' in Hn.
    destruct fuel as [|fuel].
    { cbn in Hn. rewrite N.div_small in NE by lia. lia. }
    rewrite IH; [|lia|div_lia]. cbn [fold_left]. f_equal. div_lia.
Qed.

Lemma digits_value_decimal n : digits_value (decimal n) = n.
Proof.
  unfold digits_value, decimal. rewrite decimal_aux_value; [done|lia|].
  rewrite Nnat.Nat2N.inj_succ, Nnat.N2Nat.id.
  destruct (N.eq_dec n 0) as [->|]; [done|]. apply N.log2_spec. lia.
Qed.

Lemma decimal_aux_digits fuel n acc :
  Forall (fun c => is_digit c = true) acc ->
  Forall (fun c => is_digit c = true) (decimal_aux fuel n acc).
Proof.
  revert n acc. induction fuel as [|fuel IH]; intros n acc Ha; simpl; [done|].
  assert (Forall (fun c => is_digit c = true) ((48 + n mod 10) :: acc)).
  { constructor; [|done]. unfold is_digit, in_range.
    rewrite andb_true_iff, !N.leb_le. div_lia. }
  case_match; auto.
Qed.

Lemma decimal_digits n : Forall (fun c => is_digit c = true) (decimal n).
Proof. apply decimal_aux_digits. constructor. Qed.

(** ** Surrogates and UTF-8 *)

Definition is_high_surrogate (c : N) : bool := in_range 55296 56319 c.
Definition is_low_surrogate (c : N) : bool := in_range 56320 57343 c.

(** Every code unit of a JavaScript string is below 2^16. *)
Definition code_units (s : jstr) : Prop := Forall (fun c => c < 65536) s.

(** The UTF-8 bytes of a code point. *)
Definition utf8_code_point (p : N) : list N :=
  if p <? 128 then [p]
  else if p <? 2048 then [192 + p / 64; 128 + p mod 64]
  else if p <? 65536 then [224 + p / 4096; 128 + p / 64 mod 64; 128 + p mod 64]
  else [240 + p / 262144; 128 + p / 4096 mod 64; 128 + p / 64 mod 64; 128 + p mod 64].

Definition surrogate_pair (h l : N) : N := 65536 + (h - 55296) * 1024 + (l - 56320).

(** [new TextEncoder().encode(s)]: an unpaired surrogate becomes U+FFFD. *)
Fixpoint utf8_encode (s : jstr) : list N :=
  match s with
  | [] => []
  | c :: r =>
      if is_high_surrogate c then
        match r with
        | l :: r' =>
            if is_low_surrogate l
            then utf8_code_point (surrogate_pair c l) ++ utf8_encode r'
            else utf8_code_point 65533 ++ utf8_encode r
        | [] => utf8_code_point 65533
        end
      else if is_low_surrogate c then utf8_code_point 65533 ++ utf8_encode r
      else utf8_code_point c ++ utf8_encode r
  end.

(** The code units of a code point. *)
Definition utf8_units (p : N) : jstr :=
  if p <? 65536 then [p]
  else [55296 + (p - 65536) / 1024; 56320 + (p - 65536) mod 1024].

(** The range of the second byte after the lead [b0] of three or four bytes. *)
Definition second_lo (b0 : N) : N := if b0 =? 224 then 160 else if b0 =? 240 then 144 else 128.
Definition second_hi (b0 : N) : N := if b0 =? 237 then 159 else if b0 =? 244 then 143 else 191.

(** [buffer.toString("utf8")]: each maximal part of a malformed sequence
    becomes U+FFFD. *)
Fixpoint utf8_decode (bs : list N) : jstr :=
  match bs with
  | [] => []
  | b0 :: r =>
      if b0 <? 128 then b0 :: utf8_decode r
      else if in_range 194 223 b0 then
        match r with
        | b1 :: r1 =>
            if in_range 128 191 b1 then utf8_units ((b0 - 192) * 64 + (b1 - 128)) ++ utf8_decode r1
            else 65533 :: utf8_decode r
        | [] => [65533]
        end
      else if in_range 224 239 b0 then
        match r with
        | b1 :: r1 =>
            if in_range (second_lo b0) (second_hi b0) b1 then
              match r1 with
              | b2 :: r2 =>
                  if in_range 128 191 b2 then
                    utf8_units ((b0 - 224) * 4096 + (b1 - 128) * 64 + (b2 - 128)) ++ utf8_decode r2
                  else 65533 :: utf8_decode r1
              | [] => [65533]
              end
            else 65533 :: utf8_decode r
        | [] => [65533]
        end
      else if in_range 240 244 b0 then
        match r with
        | b1 :: r1 =>
            if in_range (second_lo b0) (second_hi b0) b1 then
              match r1 with
              | b2 :: r2 =>
                  if in_range 128 191 b2 then
                    match r2 with
                    | b3 :: r3 =>
                        if in_range 128 191 b3 then
                          utf8_units ((b0 - 240) * 262144 + (b1 - 128) * 4096 + (b2 - 128) * 64 + (b3 - 128))
                          ++ utf8_decode r3
                        else 65533 :: utf8_decode r2
                    | [] => [65533]
                    end
                  else 65533 :: utf8_decode r1
              | [] => [65533]
              end
            else 65533 :: utf8_decode r
        | [] => [65533]
        end
      else 65533 :: utf8_decode r
  end.

(** [containsUnpairedSurrogate] of the protocol encoder. *)
Fixpoint containsUnpairedSurrogate (value : jstr) : bool :=
  match value with
  | [] => false
  | code :: r =>
      if in_range 55296 56319 code then
        match r with
        | [] => true
        | next :: r' =>
            if (next <? 56320) || (57343 <? next) then true
            else containsUnpairedSurrogate r'
        end
      else if in_range 56320 57343 code then true
      else containsUnpairedSurrogate r
  end.

Lemma in_range_true lo hi c : lo <= c <= hi -> in_range lo hi c = true.
Proof. intros H. unfold in_range. rewrite !(proj2 (N.leb_le _ _)) by lia. done. Qed.
Lemma in_range_false lo hi c : c < lo \/ hi < c -> in_range lo hi c = false.
Proof.
  intros H. unfold in_range. apply andb_false_iff. rewrite !N.leb_gt. lia.
Qed.

(** A surrogate has no encoding of its own. *)
Definition scalar (p : N) : Prop := p < 1114112 /\ (p < 55296 \/ 57343 < p).

Lemma second_byte_ok b0 b1 p :
  scalar p -> 2048 <= p ->
  (p < 65536 /\ b0 = 224 + p / 4096 /\ b1 = 128 + p / 64 mod 64) \/
  (65536 <= p /\ b0 = 240 + p / 262144 /\ b1 = 128 + p / 4096 mod 64) ->
  in_range (second_lo b0) (second_hi b0) b1 = true.
Proof.
  intros [Hp Hs] Hlo Hb. apply in_range_true. unfold second_lo, second_hi.
  repeat match goal with |- context [?x =? ?k] => destruct (N.eqb_spec x k) end; div_lia.
Qed.

Lemma utf8_decode_code_point p t :
  scalar p -> utf8_decode (utf8_code_point p ++ t) = utf8_units p ++ utf8_decode t.
Proof.
  intros Hp. pose proof Hp as [Hmax Hs]. unfold utf8_code_point.
  destruct (N.ltb_spec p 128).
  { cbn [app utf8_decode]. unfold utf8_units.
    by rewrite !(proj2 (N.ltb_lt _ _)) by lia. }
  destruct (N.ltb_spec p 2048); [|destruct (N.ltb_spec p 65536)];
    cbn [app utf8_decode]; rewrite (proj2 (N.ltb_ge _ 128)) by div_lia.
  - rewrite !in_range_true by div_lia. do 2 f_equal. div_lia.
  - rewrite (in_range_false 194 223), (in_range_true 224 239) by div_lia.
    rewrite (second_byte_ok _ _ p Hp) by (lia || left; split_and!; done).
    rewrite in_range_true by div_lia. do 2 f_equal. div_lia.
  - rewrite (in_range_false 194 223), (in_range_false 224 239), (in_range_true 240 244) by div_lia.
    rewrite (second_byte_ok _ _ p Hp) by (lia || right; split_and!; done).
    rewrite !in_range_true by div_lia. do 2 f_equal. div_lia.
Qed.

Lemma surrogate_pair_units h l :
  is_high_surrogate h = true -> is_low_surrogate l = true ->
  surrogate_pair h l < 1114112 /\ utf8_units (surrogate_pair h l) = [h; l].
Proof.
  unfold is_high_surrogate, is_low_surrogate, in_range, surrogate_pair, utf8_units.
  rewrite !andb_true_iff, !N.leb_le. intros Hh Hl. split; [lia|].
  rewrite (proj2 (N.ltb_ge _ _)) by lia. repeat f_equal; div_lia.
Qed.

(** UTF-8 encoding loses nothing on strings without unpaired surrogates. *)
Lemma utf8_decode_encode s :
  code_units s -> containsUnpairedSurrogate s = false -> utf8_decode (utf8_encode s) = s.
Proof.
  remember (length s) as n eqn:Hn. assert (length s <= n)%nat as Hle by lia.
  clear Hn. revert s Hle.
  induction n as [|n IH]; intros s Hle Hu Hw.
  { by destruct s; [|simpl in Hle; lia]. }
  destruct s as [|c r]; [done|].
  apply Forall_cons in Hu as [Hc Hr]. simpl in Hle.
  cbn [utf8_encode]. cbn [containsUnpairedSurrogate] in Hw.
  unfold is_high_surrogate, is_low_surrogate in *.
  destruct (in_range 55296 56319 c) eqn:Eh.
  - destruct r as [|l r]; [done|]. apply Forall_cons in Hr as [Hl Hr].
    destruct (_ || _) eqn:El in Hw; [done|].
    assert (in_range 56320 57343 l = true) as El'.
    { unfold in_range. rewrite orb_false_iff, !N.ltb_ge in El.
      rewrite andb_true_iff, !N.leb_le. lia. }
    rewrite El' in *. destruct (surrogate_pair_units c l Eh El') as [Hb E].
    rewrite utf8_decode_code_point, E by (split; [done|unfold surrogate_pair; lia]).
    simpl in Hle. cbn [app]. rewrite IH; [done|lia|done|done].
  - destruct (in_range 56320 57343 c) eqn:El; [done|].
    rewrite utf8_decode_code_point.
    2: { split; [lia|]. unfold in_range in Eh, El. rewrite !andb_false_iff, !N.leb_gt in Eh, El. lia. }
    unfold utf8_units. rewrite (proj2 (N.ltb_lt _ _)) by done. cbn [app].
    rewrite IH; [done|lia|done|done].
Qed.

Lemma utf8_encode_inj s t :
  code_units s -> code_units t ->
  containsUnpairedSurrogate s = false -> containsUnpairedSurrogate t = false ->
  utf8_encode s = utf8_encode t -> s = t.
Proof.
  intros Hs Ht Ws Wt E. rewrite <-(utf8_decode_encode s) by done.
  rewrite E. by apply utf8_decode_encode.
Qed.

(** Appending strings without unpaired surrogates creates none. *)
Lemma containsUnpairedSurrogate_app s t :
  containsUnpairedSurrogate s = false -> containsUnpairedSurrogate t = false ->
  containsUnpairedSurrogate (s ++ t) = false.
Proof.
  remember (length s) as n eqn:Hn. assert (length s <= n)%nat as Hle by lia.
  clear Hn. revert s Hle. induction n as [|n IH]; intros s Hle Hs Ht.
  { by destruct s; [|simpl in Hle; lia]. }
  destruct s as [|c r]; [done|]. simpl in Hle. cbn in Hs |- *.
  destruct (in_range 55296 56319 c).
  - destruct r as [|d r]; [done|]. cbn [app]. destruct (_ || _); [done|].
    simpl in Hle. apply IH; [lia|done..].
  - destruct (in_range 56320 57343 c); [done|]. apply IH; [lia|done..].
Qed.

Lemma no_surrogate_well_formed s :
  Forall (fun c => c < 55296) s -> containsUnpairedSurrogate s = false.
Proof.
  induction 1 as [|c r Hc Hr IH]; [done|]. cbn.
  unfold in_range. rewrite (proj2 (N.leb_gt 55296 _)), (proj2 (N.leb_gt 56320 _)) by lia. exact IH.
Qed.

Arguments js : simpl never.
