(* ===== verification/JsMap.v ===== *)
(** JsMap: the JavaScript [Map], whose iteration follows insertion order:
    setting a present key keeps its position, setting an absent one appends. *)
From S2P Require Import Prelude.

Section jsmap.
Context {K : Type} `{EqDecision K} {V : Type}.
Implicit Types (m : list (K * V)) (k : K) (v : V).

Fixpoint map_get (k : K) (m : list (K * V)) : option V :=
  match m with
  | [] => None
  | (k', v) :: m => if bool_decide (k = k') then Some v else map_get k m
  end.

Definition map_has (k : K) (m : list (K * V)) : bool :=
  match map_get k m with Some _ => true | None => false end.

Fixpoint map_set (k : K) (v : V) (m : list (K * V)) : list (K * V) :=
  match m with
  | [] => [(k, v)]
  | (k', v') :: m =>
      if bool_decide (k = k') then (k', v) :: m else (k', v') :: map_set k v m
  end.

Fixpoint map_delete (k : K) (m : list (K * V)) : list (K * V) :=
  match m with
  | [] => []
  | (k', v') :: m =>
      if bool_decide (k = k') then map_delete k m else (k', v') :: map_delete k m
  end.

(** No key is listed twice: the representation invariant. *)
Definition map_wf m : Prop := NoDup m.*1.

Lemma map_has_false k m : map_has k m = false <-> map_get k m = None.
Proof. unfold map_has. by destruct (map_get k m). Qed.

Lemma map_get_set_eq k v m : map_get k (map_set k v m) = Some v.
Proof.
  induction m as [|[k' v'] m IH]; simpl; [by rewrite bool_decide_true|].
  case_bool_decide as E; simpl; [by rewrite bool_decide_true|].
  by rewrite bool_decide_false.
Qed.

Lemma map_get_set_ne k k' v m : k <> k' -> map_get k (map_set k' v m) = map_get k m.
Proof.
  intros Hne. induction m as [|[k1 v1] m IH]; simpl; [by rewrite bool_decide_false|].
  repeat case_bool_decide; subst; simpl; repeat case_bool_decide; congruence.
Qed.

Lemma map_get_set k k' v m :
  map_get k (map_set k' v m) = if bool_decide (k = k') then Some v else map_get k m.
Proof.
  case_bool_decide as E; [subst; apply map_get_set_eq|by apply map_get_set_ne].
Qed.

Lemma map_get_delete k k' m :
  map_get k (map_delete k' m) = if bool_decide (k = k') then None else map_get k m.
Proof.
  induction m as [|[k1 v1] m IH]; simpl; [by case_bool_decide|].
  repeat case_bool_decide; subst; simpl; repeat case_bool_decide; subst; congruence.
Qed.

Lemma map_get_in k v m : map_get k m = Some v -> (k, v) ∈ m.
Proof.
  induction m as [|[k' v'] m IH]; simpl; [done|].
  case_bool_decide; intros; simplify_eq; [constructor|by constructor; apply IH].
Qed.

Lemma map_get_None k m : map_get k m = None <-> k ∉ m.*1.
Proof.
  induction m as [|[k' v'] m IH]; simpl; [split; [intros _; apply not_elem_of_nil|done]|].
  rewrite not_elem_of_cons. case_bool_decide; [|rewrite IH]; split; try done; tauto.
Qed.

Lemma map_in_get k v m : map_wf m -> (k, v) ∈ m -> map_get k m = Some v.
Proof.
  unfold map_wf. induction m as [|[k' v'] m IH]; simpl.
  { by rewrite elem_of_nil. }
  rewrite NoDup_cons, elem_of_cons. intros [Hk Hm] [[= -> ->]|Hin].
  - by rewrite bool_decide_true.
  - rewrite bool_decide_false; [by apply IH|]. intros ->.
    apply Hk. apply list_elem_of_fmap. by exists (k', v).
Qed.

Lemma map_set_keys k v m :
  (map_set k v m).*1 = m.*1 ++ (if map_has k m then [] else [k]).
Proof.
  unfold map_has. induction m as [|[k' v'] m IH]; simpl; [done|].
  case_bool_decide; simpl; [by rewrite app_nil_r|]. f_equal. apply IH.
Qed.

Lemma map_set_wf k v m : map_wf m -> map_wf (map_set k v m).
Proof.
  unfold map_wf. rewrite map_set_keys. unfold map_has. intros Hm.
  destruct (map_get k m) eqn:E; [by rewrite app_nil_r|].
  apply NoDup_app. repeat split; [done| |apply NoDup_singleton].
  intros x Hx ->%list_elem_of_singleton. by apply map_get_None in E.
Qed.

Lemma map_delete_keys k m : (map_delete k m).*1 ⊆ m.*1.
Proof.
  induction m as [|[k' v'] m IH]; simpl; [done|]. case_bool_decide; simpl.
  - by apply list_subseteq_cons.
  - by apply list_subseteq_skip.
Qed.

Lemma map_delete_wf k m : map_wf m -> map_wf (map_delete k m).
Proof.
  unfold map_wf. induction m as [|[k' v'] m IH]; simpl; [done|].
  rewrite NoDup_cons. intros [Hk Hm]. case_bool_decide; [by apply IH|].
  simpl. apply NoDup_cons. split; [|by apply IH].
  intros Hin. by apply map_delete_keys in Hin.
Qed.

(** A fresh key is appended. *)
Lemma map_set_fresh k v m : map_get k m = None -> map_set k v m = m ++ [(k, v)].
Proof.
  induction m as [|[k' v'] m IH]; simpl; [done|].
  case_bool_decide; [done|]. intros E. by rewrite IH.
Qed.

Lemma map_set_same k v m : map_get k m = Some v -> map_set k v m = m.
Proof.
  induction m as [|[k' v'] m IH]; simpl; [done|].
  case_bool_decide; intros E; simplify_eq; [done|]. by rewrite IH.
Qed.

(** Setting a present key replaces exactly its entry. *)
Lemma map_set_present k v v' m :
  map_wf m -> map_get k m = Some v' ->
  exists m1 m2, m = m1 ++ (k, v') :: m2 /\ map_set k v m = m1 ++ (k, v) :: m2.
Proof.
  unfold map_wf. induction m as [|[k1 v1] m IH]; simpl; [done|].
  rewrite NoDup_cons. intros [Hk Hm] E. case_bool_decide as Ek; simplify_eq.
  - by exists [], m.
  - destruct (IH Hm E) as (m1 & m2 & -> & ->). by exists ((k1, v1) :: m1), m2.
Qed.

Lemma map_get_values k v m : map_get k m = Some v -> v ∈ m.*2.
Proof.
  intros H%map_get_in. apply list_elem_of_fmap. by exists (k, v).
Qed.
End jsmap.

(** Updating the object a key refers to, in place. *)
Definition map_update {K V} `{EqDecision K} (k : K) (f : V -> V) (m : list (K * V)) :=
  match map_get k m with Some v => map_set k (f v) m | None => m end.

Lemma map_get_update {K V} `{EqDecision K} (k k' : K) (f : V -> V) (m : list (K * V)) :
  map_get k (map_update k' f m) =
  if bool_decide (k = k') then f <$> map_get k m else map_get k m.
Proof.
  unfold map_update. destruct (map_get k' m) eqn:E.
  - rewrite map_get_set. case_bool_decide; [|done]. subst. by rewrite E.
  - case_bool_decide; [|done]. subst. by rewrite E.
Qed.

Lemma map_update_keys {K V} `{EqDecision K} (k : K) (f : V -> V) (m : list (K * V)) :
  (map_update k f m).*1 = m.*1.
Proof.
  unfold map_update. destruct (map_get k m) eqn:E; [|done].
  rewrite map_set_keys. unfold map_has. by rewrite E, app_nil_r.
Qed.

Lemma map_update_wf {K V} `{EqDecision K} (k : K) (f : V -> V) (m : list (K * V)) :
  map_wf m -> map_wf (map_update k f m).
Proof. unfold map_wf. by rewrite map_update_keys. Qed.

Lemma map_update_present {K V} `{EqDecision K} (id : K) (f : V -> V) (m : list (K * V)) v :
  map_get id m = Some v -> map_update id f m = map_set id (f v) m.
Proof. unfold map_update. by intros ->. Qed.

Lemma map_set_set {K V} `{EqDecision K} (id : K) (v w : V) (m : list (K * V)) :
  map_set id v (map_set id w m) = map_set id v m.
Proof.
  induction m as [|[k u] m IH]; simpl; [by rewrite bool_decide_true|].
  case_bool_decide; simpl; [by rewrite bool_decide_true|].
  rewrite bool_decide_false by done. by rewrite IH.
Qed.

Create HintDb jsmap.
Create Rewrite HintDb jsmap.
#[export] Hint Resolve map_set_wf map_delete_wf map_update_wf : jsmap.
#[export] Hint Rewrite @map_get_set_eq @map_get_set @map_get_delete @map_get_update : jsmap.
