(* ===== verification/Host.v ===== *)
(** Host: the functions of Node.js that the program calls and whose bodies
    are not part of the repository: implementation-defined date parsing,
    hashing, message authentication, key import and signature verification.
    They are the fields of one class, an argument of every definition that
    uses them; [HostLaws] states the documented facts the theorems rely on. *)
From S2P Require Import Prelude JsString.

(** What [createPublicKey(pem)] yields, as far as the program looks. *)
Record KeyObject := {
  key_type : jstr;
  asymmetricKeyType : jstr;
  namedCurve : option jstr;
  spki_der : list N;
}.

#[global] Instance KeyObject_eq_dec : EqDecision KeyObject.
Proof. solve_decision. Defined.

Class Host := {
  (** [Date.parse] on strings outside the ECMAScript date-time format. *)
  legacyDateParse : jstr -> option Z;
  (** [String(n)] of a finite non-integer number. *)
  fractionToString : Z -> positive -> jstr;
  (** [Number(text)] of a JSON number with a fraction or an exponent. *)
  decimalToNumber : jstr -> jsnum;
  (** [createHash("sha256").update(bytes).digest()] *)
  sha256 : list N -> list N;
  (** [createHmac("sha256", key).update(bytes).digest()] *)
  hmacSha256 : list N -> list N -> list N;
  (** [createPublicKey(pem)]; throws on malformed input. *)
  createPublicKey : jstr -> result KeyObject;
  (** [createPrivateKey(pem)]; throws on malformed input. *)
  createPrivateKey : jstr -> result KeyObject;
  (** The public half of a private key. *)
  publicHalf : KeyObject -> KeyObject;
  (** [sign("sha256", payload, key)] *)
  ecdsaSign : list N -> KeyObject -> list N;
  (** [verify("sha256", payload, key, signature)] *)
  ecdsaVerify : list N -> KeyObject -> list N -> bool;
}.

(** Hexadecimal rendering of bytes, [digest("hex")]. *)
Definition hex_digit (n : N) : N := if (n <? 10)%N then (48 + n)%N else (87 + n)%N.
Definition hexEncode (bs : list N) : jstr :=
  concat (map (fun b => [hex_digit (b / 16); hex_digit (b mod 16)]%N) bs).

Definition bytes (bs : list N) : Prop := Forall (fun b => (b < 256)%N) bs.

Class HostLaws (H : Host) := {
  sha256_length bs : length (sha256 bs) = 32%nat;
  sha256_bytes bs : bytes (sha256 bs);
  hmacSha256_length k bs : length (hmacSha256 k bs) = 32%nat;
  hmacSha256_bytes k bs : bytes (hmacSha256 k bs);
  ecdsaSign_bytes m k : bytes (ecdsaSign m k);
  (** A signature verifies under the public half of the signing key. *)
  ecdsa_correct m k : ecdsaVerify m (publicHalf k) (ecdsaSign m k) = true;
}.

Definition sha256Hex `{Host} (bs : list N) : jstr := hexEncode (sha256 bs).

Lemma hex_digit_inj a b : (a < 16)%N -> (b < 16)%N -> hex_digit a = hex_digit b -> a = b.
Proof. unfold hex_digit. repeat case_match; rewrite ?N.ltb_lt, ?N.ltb_ge in *; lia. Qed.

Lemma hexEncode_inj a b : bytes a -> bytes b -> hexEncode a = hexEncode b -> a = b.
Proof.
  unfold hexEncode. intros Ha. revert b. induction Ha as [|x a Hx Ha IH]; intros b Hb E.
  { by destruct b. }
  destruct Hb as [|y b Hy Hb]; [done|]. simpl in E. injection E as E1 E2 E3.
  apply hex_digit_inj in E1; [|div_lia..]. apply hex_digit_inj in E2; [|div_lia..].
  f_equal; [div_lia|by apply IH].
Qed.

Lemma hex_digit_hex n : (n < 16)%N -> is_hex_char (hex_digit n) = true.
Proof.
  intros H. unfold is_hex_char, is_digit, in_range, hex_digit.
  case_match; rewrite ?N.ltb_lt, ?N.ltb_ge in *;
    rewrite orb_true_iff, !andb_true_iff, !N.leb_le; lia.
Qed.

Lemma hexEncode_pattern bs :
  bytes bs -> hex_of_length (2 * length bs) (hexEncode bs) = true.
Proof.
  unfold hex_of_length, hexEncode. rewrite andb_true_iff, Nat.eqb_eq.
  induction 1 as [|b bs Hb Hbs [IHl IHf]]; [done|]. cbn in *.
  rewrite !hex_digit_hex by div_lia. split; [lia|done].
Qed.

Lemma sha256Hex_pattern `{HostLaws} bs : hex_of_length 64 (sha256Hex bs) = true.
Proof.
  pose proof (hexEncode_pattern (sha256 bs) (sha256_bytes bs)) as E.
  by rewrite sha256_length in E.
Qed.

(** ** Base64url, [bytes.toString("base64url")] and [Buffer.from(s, "base64url")] *)
Open Scope N_scope.

Definition b64_char (v : N) : N :=
  if v <? 26 then 65 + v else if v <? 52 then 71 + v
  else if v <? 62 then v - 4 else if v =? 62 then 45 else 95.

Definition b64_value (c : N) : option N :=
  if is_upper c then Some (c - 65) else if is_lower c then Some (c - 71)
  else if is_digit c then Some (c + 4)
  else if (c =? 45) || (c =? 43) then Some 62
  else if (c =? 95) || (c =? 47) then Some 63 else None.

Fixpoint base64urlEncode (bs : list N) : jstr :=
  match bs with
  | a :: b :: c :: r =>
      map b64_char [a / 4; a mod 4 * 16 + b / 16; b mod 16 * 4 + c / 64; c mod 64]
      ++ base64urlEncode r
  | [a; b] => map b64_char [a / 4; a mod 4 * 16 + b / 16; b mod 16 * 4]
  | [a] => map b64_char [a / 4; a mod 4 * 16]
  | [] => []
  end.

(** Decoding stops at padding and skips characters outside the alphabet; bits
    that do not fill a byte are dropped. *)
Fixpoint b64_values (s : jstr) : list N :=
  match s with
  | [] => []
  | c :: s => if c =? 61 then []
              else match b64_value c with Some v => v :: b64_values s | None => b64_values s end
  end.
Fixpoint b64_bytes (vs : list N) : list N :=
  match vs with
  | a :: b :: c :: d :: r =>
      [a * 4 + b / 16; b mod 16 * 16 + c / 4; c mod 4 * 64 + d] ++ b64_bytes r
  | [a; b; c] => [a * 4 + b / 16; b mod 16 * 16 + c / 4]
  | [a; b] => [a * 4 + b / 16]
  | _ => []
  end.
Definition base64urlDecode (s : jstr) : list N := b64_bytes (b64_values s).

Lemma b64_char_range v : v < 64 -> is_base64url_char (b64_char v) = true.
Proof.
  intros Hv. unfold is_base64url_char, is_alnum, is_digit, is_upper, is_lower, in_range, b64_char.
  repeat case_match; rewrite ?N.ltb_lt, ?N.ltb_ge, ?N.eqb_eq, ?N.eqb_neq in *;
    rewrite !orb_true_iff, !andb_true_iff, !N.leb_le, !N.eqb_eq; lia.
Qed.

Lemma b64_values_char v s : v < 64 -> b64_values (b64_char v :: s) = v :: b64_values s.
Proof.
  intros Hv. cbn [b64_values].
  assert (E : (b64_char v =? 61) = false /\ b64_value (b64_char v) = Some v);
    [|destruct E as [-> ->]; done].
  unfold b64_value, is_digit, is_upper, is_lower, in_range, b64_char.
  repeat match goal with
  | |- context [v <? ?b] => destruct (N.ltb_spec v b)
  | |- context [v =? ?b] => destruct (N.eqb_spec v b); [subst v; by split|]
  end;
  repeat match goal with
  | |- context [?a <=? ?b] => destruct (N.leb_spec a b); cbn [andb]
  | |- context [?a =? ?b] => destruct (N.eqb_spec a b); cbn [orb]
  end; try lia; split; try done; f_equal; lia.
Qed.

Lemma b64_values_map vs s :
  Forall (fun v => v < 64) vs -> b64_values (map b64_char vs ++ s) = vs ++ b64_values s.
Proof.
  induction 1 as [|v vs Hv Hvs IH]; [done|].
  cbn [map app]. rewrite b64_values_char by done. by rewrite IH.
Qed.

(** Induction three bytes at a time. *)
Lemma triples_ind (P : list N -> Prop) :
  P [] -> (forall a, P [a]) -> (forall a b, P [a; b]) ->
  (forall a b c r, P r -> P (a :: b :: c :: r)) -> forall l, P l.
Proof.
  intros H0 H1 H2 H3 l. remember (length l) as n eqn:Hn.
  assert (length l <= n)%nat as Hle by lia. clear Hn. revert l Hle.
  induction n as [|n IH]; intros l Hle; [destruct l; simpl in *; [done|lia]|].
  destruct l as [|a [|b [|c r]]]; auto. apply H3, IH. simpl in Hle. lia.
Qed.

Lemma base64url_round_trip bs : bytes bs -> base64urlDecode (base64urlEncode bs) = bs.
Proof.
  unfold bytes, base64urlDecode. induction bs as [|a|a b|a b c r IH] using triples_ind;
    intros Hb; repeat (apply Forall_cons in Hb as [? Hb]); [done|..]; cbn [base64urlEncode].
  - rewrite <-(app_nil_r (map _ _)), b64_values_map by (repeat constructor; div_lia).
    cbn. repeat f_equal. div_lia.
  - rewrite <-(app_nil_r (map _ _)), b64_values_map by (repeat constructor; div_lia).
    cbn. repeat f_equal; div_lia.
  - rewrite b64_values_map by (repeat constructor; div_lia).
    cbn [app b64_bytes]. rewrite IH by done. repeat f_equal; div_lia.
Qed.

Lemma base64url_chars bs : bytes bs ->
  Forall (fun c => is_base64url_char c = true) (base64urlEncode bs).
Proof.
  unfold bytes. induction bs as [|a|a b|a b c r IH] using triples_ind;
    intros Hb; repeat (apply Forall_cons in Hb as [? Hb]); [constructor|..];
    cbn [base64urlEncode map app]; repeat (constructor; [apply b64_char_range; div_lia|]);
    try constructor. by apply IH.
Qed.

(** 32 bytes take 43 characters of the URL-safe alphabet, unpadded. *)
Lemma base64url_32 bs : bytes bs -> length bs = 32%nat ->
  base64url_of_length 43 (base64urlEncode bs) = true.
Proof.
  intros Hb Hl. unfold base64url_of_length. apply andb_true_iff. split.
  - apply Nat.eqb_eq. clear Hb. do 32 (destruct bs as [|? bs]; [done|]). by destruct bs.
  - by apply forallb_Forall, base64url_chars.
Qed.
