(* ===== verification/TestHost.v ===== *)
(** TestHost: a concrete host with executable stand-ins for the functions of
    Node.js, at which the theorems with a host are instantiated. *)
From S2P Require Import Prelude JsString Host.
#[local] Open Scope string_scope.
#[local] Open Scope list_scope.

(** 32 positional checksums of the input. *)
Definition test_digest (bs : list N) : list N :=
  map (fun i => fold_left (fun a b => (a * 31 + b + i) mod 251)%N bs (i + 1)%N mod 256)%N
    (map N.of_nat (seq 0 32)).

Definition test_key (der : list N) (kind : jstr) : KeyObject :=
  {| key_type := kind; asymmetricKeyType := "ec"; namedCurve := Some (js "prime256v1");
     spki_der := der |}.

Definition test_import (kind pem : jstr) : result KeyObject :=
  match pem with
  | [] => Throw "invalid PEM"
  | _ => Ok (test_key (utf8_encode pem) kind)
  end.

Definition test_host : Host := {|
  legacyDateParse := fun _ => None;
  fractionToString := fun _ _ => "0.5";
  decimalToNumber := fun _ => NFrac 1 2;
  sha256 := test_digest;
  hmacSha256 := fun k m => test_digest (k ++ m);
  createPublicKey := test_import "public";
  createPrivateKey := test_import "private";
  publicHalf := fun k => test_key (spki_der k) "public";
  ecdsaSign := fun m k => test_digest (m ++ spki_der k);
  ecdsaVerify := fun m k s => bool_decide (s = test_digest (m ++ spki_der k));
|}.

Lemma test_digest_length bs : length (test_digest bs) = 32%nat.
Proof. unfold test_digest. by rewrite !length_map, length_seq. Qed.

Lemma test_digest_bytes bs : bytes (test_digest bs).
Proof.
  unfold bytes, test_digest. apply Forall_map. apply Forall_forall. intros i _. div_lia.
Qed.

Lemma test_host_laws : HostLaws test_host.
Proof.
  split; intros; try apply test_digest_length; try apply test_digest_bytes.
  simpl. by apply bool_decide_true.
Qed.

(** A host whose digests take one pass over the input. *)
Definition quick_digest (bs : list N) : list N :=
  let c := fold_left (fun a b => (a * 31 + b) mod 251)%N bs 7%N in map (fun i => (c + N.of_nat i) mod 256)%N (seq 0 32).
Definition quick_host : Host := {|
  legacyDateParse := fun _ => None; fractionToString := fun _ _ => "0.5"; decimalToNumber := fun _ => NFrac 1 2;
  sha256 := quick_digest; hmacSha256 := fun k m => quick_digest (k ++ m);
  createPublicKey := test_import "public"; createPrivateKey := test_import "private"; publicHalf := fun k => test_key (spki_der k) "public";
  ecdsaSign := fun m k => quick_digest (m ++ spki_der k); ecdsaVerify := fun m k s => bool_decide (s = quick_digest (m ++ spki_der k)) |}.

Lemma quick_host_laws : HostLaws quick_host.
Proof.
  assert (Hl : forall bs, length (quick_digest bs) = 32%nat) by (intros; unfold quick_digest; by rewrite length_map, length_seq).
  assert (Hb : forall bs, bytes (quick_digest bs)) by (intros; unfold bytes, quick_digest; apply Forall_map, Forall_forall; intros i _; div_lia).
  split; intros; [apply Hl|apply Hb|apply Hl|apply Hb|apply Hb|]. simpl. by apply bool_decide_true.
Qed.

(** Noon on 1 January 2026. *)
Definition noon : Z := 1767268800000.
