(* ===== verification/JsTime.v ===== *)
(** JsTime: the JavaScript [Date] values of the program: time values in
    milliseconds, [toISOString], and [Date.parse] on the ECMAScript date-time
    format, with the proof that parsing inverts printing. *)
From S2P Require Import Prelude JsString Host.
Open Scope Z_scope.

(** A [Date] holds an integral time value, or NaN when it is invalid. *)
Abbreviation Date := (option Z).

(** Comparisons with a NaN operand are false. *)
Definition num_le (a b : option Z) : bool :=
  match a, b with Some a, Some b => a <=? b | _, _ => false end.
Definition num_lt (a b : option Z) : bool :=
  match a, b with Some a, Some b => a <? b | _, _ => false end.

Definition MAX_TIME : Z := 8640000000000000.

(** [new Date(ms)] *)
Definition new_date (ms : Z) : Date := if Z.abs ms <=? MAX_TIME then Some ms else None.

(** A [Date] object never holds a time value outside the clipped range. *)
Definition date_ok (d : Date) : Prop :=
  match d with Some t => Z.abs t <= MAX_TIME | None => True end.

(** ** Clock and identifiers *)

(** What the call draws from its environment: the UUIDs, the random challenge
    identifier and the clock, numbered in the order of the call sites. *)
Record Env : Type := {
  env_uuid : nat -> jstr;
  env_challengeId : jstr;
  env_clock : nat -> Date;
}.

Definition or_now (now : option Date) (e : Env) (site : nat) : Date :=
  default (env_clock e site) now.

(** ** The proleptic Gregorian calendar *)

Definition days_from_civil (y m d : Z) : Z :=
  let y := if m <=? 2 then y - 1 else y in
  let era := y / 400 in
  let yoe := y mod 400 in
  let mp := if 2 <? m then m - 3 else m + 9 in
  let doy := (153 * mp + 2) / 5 + d - 1 in
  let doe := yoe * 365 + yoe / 4 - yoe / 100 + doy in
  era * 146097 + doe - 719468.

(** Year of the 400-year era, day of the (March-based) year. *)
Definition year_of_era (doe : Z) : Z :=
  (doe - doe / 1460 + doe / 36524 - doe / 146096) / 365.
Definition day_of_year (doe : Z) : Z :=
  let yoe := year_of_era doe in doe - (365 * yoe + yoe / 4 - yoe / 100).

Definition civil_from_days (z : Z) : Z * Z * Z :=
  let z := z + 719468 in
  let era := z / 146097 in
  let doe := z mod 146097 in
  let doy := day_of_year doe in
  let mp := (5 * doy + 2) / 153 in
  let d := doy - (153 * mp + 2) / 5 + 1 in
  let m := if mp <? 10 then mp + 3 else mp - 9 in
  let y := year_of_era doe + era * 400 in
  (if m <=? 2 then y + 1 else y, m, d).

(** Every day of a 400-year era falls in one of its years and on one of that
    year's 366 days: by century, since the year count is linear on each. *)
Lemma era_bounds doe :
  0 <= doe < 146097 -> 0 <= year_of_era doe < 400 /\ 0 <= day_of_year doe <= 365.
Proof.
  intros H. unfold day_of_year, year_of_era. cbv zeta.
  assert (Hb : doe / 36524 = 0 \/ doe / 36524 = 1 \/ doe / 36524 = 2 \/
    doe / 36524 = 3 \/ doe = 146096) by div_lia.
  destruct Hb as [Hb|[Hb|[Hb|[Hb| ->]]]]; [..|by vm_compute].
  all: assert (Hc : doe / 146096 = 0) by div_lia; rewrite Hb, Hc.
  all: set (y := (doe - doe / 1460 + _ - 0) / 365).
  all: assert (0 <= y < 400) by (subst y; div_lia).
  all: split; [lia|].
  all: match goal with y := (_ + ?k - 0) / 365 |- _ =>
         assert (Hy : y / 100 = k) by (subst y; div_lia) end.
  all: rewrite Hy; subst y; div_lia.
Qed.

Lemma civil_fields z y m d :
  civil_from_days z = (y, m, d) -> 1 <= m <= 12 /\ 1 <= d <= 31.
Proof.
  unfold civil_from_days. set (doe := (z + 719468) mod 146097).
  destruct (era_bounds doe) as [_ Hdoy]; [subst doe; div_lia|].
  set (doy := day_of_year doe) in *. intros [= <- <- <-].
  destruct (Z.ltb_spec ((5 * doy + 2) / 153) 10); split; div_lia.
Qed.

Lemma days_from_civil_from_days z y m d :
  civil_from_days z = (y, m, d) -> days_from_civil y m d = z.
Proof.
  unfold civil_from_days, days_from_civil. set (doe := (z + 719468) mod 146097).
  destruct (era_bounds doe) as [Hyoe Hdoy]; [subst doe; div_lia|].
  assert (Hdoe : doe = 365 * year_of_era doe + year_of_era doe / 4
    - year_of_era doe / 100 + day_of_year doe) by (unfold day_of_year; lia).
  set (doy := day_of_year doe) in *. set (yoe := year_of_era doe) in *.
  set (mp := (5 * doy + 2) / 153).
  assert (Hmp : 0 <= mp <= 11) by (subst mp; div_lia).
  set (era := (z + 719468) / 146097) in *.
  assert (Hz : z = era * 146097 + doe - 719468) by (subst era doe; div_lia).
  intros [= <- <- <-]. rewrite Hz. clearbody era doy yoe mp doe.
  assert (Hm : forall m, m = (if mp <? 10 then mp + 3 else mp - 9) ->
    (if m <=? 2 then (if m <=? 2 then yoe + era * 400 + 1 else yoe + era * 400) - 1
     else (if m <=? 2 then yoe + era * 400 + 1 else yoe + era * 400)) = yoe + era * 400 /\
    (if 2 <? m then m - 3 else m + 9) = mp).
  { intros m ->. destruct (Z.ltb_spec mp 10).
    - rewrite (proj2 (Z.leb_gt _ _)), (proj2 (Z.ltb_lt _ _)) by lia. lia.
    - rewrite (proj2 (Z.leb_le _ _)), (proj2 (Z.ltb_ge _ _)) by lia. lia. }
  destruct (Hm _ eq_refl) as [Ey Emp]. rewrite Emp, Ey.
  rewrite Z.div_add, (Z.div_small yoe), Z.mod_add, (Z.mod_small yoe) by lia. lia.
Qed.

(** ** [toISOString] *)

Definition digits (w : nat) (z : Z) : jstr := pad_digits w (Z.to_N z).

Definition iso_year (y : Z) : jstr :=
  if (0 <=? y) && (y <=? 9999) then digits 4 y
  else (if y <? 0 then 45%N else 43%N) :: digits 6 (Z.abs y).

Definition iso_string (t : Z) : jstr :=
  let '(y, m, d) := civil_from_days (t / 86400000) in
  let ms := t mod 86400000 in
  iso_year y ++ [45%N] ++ digits 2 m ++ [45%N] ++ digits 2 d ++ [84%N] ++
  digits 2 (ms / 3600000) ++ [58%N] ++ digits 2 (ms / 60000 mod 60) ++ [58%N] ++
  digits 2 (ms / 1000 mod 60) ++ [46%N] ++ digits 3 (ms mod 1000) ++ [90%N].

(** [date.toISOString()] throws a [RangeError] on an invalid date. *)
Definition toISOString (d : Date) : result jstr :=
  match d with Some t => Ok (iso_string t) | None => Throw "Invalid time value" end.

(** ** [Date.parse] *)

(** [/^\d{4}-\d{2}-\d{2}T\d{2}:\d{2}:\d{2}\.\d{3}Z$/] *)
Definition iso_tail (s : jstr) : bool :=
  match s with
  | [c1; m1; m2; c2; d1; d2; t; h1; h2; c3; n1; n2; c4; s1; s2; c5; f1; f2; f3; z] =>
      forallb is_digit [m1; m2; d1; d2; h1; h2; n1; n2; s1; s2; f1; f2; f3] &&
      (c1 =? 45)%N && (c2 =? 45)%N && (t =? 84)%N && (c3 =? 58)%N && (c4 =? 58)%N &&
      (c5 =? 46)%N && (z =? 90)%N
  | _ => false
  end.
Definition canonical_timestamp (s : jstr) : bool :=
  forallb is_digit (take 4 s) && iso_tail (drop 4 s).

(** A signed six-digit year, except the excluded [-000000]. *)
Definition expanded_timestamp (s : jstr) : bool :=
  match s with
  | sign :: r =>
      ((sign =? 43)%N || (sign =? 45)%N && negb (jeqb (take 6 r) (digits 6 0))) &&
      forallb is_digit (take 6 r) && iso_tail (drop 6 r)
  | [] => false
  end.

Definition number (s : jstr) : Z := Z.of_N (digits_value s).
Definition field (i n : nat) (s : jstr) : Z := number (take n (drop i s)).

(** [MakeTime] over the fields after the year, as V8 admits them. *)
Definition iso_time (y : Z) (r : jstr) : Date :=
  let m := field 1 2 r in let d := field 4 2 r in let h := field 7 2 r in
  let n := field 10 2 r in let s := field 13 2 r in let f := field 16 3 r in
  if (1 <=? m) && (m <=? 12) && (1 <=? d) && (d <=? 31) &&
     ((h <? 24) || (h =? 24) && (n =? 0) && (s =? 0) && (f =? 0)) &&
     (n <? 60) && (s <? 60)
  then new_date (days_from_civil y m d * 86400000 +
                 h * 3600000 + n * 60000 + s * 1000 + f)
  else None.

Definition date_parse `{Host} (s : jstr) : option Z :=
  if canonical_timestamp s then iso_time (number (take 4 s)) (drop 4 s)
  else if expanded_timestamp s then
    let y := number (take 6 (drop 1 s)) in
    iso_time (if jeqb (take 1 s) [45%N] then - y else y) (drop 7 s)
  else legacyDateParse s.

(** ** Parsing inverts printing *)

Definition iso_tail_string (m d h n s f : Z) : jstr :=
  [45%N] ++ digits 2 m ++ [45%N] ++ digits 2 d ++ [84%N] ++ digits 2 h ++ [58%N] ++
  digits 2 n ++ [58%N] ++ digits 2 s ++ [46%N] ++ digits 3 f ++ [90%N].

Lemma number_digits w z : 0 <= z < 10 ^ Z.of_nat w -> number (digits w z) = z.
Proof.
  intros Hz. unfold number, digits. rewrite digits_value_pad, N.mod_small; [lia|].
  apply N2Z.inj_lt. rewrite N2Z.inj_pow, nat_N_Z, Z2N.id; simpl Z.of_N; lia.
Qed.

Lemma iso_tail_string_ok m d h n s f : iso_tail (iso_tail_string m d h n s f) = true.
Proof.
  assert (E : forall x, is_digit (48 + x mod 10)%N = true).
  { intros x. unfold is_digit, in_range. rewrite andb_true_iff, !N.leb_le. div_lia. }
  unfold iso_tail_string, digits. cbn [pad_digits app iso_tail forallb].
  by rewrite !E.
Qed.

Lemma iso_time_fields y m d h n s f :
  1 <= m <= 12 -> 1 <= d <= 31 -> 0 <= h < 24 -> 0 <= n < 60 -> 0 <= s < 60 ->
  0 <= f < 1000 ->
  iso_time y (iso_tail_string m d h n s f) =
  new_date (days_from_civil y m d * 86400000 + h * 3600000 + n * 60000 + s * 1000 + f).
Proof.
  intros. set (r := iso_tail_string _ _ _ _ _ _).
  assert (Em : field 1 2 r = number (digits 2 m)) by reflexivity.
  assert (Ed : field 4 2 r = number (digits 2 d)) by reflexivity.
  assert (Eh : field 7 2 r = number (digits 2 h)) by reflexivity.
  assert (En : field 10 2 r = number (digits 2 n)) by reflexivity.
  assert (Es : field 13 2 r = number (digits 2 s)) by reflexivity.
  assert (Ef : field 16 3 r = number (digits 3 f)) by reflexivity.
  rewrite !number_digits in * by (simpl; lia). unfold iso_time.
  rewrite Em, Ed, Eh, En, Es, Ef. cbv zeta.
  rewrite !(proj2 (Z.leb_le _ _)), (proj2 (Z.ltb_lt h 24)), (proj2 (Z.ltb_lt n 60)),
    (proj2 (Z.ltb_lt s 60)) by lia. done.
Qed.

Lemma civil_year_bounds t y m d :
  Z.abs t <= MAX_TIME -> civil_from_days (t / 86400000) = (y, m, d) -> Z.abs y < 1000000.
Proof.
  unfold civil_from_days, MAX_TIME. intros Ht.
  set (doe := (t / 86400000 + 719468) mod 146097).
  destruct (era_bounds doe) as [Hyoe _]; [subst doe; div_lia|].
  set (yoe := year_of_era doe) in *. set (dy := day_of_year doe).
  clearbody doe dy yoe. intros [= <- _ _]. repeat case_match; div_lia.
Qed.

Lemma digits_are_digits w z : forallb is_digit (digits w z) = true.
Proof. apply forallb_Forall, pad_digits_are_digits. Qed.

Lemma digits_length w z : length (digits w z) = w.
Proof. apply pad_digits_length. Qed.

Lemma iso_string_tail t y m d :
  civil_from_days (t / 86400000) = (y, m, d) ->
  iso_string t = iso_year y ++
    iso_tail_string m d (t mod 86400000 / 3600000) (t mod 86400000 / 60000 mod 60)
      (t mod 86400000 / 1000 mod 60) (t mod 86400000 mod 1000).
Proof. unfold iso_string. by intros ->. Qed.

(** The canonical text of a four-digit year. *)
Lemma iso_string_canonical t y m d :
  civil_from_days (t / 86400000) = (y, m, d) -> 0 <= y <= 9999 ->
  canonical_timestamp (iso_string t) = true.
Proof.
  intros Ec Hy. rewrite (iso_string_tail _ _ _ _ Ec). unfold canonical_timestamp, iso_year.
  rewrite (proj2 (Z.leb_le 0 y)), (proj2 (Z.leb_le y 9999)) by lia. cbn [andb].
  rewrite take_app_length', drop_app_length' by (by rewrite digits_length).
  by rewrite digits_are_digits, iso_tail_string_ok.
Qed.

(** A non-canonical year is not mistaken for a canonical one. *)
Lemma expanded_not_canonical c s : is_digit c = false -> canonical_timestamp (c :: s) = false.
Proof. intros E. unfold canonical_timestamp. cbn [take forallb]. by rewrite E. Qed.

(** Every time value a [Date] can hold is read back from its ISO text. *)
Lemma date_parse_iso_string `{Host} t :
  Z.abs t <= MAX_TIME -> date_parse (iso_string t) = Some t.
Proof.
  intros Ht. destruct (civil_from_days (t / 86400000)) as [[y m] d] eqn:Ec.
  pose proof (civil_fields _ _ _ _ Ec) as [Hm Hd].
  pose proof (civil_year_bounds _ _ _ _ Ht Ec) as Hy.
  assert (Htime : iso_time y (iso_tail_string m d (t mod 86400000 / 3600000)
      (t mod 86400000 / 60000 mod 60) (t mod 86400000 / 1000 mod 60)
      (t mod 86400000 mod 1000)) = Some t).
  { rewrite iso_time_fields; [|div_lia..].
    rewrite (days_from_civil_from_days _ _ _ _ Ec).
    replace (_ + _) with t by div_lia. unfold new_date.
    by rewrite (proj2 (Z.leb_le _ _)). }
  unfold date_parse. destruct (decide (0 <= y <= 9999)) as [Hr|Hr].
  - rewrite (iso_string_canonical _ _ _ _ Ec Hr), (iso_string_tail _ _ _ _ Ec).
    unfold iso_year. rewrite (proj2 (Z.leb_le 0 y)), (proj2 (Z.leb_le y 9999)) by lia.
    cbn [andb]. rewrite take_app_length', drop_app_length' by (by rewrite digits_length).
    by rewrite number_digits by (simpl; lia).
  - rewrite (iso_string_tail _ _ _ _ Ec). unfold iso_year.
    destruct (_ && _) eqn:E; [rewrite andb_true_iff, !Z.leb_le in E; lia|]. clear E.
    rewrite <-app_comm_cons, expanded_not_canonical by (by case_match).
    unfold expanded_timestamp. cbn [skipn].
    rewrite drop_0.
    rewrite !take_app_length', !drop_app_length' by (by rewrite digits_length).
    rewrite digits_are_digits, iso_tail_string_ok, number_digits by (simpl; lia).
    destruct (Z.ltb_spec y 0) as [Hneg|Hpos].
    + assert (E : jeqb (digits 6 (Z.abs y)) (digits 6 0) = false).
      { apply bool_decide_false. intros E%(f_equal number).
        rewrite !number_digits in E by (simpl; lia). lia. }
      rewrite E. cbn. by replace (- Z.abs y) with y by lia.
    + cbn. by replace (Z.abs y) with y by lia.
Qed.
