(* ===== verification/IsoOrder.v ===== *)
(** IsoOrder: ISO timestamps of four-digit years compare as text in the order
    of the instants they denote, so that a text column of a database can be
    searched by time. *)
From S2P Require Import Prelude JsString Host JsTime.
#[local] Open Scope Z_scope.

(** ** Lexicographic order of code units *)

Lemma jstr_le_refl s : jstr_le s s = true.
Proof. induction s as [|c s IH]; [done|]. cbn. by rewrite N.eqb_refl. Qed.

Lemma jstr_le_antisym s t : jstr_le s t = true -> jstr_le t s = true -> s = t.
Proof.
  revert t. induction s as [|c s IH]; intros [|d t]; try done. cbn. rewrite (N.eqb_sym d c).
  destruct (N.eqb_spec c d) as [->|]; [intros; f_equal; by apply IH|].
  rewrite !N.ltb_lt. lia.
Qed.

Lemma jstr_le_trans s t u : jstr_le s t = true -> jstr_le t u = true -> jstr_le s u = true.
Proof.
  revert t u. induction s as [|c s IH]; intros [|d t] [|e u]; try done. cbn.
  destruct (N.eqb_spec c d) as [->|], (N.eqb_spec d e) as [->|]; rewrite ?N.eqb_refl; try done.
  - by apply IH.
  - by rewrite (proj2 (N.eqb_neq c e)).
  - rewrite !N.ltb_lt. intros. rewrite (proj2 (N.eqb_neq c e)) by lia. apply N.ltb_lt. lia.
Qed.

Lemma jstr_le_total s t : jstr_le s t = false -> jstr_le t s = true.
Proof.
  revert t. induction s as [|c s IH]; intros [|d t]; try done. cbn. rewrite (N.eqb_sym d c).
  destruct (N.eqb_spec c d) as [->|]; [apply IH|]. rewrite N.ltb_ge, N.ltb_lt. lia.
Qed.

(** A common prefix decides nothing; the first difference decides all. *)
Lemma jstr_le_app a b s t :
  length a = length b -> jstr_le (a ++ s) (b ++ t) = (if decide (a = b) then jstr_le s t else jstr_le a b).
Proof.
  revert b. induction a as [|c a IH]; intros [|d b] Hl; try done. cbn in *.
  destruct (N.eqb_spec c d) as [->|Hne].
  - rewrite IH by lia. do 2 destruct (decide _); congruence.
  - rewrite decide_False by congruence. done.
Qed.

Lemma jstr_le_digits w x y :
  0 <= x < 10 ^ Z.of_nat w -> 0 <= y < 10 ^ Z.of_nat w -> jstr_le (digits w x) (digits w y) = (x <=? y).
Proof.
  revert x y. induction w as [|w IH]; intros x y Hx Hy.
  { cbn in *. symmetry. apply Z.leb_le. lia. }
  rewrite Nat2Z.inj_succ, Z.pow_succ_r in * by lia.
  assert (Hd : forall z, 0 <= z -> digits (S w) z = digits w (z / 10) ++ [(48 + Z.to_N (z mod 10))%N]).
  { intros z Hz. unfold digits. cbn [pad_digits].
    assert (E1 : (Z.to_N z / 10)%N = Z.to_N (z / 10)) by (by rewrite Z2N.inj_div).
    assert (E2 : (Z.to_N z mod 10)%N = Z.to_N (z mod 10)) by (by rewrite Z2N.inj_mod).
    by rewrite E1, E2. }
  rewrite !Hd by lia. rewrite jstr_le_app by (by rewrite !digits_length).
  assert (Hi : forall z, 0 <= z < 10 * 10 ^ Z.of_nat w -> 0 <= z / 10 < 10 ^ Z.of_nat w).
  { intros z Hz. set (p := 10 ^ Z.of_nat w) in *. clearbody p. div_lia. }
  destruct (decide _) as [E|NE].
  - apply (f_equal number) in E. rewrite !number_digits in E by auto. cbn.
    destruct (N.eqb_spec (48 + Z.to_N (x mod 10)) (48 + Z.to_N (y mod 10))) as [E'|E'];
      symmetry; [apply Z.leb_le; div_lia|].
    destruct (Z.leb_spec x y); symmetry; [apply N.ltb_lt|apply N.ltb_ge]; div_lia.
  - rewrite IH by auto. assert (x / 10 <> y / 10) by congruence.
    destruct (Z.leb_spec (x / 10) (y / 10)), (Z.leb_spec x y); try done; div_lia.
Qed.

(** ** The calendar is monotone *)

Lemma year_of_era_mono a b : 0 <= a <= b -> b < 146097 -> year_of_era a <= year_of_era b.
Proof.
  intros Ha Hb. unfold year_of_era. apply Z.div_le_mono; [lia|].
  assert (a / 146096 <= b / 146096) by (apply Z.div_le_mono; lia).
  destruct (decide (b = 146096)) as [->|]; [|div_lia].
  change (146096 / 1460) with 100. change (146096 / 36524) with 4. change (146096 / 146096) with 1. div_lia.
Qed.

(** Later days have later (year, month, day) triples. *)
Lemma civil_mono z1 z2 y1 m1 d1 y2 m2 d2 :
  z1 <= z2 -> civil_from_days z1 = (y1, m1, d1) -> civil_from_days z2 = (y2, m2, d2) ->
  y1 < y2 \/ y1 = y2 /\ (m1 < m2 \/ m1 = m2 /\ d1 <= d2).
Proof.
  intros Hz. unfold civil_from_days.
  set (e1 := (z1 + 719468) / 146097). set (e2 := (z2 + 719468) / 146097).
  set (o1 := (z1 + 719468) mod 146097). set (o2 := (z2 + 719468) mod 146097).
  assert (Ho : e1 < e2 \/ e1 = e2 /\ o1 <= o2) by (subst e1 e2 o1 o2; div_lia).
  destruct (era_bounds o1) as [Hy1 Hd1]; [subst o1; div_lia|].
  destruct (era_bounds o2) as [Hy2 Hd2]; [subst o2; div_lia|].
  assert (Hyear : e1 = e2 -> year_of_era o1 <= year_of_era o2).
  { intros. apply year_of_era_mono; [subst o1 o2 e1 e2; div_lia|subst o2; div_lia]. }
  assert (Hday : e1 = e2 -> year_of_era o1 = year_of_era o2 -> day_of_year o1 <= day_of_year o2).
  { intros He E. unfold day_of_year. rewrite E. lia. }
  set (Y1 := year_of_era o1) in *. set (Y2 := year_of_era o2) in *.
  set (D1 := day_of_year o1) in *. set (D2 := day_of_year o2) in *.
  assert (HD : e1 < e2 \/ e1 = e2 /\ (Y1 < Y2 \/ Y1 = Y2 /\ D1 <= D2)) by lia.
  clearbody e1 e2 Y1 Y2 D1 D2. clear Ho Hyear Hday o1 o2.
  intros [= <- <- <-] [= <- <- <-].
  set (p1 := (5 * D1 + 2) / 153). set (p2 := (5 * D2 + 2) / 153).
  assert (Hp1 : 0 <= p1 <= 11) by (subst p1; div_lia). assert (Hp2 : 0 <= p2 <= 11) by (subst p2; div_lia).
  assert (Hp : D1 <= D2 -> p1 < p2 \/ p1 = p2) by (subst p1 p2; div_lia).
  assert (Hq : p1 = p2 -> (153 * p1 + 2) / 5 = (153 * p2 + 2) / 5) by congruence.
  set (q1 := (153 * p1 + 2) / 5) in *. set (q2 := (153 * p2 + 2) / 5) in *.
  clearbody p1 p2 q1 q2.
  destruct (Z.ltb_spec p1 10), (Z.ltb_spec p2 10); destruct (Z.leb_spec (p1 + 3) 2), (Z.leb_spec (p1 - 9) 2),
    (Z.leb_spec (p2 + 3) 2), (Z.leb_spec (p2 - 9) 2); try lia.
Qed.

(** ** The order of ISO text *)

(** The instants from year 0 to year 9999. *)
Definition MIN_FOUR_DIGIT : Z := -62167219200000.
Definition MAX_FOUR_DIGIT : Z := 253402300799999.
Definition four_digit (t : Z) : Prop := MIN_FOUR_DIGIT <= t <= MAX_FOUR_DIGIT.

Lemma civil_MIN : civil_from_days (MIN_FOUR_DIGIT / 86400000) = (0, 1, 1).
Proof. done. Qed.
Lemma civil_MAX : civil_from_days (MAX_FOUR_DIGIT / 86400000) = (9999, 12, 31).
Proof. done. Qed.

Lemma four_digit_year t y m d :
  four_digit t -> civil_from_days (t / 86400000) = (y, m, d) -> 0 <= y <= 9999.
Proof.
  intros [H1 H2] Ec.
  pose proof (civil_mono _ _ _ _ _ _ _ _ (Z.div_le_mono _ _ 86400000 eq_refl H1) civil_MIN Ec).
  pose proof (civil_mono _ _ _ _ _ _ _ _ (Z.div_le_mono _ _ 86400000 eq_refl H2) Ec civil_MAX). lia.
Qed.

Lemma four_digit_valid t : four_digit t -> Z.abs t <= MAX_TIME.
Proof. unfold four_digit, MIN_FOUR_DIGIT, MAX_FOUR_DIGIT, MAX_TIME. lia. Qed.

Lemma jstr_le_field w x y s t :
  0 <= x < 10 ^ Z.of_nat w -> 0 <= y < 10 ^ Z.of_nat w ->
  jstr_le (digits w x ++ s) (digits w y ++ t) = (x <? y) || (x =? y) && jstr_le s t.
Proof.
  intros Hx Hy. rewrite jstr_le_app by (by rewrite !digits_length).
  destruct (decide _) as [E|NE].
  - apply (f_equal number) in E. rewrite !number_digits in E by done. subst y.
    by rewrite Z.ltb_irrefl, Z.eqb_refl.
  - rewrite jstr_le_digits by done. assert (x <> y) by congruence.
    rewrite (proj2 (Z.eqb_neq x y)), andb_false_l, orb_false_r by done.
    destruct (Z.leb_spec x y), (Z.ltb_spec x y); lia.
Qed.

Lemma jstr_le_same s t c : jstr_le ([c] ++ s) ([c] ++ t) = jstr_le s t.
Proof. cbn. by rewrite N.eqb_refl. Qed.

(** The text of later fields is later, whatever the fields stand for. *)
Lemma iso_text_mono y1 m1 d1 h1 n1 s1 f1 y2 m2 d2 h2 n2 s2 f2 :
  0 <= y1 < 10000 -> 0 <= y2 < 10000 -> 0 <= m1 < 100 -> 0 <= m2 < 100 -> 0 <= d1 < 100 -> 0 <= d2 < 100 ->
  0 <= h1 < 100 -> 0 <= h2 < 100 -> 0 <= n1 < 100 -> 0 <= n2 < 100 -> 0 <= s1 < 100 -> 0 <= s2 < 100 ->
  0 <= f1 < 1000 -> 0 <= f2 < 1000 ->
  y1 < y2 \/ y1 = y2 /\ (m1 < m2 \/ m1 = m2 /\ (d1 < d2 \/ d1 = d2 /\ (h1 < h2 \/ h1 = h2 /\
    (n1 < n2 \/ n1 = n2 /\ (s1 < s2 \/ s1 = s2 /\ f1 <= f2))))) ->
  jstr_le (digits 4 y1 ++ iso_tail_string m1 d1 h1 n1 s1 f1)
          (digits 4 y2 ++ iso_tail_string m2 d2 h2 n2 s2 f2) = true.
Proof.
  intros. unfold iso_tail_string.
  rewrite jstr_le_field, jstr_le_same, jstr_le_field, jstr_le_same, jstr_le_field, jstr_le_same, jstr_le_field,
    jstr_le_same, jstr_le_field, jstr_le_same, jstr_le_field, jstr_le_same, jstr_le_field, jstr_le_refl by (cbn; lia).
  rewrite !orb_true_iff, !andb_true_iff, !Z.ltb_lt, !Z.eqb_eq. lia.
Qed.

(** The fields of the time of day, in order. *)
Lemma time_fields a b :
  0 <= a <= b -> b < 86400000 ->
  a / 3600000 < b / 3600000 \/ a / 3600000 = b / 3600000 /\
    (a / 60000 mod 60 < b / 60000 mod 60 \/ a / 60000 mod 60 = b / 60000 mod 60 /\
      (a / 1000 mod 60 < b / 1000 mod 60 \/ a / 1000 mod 60 = b / 1000 mod 60 /\ a mod 1000 <= b mod 1000)).
Proof. intros. div_lia. Qed.

Lemma iso_string_mono t1 t2 :
  four_digit t1 -> four_digit t2 -> t1 <= t2 -> jstr_le (iso_string t1) (iso_string t2) = true.
Proof.
  intros H1 H2 Ht. destruct (civil_from_days (t1 / 86400000)) as [[y1 m1] d1] eqn:E1.
  destruct (civil_from_days (t2 / 86400000)) as [[y2 m2] d2] eqn:E2.
  pose proof (four_digit_year _ _ _ _ H1 E1) as Hy1. pose proof (four_digit_year _ _ _ _ H2 E2) as Hy2.
  pose proof (civil_fields _ _ _ _ E1) as Hf1. pose proof (civil_fields _ _ _ _ E2) as Hf2.
  assert (Hc : y1 < y2 \/ y1 = y2 /\ (m1 < m2 \/ m1 = m2 /\ (d1 < d2 \/ d1 = d2 /\
    t1 / 86400000 = t2 / 86400000))).
  { pose proof (civil_mono _ _ _ _ _ _ _ _ (Z.div_le_mono _ _ 86400000 eq_refl Ht) E1 E2).
    destruct (decide (y1 = y2)) as [->|], (decide (m1 = m2)) as [->|], (decide (d1 = d2)) as [->|]; try lia.
    apply days_from_civil_from_days in E1, E2. lia. }
  rewrite (iso_string_tail _ _ _ _ E1), (iso_string_tail _ _ _ _ E2). unfold iso_year.
  rewrite !(proj2 (Z.leb_le 0 _)), !(proj2 (Z.leb_le _ 9999)) by lia. cbn [andb].
  pose proof (time_fields (t1 mod 86400000) (t2 mod 86400000)) as Hf.
  pose proof (Z.mod_pos_bound t1 86400000 eq_refl) as Hm1. pose proof (Z.mod_pos_bound t2 86400000 eq_refl) as Hm2.
  assert (Hd : t1 / 86400000 = t2 / 86400000 -> t1 mod 86400000 <= t2 mod 86400000) by div_lia.
  apply iso_text_mono; try lia; clear -Hm1 Hm2; div_lia.
Qed.

Lemma iso_string_inj `{Host} t1 t2 :
  Z.abs t1 <= MAX_TIME -> Z.abs t2 <= MAX_TIME -> iso_string t1 = iso_string t2 -> t1 = t2.
Proof. intros H1 H2 E. apply (f_equal date_parse) in E. rewrite !date_parse_iso_string in E by done. congruence. Qed.

(** Text order is time order. *)
Lemma iso_string_le `{Host} t1 t2 :
  four_digit t1 -> four_digit t2 -> jstr_le (iso_string t1) (iso_string t2) = (t1 <=? t2).
Proof.
  intros H1 H2. destruct (Z.leb_spec t1 t2); [by apply iso_string_mono|].
  destruct (jstr_le (iso_string t1) (iso_string t2)) eqn:E; [|done].
  assert (E' : iso_string t1 = iso_string t2)
    by (apply jstr_le_antisym; [done|apply iso_string_mono; [done..|lia]]).
  apply iso_string_inj in E'; [lia|by apply four_digit_valid..].
Qed.
