(* ===== verification/JsJson.v ===== *)
(** JsJson: JavaScript values and [JSON.stringify], with the proof that a
    flat object of strings and integers is determined by its JSON text. *)
From S2P Require Import Prelude JsString Host.
Open Scope N_scope.

(** Values as the program inspects them at run time.  The properties of an
    object are listed in the order [Object.keys] enumerates them. *)
Inductive jsval : Type :=
| JUndefined
| JNull
| JBool (b : bool)
| JNum (n : jsnum)
| JStr (s : jstr)
| JArr (elements : list jsval)
| JObj (properties : list (jstr * jsval)).

(** [obj[key]] on an object's own properties. *)
Definition prop (key : jstr) (props : list (jstr * jsval)) : jsval :=
  match List.find (fun p => jeqb p.1 key) props with
  | Some (_, v) => v
  | None => JUndefined
  end.

Definition is_undefined (v : jsval) : bool :=
  match v with JUndefined => true | _ => false end.

(** ** [JSON.stringify] *)

Definition unicode_escape (c : N) : jstr :=
  [92; 117; hex_digit (c / 4096); hex_digit (c / 256 mod 16);
   hex_digit (c / 16 mod 16); hex_digit (c mod 16)].

(** The escape of one code unit that is not an unpaired surrogate. *)
Definition escape_unit (c : N) : jstr :=
  if c =? 8 then [92; 98] else if c =? 9 then [92; 116]
  else if c =? 10 then [92; 110] else if c =? 12 then [92; 102]
  else if c =? 13 then [92; 114] else if c =? 34 then [92; 34]
  else if c =? 92 then [92; 92]
  else if c <? 32 then unicode_escape c else [c].

Fixpoint json_escape (s : jstr) : jstr :=
  match s with
  | [] => []
  | c :: r =>
      if is_high_surrogate c then
        match r with
        | l :: r' =>
            if is_low_surrogate l then c :: l :: json_escape r'
            else unicode_escape c ++ json_escape r
        | [] => unicode_escape c
        end
      else if is_low_surrogate c then unicode_escape c ++ json_escape r
      else escape_unit c ++ json_escape r
  end.

Definition json_quote (s : jstr) : jstr := [34] ++ json_escape s ++ [34].

Definition join (sep : jstr) (l : list jstr) : jstr :=
  match l with
  | [] => []
  | x :: l => x ++ concat (map (fun y => sep ++ y) l)
  end.

(** [String(n)]; a finite number that is not an integer below 10^21 is
    rendered by the host. *)
Definition number_string `{Host} (n : jsnum) : jstr :=
  match n with
  | NInt z => if (Z.abs z <? 10 ^ 21)%Z then decimal_Z z else fractionToString z 1
  | NFrac p q => fractionToString p q
  | NNaN => "NaN"
  | NInf neg => if neg then "-Infinity" else "Infinity"
  end.

Definition json_number `{Host} (n : jsnum) : jstr :=
  match n with
  | NNaN | NInf _ => "null"
  | _ => number_string n
  end.

(** [JSON.stringify(v)], [undefined] being [None]. *)
Fixpoint json_stringify `{Host} (v : jsval) : option jstr :=
  match v with
  | JUndefined => None
  | JNull => Some (js "null")
  | JBool b => Some (js (if b then "true" else "false"))
  | JNum n => Some (json_number n)
  | JStr s => Some (json_quote s)
  | JArr l =>
      Some ([91] ++ join [44] (map (fun v => default (js "null") (json_stringify v)) l)
            ++ [93])
  | JObj l =>
      Some ([123] ++ join [44]
              (omap (fun p => (fun t => json_quote p.1 ++ [58] ++ t) <$> json_stringify p.2) l)
            ++ [125])
  end.

(** ** Objects with sorted keys *)

Fixpoint insert_prop {A} (p : jstr * A) (l : list (jstr * A)) : list (jstr * A) :=
  match l with
  | [] => [p]
  | q :: l => if jstr_le p.1 q.1 then p :: q :: l else q :: insert_prop p l
  end.

(** [Object.keys(object).sort()], with the values. *)
Definition sort_props {A} (l : list (jstr * A)) : list (jstr * A) :=
  foldr insert_prop [] l.

(** An optional property is written only when it is present. *)
Definition opt_prop (k : jstr) (v : option jsval) : list (jstr * jsval) :=
  match v with Some v => [(k, v)] | None => [] end.

(** ** Unique readability *)

Definition hex_value (c : N) : N := if c <? 97 then c - 48 else c - 87.

Lemma hex_value_digit n : n < 16 -> hex_value (hex_digit n) = n.
Proof. unfold hex_value, hex_digit. repeat case_match; rewrite ?N.ltb_lt, ?N.ltb_ge in *; lia. Qed.

(** The letters of the two-character escapes. *)
Definition unescape_letter (c : N) : N :=
  if c =? 98 then 8 else if c =? 116 then 9 else if c =? 110 then 10
  else if c =? 102 then 12 else if c =? 114 then 13 else c.

Definition unescape_head (t : jstr) : option (N * jstr) :=
  match t with
  | [] => None
  | c :: t =>
      if c =? 92 then
        match t with
        | e :: t =>
            if e =? 117 then
              match t with
              | a :: b :: d :: e :: t =>
                  Some (hex_value a * 4096 + hex_value b * 256 + hex_value d * 16
                        + hex_value e, t)
              | _ => None
              end
            else Some (unescape_letter e, t)
        | [] => None
        end
      else Some (c, t)
  end.

(** One case per escaped code unit. *)
Ltac escape_cases :=
  repeat match goal with
  | |- context [?c =? ?k] => destruct (N.eqb_spec c k) as [->|]; [done|]
  end.

Lemma unescape_escape c t : unescape_head (escape_unit c ++ t) = Some (c, t).
Proof.
  unfold escape_unit.
  escape_cases.
  destruct (N.ltb_spec c 32); cbv iota.
  - change (unescape_head (unicode_escape c ++ t)) with
      (Some (hex_value (hex_digit (c / 4096)) * 4096
             + hex_value (hex_digit (c / 256 mod 16)) * 256
             + hex_value (hex_digit (c / 16 mod 16)) * 16
             + hex_value (hex_digit (c mod 16)), t)).
    rewrite !hex_value_digit by div_lia. do 2 f_equal. div_lia.
  - cbn [app unescape_head]. by rewrite (proj2 (N.eqb_neq _ _)).
Qed.

Lemma escape_unit_not_quote c t : hd_error (escape_unit c ++ t) <> Some 34.
Proof.
  unfold escape_unit.
  escape_cases.
  by case_match; simpl; intros [= ->].
Qed.

Lemma json_escape_well_formed s :
  containsUnpairedSurrogate s = false -> json_escape s = concat (map escape_unit s).
Proof.
  remember (length s) as n eqn:Hn. assert (length s <= n)%nat as Hle by lia.
  clear Hn. revert s Hle. induction n as [|n IH]; intros s Hle Hs.
  { by destruct s; [|simpl in Hle; lia]. }
  assert (Hbig : forall c, 32 <= c -> c <> 34 -> c <> 92 -> escape_unit c = [c]).
  { intros c H H1 H2. unfold escape_unit.
    rewrite !(proj2 (N.eqb_neq c _)) by lia. by rewrite (proj2 (N.ltb_ge _ _)). }
  destruct s as [|c r]; [done|]. simpl in Hle. cbn in Hs |- *.
  unfold is_high_surrogate, is_low_surrogate.
  destruct (in_range 55296 56319 c) eqn:Eh.
  - destruct r as [|l r]; [done|]. destruct (_ || _) eqn:El; [done|].
    simpl in Hle. unfold in_range in *.
    rewrite andb_true_iff, orb_false_iff, !N.leb_le, !N.ltb_ge in *.
    rewrite (proj2 (N.leb_le 56320 l)), (proj2 (N.leb_le l 57343)) by lia.
    cbn [andb map concat]. rewrite !Hbig by lia. rewrite IH; [done|lia|done].
  - destruct (in_range 56320 57343 c); [done|]. rewrite IH; [done|lia|done].
Qed.

Lemma json_quote_inj s1 s2 t1 t2 :
  containsUnpairedSurrogate s1 = false -> containsUnpairedSurrogate s2 = false ->
  json_quote s1 ++ t1 = json_quote s2 ++ t2 -> s1 = s2 /\ t1 = t2.
Proof.
  intros H1 H2. unfold json_quote. rewrite !json_escape_well_formed by done.
  rewrite <-!app_assoc. intros E. injection E as E. clear H1 H2. revert s2 E.
  induction s1 as [|c1 s1 IH]; intros [|c2 s2] E; cbn [map concat app] in E.
  - by injection E.
  - rewrite <-app_assoc in E. apply (f_equal hd_error) in E.
    by destruct (escape_unit_not_quote c2 (concat (map escape_unit s2) ++ 34 :: t2)).
  - rewrite <-app_assoc in E. apply (f_equal hd_error) in E.
    by destruct (escape_unit_not_quote c1 (concat (map escape_unit s1) ++ 34 :: t1)).
  - rewrite <-!app_assoc in E. apply (f_equal unescape_head) in E.
    rewrite !unescape_escape in E. injection E as -> E.
    by apply IH in E as [-> ->].
Qed.

(** Two runs of digits before a non-digit. *)
Lemma digit_run_inj d1 d2 c1 c2 t1 t2 :
  Forall (fun c => is_digit c = true) d1 -> Forall (fun c => is_digit c = true) d2 ->
  is_digit c1 = false -> is_digit c2 = false ->
  d1 ++ c1 :: t1 = d2 ++ c2 :: t2 -> d1 = d2 /\ c1 :: t1 = c2 :: t2.
Proof.
  intros H1. revert d2. induction H1 as [|x d1 Hx H1 IH]; intros d2 H2 Hc1 Hc2 E.
  - destruct H2 as [|y d2 Hy H2]; [done|]. injection E as -> _. congruence.
  - destruct H2 as [|y d2 Hy H2]; [injection E as -> _; congruence|].
    injection E as -> E. by destruct (IH _ H2 Hc1 Hc2 E) as [-> ->].
Qed.

Lemma decimal_nonempty n : decimal n <> [].
Proof.
  assert (H : forall fuel n acc, acc <> [] -> decimal_aux fuel n acc <> []).
  { induction fuel as [|fuel IH]; intros m acc Ha; simpl; [done|].
    case_match; [done|by apply IH]. }
  unfold decimal. simpl. case_match; [done|]. by apply H.
Qed.

(** A string without unpaired surrogates, or a non-negative integer. *)
Definition flat_value (v : jsval) : Prop :=
  match v with
  | JStr s => containsUnpairedSurrogate s = false
  | JNum (NInt z) => (0 <= z < 10 ^ 21)%Z
  | _ => False
  end.

Section flat.
Context `{Host}.

Definition flat_text (v : jsval) : jstr := default [] (json_stringify v).

Lemma flat_text_number z :
  (0 <= z < 10 ^ 21)%Z -> flat_text (JNum (NInt z)) = decimal (Z.to_N z).
Proof.
  intros Hz. unfold flat_text. cbn. unfold decimal_Z.
  rewrite (proj2 (Z.ltb_lt _ _)), (proj2 (Z.ltb_ge _ _)) by lia. done.
Qed.

Lemma flat_text_inj v1 v2 c1 c2 t1 t2 :
  flat_value v1 -> flat_value v2 -> is_digit c1 = false -> is_digit c2 = false ->
  flat_text v1 ++ c1 :: t1 = flat_text v2 ++ c2 :: t2 ->
  v1 = v2 /\ c1 :: t1 = c2 :: t2.
Proof.
  assert (Hq : forall s t z c u, flat_value (JNum (NInt z)) ->
    flat_text (JStr s) ++ t <> flat_text (JNum (NInt z)) ++ c :: u).
  { intros s t z c u Hz. rewrite flat_text_number by done.
    pose proof (decimal_digits (Z.to_N z)) as Hd.
    pose proof (decimal_nonempty (Z.to_N z)).
    destruct (decimal _) as [|d ds]; [done|].
    apply Forall_cons in Hd as [Hd _]. intros E. injection E as <- _. done. }
  intros F1 F2 N1 N2 E.
  destruct v1 as [| | |[z1| | |]|s1| |]; try done;
  destruct v2 as [| | |[z2| | |]|s2| |]; try done.
  - rewrite !flat_text_number in E by done.
    apply digit_run_inj in E as [E ->]; [|apply decimal_digits..|done|done].
    split; [|done]. apply (f_equal digits_value) in E.
    rewrite !digits_value_decimal in E. simpl in F1, F2. do 2 f_equal. lia.
  - symmetry in E. by destruct (Hq _ _ _ _ _ F1 E).
  - by destruct (Hq _ _ _ _ _ F2 E).
  - unfold flat_text in E. cbn [json_stringify default] in E.
    by apply json_quote_inj in E as [-> ->].
Qed.

Definition prop_text (p : jstr * jsval) : jstr :=
  json_quote p.1 ++ [58] ++ flat_text p.2.

Definition flat_prop (p : jstr * jsval) : Prop :=
  containsUnpairedSurrogate p.1 = false /\ flat_value p.2.

Lemma prop_text_inj p1 p2 c1 c2 t1 t2 :
  flat_prop p1 -> flat_prop p2 -> is_digit c1 = false -> is_digit c2 = false ->
  prop_text p1 ++ c1 :: t1 = prop_text p2 ++ c2 :: t2 ->
  p1 = p2 /\ c1 :: t1 = c2 :: t2.
Proof.
  destruct p1 as [k1 v1], p2 as [k2 v2]. intros [K1 F1] [K2 F2] N1 N2 E.
  unfold prop_text in E. cbn [fst snd] in *. rewrite <-!app_assoc in E.
  apply json_quote_inj in E as [-> E]; [|done..]. injection E as E.
  by apply flat_text_inj in E as [-> ->].
Qed.

Lemma props_tail_inj l1 l2 :
  Forall flat_prop l1 -> Forall flat_prop l2 ->
  concat (map (fun p => 44 :: prop_text p) l1) ++ [125] =
  concat (map (fun p => 44 :: prop_text p) l2) ++ [125] -> l1 = l2.
Proof.
  assert (D : forall l, exists c t, is_digit c = false /\
    concat (map (fun p => 44 :: prop_text p) l) ++ [125] = c :: t).
  { intros [|p l]; eexists _, _; (split; [|reflexivity]); done. }
  intros H1. revert l2. induction H1 as [|p1 l1 Hp1 H1 IH];
    intros l2 H2 E; destruct H2 as [|p2 l2 Hp2 H2]; try done;
    try (apply (f_equal hd_error) in E; discriminate E).
  cbn [map concat app] in E. rewrite <-!app_assoc in E.
  apply (f_equal (@tail N)) in E. cbn [tail] in E.
  destruct (D l1) as (c1 & t1 & N1 & E1), (D l2) as (c2 & t2 & N2 & E2).
  rewrite E1, E2 in E. apply prop_text_inj in E as [-> E]; [|done..].
  f_equal. apply IH; [done|]. by rewrite E1, E2.
Qed.

Lemma flat_object_text l :
  Forall flat_prop l ->
  json_stringify (JObj l) = Some ([123] ++ join [44] (map prop_text l) ++ [125]).
Proof.
  intros H'. cbn [json_stringify]. do 4 f_equal.
  induction H' as [|[k v] l [Hk Hv] Hl IH]; [done|]. cbn in *.
  destruct v as [| | |[]| | |]; try done; cbn; f_equal; apply IH.
Qed.

(** A flat object is determined by its JSON text: property names, values,
    presence and order. *)
Lemma flat_object_inj l1 l2 :
  Forall flat_prop l1 -> Forall flat_prop l2 ->
  json_stringify (JObj l1) = json_stringify (JObj l2) -> l1 = l2.
Proof.
  intros H1 H2. rewrite !flat_object_text by done. intros E.
  injection E as E. apply (props_tail_inj l1 l2 H1 H2).
  destruct l1 as [|p1 l1], l2 as [|p2 l2]; cbn [map join] in *; [done|done..|].
  - rewrite !map_map, <-!app_assoc in E. cbn [map concat app]. f_equal.
    rewrite <-!app_assoc. exact E.
Qed.
End flat.

(** ** JSON text is well-formed text *)
Definition good_text (s : jstr) : Prop := code_units s /\ containsUnpairedSurrogate s = false.

Lemma good_text_app s t : good_text s -> good_text t -> good_text (s ++ t).
Proof.
  intros [Us Ws] [Ut Wt]. split; [by apply Forall_app|].
  by apply containsUnpairedSurrogate_app.
Qed.

Lemma good_text_small s : Forall (fun c => c < 55296) s -> good_text s.
Proof.
  intros H. split; [|by apply no_surrogate_well_formed].
  eapply Forall_impl; [exact H|]. intros c Hc. simpl in *. lia.
Qed.

Lemma hex_digit_small n : n < 16 -> hex_digit n < 55296.
Proof. unfold hex_digit. case_match; lia. Qed.

Lemma unicode_escape_good c : c < 65536 -> good_text (unicode_escape c).
Proof.
  intros Hc. apply good_text_small.
  repeat constructor; apply hex_digit_small; div_lia.
Qed.

Lemma escape_unit_good c :
  c < 65536 -> in_range 55296 56319 c = false -> in_range 56320 57343 c = false ->
  good_text (escape_unit c).
Proof.
  intros Hc Hh Hl. unfold escape_unit.
  repeat case_match; try (apply good_text_small; by repeat constructor).
  - by apply unicode_escape_good.
  - split; [by repeat constructor|]. cbn. by rewrite Hh, Hl.
Qed.

Lemma json_escape_good s : good_text s -> good_text (json_escape s).
Proof.
  remember (length s) as n eqn:Hn. assert (length s <= n)%nat as Hle by lia.
  clear Hn. revert s Hle. induction n as [|n IH]; intros s Hle [Hu Hs].
  { by destruct s; [|simpl in Hle; lia]. }
  destruct s as [|c r]; [done|]. simpl in Hle. apply Forall_cons in Hu as [Hc Hr].
  cbn in Hs |- *. unfold is_high_surrogate, is_low_surrogate.
  destruct (in_range 55296 56319 c) eqn:Eh.
  - destruct r as [|l r]; [done|]. apply Forall_cons in Hr as [Hl Hr].
    destruct (_ || _) eqn:El; [done|]. simpl in Hle.
    assert (El' : in_range 56320 57343 l = true).
    { unfold in_range. rewrite orb_false_iff, !N.ltb_ge in El.
      rewrite andb_true_iff, !N.leb_le. lia. }
    rewrite El'. change (c :: l :: json_escape r) with ([c; l] ++ json_escape r).
    apply good_text_app; [|apply IH; [lia|done]].
    split; [by repeat constructor|]. cbn. by rewrite Eh, El.
  - destruct (in_range 56320 57343 c) eqn:El; [done|].
    apply good_text_app; [by apply escape_unit_good|]. apply IH; [lia|done].
Qed.

Lemma json_quote_good s : good_text s -> good_text (json_quote s).
Proof.
  intros Hs. unfold json_quote.
  repeat apply good_text_app; [by apply good_text_small; repeat constructor| |
    by apply good_text_small; repeat constructor].
  by apply json_escape_good.
Qed.

Lemma digits_good s : Forall (fun c => is_digit c = true) s -> good_text s.
Proof.
  intros H. apply good_text_small. eapply Forall_impl; [exact H|].
  intros c. unfold is_digit, in_range. rewrite andb_true_iff, !N.leb_le. lia.
Qed.

Lemma good_text_concat l : Forall good_text l -> good_text (concat l).
Proof. induction 1; [by apply good_text_small|]. by apply good_text_app. Qed.

Lemma good_text_join sep l : good_text sep -> Forall good_text l -> good_text (join sep l).
Proof.
  intros Hsep Hl. destruct Hl as [|x l Hx Hl]; [by apply good_text_small|]. simpl.
  apply good_text_app; [done|]. apply good_text_concat, Forall_map.
  eapply Forall_impl; [exact Hl|]. intros y Hy. by apply good_text_app.
Qed.

(** All the strings of a flat object are made of code units. *)
Definition units_prop (p : jstr * jsval) : Prop :=
  code_units p.1 /\ match p.2 with JStr s => code_units s | _ => True end.

Lemma flat_object_good `{Host} l t :
  Forall flat_prop l -> Forall units_prop l ->
  json_stringify (JObj l) = Some t -> good_text t.
Proof.
  intros Hf Hu. rewrite flat_object_text by done. intros [= <-].
  assert (Hsmall : forall c, c < 55296 -> good_text [c])
    by (intros; apply good_text_small; by repeat constructor).
  apply (good_text_app [123]); [by apply Hsmall|].
  apply good_text_app; [|by apply Hsmall].
  apply good_text_join; [by apply Hsmall|]. apply Forall_map.
  clear -Hf Hu Hsmall. induction Hf as [|[k v] l [Hk Hv] Hf IH]; [constructor|].
  apply Forall_cons in Hu as [[Uk Uv] Hu]. constructor; [|by apply IH].
  unfold prop_text. cbn [fst snd] in *.
  apply good_text_app; [by apply json_quote_good|].
  apply good_text_app; [by apply Hsmall|].
  destruct v as [| | |[z| | |]|s| |]; try done.
  - rewrite flat_text_number by done. apply digits_good, decimal_digits.
  - by apply json_quote_good.
Qed.
