(* ===== verification/JsParse.v ===== *)
(** JsParse: [JSON.parse], as an executable recursive-descent parser, with the
    proof that it reads back what [JSON.stringify] writes. *)
From S2P Require Import Prelude JsString JsMap Host JsJson.
#[local] Open Scope N_scope.

(** ** Tokens *)

Definition is_json_space (c : N) : bool := (c =? 32) || (c =? 9) || (c =? 10) || (c =? 13).

Fixpoint skip_space (s : jstr) : jstr :=
  match s with
  | c :: r => if is_json_space c then skip_space r else s
  | [] => []
  end.

(** The rest of [s] after white space and the code unit [c]. *)
Definition next (c : N) (s : jstr) : option jstr :=
  match skip_space s with
  | d :: t => if d =? c then Some t else None
  | [] => None
  end.

(** The rest of [s] after the literal [p]. *)
Fixpoint literal (p s : jstr) : option jstr :=
  match p, s with
  | [], _ => Some s
  | c :: p, d :: s => if c =? d then literal p s else None
  | _, _ => None
  end.

Definition hex_digit_value (c : N) : option N :=
  if is_digit c then Some (c - 48)
  else if in_range 97 102 c then Some (c - 87)
  else if in_range 65 70 c then Some (c - 55) else None.

Definition unescape (c : N) : option N :=
  if c =? 34 then Some 34 else if c =? 92 then Some 92 else if c =? 47 then Some 47
  else if c =? 98 then Some 8 else if c =? 102 then Some 12 else if c =? 110 then Some 10
  else if c =? 114 then Some 13 else if c =? 116 then Some 9 else None.

(** A string body up to its closing quote. *)
Fixpoint parse_chars (s : jstr) : option (jstr * jstr) :=
  match s with
  | [] => None
  | c :: r =>
      if c =? 34 then Some ([], r)
      else if c =? 92 then
        match r with
        | 117 :: a :: b :: d :: e :: t =>
            match hex_digit_value a, hex_digit_value b, hex_digit_value d, hex_digit_value e with
            | Some a, Some b, Some d, Some e =>
                '(u, t) ← parse_chars t; Some ((a * 4096 + b * 256 + d * 16 + e) :: u, t)
            | _, _, _, _ => None
            end
        | x :: t =>
            match unescape x with
            | Some y => '(u, t) ← parse_chars t; Some (y :: u, t)
            | None => None
            end
        | [] => None
        end
      else if c <? 32 then None
      else '(u, t) ← parse_chars r; Some (c :: u, t)
  end.

Fixpoint span_digits (s : jstr) : jstr * jstr :=
  match s with
  | c :: r => if is_digit c then let '(d, t) := span_digits r in (c :: d, t) else ([], s)
  | [] => ([], [])
  end.

(** The double nearest to an integer. *)
Definition integer_number (z : Z) : jsnum :=
  if (Z.abs (round53 z) <? 2 ^ 1024)%Z then NInt (round53 z) else NInf (z <? 0)%Z.

(** Fraction and exponent, both optional, as they stand in the text. *)
Definition parse_tail (s : jstr) : option (jstr * jstr) :=
  '(f, s1) ← match s with
             | 46 :: r => let '(d, t) := span_digits r in
                 match d with [] => None | _ => Some (46 :: d, t) end
             | _ => Some ([], s)
             end;
  match s1 with
  | e :: r =>
      if (e =? 101) || (e =? 69) then
        let '(sign, r) := match r with
          | 43 :: t => ([43], t) | 45 :: t => ([45], t) | _ => ([], r) end in
        let '(d, t) := span_digits r in
        match d with [] => None | _ => Some (f ++ e :: sign ++ d, t) end
      else Some (f, s1)
  | [] => Some (f, s1)
  end.

Section parse.
Context `{Host}.

Definition parse_number (s : jstr) : option (jsval * jstr) :=
  let neg := match s with c :: _ => c =? 45 | [] => false end in
  let '(d, t) := span_digits (if neg then drop 1 s else s) in
  match d with
  | [] => None
  | c :: l =>
      if (c =? 48) && negb (length l =? 0)%nat then None else
      '(tail, rest) ← parse_tail t;
      let z := if neg then (- Z.of_N (digits_value d))%Z else Z.of_N (digits_value d) in
      Some (JNum (match tail with
                  | [] => integer_number z
                  | _ => decimalToNumber ((if neg then [45] else []) ++ d ++ tail)
                  end), rest)
  end.

(** ** Values

    The fuel bounds the nesting and the number of elements; the length of the
    text is enough, since each step consumes some of it. *)
Fixpoint parse_value (fuel : nat) (s : jstr) : option (jsval * jstr) :=
  match fuel with
  | O => None
  | S fuel =>
      match skip_space s with
      | [] => None
      | c :: r =>
          if c =? 34 then '(u, t) ← parse_chars r; Some (JStr u, t)
          else if c =? 91 then
            match next 93 r with
            | Some t => Some (JArr [], t)
            | None => '(l, t) ← parse_elements fuel r; Some (JArr l, t)
            end
          else if c =? 123 then
            match next 125 r with
            | Some t => Some (JObj [], t)
            | None => '(l, t) ← parse_members fuel r; Some (JObj (fold_left (fun m p => map_set p.1 p.2 m) l []), t)
            end
          else if c =? 116 then t ← literal "rue" r; Some (JBool true, t)
          else if c =? 102 then t ← literal "alse" r; Some (JBool false, t)
          else if c =? 110 then t ← literal "ull" r; Some (JNull, t)
          else parse_number (c :: r)
      end
  end
with parse_elements (fuel : nat) (s : jstr) : option (list jsval * jstr) :=
  match fuel with
  | O => None
  | S fuel =>
      '(v, t) ← parse_value fuel s;
      match next 44 t with
      | Some t => '(l, t) ← parse_elements fuel t; Some (v :: l, t)
      | None => t ← next 93 t; Some ([v], t)
      end
  end
with parse_members (fuel : nat) (s : jstr) : option (list (jstr * jsval) * jstr) :=
  match fuel with
  | O => None
  | S fuel =>
      r ← next 34 s;
      '(k, t) ← parse_chars r;
      t ← next 58 t;
      '(v, t) ← parse_value fuel t;
      match next 44 t with
      | Some t => '(l, t) ← parse_members fuel t; Some ((k, v) :: l, t)
      | None => t ← next 125 t; Some ([(k, v)], t)
      end
  end.

(** [JSON.parse(text)]; a syntax error throws. *)
Definition json_parse (text : jstr) : result jsval :=
  match parse_value (2 * S (length text)) text with
  | Some (v, rest) => match skip_space rest with [] => Ok v | _ => Throw "SyntaxError" end
  | None => Throw "SyntaxError"
  end.
End parse.

(** ** Reading back what [JSON.stringify] wrote *)

Section jsval_ind.
Variable P : jsval -> Prop.
Hypotheses (Hundef : P JUndefined) (Hnull : P JNull) (Hbool : forall b, P (JBool b))
  (Hnum : forall n, P (JNum n)) (Hstr : forall s, P (JStr s))
  (Harr : forall l, Forall P l -> P (JArr l))
  (Hobj : forall l, Forall (fun p => P p.2) l -> P (JObj l)).

(** Induction with the hypothesis for every element and property. *)
Fixpoint jsval_nested_ind (v : jsval) : P v :=
  match v with
  | JUndefined => Hundef | JNull => Hnull | JBool b => Hbool b | JNum n => Hnum n | JStr s => Hstr s
  | JArr l => Harr l ((fix go l := match l return Forall P l with
      | [] => Forall_nil_2 _ | v :: l => Forall_cons_2 _ _ _ (jsval_nested_ind v) (go l) end) l)
  | JObj l => Hobj l ((fix go l := match l return Forall (fun p => P p.2) l with
      | [] => Forall_nil_2 _ | p :: l => Forall_cons_2 _ _ _ (jsval_nested_ind p.2) (go l) end) l)
  end.
End jsval_ind.

(** A value that JSON keeps as it is: no [undefined], integers a double holds,
    well-formed strings, distinct property names. *)
Fixpoint json_clean (v : jsval) : Prop :=
  match v with
  | JUndefined => False
  | JNull | JBool _ => True
  | JNum (NInt z) => (Z.abs z <= 2 ^ 53)%Z
  | JNum _ => False
  | JStr s => good_text s
  | JArr l => (fix go l := match l with [] => True | v :: l => json_clean v /\ go l end) l
  | JObj l => NoDup l.*1 /\
      (fix go l := match l with [] => True | p :: l => (good_text p.1 /\ json_clean p.2) /\ go l end) l
  end.

Lemma json_clean_arr l : json_clean (JArr l) <-> Forall json_clean l.
Proof. induction l as [|v l IH]; [by split|]. rewrite Forall_cons, <-IH. done. Qed.

Lemma json_clean_obj l :
  json_clean (JObj l) <-> NoDup l.*1 /\ Forall (fun p => good_text p.1 /\ json_clean p.2) l.
Proof.
  cbn [json_clean]. apply and_iff_compat_l. induction l as [|p l IH]; [by split|].
  by rewrite Forall_cons, <-IH.
Qed.

(** What may follow a value. *)
Definition delimited (rest : jstr) : Prop :=
  match rest with [] => True | c :: _ => c = 44 \/ c = 93 \/ c = 125 \/ c = 10 end.

Lemma hex_digit_value_digit n : n < 16 -> hex_digit_value (hex_digit n) = Some n.
Proof.
  intros Hn. unfold hex_digit_value, hex_digit, is_digit, in_range.
  destruct (N.ltb_spec n 10).
  - rewrite !(proj2 (N.leb_le _ _)) by lia. cbn. f_equal. lia.
  - rewrite (proj2 (N.leb_le 48 _)), (proj2 (N.leb_gt _ 57)), !(proj2 (N.leb_le _ _)) by lia.
    cbn. f_equal. lia.
Qed.

Lemma parse_chars_unit c t :
  c < 65536 ->
  parse_chars (escape_unit c ++ t) = '(u, r) ← parse_chars t; Some (c :: u, r).
Proof.
  intros Hc. unfold escape_unit.
  repeat match goal with
  | |- context [c =? ?k] => destruct (N.eqb_spec c k) as [->|]; [done|]
  end.
  destruct (N.ltb_spec c 32); cbv iota.
  - unfold unicode_escape. cbn [app]. cbn [parse_chars].
    change (92 =? 34) with false. change (92 =? 92) with true. cbv iota.
    rewrite !hex_digit_value_digit by div_lia.
    replace (c / 4096 * 4096 + c / 256 mod 16 * 256 + c / 16 mod 16 * 16 + c mod 16) with c by div_lia.
    done.
  - cbn [app parse_chars]. rewrite !(proj2 (N.eqb_neq c _)) by done.
    by rewrite (proj2 (N.ltb_ge _ _)).
Qed.

Lemma parse_chars_quote s t :
  good_text s -> parse_chars (json_escape s ++ 34 :: t) = Some (s, t).
Proof.
  intros [Hu Hs]. rewrite json_escape_well_formed by done. clear Hs.
  induction Hu as [|c s Hc Hu IH]; [done|].
  cbn [map concat]. rewrite <-app_assoc, parse_chars_unit by done. by rewrite IH.
Qed.

Lemma span_digits_run d t :
  Forall (fun c => is_digit c = true) d ->
  match t with [] => True | c :: _ => is_digit c = false end -> span_digits (d ++ t) = (d, t).
Proof.
  intros Hd Ht. induction Hd as [|c d Hc Hd IH]; cbn.
  - destruct t; [done|]. cbn. by rewrite Ht.
  - by rewrite Hc, IH.
Qed.

Lemma delimited_digits rest :
  delimited rest -> match rest with [] => True | c :: _ => is_digit c = false end.
Proof. destruct rest as [|c r]; [done|]. by intros [->|[->|[->| ->]]]. Qed.

Lemma delimited_tail rest : delimited rest -> parse_tail rest = Some ([], rest).
Proof. destruct rest as [|c r]; [done|]. by intros [->|[->|[->| ->]]]. Qed.

(** No leading zeros. *)
Lemma decimal_aux_head fuel n acc :
  n <> 0 -> n < 2 ^ N.of_nat fuel ->
  exists c l, decimal_aux fuel n acc = c :: l /\ c <> 48.
Proof.
  revert n acc. induction fuel as [|fuel IH]; intros n acc Hn Hlt; [cbn in Hlt; lia|].
  cbn [decimal_aux]. destruct (N.eqb_spec (n / 10) 0) as [E|NE].
  - eexists _, _. split; [done|]. div_lia.
  - apply IH; [done|]. rewrite Nnat.Nat2N.inj_succ, N.pow_succ_r' in Hlt. div_lia.
Qed.

Lemma decimal_head n : n <> 0 -> exists c l, decimal n = c :: l /\ c <> 48.
Proof.
  intros Hn. apply decimal_aux_head; [done|].
  rewrite Nnat.Nat2N.inj_succ, Nnat.N2Nat.id. apply N.log2_spec. lia.
Qed.

Section round_trip.
Context `{Host}.

Lemma parse_digits (neg : bool) n rest :
  delimited rest -> (n <= 2 ^ 53)%N ->
  parse_number ((if neg then [45] else []) ++ decimal n ++ rest) =
    Some (JNum (NInt (if neg then - Z.of_N n else Z.of_N n)%Z), rest).
Proof.
  intros Hrest Hn. pose proof (decimal_digits n) as Hd. pose proof (decimal_nonempty n) as Hne.
  assert (Hz : exists c l, decimal n = c :: l /\ (c =? 48) && negb (length l =? 0)%nat = false).
  { destruct (N.eq_dec n 0) as [->|Hn0]; [by eexists _, _|].
    destruct (decimal_head n Hn0) as (c & l & -> & Hc). eexists _, _. split; [done|].
    by rewrite (proj2 (N.eqb_neq _ _) Hc). }
  destruct Hz as (c & l & Ed & Ez).
  assert (Hneg : match (if neg then [45] else []) ++ decimal n ++ rest with
    c :: _ => c =? 45 | [] => false end = neg).
  { destruct neg; [done|]. rewrite Ed in *. apply Forall_cons in Hd as [Hc _]. cbn.
    apply N.eqb_neq. intros ->. done. }
  unfold parse_number. rewrite Hneg.
  assert (Hspan : span_digits (if neg then drop 1 ((if neg then [45] else []) ++ decimal n ++ rest)
    else (if neg then [45] else []) ++ decimal n ++ rest) = (decimal n, rest)).
  { destruct neg; cbn [app drop]; apply span_digits_run; by try apply delimited_digits. }
  rewrite Hspan, Ed. cbv zeta beta iota. rewrite Ez, delimited_tail by done. cbn [mbind option_bind].
  rewrite <-Ed.
  rewrite digits_value_decimal. do 4 f_equal. unfold integer_number.
  rewrite round53_small by (destruct neg; lia).
  rewrite (proj2 (Z.ltb_lt _ _)); [done|].
  assert (Z.of_N n <= 2 ^ 53)%Z by lia. assert (2 ^ 53 < 2 ^ 1024)%Z by by vm_compute.
  destruct neg; lia.
Qed.

(** *** Fuel *)

Fixpoint jsize (v : jsval) : nat :=
  match v with
  | JArr l => S ((fix go l := match l with [] => O | v :: l => S (jsize v + go l)%nat end) l)
  | JObj l => S ((fix go l := match l with [] => O | p :: l => S (jsize p.2 + go l)%nat end) l)
  | _ => 1%nat
  end.

Definition elements_size (l : list jsval) : nat := foldr (fun v n => S (jsize v + n)) O l.
Definition members_size (l : list (jstr * jsval)) : nat := foldr (fun p n => S (jsize p.2 + n)) O l.

Lemma jsize_arr l : jsize (JArr l) = S (elements_size l).
Proof. done. Qed.
Lemma jsize_obj l : jsize (JObj l) = S (members_size l).
Proof. done. Qed.

(** *** Text of arrays and objects *)

Definition value_text (v : jsval) : jstr := default [] (json_stringify v).
Definition member_text (p : jstr * jsval) : jstr := json_quote p.1 ++ [58] ++ value_text p.2.

Lemma clean_text v : json_clean v -> json_stringify v = Some (value_text v).
Proof. by destruct v. Qed.

Lemma array_text l :
  Forall json_clean l -> value_text (JArr l) = [91] ++ join [44] (map value_text l) ++ [93].
Proof.
  intros Hl. change (value_text (JArr l)) with ([91] ++
    join [44] (map (fun v => default (js "null") (json_stringify v)) l) ++ [93]). do 3 f_equal.
  induction Hl as [|v l Hv Hl IH]; [done|]. cbn [map]. by rewrite IH, (clean_text v Hv).
Qed.

Lemma object_text l :
  Forall (fun p => good_text p.1 /\ json_clean p.2) l ->
  value_text (JObj l) = [123] ++ join [44] (map member_text l) ++ [125].
Proof.
  intros Hl. change (value_text (JObj l)) with ([123] ++ join [44]
    (omap (fun p => (fun t => json_quote p.1 ++ [58] ++ t) <$> json_stringify p.2) l) ++ [125]).
  do 3 f_equal. induction Hl as [|p l [_ Hv] Hl IH]; [done|]. cbn [map omap list_omap]. by rewrite (clean_text _ Hv), IH.
Qed.

Lemma next_hit c t : is_json_space c = false -> next c (c :: t) = Some t.
Proof. intros Hc. unfold next. cbn. by rewrite Hc, N.eqb_refl. Qed.

Lemma next_miss c d t : is_json_space d = false -> d <> c -> next c (d :: t) = None.
Proof. intros Hd Hne. unfold next. cbn. by rewrite Hd, (proj2 (N.eqb_neq _ _) Hne). Qed.

(** The first code unit of a value. *)
Lemma value_head v : json_clean v ->
  exists c t, value_text v = c :: t /\ is_json_space c = false /\ c <> 93.
Proof.
  intros Hv. destruct v as [| |b|n|s|l|l]; try done.
  - by eexists _, _.
  - destruct b; by eexists _, _.
  - destruct n as [z| | |]; try done. unfold value_text. cbn [json_stringify from_option json_number number_string]; unfold id.
    rewrite (proj2 (Z.ltb_lt _ _)) by (cbn in Hv; lia).
    unfold decimal_Z. destruct (z <? 0)%Z; [by eexists _, _|].
    pose proof (decimal_digits (Z.to_N z)) as Hd. pose proof (decimal_nonempty (Z.to_N z)).
    destruct (decimal _) as [|c t]; [done|]. apply Forall_cons in Hd as [Hd _].
    exists c, t. split; [done|]. unfold is_digit, in_range in Hd.
    rewrite andb_true_iff, !N.leb_le in Hd. unfold is_json_space.
    rewrite !(proj2 (N.eqb_neq c _)) by lia. split; [done|lia].
  - by eexists _, _.
  - by eexists _, _.
  - by eexists _, _.
Qed.

(** *** The parser reads the text back *)

Definition reads (v : jsval) : Prop :=
  forall fuel rest, (jsize v <= fuel)%nat -> delimited rest ->
    parse_value fuel (value_text v ++ rest) = Some (v, rest).

Lemma reads_number z : (Z.abs z <= 2 ^ 53)%Z -> reads (JNum (NInt z)).
Proof.
  intros Hz fuel rest Hf Hrest. destruct fuel as [|fuel]; [cbn in Hf; lia|].
  unfold value_text. cbn [json_stringify from_option json_number number_string]; unfold id.
  rewrite (proj2 (Z.ltb_lt _ _)) by lia.
  assert (Et : decimal_Z z = (if (z <? 0)%Z then [45] else []) ++ decimal (Z.to_N (Z.abs z))).
  { unfold decimal_Z. destruct (Z.ltb_spec z 0); [by rewrite Z.abs_neq by lia|by rewrite Z.abs_eq by lia]. }
  assert (Hp : parse_number (decimal_Z z ++ rest) = Some (JNum (NInt z), rest)).
  { rewrite Et, <-app_assoc, parse_digits by (done || lia). do 4 f_equal.
    destruct (Z.ltb_spec z 0); lia. }
  assert (Hhead : exists c t, decimal_Z z ++ rest = c :: t /\ (c = 45 \/ is_digit c = true)).
  { rewrite Et. destruct (z <? 0)%Z; [eexists _, _; split; [done|by left]|].
    pose proof (decimal_digits (Z.to_N (Z.abs z))) as Hd. pose proof (decimal_nonempty (Z.to_N (Z.abs z))).
    destruct (decimal _) as [|c t]; [done|]. apply Forall_cons in Hd as [Hd _].
    eexists _, _. split; [done|by right]. }
  destruct Hhead as (c & t & E & Hc). cbn [parse_value]. rewrite E in *. cbn [skip_space].
  assert (Hr : 45 <= c <= 57).
  { destruct Hc as [->|Hc]; [lia|]. unfold is_digit, in_range in Hc.
    rewrite andb_true_iff, !N.leb_le in Hc. lia. }
  unfold is_json_space. rewrite !(proj2 (N.eqb_neq c _)) by lia. cbn [orb].
  rewrite !(proj2 (N.eqb_neq c _)) by lia. exact Hp.
Qed.

Lemma reads_elements l fuel rest :
  Forall json_clean l -> Forall reads l -> l <> [] -> (elements_size l <= fuel)%nat ->
  parse_elements fuel (join [44] (map value_text l) ++ 93 :: rest) = Some (l, rest).
Proof.
  intros Hc Hr Hne. revert fuel. induction l as [|v l IH]; intros fuel Hf; [done|].
  apply Forall_cons in Hc as [Hv Hc]. apply Forall_cons in Hr as [Hrv Hr].
  cbn [elements_size foldr] in Hf. destruct fuel as [|fuel]; [lia|].
  change (foldr _ O l) with (elements_size l) in Hf.
  cbn [parse_elements map join]. rewrite <-app_assoc. destruct l as [|w l].
  - cbn [map concat app]. rewrite Hrv by (lia || by right; left). cbn [mbind option_bind].
    rewrite next_miss, next_hit by done. done.
  - cbn [map concat app]. rewrite Hrv by (lia || by left). cbn [mbind option_bind].
    rewrite next_hit by done. cbn [map join] in IH. rewrite IH by (done || lia). done.
Qed.

Lemma reads_members l fuel rest :
  Forall (fun p => good_text p.1 /\ json_clean p.2) l -> Forall (fun p => reads p.2) l -> l <> [] ->
  (members_size l <= fuel)%nat ->
  parse_members fuel (join [44] (map member_text l) ++ 125 :: rest) = Some (l, rest).
Proof.
  intros Hc Hr Hne. revert fuel. induction l as [|[k v] l IH]; intros fuel Hf; [done|].
  apply Forall_cons in Hc as [[Hk Hv] Hc]. apply Forall_cons in Hr as [Hrv Hr]. cbn [fst snd] in *.
  cbn [members_size foldr] in Hf. destruct fuel as [|fuel]; [lia|].
  change (foldr _ O l) with (members_size l) in Hf. cbn [snd] in Hf.
  cbn [parse_members map join]. unfold member_text at 1, json_quote at 1. cbn [fst snd].
  rewrite <-!app_assoc. cbn [app]. rewrite next_hit by done. cbn [mbind option_bind].
  rewrite parse_chars_quote by done. cbn [mbind option_bind].
  rewrite next_hit by done. cbn [mbind option_bind].
  destruct l as [|w l]; cbn [map concat app].
  - rewrite Hrv by (lia || by right; right; left). cbn [mbind option_bind].
    by rewrite next_miss, next_hit by done.
  - rewrite Hrv by (lia || by left). cbn [mbind option_bind].
    rewrite next_hit by done. cbn [map join] in IH. by rewrite IH by (done || lia).
Qed.

Lemma fold_map_set {V} (l m : list (jstr * V)) :
  NoDup (m ++ l).*1 -> fold_left (fun m p => map_set p.1 p.2 m) l m = m ++ l.
Proof.
  revert m. induction l as [|[k v] l IH]; intros m Hnd; cbn; [by rewrite app_nil_r|].
  rewrite map_set_fresh.
  - rewrite IH; rewrite <-app_assoc; done.
  - apply map_get_None. rewrite fmap_app in Hnd. apply NoDup_app in Hnd as (_ & Hd & _).
    intros Hin. apply (Hd _ Hin). constructor.
Qed.

Lemma reads_clean v : json_clean v -> reads v.
Proof.
  induction v as [| |b|n|s|l IH|l IH] using jsval_nested_ind; intros Hv fuel rest Hf Hrest;
    try done; destruct fuel as [|fuel]; try (cbn in Hf; lia).
  - done.
  - by destruct b.
  - destruct n; [|done..]. by apply reads_number.
  - change (value_text (JStr s)) with ([34] ++ json_escape s ++ [34]). rewrite <-!app_assoc. cbn [app].
    cbn [parse_value]. cbn [skip_space]. change (is_json_space 34) with false. cbv iota.
    change (34 =? 34) with true. cbv iota. by rewrite parse_chars_quote.
  - apply json_clean_arr in Hv. rewrite jsize_arr in Hf. rewrite array_text by done.
    rewrite <-!app_assoc. cbn [app parse_value skip_space]. change (is_json_space 91) with false.
    cbv iota. change (91 =? 34) with false. change (91 =? 91) with true. cbv iota.
    destruct l as [|v l]; [done|].
    destruct (value_head v) as (c & t & Ec & Hsp & Hne); [by apply Forall_cons in Hv as [? _]|].
    assert (Hn : next 93 (join [44] (map value_text (v :: l)) ++ 93 :: rest) = None).
    { cbn [map join]. rewrite <-app_assoc, Ec. cbn [app]. by apply next_miss. }
    rewrite Hn. clear Hn.
    rewrite reads_elements; [done|done| |done|lia].
    apply Forall_forall. intros w Hw. eapply Forall_forall in IH; [|exact Hw].
    apply IH. eapply Forall_forall in Hv; [exact Hv|done].
  - apply json_clean_obj in Hv as [Hnd Hv]. rewrite jsize_obj in Hf. rewrite object_text by done.
    rewrite <-!app_assoc. cbn [app parse_value skip_space]. change (is_json_space 123) with false.
    cbv iota. change (123 =? 34) with false. change (123 =? 91) with false.
    change (123 =? 123) with true. cbv iota.
    destruct l as [|[k v] l]; [done|].
    assert (Hn : next 125 (join [44] (map member_text ((k, v) :: l)) ++ 125 :: rest) = None) by done.
    rewrite Hn. clear Hn. rewrite reads_members; [|done| |done|lia].
    + cbn [mbind option_bind]. by rewrite (fold_map_set _ []).
    + apply Forall_forall. intros w Hw. eapply Forall_forall in IH; [|exact Hw].
      apply IH. eapply Forall_forall in Hv as [_ Hv]; [exact Hv|done].
Qed.

(** *** The fuel of [json_parse] is enough *)

Lemma value_text_nonempty v : json_clean v -> (1 <= length (value_text v))%nat.
Proof. intros Hv. destruct (value_head v Hv) as (c & t & -> & _). cbn. lia. Qed.

Lemma join_length (ts : list jstr) :
  ts <> [] -> S (length (join [44] ts)) = sum_list_with (fun t => S (length t)) ts.
Proof.
  destruct ts as [|t ts]; [done|]. intros _. cbn [join sum_list_with]. rewrite length_app.
  rewrite <-Nat.add_succ_l. f_equal.
  induction ts as [|u ts IH]; [done|]. cbn [map concat sum_list_with]. by rewrite !length_app, IH.
Qed.

(** A bound on the elements bounds the bracketed text. *)
Lemma bracketed_size {A} (size : A -> nat) (text : A -> jstr) (l : list A) :
  Forall (fun x => size x <= 2 * length (text x))%nat l ->
  (S (foldr (fun x n => S (size x + n)) O l) <= 2 * (2 + length (join [44%N] (map text l))))%nat.
Proof.
  intros Hl. destruct l as [|x l]; [cbn; lia|].
  pose proof (join_length (map text (x :: l)) ltac:(done)) as Hj.
  assert (foldr (fun x n => S (size x + n)) O (x :: l) <=
    2 * sum_list_with (fun t => S (length t)) (map text (x :: l)))%nat; [|lia].
  clear Hj. induction Hl as [|y r Hy Hr IH]; [cbn; lia|].
  cbn [foldr map sum_list_with]. lia.
Qed.

Lemma jsize_text v : json_clean v -> (jsize v <= 2 * length (value_text v))%nat.
Proof.
  induction v as [| |b|n|s|l IH|l IH] using jsval_nested_ind; intros Hv;
    try (pose proof (value_text_nonempty _ Hv); cbn [jsize] in *; lia).
  - apply json_clean_arr in Hv. rewrite jsize_arr, array_text, !length_app by done. cbn [length].
    enough (Hl : Forall (fun x => jsize x <= 2 * length (value_text x))%nat l)
      by (pose proof (bracketed_size _ _ _ Hl); unfold elements_size; lia).
    apply Forall_forall. intros w Hw.
    eapply Forall_forall in IH; [|exact Hw]. apply IH. by eapply Forall_forall in Hv.
  - apply json_clean_obj in Hv as [_ Hv]. rewrite jsize_obj, object_text, !length_app by done. cbn [length].
    enough (Hl : Forall (fun p => jsize p.2 <= 2 * length (member_text p))%nat l)
      by (pose proof (bracketed_size (fun p => jsize p.2) _ _ Hl); unfold members_size; lia).
    apply Forall_forall. intros w Hw.
    eapply Forall_forall in IH; [|exact Hw]. eapply Forall_forall in Hv as [_ Hv]; [|exact Hw].
    specialize (IH Hv). unfold member_text. rewrite !length_app. lia.
Qed.

Lemma json_parse_stringify v text :
  json_clean v -> json_stringify v = Some text -> json_parse text = Ok v.
Proof.
  intros Hv E. rewrite (clean_text _ Hv) in E. injection E as <-. unfold json_parse.
  rewrite <-(app_nil_r (value_text v)) at 2. rewrite (reads_clean _ Hv); [done| |done].
  pose proof (jsize_text _ Hv). lia.
Qed.

(** *** The text survives UTF-8 *)

Lemma clean_text_good v : json_clean v -> good_text (value_text v).
Proof.
  assert (Hone : forall c, c < 55296 -> good_text [c])
    by (intros; apply good_text_small; by repeat constructor).
  induction v as [| |b|n|s|l IH|l IH] using jsval_nested_ind; intros Hv; try done.
  - apply good_text_small. by repeat constructor.
  - apply good_text_small. by destruct b; repeat constructor.
  - destruct n as [z| | |]; try done. unfold value_text.
    cbn [json_stringify from_option json_number number_string]; unfold id.
    rewrite (proj2 (Z.ltb_lt _ _)) by (cbn in Hv; lia).
    unfold decimal_Z. pose proof (decimal_digits (Z.to_N (- z))) as H1.
    pose proof (decimal_digits (Z.to_N z)) as H2. destruct (z <? 0)%Z; [|by apply digits_good].
    apply (good_text_app [45]); [by apply Hone|by apply digits_good].
  - by apply json_quote_good.
  - apply json_clean_arr in Hv. rewrite array_text by done.
    apply good_text_app; [by apply Hone|]. apply good_text_app; [|by apply Hone].
    apply good_text_join; [by apply Hone|]. apply Forall_map, Forall_forall. intros w Hw.
    eapply Forall_forall in IH; [|exact Hw]. apply IH. by eapply Forall_forall in Hv.
  - apply json_clean_obj in Hv as [_ Hv]. rewrite object_text by done.
    apply good_text_app; [by apply Hone|]. apply good_text_app; [|by apply Hone].
    apply good_text_join; [by apply Hone|]. apply Forall_map, Forall_forall. intros w Hw.
    eapply Forall_forall in IH; [|exact Hw]. eapply Forall_forall in Hv as [Hk Hv]; [|exact Hw].
    unfold member_text. apply good_text_app; [by apply json_quote_good|].
    apply good_text_app; [by apply Hone|by apply IH].
Qed.

(** *** The text has no control characters *)

Definition printable (s : jstr) : Prop := Forall (fun c => 32 <= c) s.

Lemma digits_printable s : Forall (fun c => is_digit c = true) s -> printable s.
Proof.
  intros Hs. eapply Forall_impl; [exact Hs|]. intros c.
  unfold is_digit, in_range. rewrite andb_true_iff, !N.leb_le. lia.
Qed.

Lemma unicode_escape_printable c : printable (unicode_escape c).
Proof.
  assert (E : forall n, 32 <= hex_digit n) by (intros; unfold hex_digit; case_match; lia).
  unfold unicode_escape. repeat (constructor; [by first [apply E|lia]|]). constructor.
Qed.

Lemma escape_unit_printable c : printable (escape_unit c).
Proof.
  unfold escape_unit. repeat case_match; try by repeat constructor.
  - apply unicode_escape_printable.
  - constructor; [by apply N.ltb_ge|constructor].
Qed.

Lemma json_escape_printable s : printable (json_escape s).
Proof.
  remember (length s) as n eqn:Hn. assert (length s <= n)%nat as Hle by lia.
  clear Hn. revert s Hle. induction n as [|n IH]; intros [|c r] Hle; try (by constructor); cbn in Hle; [lia|].
  assert (Hr : printable (json_escape r)) by (apply IH; lia). cbn [json_escape].
  destruct (is_high_surrogate c) eqn:Eh; [|destruct (is_low_surrogate c)];
    [|apply Forall_app; split; [apply unicode_escape_printable|done]
     |apply Forall_app; split; [apply escape_unit_printable|done]].
  destruct r as [|l r]; [apply unicode_escape_printable|]. cbn in Hle.
  destruct (is_low_surrogate l) eqn:El.
  - unfold is_high_surrogate, is_low_surrogate, in_range in *. rewrite andb_true_iff, !N.leb_le in *.
    constructor; [lia|]. constructor; [lia|]. apply IH. lia.
  - apply Forall_app; split; [apply unicode_escape_printable|done].
Qed.

Lemma json_quote_printable s : printable (json_quote s).
Proof. repeat (apply Forall_app; split); [by repeat constructor|apply json_escape_printable|by repeat constructor]. Qed.

Lemma printable_join sep l : printable sep -> Forall printable l -> printable (join sep l).
Proof.
  intros Hs Hl. destruct Hl as [|x l Hx Hl]; [constructor|]. cbn. apply Forall_app. split; [done|].
  induction Hl as [|y l Hy Hl IH]; [constructor|]. cbn. repeat (apply Forall_app; split); done.
Qed.

Lemma clean_text_printable v : json_clean v -> printable (value_text v).
Proof.
  assert (Hone : forall c, 32 <= c -> printable [c]) by (intros; by repeat constructor).
  induction v as [| |b|n|s|l IH|l IH] using jsval_nested_ind; intros Hv; try done.
  - by repeat constructor.
  - by destruct b; repeat constructor.
  - destruct n as [z| | |]; try done. unfold value_text.
    cbn [json_stringify from_option json_number number_string]; unfold id.
    rewrite (proj2 (Z.ltb_lt _ _)) by (cbn in Hv; lia).
    unfold decimal_Z. pose proof (decimal_digits (Z.to_N (- z))) as H1.
    pose proof (decimal_digits (Z.to_N z)) as H2.
    destruct (z <? 0)%Z; [constructor; [lia|]|]; by apply digits_printable.
  - apply json_quote_printable.
  - apply json_clean_arr in Hv. rewrite array_text by done.
    apply Forall_app; split; [by apply Hone|]. apply Forall_app; split; [|by apply Hone].
    apply printable_join; [by apply Hone|]. apply Forall_map, Forall_forall. intros w Hw.
    eapply Forall_forall in IH; [|exact Hw]. apply IH. by eapply Forall_forall in Hv.
  - apply json_clean_obj in Hv as [_ Hv]. rewrite object_text by done.
    apply Forall_app; split; [by apply Hone|]. apply Forall_app; split; [|by apply Hone].
    apply printable_join; [by apply Hone|]. apply Forall_map, Forall_forall. intros w Hw.
    eapply Forall_forall in IH; [|exact Hw]. eapply Forall_forall in Hv as [Hk Hv]; [|exact Hw].
    unfold member_text. apply Forall_app; split; [apply json_quote_printable|].
    apply Forall_app; split; [by apply Hone|by apply IH].
Qed.

(** Encoding a value as UTF-8 JSON and reading it back. *)
Lemma json_bytes_round_trip v :
  json_clean v -> json_parse (utf8_decode (utf8_encode (default [] (json_stringify v)))) = Ok v.
Proof.
  intros Hv. rewrite (clean_text _ Hv). cbn [from_option]; unfold id.
  rewrite utf8_decode_encode by apply (clean_text_good _ Hv).
  apply json_parse_stringify; [done|by apply clean_text].
Qed.
End round_trip.
