(* ===== verification/JsPretty.v ===== *)
(** JsPretty: JSON.stringify with an indentation of two, and JSON.parse of what
    it wrote. *)
From S2P Require Import Prelude JsString JsMap Host JsJson JsParse.
#[local] Open Scope string_scope.
#[local] Open Scope list_scope.
#[local] Open Scope N_scope.
#[local] Open Scope js_scope.

(** A new line, indented. *)
Definition line (n : nat) : jstr := 10 :: repeat 32 n.

(** Elements on lines of their own. *)
Definition block (open_ close : N) (n : nat) (l : list jstr) : jstr :=
  match l with
  | [] => [open_; close]
  | _ => open_ :: line (2 + n) ++ join (44 :: line (2 + n)) l ++ line n ++ [close]
  end.

(** [JSON.stringify(v, null, 2)], from the depth of [n] spaces on. *)
Fixpoint json_pretty `{Host} (n : nat) (v : jsval) : option jstr :=
  match v with
  | JUndefined => None
  | JNull => Some (js "null")
  | JBool b => Some (js (if b then "true" else "false"))
  | JNum n => Some (json_number n)
  | JStr s => Some (json_quote s)
  | JArr l => Some (block 91 93 n (map (fun v => default (js "null") (json_pretty (2 + n) v)) l))
  | JObj l => Some (block 123 125 n (omap (fun p => (fun t => json_quote p.1 ++ [58; 32] ++ t) <$> json_pretty (2 + n) p.2) l))
  end.

Section reading.
Context `{Host}.

Definition pretty_text (n : nat) (v : jsval) : jstr := default [] (json_pretty n v).
Definition pretty_member (n : nat) (p : jstr * jsval) : jstr := json_quote p.1 ++ [58; 32] ++ pretty_text n p.2.

Lemma pretty_clean n v : json_clean v -> json_pretty n v = Some (pretty_text n v).
Proof. by destruct v. Qed.
Lemma pretty_array n l : Forall json_clean l -> pretty_text n (JArr l) = block 91 93 n (map (pretty_text (2 + n)) l).
Proof.
  intros Hl. unfold pretty_text at 1. cbn [json_pretty from_option]; unfold id. f_equal.
  induction Hl as [|v l Hv Hl IH]; [done|]. cbn [map]. by rewrite IH, (pretty_clean _ v Hv).
Qed.
Lemma pretty_object n l : Forall (fun p => good_text p.1 /\ json_clean p.2) l -> pretty_text n (JObj l) = block 123 125 n (map (pretty_member (2 + n)) l).
Proof.
  intros Hl. unfold pretty_text at 1. cbn [json_pretty from_option]; unfold id. f_equal.
  induction Hl as [|p l [_ Hv] Hl IH]; [done|]. cbn [map omap list_omap]. by rewrite (pretty_clean _ _ Hv), IH.
Qed.

(** ** White space *)

Lemma skip_line n t : skip_space (line n ++ t) = skip_space t.
Proof. unfold line. cbn [app skip_space]. change (is_json_space 10) with true. cbv iota. induction n as [|n IH]; [done|exact IH]. Qed.
Lemma next_line c n t : next c (line n ++ t) = next c t.
Proof. unfold next. by rewrite skip_line. Qed.
Lemma next_space c t : next c (32 :: t) = next c t.
Proof. done. Qed.
Lemma value_line fuel n t : parse_value fuel (line n ++ t) = parse_value fuel t.
Proof. destruct fuel as [|fuel]; [done|]. cbn [parse_value]. by rewrite skip_line. Qed.
Lemma value_space fuel t : parse_value fuel (32 :: t) = parse_value fuel t.
Proof. by destruct fuel. Qed.
Lemma elements_line fuel n t : parse_elements fuel (line n ++ t) = parse_elements fuel t.
Proof. destruct fuel as [|fuel]; [done|]. cbn [parse_elements]. by rewrite value_line. Qed.
Lemma members_line fuel n t : parse_members fuel (line n ++ t) = parse_members fuel t.
Proof. destruct fuel as [|fuel]; [done|]. cbn [parse_members]. by rewrite next_line. Qed.

(** ** The parser reads the text back *)

Definition pretty_reads (v : jsval) : Prop := forall n fuel rest, (jsize v <= fuel)%nat -> delimited rest ->
  parse_value fuel (pretty_text n v ++ rest) = Some (v, rest).

Lemma delimited_line n t : delimited (line n ++ t).
Proof. by right; right; right. Qed.

Lemma pretty_elements n m l fuel rest : Forall pretty_reads l -> l <> [] -> (elements_size l <= fuel)%nat ->
  parse_elements fuel (join (44 :: line n) (map (pretty_text n) l) ++ line m ++ 93 :: rest) = Some (l, rest).
Proof.
  intros Hr Hne. revert fuel. induction l as [|v l IH]; intros fuel Hf; [done|]. apply Forall_cons in Hr as [Hrv Hr].
  cbn [elements_size foldr] in Hf. destruct fuel as [|fuel]; [lia|]. change (foldr _ O l) with (elements_size l) in Hf.
  cbn [parse_elements map join]. rewrite <-app_assoc. destruct l as [|w l].
  - cbn [map concat app]. rewrite Hrv by (lia || apply delimited_line). cbn [mbind option_bind]. by rewrite !next_line, next_miss, next_hit by done.
  - cbn [map concat]. rewrite <-!app_assoc. cbn [app]. rewrite Hrv by (lia || by left). cbn [mbind option_bind]. rewrite next_hit by done.
    cbn [map join] in IH. rewrite elements_line. rewrite <-!app_assoc in IH. by rewrite IH by (done || lia).
Qed.

Lemma pretty_members n m l fuel rest : Forall (fun p => good_text p.1) l -> Forall (fun p => pretty_reads p.2) l -> l <> [] -> (members_size l <= fuel)%nat ->
  parse_members fuel (join (44 :: line n) (map (pretty_member n) l) ++ line m ++ 125 :: rest) = Some (l, rest).
Proof.
  intros Hc Hr Hne. revert fuel. induction l as [|[k v] l IH]; intros fuel Hf; [done|].
  apply Forall_cons in Hc as [Hk Hc]. apply Forall_cons in Hr as [Hrv Hr]. cbn [fst snd] in *.
  cbn [members_size foldr] in Hf. destruct fuel as [|fuel]; [lia|]. change (foldr _ O l) with (members_size l) in Hf. cbn [snd] in Hf.
  cbn [parse_members map join]. unfold pretty_member at 1, json_quote at 1. cbn [fst snd].
  rewrite <-!app_assoc. cbn [app]. rewrite next_hit by done. cbn [mbind option_bind]. rewrite parse_chars_quote by done. cbn [mbind option_bind].
  rewrite next_hit by done. cbn [mbind option_bind]. rewrite value_space. destruct l as [|w l].
  - cbn [map concat app]. rewrite Hrv by (lia || apply delimited_line). cbn [mbind option_bind]. by rewrite !next_line, next_miss, next_hit by done.
  - cbn [map concat]. rewrite <-!app_assoc. cbn [app]. rewrite Hrv by (lia || by left). cbn [mbind option_bind]. rewrite next_hit by done.
    cbn [map join] in IH. rewrite <-!app_assoc, members_line. rewrite <-!app_assoc in IH. by rewrite IH by (done || lia).
Qed.

(** A bracket and a block are read. *)
Lemma block_elements n v l fuel rest : json_clean v -> Forall pretty_reads (v :: l) -> (elements_size (v :: l) <= fuel)%nat ->
  next 93 (line (2 + n) ++ join (44 :: line (2 + n)) (map (pretty_text (2 + n)) (v :: l)) ++ line n ++ 93 :: rest) = None /\
  parse_elements fuel (line (2 + n) ++ join (44 :: line (2 + n)) (map (pretty_text (2 + n)) (v :: l)) ++ line n ++ 93 :: rest) = Some (v :: l, rest).
Proof.
  intros Hv Hr Hf. split; [|rewrite elements_line; by apply pretty_elements].
  rewrite next_line. cbn [map join]. rewrite <-app_assoc.
  assert (Hh : exists c t, pretty_text (2 + n) v = c :: t /\ is_json_space c = false /\ c <> 93).
  { pose proof (value_head v Hv) as Hh. destruct v as [| |b|z|s|a|o]; try exact Hh.
    - rewrite pretty_array by (by apply json_clean_arr). unfold block. destruct (map _ a); by eexists _, _.
    - rewrite pretty_object by (by apply json_clean_obj in Hv as [_ ?]). unfold block. destruct (map _ o); by eexists _, _. }
  destruct Hh as (c & t & -> & Hsp & Hne). by apply next_miss.
Qed.

Lemma pretty_value v : json_clean v -> pretty_reads v.
Proof.
  induction v as [| |b|z|s|l IH|l IH] using jsval_nested_ind; intros Hv n fuel rest Hf Hrest; try by apply (reads_clean _ Hv).
  - assert (Hl : Forall json_clean l) by by apply json_clean_arr in Hv.
    destruct l as [|v l]; [by apply (reads_clean _ Hv)|]. rewrite jsize_arr in Hf. destruct fuel as [|fuel]; [lia|].
    assert (Hr : Forall pretty_reads (v :: l)).
    { apply Forall_forall. intros w Hw. rewrite Forall_forall in IH, Hl. auto. }
    rewrite pretty_array by done. unfold block. cbn [map].
    destruct (block_elements n v l fuel rest) as [E1 E2]; [by apply Forall_cons in Hl as [? _]|done|lia|]. cbn [map] in E1, E2.
    cbn [app parse_value skip_space]. change (is_json_space 91) with false. cbv iota.
    change (91 =? 34) with false. change (91 =? 91) with true. cbv iota. rewrite <-!app_assoc. cbn [app]. by rewrite E1, E2.
  - assert (Hl : NoDup l.*1 /\ Forall (fun p => good_text p.1 /\ json_clean p.2) l) by by apply json_clean_obj in Hv. destruct Hl as [Hnd Hl].
    destruct l as [|[k v] l]; [by apply (reads_clean _ Hv)|]. rewrite jsize_obj in Hf. destruct fuel as [|fuel]; [lia|].
    rewrite pretty_object by done. unfold block. cbn [map]. cbn [app parse_value skip_space]. change (is_json_space 123) with false. cbv iota.
    change (123 =? 34) with false. change (123 =? 91) with false. change (123 =? 123) with true. cbv iota. rewrite <-!app_assoc. rewrite next_line.
    pose proof (pretty_members (2 + n) n ((k, v) :: l) fuel rest) as Hm. cbn [map] in Hm.
    rewrite members_line. cbn [app]. rewrite Hm; [|..].
    + cbn [join]. unfold pretty_member at 1, json_quote at 1. cbn [fst]. rewrite <-!app_assoc. cbn [app]. rewrite next_miss by done.
      cbn [mbind option_bind]. by rewrite (fold_map_set _ []).
    + apply Forall_forall. intros p Hp. rewrite Forall_forall in Hl. by apply Hl.
    + apply Forall_forall. intros p Hp. rewrite Forall_forall in IH, Hl. by apply IH, Hl.
    + done.
    + lia.
Qed.

(** ** The whole text *)

Lemma block_length o c n (ts us : list jstr) : Forall2 (fun t u : jstr => length t <= length u)%nat ts us ->
  (length ([o] ++ join [44%N] ts ++ [c]) <= length (block o c n us))%nat.
Proof.
  intros Hl. destruct Hl as [|t u ts us Htu Hl]; [done|]. unfold block. cbn [app length]. rewrite !length_app. cbn [join]. rewrite !length_app.
  enough (length (concat (map (fun y => [44%N] ++ y) ts)) <= length (concat (map (fun y => (44%N :: line (2 + n)) ++ y) us)))%nat by (cbn [length]; lia).
  induction Hl as [|x y xs ys Hxy Hl IH]; [done|]. cbn [map concat]. rewrite !length_app. cbn [length]. lia.
Qed.

Lemma pretty_length n v : json_clean v -> (length (value_text v) <= length (pretty_text n v))%nat.
Proof.
  revert n. induction v as [| |b|z|s|l IH|l IH] using jsval_nested_ind; intros n Hv; try done.
  - apply json_clean_arr in Hv. rewrite array_text, pretty_array by done. apply block_length.
    apply Forall2_fmap, Forall_Forall2_diag, Forall_forall. intros w Hw. rewrite Forall_forall in IH, Hv. auto.
  - apply json_clean_obj in Hv as [_ Hv]. rewrite object_text, pretty_object by done. apply block_length.
    apply Forall2_fmap, Forall_Forall2_diag, Forall_forall. intros w Hw. rewrite Forall_forall in IH, Hv. unfold member_text, pretty_member.
    rewrite !length_app. cbn [length]. specialize (IH w Hw (2 + n)%nat (proj2 (Hv w Hw))). lia.
Qed.

Lemma line_good n : good_text (line n).
Proof. apply good_text_small. constructor; [done|]. induction n; constructor; done. Qed.
Lemma block_good o c n l : o < 55296 -> c < 55296 -> Forall good_text l -> good_text (block o c n l).
Proof.
  assert (Hone : forall c, c < 55296 -> good_text [c]) by (intros; apply good_text_small; by repeat constructor).
  intros Ho Hc Hl. unfold block. destruct l as [|t l]; [apply good_text_small; by repeat constructor|].
  apply (good_text_app [o]); [by apply Hone|]. apply good_text_app; [apply line_good|].
  apply good_text_app; [|apply good_text_app; [apply line_good|by apply Hone]].
  apply good_text_join; [|done]. apply (good_text_app [44]); [by apply Hone|apply line_good].
Qed.
Lemma pretty_good n v : json_clean v -> good_text (pretty_text n v).
Proof.
  revert n. induction v as [| |b|z|s|l IH|l IH] using jsval_nested_ind; intros n Hv; try by apply (clean_text_good _ Hv).
  - apply json_clean_arr in Hv. rewrite pretty_array by done. apply block_good; [done|done|]. apply Forall_map, Forall_forall. intros w Hw.
    rewrite Forall_forall in IH, Hv. cbn. auto.
  - apply json_clean_obj in Hv as [_ Hv]. rewrite pretty_object by done. apply block_good; [done|done|]. apply Forall_map, Forall_forall. intros w Hw.
    rewrite Forall_forall in IH, Hv. unfold pretty_member. apply good_text_app; [by apply json_quote_good, Hv|].
    apply (good_text_app [58; 32]); [apply good_text_small; by repeat constructor|]. by apply IH, Hv.
Qed.

(** A value written with indentation and a final new line is read back. *)
Lemma json_parse_pretty v : json_clean v -> json_parse (utf8_decode (utf8_encode (pretty_text 0 v ++ [10]))) = Ok v.
Proof.
  intros Hv. assert (Hg : good_text (pretty_text 0 v ++ [10])).
  { apply good_text_app; [by apply pretty_good|]. apply good_text_small. by repeat constructor. }
  rewrite utf8_decode_encode by apply Hg. unfold json_parse.
  rewrite (pretty_value v Hv O); [done| |by right; right; right].
  pose proof (jsize_text v Hv). pose proof (pretty_length O v Hv). rewrite length_app. lia.
Qed.
End reading.
