(* ===== verification/Transitions.v ===== *)
(** Transitions: packages/state-machine/transitions.ts, the two transition
    tables with the functions that enforce them, as a step relation. *)
From S2P Require Import Prelude.
From stdpp Require Import relations.
#[local] Open Scope string_scope.
#[local] Open Scope list_scope.

Inductive TransactionState : Type :=
| received | confirmation_pending | confirmed | declined | expired
| reversal_requested | reversed | clearing_received | settled | exception.

Inductive ProvisioningState : Type :=
| requested | risk_scored | trusted_device_challenge | approved
| token_active_capped | token_active_full | p_declined | p_expired.

#[global] Instance TransactionState_eq_dec : EqDecision TransactionState.
Proof. solve_decision. Defined.
#[global] Instance ProvisioningState_eq_dec : EqDecision ProvisioningState.
Proof. solve_decision. Defined.

Definition transaction_state_name (s : TransactionState) : string :=
  match s with
  | received => "received" | confirmation_pending => "confirmation_pending"
  | confirmed => "confirmed" | declined => "declined" | expired => "expired"
  | reversal_requested => "reversal_requested" | reversed => "reversed"
  | clearing_received => "clearing_received" | settled => "settled"
  | exception => "exception"
  end.

Definition provisioning_state_name (s : ProvisioningState) : string :=
  match s with
  | requested => "requested" | risk_scored => "risk_scored"
  | trusted_device_challenge => "trusted_device_challenge" | approved => "approved"
  | token_active_capped => "token_active_capped"
  | token_active_full => "token_active_full"
  | p_declined => "declined" | p_expired => "expired"
  end.

Definition TRANSACTION_TRANSITIONS (s : TransactionState) : list TransactionState :=
  match s with
  | received => [confirmation_pending; declined]
  | confirmation_pending => [confirmed; expired; declined]
  | confirmed => [clearing_received; reversal_requested]
  | declined => []
  | expired => [reversal_requested; clearing_received]
  | reversal_requested => [reversed; clearing_received; exception]
  | reversed => [clearing_received]
  | clearing_received => [settled; exception]
  | settled => []
  | exception => []
  end.

Definition PROVISIONING_TRANSITIONS (s : ProvisioningState) : list ProvisioningState :=
  match s with
  | requested => [risk_scored; p_declined]
  | risk_scored => [trusted_device_challenge; approved; p_declined]
  | trusted_device_challenge => [approved; p_declined; p_expired]
  | approved => [token_active_capped; token_active_full]
  | token_active_capped => [token_active_full; p_declined]
  | token_active_full => []
  | p_declined => []
  | p_expired => []
  end.

(** [array.includes(x)] *)
Definition includes {A} `{EqDecision A} (l : list A) (x : A) : bool := bool_decide (x ∈ l).

Definition transitionTransaction (current next : TransactionState)
    : result TransactionState :=
  if negb (includes (TRANSACTION_TRANSITIONS current) next)
  then Throw ("invalid transaction transition: " +:+ transaction_state_name current
              +:+ " -> " +:+ transaction_state_name next)%js
  else Ok next.

Definition transitionProvisioning (current next : ProvisioningState)
    : result ProvisioningState :=
  if negb (includes (PROVISIONING_TRANSITIONS current) next)
  then Throw ("invalid provisioning transition: " +:+ provisioning_state_name current
              +:+ " -> " +:+ provisioning_state_name next)%js
  else Ok next.

(** ** The step relations the tables induce *)

Definition tx_step (a b : TransactionState) : Prop := transitionTransaction a b = Ok b.
Definition prov_step (a b : ProvisioningState) : Prop := transitionProvisioning a b = Ok b.

Lemma transitionTransaction_Ok a b c :
  transitionTransaction a b = Ok c <-> c = b /\ b ∈ TRANSACTION_TRANSITIONS a.
Proof.
  unfold transitionTransaction, includes. case_bool_decide; simpl.
  - split; [by intros [= <-]|by intros [-> _]].
  - split; [done|by intros [_ ?]].
Qed.

Lemma transitionProvisioning_Ok a b c :
  transitionProvisioning a b = Ok c <-> c = b /\ b ∈ PROVISIONING_TRANSITIONS a.
Proof.
  unfold transitionProvisioning, includes. case_bool_decide; simpl.
  - split; [by intros [= <-]|by intros [-> _]].
  - split; [done|by intros [_ ?]].
Qed.

(** A position in the lifecycle that every transition strictly advances. *)
Definition tx_rank (s : TransactionState) : nat :=
  match s with
  | received => 0 | confirmation_pending => 1 | confirmed => 2 | expired => 2
  | reversal_requested => 3 | reversed => 4 | clearing_received => 5
  | settled => 6 | exception => 6 | declined => 6
  end.

Definition prov_rank (s : ProvisioningState) : nat :=
  match s with
  | requested => 0 | risk_scored => 1 | trusted_device_challenge => 2
  | approved => 3 | token_active_capped => 4
  | token_active_full => 5 | p_declined => 5 | p_expired => 5
  end.

Lemma tx_step_rank a b : tx_step a b -> (tx_rank a < tx_rank b)%nat.
Proof.
  intros [_ H]%transitionTransaction_Ok. revert H.
  destruct a; simpl; rewrite ?elem_of_cons, ?elem_of_nil; intros H;
    repeat destruct H as [H|H]; subst; simpl; first [lia|done].
Qed.

Lemma prov_step_rank a b : prov_step a b -> (prov_rank a < prov_rank b)%nat.
Proof.
  intros [_ H]%transitionProvisioning_Ok. revert H.
  destruct a; simpl; rewrite ?elem_of_cons, ?elem_of_nil; intros H;
    repeat destruct H as [H|H]; subst; simpl; first [lia|done].
Qed.

(** Runs of the tables are strictly increasing in rank, hence finite. *)
Lemma tx_run_bounded n a b : nsteps tx_step n a b -> (n + tx_rank a <= tx_rank b)%nat.
Proof.
  induction 1 as [a|n a b c H _ IH]; [lia|]. apply tx_step_rank in H. lia.
Qed.

Lemma prov_run_bounded n a b : nsteps prov_step n a b -> (n + prov_rank a <= prov_rank b)%nat.
Proof.
  induction 1 as [a|n a b c H _ IH]; [lia|]. apply prov_step_rank in H. lia.
Qed.
