(* ===== verification/Protocol.v ===== *)
(** Protocol: packages/protocol/types.ts and packages/protocol/canonical.ts,
    the challenge binding, its validation and its canonical byte encoding. *)
From S2P Require Import Prelude JsString Host TestHost JsTime JsJson.
#[local] Open Scope string_scope.
#[local] Open Scope list_scope.
#[local] Open Scope Z_scope.
#[local] Open Scope js_scope.

Definition Currency : list jstr := [js "USD"; js "EUR"; js "GBP"; js "CAD"; js "AUD"].

Definition PROVISION_PAYMENT_TOKEN : jstr := "provision-payment-token".
Definition CONFIRM_TRANSACTION : jstr := "confirm-transaction".

(** The binding as the issuer holds it; the optional fields are those of a
    transaction challenge. *)
Record ChallengeBinding : Type := {
  protocolVersion : jstr;
  purpose : jstr;
  challengeId : jstr;
  subjectId : jstr;
  accountId : jstr;
  paymentTokenId : jstr;
  trustedDeviceId : jstr;
  transactionId : option jstr;
  merchantId : option jstr;
  amountMinor : option Z;
  currency : option jstr;
  issuedAt : jstr;
  expiresAt : jstr;
  audience : jstr;
}.

Record SignedApproval : Type := {
  ap_binding : ChallengeBinding;
  ap_keyId : jstr;
  ap_algorithm : jstr;
  ap_signature : jstr;
}.

Inductive ChallengeStatus : Type := c_created | c_confirmed | c_expired | c_cancelled.

Record ChallengeRecord : Type := {
  rec_binding : ChallengeBinding;
  status : ChallengeStatus;
  consumedAt : option jstr;
}.

#[global] Instance ChallengeBinding_eq_dec : EqDecision ChallengeBinding.
Proof. solve_decision. Defined.
#[global] Instance ChallengeStatus_eq_dec : EqDecision ChallengeStatus.
Proof. solve_decision. Defined.
#[global] Instance ChallengeRecord_eq_dec : EqDecision ChallengeRecord.
Proof. solve_decision. Defined.

(** The run-time object of a binding. *)
Definition opt_str (o : option jstr) : jsval := match o with Some s => JStr s | None => JUndefined end.
Definition opt_int (o : option Z) : jsval := match o with Some z => JNum (NInt z) | None => JUndefined end.

Definition binding_props (b : ChallengeBinding) : list (jstr * jsval) :=
  [ (js "protocolVersion", JStr (protocolVersion b));
    (js "purpose", JStr (purpose b));
    (js "challengeId", JStr (challengeId b));
    (js "subjectId", JStr (subjectId b));
    (js "accountId", JStr (accountId b));
    (js "paymentTokenId", JStr (paymentTokenId b));
    (js "trustedDeviceId", JStr (trustedDeviceId b));
    (js "transactionId", opt_str (transactionId b));
    (js "merchantId", opt_str (merchantId b));
    (js "amountMinor", opt_int (amountMinor b));
    (js "currency", opt_str (currency b));
    (js "issuedAt", JStr (issuedAt b));
    (js "expiresAt", JStr (expiresAt b));
    (js "audience", JStr (audience b)) ].

Definition binding_value (b : ChallengeBinding) : jsval := JObj (binding_props b).

Definition ORDER : list jstr :=
  [ js "protocolVersion"; js "purpose"; js "challengeId"; js "subjectId"; js "accountId";
    js "paymentTokenId"; js "trustedDeviceId"; js "transactionId"; js "merchantId";
    js "amountMinor"; js "currency"; js "issuedAt"; js "expiresAt"; js "audience" ].

Definition COMMON_REQUIRED : list jstr :=
  [ js "protocolVersion"; js "purpose"; js "challengeId"; js "subjectId"; js "accountId";
    js "paymentTokenId"; js "trustedDeviceId"; js "issuedAt"; js "expiresAt";
    js "audience" ].

(** [Array.prototype.sort] on strings: by code units. *)
Fixpoint code_unit_leb (a b : jstr) : bool :=
  match a, b with
  | [], _ => true
  | _ :: _, [] => false
  | x :: a, y :: b => if (x <? y)%N then true else if (y <? x)%N then false
                      else code_unit_leb a b
  end.
Fixpoint insert_sorted (x : jstr) (l : list jstr) : list jstr :=
  match l with
  | [] => [x]
  | y :: l => if code_unit_leb x y then x :: y :: l else y :: insert_sorted x l
  end.
Definition sort_strings (l : list jstr) : list jstr := foldr insert_sorted [] l.

Section protocol.
Context `{Host}.

(** A present, non-empty string without unpaired surrogates. *)
Definition bad_text (v : jsval) : bool :=
  match v with
  | JStr s => (length s =? 0)%nat || containsUnpairedSurrogate s
  | _ => true
  end.

(** The checks made on one of the two timestamps. *)
Definition bad_timestamp (v : jsval) : bool :=
  match v with
  | JStr s =>
      negb (canonical_timestamp s) || (take 5 s =s? "0000-") ||
      match date_parse s with
      | None => true
      | Some t => negb (iso_string t =s? s)
      end
  | _ => true
  end.

Definition parsed_time (v : jsval) : option Z :=
  match v with JStr s => date_parse s | _ => None end.

Definition validateBinding (binding : jsval) : result unit :=
  match binding with
  | JObj props =>
      let unknown := List.filter (fun k => negb (existsb (jeqb k) ORDER)) props.*1 in
      let get k := prop k props in
      throw_if (negb (length unknown =? 0)%nat)
        ("unknown challenge field: " +:+ join "," (sort_strings unknown)) ≫= fun _ =>
      for_each COMMON_REQUIRED (fun key =>
        throw_if (bad_text (get key)) ("invalid challenge field: " +:+ key)) ≫= fun _ =>
      throw_if (match get (js "protocolVersion") with
                | JStr s => negb (s =s? "airlock.v1") | _ => true end)
        "unsupported protocol version" ≫= fun _ =>
      throw_if (match get (js "audience") with
                | JStr s => negb (s =s? "airlock-issuer") | _ => true end)
        "invalid challenge audience" ≫= fun _ =>
      throw_if (bad_timestamp (get (js "issuedAt"))) "invalid issuedAt" ≫= fun _ =>
      throw_if (bad_timestamp (get (js "expiresAt"))) "invalid expiresAt" ≫= fun _ =>
      throw_if (num_le (parsed_time (get (js "expiresAt")))
                       (parsed_time (get (js "issuedAt"))))
        "challenge expiry must follow issuance" ≫= fun _ =>
      match get (js "purpose") with
      | JStr p =>
          if p =s? CONFIRM_TRANSACTION then
            for_each [js "transactionId"; js "merchantId"; js "currency"] (fun key =>
              throw_if (bad_text (get key)) ("transaction challenge requires " +:+ key)) ≫= fun _ =>
            throw_if (match get (js "amountMinor") with
                      | JNum n => match safe_between n 1 MAX_SAFE_INTEGER with
                                  | Some _ => false | None => true end
                      | _ => true end)
              "transaction challenge requires a positive safe-integer amount" ≫= fun _ =>
            throw_if (match get (js "currency") with
                      | JStr c => negb (existsb (jeqb c) Currency) | _ => true end)
              "unsupported transaction currency"
          else if p =s? PROVISION_PAYMENT_TOKEN then
            throw_if (existsb (fun key => negb (is_undefined (get key)))
                [js "transactionId"; js "merchantId"; js "amountMinor"; js "currency"])
              "provisioning challenge contains transaction-only fields"
          else Throw "unsupported challenge purpose"
      | _ => Throw "unsupported challenge purpose"
      end
  | _ => Throw "challenge binding must be an object"
  end.

(** The fields present, in protocol order. *)
Definition present_prop (props : list (jstr * jsval)) (key : jstr) : option (jstr * jsval) :=
  let value := prop key props in
  if is_undefined value then None else Some (key, value).

Definition ordered_props (props : list (jstr * jsval)) : list (jstr * jsval) :=
  omap (present_prop props) ORDER.

Definition canonicalizeBinding (binding : jsval) : result (list N) :=
  validateBinding binding ≫= fun _ =>
  match binding with
  | JObj props =>
      Ok (utf8_encode (default (js "undefined") (json_stringify (JObj (ordered_props props)))))
  | _ => Throw "challenge binding must be an object"
  end.
End protocol.

(** ** What a valid binding is *)

Definition calendar_year (t : Z) : Z := (civil_from_days (t / 86400000)).1.1.

(** A canonical timestamp: the ISO text of a time in years 1 to 9999. *)
Definition is_timestamp (s : jstr) (t : Z) : Prop :=
  s = iso_string t /\ 1 <= calendar_year t <= 9999 /\ Z.abs t <= MAX_TIME.

Definition text_field (props : list (jstr * jsval)) (key : jstr) : Prop :=
  exists s, prop key props = JStr s /\ s <> [] /\ containsUnpairedSurrogate s = false.

(** The protocol's rules, field by field. *)
Record valid_props (props : list (jstr * jsval)) : Prop := {
  vp_known : forall k, k ∈ props.*1 -> k ∈ ORDER;
  vp_required : Forall (text_field props) COMMON_REQUIRED;
  vp_version : prop (js "protocolVersion") props = JStr "airlock.v1";
  vp_audience : prop (js "audience") props = JStr "airlock-issuer";
  vp_times : exists si ti se te,
    prop (js "issuedAt") props = JStr si /\ is_timestamp si ti /\
    prop (js "expiresAt") props = JStr se /\ is_timestamp se te /\ ti < te;
  vp_purpose :
    (prop (js "purpose") props = JStr CONFIRM_TRANSACTION /\
     Forall (text_field props) [js "transactionId"; js "merchantId"; js "currency"] /\
     (exists z, prop (js "amountMinor") props = JNum (NInt z) /\ 1 <= z <= MAX_SAFE_INTEGER) /\
     (exists c, prop (js "currency") props = JStr c /\ c ∈ Currency)) \/
    (prop (js "purpose") props = JStr PROVISION_PAYMENT_TOKEN /\
     Forall (fun k => prop k props = JUndefined)
       [js "transactionId"; js "merchantId"; js "amountMinor"; js "currency"]);
}.

Lemma jeqb_refl a : jeqb a a = true.
Proof. by apply jeqb_true. Qed.

Lemma existsb_jeqb k l : existsb (jeqb k) l = true <-> k ∈ l.
Proof.
  rewrite existsb_exists. split.
  - intros (x & Hx & ->%jeqb_true). by apply list_elem_of_In.
  - intros Hk. exists k. split; [by apply list_elem_of_In|apply jeqb_refl].
Qed.

Section validation.
Context `{Host}.
Implicit Types (props : list (jstr * jsval)).

Lemma bad_text_false v :
  bad_text v = false <->
  exists s, v = JStr s /\ s <> [] /\ containsUnpairedSurrogate s = false.
Proof.
  destruct v; simpl; try (split; [done|by intros (? & ? & _)]).
  rewrite orb_false_iff, Nat.eqb_neq. split.
  - intros [Hl Hs]. exists s. repeat split; [|done]. by intros ->.
  - intros (? & [= <-] & Hn & Hs). split; [|done]. by destruct s.
Qed.

Lemma date_parse_canonical_bounded s t :
  canonical_timestamp s = true -> date_parse s = Some t -> Z.abs t <= MAX_TIME.
Proof.
  unfold date_parse. intros ->. unfold iso_time. cbv zeta.
  case_match; [|done]. unfold new_date. case_match eqn:E; [|done].
  intros [= <-]. by apply Z.leb_le.
Qed.

Lemma iso_string_year t : exists r,
  iso_string t = iso_year (calendar_year t) ++ 45%N :: r /\
  (canonical_timestamp (iso_string t) = true -> 0 <= calendar_year t <= 9999).
Proof.
  unfold calendar_year. destruct (civil_from_days _) as [[y m] d] eqn:E.
  rewrite (iso_string_tail _ _ _ _ E). unfold iso_tail_string. eexists. split; [done|].
  cbn [fst]. unfold iso_year. destruct (_ && _) eqn:Ey.
  { by rewrite andb_true_iff, !Z.leb_le in Ey. }
  rewrite <-app_comm_cons, expanded_not_canonical; [done|]. by case_match.
Qed.

Lemma bad_timestamp_false v :
  bad_timestamp v = false <-> exists s t, v = JStr s /\ is_timestamp s t.
Proof.
  destruct v; simpl; try (split; [done|by intros (? & ? & ? & _)]).
  rewrite !orb_false_iff, negb_false_iff, jeqb_false. split.
  - intros [[Hc H0] Hp]. destruct (date_parse s) as [t|] eqn:Et; [|done].
    apply negb_false_iff, jeqb_true in Hp. subst s. exists (iso_string t), t.
    split; [done|]. split; [done|].
    split; [|by eapply date_parse_canonical_bounded].
    destruct (iso_string_year t) as (r & Er & Hy). specialize (Hy Hc).
    assert (calendar_year t <> 0); [|lia]. intros E0. rewrite E0 in Er.
    apply H0. rewrite Er. done.
  - intros (? & t & [= ->] & -> & Hy & Ht).
    rewrite date_parse_iso_string, jeqb_refl by done.
    destruct (civil_from_days (t / 86400000)) as [[y m] d] eqn:E.
    unfold calendar_year in Hy. rewrite E in Hy. cbn [fst] in Hy.
    rewrite (iso_string_canonical _ _ _ _ E) by lia. repeat split.
    destruct (iso_string_year t) as (r & Er & _). rewrite Er.
    unfold calendar_year. rewrite E. cbn [fst]. unfold iso_year.
    rewrite (proj2 (Z.leb_le 0 y)), (proj2 (Z.leb_le y 9999)) by lia. cbn [andb].
    rewrite firstn_app, digits_length, take_ge by (rewrite digits_length; lia).
    intros E0%(f_equal (take 4)). rewrite take_app_length' in E0 by (by rewrite digits_length).
    apply (f_equal number) in E0. rewrite number_digits in E0 by (simpl; lia).
    cbv in E0. lia.
Qed.

Lemma throw_if_text key props msg :
  throw_if (bad_text (prop key props)) msg = Ok tt <-> text_field props key.
Proof. by rewrite throw_if_Ok, bad_text_false. Qed.

(** A literal comparison on a field. *)
Lemma field_is v lit :
  (match v with JStr s => negb (s =s? lit) | _ => true end) = false <-> v = JStr lit.
Proof.
  destruct v; try (split; [done|by intros [=]]).
  rewrite negb_false_iff, jeqb_true. split; [by intros ->|by intros [= ->]].
Qed.

Lemma unknown_none props :
  negb (length (List.filter (fun k => negb (existsb (jeqb k) ORDER)) props.*1) =? 0)%nat
    = false <-> (forall k, k ∈ props.*1 -> k ∈ ORDER).
Proof.
  rewrite negb_false_iff, Nat.eqb_eq, length_zero_iff_nil. split.
  - intros E k Hk. apply existsb_jeqb. apply not_false_is_true. intros Hf.
    assert (Hin : In k []); [|done]. rewrite <-E. apply filter_In.
    split; [by apply list_elem_of_In|by rewrite Hf].
  - intros Hall. destruct (List.filter _ _) as [|k l] eqn:E; [done|].
    assert (Hin : In k (k :: l)) by apply in_eq. rewrite <-E in Hin.
    apply filter_In in Hin as [Hk Hn]. apply list_elem_of_In, Hall, existsb_jeqb in Hk.
    by rewrite Hk in Hn.
Qed.
End validation.

Section canonical.
Context `{Host}.
Implicit Types (props : list (jstr * jsval)).

Lemma validateBinding_sound props : validateBinding (JObj props) = Ok tt -> valid_props props.
Proof.
  unfold validateBinding. cbv zeta.
  rewrite throw_if_bind_Ok, unknown_none. intros [Hknown E]. revert E.
  rewrite for_each_bind_Ok. intros [Hreq E]. revert E.
  rewrite throw_if_bind_Ok, field_is. intros [Hver E]. revert E.
  rewrite throw_if_bind_Ok, field_is. intros [Haud E]. revert E.
  rewrite throw_if_bind_Ok, bad_timestamp_false. intros [(si & ti & Ei & Hti) E]. revert E.
  rewrite throw_if_bind_Ok, bad_timestamp_false. intros [(se & te & Ee & Hte) E]. revert E.
  rewrite throw_if_bind_Ok. intros [Hlt E]. split; try done.
  - eapply Forall_impl; [exact Hreq|]. intros k. apply throw_if_text.
  - exists si, ti, se, te. do 4 (split; [done|]).
    rewrite Ei, Ee in Hlt. cbn [parsed_time] in Hlt.
    destruct Hti as (-> & _ & Hi), Hte as (-> & _ & He).
    rewrite !date_parse_iso_string in Hlt by done. cbn in Hlt.
    by apply Z.leb_gt in Hlt.
  - clear -E. revert E. destruct (prop (js "purpose") props) as [| | | |p| |]; try done.
    intros E.
    destruct (jeqb p CONFIRM_TRANSACTION) eqn:E1.
    + apply jeqb_true in E1 as ->. left. split; [done|]. revert E.
      rewrite for_each_bind_Ok. intros [Ht E]. revert E.
      rewrite throw_if_bind_Ok, throw_if_Ok. intros [Ha Hc]. split_and!.
      * eapply Forall_impl; [exact Ht|]. intros k. apply throw_if_text.
      * clear Hc. revert Ha. destruct (prop (js "amountMinor") props) as [| | |n| | |]; try done. intros Ha.
        destruct (safe_between n 1 MAX_SAFE_INTEGER) as [z|] eqn:Ez; [|done].
        apply safe_between_Some in Ez as (-> & _ & Hz). by exists z.
      * revert Hc. destruct (prop (js "currency") props) as [| | | |c| |]; try done. intros Hc.
        exists c. split; [done|].
        by apply existsb_jeqb, negb_false_iff.
    + destruct (jeqb p PROVISION_PAYMENT_TOKEN) eqn:E2; [|done].
      apply jeqb_true in E2 as ->. right. split; [done|]. revert E.
      rewrite throw_if_Ok. intros Hf%existsb_false_Forall.
      eapply Forall_impl; [exact Hf|]. intros k. simpl. by destruct (prop k props).
Qed.

Lemma validateBinding_complete props : valid_props props -> validateBinding (JObj props) = Ok tt.
Proof.
  intros [Hknown Hreq Hver Haud (si & ti & se & te & Ei & Hti & Ee & Hte & Hlt) Hp].
  unfold validateBinding. cbv zeta.
  rewrite throw_if_bind_Ok, unknown_none. split; [done|].
  rewrite for_each_bind_Ok. split.
  { eapply Forall_impl; [exact Hreq|]. intros k. apply throw_if_text. }
  rewrite throw_if_bind_Ok, field_is. split; [done|].
  rewrite throw_if_bind_Ok, field_is. split; [done|].
  rewrite throw_if_bind_Ok, bad_timestamp_false. split; [by exists si, ti|].
  rewrite throw_if_bind_Ok, bad_timestamp_false. split; [by exists se, te|].
  rewrite throw_if_bind_Ok. split.
  { rewrite Ei, Ee. destruct Hti as (-> & _ & Hi), Hte as (-> & _ & He).
    cbn [parsed_time]. rewrite !date_parse_iso_string by done. by apply Z.leb_gt. }
  destruct Hp as [(Ep & Ht & (z & Ez & Hz) & (c & Ec & Hc))|(Ep & Hu)]; rewrite Ep.
  - rewrite jeqb_refl, for_each_bind_Ok. split.
    { eapply Forall_impl; [exact Ht|]. intros k. apply throw_if_text. }
    rewrite throw_if_bind_Ok, throw_if_Ok, Ez, Ec. split.
    + rewrite (proj2 (safe_between_Some _ _ _ z)); [done|]. split; [done|].
      unfold MAX_SAFE_INTEGER in *. lia.
    + by apply negb_false_iff, existsb_jeqb.
  - rewrite (proj2 (jeqb_false _ _)), jeqb_refl, throw_if_Ok by done.
    apply existsb_false_Forall. eapply Forall_impl; [exact Hu|]. by intros k ->.
Qed.

(** The canonical text of a valid object is flat, so it can be read back. *)
Lemma ordered_props_flat props :
  valid_props props -> Forall flat_prop (ordered_props props).
Proof.
  intros Hv. apply Forall_forall. intros [k v] (key & Hk & E)%list_elem_of_omap.
  unfold present_prop in E. destruct (is_undefined (prop key props)) eqn:Eu; [done|].
  injection E as -> <-.
  split; cbn [fst snd].
  { apply no_surrogate_well_formed. revert k Hk Eu.
    change (forall k, k ∈ ORDER -> is_undefined (prop k props) = false ->
      Forall (fun c => (c < 55296)%N) k).
    intros k Hk _. assert (HO : Forall (Forall (fun c => (c < 55296)%N)) ORDER).
    { repeat constructor. }
    eapply Forall_forall in HO; done. }
  assert (Htext : text_field props k -> flat_value (prop k props)).
  { by intros (s & -> & _ & Hs). }
  destruct (decide (k ∈ COMMON_REQUIRED)) as [Hr|Hr].
  { apply Htext. eapply Forall_forall in Hr; [done|apply Hv]. }
  assert (Ho : k ∈ [js "transactionId"; js "merchantId"; js "amountMinor"; js "currency"]).
  { clear -Hk Hr. unfold ORDER, COMMON_REQUIRED in *. set_solver. }
  destruct (vp_purpose _ Hv) as [(_ & Ht & (z & Ez & Hz) & _)|(_ & Hu)].
  - destruct (decide (k = js "amountMinor")) as [->|Hne].
    { rewrite Ez. unfold MAX_SAFE_INTEGER in Hz. simpl. lia. }
    apply Htext. assert (Ho' : k ∈ [js "transactionId"; js "merchantId"; js "currency"]).
    { clear -Ho Hne. set_solver. }
    eapply Forall_forall in Ht; done.
  - eapply Forall_forall in Hu; [|exact Ho]. simpl in Hu. by rewrite Hu in Eu.
Qed.

Definition canonical_text props : jstr :=
  default (js "undefined") (json_stringify (JObj (ordered_props props))).

Lemma canonicalizeBinding_Ok props bs :
  canonicalizeBinding (JObj props) = Ok bs <->
  valid_props props /\ bs = utf8_encode (canonical_text props).
Proof.
  unfold canonicalizeBinding. rewrite result_bind_Ok. split.
  - intros ([] & Hv%validateBinding_sound & [= <-]). done.
  - intros [Hv ->]. exists tt. by rewrite validateBinding_complete.
Qed.

Lemma canonicalizeBinding_object v bs :
  canonicalizeBinding v = Ok bs -> exists props, v = JObj props.
Proof. destruct v; try done. intros _. by eexists. Qed.
End canonical.

(** ** The canonical encoding binds every field *)

Lemma prop_cons k v key props :
  prop key ((k, v) :: props) = if jeqb k key then v else prop key props.
Proof. unfold prop. cbn. by destruct (jeqb k key). Qed.

(** Reading the ordered properties gives the original fields back. *)
Lemma prop_omap_fields props ks key :
  NoDup ks ->
  prop key (omap (present_prop props) ks) =
  if bool_decide (key ∈ ks) then prop key props else JUndefined.
Proof.
  induction 1 as [|k ks Hk Hks IH]; [by rewrite bool_decide_false by apply not_elem_of_nil|].
  change (omap (present_prop props) (k :: ks)) with
    (match present_prop props k with
     | Some y => y :: omap (present_prop props) ks
     | None => omap (present_prop props) ks end).
  unfold present_prop at 1. destruct (decide (key = k)) as [->|Hne].
  - rewrite bool_decide_true by constructor.
    destruct (is_undefined _) eqn:E.
    + rewrite IH, bool_decide_false by done. by destruct (prop k props).
    + by rewrite prop_cons, jeqb_refl.
  - rewrite (bool_decide_ext (key ∈ k :: ks) (key ∈ ks)) by set_solver.
    destruct (is_undefined _); [done|].
    by rewrite prop_cons, (proj2 (jeqb_false k key)).
Qed.

Lemma ORDER_NoDup : NoDup ORDER.
Proof. refine (bool_decide_unpack _ _). by vm_compute. Qed.

Lemma prop_ordered props key :
  key ∈ ORDER -> prop key (ordered_props props) = prop key props.
Proof.
  intros Hk. unfold ordered_props. rewrite prop_omap_fields by apply ORDER_NoDup.
  by rewrite bool_decide_true.
Qed.

Lemma prop_unknown props key : key ∉ props.*1 -> prop key props = JUndefined.
Proof.
  induction props as [|[k v] props IH]; [done|]. cbn. intros Hk.
  rewrite prop_cons, (proj2 (jeqb_false k key)) by set_solver. apply IH. set_solver.
Qed.

Lemma prop_in props key v : prop key props = v -> v <> JUndefined -> (key, v) ∈ props.
Proof.
  induction props as [|[k w] props IH]; [by intros <-|].
  rewrite prop_cons. destruct (jeqb k key) eqn:E.
  - apply jeqb_true in E as ->. intros <- _. constructor.
  - intros. constructor. by apply IH.
Qed.

Definition value_units (v : jsval) : Prop :=
  match v with JObj props => Forall units_prop props | _ => True end.

Lemma ordered_props_units props :
  Forall units_prop props -> Forall units_prop (ordered_props props).
Proof.
  intros Hu. apply Forall_forall. intros [k v] (key & _ & E)%list_elem_of_omap.
  unfold present_prop in E. destruct (is_undefined (prop key props)) eqn:Eu; [done|].
  injection E as -> <-. eapply Forall_forall; [exact Hu|].
  apply prop_in; [done|]. intros E. by rewrite E in Eu.
Qed.

Lemma text_fields_ext p1 p2 ks :
  (forall k, prop k p1 = prop k p2) -> Forall (text_field p1) ks -> Forall (text_field p2) ks.
Proof.
  intros Hp Hf. eapply Forall_impl; [exact Hf|]. intros k. unfold text_field.
  by rewrite Hp.
Qed.

Lemma valid_props_ext p1 p2 :
  (forall k, k ∈ p2.*1 -> k ∈ p1.*1) -> (forall k, prop k p1 = prop k p2) ->
  valid_props p1 -> valid_props p2.
Proof.
  intros Hk Hp [K R V A T P]. split; rewrite <-?Hp.
  - intros k Hin. by apply K, Hk.
  - by eapply text_fields_ext.
  - done.
  - done.
  - done.
  - destruct P as [(Ep & Ht & Ha & Hc)|(Ep & Hu)]; [left|right].
    + split; [done|]. split; [by eapply text_fields_ext|done].
    + split; [done|]. eapply Forall_impl; [exact Hu|]. intros k. simpl. by rewrite Hp.
Qed.

Section canonical_binding.
Context `{Host}.

Lemma canonical_text_inj p1 p2 :
  valid_props p1 -> valid_props p2 -> Forall units_prop p1 -> Forall units_prop p2 ->
  utf8_encode (canonical_text p1) = utf8_encode (canonical_text p2) ->
  ordered_props p1 = ordered_props p2.
Proof.
  intros V1 V2 U1 U2 E.
  pose proof (ordered_props_flat _ V1) as F1. pose proof (ordered_props_flat _ V2) as F2.
  apply ordered_props_units in U1, U2. unfold canonical_text in E.
  destruct (json_stringify (JObj (ordered_props p1))) as [t1|] eqn:E1; [|done].
  destruct (json_stringify (JObj (ordered_props p2))) as [t2|] eqn:E2; [|done].
  destruct (flat_object_good _ _ F1 U1 E1), (flat_object_good _ _ F2 U2 E2).
  apply utf8_encode_inj in E; [|done..]. simpl in E. subst t2.
  apply flat_object_inj; [done..|]. congruence.
Qed.

(** [validateBinding] accepts exactly the bindings the protocol describes. *)
Theorem validateBinding_iff (v : jsval) :
  validateBinding v = Ok tt <-> exists props, v = JObj props /\ valid_props props.
Proof.
  split.
  - destruct v; try done. intros Hv. eexists. by split; [|apply validateBinding_sound].
  - intros (props & -> & Hv). by apply validateBinding_complete.
Qed.

(** C5: two values with the same canonical bytes agree on every field. *)
Theorem canonicalizeBinding_injective (v1 v2 : jsval) (bs : list N)
    (U1 : value_units v1) (U2 : value_units v2)
    (E1 : canonicalizeBinding v1 = Ok bs) (E2 : canonicalizeBinding v2 = Ok bs) :
  exists p1 p2, v1 = JObj p1 /\ v2 = JObj p2 /\ forall key, prop key p1 = prop key p2.
Proof.
  destruct (canonicalizeBinding_object _ _ E1) as [p1 ->].
  destruct (canonicalizeBinding_object _ _ E2) as [p2 ->].
  apply canonicalizeBinding_Ok in E1 as [V1 ->], E2 as [V2 E].
  exists p1, p2. do 2 (split; [done|]). intros key.
  apply canonical_text_inj in E; [|done..].
  destruct (decide (key ∈ ORDER)) as [Hk|Hk].
  - by rewrite <-(prop_ordered p1), E, prop_ordered.
  - rewrite !prop_unknown; [done|..]; intros Hin; apply Hk; by apply vp_known in Hin.
Qed.

(** The issuer's own records are determined by their canonical bytes. *)
Lemma binding_canonical_inj (b1 b2 : ChallengeBinding) bs :
  value_units (binding_value b1) -> value_units (binding_value b2) ->
  canonicalizeBinding (binding_value b1) = Ok bs ->
  canonicalizeBinding (binding_value b2) = Ok bs -> b1 = b2.
Proof.
  intros U1 U2 E1 E2.
  apply canonicalizeBinding_Ok in E1 as [V1 ->], E2 as [V2 E].
  apply canonical_text_inj in E; [|done..].
  assert (Hp : forall key, key ∈ ORDER ->
    prop key (binding_props b1) = prop key (binding_props b2)).
  { intros key Hk. by rewrite <-(prop_ordered (binding_props b1)), E, prop_ordered. }
  destruct b1, b2.
  let rec go keys :=
    lazymatch keys with
    | ?key :: ?keys =>
        let Ek := fresh "Ek" in
        pose proof (Hp key (proj1 (existsb_jeqb key ORDER) eq_refl)) as Ek; 
        vm_compute in Ek; go keys
    | _ => idtac
    end in
  let keys := eval unfold ORDER in ORDER in go keys.
  clear -Ek Ek0 Ek1 Ek2 Ek3 Ek4 Ek5 Ek6 Ek7 Ek8 Ek9 Ek10 Ek11 Ek12.
  repeat case_match; by simplify_eq.
Qed.

(** The encoding depends on the field values alone. *)
Theorem canonicalizeBinding_order_independent (p1 p2 : list (jstr * jsval))
    (Hkeys : forall k, k ∈ p1.*1 <-> k ∈ p2.*1)
    (Hprops : forall k, prop k p1 = prop k p2) (bs : list N) :
  canonicalizeBinding (JObj p1) = Ok bs <-> canonicalizeBinding (JObj p2) = Ok bs.
Proof.
  assert (Hval : valid_props p1 <-> valid_props p2).
  { split; apply valid_props_ext; try done; intros k; apply Hkeys. }
  assert (Hord : ordered_props p1 = ordered_props p2).
  { apply list_omap_ext, Forall_Forall2_diag, Forall_forall. intros k _. unfold present_prop. by rewrite Hprops. }
  rewrite !canonicalizeBinding_Ok, Hval. unfold canonical_text. by rewrite Hord.
Qed.
End canonical_binding.

(** ** Instances *)

Definition units_ok (s : jstr) : bool := forallb (fun c => (c <? 65536)%N) s.
Definition binding_units (b : ChallengeBinding) : bool :=
  forallb (fun p => units_ok p.1 && match p.2 with JStr s => units_ok s | _ => true end)
    (binding_props b).

Lemma units_ok_code_units s : units_ok s = true -> code_units s.
Proof.
  unfold units_ok. rewrite forallb_Forall. intros Hs. eapply Forall_impl; [exact Hs|].
  intros c. apply N.ltb_lt.
Qed.

Lemma binding_units_value b : binding_units b = true -> value_units (binding_value b).
Proof.
  unfold binding_units. rewrite forallb_Forall. intros Hb. eapply Forall_impl; [exact Hb|].
  intros [k v]. cbn [fst snd]. rewrite andb_true_iff. intros [Hk Hv].
  split; [by apply units_ok_code_units|]. cbn [snd].
  destruct v; try done. by apply units_ok_code_units.
Qed.

(** A transaction challenge issued at noon on 1 January 2026. *)
Definition sample_binding : ChallengeBinding := {|
  protocolVersion := "airlock.v1"; purpose := CONFIRM_TRANSACTION; challengeId := "challenge-1";
  subjectId := "subject-1"; accountId := "account-1"; paymentTokenId := "token-1";
  trustedDeviceId := "device-1"; transactionId := Some (js "tx-1");
  merchantId := Some (js "merchant-1"); amountMinor := Some 500; currency := Some (js "USD");
  issuedAt := iso_string noon; expiresAt := iso_string (noon + 30000);
  audience := "airlock-issuer" |}.

Definition sample_props : list (jstr * jsval) := binding_props sample_binding.

Definition canonical_bytes (v : jsval) : list N :=
  match canonicalizeBinding (H := test_host) v with Ok bs => bs | Throw _ => [] end.

Lemma prop_app k l1 l2 :
  prop k (l1 ++ l2) = if bool_decide (k ∈ l1.*1) then prop k l1 else prop k l2.
Proof.
  induction l1 as [|[k' v] l1 IH]; [done|]. cbn [app]. rewrite !prop_cons, IH.
  destruct (jeqb k' k) eqn:E.
  - apply jeqb_true in E as ->. rewrite bool_decide_true; [done|constructor].
  - apply jeqb_false in E. change ((k', v) :: l1).*1 with (k' :: l1.*1).
    repeat case_bool_decide; try done; set_solver.
Qed.

Lemma rev_units l : value_units (JObj l) -> value_units (JObj (rev l)).
Proof. cbn. apply Forall_rev. Qed.

Lemma canonicalizeBinding_injective_witness :
  exists p1 p2, binding_value sample_binding = JObj p1 /\ JObj (rev sample_props) = JObj p2 /\
    forall key, prop key p1 = prop key p2.
Proof.
  refine (canonicalizeBinding_injective (H := test_host) _ _
            (canonical_bytes (binding_value sample_binding)) _ _ _ _).
  - apply binding_units_value. by vm_compute.
  - apply rev_units, binding_units_value. by vm_compute.
  - by vm_compute.
  - by vm_compute.
Defined.

Lemma canonicalizeBinding_order_independent_witness :
  is_ok (canonicalizeBinding (H := test_host) (JObj (sample_props))) = true /\
  (canonicalizeBinding (H := test_host) (JObj sample_props) =
     Ok (canonical_bytes (JObj sample_props)) <->
   canonicalizeBinding (H := test_host) (JObj (sample_props ++ [(js "audience", JNull)])) =
     Ok (canonical_bytes (JObj sample_props))).
Proof.
  split; [by vm_compute|].
  refine (canonicalizeBinding_order_independent (H := test_host) sample_props
            (sample_props ++ [(js "audience", JNull)]) _ _ _).
  - intros k. rewrite fmap_app, elem_of_app. split; [by left|].
    intros [?|Hk]; [done|]. apply list_elem_of_singleton in Hk as ->.
    refine (bool_decide_unpack _ _). by vm_compute.
  - intros k. rewrite prop_app. case_bool_decide as Hk; [done|].
    rewrite prop_cons, (proj2 (jeqb_false _ k)); [by apply prop_unknown|].
    intros <-. apply Hk. refine (bool_decide_unpack _ _). by vm_compute.
Defined.
