(* ===== verification/DeviceKeys.v ===== *)
(** DeviceKeys: packages/crypto/deviceKeys.ts, the approval signature profile
    over the canonical binding. *)
From S2P Require Import Prelude JsString Host JsJson Protocol TestHost.
#[local] Open Scope string_scope.
#[local] Open Scope list_scope.
#[local] Open Scope js_scope.

Definition APPROVAL_ALGORITHM : jstr := "airlock.ecdsa-p256-sha256-der.v1".

Record DeviceKeyPair : Type := {
  dk_keyId : jstr;
  dk_algorithm : jstr;
  privateKeyPem : jstr;
  dk_publicKeyPem : jstr;
}.

Definition assertAlgorithm (algorithm : jstr) : result unit :=
  throw_if (negb (algorithm =s? APPROVAL_ALGORITHM)) "unsupported approval algorithm".

Definition assertP256Key (key : KeyObject) (kind : jstr) : result unit :=
  throw_if (negb (key_type key =s? kind) || negb (asymmetricKeyType key =s? "ec") ||
            negb (bool_decide (namedCurve key = Some (js "prime256v1"))))
    ("approval " +:+ kind +:+ " key does not match algorithm profile").

Section device_keys.
Context `{Host}.

(** [Buffer.from("airlock-signed-approval.v1\0" + algorithm + "\0", "utf8")]
    followed by the canonical binding. *)
Definition approvalPayload (binding : jsval) (algorithm : jstr) : result (list N) :=
  let domain := utf8_encode ("airlock-signed-approval.v1" +:+ [0%N] +:+ algorithm +:+ [0%N]) in
  canonicalizeBinding binding ≫= fun bytes => Ok (domain ++ bytes).

Definition validatePublicKeyProfile (publicKey algorithm : jstr) : result KeyObject :=
  assertAlgorithm algorithm ≫= fun _ =>
  createPublicKey publicKey ≫= fun key =>
  assertP256Key key "public" ≫= fun _ =>
  Ok key.

Definition signApproval (binding : ChallengeBinding) (keyId privateKey algorithm : jstr)
    : result SignedApproval :=
  assertAlgorithm algorithm ≫= fun _ =>
  createPrivateKey privateKey ≫= fun key =>
  assertP256Key key "private" ≫= fun _ =>
  approvalPayload (binding_value binding) algorithm ≫= fun payload =>
  Ok {| ap_binding := binding; ap_keyId := keyId; ap_algorithm := algorithm;
        ap_signature := base64urlEncode (ecdsaSign payload key) |}.

Definition verifyApproval (approval : SignedApproval)
    (publicKey expectedAlgorithm : jstr) : result bool :=
  assertAlgorithm expectedAlgorithm ≫= fun _ =>
  throw_if (negb (ap_algorithm approval =s? expectedAlgorithm))
    "approval algorithm mismatch" ≫= fun _ =>
  validatePublicKeyProfile publicKey expectedAlgorithm ≫= fun key =>
  approvalPayload (binding_value (ap_binding approval)) (ap_algorithm approval) ≫= fun payload =>
  Ok (ecdsaVerify payload key (base64urlDecode (ap_signature approval))).

Lemma validatePublicKeyProfile_Ok publicKey algorithm key :
  validatePublicKeyProfile publicKey algorithm = Ok key <->
  algorithm = APPROVAL_ALGORITHM /\ createPublicKey publicKey = Ok key /\
  assertP256Key key "public" = Ok tt.
Proof.
  unfold validatePublicKeyProfile, assertAlgorithm.
  rewrite throw_if_bind_Ok, negb_false_iff, jeqb_true, result_bind_Ok. split.
  - intros (-> & k & Ek & ([] & Ep & [= <-])%result_bind_Ok). done.
  - intros (-> & Ek & Ep). split; [done|]. exists key. split; [done|]. by rewrite Ep.
Qed.

(** The signed payload determines the canonical binding. *)
Lemma approvalPayload_inj v1 v2 algorithm payload :
  approvalPayload v1 algorithm = Ok payload -> approvalPayload v2 algorithm = Ok payload ->
  exists bs, canonicalizeBinding v1 = Ok bs /\ canonicalizeBinding v2 = Ok bs.
Proof.
  unfold approvalPayload. rewrite !result_bind_Ok.
  set (domain := utf8_encode _). clearbody domain.
  intros (b1 & E1 & [= <-]) (b2 & E2 & [= Eb%app_inv_head]). exists b1. by subst.
Qed.

(** An approval signed by a device key verifies under its public key. *)
Theorem signApproval_verifies `{!HostLaws _} (binding : ChallengeBinding)
    (keyId privateKey publicKey : jstr) (key : KeyObject) (approval : SignedApproval)
    (Hpriv : createPrivateKey privateKey = Ok key)
    (Hpub : validatePublicKeyProfile publicKey APPROVAL_ALGORITHM = Ok (publicHalf key))
    (Hsign : signApproval binding keyId privateKey APPROVAL_ALGORITHM = Ok approval) :
  ap_binding approval = binding /\ ap_keyId approval = keyId /\
  verifyApproval approval publicKey APPROVAL_ALGORITHM = Ok true.
Proof.
  unfold signApproval, assertAlgorithm in Hsign. rewrite jeqb_refl in Hsign.
  rewrite throw_if_bind_Ok, Hpriv in Hsign. destruct Hsign as [_ Hsign].
  cbn [mbind result_bind] in Hsign.
  apply result_bind_Ok in Hsign as ([] & _ & Hsign).
  apply result_bind_Ok in Hsign as (payload & Hpay & [= <-]).
  split; [done|]. split; [done|]. unfold verifyApproval, assertAlgorithm.
  cbn [ap_algorithm ap_binding ap_signature]. rewrite jeqb_refl, Hpub.
  cbn [throw_if negb mbind result_bind]. rewrite Hpay.
  cbn [mbind result_bind]. rewrite base64url_round_trip by apply ecdsaSign_bytes.
  by rewrite ecdsa_correct.
Qed.

(** Two approvals verified against the same signed payload name the same
    transaction fields. *)
Theorem approvalPayload_binds_fields (b1 b2 : ChallengeBinding) (algorithm : jstr)
    (payload : list N)
    (U1 : value_units (binding_value b1)) (U2 : value_units (binding_value b2))
    (E1 : approvalPayload (binding_value b1) algorithm = Ok payload)
    (E2 : approvalPayload (binding_value b2) algorithm = Ok payload) : b1 = b2.
Proof.
  destruct (approvalPayload_inj _ _ _ _ E1 E2) as (bs & C1 & C2).
  by apply (binding_canonical_inj b1 b2 bs).
Qed.
End device_keys.

(** ** Instances *)

(** Under the test host a key pair shares its PEM text. *)
Definition sample_pem : jstr := "device-key".
Definition sample_approval : SignedApproval :=
  {| ap_binding := sample_binding; ap_keyId := "key-1"; ap_algorithm := APPROVAL_ALGORITHM;
     ap_signature := match signApproval (H := test_host) sample_binding "key-1" sample_pem
                             APPROVAL_ALGORITHM with
                     | Ok a => ap_signature a | Throw _ => [] end |}.

Lemma signApproval_verifies_witness :
  verifyApproval (H := test_host) sample_approval sample_pem APPROVAL_ALGORITHM = Ok true.
Proof.
  apply (@signApproval_verifies test_host test_host_laws sample_binding (js "key-1") sample_pem
           sample_pem (test_key (utf8_encode sample_pem) "private") sample_approval);
    by vm_compute.
Defined.

Lemma approvalPayload_binds_fields_witness : sample_binding = ap_binding sample_approval.
Proof.
  apply (@approvalPayload_binds_fields test_host _ _ APPROVAL_ALGORITHM
    (match approvalPayload (H := test_host) (binding_value sample_binding) APPROVAL_ALGORITHM with
     | Ok p => p | Throw _ => [] end)).
  - apply binding_units_value. by vm_compute.
  - apply binding_units_value. by vm_compute.
  - by vm_compute.
  - by vm_compute.
Defined.
