(* ===== verification/ChallengeStore.v ===== *)
(** ChallengeStore: packages/state-machine/challengeStore.ts, the one-time
    challenge records, their consumption, and their snapshots. *)
From S2P Require Import Prelude JsString JsMap Host JsTime JsJson Protocol TestHost DeviceKeys.
From stdpp Require Import relations.
#[local] Open Scope string_scope.
#[local] Open Scope list_scope.
#[local] Open Scope Z_scope.
#[local] Open Scope js_scope.

Record CreateChallengeInput : Type := {
  in_purpose : jstr;
  in_subjectId : jstr;
  in_accountId : jstr;
  in_paymentTokenId : jstr;
  in_trustedDeviceId : jstr;
  in_transactionId : option jstr;
  in_merchantId : option jstr;
  in_amountMinor : option Z;
  in_currency : option jstr;
  in_ttlMs : jsnum;
}.

(** The private [#records] map. *)
Abbreviation store := (list (jstr * ChallengeRecord)).

Record ChallengeStoreSnapshot : Type := {
  ss_schemaVersion : Z;
  ss_records : list ChallengeRecord;
}.

Definition set_status (st : ChallengeStatus) (r : ChallengeRecord) : ChallengeRecord :=
  {| rec_binding := rec_binding r; status := st; consumedAt := consumedAt r |}.
Definition set_consumedAt (at_ : jstr) (r : ChallengeRecord) : ChallengeRecord :=
  {| rec_binding := rec_binding r; status := status r; consumedAt := Some at_ |}.

(** The falsy values of an optional string. *)
Definition falsy (o : option jstr) : bool :=
  match o with None | Some [] => true | _ => false end.

Section challenge_store.
Context `{Host}.

(** [new Date(now.getTime() + ms)] *)
Definition date_add (now : Date) (ms : Z) : Date :=
  match now with Some t => new_date (t + ms) | None => None end.

(** [challengeId] is the value [randomBytes(32).toString("base64url")]
    returns during the call. *)
Definition create (input : CreateChallengeInput) (challengeId : jstr) (now : Date)
    : St store ChallengeBinding :=
  match safe_between (in_ttlMs input) 1000 300000 with
  | None => lift (Throw "challenge ttl must be a safe integer between 1000 and 300000 ms")
  | Some ttlMs =>
      lift (toISOString now) ≫= fun issuedAt =>
      lift (toISOString (date_add now ttlMs)) ≫= fun expiresAt =>
      let binding := {|
        protocolVersion := "airlock.v1";
        purpose := in_purpose input;
        challengeId := challengeId;
        subjectId := in_subjectId input;
        accountId := in_accountId input;
        paymentTokenId := in_paymentTokenId input;
        trustedDeviceId := in_trustedDeviceId input;
        transactionId := in_transactionId input;
        merchantId := in_merchantId input;
        amountMinor := in_amountMinor input;
        currency := in_currency input;
        issuedAt := issuedAt;
        expiresAt := expiresAt;
        audience := "airlock-issuer" |} in
      smodify (map_set challengeId
        {| rec_binding := binding; status := c_created; consumedAt := None |}) ≫= fun _ =>
      mret binding
  end.

(** [record.status = st] on the record held under [id]. *)
Definition set_record_status (id : jstr) (st : ChallengeStatus) : St store unit :=
  smodify (map_update id (set_status st)).

(** [record.consumedAt = now.toISOString()] *)
Definition stamp_record (id : jstr) (now : Date) : St store unit :=
  lift (toISOString now) ≫= fun at_ => smodify (map_update id (set_consumedAt at_)).

Definition must_record (id : jstr) : St store ChallengeRecord :=
  sget ≫= fun s => lift (match map_get id s with
                         | Some r => Ok r
                         | None => Throw "unknown challenge"
                         end).

Definition consume (approval : SignedApproval) (expectedPublicKey : jstr) (now : Date)
    (expectedAlgorithm : jstr) : St store ChallengeRecord :=
  let id := challengeId (ap_binding approval) in
  must_record id ≫= fun record =>
  lift (throw_if (negb (bool_decide (status record = c_created)))
          "challenge already terminal") ≫= fun _ =>
  lift (canonicalizeBinding (binding_value (rec_binding record))) ≫= fun expectedBinding =>
  lift (canonicalizeBinding (binding_value (ap_binding approval))) ≫= fun submittedBinding =>
  lift (throw_if (negb (bool_decide (expectedBinding = submittedBinding)))
          "challenge binding mismatch") ≫= fun _ =>
  if num_le (date_parse (expiresAt (rec_binding record))) now then
    set_record_status id c_expired ≫= fun _ => lift (Throw "challenge expired")
  else
    lift (verifyApproval approval expectedPublicKey expectedAlgorithm) ≫= fun ok =>
    lift (throw_if (negb ok) "invalid device signature") ≫= fun _ =>
    set_record_status id c_confirmed ≫= fun _ =>
    stamp_record id now ≫= fun _ =>
    must_record id.

Definition cancel (id : jstr) (now : Date) : St store ChallengeRecord :=
  must_record id ≫= fun record =>
  lift (throw_if (negb (bool_decide (status record = c_created)))
          "challenge already terminal") ≫= fun _ =>
  lift (throw_if (num_lt now (date_parse (issuedAt (rec_binding record))))
          "challenge cannot be cancelled before issuance") ≫= fun _ =>
  set_record_status id c_cancelled ≫= fun _ =>
  stamp_record id now ≫= fun _ =>
  must_record id.

Definition get (id : jstr) (s : store) : option ChallengeRecord := map_get id s.

Definition snapshot (s : store) : ChallengeStoreSnapshot :=
  {| ss_schemaVersion := 1; ss_records := s.*2 |}.

(** The checks [restore] makes on one candidate before admitting it. *)
Definition restore_record (s : store) (candidate : ChallengeRecord) : result store :=
  let b := rec_binding candidate in
  throw_if (match date_parse (issuedAt b), date_parse (expiresAt b) with
            | Some i, Some e => e <=? i
            | _, _ => true
            end) "invalid challenge snapshot record" ≫= fun _ =>
  canonicalizeBinding (binding_value b) ≫= fun _ =>
  throw_if (map_has (challengeId b) s) "duplicate challenge in snapshot" ≫= fun _ =>
  throw_if ((bool_decide (status candidate = c_confirmed) ||
             bool_decide (status candidate = c_cancelled)) &&
            (falsy (consumedAt candidate) ||
             match date_parse (default [] (consumedAt candidate)) with
             | None => true | Some _ => false end))
    "terminal challenge missing consumption time" ≫= fun _ =>
  throw_if (negb (falsy (consumedAt candidate)) &&
            num_lt (date_parse (default [] (consumedAt candidate)))
                   (date_parse (issuedAt b)))
    "challenge consumed before issuance" ≫= fun _ =>
  throw_if (bool_decide (status candidate = c_created) &&
            bool_decide (is_Some (consumedAt candidate)))
    "created challenge has consumption time" ≫= fun _ =>
  Ok (map_set (challengeId b) candidate s).

Fixpoint restore_records (s : store) (l : list ChallengeRecord) : result store :=
  match l with
  | [] => Ok s
  | candidate :: l => restore_record s candidate ≫= fun s => restore_records s l
  end.

Definition restore (snap : ChallengeStoreSnapshot) : result store :=
  throw_if (negb (ss_schemaVersion snap =? 1)) "invalid challenge snapshot" ≫= fun _ =>
  restore_records [] (ss_records snap).
End challenge_store.

(** ** The outcomes of the operations *)

Section outcomes.
Context `{Host}.
Implicit Types (s : store) (r : ChallengeRecord).

(** The record as a successful or cancelled one-time use leaves it. *)
Definition finish (st : ChallengeStatus) (at_ : jstr) (r : ChallengeRecord) : ChallengeRecord :=
  {| rec_binding := rec_binding r; status := st; consumedAt := Some at_ |}.

Lemma must_record_run (id : jstr) s :
  must_record id s = (match map_get id s with
                      | Some r => Ok r
                      | None => Throw "unknown challenge"
                      end, s).
Proof. done. Qed.

(** The tail shared by [consume] and [cancel]: status first, time second. *)
Lemma finish_run (id : jstr) st (now : Date) s r :
  map_get id s = Some r ->
  (set_record_status id st ≫= fun _ => stamp_record id now ≫= fun _ => must_record id) s =
  match now with
  | Some t => (Ok (finish st (iso_string t) r), map_set id (finish st (iso_string t) r) s)
  | None => (Throw "Invalid time value", map_set id (set_status st r) s)
  end.
Proof.
  intros E. unfold set_record_status, stamp_record, must_record.
  cbv [mbind St_bind smodify lift sget]. rewrite (map_update_present _ _ _ _ E).
  destruct now as [t|]; cbn [toISOString]; [|done].
  rewrite (map_update_present _ _ _ _ (map_get_set_eq _ _ _)), map_set_set.
  by rewrite map_get_set_eq.
Qed.

(** What makes an approval acceptable for a record, time aside. *)
Definition approved_for (a : SignedApproval) (publicKey algorithm : jstr) r : Prop :=
  (exists bs, canonicalizeBinding (binding_value (rec_binding r)) = Ok bs /\
              canonicalizeBinding (binding_value (ap_binding a)) = Ok bs) /\
  verifyApproval a publicKey algorithm = Ok true.

Definition past_expiry r (now : Date) : bool :=
  num_le (date_parse (expiresAt (rec_binding r))) now.

(** The four ways a consumption ends. *)
Inductive consume_outcome a publicKey (now : Date) algorithm s
  : result ChallengeRecord * store -> Prop :=
| consume_refused msg :
    consume_outcome a publicKey now algorithm s (Throw msg, s)
| consume_late r :
    map_get (challengeId (ap_binding a)) s = Some r -> status r = c_created ->
    past_expiry r now = true ->
    consume_outcome a publicKey now algorithm s
      (Throw "challenge expired",
       map_set (challengeId (ap_binding a)) (set_status c_expired r) s)
| consume_untimed r :
    map_get (challengeId (ap_binding a)) s = Some r -> status r = c_created ->
    approved_for a publicKey algorithm r -> now = None ->
    consume_outcome a publicKey now algorithm s
      (Throw "Invalid time value",
       map_set (challengeId (ap_binding a)) (set_status c_confirmed r) s)
| consume_accepted r t :
    map_get (challengeId (ap_binding a)) s = Some r -> status r = c_created ->
    approved_for a publicKey algorithm r -> now = Some t -> past_expiry r now = false ->
    consume_outcome a publicKey now algorithm s
      (Ok (finish c_confirmed (iso_string t) r),
       map_set (challengeId (ap_binding a)) (finish c_confirmed (iso_string t) r) s).

Lemma consume_outcome_total a publicKey now algorithm s :
  consume_outcome a publicKey now algorithm s (consume a publicKey now algorithm s).
Proof.
  unfold consume. cbv zeta. cbv [mbind St_bind lift]. rewrite must_record_run.
  destruct (map_get (challengeId (ap_binding a)) s) as [r|] eqn:Er; [|constructor].
  unfold throw_if at 1. case_bool_decide as Est; [|constructor]. cbn [negb].
  destruct (canonicalizeBinding (binding_value (rec_binding r))) as [b1|] eqn:E1; [|constructor].
  destruct (canonicalizeBinding (binding_value (ap_binding a))) as [b2|] eqn:E2; [|constructor].
  unfold throw_if at 1. case_bool_decide as Eb; [|constructor]. cbn [negb]. subst b2.
  destruct (num_le _ _) eqn:El.
  { unfold set_record_status, smodify. rewrite (map_update_present _ _ _ _ Er).
    by apply consume_late. }
  destruct (verifyApproval _ _ _) as [[]|] eqn:Ev; [|constructor..].
  cbn [negb throw_if].
  assert (Ha : approved_for a publicKey algorithm r) by (split; [by exists b1|done]).
  pose proof (finish_run _ c_confirmed now s r Er) as F.
  cbv [mbind St_bind] in F. rewrite F.
  destruct now as [t|]; [by apply consume_accepted|by apply consume_untimed].
Qed.

Lemma consume_outcome_inv a publicKey now algorithm s res s' :
  consume a publicKey now algorithm s = (res, s') ->
  consume_outcome a publicKey now algorithm s (res, s').
Proof. intros <-. apply consume_outcome_total. Qed.

(** An approval that meets every condition is consumed. *)
Lemma consume_complete a publicKey t algorithm s r :
  map_get (challengeId (ap_binding a)) s = Some r -> status r = c_created ->
  approved_for a publicKey algorithm r -> past_expiry r (Some t) = false ->
  consume a publicKey (Some t) algorithm s =
  (Ok (finish c_confirmed (iso_string t) r),
   map_set (challengeId (ap_binding a)) (finish c_confirmed (iso_string t) r) s).
Proof.
  intros Er Est [(bs & E1 & E2) Ev] El. unfold consume. cbv zeta.
  cbv [mbind St_bind lift]. rewrite must_record_run, Er. unfold throw_if.
  rewrite (bool_decide_true _ Est). cbn [negb]. rewrite E1, E2.
  rewrite (bool_decide_true (bs = bs)) by done. cbn [negb].
  unfold past_expiry in El. rewrite El, Ev. cbn [negb].
  pose proof (finish_run _ c_confirmed (Some t) s r Er) as F.
  cbv [mbind St_bind] in F. by rewrite F.
Qed.

Definition before_issuance r (now : Date) : bool :=
  num_lt now (date_parse (issuedAt (rec_binding r))).

Inductive cancel_outcome (id : jstr) (now : Date) s
  : result ChallengeRecord * store -> Prop :=
| cancel_refused msg : cancel_outcome id now s (Throw msg, s)
| cancel_untimed r :
    map_get id s = Some r -> status r = c_created -> now = None ->
    cancel_outcome id now s
      (Throw "Invalid time value", map_set id (set_status c_cancelled r) s)
| cancel_done r t :
    map_get id s = Some r -> status r = c_created -> now = Some t ->
    before_issuance r now = false ->
    cancel_outcome id now s
      (Ok (finish c_cancelled (iso_string t) r),
       map_set id (finish c_cancelled (iso_string t) r) s).

(** [cancel] on a record that is still open at a valid time. *)
Lemma cancel_open id t s r :
  map_get id s = Some r -> status r = c_created -> before_issuance r (Some t) = false ->
  cancel id (Some t) s =
  (Ok (finish c_cancelled (iso_string t) r),
   map_set id (finish c_cancelled (iso_string t) r) s).
Proof.
  intros Er Est Eb. unfold cancel.
  cbv [mbind St_bind lift]. rewrite must_record_run, Er. unfold throw_if.
  rewrite (bool_decide_true _ Est). cbn [negb]. unfold before_issuance in Eb. rewrite Eb.
  pose proof (finish_run _ c_cancelled (Some t) s r Er) as F.
  cbv [mbind St_bind] in F. by rewrite F.
Qed.

Lemma cancel_outcome_total id now s : cancel_outcome id now s (cancel id now s).
Proof.
  unfold cancel. cbv [mbind St_bind lift]. rewrite must_record_run.
  destruct (map_get id s) as [r|] eqn:Er; [|constructor].
  unfold throw_if at 1. case_bool_decide as Est; [|constructor]. cbn [negb].
  unfold throw_if at 1. destruct (num_lt _ _) eqn:El; [constructor|].
  pose proof (finish_run _ c_cancelled now s r Er) as F.
  cbv [mbind St_bind] in F. rewrite F.
  destruct now as [t|]; [by apply cancel_done|by apply cancel_untimed].
Qed.

Lemma cancel_outcome_inv id now s res s' :
  cancel id now s = (res, s') -> cancel_outcome id now s (res, s').
Proof. intros <-. apply cancel_outcome_total. Qed.

(** [create] either refuses or adds one fresh, open record. *)
Definition created_record (b : ChallengeBinding) : ChallengeRecord :=
  {| rec_binding := b; status := c_created; consumedAt := None |}.

Inductive create_outcome (input : CreateChallengeInput) (id : jstr) (now : Date) s
  : result ChallengeBinding * store -> Prop :=
| create_refused msg : create_outcome input id now s (Throw msg, s)
| create_done b t ttl :
    now = Some t -> safe_between (in_ttlMs input) 1000 300000 = Some ttl ->
    challengeId b = id -> purpose b = in_purpose input ->
    protocolVersion b = "airlock.v1" -> audience b = "airlock-issuer" ->
    subjectId b = in_subjectId input -> accountId b = in_accountId input ->
    paymentTokenId b = in_paymentTokenId input ->
    trustedDeviceId b = in_trustedDeviceId input ->
    transactionId b = in_transactionId input -> merchantId b = in_merchantId input ->
    amountMinor b = in_amountMinor input -> currency b = in_currency input ->
    issuedAt b = iso_string t -> expiresAt b = iso_string (t + ttl) ->
    Z.abs (t + ttl) <= MAX_TIME ->
    create_outcome input id now s (Ok b, map_set id (created_record b) s).

Lemma create_outcome_total input id now s :
  create_outcome input id now s (create input id now s).
Proof.
  unfold create. destruct (safe_between _ _ _) as [ttl|] eqn:Et; [|constructor].
  destruct now as [t|]; [|constructor].
  cbv [mbind St_bind lift smodify]. cbn [toISOString date_add]. unfold new_date.
  destruct (Z.leb_spec (Z.abs (t + ttl)) MAX_TIME); [|constructor].
  by eapply create_done.
Qed.

Lemma create_outcome_inv input id now s res s' :
  create input id now s = (res, s') -> create_outcome input id now s (res, s').
Proof. intros <-. apply create_outcome_total. Qed.
End outcomes.

(** ** One-time use *)

Section one_time.
Context `{Host}.
Implicit Types (s : store) (r : ChallengeRecord).

(** A call on the store. *)
Inductive store_op : Type :=
| op_create (input : CreateChallengeInput) (id : jstr) (now : Date)
| op_consume (a : SignedApproval) (publicKey : jstr) (now : Date) (algorithm : jstr)
| op_cancel (id : jstr) (now : Date).

Definition apply_op (o : store_op) s : store :=
  match o with
  | op_create input id now => (create input id now s).2
  | op_consume a publicKey now algorithm => (consume a publicKey now algorithm s).2
  | op_cancel id now => (cancel id now s).2
  end.

(** 32 random bytes do not repeat an identifier in use. *)
Definition fresh_op (o : store_op) s : Prop :=
  match o with op_create _ id _ => map_get id s = None | _ => True end.

Inductive store_step : store -> store -> Prop :=
| store_call o s : fresh_op o s -> store_step s (apply_op o s).

(** What one call may do to the record held under [id]. *)
Definition record_next (old new : option ChallengeRecord) : Prop :=
  match old, new with
  | None, None => True
  | None, Some r => status r = c_created /\ consumedAt r = None
  | Some r, Some r' =>
      rec_binding r' = rec_binding r /\ (status r <> c_created -> r' = r)
  | Some _, None => False
  end.

Lemma record_next_refl o : record_next o o \/ o = None.
Proof. destruct o; [by left|by right]. Qed.

Lemma record_next_set id id' r r' s :
  map_get id' s = Some r -> status r = c_created -> rec_binding r' = rec_binding r ->
  record_next (map_get id s) (map_get id (map_set id' r' s)).
Proof.
  intros Er Est Eb. rewrite map_get_set. case_bool_decide; [subst; rewrite Er; by split|].
  destruct (record_next_refl (map_get id s)) as [?|E]; [done|by rewrite E].
Qed.

Lemma record_next_same id s : record_next (map_get id s) (map_get id s).
Proof. destruct (record_next_refl (map_get id s)) as [?|E]; [done|by rewrite E]. Qed.

Lemma store_step_record s s' id :
  store_step s s' -> record_next (map_get id s) (map_get id s').
Proof.
  intros [[input i now|a publicKey now algorithm|i now] s0 Hf]; cbn [apply_op].
  - destruct (create_outcome_total input i now s0); [apply record_next_same|].
    cbn [snd]. rewrite map_get_set. case_bool_decide; [subst id|apply record_next_same].
    cbn in Hf. by rewrite Hf.
  - destruct (consume_outcome_total a publicKey now algorithm s0);
      cbn [snd]; solve [apply record_next_same|by eapply record_next_set].
  - destruct (cancel_outcome_total i now s0);
      cbn [snd]; solve [apply record_next_same|by eapply record_next_set].
Qed.

Lemma store_steps_binding s s' id r :
  rtc store_step s s' -> map_get id s = Some r ->
  exists r', map_get id s' = Some r' /\ rec_binding r' = rec_binding r /\
             (status r <> c_created -> r' = r).
Proof.
  intros Hs. revert r. induction Hs as [s|s1 s2 s3 H12 _ IH]; intros r Er; [by exists r|].
  pose proof (store_step_record _ _ id H12) as Hn. rewrite Er in Hn.
  destruct (map_get id s2) as [r2|]; [|done]. destruct Hn as [Eb Ht].
  destruct (IH r2 eq_refl) as (r3 & E3 & Eb3 & Ht3). exists r3. split; [done|].
  split; [congruence|]. intros Hc. rewrite <-(Ht Hc). apply Ht3. by rewrite (Ht Hc).
Qed.

(** A settled challenge refuses every later use. *)
Lemma consume_terminal a publicKey now algorithm s r :
  map_get (challengeId (ap_binding a)) s = Some r -> status r <> c_created ->
  consume a publicKey now algorithm s = (Throw "challenge already terminal", s).
Proof.
  intros Er Est. unfold consume. cbv zeta. cbv [mbind St_bind lift].
  rewrite must_record_run, Er. unfold throw_if. by rewrite bool_decide_false.
Qed.

Lemma cancel_terminal id now s r :
  map_get id s = Some r -> status r <> c_created ->
  cancel id now s = (Throw "challenge already terminal", s).
Proof.
  intros Er Est. unfold cancel. cbv [mbind St_bind lift].
  rewrite must_record_run, Er. unfold throw_if. by rewrite bool_decide_false.
Qed.

Lemma consume_success a publicKey now algorithm s r' s' :
  consume a publicKey now algorithm s = (Ok r', s') ->
  exists r t, map_get (challengeId (ap_binding a)) s = Some r /\ status r = c_created /\
    approved_for a publicKey algorithm r /\ now = Some t /\
    past_expiry r (Some t) = false /\ r' = finish c_confirmed (iso_string t) r /\
    s' = map_set (challengeId (ap_binding a)) r' s.
Proof.
  intros Hc%consume_outcome_inv.
  inversion Hc as [| | |r t Er Est Ha En Hp Eq]. subst.
  exists r, t. eauto 10.
Qed.

(** The submitted binding is the recorded one, field for field. *)
Lemma approved_for_binding a publicKey algorithm r :
  value_units (binding_value (ap_binding a)) -> value_units (binding_value (rec_binding r)) ->
  approved_for a publicKey algorithm r -> ap_binding a = rec_binding r.
Proof. intros Ua Ur [(bs & E1 & E2) _]. by apply (binding_canonical_inj _ _ bs). Qed.

(** C3: consuming a challenge succeeds exactly for an open record, whose every
    field the approval repeats, under a signature valid for the expected key
    and algorithm, strictly before expiry at a valid time; the record is then
    confirmed at that time and nothing else changes. *)
Theorem consume_ok_iff (a : SignedApproval) (publicKey algorithm : jstr) (now : Date)
    s (r' : ChallengeRecord) s' :
  consume a publicKey now algorithm s = (Ok r', s') <->
  exists r t, map_get (challengeId (ap_binding a)) s = Some r /\ status r = c_created /\
    (exists bs, canonicalizeBinding (binding_value (rec_binding r)) = Ok bs /\
                canonicalizeBinding (binding_value (ap_binding a)) = Ok bs) /\
    verifyApproval a publicKey algorithm = Ok true /\
    now = Some t /\
    num_le (date_parse (expiresAt (rec_binding r))) (Some t) = false /\
    r' = {| rec_binding := rec_binding r; status := c_confirmed;
            consumedAt := Some (iso_string t) |} /\
    s' = map_set (challengeId (ap_binding a)) r' s.
Proof.
  split.
  - intros (r & t & Er & Est & [Hc Hv] & -> & Hp & -> & ->)%consume_success.
    by exists r, t.
  - intros (r & t & Er & Est & Hc & Hv & -> & Hp & -> & ->).
    by apply consume_complete.
Qed.

(** C4: a challenge authorises at most one action: once it was consumed, the
    approval names exactly the recorded binding, and after any further calls
    every consumption or cancellation under its identifier is refused. *)
Theorem challenge_used_once (a : SignedApproval) (publicKey algorithm : jstr) (now : Date)
    s (r1 : ChallengeRecord) s1 s2
    (Ua : value_units (binding_value (ap_binding a)))
    (Us : forall id r, map_get id s = Some r -> value_units (binding_value (rec_binding r)))
    (Hc : consume a publicKey now algorithm s = (Ok r1, s1))
    (Hs : rtc store_step s1 s2) :
  rec_binding r1 = ap_binding a /\
  map_get (challengeId (ap_binding a)) s2 = Some r1 /\
  (forall a' publicKey' algorithm' now',
     challengeId (ap_binding a') = challengeId (ap_binding a) ->
     consume a' publicKey' now' algorithm' s2 = (Throw "challenge already terminal", s2)) /\
  (forall now', cancel (challengeId (ap_binding a)) now' s2 =
                (Throw "challenge already terminal", s2)).
Proof.
  apply consume_success in Hc as (r & t & Er & Est & Ha & -> & _ & -> & ->).
  destruct (store_steps_binding _ _ (challengeId (ap_binding a))
    (finish c_confirmed (iso_string t) r) Hs) as (r' & E' & _ & Ht).
  { by rewrite map_get_set_eq. }
  rewrite Ht in E' by done. repeat split; [|done|intros a' pk' al' now' Eid|intros now'].
  - symmetry. by apply (approved_for_binding _ _ _ _ Ua (Us _ _ Er) Ha).
  - eapply consume_terminal; [by rewrite Eid|done].
  - by eapply cancel_terminal.
Qed.

(** No sequence of calls changes what a challenge is about or reopens one
    that was confirmed, expired or cancelled. *)
Theorem challenge_binding_immutable s s' (id : jstr) (r : ChallengeRecord)
    (Hs : rtc store_step s s') (Er : map_get id s = Some r) :
  exists r', map_get id s' = Some r' /\ rec_binding r' = rec_binding r /\
    (status r = c_created \/ r' = r).
Proof.
  destruct (store_steps_binding _ _ _ _ Hs Er) as (r' & E' & Eb & Ht).
  exists r'. split; [done|]. split; [done|].
  destruct (decide (status r = c_created)); [by left|right; auto].
Qed.
End one_time.

(** ** Snapshots *)

Definition store_wf (s : store) : Prop :=
  map_wf s /\ forall id r, map_get id s = Some r -> challengeId (rec_binding r) = id.

Section snapshots.
Context `{Host}.
Implicit Types (s : store) (r : ChallengeRecord).

(** A record [restore] admits. *)
Record restorable r : Prop := {
  rs_binding : exists bs, canonicalizeBinding (binding_value (rec_binding r)) = Ok bs;
  rs_consumed : status r = c_confirmed \/ status r = c_cancelled ->
    exists c t, consumedAt r = Some c /\ c <> [] /\ date_parse c = Some t;
  rs_order : forall c, consumedAt r = Some c -> c <> [] ->
    num_lt (date_parse c) (date_parse (issuedAt (rec_binding r))) = false;
  rs_created : status r = c_created -> consumedAt r = None;
}.

Lemma binding_times b bs :
  canonicalizeBinding (binding_value b) = Ok bs ->
  exists i e, issuedAt b = iso_string i /\ date_parse (issuedAt b) = Some i /\
    expiresAt b = iso_string e /\ date_parse (expiresAt b) = Some e /\ i < e.
Proof.
  intros [Hv _]%canonicalizeBinding_Ok.
  destruct (vp_times _ Hv) as (si & ti & se & te & Ei & [-> [_ Hi]] & Ee & [-> [_ He]] & Hlt).
  change (prop (js "issuedAt") (binding_props b)) with (JStr (issuedAt b)) in Ei.
  change (prop (js "expiresAt") (binding_props b)) with (JStr (expiresAt b)) in Ee.
  injection Ei as ->. injection Ee as ->. exists ti, te.
  by rewrite !date_parse_iso_string.
Qed.

Lemma falsy_false o : falsy o = false <-> exists c, o = Some c /\ c <> [].
Proof.
  destruct o as [[|x c]|]; simpl; split; try done; try (by intros (? & [= <-] & ?)).
  intros _. by eexists.
Qed.

Lemma restore_record_Ok s r s' :
  restore_record s r = Ok s' <->
  map_get (challengeId (rec_binding r)) s = None /\ restorable r /\
  s' = map_set (challengeId (rec_binding r)) r s.
Proof.
  unfold restore_record. cbv zeta. split.
  - rewrite throw_if_bind_Ok. intros [_ E]. revert E.
    rewrite result_bind_Ok. intros (bs & Hb & E). revert E.
    rewrite !throw_if_bind_Ok. intros (Hdup & Hterm & Hord & Hcr & [= <-]).
    unfold map_has in Hdup. split; [by destruct (map_get _ s)|]. split; [|done]. split.
    + by exists bs.
    + intros Hst. rewrite andb_false_iff, !orb_false_iff, !bool_decide_eq_false in Hterm.
      destruct Hterm as [[]|[Hc Hp]]; [tauto|]. apply falsy_false in Hc as (c & E & Hne).
      rewrite E in Hp. simpl in Hp. destruct (date_parse c) as [t|] eqn:Et; [|done]. by exists c, t.
    + intros c E Hne. rewrite E in Hord. simpl in Hord. destruct c; [done|]. exact Hord.
    + intros Est. rewrite bool_decide_true in Hcr by done. simpl in Hcr.
      apply bool_decide_eq_false in Hcr. by destruct (consumedAt r); [destruct Hcr|].
  - intros (Hf & [[bs Hb] Hterm Hord Hcr] & ->).
    destruct (binding_times _ _ Hb) as (i & e & _ & Hi & _ & He & Hlt).
    rewrite throw_if_bind_Ok, Hi, He. split; [by apply Z.leb_gt|].
    rewrite Hb. cbn [mbind result_bind]. rewrite !throw_if_bind_Ok. unfold map_has. rewrite Hf.
    repeat split.
    + destruct (bool_decide (status r = c_confirmed) || _) eqn:E; [|done].
      rewrite orb_true_iff, !bool_decide_eq_true in E.
      destruct (Hterm E) as (c & t & -> & Hne & Et). simpl. rewrite Et.
      by destruct c.
    + destruct (consumedAt r) as [[|x c]|]; [done| |done].
      rewrite <-Hi. by apply (Hord (x :: c)).
    + case_bool_decide; [|done]. by rewrite Hcr.
Qed.

Definition record_id r : jstr := challengeId (rec_binding r).

(** The map that holds each record under its own identifier. *)
Definition store_of (l : list ChallengeRecord) : store := map (fun r => (record_id r, r)) l.

Lemma store_of_keys l : (store_of l).*1 = map record_id l.
Proof. induction l as [|r l IH]; [done|]. exact (f_equal (cons (record_id r)) IH). Qed.

Lemma store_of_values l : (store_of l).*2 = l.
Proof. induction l as [|r l IH]; [done|]. exact (f_equal (cons r) IH). Qed.

Lemma store_wf_store_of s : store_wf s -> s = store_of s.*2.
Proof.
  intros [Hm Hid].
  assert (Hall : Forall (fun p => p.1 = record_id p.2) s).
  { apply Forall_forall. intros [id r] Hin. cbn. symmetry.
    by apply Hid, map_in_get. }
  clear Hm Hid. induction Hall as [|[id r] s Hp _ IH]; [done|].
  change ((id, r) :: s = (record_id r, r) :: store_of s.*2).
  cbn in Hp. rewrite Hp. f_equal. exact IH.
Qed.

Lemma store_of_wf l : NoDup (map record_id l) -> store_wf (store_of l).
Proof.
  intros Hn. split; [unfold map_wf; by rewrite store_of_keys|].
  intros id r Hin%map_get_in. apply list_elem_of_In, in_map_iff in Hin.
  by destruct Hin as (r' & [= <- <-] & _).
Qed.

Lemma restore_records_Ok l s s' :
  map_wf s ->
  restore_records s l = Ok s' <->
  NoDup (s.*1 ++ map record_id l) /\ Forall restorable l /\ s' = s ++ store_of l.
Proof.
  revert s. induction l as [|r l IH]; intros s Hwf; cbn [restore_records].
  - simpl. rewrite !app_nil_r. split; [by intros [= <-]|by intros (_ & _ & ->)].
  - rewrite result_bind_Ok, Forall_cons. fold (record_id r). split.
    + intros (s1 & (Hf & Hr & ->)%restore_record_Ok & E).
      fold (record_id r) in *. rewrite map_set_fresh in E by done.
      apply IH in E as (Hn & Hl & ->).
      * rewrite fmap_app, <-!app_assoc in *. done.
      * rewrite <-map_set_fresh by done. by apply map_set_wf.
    + intros (Hn & [Hr Hl] & ->).
      assert (Hf : map_get (record_id r) s = None).
      { apply map_get_None. apply NoDup_app in Hn as (_ & Hd & _). intros Hin.
        apply (Hd _ Hin). constructor. }
      exists (s ++ [(record_id r, r)]). split.
      { apply restore_record_Ok. by rewrite map_set_fresh. }
      apply IH.
      * rewrite <-map_set_fresh by done. by apply map_set_wf.
      * rewrite fmap_app, <-!app_assoc. done.
Qed.

(** [restore] admits exactly the snapshots of version 1 whose records are
    individually sound and whose identifiers are distinct, and rebuilds the
    store in the order of the snapshot. *)
Theorem restore_ok_iff (snap : ChallengeStoreSnapshot) s :
  restore snap = Ok s <->
  ss_schemaVersion snap = 1 /\ NoDup (map record_id (ss_records snap)) /\
  Forall restorable (ss_records snap) /\ s = store_of (ss_records snap).
Proof.
  unfold restore. rewrite throw_if_bind_Ok, negb_false_iff, Z.eqb_eq.
  rewrite restore_records_Ok by constructor. done.
Qed.

(** A store of sound records survives a snapshot and a restart. *)
Lemma snapshot_restore s :
  store_wf s -> Forall restorable s.*2 -> restore (snapshot s) = Ok s.
Proof.
  intros Hwf Hr. unfold restore. cbn [ss_schemaVersion snapshot throw_if negb].
  rewrite throw_if_bind_Ok. split; [done|]. cbn [ss_records snapshot].
  apply restore_records_Ok; [constructor|]. simpl.
  pose proof (store_wf_store_of _ Hwf) as Es. split; [|by split].
  destruct Hwf as [Hm _]. unfold map_wf in Hm. rewrite Es, store_of_keys in Hm. done.
Qed.

(** The outcomes of the operations are restorable under the conditions the
    operations themselves do not check. *)
Lemma restorable_created b bs :
  canonicalizeBinding (binding_value b) = Ok bs -> restorable (created_record b).
Proof. intros Hb. split; [by exists bs|by intros []|done|done]. Qed.

Lemma restorable_expired r : restorable r -> status r = c_created ->
  restorable (set_status c_expired r).
Proof.
  intros [Hb _ Ho Hc] Est. split; [done|by intros []| |done]. by cbn; rewrite Hc.
Qed.

Lemma iso_string_ne t : iso_string t <> [].
Proof.
  unfold iso_string, iso_year. destruct (civil_from_days _) as [[y m] d].
  repeat case_match; simpl; try done; by destruct (digits 4 y).
Qed.

Lemma restorable_finish st t r :
  restorable r -> st <> c_created -> Z.abs t <= MAX_TIME ->
  before_issuance r (Some t) = false -> restorable (finish st (iso_string t) r).
Proof.
  intros [Hb _ _ _] Hst Ht Hn. split; [done| | |done].
  - intros _. exists (iso_string t), t. repeat split; [apply iso_string_ne|].
    by apply date_parse_iso_string.
  - intros c E _. injection E as <-. by rewrite date_parse_iso_string.
Qed.
End snapshots.

(** ** Instances *)

Definition sample_store : store := store_of [created_record sample_binding].

Definition sample_consumed : ChallengeRecord :=
  finish c_confirmed (iso_string (noon + 1000)) (created_record sample_binding).

Lemma sample_consume :
  consume (H := test_host) sample_approval sample_pem (Some (noon + 1000)) APPROVAL_ALGORITHM
    sample_store = (Ok sample_consumed, store_of [sample_consumed]).
Proof. by vm_compute. Qed.

Lemma sample_store_units id r :
  map_get id sample_store = Some r -> value_units (binding_value (rec_binding r)).
Proof.
  unfold sample_store, store_of. cbn [map map_get]. case_bool_decide; [|done].
  intros [= <-]. apply binding_units_value. by vm_compute.
Qed.

(** A later attempt to cancel. *)
Lemma sample_steps :
  rtc (store_step (H := test_host)) (store_of [sample_consumed]) (store_of [sample_consumed]).
Proof.
  assert (E : store_of [sample_consumed] =
    apply_op (H := test_host) (op_cancel "challenge-1" (Some (noon + 2000)))
      (store_of [sample_consumed])) by (by vm_compute).
  eapply rtc_l; [|constructor]. rewrite E at 2. by constructor.
Qed.

Lemma challenge_used_once_witness :
  rec_binding sample_consumed = ap_binding sample_approval /\
  consume (H := test_host) sample_approval sample_pem (Some (noon + 2000)) APPROVAL_ALGORITHM
    (store_of [sample_consumed]) =
    (Throw "challenge already terminal", store_of [sample_consumed]).
Proof.
  destruct (challenge_used_once (H := test_host) sample_approval sample_pem APPROVAL_ALGORITHM
    (Some (noon + 1000)) sample_store sample_consumed (store_of [sample_consumed])
    (store_of [sample_consumed])) as (Hb & _ & Hc & _).
  - apply binding_units_value. by vm_compute.
  - exact sample_store_units.
  - exact sample_consume.
  - exact sample_steps.
  - split; [exact Hb|by apply Hc].
Defined.

Lemma challenge_binding_immutable_witness :
  exists r', map_get (js "challenge-1") (store_of [sample_consumed]) = Some r' /\
    rec_binding r' = sample_binding /\ (c_confirmed = c_created \/ r' = sample_consumed).
Proof.
  exact (challenge_binding_immutable (H := test_host) _ _ (js "challenge-1") sample_consumed
           sample_steps eq_refl).
Defined.
