(* ===== verification/AuditLog.v ===== *)
(** AuditLog: packages/audit/auditLog.ts, the hash-chained event log, its
    optional HMAC authentication, the in-memory keyring and the external
    trust anchor. *)
From S2P Require Import Prelude JsString JsMap Host TestHost JsTime JsJson Protocol.
From stdpp Require Import relations.
Import JsJson.
#[local] Open Scope string_scope.
#[local] Open Scope list_scope.
#[local] Open Scope Z_scope.
#[local] Open Scope js_scope.

Definition HASH_GENESIS : jstr := "GENESIS".
Definition AUTHENTICATION_GENESIS : jstr := "AUTH-GENESIS".
Definition KEY_ID_PATTERN (keyId : jstr) : bool := id_pattern keyId.

Record AuditAuthentication : Type := {
  algorithm : jstr;
  keyId : jstr;
  keyVersion : Z;
  previousAuthenticationTag : jstr;
  tag : jstr;
}.

Record AuditEvent : Type := {
  sequence : Z;
  eventId : jstr;
  type : jstr;
  correlationId : jstr;
  causationId : option jstr;
  occurredAt : jstr;
  payload : jsval;
  previousHash : jstr;
  hash : jstr;
  authentication : option AuditAuthentication;
}.

Record AuditLogSnapshot : Type := {
  as_schemaVersion : Z;
  as_events : list AuditEvent;
}.

Record AuditTrustAnchor : Type := {
  an_schemaVersion : Z;
  eventCount : Z;
  tipHash : jstr;
  tipAuthenticationTag : jstr;
  tipKeyId : option jstr;
  tipKeyVersion : option Z;
  activeKeyId : jstr;
  activeKeyVersion : Z;
}.

(** ** Keys *)

Record ActiveAuditKey : Type := { ak_keyId : jstr; ak_keyVersion : Z; ak_key : list N }.
Inductive KeyStatus : Type := k_provisioned | k_active | k_retired.
#[global] Instance KeyStatus_eq_dec : EqDecision KeyStatus.
Proof. solve_decision. Defined.

Record VerificationAuditKey : Type := {
  vk_keyId : jstr; vk_keyVersion : Z; vk_key : list N; vk_status : KeyStatus
}.

(** The interface [AuditKeyProvider], as it answers at one moment. *)
Record AuditKeyProvider : Type := {
  activeKey : result ActiveAuditKey;
  keyFor : jstr -> option VerificationAuditKey;
}.

Definition validateKey (keyId : jstr) (key : list N) : result unit :=
  throw_if (negb (KEY_ID_PATTERN keyId)) "invalid audit key id" ≫= fun _ =>
  throw_if (length key <? 32)%nat "audit HMAC key must contain at least 32 bytes".

Record KeyringEntry : Type := {
  ke_key : list N; ke_status : KeyStatus; ke_keyVersion : option Z
}.

Module InMemoryAuditKeyring.
Record t : Type := {
  keys : list (jstr * KeyringEntry);
  active : jstr;
  latestKeyVersion : Z;
}.

Definition add_key (keyId : jstr) (key : list N) (ks : list (jstr * KeyringEntry))
    : result (list (jstr * KeyringEntry)) :=
  validateKey keyId key ≫= fun _ =>
  throw_if (map_has keyId ks) "audit key id already exists" ≫= fun _ =>
  Ok (map_set keyId {| ke_key := key; ke_status := k_provisioned; ke_keyVersion := None |} ks).

Definition add (keyId : jstr) (key : list N) (kr : t) : result t :=
  add_key keyId key (keys kr) ≫= fun ks =>
  Ok {| keys := ks; active := active kr; latestKeyVersion := latestKeyVersion kr |}.

Definition set_active (v : Z) (e : KeyringEntry) : KeyringEntry :=
  {| ke_key := ke_key e; ke_status := k_active; ke_keyVersion := Some v |}.
Definition set_retired (e : KeyringEntry) : KeyringEntry :=
  {| ke_key := ke_key e; ke_status := k_retired; ke_keyVersion := ke_keyVersion e |}.

Fixpoint add_all (l : list (jstr * list N)) (ks : list (jstr * KeyringEntry))
    : result (list (jstr * KeyringEntry)) :=
  match l with
  | [] => Ok ks
  | (id, key) :: l => add_key id key ks ≫= fun ks => add_all l ks
  end.

Definition constructor (l : list (jstr * list N)) (activeKeyId : jstr) : result t :=
  throw_if (length l =? 0)%nat "audit keyring requires a key" ≫= fun _ =>
  add_all l [] ≫= fun ks =>
  throw_if (negb (map_has activeKeyId ks)) "active audit key is not provisioned" ≫= fun _ =>
  Ok {| keys := map_update activeKeyId (set_active 1) ks; active := activeKeyId;
        latestKeyVersion := 1 |}.

Definition activate (keyId : jstr) (kr : t) : result t :=
  match map_get keyId (keys kr) with
  | None => Throw "audit key is not provisioned"
  | Some next =>
      throw_if (bool_decide (ke_status next = k_retired))
        "retired audit key cannot be reactivated" ≫= fun _ =>
      throw_if (bool_decide (ke_status next = k_active))
        "audit key is already active" ≫= fun _ =>
      let v := num_add (latestKeyVersion kr) 1 in
      Ok {| keys := map_update keyId (set_active v)
                      (map_update (active kr) set_retired (keys kr));
            active := keyId; latestKeyVersion := v |}
  end.

(** The non-null assertions of [activeKey] fail as a [TypeError]. *)
Definition activeKey (kr : t) : result ActiveAuditKey :=
  match map_get (active kr) (keys kr) with
  | Some {| ke_key := key; ke_keyVersion := Some v |} =>
      Ok {| ak_keyId := active kr; ak_keyVersion := v; ak_key := key |}
  | _ => Throw "TypeError"
  end.

Definition keyFor (kr : t) (keyId : jstr) : option VerificationAuditKey :=
  match map_get keyId (keys kr) with
  | Some {| ke_key := key; ke_status := st; ke_keyVersion := Some v |} =>
      if bool_decide (st = k_provisioned) then None
      else Some {| vk_keyId := keyId; vk_keyVersion := v; vk_key := key; vk_status := st |}
  | _ => None
  end.

Definition provider (kr : t) : AuditKeyProvider :=
  {| AuditLog.activeKey := activeKey kr; AuditLog.keyFor := keyFor kr |}.
End InMemoryAuditKeyring.

Section audit_log.
Context `{Host}.

Definition json_text (v : jsval) : list N :=
  utf8_encode (default (js "undefined") (json_stringify v)).
Definition digest (v : jsval) : jstr := sha256Hex (json_text v).

Definition authenticationTag (key : list N) (sequence : Z) (hash keyId : jstr)
    (keyVersion : Z) (previousAuthenticationTag : jstr) : jstr :=
  base64urlEncode (hmacSha256 key
    (utf8_encode ("airlock-audit-hmac-v1" +:+ [10%N]) ++
     utf8_encode (number_string (NInt sequence)) ++ utf8_encode [10%N] ++
     utf8_encode hash ++ utf8_encode [10%N] ++
     utf8_encode keyId ++ utf8_encode [10%N] ++
     utf8_encode (number_string (NInt keyVersion)) ++ utf8_encode [10%N] ++
     utf8_encode previousAuthenticationTag)).

Definition tagsEqual (left right : jstr) : bool :=
  bool_decide (base64urlDecode left = base64urlDecode right).

(** The exact-field test on the object is the type of the record. *)
Definition validateAuthentication (a : AuditAuthentication) : bool :=
  (algorithm a =s? "hmac-sha256") && KEY_ID_PATTERN (keyId a) &&
  safe_int (keyVersion a) && (0 <? keyVersion a) &&
  ((previousAuthenticationTag a =s? AUTHENTICATION_GENESIS) ||
   base64url_of_length 43 (previousAuthenticationTag a)) &&
  base64url_of_length 43 (tag a).

(** [const { hash, authentication, ...body } = event], in creation order. *)
Definition event_body (e : AuditEvent) : jsval := JObj
  [ (js "sequence", JNum (NInt (sequence e)));
    (js "eventId", JStr (eventId e));
    (js "type", JStr (type e));
    (js "correlationId", JStr (correlationId e));
    (js "causationId", opt_str (causationId e));
    (js "occurredAt", JStr (occurredAt e));
    (js "payload", payload e);
    (js "previousHash", JStr (previousHash e)) ].

Definition tip_hash (events : list AuditEvent) : jstr :=
  match last events with Some e => hash e | None => HASH_GENESIS end.
Definition tip_tag (events : list AuditEvent) : jstr :=
  match last events with
  | Some e => match authentication e with
              | Some a => tag a | None => AUTHENTICATION_GENESIS end
  | None => AUTHENTICATION_GENESIS
  end.

Section with_provider.
(** [#keyProvider] *)
Variable keyProvider : option AuditKeyProvider.

Definition authenticate (provider : AuditKeyProvider) (events : list AuditEvent)
    (event : AuditEvent) : result AuditEvent :=
  activeKey provider ≫= fun active =>
  validateKey (ak_keyId active) (ak_key active) ≫= fun _ =>
  let previous := tip_tag events in
  Ok {| sequence := sequence event; eventId := eventId event; type := type event;
        correlationId := correlationId event; causationId := causationId event;
        occurredAt := occurredAt event; payload := payload event;
        previousHash := previousHash event; hash := hash event;
        authentication := Some {|
          algorithm := "hmac-sha256"; keyId := ak_keyId active;
          keyVersion := ak_keyVersion active;
          previousAuthenticationTag := previous;
          tag := authenticationTag (ak_key active) (sequence event) (hash event)
                   (ak_keyId active) (ak_keyVersion active) previous |} |}.

Definition with_hash (e : AuditEvent) (h : jstr) : AuditEvent :=
  {| sequence := sequence e; eventId := eventId e; type := type e;
     correlationId := correlationId e; causationId := causationId e;
     occurredAt := occurredAt e; payload := payload e;
     previousHash := previousHash e; hash := h; authentication := None |}.

(** [uuid] is what [crypto.randomUUID()] returns during the call. *)
Definition append (type correlationId : jstr) (payload : jsval) (occurredAt : Date)
    (causationId : option jstr) (uuid : jstr) : St (list AuditEvent) AuditEvent :=
  sget ≫= fun events =>
  lift (toISOString occurredAt) ≫= fun at_ =>
  let body := {|
    sequence := Z.of_nat (length events) + 1; eventId := uuid; type := type;
    correlationId := correlationId; causationId := causationId; occurredAt := at_;
    payload := payload; previousHash := tip_hash events; hash := []; authentication := None |} in
  let baseEvent := with_hash body (digest (event_body body)) in
  lift (match keyProvider with
        | Some p => authenticate p events baseEvent
        | None => Ok baseEvent
        end) ≫= fun event =>
  smodify (fun events => events ++ [event]) ≫= fun _ =>
  mret event.

Definition snapshot (events : list AuditEvent) : AuditLogSnapshot :=
  {| as_schemaVersion := match keyProvider with Some _ => 2 | None => 1 end;
     as_events := events |}.

Definition trustAnchor (events : list AuditEvent) : result AuditTrustAnchor :=
  match keyProvider with
  | None => Throw "legacy audit log has no authenticated trust anchor"
  | Some p =>
      activeKey p ≫= fun active =>
      let tip := last events ≫= authentication in
      Ok {| an_schemaVersion := 1;
            eventCount := Z.of_nat (length events);
            tipHash := tip_hash events;
            tipAuthenticationTag := tip_tag events;
            tipKeyId := match tip with
                        | Some a => if (length (keyId a) =? 0)%nat then None else Some (keyId a)
                        | None => None end;
            tipKeyVersion := match tip with
                        | Some a => if keyVersion a =? 0 then None else Some (keyVersion a)
                        | None => None end;
            activeKeyId := ak_keyId active;
            activeKeyVersion := ak_keyVersion active |}
  end.

Definition verifyTrustAnchor (anchor : AuditTrustAnchor) (events : list AuditEvent)
    : result bool :=
  if negb (an_schemaVersion anchor =? 1) || negb (safe_int (eventCount anchor)) ||
     (eventCount anchor <? 0)
  then Ok false
  else
    trustAnchor events ≫= fun current =>
    Ok ((eventCount current =? eventCount anchor) &&
        (tipHash current =s? tipHash anchor) &&
        (tipAuthenticationTag current =s? tipAuthenticationTag anchor) &&
        bool_decide (tipKeyId current = tipKeyId anchor) &&
        bool_decide (tipKeyVersion current = tipKeyVersion anchor) &&
        (activeKeyId current =s? activeKeyId anchor) &&
        (activeKeyVersion current =? activeKeyVersion anchor)).

(** The variables of the loop of [verify]. *)
Record Cursor : Type := {
  cu_hash : jstr; cu_tag : jstr; cu_version : Z; cu_keyId : option jstr
}.
Definition genesis : Cursor :=
  {| cu_hash := HASH_GENESIS; cu_tag := AUTHENTICATION_GENESIS; cu_version := 0;
     cu_keyId := None |}.

(** One iteration; [None] is [return false]. *)
Definition verify_event (c : Cursor) (event : AuditEvent) : result (option Cursor) :=
  if negb (previousHash event =s? cu_hash c) || negb (digest (event_body event) =s? hash event)
  then Ok None
  else
    match keyProvider, authentication event with
    | Some p, None => Ok None
    | Some p, Some a =>
        if negb (validateAuthentication a) ||
           negb (previousAuthenticationTag a =s? cu_tag c) then Ok None
        else
          match keyFor p (keyId a) with
          | None => Ok None
          | Some k =>
              if negb (vk_keyVersion k =? keyVersion a) || (keyVersion a <? cu_version c) ||
                 (keyVersion a =? cu_version c) &&
                   negb (bool_decide (cu_keyId c = Some (keyId a)))
              then Ok None
              else
                validateKey (keyId a) (vk_key k) ≫= fun _ =>
                let expected := authenticationTag (vk_key k) (sequence event) (hash event)
                                  (keyId a) (keyVersion a) (cu_tag c) in
                if negb (tagsEqual expected (tag a)) then Ok None
                else Ok (Some {| cu_hash := hash event; cu_tag := tag a;
                                 cu_version := keyVersion a; cu_keyId := Some (keyId a) |})
          end
    | None, Some _ => Ok None
    | None, None => Ok (Some {| cu_hash := hash event; cu_tag := cu_tag c;
                                cu_version := cu_version c; cu_keyId := cu_keyId c |})
    end.

Fixpoint verify_from (c : Cursor) (events : list AuditEvent) : result bool :=
  match events with
  | [] => Ok true
  | event :: events =>
      verify_event c event ≫= fun r =>
      match r with
      | None => Ok false
      | Some c => verify_from c events
      end
  end.

Definition verify (events : list AuditEvent) : result bool := verify_from genesis events.
End with_provider.

Definition is_object (v : jsval) : bool := match v with JObj _ => true | _ => false end.

(** The tests [restore] makes on the event at [index]. *)
Definition restorable_event (schemaVersion : Z) (index : nat) (e : AuditEvent) : bool :=
  (sequence e =? Z.of_nat index + 1) &&
  match date_parse (occurredAt e) with Some _ => true | None => false end &&
  is_object (payload e) &&
  negb ((schemaVersion =? 1) && bool_decide (is_Some (authentication e))) &&
  negb ((schemaVersion =? 2) &&
        match authentication e with None => true | Some a => negb (validateAuthentication a) end).

Fixpoint restore_events (schemaVersion : Z) (index : nat) (l : list AuditEvent) : result unit :=
  match l with
  | [] => Ok tt
  | e :: l => throw_if (negb (restorable_event schemaVersion index e))
                "invalid audit snapshot event" ≫= fun _ =>
              restore_events schemaVersion (S index) l
  end.

Definition restore (snap : AuditLogSnapshot)
    (authenticated : option (AuditKeyProvider * AuditTrustAnchor)) : result (list AuditEvent) :=
  let v := as_schemaVersion snap in
  let keyProvider := fst <$> authenticated in
  throw_if (negb ((v =? 1) || (v =? 2))) "invalid audit snapshot" ≫= fun _ =>
  throw_if ((v =? 2) && bool_decide (authenticated = None :> option _))
    "authenticated audit restore requires an external key provider and trust anchor" ≫= fun _ =>
  throw_if ((v =? 1) && negb (bool_decide (authenticated = None :> option _)))
    "legacy audit snapshot has no authenticated evidence" ≫= fun _ =>
  restore_events v 0 (as_events snap) ≫= fun _ =>
  verify keyProvider (as_events snap) ≫= fun ok =>
  throw_if (negb ok) "audit snapshot chain verification failed (hash or authentication)" ≫= fun _ =>
  match authenticated with
  | None => Ok (as_events snap)
  | Some (_, anchor) =>
      verifyTrustAnchor keyProvider anchor (as_events snap) ≫= fun ok =>
      throw_if (negb ok) "audit snapshot does not match external trust anchor" ≫= fun _ =>
      Ok (as_events snap)
  end.
End audit_log.

(** ** Chains *)

Section chains.
Context `{Host}.
Variable keyProvider : option AuditKeyProvider.
Implicit Types (c : Cursor) (l : list AuditEvent).

(** The loop of [verify], keeping its final variables. *)
Fixpoint verify_run c l : result (option Cursor) :=
  match l with
  | [] => Ok (Some c)
  | e :: l => verify_event keyProvider c e ≫= fun r =>
              match r with None => Ok None | Some c => verify_run c l end
  end.

Lemma verify_from_run c l :
  verify_from keyProvider c l =
  (verify_run c l ≫= fun r => Ok (match r with Some _ => true | None => false end)).
Proof.
  revert c. induction l as [|e l IH]; intros c; [done|]. cbn [verify_from verify_run].
  destruct (verify_event keyProvider c e) as [[c'|]|]; [apply IH|done..].
Qed.

Lemma verify_true l :
  verify keyProvider l = Ok true <-> exists c, verify_run genesis l = Ok (Some c).
Proof.
  unfold verify. rewrite verify_from_run. destruct (verify_run genesis l) as [[c|]|]; simpl.
  - split; [by exists c|done].
  - split; [done|by intros [? ?]].
  - split; [done|by intros [? ?]].
Qed.

Lemma verify_run_app c l1 l2 :
  verify_run c (l1 ++ l2) =
  (verify_run c l1 ≫= fun r => match r with None => Ok None | Some c => verify_run c l2 end).
Proof.
  revert c. induction l1 as [|e l1 IH]; intros c; [done|].
  cbn [app verify_run]. destruct (verify_event keyProvider c e) as [[c'|]|]; [apply IH|done..].
Qed.

(** An accepted event, without authentication. *)
Lemma verify_event_hash c e c' :
  verify_event keyProvider c e = Ok (Some c') ->
  previousHash e = cu_hash c /\ digest (event_body e) = hash e /\ cu_hash c' = hash e.
Proof.
  unfold verify_event. destruct (_ || _) eqn:E; [done|].
  rewrite orb_false_iff, !negb_false_iff, !jeqb_true in E. destruct E as [-> ->].
  intros Hv. repeat split. destruct keyProvider as [p|], (authentication e) as [a|]; try done.
  - destruct (_ || _) in Hv; [done|]. destruct (keyFor p _) in Hv; [|done].
    destruct (_ || _) in Hv; [done|]. apply result_bind_Ok in Hv as ([] & _ & Hv).
    destruct (negb _) in Hv; [done|]. by injection Hv as <-.
  - by injection Hv as <-.
Qed.

Lemma verify_run_tip c l c' :
  verify_run c l = Ok (Some c') ->
  cu_hash c' = match last l with Some e => hash e | None => cu_hash c end.
Proof.
  intros Hv. destruct l as [|e l _] using rev_ind; [by injection Hv as <-|].
  rewrite last_snoc. rewrite verify_run_app in Hv.
  destruct (verify_run c l) as [[c1|]|]; [|done..]. cbn in Hv.
  destruct (verify_event keyProvider c1 e) as [[c2|]|] eqn:Ee; [|done..].
  cbn in Hv. injection Hv as <-. by apply verify_event_hash in Ee as (_ & _ & ->).
Qed.

Lemma verify_run_tip_hash l c :
  verify_run genesis l = Ok (Some c) -> cu_hash c = tip_hash l.
Proof. intros E. by rewrite (verify_run_tip _ _ _ E). Qed.
End chains.

(** What a provider must answer for the event appended next to verify. *)
Record provider_ready (p : AuditKeyProvider) (c : Cursor) : Prop := {
  pr_active : exists a k, activeKey p = Ok a /\ keyFor p (ak_keyId a) = Some k /\
    validateKey (ak_keyId a) (ak_key a) = Ok tt /\
    vk_key k = ak_key a /\ vk_keyVersion k = ak_keyVersion a /\
    safe_int (ak_keyVersion a) = true /\ 0 < ak_keyVersion a /\
    (cu_version c < ak_keyVersion a \/
     cu_version c = ak_keyVersion a /\ cu_keyId c = Some (ak_keyId a));
}.

(** A provider that still knows every key another one knew. *)
Definition provider_le (p q : AuditKeyProvider) : Prop :=
  forall id k, keyFor p id = Some k ->
    exists k', keyFor q id = Some k' /\ vk_key k' = vk_key k /\ vk_keyVersion k' = vk_keyVersion k.

Section append.
Context `{HostLaws}.
Implicit Types (c : Cursor) (l : list AuditEvent).

(** An accepted authenticated event. *)
Lemma verify_event_auth p c e c' :
  verify_event (Some p) c e = Ok (Some c') <->
  previousHash e = cu_hash c /\ digest (event_body e) = hash e /\
  exists a k, authentication e = Some a /\ validateAuthentication a = true /\
    previousAuthenticationTag a = cu_tag c /\ keyFor p (keyId a) = Some k /\
    vk_keyVersion k = keyVersion a /\
    (cu_version c < keyVersion a \/
     cu_version c = keyVersion a /\ cu_keyId c = Some (keyId a)) /\
    validateKey (keyId a) (vk_key k) = Ok tt /\
    tagsEqual (authenticationTag (vk_key k) (sequence e) (hash e) (keyId a) (keyVersion a)
                 (cu_tag c)) (tag a) = true /\
    c' = {| cu_hash := hash e; cu_tag := tag a; cu_version := keyVersion a;
            cu_keyId := Some (keyId a) |}.
Proof.
  unfold verify_event. split.
  - destruct (_ || _) eqn:E; [done|].
    rewrite orb_false_iff, !negb_false_iff, !jeqb_true in E. destruct E as [-> ->].
    destruct (authentication e) as [a|]; [|done].
    destruct (_ || _) eqn:E in |- *; [done|].
    rewrite orb_false_iff, !negb_false_iff, jeqb_true in E. destruct E as [Ea Et].
    destruct (keyFor p (keyId a)) as [k|] eqn:Ek; [|done].
    destruct (_ || _) eqn:E in |- *; [done|].
    rewrite !orb_false_iff, andb_false_iff, !negb_false_iff, Z.eqb_eq, Z.eqb_neq, Z.ltb_ge,
      bool_decide_eq_true in E. destruct E as [[Ev Hle] Hor].
    rewrite result_bind_Ok. intros ([] & Hkey & E). destruct (negb _) eqn:Etag in E; [done|].
    apply negb_false_iff in Etag. injection E as <-. do 2 (split; [done|]).
    exists a, k. split_and!; try done. destruct Hor; [left; lia|].
    destruct (decide (cu_version c = keyVersion a)); [by right|left; lia].
  - intros (Hp & Hd & a & k & Ea & Hval & Ht & Ek & Ev & Hver & Hkey & Htag & ->).
    rewrite Hp, Hd, !jeqb_refl, Ea, Hval, Ht, jeqb_refl, Ek. cbn [negb orb].
    destruct (_ || _) eqn:E in |- *.
    { rewrite !orb_true_iff, andb_true_iff, !negb_true_iff, Z.eqb_neq, Z.ltb_lt, Z.eqb_eq,
        bool_decide_eq_false in E.
      destruct E as [[?|?]|[? ?]], Hver as [?|[? ?]]; try done; lia. }
    rewrite Hkey. cbn [mbind result_bind]. by rewrite Htag.
Qed.

Lemma verify_run_tags p l c :
  verify_run (Some p) genesis l = Ok (Some c) -> cu_tag c = tip_tag l.
Proof.
  intros Hv. destruct l as [|e l _] using rev_ind; [by injection Hv as <-|].
  unfold tip_tag. rewrite last_snoc. rewrite verify_run_app in Hv.
  destruct (verify_run (Some p) genesis l) as [[c1|]|]; [|done..]. cbn in Hv.
  destruct (verify_event (Some p) c1 e) as [[c2|]|] eqn:Ee; [|done..].
  cbn in Hv. injection Hv as <-.
  apply verify_event_auth in Ee as (_ & _ & a & k & -> & _ & _ & _ & _ & _ & _ & _ & ->).
  done.
Qed.

(** Verification survives the provider learning keys and retiring them. *)
Lemma verify_run_provider_le p q c l c' :
  provider_le p q -> verify_run (Some p) c l = Ok (Some c') ->
  verify_run (Some q) c l = Ok (Some c').
Proof.
  intros Hpq. revert c. induction l as [|e l IH]; intros c; [done|]. cbn [verify_run].
  destruct (verify_event (Some p) c e) as [[c1|]|] eqn:Ee; [|done..].
  cbn [mbind result_bind]. intros Hl.
  assert (verify_event (Some q) c e = Ok (Some c1)) as ->; [|by apply IH].
  apply verify_event_auth in Ee as (Hp & Hd & a & k & Ea & Hval & Ht & Ek & Ev & Hver & Hkey & Htag & ->).
  destruct (Hpq _ _ Ek) as (k' & Ek' & E1 & E2).
  apply verify_event_auth. split; [done|]. split; [done|]. exists a, k'. rewrite E1, E2.
  by split_and!.
Qed.

Lemma authenticationTag_pattern key n h id v t :
  base64url_of_length 43 (authenticationTag key n h id v t) = true.
Proof. apply base64url_32; [apply hmacSha256_bytes|apply hmacSha256_length]. Qed.

Lemma run_tag_shape p l c :
  verify_run (Some p) genesis l = Ok (Some c) ->
  (cu_tag c =s? AUTHENTICATION_GENESIS) || base64url_of_length 43 (cu_tag c) = true.
Proof.
  intros Hv. destruct l as [|e l _] using rev_ind; [by injection Hv as <-|].
  rewrite verify_run_app in Hv.
  destruct (verify_run (Some p) genesis l) as [[c1|]|]; [|done..]. cbn in Hv.
  destruct (verify_event (Some p) c1 e) as [[c2|]|] eqn:Ee; [|done..].
  cbn in Hv. injection Hv as <-.
  apply verify_event_auth in Ee as (_ & _ & a & k & _ & Hval & _ & _ & _ & _ & _ & _ & ->).
  cbn. unfold validateAuthentication in Hval. rewrite !andb_true_iff in Hval.
  destruct Hval as [_ ->]. apply orb_true_r.
Qed.

(** The event [append] adds. *)
Definition appended l (ty corr : jstr) (pl : jsval) (t : Z) (cause : option jstr) (uuid : jstr)
    : AuditEvent :=
  let body := {|
    sequence := Z.of_nat (length l) + 1; eventId := uuid; type := ty;
    correlationId := corr; causationId := cause; occurredAt := iso_string t;
    payload := pl; previousHash := tip_hash l; hash := []; authentication := None |} in
  with_hash body (digest (event_body body)).

(** Without keys [append] always succeeds at a valid time. *)
Lemma append_plain l ty corr pl t cause uuid :
  append None ty corr pl (Some t) cause uuid l =
  (Ok (appended l ty corr pl t cause uuid), l ++ [appended l ty corr pl t cause uuid]).
Proof. done. Qed.

Lemma append_invalid_time kp ty corr pl cause uuid l :
  append kp ty corr pl None cause uuid l = (Throw "Invalid time value", l).
Proof. done. Qed.

Lemma appended_verifies l ty corr pl t cause uuid :
  verify None l = Ok true -> verify None (l ++ [appended l ty corr pl t cause uuid]) = Ok true.
Proof.
  rewrite !verify_true. intros [c Hc]. rewrite verify_run_app, Hc. cbn [mbind result_bind verify_run].
  unfold verify_event, appended. cbn [previousHash with_hash hash authentication].
  rewrite (verify_run_tip_hash _ _ _ Hc), jeqb_refl.
  rewrite (proj2 (jeqb_true _ _)) by done. cbn. eauto.
Qed.

Lemma append_authenticated p l c ty corr pl t cause uuid :
  verify_run (Some p) genesis l = Ok (Some c) -> provider_ready p c ->
  exists e a, append (Some p) ty corr pl (Some t) cause uuid l = (Ok e, l ++ [e]) /\
    activeKey p = Ok a /\
    (sequence e = Z.of_nat (length l) + 1 /\ occurredAt e = iso_string t /\ payload e = pl) /\
    verify_run (Some p) genesis (l ++ [e]) =
      Ok (Some {| cu_hash := hash e; cu_tag := tip_tag (l ++ [e]);
                  cu_version := ak_keyVersion a; cu_keyId := Some (ak_keyId a) |}).
Proof.
  intros Hc [(a & k & Ea & Ek & Hkey & Ekey & Ever & Hsafe & Hpos & Hver)].
  unfold append. cbv [mbind St_bind sget lift smodify mret St_ret]. cbn [toISOString].
  unfold authenticate. rewrite Ea. cbn [mbind result_bind]. rewrite Hkey. cbn [mbind result_bind].
  eexists _, a. split; [done|]. split; [done|]. split; [done|].
  rewrite verify_run_app, Hc. cbn [mbind result_bind verify_run].
  assert (forall r r' : result (option Cursor), r = r' ->
    (r ≫= fun r => match r with None => Ok None | Some c => Ok (Some c) end) = r') as Hid
    by (by intros [[]|] ? <-). apply Hid. clear Hid.
  apply verify_event_auth. cbn [previousHash with_hash hash authentication sequence].
  split; [by rewrite (verify_run_tip_hash _ _ _ Hc)|]. split; [done|].
  eexists _, k. split; [done|]. cbn [keyId keyVersion previousAuthenticationTag tag algorithm].
  rewrite Ekey, Ever, <-(verify_run_tags _ _ _ Hc).
  split_and!; try done.
  - unfold validateAuthentication. cbn [keyId keyVersion previousAuthenticationTag tag algorithm].
    rewrite jeqb_refl, Hsafe, (proj2 (Z.ltb_lt _ _)), authenticationTag_pattern by done.
    rewrite (run_tag_shape _ _ _ Hc).
    unfold validateKey in Hkey. apply throw_if_bind_Ok in Hkey as [Hid _].
    by apply negb_false_iff in Hid as ->.
  - unfold tagsEqual. by apply bool_decide_true.
  - unfold tip_tag. by rewrite last_snoc.
Qed.
End append.

(** ** The keyring and the log over time *)

Section keyring.
Import InMemoryAuditKeyring.

Record kr_ok (kr : t) : Prop := {
  ko_wf : map_wf (keys kr);
  ko_latest : 1 <= latestKeyVersion kr <= MAX_SAFE_INTEGER;
  ko_active : exists key, map_get (active kr) (keys kr) =
    Some {| ke_key := key; ke_status := k_active; ke_keyVersion := Some (latestKeyVersion kr) |};
  ko_only : forall id e, map_get id (keys kr) = Some e -> ke_status e = k_active ->
    id = active kr;
  ko_key : forall id e, map_get id (keys kr) = Some e -> validateKey id (ke_key e) = Ok tt;
  ko_version : forall id e, map_get id (keys kr) = Some e ->
    match ke_keyVersion e with
    | None => ke_status e = k_provisioned
    | Some v => ke_status e <> k_provisioned /\ 1 <= v <= latestKeyVersion kr
    end;
  ko_inj : forall id1 id2 e1 e2 v, map_get id1 (keys kr) = Some e1 ->
    map_get id2 (keys kr) = Some e2 -> ke_keyVersion e1 = Some v ->
    ke_keyVersion e2 = Some v -> id1 = id2;
}.

Lemma add_key_Ok id key ks ks' :
  add_key id key ks = Ok ks' <->
  validateKey id key = Ok tt /\ map_get id ks = None /\
  ks' = map_set id {| ke_key := key; ke_status := k_provisioned; ke_keyVersion := None |} ks.
Proof.
  unfold add_key. rewrite result_bind_Ok. split.
  - intros ([] & Hv & [Hh [= <-]]%throw_if_bind_Ok). unfold map_has in Hh.
    by destruct (map_get id ks).
  - intros (Hv & Hh & ->). exists tt. split; [done|]. apply throw_if_bind_Ok.
    unfold map_has. by rewrite Hh.
Qed.

(** A ring of keys none of which was ever active. *)
Definition fresh_keys (ks : list (jstr * KeyringEntry)) : Prop :=
  map_wf ks /\ forall id e, map_get id ks = Some e ->
    validateKey id (ke_key e) = Ok tt /\ ke_status e = k_provisioned /\ ke_keyVersion e = None.

Lemma add_all_fresh l ks ks' : add_all l ks = Ok ks' -> fresh_keys ks -> fresh_keys ks'.
Proof.
  revert ks. induction l as [|[id key] l IH]; intros ks; cbn [add_all].
  - by intros [= <-].
  - rewrite result_bind_Ok. intros (k1 & (Hv & Hn & ->)%add_key_Ok & E) [Hwf Hf].
    apply (IH _ E). split; [by apply map_set_wf|]. intros id' e.
    rewrite map_get_set. case_bool_decide; [by intros [= <-]; subst|apply Hf].
Qed.

Lemma constructor_ok l id kr : constructor l id = Ok kr -> kr_ok kr.
Proof.
  unfold constructor. rewrite throw_if_bind_Ok, result_bind_Ok.
  intros (_ & ks & Hks & E). revert E. rewrite throw_if_bind_Ok, negb_false_iff.
  intros [Hhas [= <-]]. destruct (add_all_fresh _ _ _ Hks) as [Hwf Hf].
  { split; [constructor|done]. }
  unfold map_has in Hhas. destruct (map_get id ks) as [e0|] eqn:E0; [clear Hhas|done].
  split; cbn [keys active latestKeyVersion].
  - by apply map_update_wf.
  - done.
  - exists (ke_key e0). by rewrite map_get_update, bool_decide_true, E0.
  - intros i e. rewrite map_get_update. case_bool_decide; [done|].
    intros He Hst. destruct (Hf _ _ He) as (_ & Hp & _). congruence.
  - intros i e. rewrite map_get_update. case_bool_decide; [|by intros He; apply Hf].
    subst. rewrite E0. intros [= <-]. cbn. by apply Hf.
  - intros i e. rewrite map_get_update. case_bool_decide.
    + subst. rewrite E0. by intros [= <-].
    + intros He. destruct (Hf _ _ He) as (_ & Hp & ->). done.
  - intros i1 i2 e1 e2 v. rewrite !map_get_update. repeat case_bool_decide; subst; try done.
    + intros _ He. by destruct (Hf _ _ He) as (_ & _ & ->).
    + intros He. by destruct (Hf _ _ He) as (_ & _ & ->).
    + intros He. by destruct (Hf _ _ He) as (_ & _ & ->).
Qed.

Lemma add_ok id key kr kr' :
  kr_ok kr -> add id key kr = Ok kr' ->
  kr_ok kr' /\ latestKeyVersion kr' = latestKeyVersion kr /\ active kr' = active kr /\
  provider_le (provider kr) (provider kr') /\
  (forall i e, map_get i (keys kr) = Some e -> map_get i (keys kr') = Some e).
Proof.
  intros [Hwf Hl Ha Ho Hk Hv Hi]. unfold add. rewrite result_bind_Ok.
  intros (ks & (Hval & Hn & ->)%add_key_Ok & [= <-]).
  assert (Hold : forall i e, map_get i (keys kr) = Some e ->
    map_get i (map_set id {| ke_key := key; ke_status := k_provisioned;
                             ke_keyVersion := None |} (keys kr)) = Some e).
  { intros i e He. rewrite map_get_set. case_bool_decide; [congruence|done]. }
  split_and!; try done; [split; try done; cbn [keys active latestKeyVersion]| ].
  - by apply map_set_wf.
  - destruct Ha as [k0 E0]. exists k0. by apply Hold.
  - intros i e. rewrite map_get_set. case_bool_decide; [by intros [= <-]|apply Ho].
  - intros i e. rewrite map_get_set. case_bool_decide; [by intros [= <-]; subst|apply Hk].
  - intros i e. rewrite map_get_set. case_bool_decide; [by intros [= <-]|apply Hv].
  - intros i1 i2 e1 e2 v. rewrite !map_get_set.
    repeat case_bool_decide; subst; intros E1 E2 V1 V2;
      try (injection E1 as <-); try (injection E2 as <-); try done.
    by apply (Hi _ _ _ _ v E1 E2).
  - intros i k Hkf. cbn in Hkf |- *. exists k. split; [|done]. unfold keyFor in *.
    cbn [keys]. destruct (map_get i (keys kr)) as [e|] eqn:E; [|done]. by rewrite (Hold _ _ E).
Qed.

Lemma activate_ok id kr kr' :
  kr_ok kr -> latestKeyVersion kr < MAX_SAFE_INTEGER -> activate id kr = Ok kr' ->
  kr_ok kr' /\ latestKeyVersion kr' = latestKeyVersion kr + 1 /\ active kr' = id /\
  provider_le (provider kr) (provider kr') /\
  (forall i e, map_get i (keys kr) = Some e -> ke_status e = k_retired ->
     map_get i (keys kr') = Some e).
Proof.
  intros [Hwf Hl [ka Ha] Ho Hk Hv Hi] Hlt. unfold activate.
  destruct (map_get id (keys kr)) as [e0|] eqn:E0; [|done].
  rewrite !throw_if_bind_Ok, !bool_decide_eq_false. intros (Hr & Hna & [= <-]).
  assert (Hst : ke_status e0 = k_provisioned) by (by destruct (ke_status e0)).
  assert (Hne : id <> active kr) by (intros ->; by rewrite Ha in E0; injection E0 as <-).
  assert (Hv0 : ke_keyVersion e0 = None).
  { specialize (Hv _ _ E0). destruct (ke_keyVersion e0); [|done]. by destruct Hv. }
  rewrite num_add_exact by (unfold MAX_SAFE_INTEGER in *; lia).
  set (n := latestKeyVersion kr + 1).
  set (ks' := map_update id (set_active n) (map_update (active kr) set_retired (keys kr))).
  assert (Hg : forall i, map_get i ks' =
    if bool_decide (i = id) then Some (set_active n e0)
    else if bool_decide (i = active kr) then
      Some {| ke_key := ka; ke_status := k_retired; ke_keyVersion := Some (latestKeyVersion kr) |}
    else map_get i (keys kr)).
  { intros i. subst ks'. rewrite !map_get_update.
    repeat case_bool_decide; subst; try done; [by rewrite E0|by rewrite Ha]. }
  split_and!; try done; [split; cbn [keys active latestKeyVersion]; fold ks'| |].
  - by apply map_update_wf, map_update_wf.
  - try (subst n); lia.
  - exists (ke_key e0). by rewrite Hg, bool_decide_true.
  - intros i e. rewrite Hg. repeat case_bool_decide; [done|by intros [= <-]|].
    intros He Hs. by apply Ho in He.
  - intros i e. rewrite Hg. repeat case_bool_decide; subst.
    + intros [= <-]. by apply (Hk _ _ E0).
    + intros [= <-]. by apply (Hk _ _ Ha).
    + apply Hk.
  - intros i e. rewrite Hg. repeat case_bool_decide; subst.
    + intros [= <-]. cbn. split; [done|]. try (subst n); lia.
    + intros [= <-]. cbn. split; [done|]. try (subst n); lia.
    + intros He. specialize (Hv _ _ He). destruct (ke_keyVersion e); [|done].
      destruct Hv. split; [done|]. try (subst n); lia.
  - intros i1 i2 e1 e2 v. rewrite !Hg.
    assert (Hlow : forall i e w, map_get i (keys kr) = Some e -> ke_keyVersion e = Some w -> w < n).
    { intros i e w He Hw. specialize (Hv _ _ He). rewrite Hw in Hv. try (subst n); lia. }
    repeat case_bool_decide; subst; intros E1 E2 V1 V2;
      try (injection E1 as <-); try (injection E2 as <-); try done;
      cbn in V1, V2; simplify_eq.
    + try (subst n); lia.
    + specialize (Hlow _ _ _ E2 V2). lia.
    + try (subst n); lia.
    + by apply (Hi _ _ _ _ (latestKeyVersion kr) Ha E2).
    + specialize (Hlow _ _ _ E1 V1). lia.
    + symmetry. by apply (Hi _ _ _ _ (latestKeyVersion kr) Ha E1).
    + by apply (Hi _ _ _ _ v E1 E2).
  - intros i k Hkf. cbn in Hkf |- *. unfold keyFor in *. cbn [keys]. fold ks'. rewrite Hg.
    case_bool_decide; subst.
    { rewrite E0 in Hkf. destruct e0; cbn in *; subst. done. }
    case_bool_decide; subst; [|by exists k].
    rewrite Ha in Hkf. cbn in Hkf. injection Hkf as <-. by eexists.
  - intros i e He Hs. cbn [keys]. fold ks'. rewrite Hg.
    repeat case_bool_decide; subst; [congruence| |done].
    rewrite Ha in He. by injection He as <-.
Qed.

(** The active key of a sound ring is ready to authenticate. *)
Lemma kr_ready kr c :
  kr_ok kr -> cu_version c <= latestKeyVersion kr ->
  (cu_version c = latestKeyVersion kr -> cu_keyId c = Some (active kr)) ->
  provider_ready (provider kr) c.
Proof.
  intros [Hwf Hl [ka Ha] Ho Hk Hv Hi] Hle Heq. split. cbn.
  unfold activeKey, keyFor. rewrite Ha. eexists _, _. split; [done|].
  cbn [ak_keyId]. rewrite Ha. cbn. split; [done|]. split_and!; try done.
  - apply (Hk _ _ Ha).
  - unfold safe_int. apply Z.leb_le. lia.
  - lia.
  - destruct (decide (cu_version c = latestKeyVersion kr)); [right; auto|left; lia].
Qed.
End keyring.


(** ** Tamper evidence *)









Section tamper.
Context `{HostLaws}.
Implicit Types (l : list AuditEvent) (e : AuditEvent).








Lemma verify_run_snoc kp c l e c' :
  verify_run kp c (l ++ [e]) = Ok (Some c') <->
  exists c1, verify_run kp c l = Ok (Some c1) /\ verify_event kp c1 e = Ok (Some c').
Proof.
  rewrite verify_run_app. destruct (verify_run kp c l) as [[c1|]|]; cbn [mbind result_bind].
  - cbn [verify_run]. destruct (verify_event kp c1 e) as [[c2|]|] eqn:E; cbn [mbind result_bind].
    + split; [intros [= ->]; by exists c1|]. intros (? & [= <-] & E2). congruence.
    + split; [done|]. intros (? & [= <-] & E2). congruence.
    + split; [done|]. intros (? & [= <-] & E2). congruence.
  - split; [done|]. by intros (? & ? & _).
  - split; [done|]. by intros (? & ? & _).
Qed.


End tamper.

(** ** Restoring *)

Section restoring.
Context `{HostLaws}.
Implicit Types (l : list AuditEvent).

Lemma restore_Ok_plain snap l :
  restore snap None = Ok l <->
  as_schemaVersion snap = 1 /\ as_events snap = l /\
  restore_events 1 0 l = Ok tt /\ verify None l = Ok true.
Proof.
  unfold restore. cbv zeta. rewrite throw_if_bind_Ok. split.
  - intros [Hv E]. revert E. rewrite !throw_if_bind_Ok. intros (H2 & _ & E). revert E.
    rewrite result_bind_Ok. intros ([] & Hr & E). revert E.
    rewrite result_bind_Ok. intros (ok & Hok & E). revert E.
    rewrite throw_if_bind_Ok. intros [Ht [= <-]]. apply negb_false_iff in Ht as ->.
    rewrite andb_true_r in H2. rewrite H2, orb_false_r, negb_false_iff, Z.eqb_eq in Hv.
    rewrite Hv in Hr. done.
  - intros (Hv & <- & Hr & Hok). rewrite Hv. split; [done|].
    rewrite !throw_if_bind_Ok. do 2 (split; [done|]).
    rewrite Hr. cbn [mbind result_bind]. cbn [fmap option_fmap option_map]. by rewrite Hok.
Qed.

Lemma restore_Ok_authenticated snap p anchor l :
  restore snap (Some (p, anchor)) = Ok l <->
  as_schemaVersion snap = 2 /\ as_events snap = l /\
  restore_events 2 0 l = Ok tt /\ verify (Some p) l = Ok true /\
  verifyTrustAnchor (Some p) anchor l = Ok true.
Proof.
  unfold restore. cbv zeta. rewrite throw_if_bind_Ok. split.
  - intros [Hv E]. revert E. rewrite !throw_if_bind_Ok. intros (_ & H1 & E). revert E.
    rewrite result_bind_Ok. intros ([] & Hr & E). revert E.
    rewrite result_bind_Ok. intros (ok & Hok & E). revert E.
    rewrite throw_if_bind_Ok. intros [Ht E]. revert E.
    rewrite result_bind_Ok. intros (ok2 & Hok2 & E). revert E.
    rewrite throw_if_bind_Ok. intros [Ht2 [= <-]].
    apply negb_false_iff in Ht as ->. apply negb_false_iff in Ht2 as ->.
    rewrite andb_true_r in H1. rewrite H1, orb_false_l, negb_false_iff, Z.eqb_eq in Hv.
    rewrite Hv in Hr. done.
  - intros (Hv & <- & Hr & Hok & Hok2). rewrite Hv. split; [done|].
    rewrite !throw_if_bind_Ok. do 2 (split; [done|]).
    rewrite Hr. cbn [mbind result_bind]. cbn [fmap option_fmap option_map fst]. rewrite Hok.
    cbn [mbind result_bind throw_if negb]. rewrite Hok2. done.
Qed.

Lemma restore_events_app v i l1 l2 :
  restore_events v i (l1 ++ l2) = Ok tt <->
  restore_events v i l1 = Ok tt /\ restore_events v (i + length l1) l2 = Ok tt.
Proof.
  revert i. induction l1 as [|e l1 IH]; intros i; cbn [app restore_events length].
  - rewrite Nat.add_0_r. by split; [|intros [_ ?]].
  - rewrite !throw_if_bind_Ok, IH. rewrite <-Nat.add_succ_comm. tauto.
Qed.

Lemma trustAnchor_matches kp l anchor :
  trustAnchor kp l = Ok anchor -> Z.of_nat (length l) <= MAX_SAFE_INTEGER ->
  verifyTrustAnchor kp anchor l = Ok true.
Proof.
  intros E Hl. unfold verifyTrustAnchor. rewrite E.
  unfold trustAnchor in E. destruct kp as [p|]; [|done].
  apply result_bind_Ok in E as (a & Ea & [= <-]).
  cbn [an_schemaVersion eventCount tipHash tipAuthenticationTag tipKeyId tipKeyVersion
       activeKeyId activeKeyVersion]. unfold safe_int.
  rewrite (proj2 (Z.leb_le _ _)), (proj2 (Z.ltb_ge _ _)) by lia. cbn [Z.eqb Pos.eqb negb orb].
  cbn [mbind result_bind]. rewrite !Z.eqb_refl, !jeqb_refl, !bool_decide_true by done. done.
Qed.

End restoring.

(** ** The log and its keyring over time *)

Section audit_system.
Context `{HostLaws}.
Import InMemoryAuditKeyring.

(** A keyring and a log that authenticates with it.  The payload is a record
    and a time is what a [Date] can hold. *)
Inductive audit_step : t * list AuditEvent -> t * list AuditEvent -> Prop :=
| step_append kr l ty corr pl now cause uuid :
    date_ok now -> is_object pl = true ->
    audit_step (kr, l) (kr, (append (Some (provider kr)) ty corr pl now cause uuid l).2)
| step_add kr kr' l id key : add id key kr = Ok kr' -> audit_step (kr, l) (kr', l)
| step_activate kr kr' l id :
    latestKeyVersion kr < MAX_SAFE_INTEGER -> activate id kr = Ok kr' ->
    audit_step (kr, l) (kr', l).

Lemma restore_events_snoc p l e c c' t pl :
  restore_events 2 0 l = Ok tt ->
  verify_run (Some p) genesis l = Ok (Some c) ->
  verify_run (Some p) genesis (l ++ [e]) = Ok (Some c') ->
  date_ok (Some t) -> is_object pl = true ->
  sequence e = Z.of_nat (length l) + 1 /\ occurredAt e = iso_string t /\ payload e = pl ->
  restore_events 2 0 (l ++ [e]) = Ok tt.
Proof.
  intros Hre _ Hv Hnow Hpl (Es & Eo & Ep).
  apply verify_run_snoc in Hv as (c1 & _ & Hv).
  apply verify_event_auth in Hv as (_ & _ & a & k & Ea & Hval & _).
  apply restore_events_app. split; [done|]. cbn [restore_events]. unfold restorable_event.
  rewrite Es, Eo, Ep, Hpl, Ea, Hval, date_parse_iso_string by exact Hnow.
  cbn [Nat.add]. by rewrite Z.eqb_refl.
Qed.

Definition audit_ok (s : t * list AuditEvent) : Prop :=
  kr_ok s.1 /\ restore_events 2 0 s.2 = Ok tt /\ exists c, verify_run (Some (provider s.1)) genesis s.2 = Ok (Some c) /\
    cu_version c <= latestKeyVersion s.1 /\
    (cu_version c = latestKeyVersion s.1 -> cu_keyId c = Some (active s.1)).

Lemma kr_active_key kr a :
  kr_ok kr -> InMemoryAuditKeyring.activeKey kr = Ok a ->
  ak_keyVersion a = latestKeyVersion kr /\ ak_keyId a = active kr.
Proof.
  intros [_ _ [ka Ha] _ _ _ _]. unfold InMemoryAuditKeyring.activeKey. rewrite Ha.
  by intros [= <-].
Qed.

Lemma audit_step_ok s s' : audit_step s s' -> audit_ok s -> audit_ok s'.
Proof.
  intros [kr l ty corr pl now cause uuid Hnow Hpl|kr kr' l id key Hadd|kr kr' l id Hlt Hact];
    intros (Hkr & Hre & c & Hc & Hle & Heq); cbn [fst snd] in *.
  - destruct now as [t|]; [|by split; [|split; [|exists c]]].
    destruct (append_authenticated _ _ _ ty corr pl t cause uuid Hc)
      as (e & a & -> & Ea & Hf & Hv).
    { by apply kr_ready. }
    apply kr_active_key in Ea as [E1 E2]; [|done]. split; [done|].
    split; [by eapply restore_events_snoc|]. eexists. split; [exact Hv|]. cbn. rewrite E1, E2. by split.
  - destruct (add_ok _ _ _ _ Hkr Hadd) as (Hkr' & El & Eact & Hpl & _). split; [done|].
    split; [done|]. exists c. cbn [fst snd]. rewrite El, Eact. split; [|done]. by eapply verify_run_provider_le.
  - destruct (activate_ok _ _ _ Hkr Hlt Hact) as (Hkr' & El & Eact & Hpl & _).
    split; [done|]. split; [done|]. exists c. cbn [fst snd]. rewrite El.
    split; [by eapply verify_run_provider_le|]. split; lia.
Qed.

Lemma audit_steps_ok s s' : rtc audit_step s s' -> audit_ok s -> audit_ok s'.
Proof. induction 1 as [|s1 s2 s3 H12 _ IH]; [done|]. intros Hok. by eapply IH, audit_step_ok. Qed.

Lemma audit_initial_ok l id kr : constructor l id = Ok kr -> audit_ok (kr, []).
Proof.
  intros Hkr%constructor_ok. split; [done|]. split; [done|]. exists genesis. split; [done|]. cbn.
  destruct (ko_latest _ Hkr). split; lia.
Qed.

(** C6: whatever the order of appends, key provisioning and key rotation, the
    authenticated log verifies under the current keyring. *)
Theorem authenticated_log_verifies (l : list (jstr * list N)) (id : jstr) (kr kr' : t)
    (events : list AuditEvent) (Hkr : constructor l id = Ok kr)
    (Hs : rtc audit_step (kr, []) (kr', events)) :
  verify (Some (provider kr')) events = Ok true.
Proof.
  destruct (audit_steps_ok _ _ Hs (audit_initial_ok _ _ _ Hkr)) as (_ & _ & c & Hc & _).
  apply verify_true. by exists c.
Qed.

(** A reachable keyring has exactly one active key, whose version no other
    key carries; a retired key stays retired, and activating it throws. *)
Theorem keyring_single_active (l : list (jstr * list N)) (id : jstr) (kr kr1 kr2 : t)
    (events1 events2 : list AuditEvent) (Hkr : constructor l id = Ok kr)
    (Hs1 : rtc audit_step (kr, []) (kr1, events1))
    (Hs2 : rtc audit_step (kr1, events1) (kr2, events2)) :
  (exists key, map_get (active kr2) (keys kr2) =
     Some {| ke_key := key; ke_status := k_active; ke_keyVersion := Some (latestKeyVersion kr2) |}) /\
  (forall i e, map_get i (keys kr2) = Some e ->
     (ke_status e = k_active \/ ke_keyVersion e = Some (latestKeyVersion kr2)) -> i = active kr2) /\
  (forall i e, map_get i (keys kr1) = Some e -> ke_status e = k_retired ->
     map_get i (keys kr2) = Some e /\
     activate i kr2 = Throw "retired audit key cannot be reactivated").
Proof.
  pose proof (audit_steps_ok _ _ Hs1 (audit_initial_ok _ _ _ Hkr)) as Hok1.
  destruct (audit_steps_ok _ _ Hs2 Hok1) as [Hkr2 _]. cbn in Hkr2.
  destruct (ko_active _ Hkr2) as [ka Ha]. split_and!.
  - by exists ka.
  - intros i e He [Hst|Hv]; [by apply (ko_only _ Hkr2 _ _ He)|].
    by apply (ko_inj _ Hkr2 _ _ _ _ _ He Ha Hv).
  - intros i e He Hst. assert (E2 : map_get i (keys kr2) = Some e).
    { clear Hs1 Ha Hkr2. remember (kr1, events1) as s1 eqn:E1. remember (kr2, events2) as s2 eqn:E2.
      change kr1 with (kr1, events1).1 in He. rewrite <-E1 in He.
      change kr2 with (kr2, events2).1. rewrite <-E2. clear E1 E2.
      induction Hs2 as [|s1 s2 s3 H12 _ IH]; [done|].
      apply IH; [by eapply audit_step_ok|]. destruct Hok1 as [Hk1 _].
      destruct H12 as [|kr0 kr0' l0 i0 key0 Hadd|kr0 kr0' l0 i0 Hlt Hact]; cbn in *; [exact He| |].
      - by apply (add_ok _ _ _ _ Hk1 Hadd).
      - by apply (activate_ok _ _ _ Hk1 Hlt Hact). }
    split; [done|]. unfold activate. rewrite E2, Hst. reflexivity.
Qed.

(** a log taken from its process and restored against the trust anchor it
    published is the same log. *)
Theorem authenticated_snapshot_round_trip (l : list (jstr * list N)) (id : jstr) (kr kr' : t)
    (events : list AuditEvent) (Hkr : constructor l id = Ok kr)
    (Hs : rtc audit_step (kr, []) (kr', events))
    (Hlen : Z.of_nat (length events) <= MAX_SAFE_INTEGER) :
  exists anchor, trustAnchor (Some (provider kr')) events = Ok anchor /\
    restore (snapshot (Some (provider kr')) events) (Some (provider kr', anchor)) = Ok events.
Proof.
  destruct (audit_steps_ok _ _ Hs (audit_initial_ok _ _ _ Hkr)) as (Hok & Hre & c & Hc & _).
  cbn [fst snd] in *. destruct (ko_active _ Hok) as [ka Ha].
  assert (exists a, AuditLog.activeKey (provider kr') = Ok a) as [a Ea].
  { cbn. unfold InMemoryAuditKeyring.activeKey. rewrite Ha. by eexists. }
  assert (exists anchor, trustAnchor (Some (provider kr')) events = Ok anchor) as [anchor E].
  { unfold trustAnchor. rewrite Ea. by eexists. }
  exists anchor. split; [done|]. apply restore_Ok_authenticated.
  split_and!; try done.
  - apply verify_true. by exists c.
  - by apply trustAnchor_matches.
Qed.


Lemma verify_run_app_Ok kp c l1 l2 c' :
  verify_run kp c (l1 ++ l2) = Ok (Some c') ->
  exists c1, verify_run kp c l1 = Ok (Some c1) /\ verify_run kp c1 l2 = Ok (Some c').
Proof.
  rewrite verify_run_app. destruct (verify_run kp c l1) as [[c1|]|]; [|done..]. by exists c1.
Qed.

Lemma versions_le p l c c' :
  verify_run (Some p) c l = Ok (Some c') ->
  cu_version c < cu_version c' \/ cu_version c = cu_version c' /\ cu_keyId c = cu_keyId c'.
Proof.
  revert c. induction l as [|e l IH]; intros c; cbn [verify_run]; [intros [= <-]; by right|].
  destruct (verify_event (Some p) c e) as [[c1|]|] eqn:Ee; [|done..]. cbn [mbind result_bind].
  intros Hl%IH.
  apply verify_event_auth in Ee as (_ & _ & a & k & _ & _ & _ & _ & _ & Hver & _ & _ & ->).
  cbn [cu_version cu_keyId] in Hl.
  destruct Hl as [|[? E]], Hver as [|[? E']]; try (left; lia).
  right. split; [lia|congruence].
Qed.

(** The cursor after an authenticated event carries its key. *)
Lemma verify_run_one p c e a c' :
  verify_run (Some p) c [e] = Ok (Some c') -> authentication e = Some a ->
  cu_version c' = keyVersion a /\ cu_keyId c' = Some (keyId a).
Proof.
  intros (c1 & _ & Hv)%(verify_run_snoc _ _ []) Ea.
  apply verify_event_auth in Hv as (_ & _ & b & k & B & _ & _ & _ & _ & _ & _ & _ & ->).
  cbn. rewrite Ea in B. by injection B as <-.
Qed.

(** In a verified log the key versions never decrease, and one version
    belongs to one key: a retired key cannot sign after its successor. *)
Theorem verified_key_versions_monotone (p : AuditKeyProvider)
    (before between after : list AuditEvent) (e1 e2 : AuditEvent)
    (a1 a2 : AuditAuthentication)
    (Hv : verify (Some p) (before ++ [e1] ++ between ++ [e2] ++ after) = Ok true)
    (E1 : authentication e1 = Some a1) (E2 : authentication e2 = Some a2) :
  keyVersion a1 < keyVersion a2 \/ keyVersion a1 = keyVersion a2 /\ keyId a1 = keyId a2.
Proof.
  apply verify_true in Hv as [c Hc].
  apply verify_run_app_Ok in Hc as (c0 & _ & Hc).
  apply verify_run_app_Ok in Hc as (c1 & H1 & Hc).
  apply verify_run_app_Ok in Hc as (c2 & H2 & Hc).
  apply verify_run_app_Ok in Hc as (c3 & H3 & _).
  destruct (verify_run_one _ _ _ _ _ H1 E1) as [V1 K1].
  destruct (verify_run_one _ _ _ _ _ H3 E2) as [V3 K3].
  apply versions_le in H2. apply versions_le in H3.
  rewrite V1, K1 in H2. rewrite V3, K3 in H3.
  destruct H2 as [|[? E]], H3 as [|[? E']]; try (left; lia).
  right. split; [lia|]. congruence.
Qed.
End audit_system.

(** ** Instances *)

Section sample.
Import InMemoryAuditKeyring.
#[local] Existing Instance test_host.
#[local] Existing Instance test_host_laws.

Definition from_ok {A} (d : A) (r : result A) : A :=
  match r with Ok a => a | Throw _ => d end.

Definition empty_ring : t := {| keys := []; active := []; latestKeyVersion := 0 |}.
Definition sample_keys : list (jstr * list N) := [(js "audit-1", repeat 7%N 32)].
Definition ring1 : t := from_ok empty_ring (constructor sample_keys "audit-1").
Definition ring2 : t := from_ok empty_ring (add "audit-2" (repeat 9%N 32) ring1).
Definition ring3 : t := from_ok empty_ring (activate "audit-2" ring2).

Definition sample_append (kr : t) (l : list AuditEvent) : list AuditEvent :=
  (append (Some (provider kr)) "sample.event" "correlation-1" (JObj []) (Some noon) None
     "uuid-1" l).2.
Definition log1 : list AuditEvent := sample_append ring1 [].
Definition log2 : list AuditEvent := sample_append ring3 log1.

Lemma ring1_made : constructor sample_keys "audit-1" = Ok ring1.
Proof. by vm_compute. Qed.

(** Append, provision a second key, rotate to it. *)
Lemma sample_rotated : rtc audit_step (ring1, []) (ring3, log1).
Proof.
  eapply rtc_l; [apply (step_append ring1 [] "sample.event" "correlation-1" (JObj []) (Some noon)
    None "uuid-1"); [vm_compute; congruence|done]|].
  eapply rtc_l; [apply (step_add ring1 ring2 _ "audit-2" (repeat 9%N 32)); by vm_compute|].
  eapply rtc_l; [apply (step_activate ring2 ring3 _ "audit-2"); by vm_compute|].
  constructor.
Qed.

Lemma sample_appended : rtc audit_step (ring3, log1) (ring3, log2).
Proof.
  eapply rtc_l; [apply (step_append ring3 log1 "sample.event" "correlation-1" (JObj []) (Some noon)
    None "uuid-1"); [vm_compute; congruence|done]|].
  constructor.
Qed.

Lemma authenticated_log_verifies_witness : verify (Some (provider ring3)) log2 = Ok true.
Proof.
  apply (authenticated_log_verifies sample_keys "audit-1" ring1).
  - exact ring1_made.
  - etrans; [exact sample_rotated|exact sample_appended].
Defined.

Lemma keyring_single_active_witness :
  activate "audit-1" ring3 = Throw "retired audit key cannot be reactivated".
Proof.
  destruct (keyring_single_active sample_keys "audit-1" ring1 ring3 ring3 log1 log2
              ring1_made sample_rotated sample_appended) as (_ & _ & Hr).
  apply (Hr (js "audit-1") (set_retired (set_active 1 {| ke_key := repeat 7%N 32;
    ke_status := k_active; ke_keyVersion := None |}))); by vm_compute.
Defined.

Lemma authenticated_snapshot_round_trip_witness :
  exists anchor, trustAnchor (Some (provider ring3)) log2 = Ok anchor /\
    restore (snapshot (Some (provider ring3)) log2) (Some (provider ring3, anchor)) = Ok log2.
Proof.
  apply (authenticated_snapshot_round_trip sample_keys "audit-1" ring1).
  - exact ring1_made.
  - etrans; [exact sample_rotated|exact sample_appended].
  - by vm_compute.
Defined.


Lemma verified_key_versions_monotone_witness : 1 < 2.
Proof.
  destruct (verified_key_versions_monotone (provider ring3) [] [] []
    (nth 0 log2 (with_hash (appended [] [] [] JNull 0 None []) []))
    (nth 1 log2 (with_hash (appended [] [] [] JNull 0 None []) []))
    (from_ok {| algorithm := []; keyId := []; keyVersion := 0; previousAuthenticationTag := [];
       tag := [] |} (match log2 with e :: _ => match authentication e with Some a => Ok a
                       | None => Throw [] end | [] => Throw [] end))
    (from_ok {| algorithm := []; keyId := []; keyVersion := 0; previousAuthenticationTag := [];
       tag := [] |} (match log2 with _ :: e :: _ => match authentication e with Some a => Ok a
                       | None => Throw [] end | _ => Throw [] end))) as [Hlt|[_ He]].
  - by vm_compute.
  - by vm_compute.
  - by vm_compute.
  - exact Hlt.
  - exfalso. revert He. by vm_compute.
Defined.
End sample.
