(* ===== verification/Engine.v ===== *)
(** Engine: apps/issuer-simulator/airlockEngine.ts, the issuer's aggregate of
    trusted devices, payment tokens, provisioning requests, transactions and
    daily spend, over the challenge store and the audit log. *)
From S2P Require Import Prelude JsString JsMap Host JsTime JsJson Transitions Protocol DeviceKeys AuditLog ChallengeStore.
#[local] Open Scope string_scope.
#[local] Open Scope list_scope.
#[local] Open Scope Z_scope.
#[local] Open Scope js_scope.

Definition DEVICE_KEY_ID_PATTERN (keyId : jstr) : bool := id_pattern keyId.

Inductive DeviceStatus : Type := d_active | d_revoked.
Inductive TokenState : Type := t_pending | t_active_capped | t_active_full | t_declined.
#[global] Instance DeviceStatus_eq_dec : EqDecision DeviceStatus.
Proof. solve_decision. Defined.
#[global] Instance TokenState_eq_dec : EqDecision TokenState.
Proof. solve_decision. Defined.

Record TrustedDevice : Type := {
  td_deviceId : jstr;
  td_subjectId : jstr;
  td_keyId : jstr;
  td_algorithm : jstr;
  td_publicKeyPem : jstr;
  td_status : DeviceStatus;
}.

Record PaymentToken : Type := {
  pt_tokenId : jstr;
  pt_subjectId : jstr;
  pt_accountId : jstr;
  pt_state : TokenState;
  perTransactionCapMinor : option Z;
  dailyCapMinor : option Z;
}.

Record ProvisioningRequest : Type := {
  pr_requestId : jstr;
  pr_tokenId : jstr;
  pr_trustedDeviceId : jstr;
  pr_state : ProvisioningState;
  pr_challenge : ChallengeBinding;
}.

Record CapReservation : Type := { spendKey : jstr; cr_amountMinor : Z }.

Record TransactionRecord : Type := {
  tx_transactionId : jstr;
  tx_tokenId : jstr;
  tx_merchantId : jstr;
  tx_amountMinor : Z;
  tx_currency : jstr;
  tx_state : TransactionState;
  tx_strategy : jstr;
  tx_challenge : option ChallengeBinding;
  capReservation : option CapReservation;
}.

Record AirlockEngineSnapshot : Type := {
  es_schemaVersion : Z;
  es_audit : AuditLogSnapshot;
  es_challenges : ChallengeStoreSnapshot;
  es_devices : list TrustedDevice;
  es_tokens : list PaymentToken;
  es_provisioning : list ProvisioningRequest;
  es_transactions : list TransactionRecord;
  es_dailySpend : list (jstr * Z);
}.

Record AirlockEngine : Type := {
  audit : list AuditEvent;
  challenges : store;
  devices : list (jstr * TrustedDevice);
  tokens : list (jstr * PaymentToken);
  provisioning : list (jstr * ProvisioningRequest);
  transactions : list (jstr * TransactionRecord);
  dailySpend : list (jstr * Z);
}.

(** ** Field updates *)

Definition set_audit v s := {| audit := v; challenges := challenges s; devices := devices s;
  tokens := tokens s; provisioning := provisioning s; transactions := transactions s;
  dailySpend := dailySpend s |}.
Definition set_challenges v s := {| audit := audit s; challenges := v; devices := devices s;
  tokens := tokens s; provisioning := provisioning s; transactions := transactions s;
  dailySpend := dailySpend s |}.
Definition set_devices v s := {| audit := audit s; challenges := challenges s; devices := v;
  tokens := tokens s; provisioning := provisioning s; transactions := transactions s;
  dailySpend := dailySpend s |}.
Definition set_tokens v s := {| audit := audit s; challenges := challenges s; devices := devices s;
  tokens := v; provisioning := provisioning s; transactions := transactions s;
  dailySpend := dailySpend s |}.
Definition set_provisioning v s := {| audit := audit s; challenges := challenges s;
  devices := devices s; tokens := tokens s; provisioning := v; transactions := transactions s;
  dailySpend := dailySpend s |}.
Definition set_transactions v s := {| audit := audit s; challenges := challenges s;
  devices := devices s; tokens := tokens s; provisioning := provisioning s; transactions := v;
  dailySpend := dailySpend s |}.
Definition set_dailySpend v s := {| audit := audit s; challenges := challenges s;
  devices := devices s; tokens := tokens s; provisioning := provisioning s;
  transactions := transactions s; dailySpend := v |}.

Definition set_td_status v d := {| td_deviceId := td_deviceId d; td_subjectId := td_subjectId d;
  td_keyId := td_keyId d; td_algorithm := td_algorithm d;
  td_publicKeyPem := td_publicKeyPem d; td_status := v |}.
Definition set_td_key keyId algorithm pem d := {| td_deviceId := td_deviceId d;
  td_subjectId := td_subjectId d; td_keyId := keyId; td_algorithm := algorithm;
  td_publicKeyPem := pem; td_status := td_status d |}.
Definition set_pt_state v t := {| pt_tokenId := pt_tokenId t; pt_subjectId := pt_subjectId t;
  pt_accountId := pt_accountId t; pt_state := v;
  perTransactionCapMinor := perTransactionCapMinor t; dailyCapMinor := dailyCapMinor t |}.
Definition clear_caps t := {| pt_tokenId := pt_tokenId t; pt_subjectId := pt_subjectId t;
  pt_accountId := pt_accountId t; pt_state := pt_state t;
  perTransactionCapMinor := None; dailyCapMinor := None |}.
Definition set_pr_state v r := {| pr_requestId := pr_requestId r; pr_tokenId := pr_tokenId r;
  pr_trustedDeviceId := pr_trustedDeviceId r; pr_state := v; pr_challenge := pr_challenge r |}.
Definition set_tx_state v t := {| tx_transactionId := tx_transactionId t;
  tx_tokenId := tx_tokenId t; tx_merchantId := tx_merchantId t;
  tx_amountMinor := tx_amountMinor t; tx_currency := tx_currency t; tx_state := v;
  tx_strategy := tx_strategy t; tx_challenge := tx_challenge t;
  capReservation := capReservation t |}.
Definition drop_reservation t := {| tx_transactionId := tx_transactionId t;
  tx_tokenId := tx_tokenId t; tx_merchantId := tx_merchantId t;
  tx_amountMinor := tx_amountMinor t; tx_currency := tx_currency t; tx_state := tx_state t;
  tx_strategy := tx_strategy t; tx_challenge := tx_challenge t; capReservation := None |}.

Record EnrollKeys : Type := { ek_keyId : jstr; ek_algorithm : jstr; ek_publicKeyPem : jstr }.

Record ProvisioningInput : Type := {
  pi_subjectId : jstr; pi_accountId : jstr; pi_tokenId : jstr; pi_trustedDeviceId : jstr;
  pi_capMinor : jsnum; pi_now : option Date;
}.

Record AuthorizeInput : Type := {
  ai_transactionId : jstr; ai_tokenId : jstr; ai_merchantId : jstr; ai_amountMinor : jsnum;
  ai_strategy : jstr; ai_trustedDeviceId : jstr; ai_now : option Date;
}.

Definition STRATEGIES : list jstr :=
  [js "pre_authorization_step_up"; js "provisional_monitoring"].

Definition json_strings (l : list jstr) : jsval := JArr (map JStr l).

Section engine.
Context `{Host}.
(** The key provider of the audit log, if it authenticates. *)
Variable keyProvider : option AuditKeyProvider.

Abbreviation M := (St AirlockEngine).

Definition on_audit {A} (m : St (list AuditEvent) A) : M A := zoom audit set_audit m.
Definition on_challenges {A} (m : St store A) : M A := zoom challenges set_challenges m.

Definition audit_append (type correlationId : jstr) (payload : list (jstr * jsval))
    (now : Date) (uuid : jstr) : M unit :=
  on_audit (append keyProvider type correlationId (JObj payload) now None uuid) ≫= fun _ =>
  mret tt.

(** [#must] on one of the maps. *)
Definition must {V} (label key : jstr) (m : list (jstr * V)) : result V :=
  match map_get key m with Some v => Ok v | None => Throw ("unknown " +:+ label) end.

Definition publicKeyFingerprint (publicKeyPem algorithm : jstr) : result jstr :=
  validatePublicKeyProfile publicKeyPem algorithm ≫= fun key =>
  Ok (base64urlEncode (sha256 (spki_der key))).

Definition other_device (exceptDeviceId : option jstr) (d : TrustedDevice) : bool :=
  negb (bool_decide (Some (td_deviceId d) = exceptDeviceId)).

Definition assertKeyIdAvailable (keyId : jstr) (exceptDeviceId : option jstr)
    (ds : list (jstr * TrustedDevice)) : result unit :=
  throw_if (negb (DEVICE_KEY_ID_PATTERN keyId)) "invalid trusted device key id" ≫= fun _ =>
  for_each ds.*2 (fun d =>
    throw_if (other_device exceptDeviceId d && (td_keyId d =s? keyId))
      "trusted device key id already exists").

Definition assertPublicKeyAvailable (publicKeyPem algorithm : jstr)
    (exceptDeviceId : option jstr) (ds : list (jstr * TrustedDevice)) : result unit :=
  publicKeyFingerprint publicKeyPem algorithm ≫= fun fingerprint =>
  for_each ds.*2 (fun d =>
    if other_device exceptDeviceId d then
      publicKeyFingerprint (td_publicKeyPem d) (td_algorithm d) ≫= fun f =>
      throw_if (f =s? fingerprint) "trusted device public key already exists"
    else Ok tt).

Definition requireActiveDevice (deviceId : jstr) (subjectId : option jstr)
    (ds : list (jstr * TrustedDevice)) : result TrustedDevice :=
  must "trusted device" deviceId ds ≫= fun device =>
  throw_if (bool_decide (td_status device <> d_active)) "trusted device is revoked" ≫= fun _ =>
  throw_if (negb (falsy subjectId) && negb (bool_decide (Some (td_subjectId device) = subjectId)))
    "trusted device subject mismatch" ≫= fun _ =>
  Ok device.

Definition enrollTrustedDevice (subjectId : jstr) (keys : EnrollKeys) (deviceIdArg : option jstr)
    (e : Env) : M TrustedDevice :=
  let deviceId := default (env_uuid e 0) deviceIdArg in
  sget ≫= fun s =>
  lift (throw_if (map_has deviceId (devices s)) "trusted device id already exists") ≫= fun _ =>
  lift (assertKeyIdAvailable (ek_keyId keys) None (devices s)) ≫= fun _ =>
  lift (validatePublicKeyProfile (ek_publicKeyPem keys) (ek_algorithm keys)) ≫= fun _ =>
  lift (assertPublicKeyAvailable (ek_publicKeyPem keys) (ek_algorithm keys) None (devices s))
    ≫= fun _ =>
  let device := {| td_deviceId := deviceId; td_subjectId := subjectId;
    td_keyId := ek_keyId keys; td_algorithm := ek_algorithm keys;
    td_publicKeyPem := ek_publicKeyPem keys; td_status := d_active |} in
  smodify (fun s => set_devices (map_set deviceId device (devices s)) s) ≫= fun _ =>
  audit_append "trusted_device.enrolled" deviceId
    [ (js "deviceId", JStr deviceId); (js "subjectId", JStr subjectId);
      (js "keyId", JStr (ek_keyId keys)); (js "algorithm", JStr (ek_algorithm keys)) ]
    (env_clock e 0) (env_uuid e 1) ≫= fun _ =>
  mret device.

Definition getDevice (deviceId : jstr) (s : AirlockEngine) : option TrustedDevice :=
  map_get deviceId (devices s).

(** [#releaseCapReservation] *)
Definition releaseCapReservation (transactionId : jstr) : M unit :=
  sget ≫= fun s =>
  match map_get transactionId (transactions s) ≫= capReservation with
  | None => mret tt
  | Some r =>
      let remaining := Z.max 0 (num_sub (default 0 (map_get (spendKey r) (dailySpend s)))
                                        (cr_amountMinor r)) in
      smodify (fun s => set_dailySpend
        (if remaining =? 0 then map_delete (spendKey r) (dailySpend s)
         else map_set (spendKey r) remaining (dailySpend s)) s) ≫= fun _ =>
      smodify (fun s => set_transactions
        (map_update transactionId drop_reservation (transactions s)) s)
  end.

Definition set_request_state (requestId : jstr) (to : ProvisioningState) : M unit :=
  sget ≫= fun s =>
  lift (must "provisioning request" requestId (provisioning s)) ≫= fun r =>
  lift (transitionProvisioning (pr_state r) to) ≫= fun to =>
  smodify (fun s => set_provisioning
    (map_update requestId (set_pr_state to) (provisioning s)) s).

Definition set_transaction_state (transactionId : jstr) (to : TransactionState) : M unit :=
  sget ≫= fun s =>
  lift (must "transaction" transactionId (transactions s)) ≫= fun t =>
  lift (transitionTransaction (tx_state t) to) ≫= fun to =>
  smodify (fun s => set_transactions
    (map_update transactionId (set_tx_state to) (transactions s)) s).

Definition set_token (tokenId : jstr) (f : PaymentToken -> PaymentToken) : M unit :=
  smodify (fun s => set_tokens (map_update tokenId f (tokens s)) s).

(** The provisioning requests and transactions waiting on the device, with
    the copy of their challenge the first pass takes. *)
Definition waiting_requests (deviceId : jstr) (s : AirlockEngine)
    : list (jstr * ProvisioningRequest) :=
  List.filter (fun p => (pr_trustedDeviceId p.2 =s? deviceId) &&
    bool_decide (pr_state p.2 = trusted_device_challenge)) (provisioning s).

Definition waiting_transactions (deviceId : jstr) (s : AirlockEngine)
    : list (jstr * TransactionRecord) :=
  List.filter (fun p => bool_decide (trustedDeviceId <$> tx_challenge p.2 = Some deviceId) &&
    bool_decide (tx_state p.2 = confirmation_pending)) (transactions s).

Definition request_plan (s : AirlockEngine) (p : jstr * ProvisioningRequest)
    : jstr * jstr * option ChallengeRecord :=
  (p.1, challengeId (pr_challenge p.2), get (challengeId (pr_challenge p.2)) (challenges s)).

Definition transaction_plan (s : AirlockEngine) (p : jstr * TransactionRecord)
    : jstr * jstr * option ChallengeRecord :=
  let id := match tx_challenge p.2 with Some b => challengeId b | None => [] end in
  (p.1, id, get id (challenges s)).

(** The validation pass over one planned entry. *)
Definition plan_check (now : Date) (p : jstr * jstr * option ChallengeRecord) : result unit :=
  match p.2 with
  | None => Throw "TypeError"
  | Some c => throw_if (bool_decide (status c = c_created) &&
                        num_lt now (date_parse (issuedAt (rec_binding c))))
                "challenge cannot be cancelled before issuance"
  end.

(** [false] is [continue]. *)
Definition settle_challenge (id : jstr) (c : option ChallengeRecord) (now : Date) : M bool :=
  match status <$> c with
  | Some c_created => on_challenges (cancel id now) ≫= fun _ => mret true
  | Some c_cancelled | Some c_expired => mret true
  | Some c_confirmed => mret false
  | None => lift (Throw "TypeError")
  end.

Definition invalidate_request (now : Date) (p : jstr * jstr * option ChallengeRecord)
    : M (list jstr) :=
  let '(requestId, id, c) := p in
  settle_challenge id c now ≫= fun go : bool =>
  if go then
    set_request_state requestId p_declined ≫= fun _ =>
    sget ≫= fun s =>
    lift (must "provisioning request" requestId (provisioning s)) ≫= fun r =>
    lift (must "payment token" (pr_tokenId r) (tokens s)) ≫= fun t =>
    (if bool_decide (pt_state t = t_pending)
     then set_token (pr_tokenId r) (set_pt_state t_declined) else mret tt) ≫= fun _ =>
    mret [id]
  else mret [].

Definition invalidate_transaction (now : Date) (p : jstr * jstr * option ChallengeRecord)
    : M (list jstr) :=
  let '(transactionId, id, c) := p in
  settle_challenge id c now ≫= fun go : bool =>
  if go then
    set_transaction_state transactionId declined ≫= fun _ =>
    releaseCapReservation transactionId ≫= fun _ =>
    mret [id]
  else mret [].

Fixpoint collect {A} (f : A -> M (list jstr)) (l : list A) : M (list jstr) :=
  match l with
  | [] => mret []
  | x :: l => f x ≫= fun ids => collect f l ≫= fun rest => mret (ids ++ rest)
  end.

Definition invalidateOutstandingChallenges (deviceId : jstr) (now : Date) : M (list jstr) :=
  sget ≫= fun s =>
  let requests := map (request_plan s) (waiting_requests deviceId s) in
  let pending := map (transaction_plan s) (waiting_transactions deviceId s) in
  lift (for_each (requests ++ pending) (plan_check now)) ≫= fun _ =>
  collect (invalidate_request now) requests ≫= fun ids1 =>
  collect (invalidate_transaction now) pending ≫= fun ids2 =>
  mret (ids1 ++ ids2).

Definition device_update (deviceId : jstr) (f : TrustedDevice -> TrustedDevice) : M unit :=
  smodify (fun s => set_devices (map_update deviceId f (devices s)) s).

Definition must_device (deviceId : jstr) : M TrustedDevice :=
  sget ≫= fun s => lift (must "trusted device" deviceId (devices s)).

Definition revokeTrustedDevice (deviceId : jstr) (nowArg : option Date) (e : Env)
    : M TrustedDevice :=
  let now := or_now nowArg e 0 in
  must_device deviceId ≫= fun device =>
  lift (throw_if (bool_decide (td_status device = d_revoked))
          "trusted device already revoked") ≫= fun _ =>
  invalidateOutstandingChallenges deviceId now ≫= fun ids =>
  device_update deviceId (set_td_status d_revoked) ≫= fun _ =>
  audit_append "trusted_device.revoked" deviceId
    [ (js "deviceId", JStr deviceId); (js "subjectId", JStr (td_subjectId device));
      (js "keyId", JStr (td_keyId device));
      (js "invalidatedChallengeIds", json_strings ids) ] now (env_uuid e 0) ≫= fun _ =>
  must_device deviceId.

Definition markTrustedDeviceCompromised (deviceId : jstr) (nowArg : option Date) (e : Env)
    : M TrustedDevice :=
  let now := or_now nowArg e 0 in
  must_device deviceId ≫= fun device =>
  lift (throw_if (bool_decide (td_status device <> d_active))
          "compromised device is not active") ≫= fun _ =>
  invalidateOutstandingChallenges deviceId now ≫= fun ids =>
  device_update deviceId (set_td_status d_revoked) ≫= fun _ =>
  audit_append "trusted_device.compromised" deviceId
    [ (js "deviceId", JStr deviceId); (js "subjectId", JStr (td_subjectId device));
      (js "keyId", JStr (td_keyId device));
      (js "invalidatedChallengeIds", json_strings ids);
      (js "recoveryDowngradeAvailable", JBool false) ] now (env_uuid e 0) ≫= fun _ =>
  must_device deviceId.

Definition rotateTrustedDeviceKey (deviceId : jstr) (keys : EnrollKeys)
    (nowArg : option Date) (e : Env) : M TrustedDevice :=
  let now := or_now nowArg e 0 in
  must_device deviceId ≫= fun device =>
  sget ≫= fun s =>
  lift (throw_if (bool_decide (td_status device <> d_active))
          "only an active trusted device key can be rotated") ≫= fun _ =>
  lift (throw_if (ek_keyId keys =s? td_keyId device)
          "rotated key id must differ from the current key id") ≫= fun _ =>
  lift (assertKeyIdAvailable (ek_keyId keys) (Some deviceId) (devices s)) ≫= fun _ =>
  lift (validatePublicKeyProfile (ek_publicKeyPem keys) (ek_algorithm keys)) ≫= fun _ =>
  lift (publicKeyFingerprint (ek_publicKeyPem keys) (ek_algorithm keys)) ≫= fun next =>
  lift (publicKeyFingerprint (td_publicKeyPem device) (td_algorithm device)) ≫= fun current =>
  lift (throw_if (next =s? current)
          "rotated public key must differ from the current key") ≫= fun _ =>
  lift (assertPublicKeyAvailable (ek_publicKeyPem keys) (ek_algorithm keys)
          (Some deviceId) (devices s)) ≫= fun _ =>
  let oldKeyId := td_keyId device in
  invalidateOutstandingChallenges deviceId now ≫= fun ids =>
  device_update deviceId (set_td_key (ek_keyId keys) (ek_algorithm keys) (ek_publicKeyPem keys))
    ≫= fun _ =>
  audit_append "trusted_device.key_rotated" deviceId
    [ (js "deviceId", JStr deviceId); (js "subjectId", JStr (td_subjectId device));
      (js "oldKeyId", JStr oldKeyId); (js "newKeyId", JStr (ek_keyId keys));
      (js "invalidatedChallengeIds", json_strings ids) ] now (env_uuid e 0) ≫= fun _ =>
  must_device deviceId.

(** ** Provisioning *)

(** [Math.floor(Number.MAX_SAFE_INTEGER / 2)] *)
Definition MAX_CAP : Z := 4503599627370495.

Definition requestProvisioning (input : ProvisioningInput) (e : Env) : M ProvisioningRequest :=
  sget ≫= fun s =>
  lift (throw_if (map_has (pi_tokenId input) (tokens s)) "payment token id already exists")
    ≫= fun _ =>
  match safe_between (pi_capMinor input) 1 MAX_CAP with
  | None => lift (Throw "cap must be a positive safe integer")
  | Some capMinor =>
      lift (requireActiveDevice (pi_trustedDeviceId input) (Some (pi_subjectId input)) (devices s))
        ≫= fun device =>
      let requestId := env_uuid e 0 in
      let token := {| pt_tokenId := pi_tokenId input; pt_subjectId := pi_subjectId input;
        pt_accountId := pi_accountId input; pt_state := t_pending;
        perTransactionCapMinor := Some capMinor; dailyCapMinor := Some (capMinor * 2) |} in
      smodify (fun s => set_tokens (map_set (pi_tokenId input) token (tokens s)) s) ≫= fun _ =>
      lift (transitionProvisioning requested risk_scored) ≫= fun state =>
      lift (transitionProvisioning state trusted_device_challenge) ≫= fun state =>
      on_challenges (create {|
        in_purpose := PROVISION_PAYMENT_TOKEN; in_subjectId := pi_subjectId input;
        in_accountId := pi_accountId input; in_paymentTokenId := pi_tokenId input;
        in_trustedDeviceId := td_deviceId device; in_transactionId := None;
        in_merchantId := None; in_amountMinor := None; in_currency := None;
        in_ttlMs := NInt 120000 |} (env_challengeId e) (or_now (pi_now input) e 0))
        ≫= fun challenge =>
      let request := {| pr_requestId := requestId; pr_tokenId := pi_tokenId input;
        pr_trustedDeviceId := td_deviceId device; pr_state := state;
        pr_challenge := challenge |} in
      smodify (fun s => set_provisioning (map_set requestId request (provisioning s)) s)
        ≫= fun _ =>
      audit_append "provisioning.challenge_created" requestId
        [ (js "requestId", JStr requestId); (js "tokenId", JStr (pi_tokenId input));
          (js "trustedDeviceId", JStr (td_deviceId device));
          (js "challengeId", JStr (challengeId challenge)) ]
        (or_now (pi_now input) e 1) (env_uuid e 1) ≫= fun _ =>
      mret request
  end.

Definition must_request (requestId : jstr) : M ProvisioningRequest :=
  sget ≫= fun s => lift (must "provisioning request" requestId (provisioning s)).

Definition approveProvisioning (requestId : jstr) (approval : SignedApproval)
    (nowArg : option Date) (activation : jstr) (e : Env) : M ProvisioningRequest :=
  let now := or_now nowArg e 0 in
  let capped := activation =s? "capped" in
  lift (throw_if (negb capped && negb (activation =s? "full")) "invalid activation mode")
    ≫= fun _ =>
  must_request requestId ≫= fun request =>
  sget ≫= fun s =>
  lift (requireActiveDevice (pr_trustedDeviceId request) None (devices s)) ≫= fun device =>
  lift (throw_if (negb (ap_keyId approval =s? td_keyId device)) "device key id mismatch")
    ≫= fun _ =>
  on_challenges (consume approval (td_publicKeyPem device) now (td_algorithm device)) ≫= fun _ =>
  set_request_state requestId approved ≫= fun _ =>
  set_request_state requestId (if capped then token_active_capped else token_active_full)
    ≫= fun _ =>
  sget ≫= fun s =>
  lift (must "payment token" (pr_tokenId request) (tokens s)) ≫= fun token =>
  set_token (pr_tokenId request)
    (set_pt_state (if capped then t_active_capped else t_active_full)) ≫= fun _ =>
  (if capped then mret tt else set_token (pr_tokenId request) clear_caps) ≫= fun _ =>
  audit_append "provisioning.approved" requestId
    [ (js "requestId", JStr requestId); (js "tokenId", JStr (pt_tokenId token));
      (js "challengeId", JStr (challengeId (ap_binding approval)));
      (js "activation", JStr activation) ] now (env_uuid e 0) ≫= fun _ =>
  must_request requestId.

(** ** Transactions *)

Definition must_transaction (transactionId : jstr) : M TransactionRecord :=
  sget ≫= fun s => lift (must "transaction" transactionId (transactions s)).

(** The daily reservation made for a capped token. *)
Definition reserve_spend (token : PaymentToken) (amountMinor : Z) (now : Date)
    : M CapReservation :=
  lift (toISOString now) ≫= fun at_ =>
  let day := take 10 at_ in
  let key := pt_tokenId token +:+ ":" +:+ day in
  sget ≫= fun s =>
  let nextTotal := num_add (default 0 (map_get key (dailySpend s))) amountMinor in
  lift (throw_if (default 0 (dailyCapMinor token) <? nextTotal)
          "transaction exceeds new-token daily cap") ≫= fun _ =>
  smodify (fun s => set_dailySpend (map_set key nextTotal (dailySpend s)) s) ≫= fun _ =>
  mret {| spendKey := key; cr_amountMinor := amountMinor |}.

Definition authorize (input : AuthorizeInput) (e : Env) : M TransactionRecord :=
  sget ≫= fun s =>
  lift (throw_if (map_has (ai_transactionId input) (transactions s))
          "transaction id already exists") ≫= fun _ =>
  match safe_between (ai_amountMinor input) 1 MAX_SAFE_INTEGER with
  | None => lift (Throw "transaction amount must be a positive safe integer")
  | Some amountMinor =>
      lift (throw_if (negb (existsb (jeqb (ai_strategy input)) STRATEGIES))
              "invalid transaction strategy") ≫= fun _ =>
      lift (must "payment token" (ai_tokenId input) (tokens s)) ≫= fun token =>
      lift (throw_if (bool_decide (pt_state token = t_pending) ||
                      bool_decide (pt_state token = t_declined))
              "payment token is not spendable") ≫= fun _ =>
      lift (requireActiveDevice (ai_trustedDeviceId input) (Some (pt_subjectId token)) (devices s))
        ≫= fun _ =>
      let capped := bool_decide (pt_state token = t_active_capped) in
      lift (throw_if (capped && (default 0 (perTransactionCapMinor token) <? amountMinor))
              "transaction exceeds new-token cap") ≫= fun _ =>
      (if capped then
         reserve_spend token amountMinor (or_now (ai_now input) e 0) ≫= fun r => mret (Some r)
       else mret None) ≫= fun reservation =>
      lift (transitionTransaction received confirmation_pending) ≫= fun state =>
      on_challenges (create {|
        in_purpose := CONFIRM_TRANSACTION; in_subjectId := pt_subjectId token;
        in_accountId := pt_accountId token; in_paymentTokenId := pt_tokenId token;
        in_trustedDeviceId := ai_trustedDeviceId input;
        in_transactionId := Some (ai_transactionId input);
        in_merchantId := Some (ai_merchantId input); in_amountMinor := Some amountMinor;
        in_currency := Some (js "USD"); in_ttlMs := NInt 30000 |}
        (env_challengeId e) (or_now (ai_now input) e 1)) ≫= fun challenge =>
      let transaction := {| tx_transactionId := ai_transactionId input;
        tx_tokenId := pt_tokenId token; tx_merchantId := ai_merchantId input;
        tx_amountMinor := amountMinor; tx_currency := "USD"; tx_state := state;
        tx_strategy := ai_strategy input; tx_challenge := Some challenge;
        capReservation := reservation |} in
      smodify (fun s => set_transactions
        (map_set (ai_transactionId input) transaction (transactions s)) s) ≫= fun _ =>
      audit_append "transaction.confirmation_pending" (ai_transactionId input)
        [ (js "strategy", JStr (ai_strategy input));
          (js "challengeId", JStr (challengeId challenge));
          (js "amountMinor", JNum (NInt amountMinor));
          (js "merchantId", JStr (ai_merchantId input)) ]
        (or_now (ai_now input) e 2) (env_uuid e 0) ≫= fun _ =>
      mret transaction
  end.

Definition must_challenge (t : TransactionRecord) : result ChallengeBinding :=
  match tx_challenge t with
  | Some b => Ok b
  | None => Throw "transaction has no challenge"
  end.

Definition confirmTransaction (transactionId : jstr) (approval : SignedApproval)
    (nowArg : option Date) (e : Env) : M TransactionRecord :=
  let now := or_now nowArg e 0 in
  must_transaction transactionId ≫= fun transaction =>
  lift (must_challenge transaction) ≫= fun challenge =>
  sget ≫= fun s =>
  lift (requireActiveDevice (trustedDeviceId challenge) None (devices s)) ≫= fun device =>
  lift (throw_if (negb (ap_keyId approval =s? td_keyId device)) "device key id mismatch")
    ≫= fun _ =>
  on_challenges (consume approval (td_publicKeyPem device) now (td_algorithm device)) ≫= fun _ =>
  set_transaction_state transactionId confirmed ≫= fun _ =>
  audit_append "transaction.confirmed" transactionId
    [ (js "challengeId", JStr (challengeId (ap_binding approval)));
      (js "strategy", JStr (tx_strategy transaction)) ] now (env_uuid e 0) ≫= fun _ =>
  must_transaction transactionId.

Definition expireAndReverse (transactionId : jstr) (nowArg : option Date) (e : Env)
    : M TransactionRecord :=
  let now := or_now nowArg e 0 in
  must_transaction transactionId ≫= fun transaction =>
  lift (must_challenge transaction) ≫= fun challenge =>
  on_challenges (cancel (challengeId challenge) now) ≫= fun _ =>
  set_transaction_state transactionId expired ≫= fun _ =>
  set_transaction_state transactionId reversal_requested ≫= fun _ =>
  set_transaction_state transactionId reversed ≫= fun _ =>
  releaseCapReservation transactionId ≫= fun _ =>
  audit_append "transaction.reversed_after_timeout" transactionId
    [ (js "strategy", JStr (tx_strategy transaction));
      (js "settlementPrevented", JBool false) ] now (env_uuid e 0) ≫= fun _ =>
  must_transaction transactionId.

Definition receiveClearing (transactionId : jstr) (nowArg : option Date) (e : Env)
    : M TransactionRecord :=
  let now := or_now nowArg e 0 in
  must_transaction transactionId ≫= fun transaction =>
  let reversedBeforeClearing :=
    includes [expired; reversal_requested; reversed] (tx_state transaction) in
  set_transaction_state transactionId clearing_received ≫= fun _ =>
  let final := if reversedBeforeClearing then exception else settled in
  set_transaction_state transactionId final ≫= fun _ =>
  audit_append "transaction.clearing_received" transactionId
    [ (js "resultingState", JStr (transaction_state_name final));
      (js "reversedBeforeClearing", JBool reversedBeforeClearing) ] now (env_uuid e 0)
    ≫= fun _ =>
  must_transaction transactionId.

Definition getToken (tokenId : jstr) (s : AirlockEngine) : option PaymentToken :=
  map_get tokenId (tokens s).
Definition getTransaction (transactionId : jstr) (s : AirlockEngine) : option TransactionRecord :=
  map_get transactionId (transactions s).
End engine.

(** ** Snapshots *)

Section engine_snapshots.
Context `{Host}.

Definition snapshot (keyProvider : option AuditKeyProvider) (s : AirlockEngine)
    : AirlockEngineSnapshot :=
  {| es_schemaVersion := 2;
     es_audit := AuditLog.snapshot keyProvider (audit s);
     es_challenges := ChallengeStore.snapshot (challenges s);
     es_devices := (devices s).*2;
     es_tokens := (tokens s).*2;
     es_provisioning := (provisioning s).*2;
     es_transactions := (transactions s).*2;
     es_dailySpend := dailySpend s |}.

(** [#restoreUnique] *)
Definition restoreUnique {V} (label key : jstr) (v : V) (m : list (jstr * V))
    : result (list (jstr * V)) :=
  throw_if (map_has key m) ("duplicate " +:+ label +:+ " in snapshot") ≫= fun _ =>
  Ok (map_set key v m).

Definition assertStoredChallengeMatches (binding : ChallengeBinding) (cs : store) : result unit :=
  (match get (challengeId binding) cs with
   | Some r => canonicalizeBinding (binding_value (rec_binding r)) ≫= fun bs => Ok (Some bs)
   | None => Ok None
   end) ≫= fun stored =>
  canonicalizeBinding (binding_value binding) ≫= fun reference =>
  throw_if (negb (bool_decide (stored = Some reference))) "snapshot challenge reference mismatch".

(** The challenge statuses each lifecycle state could have produced. *)
Definition provisioning_statuses (st : ProvisioningState) : list ChallengeStatus :=
  match st with
  | requested | risk_scored | trusted_device_challenge => [c_created]
  | approved | token_active_capped | token_active_full => [c_confirmed]
  | p_declined => [c_cancelled; c_expired]
  | p_expired => [c_expired]
  end.

Definition transaction_statuses (st : TransactionState) : list ChallengeStatus :=
  match st with
  | received | confirmation_pending => [c_created]
  | confirmed => [c_confirmed]
  | declined | expired => [c_cancelled; c_expired]
  | reversal_requested | reversed | clearing_received | exception =>
      [c_confirmed; c_cancelled; c_expired]
  | settled => [c_confirmed]
  end.

Definition status_expected (expected : list ChallengeStatus) (id : jstr) (cs : store) : bool :=
  match get id cs with Some r => bool_decide (status r ∈ expected) | None => false end.

Definition assertProvisioningChallengeStatus (r : ProvisioningRequest) (cs : store) : result unit :=
  throw_if (negb (status_expected (provisioning_statuses (pr_state r))
                    (challengeId (pr_challenge r)) cs))
    "provisioning lifecycle/challenge status mismatch".

Definition assertTransactionChallengeStatus (t : TransactionRecord) (b : ChallengeBinding)
    (cs : store) : result unit :=
  throw_if (negb (status_expected (transaction_statuses (tx_state t)) (challengeId b) cs))
    "transaction lifecycle/challenge status mismatch".

Definition restore_device (d : TrustedDevice) (ds : list (jstr * TrustedDevice))
    : result (list (jstr * TrustedDevice)) :=
  throw_if (negb (td_algorithm d =s? APPROVAL_ALGORITHM))
    "invalid trusted device snapshot" ≫= fun _ =>
  validatePublicKeyProfile (td_publicKeyPem d) (td_algorithm d) ≫= fun _ =>
  throw_if (map_has (td_deviceId d) ds) "duplicate trusted device in snapshot" ≫= fun _ =>
  assertKeyIdAvailable (td_keyId d) None ds ≫= fun _ =>
  assertPublicKeyAvailable (td_publicKeyPem d) (td_algorithm d) None ds ≫= fun _ =>
  restoreUnique "trusted device" (td_deviceId d) d ds.

(** A cap must be a positive safe integer. *)
Definition good_cap (o : option Z) : bool :=
  match o with Some z => safe_int z && (0 <? z) | None => false end.

Definition restore_token (t : PaymentToken) (ts : list (jstr * PaymentToken))
    : result (list (jstr * PaymentToken)) :=
  throw_if (bool_decide (pt_state t = t_active_capped) &&
            (negb (good_cap (perTransactionCapMinor t)) || negb (good_cap (dailyCapMinor t))))
    "invalid capped token snapshot" ≫= fun _ =>
  restoreUnique "payment token" (pt_tokenId t) t ts.

Definition restore_request (s : AirlockEngine) (r : ProvisioningRequest)
    (rs : list (jstr * ProvisioningRequest)) : result (list (jstr * ProvisioningRequest)) :=
  let b := pr_challenge r in
  throw_if (match map_get (pr_tokenId r) (tokens s), map_get (pr_trustedDeviceId r) (devices s),
                  get (challengeId b) (challenges s) with
            | Some token, Some device, Some _ =>
                negb (purpose b =s? PROVISION_PAYMENT_TOKEN) ||
                negb (paymentTokenId b =s? pr_tokenId r) ||
                negb (trustedDeviceId b =s? pr_trustedDeviceId r) ||
                negb (subjectId b =s? pt_subjectId token) ||
                negb (accountId b =s? pt_accountId token) ||
                negb (td_subjectId device =s? pt_subjectId token)
            | _, _, _ => true
            end) "invalid provisioning snapshot" ≫= fun _ =>
  assertStoredChallengeMatches b (challenges s) ≫= fun _ =>
  assertProvisioningChallengeStatus r (challenges s) ≫= fun _ =>
  restoreUnique "provisioning request" (pr_requestId r) r rs.

Definition invalid_transaction (s : AirlockEngine) (t : TransactionRecord)
    (b : ChallengeBinding) : bool :=
  match map_get (tx_tokenId t) (tokens s), map_get (trustedDeviceId b) (devices s) with
  | Some token, Some device =>
      negb (safe_int (tx_amountMinor t)) || (tx_amountMinor t <=? 0) ||
      negb (tx_currency t =s? "USD") || negb (existsb (jeqb (tx_strategy t)) STRATEGIES) ||
      negb (purpose b =s? CONFIRM_TRANSACTION) ||
      negb (bool_decide (transactionId b = Some (tx_transactionId t))) ||
      negb (paymentTokenId b =s? tx_tokenId t) ||
      negb (subjectId b =s? pt_subjectId token) ||
      negb (accountId b =s? pt_accountId token) ||
      negb (bool_decide (merchantId b = Some (tx_merchantId t))) ||
      negb (bool_decide (amountMinor b = Some (tx_amountMinor t))) ||
      negb (bool_decide (currency b = Some (tx_currency t))) ||
      negb (td_subjectId device =s? pt_subjectId token)
  | _, _ => true
  end.

Definition restore_transaction (s : AirlockEngine) (t : TransactionRecord)
    (ts : list (jstr * TransactionRecord)) : result (list (jstr * TransactionRecord)) :=
  match tx_challenge t with
  | None => Throw "invalid transaction snapshot"
  | Some b =>
      throw_if (invalid_transaction s t b) "invalid transaction snapshot" ≫= fun _ =>
      assertStoredChallengeMatches b (challenges s) ≫= fun _ =>
      assertTransactionChallengeStatus t b (challenges s) ≫= fun _ =>
      restoreUnique "transaction" (tx_transactionId t) t ts
  end.

(** [s.lastIndexOf(c)] *)
Fixpoint lastIndexOf (c : N) (s : jstr) : option nat :=
  match s with
  | [] => None
  | x :: s => match lastIndexOf c s with
              | Some i => Some (S i)
              | None => if (x =? c)%N then Some O else None
              end
  end.

(** [/^\d{4}-\d{2}-\d{2}$/] *)
Definition day_pattern (d : jstr) : bool :=
  match d with
  | [y1; y2; y3; y4; c1; m1; m2; c2; d1; d2] =>
      forallb is_digit [y1; y2; y3; y4; m1; m2; d1; d2] && (c1 =? 45)%N && (c2 =? 45)%N
  | _ => false
  end.

Definition restore_spend (s : AirlockEngine) (p : jstr * Z) (m : list (jstr * Z))
    : result (list (jstr * Z)) :=
  let '(key, amountMinor) := p in
  let '(tokenId, day) := match lastIndexOf 58 key with
                         | Some (S i) => (take (S i) key, drop (S (S i)) key)
                         | _ => ([], [])
                         end in
  throw_if (match map_get tokenId (tokens s) with
            | Some token => negb (bool_decide (pt_state token = t_active_capped))
            | None => true
            end || negb (day_pattern day)) "invalid daily-spend snapshot" ≫= fun _ =>
  toISOString (date_parse (day +:+ "T00:00:00.000Z")) ≫= fun iso =>
  throw_if (negb (take 10 iso =s? day) || negb (safe_int amountMinor) || (amountMinor <=? 0) ||
            map_has key m) "invalid daily-spend snapshot" ≫= fun _ =>
  Ok (map_set key amountMinor m).

(** One transaction's share of the reserved spend. *)
Definition reserve_entry (t : TransactionRecord) (m : list (jstr * Z)) : result (list (jstr * Z)) :=
  match capReservation t with
  | None => Ok m
  | Some r =>
      match tx_challenge t with
      | None => Throw "TypeError"
      | Some b =>
          throw_if (negb (safe_int (cr_amountMinor r)) || (cr_amountMinor r <=? 0) ||
                    negb (spendKey r =s? tx_tokenId t +:+ ":" +:+ take 10 (issuedAt b)))
            "invalid cap reservation snapshot" ≫= fun _ =>
          Ok (map_set (spendKey r)
                (num_add (default 0 (map_get (spendKey r) m)) (cr_amountMinor r)) m)
      end
  end.

(** [for (const x of l) m = f(x, m)] *)
Fixpoint restore_all {A B} (f : A -> B -> result B) (l : list A) (m : B) : result B :=
  match l with
  | [] => Ok m
  | x :: l => f x m ≫= fun m => restore_all f l m
  end.

Definition same_spend (reserved spend : list (jstr * Z)) : bool :=
  (length reserved =? length spend)%nat &&
  forallb (fun p => bool_decide (map_get p.1 spend = Some p.2)) reserved.

Definition restore (snap : AirlockEngineSnapshot) : result AirlockEngine :=
  throw_if (negb (es_schemaVersion snap =? 2)) "invalid engine snapshot" ≫= fun _ =>
  AuditLog.restore (es_audit snap) None ≫= fun log =>
  ChallengeStore.restore (es_challenges snap) ≫= fun cs =>
  restore_all restore_device (es_devices snap) [] ≫= fun ds =>
  restore_all restore_token (es_tokens snap) [] ≫= fun ts =>
  let s := {| audit := log; challenges := cs; devices := ds; tokens := ts;
              provisioning := []; transactions := []; dailySpend := [] |} in
  restore_all (restore_request s) (es_provisioning snap) [] ≫= fun rs =>
  restore_all (restore_transaction s) (es_transactions snap) [] ≫= fun xs =>
  restore_all (restore_spend s) (es_dailySpend snap) [] ≫= fun sp =>
  restore_all reserve_entry xs.*2 [] ≫= fun reserved =>
  throw_if (negb (same_spend reserved sp))
    "daily-spend snapshot does not match reservations" ≫= fun _ =>
  Ok {| audit := log; challenges := cs; devices := ds; tokens := ts;
        provisioning := rs; transactions := xs; dailySpend := sp |}.
End engine_snapshots.
