(* ===== verification/EngineSteps.v ===== *)
(** EngineSteps: the calls of the engine as a step relation on its state, the
    rules for properties that every call keeps, and a run of the engine on
    concrete inputs. *)
From stdpp Require Import relations.
From S2P Require Import Prelude JsString JsMap Host TestHost JsTime JsJson Transitions Protocol DeviceKeys AuditLog ChallengeStore Engine.
#[local] Open Scope string_scope.
#[local] Open Scope list_scope.
#[local] Open Scope Z_scope.
#[local] Open Scope js_scope.

Lemma keeps_collect (I : AirlockEngine -> Prop) {A} (f : A -> St AirlockEngine (list jstr)) l :
  (forall x, keeps I (f x)) -> keeps I (collect f l).
Proof.
  intros Hf. induction l as [|x l IH]; cbn [collect]; [apply keeps_ret|].
  apply keeps_bind; [done|]. intros ids. apply keeps_bind; [done|]. intros rest. apply keeps_ret.
Qed.

(** ** The calls of the engine *)

Inductive engine_op : Type :=
| do_enroll (subjectId : jstr) (keys : EnrollKeys) (deviceId : option jstr) (e : Env)
| do_revoke (deviceId : jstr) (now : option Date) (e : Env)
| do_compromise (deviceId : jstr) (now : option Date) (e : Env)
| do_rotate (deviceId : jstr) (keys : EnrollKeys) (now : option Date) (e : Env)
| do_request (input : ProvisioningInput) (e : Env)
| do_approve (requestId : jstr) (a : SignedApproval) (now : option Date) (activation : jstr) (e : Env)
| do_authorize (input : AuthorizeInput) (e : Env)
| do_confirm (transactionId : jstr) (a : SignedApproval) (now : option Date) (e : Env)
| do_expire (transactionId : jstr) (now : option Date) (e : Env)
| do_clear (transactionId : jstr) (now : option Date) (e : Env).

(** The state a call leaves, whether it returned or threw. *)
Definition run_op `{Host} (kp : option AuditKeyProvider) (o : engine_op) (s : AirlockEngine)
    : AirlockEngine :=
  match o with
  | do_enroll subjectId keys deviceId e => (enrollTrustedDevice kp subjectId keys deviceId e s).2
  | do_revoke deviceId now e => (revokeTrustedDevice kp deviceId now e s).2
  | do_compromise deviceId now e => (markTrustedDeviceCompromised kp deviceId now e s).2
  | do_rotate deviceId keys now e => (rotateTrustedDeviceKey kp deviceId keys now e s).2
  | do_request input e => (requestProvisioning kp input e s).2
  | do_approve requestId a now activation e =>
      (approveProvisioning kp requestId a now activation e s).2
  | do_authorize input e => (authorize kp input e s).2
  | do_confirm transactionId a now e => (confirmTransaction kp transactionId a now e s).2
  | do_expire transactionId now e => (expireAndReverse kp transactionId now e s).2
  | do_clear transactionId now e => (receiveClearing kp transactionId now e s).2
  end.

(** Any call, with whatever keys the audit log authenticates with. *)
Inductive engine_step `{Host} : AirlockEngine -> AirlockEngine -> Prop :=
| engine_call kp o s : engine_step s (run_op kp o s).

Definition empty_engine : AirlockEngine :=
  {| audit := []; challenges := []; devices := []; tokens := []; provisioning := [];
     transactions := []; dailySpend := [] |}.

(** ** A run on concrete inputs *)

Section sample_run.
#[local] Existing Instance test_host.

Definition at_time (t : Z) (id : string) : Env :=
  {| env_uuid := fun i => js id +:+ decimal (N.of_nat i); env_challengeId := js id;
     env_clock := fun _ => Some t |}.

Definition sample_sign (b : ChallengeBinding) : SignedApproval :=
  match signApproval b "key-1" sample_pem APPROVAL_ALGORITHM with
  | Ok a => a
  | Throw _ => {| ap_binding := b; ap_keyId := []; ap_algorithm := []; ap_signature := [] |}
  end.

(** The approval of the challenge held under [id]. *)
Definition sample_approve (id : string) (s : AirlockEngine) : SignedApproval :=
  sample_sign (match map_get (js id) (challenges s) with
               | Some r => rec_binding r | None => sample_binding end).

Definition enroll_1 : engine_op :=
  do_enroll "subject-1" {| ek_keyId := "key-1"; ek_algorithm := APPROVAL_ALGORITHM;
    ek_publicKeyPem := sample_pem |} (Some (js "device-1")) (at_time noon "enroll").
Definition request_1 : engine_op :=
  do_request {| pi_subjectId := "subject-1"; pi_accountId := "account-1";
    pi_tokenId := "token-1"; pi_trustedDeviceId := "device-1"; pi_capMinor := NInt 1000;
    pi_now := None |} (at_time noon "request").
Definition authorize_1 : engine_op :=
  do_authorize {| ai_transactionId := "tx-1"; ai_tokenId := "token-1";
    ai_merchantId := "merchant-1"; ai_amountMinor := NInt 500;
    ai_strategy := "provisional_monitoring"; ai_trustedDeviceId := "device-1";
    ai_now := None |} (at_time noon "authorize").

Definition state_1 : AirlockEngine := run_op None enroll_1 empty_engine.
Definition state_2 : AirlockEngine := run_op None request_1 state_1.
Definition approve_1 : engine_op :=
  do_approve "request0" (sample_approve "request" state_2) (Some (Some (noon + 1000))) "capped"
    (at_time noon "approve").
Definition state_3 : AirlockEngine := run_op None approve_1 state_2.
Definition state_4 : AirlockEngine := run_op None authorize_1 state_3.
Definition confirm_1 : engine_op :=
  do_confirm "tx-1" (sample_approve "authorize" state_4) (Some (Some (noon + 1000)))
    (at_time noon "confirm").
Definition state_5 : AirlockEngine := run_op None confirm_1 state_4.

Lemma rtc_call kp o s0 s : rtc engine_step s0 s -> rtc engine_step s0 (run_op kp o s).
Proof. intros Hs. eapply rtc_r; [exact Hs|constructor]. Qed.

Lemma sample_run_4 : rtc engine_step empty_engine state_4.
Proof. exact (rtc_call _ _ _ _ (rtc_call _ _ _ _ (rtc_call _ _ _ _ (rtc_call _ _ _ _ (rtc_refl _ _))))). Qed.

Lemma sample_run_5 : rtc engine_step empty_engine state_5.
Proof. exact (rtc_call _ _ _ _ sample_run_4). Qed.
End sample_run.
