(* ===== verification/EngineCap.v ===== *)
(** EngineCap: the spending caps of the engine.  In every state any sequence of
    calls can reach, failed calls included, the reservations counted against a
    token and a day fit in the recorded spend, which fits in the daily cap. *)
From stdpp Require Import relations.
From S2P Require Import Prelude JsString JsMap Host TestHost JsTime JsJson Transitions Protocol DeviceKeys AuditLog ChallengeStore Engine EngineSteps.
#[local] Open Scope string_scope.
#[local] Open Scope list_scope.
#[local] Open Scope Z_scope.
#[local] Open Scope js_scope.

(** ** Reserved amounts *)

Definition share (k : jstr) (t : TransactionRecord) : Z :=
  match capReservation t with
  | Some r => if bool_decide (spendKey r = k) then cr_amountMinor r else 0
  | None => 0
  end.

Fixpoint reserved (k : jstr) (m : list (jstr * TransactionRecord)) : Z :=
  match m with
  | [] => 0
  | (_, t) :: m => share k t + reserved k m
  end.

Lemma reserved_set k id t m :
  reserved k (map_set id t m) =
  reserved k m - match map_get id m with Some u => share k u | None => 0 end + share k t.
Proof.
  induction m as [|[i u] m IH]; cbn; [lia|]. case_bool_decide; cbn; [lia|]. rewrite IH. lia.
Qed.

Lemma reserved_update k id f m :
  (forall t, share k (f t) = share k t) -> reserved k (map_update id f m) = reserved k m.
Proof.
  intros Hf. unfold map_update. destruct (map_get id m) as [t|] eqn:E; [|done].
  rewrite reserved_set, E, Hf. lia.
Qed.

Lemma reserved_app k m1 m2 : reserved k (m1 ++ m2) = reserved k m1 + reserved k m2.
Proof. induction m1 as [|[i t] m1 IH]; cbn; [done|]. rewrite IH. lia. Qed.

(** The spend recorded under a key. *)
Definition spent (k : jstr) (s : AirlockEngine) : Z := default 0 (map_get k (dailySpend s)).

Definition day_key (tokenId day : jstr) : jstr := tokenId +:+ ":" +:+ day.

Lemma day_key_inj t1 d1 t2 d2 :
  length d1 = length d2 -> day_key t1 d1 = day_key t2 d2 -> t1 = t2 /\ d1 = d2.
Proof.
  unfold day_key. intros Hl E. apply app_inj_2 in E as [-> E]; [|by rewrite !length_app, Hl].
  split; [done|]. by apply app_inv_head in E.
Qed.

Lemma iso_day_length t : length (take 10 (iso_string t)) = 10%nat.
Proof.
  unfold iso_string. destruct (civil_from_days _) as [[y m] d].
  rewrite length_take, !length_app, !digits_length.
  assert (4 <= length (iso_year y))%nat; [|lia].
  unfold iso_year. case_match; [by rewrite digits_length|].
  change (4 <= S (length (digits 6 (Z.abs y))))%nat. rewrite digits_length. lia.
Qed.

Record cap_inv (s : AirlockEngine) : Prop := {
  ci_key : forall id t, map_get id (tokens s) = Some t -> pt_tokenId t = id;
  ci_cap : forall id t c, map_get id (tokens s) = Some t -> dailyCapMinor t = Some c ->
    0 < c <= MAX_SAFE_INTEGER;
  ci_spend : forall k v, map_get k (dailySpend s) = Some v -> 0 < v <= MAX_SAFE_INTEGER;
  ci_amount : forall id t r, map_get id (transactions s) = Some t -> capReservation t = Some r ->
    0 < cr_amountMinor r <= MAX_SAFE_INTEGER;
  ci_reserved : forall k, reserved k (transactions s) <= spent k s;
  ci_fresh : forall id d, map_get id (tokens s) = None -> length d = 10%nat ->
    map_get (day_key id d) (dailySpend s) = None;
  ci_bound : forall id t c d, map_get id (tokens s) = Some t -> dailyCapMinor t = Some c ->
    length d = 10%nat -> spent (day_key id d) s <= c;
}.

Section preservation.
Context `{Host}.
Variable kp : option AuditKeyProvider.

(** The invariant reads the tokens, the transactions and the spend only. *)
Lemma cap_frame s s' :
  tokens s' = tokens s -> transactions s' = transactions s -> dailySpend s' = dailySpend s ->
  cap_inv s -> cap_inv s'.
Proof.
  intros Et Ex Ed []. split; unfold spent in *; rewrite ?Et, ?Ex, ?Ed; auto.
Qed.

Lemma keeps_audit ty corr pl now uuid : keeps cap_inv (audit_append kp ty corr pl now uuid).
Proof.
  unfold audit_append, on_audit. keeps_steps; try done.
  apply keeps_zoom. intros s t. by apply cap_frame.
Qed.

Lemma keeps_challenges {A} (m : St store A) : keeps cap_inv (on_challenges m).
Proof. apply keeps_zoom. intros s t. by apply cap_frame. Qed.

Lemma keeps_set_request_state id st : keeps cap_inv (set_request_state id st).
Proof. unfold set_request_state. keeps_steps. eapply cap_frame; [..|eassumption]; done. Qed.

Lemma cap_update_transaction id f s :
  (forall t, capReservation (f t) = capReservation t) -> cap_inv s ->
  cap_inv (set_transactions (map_update id f (transactions s)) s).
Proof.
  intros Hf []. split; cbn; try done.
  - intros i t r. rewrite map_get_update. case_bool_decide; [|by eauto].
    subst. destruct (map_get id (transactions s)) as [u|] eqn:E; cbn; [|done].
    intros [= <-]. rewrite Hf. by eauto.
  - intros k. rewrite reserved_update; [by auto|]. intros t. unfold share. by rewrite Hf.
Qed.

Lemma keeps_set_transaction_state id st : keeps cap_inv (set_transaction_state id st).
Proof. unfold set_transaction_state. keeps_steps. by apply cap_update_transaction. Qed.

Lemma keeps_set_token id f :
  (forall t, pt_tokenId (f t) = pt_tokenId t /\
             (dailyCapMinor (f t) = dailyCapMinor t \/ dailyCapMinor (f t) = None)) ->
  keeps cap_inv (set_token id f).
Proof.
  intros Hf. unfold set_token. keeps_steps. destruct H0.
  assert (Hup : forall i t, map_get i (map_update id f (tokens s)) = Some t ->
    exists u, map_get i (tokens s) = Some u /\ pt_tokenId t = pt_tokenId u /\
      (dailyCapMinor t = dailyCapMinor u \/ dailyCapMinor t = None)).
  { intros i t. rewrite map_get_update. case_bool_decide; [|by eauto 10].
    destruct (map_get i (tokens s)) as [u|]; [|done]. cbn. intros [= <-].
    exists u. split; [done|]. apply Hf. }
  split; cbn; try done.
  - intros i t (u & Hu & -> & _)%Hup. by eauto.
  - intros i t c (u & Hu & _ & [E|E])%Hup; rewrite E; [by eauto|done].
  - intros i d. rewrite map_get_update. case_bool_decide; [|by eauto].
    destruct (map_get i (tokens s)) eqn:E; [done|]. by eauto.
  - intros i t c d (u & Hu & _ & [E|E])%Hup; rewrite E; [|done]. unfold spent in *. by eauto.
Qed.

Lemma keeps_release id : keeps cap_inv (releaseCapReservation id).
Proof.
  unfold releaseCapReservation. apply keeps_read. intros s Hs.
  destruct (map_get id (transactions s)) as [t|] eqn:Et; [|done]. cbn [mbind option_bind].
  destruct (capReservation t) as [r|] eqn:Er; [|done].
  cbv zeta. cbv [mbind St_bind smodify]. cbn [snd].
  destruct Hs. pose proof (ci_amount0 _ _ _ Et Er) as Ha.
  set (k := spendKey r) in *. set (v := spent k s).
  assert (Hv : 0 <= v <= MAX_SAFE_INTEGER).
  { subst v. unfold spent. destruct (map_get k (dailySpend s)) as [z|] eqn:E; cbn; [|done].
    specialize (ci_spend0 _ _ E). lia. }
  assert (Hsub : num_sub v (cr_amountMinor r) = v - cr_amountMinor r).
  { apply round53_small. unfold MAX_SAFE_INTEGER in *. lia. }
  change (default 0 (map_get k (dailySpend s))) with v. rewrite Hsub.
  set (w := Z.max 0 (v - cr_amountMinor r)).
  set (sp := if w =? 0 then map_delete k (dailySpend s) else map_set k w (dailySpend s)).
  assert (Hsp : forall k', map_get k' sp =
    if bool_decide (k' = k) then (if w =? 0 then None else Some w)
    else map_get k' (dailySpend s)).
  { intros k'. subst sp. destruct (w =? 0); [rewrite map_get_delete|rewrite map_get_set]; done. }
  assert (Hk : default 0 (map_get k sp) = w).
  { rewrite Hsp, bool_decide_true by done. destruct (Z.eqb_spec w 0); cbn; lia. }
  assert (Hres : forall k', reserved k' (map_update id drop_reservation (transactions s)) =
    reserved k' (transactions s) - share k' t).
  { intros k'. unfold map_update. rewrite Et, reserved_set, Et. unfold share. cbn. lia. }
  split; cbn; try done.
  - intros k' z. rewrite Hsp. case_bool_decide; [|by eauto].
    destruct (Z.eqb_spec w 0); [done|]. intros [= <-]. lia.
  - intros i u ru. rewrite map_get_update. case_bool_decide; [|by eauto].
    subst. rewrite Et. cbn. by intros [= <-].
  - intros k'. rewrite Hres. specialize (ci_reserved0 k'). unfold share. rewrite Er. fold k.
    unfold spent in *; cbn. destruct (decide (k = k')) as [<-|Hne].
    + rewrite bool_decide_true, Hk by done. fold v in ci_reserved0. subst w. lia.
    + rewrite bool_decide_false, Hsp, bool_decide_false by congruence. lia.
  - intros i d Hi Hd. rewrite Hsp. specialize (ci_fresh0 _ _ Hi Hd).
    case_bool_decide as Ek; [|done]. assert (v = 0) as Hv0.
    { subst v. unfold spent. by rewrite <-Ek, ci_fresh0. }
    replace w with 0 by lia. done.
  - intros i u c d Hi Hc Hd. specialize (ci_bound0 _ _ _ _ Hi Hc Hd).
    specialize (ci_cap0 _ _ _ Hi Hc). unfold spent in *; cbn.
    destruct (decide (day_key i d = k)) as [E|Hne].
    + rewrite E, Hk. rewrite E in ci_bound0. fold v in ci_bound0. subst w. lia.
    + by rewrite Hsp, bool_decide_false.
Qed.

(** Calls whose state changes the lemmas above cover. *)
Ltac keeps_cap :=
  keeps_steps;
  repeat first
    [ apply keeps_audit | apply keeps_challenges | apply keeps_set_request_state
    | apply keeps_set_transaction_state | apply keeps_release
    | apply keeps_set_token; intros; by auto
    | (eapply cap_frame; [..|eassumption]; done) ].

Lemma keeps_settle id c now : keeps cap_inv (settle_challenge id c now).
Proof. unfold settle_challenge. destruct (status <$> c) as [[]|]; keeps_cap. Qed.

Lemma keeps_invalidate deviceId now : keeps cap_inv (invalidateOutstandingChallenges deviceId now).
Proof.
  unfold invalidateOutstandingChallenges. keeps_steps; apply keeps_collect; intros [[? ?] ?];
    unfold invalidate_request, invalidate_transaction; keeps_steps;
    try apply keeps_settle; keeps_cap.
Qed.

Lemma keeps_device_update id f : keeps cap_inv (device_update id f).
Proof. unfold device_update. keeps_cap. Qed.

Lemma keeps_must_device id : keeps cap_inv (must_device id).
Proof. unfold must_device. keeps_cap. Qed.

Ltac keeps_all :=
  keeps_steps;
  repeat first [ apply keeps_must_device | apply keeps_invalidate | apply keeps_device_update ];
  keeps_cap.

Lemma cap_new_token id t c s :
  map_get id (tokens s) = None -> pt_tokenId t = id -> dailyCapMinor t = Some c ->
  0 < c <= MAX_SAFE_INTEGER -> cap_inv s -> cap_inv (set_tokens (map_set id t (tokens s)) s).
Proof.
  intros Hn Hid Hc Hle []. split; cbn; try done.
  - intros i u. rewrite map_get_set. case_bool_decide; [by intros [= <-]; subst|by eauto].
  - intros i u cu. rewrite map_get_set. case_bool_decide; [|by eauto].
    intros [= <-]. rewrite Hc. by intros [= <-].
  - intros i d. rewrite map_get_set. case_bool_decide; [done|by eauto].
  - intros i u cu d. rewrite map_get_set. unfold spent in *. case_bool_decide; [|by eauto].
    intros [= <-]. rewrite Hc. intros [= <-] Hd. subst i. cbn. rewrite (ci_fresh0 _ _ Hn Hd). cbn. lia.
Qed.

Lemma keeps_request input e : keeps cap_inv (requestProvisioning kp input e).
Proof.
  unfold requestProvisioning. apply keeps_read. intros s Hs.
  apply at_lift_bind; [done|]. intros [] Hh%throw_if_Ok.
  destruct (safe_between _ _ _) as [c|] eqn:Ec; [|done].
  apply safe_between_Some in Ec as (_ & _ & Hc).
  apply at_lift_bind; [done|]. intros device _. cbv zeta.
  apply at_modify_bind.
  match goal with |- cap_inv (?m _).2 => assert (Hk : keeps cap_inv m); [|apply Hk] end.
  { keeps_all. }
  unfold map_has in Hh. apply (cap_new_token _ _ (c * 2)); try done.
  - by destruct (map_get _ _).
  - unfold MAX_CAP, MAX_SAFE_INTEGER in *. lia.
Qed.

(** A reservation already counted in the spend, its transaction not yet recorded. *)
Definition reservable (o : option CapReservation) (s : AirlockEngine) : Prop :=
  match o with
  | None => True
  | Some r => 0 < cr_amountMinor r <= MAX_SAFE_INTEGER /\
              reserved (spendKey r) (transactions s) + cr_amountMinor r <= spent (spendKey r) s
  end.

Lemma reserve_spend_outcome token amount now s :
  cap_inv s -> map_get (pt_tokenId token) (tokens s) = Some token ->
  0 < amount <= MAX_SAFE_INTEGER ->
  let '(r, s') := reserve_spend token amount now s in
  cap_inv s' /\ transactions s' = transactions s /\
  match r with
  | Ok c => cr_amountMinor c = amount /\ reservable (Some c) s' /\
            exists t, now = Some t /\
              spendKey c = day_key (pt_tokenId token) (take 10 (iso_string t)) /\
              spent (spendKey c) s' = spent (spendKey c) s + amount /\
              spent (spendKey c) s' <= default 0 (dailyCapMinor token)
  | Throw _ => s' = s
  end.
Proof.
  intros Hs Ht Ha. unfold reserve_spend. destruct now as [t|]; [|done].
  cbv [mbind St_bind lift sget smodify mret St_ret]. cbn [toISOString].
  set (day := take 10 (iso_string t)). fold (day_key (pt_tokenId token) day).
  set (k := day_key (pt_tokenId token) day).
  assert (Hday : length day = 10%nat) by apply iso_day_length.
  pose proof Hs as [Ckey Ccap Cspend Camt Cres Cfresh Cbound].
  unfold throw_if. destruct (_ <? _) eqn:Hle; [done|]. apply Z.ltb_ge in Hle.
  assert (Hv : 0 <= spent k s).
  { unfold spent. destruct (map_get k (dailySpend s)) eqn:E; cbn; [|done].
    specialize (Cspend _ _ E). lia. }
  destruct (dailyCapMinor token) as [c|] eqn:Ec; cbn [default] in Hle.
  2: { destruct (num_add_le_cap (spent k s) amount 0); [lia|done|exact Hle|lia]. }
  pose proof (Ccap _ _ _ Ht Ec) as Hc.
  destruct (num_add_le_cap (spent k s) amount c) as [En Hn]; [lia|lia|exact Hle|].
  change (default 0 (map_get k (dailySpend s))) with (spent k s) in *. rewrite En.
  set (s' := set_dailySpend _ s).
  assert (Hk : spent k s' = spent k s + amount).
  { unfold s', spent at 1. cbn. by rewrite map_get_set_eq. }
  assert (Hne : forall k', k' <> k -> map_get k' (dailySpend s') = map_get k' (dailySpend s)).
  { intros k' Hk'. unfold s'. cbn. by rewrite map_get_set_ne. }
  split; [split; try done|].
  - intros k' z. unfold s'. cbn. rewrite map_get_set. case_bool_decide; [|by eauto].
    intros [= <-]. lia.
  - intros k'. destruct (decide (k' = k)) as [->|Hk']; [rewrite Hk; specialize (Cres k); cbn; lia|].
    unfold spent. rewrite Hne by done. apply Cres.
  - intros i d Hi Hd. rewrite Hne; [by apply Cfresh|].
    intros [-> _]%day_key_inj; [|lia]. cbn in Hi. congruence.
  - intros i u cu d Hi Hcu Hd. destruct (decide (day_key i d = k)) as [E|E].
    + apply day_key_inj in E as E'; [|lia]. destruct E' as [-> ->]. fold k. rewrite Hk.
      cbn in Hi. assert (u = token) as -> by congruence. assert (cu = c) as -> by congruence. lia.
    + unfold spent. rewrite Hne by done. by eapply Cbound.
  - split; [done|]. split; [done|]. split.
    + cbn [cr_amountMinor spendKey reservable]. split; [done|]. rewrite Hk. cbn. specialize (Cres k). lia.
    + exists t. split; [done|]. split; [done|]. cbn [spendKey]. split; [done|]. rewrite Hk. cbn. lia.
Qed.

Lemma cap_new_transaction id t s :
  map_get id (transactions s) = None -> reservable (capReservation t) s -> cap_inv s ->
  cap_inv (set_transactions (map_set id t (transactions s)) s).
Proof.
  intros Hn Hr []. split; cbn; try done.
  - intros i u r. rewrite map_get_set. case_bool_decide; [|by eauto].
    intros [= <-] E. rewrite E in Hr. apply Hr.
  - intros k. rewrite reserved_set, Hn. specialize (ci_reserved0 k).
    unfold share. unfold spent, reservable in *. cbn in *.
    destruct (capReservation t) as [r|]; [|lia].
    case_bool_decide; [subst k; apply proj2 in Hr|]; unfold spent in *; lia.
Qed.

Lemma keeps_authorize input e : keeps cap_inv (authorize kp input e).
Proof.
  unfold authorize. apply keeps_read. intros s Hs.
  apply at_lift_bind; [done|]. intros [] Hh%throw_if_Ok.
  destruct (safe_between _ _ _) as [a|] eqn:Ea; [|done].
  apply safe_between_Some in Ea as (_ & _ & Ha).
  apply at_lift_bind; [done|]. intros [] _.
  apply at_lift_bind; [done|]. intros token Htok.
  apply at_lift_bind; [done|]. intros [] _.
  apply at_lift_bind; [done|]. intros device _. cbv zeta.
  apply at_lift_bind; [done|]. intros [] _.
  unfold must in Htok. destruct (map_get (ai_tokenId input) (tokens s)) as [u|] eqn:Eu; [|done].
  injection Htok as ->. pose proof (ci_key _ Hs _ _ Eu) as Hid.
  assert (Hx : map_get (ai_transactionId input) (transactions s) = None).
  { unfold map_has in Hh. by destruct (map_get _ _). }
  match goal with |- cap_inv ((_ ≫= ?k) s).2 =>
    assert (Hk : forall o s', cap_inv s' -> map_get (ai_transactionId input) (transactions s') = None ->
      reservable o s' -> cap_inv (k o s').2) end.
  { intros o s' Hs' Hx' Ho. apply at_lift_bind; [done|]. intros st _.
    unfold on_challenges. apply at_zoom_bind; [intros t; by apply (cap_frame s')|]. intros challenge t. cbv zeta.
    apply at_modify_bind.
    match goal with |- cap_inv (?m _).2 => assert (Hm : keeps cap_inv m) by keeps_all; apply Hm end.
    apply cap_new_transaction; [done|by destruct o|].
    apply (cap_frame s'); [reflexivity..|exact Hs']. }
  destruct (bool_decide _).
  - pose proof (reserve_spend_outcome token a (or_now (ai_now input) e 0) s) as Hr.
    cbv [mbind St_bind]. destruct (reserve_spend _ _ _ s) as [[c|] s'].
    + destruct Hr as (Hs' & Ex & _ & Hc & _); [done|by rewrite Hid|lia|].
      apply (Hk (Some c) s'); [done|by rewrite Ex|done].
    + apply Hr; [done|by rewrite Hid|lia].
  - by apply (Hk None s).
Qed.

Lemma keeps_run_op o : keeps cap_inv (fun s => (Ok tt, run_op kp o s)).
Proof.
  intros s Hs. destruct o; cbn [run_op snd].
  - apply (fun H : keeps cap_inv (enrollTrustedDevice kp subjectId keys deviceId e) => H s Hs).
    unfold enrollTrustedDevice. keeps_all.
  - apply (fun H : keeps cap_inv (revokeTrustedDevice kp deviceId now e) => H s Hs).
    unfold revokeTrustedDevice. keeps_all.
  - apply (fun H : keeps cap_inv (markTrustedDeviceCompromised kp deviceId now e) => H s Hs).
    unfold markTrustedDeviceCompromised. keeps_all.
  - apply (fun H : keeps cap_inv (rotateTrustedDeviceKey kp deviceId keys now e) => H s Hs).
    unfold rotateTrustedDeviceKey. keeps_all.
  - by apply keeps_request.
  - apply (fun H : keeps cap_inv (approveProvisioning kp requestId a now activation e) => H s Hs).
    unfold approveProvisioning, must_request. keeps_all.
  - by apply keeps_authorize.
  - apply (fun H : keeps cap_inv (confirmTransaction kp transactionId a now e) => H s Hs).
    unfold confirmTransaction, must_transaction. keeps_all.
  - apply (fun H : keeps cap_inv (expireAndReverse kp transactionId now e) => H s Hs).
    unfold expireAndReverse, must_transaction. keeps_all.
  - apply (fun H : keeps cap_inv (receiveClearing kp transactionId now e) => H s Hs).
    unfold receiveClearing, must_transaction. keeps_all.
Qed.
End preservation.

Section cap_safety.
Context `{Host}.

Lemma empty_cap_inv : cap_inv empty_engine.
Proof. split; by intros. Qed.

Lemma reachable_cap_inv s : rtc engine_step empty_engine s -> cap_inv s.
Proof.
  assert (Hsteps : forall s0, rtc engine_step s0 s -> cap_inv s0 -> cap_inv s).
  { induction 1 as [|s0 s1 s2 [kp o s0'] _ IH]; [done|]. intros Hs. apply IH.
    by apply (keeps_run_op kp o s0' Hs). }
  intros Hr. by apply (Hsteps _ Hr), empty_cap_inv.
Qed.

(** C1: whatever calls were made, in whatever order, with whatever approvals
    and clock, and however many of them threw: the amounts reserved for a
    token on a day never exceed the spend recorded for that day, nor the
    token's daily cap. *)
Theorem daily_cap_respected (s : AirlockEngine) (tokenId day : jstr) (token : PaymentToken) (cap : Z)
    (Hr : rtc engine_step empty_engine s)
    (Ht : map_get tokenId (tokens s) = Some token)
    (Hc : dailyCapMinor token = Some cap) (Hday : length day = 10%nat) :
  reserved (day_key tokenId day) (transactions s) <= spent (day_key tokenId day) s <= cap.
Proof.
  apply reachable_cap_inv in Hr. split; [by apply (ci_reserved _ Hr)|].
  by apply (ci_bound _ Hr _ _ _ _ Ht Hc Hday).
Qed.
End cap_safety.

(** ** Instances *)

Lemma daily_cap_respected_witness :
  reserved (day_key "token-1" "2026-01-01") (transactions state_4) = 500 /\
  reserved (day_key "token-1" "2026-01-01") (transactions state_4)
    <= spent (day_key "token-1" "2026-01-01") state_4 <= 2000.
Proof.
  split; [by vm_compute|].
  apply (daily_cap_respected (H := test_host) state_4 "token-1" "2026-01-01"
    {| pt_tokenId := "token-1"; pt_subjectId := "subject-1"; pt_accountId := "account-1";
       pt_state := t_active_capped; perTransactionCapMinor := Some 1000;
       dailyCapMinor := Some 2000 |}).
  - exact sample_run_4.
  - by vm_compute.
  - done.
  - done.
Defined.
