(* ===== verification/EngineDevices.v ===== *)
(** EngineDevices: the trusted devices of the engine.  Key identifiers and
    public keys are unique, and a revoked device never changes again. *)
From stdpp Require Import relations.
From S2P Require Import Prelude JsString JsMap Host TestHost JsTime JsJson Transitions Protocol DeviceKeys AuditLog ChallengeStore Engine EngineSteps.
#[local] Open Scope string_scope.
#[local] Open Scope list_scope.
#[local] Open Scope Z_scope.
#[local] Open Scope js_scope.

Section device_changes.
Context `{Host}.
Variable kp : option AuditKeyProvider.

Abbreviation device_map := (list (jstr * TrustedDevice)).

(** What one call may do to the devices. *)
Inductive dev_change (D : device_map) : device_map -> Prop :=
| dc_same : dev_change D D
| dc_enroll id d :
    map_get id D = None -> td_deviceId d = id -> td_status d = d_active ->
    assertKeyIdAvailable (td_keyId d) None D = Ok tt ->
    assertPublicKeyAvailable (td_publicKeyPem d) (td_algorithm d) None D = Ok tt ->
    dev_change D (map_set id d D)
| dc_revoke id d :
    map_get id D = Some d -> td_status d = d_active ->
    dev_change D (map_update id (set_td_status d_revoked) D)
| dc_rotate id d keyId algorithm pem :
    map_get id D = Some d -> td_status d = d_active ->
    assertKeyIdAvailable keyId (Some id) D = Ok tt ->
    assertPublicKeyAvailable pem algorithm (Some id) D = Ok tt ->
    dev_change D (map_update id (set_td_key keyId algorithm pem) D).

(** Calls that leave the devices alone. *)
Definition same_devices (D : device_map) (s : AirlockEngine) : Prop := devices s = D.

Lemma same_audit D ty corr pl now uuid : keeps (same_devices D) (audit_append kp ty corr pl now uuid).
Proof. unfold audit_append, on_audit. keeps_steps; try done. by apply keeps_zoom. Qed.

Lemma same_challenges D {A} (m : St store A) : keeps (same_devices D) (on_challenges m).
Proof. by apply keeps_zoom. Qed.

Lemma same_release D id : keeps (same_devices D) (releaseCapReservation id).
Proof. unfold releaseCapReservation. keeps_steps; done. Qed.

Ltac keeps_same :=
  keeps_steps; try done; repeat first [ apply same_audit | apply same_challenges | apply same_release ];
  keeps_steps; try done.

Lemma same_invalidate D deviceId now :
  keeps (same_devices D) (invalidateOutstandingChallenges deviceId now).
Proof.
  assert (Hsettle : forall id c, keeps (same_devices D) (settle_challenge id c now)).
  { intros id c. unfold settle_challenge. destruct (status <$> c) as [[]|]; keeps_same. }
  unfold invalidateOutstandingChallenges. keeps_steps; apply keeps_collect; intros [[? ?] ?];
    unfold invalidate_request, invalidate_transaction, set_request_state, set_transaction_state,
      set_token; keeps_steps; try apply Hsettle; keeps_same.
Qed.

Lemma must_Ok {V} label key (m : list (jstr * V)) v :
  must label key m = Ok v <-> map_get key m = Some v.
Proof.
  unfold must. destruct (map_get key m); split; try done; [by intros [= ->]|by intros [= ->]].
Qed.

Lemma at_must_device {A} (I : AirlockEngine -> Prop) id (k : TrustedDevice -> St AirlockEngine A) s :
  I s -> (forall d, map_get id (devices s) = Some d -> I (k d s).2) ->
  I ((must_device id ≫= k) s).2.
Proof.
  intros Hs Hk. unfold must_device, must. cbv [mbind St_bind sget lift].
  destruct (map_get id (devices s)); [by apply Hk|done].
Qed.

(** The end of a device operation: update, audit, read back. *)
Lemma update_change id f (I : AirlockEngine -> Prop) ids_to_tail s :
  (forall D', D' = map_update id f (devices s) -> forall s', same_devices D' s' -> I s') ->
  (forall a, keeps (same_devices (map_update id f (devices s))) (ids_to_tail a)) ->
  I ((device_update id f ≫= ids_to_tail : St AirlockEngine TrustedDevice) s).2.
Proof.
  intros HI Hk. unfold device_update. apply at_modify_bind.
  eapply HI; [done|]. by apply Hk.
Qed.

Lemma op_dev_change o s : dev_change (devices s) (devices (run_op kp o s)).
Proof.
  set (I := fun s' => dev_change (devices s) (devices s')). change (I (run_op kp o s)).
  assert (Hsame : forall s', same_devices (devices s) s' -> I s').
  { intros s' E. unfold I. rewrite E. constructor. }
  assert (Htail : forall ty corr pl now uuid id D, keeps (same_devices D)
    (audit_append kp ty corr pl now uuid ≫= fun _ => must_device id)).
  { intros. unfold must_device. keeps_same. }
  assert (Hupd : forall id f (k : list jstr -> St AirlockEngine TrustedDevice) now, dev_change (devices s) (map_update id f (devices s)) ->
    (forall a, keeps (same_devices (map_update id f (devices s))) (k a)) ->
    I ((invalidateOutstandingChallenges id now ≫= fun ids =>
        device_update id f ≫= fun _ : unit => k ids) s).2).
  { intros id f k now Hch Hk. eapply (at_keeps_bind I (same_devices _)); [apply same_invalidate|reflexivity|done|].
    intros ids s' Es. apply (update_change _ _ _ (fun _ => k ids)); [|rewrite Es; by intros].
    intros D' -> s2 E2. unfold I. rewrite E2, Es. done. }
  destruct o; cbn [run_op].
  - unfold enrollTrustedDevice. cbv zeta. apply at_get_bind.
    apply at_lift_bind; [by apply Hsame|]. intros [] Hh%throw_if_Ok.
    apply at_lift_bind; [by apply Hsame|]. intros [] Hk.
    apply at_lift_bind; [by apply Hsame|]. intros key _.
    apply at_lift_bind; [by apply Hsame|]. intros [] Hp. apply at_modify_bind.
    eapply (at_keeps I (same_devices _)); [|reflexivity|].
    + keeps_same.
    + intros s' E. unfold I. rewrite E. apply dc_enroll; try done.
      unfold map_has in Hh. by destruct (map_get _ _).
  - unfold revokeTrustedDevice. cbv zeta.
    apply at_must_device; [by apply Hsame|]. intros d Hd.
    apply at_lift_bind; [by apply Hsame|]. intros [] Hs%throw_if_Ok%bool_decide_eq_false.
    apply (Hupd deviceId (set_td_status d_revoked) (fun ids => _)).
    + apply (dc_revoke _ _ d); [done|]. by destruct (td_status d).
    + intros ids. apply Htail.
  - unfold markTrustedDeviceCompromised. cbv zeta.
    apply at_must_device; [by apply Hsame|]. intros d Hd.
    apply at_lift_bind; [by apply Hsame|]. intros [] Hs%throw_if_Ok%bool_decide_eq_false.
    apply (Hupd deviceId (set_td_status d_revoked) (fun ids => _)).
    + apply (dc_revoke _ _ d); [done|]. destruct (td_status d); [done|by destruct Hs].
    + intros ids. apply Htail.
  - unfold rotateTrustedDeviceKey. cbv zeta.
    apply at_must_device; [by apply Hsame|]. intros d Hd. apply at_get_bind.
    apply at_lift_bind; [by apply Hsame|]. intros [] Hs%throw_if_Ok%bool_decide_eq_false.
    apply at_lift_bind; [by apply Hsame|]. intros [] _.
    apply at_lift_bind; [by apply Hsame|]. intros [] Hk.
    apply at_lift_bind; [by apply Hsame|]. intros key _.
    apply at_lift_bind; [by apply Hsame|]. intros next _.
    apply at_lift_bind; [by apply Hsame|]. intros current _.
    apply at_lift_bind; [by apply Hsame|]. intros [] _.
    apply at_lift_bind; [by apply Hsame|]. intros [] Hp.
    apply (Hupd deviceId (set_td_key _ _ _) (fun ids => _)).
    + apply (dc_rotate _ _ d); try done. destruct (td_status d); [done|by destruct Hs].
    + intros ids. apply Htail.
  - eapply (at_keeps I (same_devices _)); [|reflexivity|exact Hsame]. unfold requestProvisioning. keeps_same.
  - eapply (at_keeps I (same_devices _)); [|reflexivity|exact Hsame].
    unfold approveProvisioning, must_request, set_request_state, set_token. keeps_same.
  - eapply (at_keeps I (same_devices _)); [|reflexivity|exact Hsame]. unfold authorize, reserve_spend. keeps_same.
  - eapply (at_keeps I (same_devices _)); [|reflexivity|exact Hsame].
    unfold confirmTransaction, must_transaction, set_transaction_state. keeps_same.
  - eapply (at_keeps I (same_devices _)); [|reflexivity|exact Hsame].
    unfold expireAndReverse, must_transaction, set_transaction_state. keeps_same.
  - eapply (at_keeps I (same_devices _)); [|reflexivity|exact Hsame].
    unfold receiveClearing, must_transaction, set_transaction_state. keeps_same.
Qed.
End device_changes.

(** ** Unique keys *)

Section device_invariant.
Context `{Host}.
Implicit Types (D : list (jstr * TrustedDevice)).

Definition fingerprint (d : TrustedDevice) : result jstr :=
  publicKeyFingerprint (td_publicKeyPem d) (td_algorithm d).

Record dev_inv D : Prop := {
  di_id : forall id d, map_get id D = Some d -> td_deviceId d = id;
  di_key : forall id d, map_get id D = Some d -> DEVICE_KEY_ID_PATTERN (td_keyId d) = true;
  di_fingerprint : forall id d, map_get id D = Some d -> exists f, fingerprint d = Ok f;
  di_unique_key : forall id1 id2 d1 d2, map_get id1 D = Some d1 -> map_get id2 D = Some d2 ->
    td_keyId d1 = td_keyId d2 -> id1 = id2;
  di_unique_fingerprint : forall id1 id2 d1 d2, map_get id1 D = Some d1 -> map_get id2 D = Some d2 ->
    fingerprint d1 = fingerprint d2 -> id1 = id2;
}.

Lemma assertKeyIdAvailable_Ok keyId except D :
  assertKeyIdAvailable keyId except D = Ok tt <->
  DEVICE_KEY_ID_PATTERN keyId = true /\
  Forall (fun d => other_device except d = true -> td_keyId d <> keyId) D.*2.
Proof.
  unfold assertKeyIdAvailable. rewrite throw_if_bind_Ok, negb_false_iff, for_each_Ok.
  apply and_iff_compat_l. apply Forall_iff. intros d. rewrite throw_if_Ok, andb_false_iff, jeqb_false.
  destruct (other_device except d); (split; [by intros [] ?|]); [right; auto|by left].
Qed.

Lemma assertPublicKeyAvailable_Ok pem algorithm except D :
  assertPublicKeyAvailable pem algorithm except D = Ok tt <->
  exists f, publicKeyFingerprint pem algorithm = Ok f /\
    Forall (fun d => other_device except d = true ->
                     exists g, fingerprint d = Ok g /\ g <> f) D.*2.
Proof.
  unfold assertPublicKeyAvailable. rewrite result_bind_Ok.
  split; intros (f & Ef & Hf); exists f; (split; [done|]); revert Hf; rewrite for_each_Ok;
    intros Hf; (eapply Forall_impl; [exact Hf|]); clear Hf; intros d; cbv beta.
  - destruct (other_device except d); [|done]. intros (g & Eg & Hg%throw_if_Ok)%result_bind_Ok _.
    exists g. split; [done|]. by apply jeqb_false.
  - destruct (other_device except d); [|done]. intros Hg. destruct (Hg eq_refl) as (g & Eg & Hne).
    apply result_bind_Ok. exists g. split; [done|]. by apply throw_if_Ok, jeqb_false.
Qed.

(** A device stored under [id] whose key no other device holds. *)
Lemma dev_inv_set D id d :
  td_deviceId d = id ->
  assertKeyIdAvailable (td_keyId d) (Some id) D = Ok tt ->
  assertPublicKeyAvailable (td_publicKeyPem d) (td_algorithm d) (Some id) D = Ok tt ->
  dev_inv D -> dev_inv (map_set id d D).
Proof.
  intros Hid (Hpat & Hk)%assertKeyIdAvailable_Ok (f & Ef & Hf)%assertPublicKeyAvailable_Ok [Hi Hp Hfp Hu Huf].
  rewrite Forall_forall in Hk, Hf.
  assert (Hother : forall i u, map_get i D = Some u -> i <> id ->
    td_keyId u <> td_keyId d /\ exists g, fingerprint u = Ok g /\ g <> f).
  { intros i u Hu' Hne. assert (Ho : other_device (Some id) u = true).
    { unfold other_device. rewrite bool_decide_false; [done|]. rewrite (Hi _ _ Hu'). congruence. }
    pose proof (map_get_values _ _ _ Hu') as Hin. by split; [apply Hk|apply Hf]. }
  split.
  - intros i u. rewrite map_get_set. case_bool_decide; [by intros [= <-]; subst|by eauto].
  - intros i u. rewrite map_get_set. case_bool_decide; [by intros [= <-]|by eauto].
  - intros i u. rewrite map_get_set. case_bool_decide; [intros [= <-]; by exists f|by eauto].
  - intros i1 i2 u1 u2. rewrite !map_get_set. repeat case_bool_decide; subst; try done.
    + intros [= <-] E2 E. by destruct (Hother _ _ E2).
    + intros E1 [= <-] E. by destruct (Hother _ _ E1).
    + by apply Hu.
  - intros i1 i2 u1 u2. rewrite !map_get_set. unfold fingerprint in *. repeat case_bool_decide; subst; try done.
    + intros [= <-] E2 E. destruct (Hother _ _ E2) as (_ & g & Eg & Hg); [done|]. congruence.
    + intros E1 [= <-] E. destruct (Hother _ _ E1) as (_ & g & Eg & Hg); [done|]. congruence.
    + by apply Huf.
Qed.

Lemma other_device_None d : other_device None d = true.
Proof. done. Qed.

Lemma dev_inv_change D D' : dev_change D D' -> dev_inv D -> dev_inv D'.
Proof.
  intros [|id d Hn Hid Hst Hk Hp|id d Hd Hst|id d keyId algorithm pem Hd Hst Hk Hp] Hinv; [done|..].
  - apply dev_inv_set; try done.
    + apply assertKeyIdAvailable_Ok in Hk as [Hpat Hk]. apply assertKeyIdAvailable_Ok.
      split; [done|]. eapply Forall_impl; [exact Hk|]. intros x Hx _. by apply Hx.
    + apply assertPublicKeyAvailable_Ok in Hp as (f & Ef & Hf). apply assertPublicKeyAvailable_Ok.
      exists f. split; [done|]. eapply Forall_impl; [exact Hf|]. intros x Hx _. by apply Hx.
  - destruct Hinv as [Hi Hp Hfp Hu Huf].
    assert (Hup : forall i u, map_get i (map_update id (set_td_status d_revoked) D) = Some u ->
      exists v, map_get i D = Some v /\ td_deviceId u = td_deviceId v /\ td_keyId u = td_keyId v /\
                fingerprint u = fingerprint v).
    { intros i u. rewrite map_get_update. case_bool_decide; [|by eauto 10].
      destruct (map_get i D) as [v|]; [|done]. intros [= <-]. by exists v. }
    split.
    + intros i u (v & Hv & -> & _)%Hup. by eauto.
    + intros i u (v & Hv & _ & -> & _)%Hup. by eauto.
    + intros i u (v & Hv & _ & _ & ->)%Hup. by eauto.
    + intros i1 i2 u1 u2 (v1 & H1 & _ & -> & _)%Hup (v2 & H2 & _ & -> & _)%Hup. by eauto.
    + intros i1 i2 u1 u2 (v1 & H1 & _ & _ & ->)%Hup (v2 & H2 & _ & _ & ->)%Hup. by eauto.
  - rewrite (map_update_present _ _ _ _ Hd). apply dev_inv_set; try done.
    cbn. by apply (di_id _ Hinv).
Qed.

Lemma reachable_dev_inv s : rtc engine_step empty_engine s -> dev_inv (devices s).
Proof.
  assert (Hsteps : forall s0, rtc engine_step s0 s -> dev_inv (devices s0) -> dev_inv (devices s)).
  { induction 1 as [|s0 s1 s2 [kp o s0'] _ IH]; [done|]. intros Hs. apply IH.
    eapply dev_inv_change; [apply op_dev_change|done]. }
  intros Hr. apply (Hsteps _ Hr). split; by intros.
Qed.

(** in every reachable state the trusted devices have well-formed key
    identifiers, importable public keys, and no two devices share a key
    identifier or a public-key fingerprint. *)
Theorem device_keys_unique (s : AirlockEngine) (Hr : rtc engine_step empty_engine s)
    (id1 id2 : jstr) (d1 d2 : TrustedDevice)
    (H1 : map_get id1 (devices s) = Some d1) (H2 : map_get id2 (devices s) = Some d2) :
  td_deviceId d1 = id1 /\ DEVICE_KEY_ID_PATTERN (td_keyId d1) = true /\
  (exists f, publicKeyFingerprint (td_publicKeyPem d1) (td_algorithm d1) = Ok f) /\
  (id1 <> id2 -> td_keyId d1 <> td_keyId d2 /\
     publicKeyFingerprint (td_publicKeyPem d1) (td_algorithm d1) <>
     publicKeyFingerprint (td_publicKeyPem d2) (td_algorithm d2)).
Proof.
  apply reachable_dev_inv in Hr as [Hi Hp Hfp Hu Huf]. split_and!; [by eauto..|].
  intros Hne. split; intros E; apply Hne; by eauto.
Qed.

(** ** Revocation is final *)

Lemma revoked_change D D' id d :
  dev_change D D' -> map_get id D = Some d -> td_status d = d_revoked -> map_get id D' = Some d.
Proof.
  intros [|i u Hn Hid Hst Hk Hp|i u Hd Hst|i u keyId algorithm pem Hd Hst Hk Hp] Hg Hr; [done|..].
  - rewrite map_get_set. case_bool_decide; [congruence|done].
  - rewrite map_get_update. case_bool_decide; [congruence|done].
  - rewrite map_get_update. case_bool_decide; [congruence|done].
Qed.

Lemma revoked_steps s s' id d :
  rtc engine_step s s' -> map_get id (devices s) = Some d -> td_status d = d_revoked ->
  map_get id (devices s') = Some d.
Proof.
  intros Hs Hd Hr. induction Hs as [|s0 s1 s2 [kp o s0'] _ IH]; [done|]. apply IH.
  eapply revoked_change; [apply op_dev_change|done|done].
Qed.

Lemma requireActive_revoked id subject D d :
  map_get id D = Some d -> td_status d = d_revoked ->
  requireActiveDevice id subject D = Throw "trusted device is revoked".
Proof.
  intros Hd Hr. unfold requireActiveDevice, must. rewrite Hd. cbn [mbind result_bind].
  rewrite Hr. reflexivity.
Qed.

(** a revoked device stays exactly as it is under any further calls, and from
    then on no provisioning request it was to approve, no transaction it was to
    confirm and no new transaction can use it: the calls throw and change
    nothing. *)
Theorem revoked_device_final (s s' : AirlockEngine) (id : jstr) (d : TrustedDevice)
    (Hd : map_get id (devices s) = Some d) (Hrev : td_status d = d_revoked)
    (Hs : rtc engine_step s s') :
  map_get id (devices s') = Some d /\
  (forall kp requestId r a now activation e, map_get requestId (provisioning s') = Some r ->
     pr_trustedDeviceId r = id ->
     exists msg, approveProvisioning kp requestId a now activation e s' = (Throw msg, s')) /\
  (forall kp transactionId t b a now e, map_get transactionId (transactions s') = Some t ->
     tx_challenge t = Some b -> trustedDeviceId b = id ->
     confirmTransaction kp transactionId a now e s' = (Throw "trusted device is revoked", s')) /\
  (forall kp input e, ai_trustedDeviceId input = id ->
     exists msg, authorize kp input e s' = (Throw msg, s')).
Proof.
  pose proof (revoked_steps _ _ _ _ Hs Hd Hrev) as Hd'.
  pose proof (fun subject => requireActive_revoked id subject _ _ Hd' Hrev) as Hreq.
  split_and!; [done|..].
  - intros kp rid r a now act e Hr Hid. unfold approveProvisioning, must_request, must.
    cbv [mbind St_bind lift sget]. destruct (throw_if _ _) as [[]|msg]; [|by exists msg].
    rewrite Hr. rewrite Hid, Hreq. by eexists.
  - intros kp xid t b a now e Ht Hb Hid. unfold confirmTransaction, must_transaction, must.
    cbv [mbind St_bind lift sget]. rewrite Ht. unfold must_challenge. rewrite Hb.
    by rewrite Hid, Hreq.
  - intros kp input e Hid. unfold authorize. cbv [mbind St_bind lift sget].
    destruct (throw_if _ _) as [[]|msg]; [|by exists msg].
    destruct (safe_between _ _ _); [|by eexists].
    destruct (throw_if _ _) as [[]|msg]; [|by exists msg].
    destruct (must _ _ _) as [token|msg]; [|by exists msg].
    destruct (throw_if _ _) as [[]|msg]; [|by exists msg].
    rewrite Hid, Hreq. by eexists.
Qed.
End device_invariant.

(** ** Instances *)

Section sample.
#[local] Existing Instance test_host.

Definition enroll_2 : engine_op :=
  do_enroll "subject-1" {| ek_keyId := "key-2"; ek_algorithm := APPROVAL_ALGORITHM;
    ek_publicKeyPem := "second-key" |} (Some (js "device-2")) (at_time noon "enroll-2").
Definition two_devices : AirlockEngine := run_op None enroll_2 state_1.

Definition device_of (id keyId pem : jstr) (st : DeviceStatus) : TrustedDevice :=
  {| td_deviceId := id; td_subjectId := "subject-1"; td_keyId := keyId;
     td_algorithm := APPROVAL_ALGORITHM; td_publicKeyPem := pem; td_status := st |}.

Lemma device_keys_unique_witness :
  publicKeyFingerprint sample_pem APPROVAL_ALGORITHM <>
  publicKeyFingerprint "second-key" APPROVAL_ALGORITHM.
Proof.
  destruct (device_keys_unique two_devices
    (rtc_call None enroll_2 _ _ (rtc_call None enroll_1 _ _ (rtc_refl _ empty_engine)))
    "device-1" "device-2" (device_of "device-1" "key-1" sample_pem d_active)
    (device_of "device-2" "key-2" "second-key" d_active)) as (_ & _ & _ & Hne).
  - by vm_compute.
  - by vm_compute.
  - by apply Hne.
Defined.

Definition revoke_1 : engine_op :=
  do_revoke "device-1" (Some (Some (noon + 2000))) (at_time noon "revoke").
Definition revoked_state : AirlockEngine := run_op None revoke_1 state_4.
Definition retried_state : AirlockEngine := run_op None authorize_1 revoked_state.

Lemma revoked_device_final_witness :
  map_get (js "device-1") (devices retried_state) =
    Some (device_of "device-1" "key-1" sample_pem d_revoked).
Proof.
  apply (revoked_device_final revoked_state retried_state "device-1"
           (device_of "device-1" "key-1" sample_pem d_revoked)).
  - by vm_compute.
  - done.
  - exact (rtc_call None authorize_1 _ _ (rtc_refl _ revoked_state)).
Defined.
End sample.
