(* ===== verification/EngineRefs.v ===== *)
(** EngineRefs: the references between the engine's aggregates and the
    challenge store, and the all-or-nothing effect of revoking, compromising or
    rotating a device. *)
From stdpp Require Import relations.
From S2P Require Import Prelude JsString JsMap Host TestHost JsTime JsJson Transitions Protocol DeviceKeys AuditLog ChallengeStore Engine EngineSteps EngineDevices.
#[local] Open Scope string_scope.
#[local] Open Scope list_scope.
#[local] Open Scope Z_scope.
#[local] Open Scope js_scope.

(** The record a request or a transaction refers to. *)
Definition refers (b : ChallengeBinding) (cs : store) : Prop :=
  exists c, map_get (challengeId b) cs = Some c /\ rec_binding c = b.

Record request_ok (s : AirlockEngine) (rid : jstr) (r : ProvisioningRequest) : Prop := {
  rq_id : pr_requestId r = rid;
  rq_refers : refers (pr_challenge r) (challenges s);
  rq_token : is_Some (map_get (pr_tokenId r) (tokens s));
  rq_purpose : purpose (pr_challenge r) = PROVISION_PAYMENT_TOKEN;
  rq_binds_token : paymentTokenId (pr_challenge r) = pr_tokenId r;
  rq_binds_device : trustedDeviceId (pr_challenge r) = pr_trustedDeviceId r;
}.

Record transaction_ok (s : AirlockEngine) (xid : jstr) (t : TransactionRecord) : Prop := {
  xo_id : tx_transactionId t = xid;
  xo_challenge : exists b, tx_challenge t = Some b /\ refers b (challenges s) /\
    purpose b = CONFIRM_TRANSACTION /\ transactionId b = Some xid;
}.

Record ref_inv (s : AirlockEngine) : Prop := {
  ri_provisioning : map_wf (provisioning s);
  ri_transactions : map_wf (transactions s);
  ri_request : forall rid r, map_get rid (provisioning s) = Some r -> request_ok s rid r;
  ri_one_request : forall rid1 rid2 r1 r2, map_get rid1 (provisioning s) = Some r1 ->
    map_get rid2 (provisioning s) = Some r2 -> pr_tokenId r1 = pr_tokenId r2 -> rid1 = rid2;
  ri_transaction : forall xid t, map_get xid (transactions s) = Some t -> transaction_ok s xid t;
}.

(** A store that still holds every challenge with its binding. *)
Definition store_le (cs cs' : store) : Prop :=
  forall id c, map_get id cs = Some c ->
    exists c', map_get id cs' = Some c' /\ rec_binding c' = rec_binding c.

Definition tokens_le (ts ts' : list (jstr * PaymentToken)) : Prop :=
  forall id, is_Some (map_get id ts) -> is_Some (map_get id ts').

Lemma refers_le b cs cs' : store_le cs cs' -> refers b cs -> refers b cs'.
Proof.
  intros Hle (c & Hc & Hb). destruct (Hle _ _ Hc) as (c' & Hc' & Hb'). exists c'.
  split; [done|congruence].
Qed.

Lemma request_ok_le s s' rid r :
  tokens_le (tokens s) (tokens s') -> store_le (challenges s) (challenges s') ->
  request_ok s rid r -> request_ok s' rid r.
Proof. intros Ht Hc []. split; try done; [by eapply refers_le|by apply Ht]. Qed.

Lemma transaction_ok_le s s' xid t :
  store_le (challenges s) (challenges s') -> transaction_ok s xid t -> transaction_ok s' xid t.
Proof.
  intros Hc [Hid (b & E & Hr & Hp & Hx)]. split; [done|]. exists b. split_and!; try done.
  by eapply refers_le.
Qed.

Lemma ref_frame s s' :
  provisioning s' = provisioning s -> transactions s' = transactions s ->
  tokens_le (tokens s) (tokens s') -> store_le (challenges s) (challenges s') ->
  ref_inv s -> ref_inv s'.
Proof.
  intros Ep Ex Ht Hc [Hp Hx Hr Ho Ht']. split; rewrite ?Ep, ?Ex; try done.
  - intros rid r E. eapply request_ok_le; eauto.
  - intros xid t E. eapply transaction_ok_le; eauto.
Qed.

Lemma store_le_refl cs : store_le cs cs.
Proof. intros id c Hc. by exists c. Qed.

Lemma tokens_le_refl ts : tokens_le ts ts.
Proof. by intros id. Qed.

#[local] Hint Resolve store_le_refl tokens_le_refl : core.

Lemma store_le_set id c c' cs :
  map_get id cs = Some c -> rec_binding c' = rec_binding c -> store_le cs (map_set id c' cs).
Proof.
  intros Hc Hb i ci Hi. rewrite map_get_set. case_bool_decide; [|by exists ci].
  subst. exists c'. split; [done|congruence].
Qed.

Lemma store_le_fresh id c cs : map_get id cs = None -> store_le cs (map_set id c cs).
Proof.
  intros Hn i ci Hi. rewrite map_get_set. case_bool_decide; [congruence|by exists ci].
Qed.

Section references.
Context `{Host}.
Variable kp : option AuditKeyProvider.

Lemma consume_store_le a pk now alg cs : store_le cs (consume a pk now alg cs).2.
Proof.
  destruct (consume_outcome_total a pk now alg cs); cbn [snd];
    first [apply store_le_refl|by eapply store_le_set].
Qed.

Lemma cancel_store_le id now cs : store_le cs (cancel id now cs).2.
Proof.
  destruct (cancel_outcome_total id now cs); cbn [snd];
    first [apply store_le_refl|by eapply store_le_set].
Qed.

Lemma ref_challenges {A} (m : St store A) :
  (forall cs, store_le cs (m cs).2) -> keeps ref_inv (on_challenges m).
Proof.
  intros Hm s Hs. unfold on_challenges, zoom. specialize (Hm (challenges s)).
  destruct (m (challenges s)) as [r cs]. cbn [snd] in *.
  apply (ref_frame s); auto.
Qed.

Lemma ref_audit ty corr pl now uuid : keeps ref_inv (audit_append kp ty corr pl now uuid).
Proof.
  unfold audit_append, on_audit. keeps_steps; try done. apply keeps_zoom. intros s t.
  apply ref_frame; auto.
Qed.

Lemma ref_update_request rid f s :
  (forall r, pr_requestId (f r) = pr_requestId r /\ pr_tokenId (f r) = pr_tokenId r /\
     pr_trustedDeviceId (f r) = pr_trustedDeviceId r /\ pr_challenge (f r) = pr_challenge r) ->
  ref_inv s -> ref_inv (set_provisioning (map_update rid f (provisioning s)) s).
Proof.
  intros Hf [Hp Hx Hr Ho Ht].
  assert (Hup : forall i r, map_get i (map_update rid f (provisioning s)) = Some r ->
    exists r0, map_get i (provisioning s) = Some r0 /\ pr_requestId r = pr_requestId r0 /\
      pr_tokenId r = pr_tokenId r0 /\ pr_trustedDeviceId r = pr_trustedDeviceId r0 /\
      pr_challenge r = pr_challenge r0).
  { intros i r. rewrite map_get_update. case_bool_decide; [|by eauto 10].
    destruct (map_get i (provisioning s)) as [r0|]; [|done]. intros [= <-].
    exists r0. split; [done|]. apply Hf. }
  split; cbn; try done.
  - by apply map_update_wf.
  - intros i r (r0 & E & E1 & E2 & E3 & E4)%Hup. destruct (Hr _ _ E).
    split; cbn; rewrite ?E1, ?E2, ?E3, ?E4; done.
  - intros i1 i2 r1 r2 (u1 & H1 & _ & -> & _)%Hup (u2 & H2 & _ & -> & _)%Hup. by eauto.
  - intros i t E. by destruct (Ht _ _ E).
Qed.

Lemma ref_update_transaction xid f s :
  (forall t, tx_transactionId (f t) = tx_transactionId t /\ tx_challenge (f t) = tx_challenge t) ->
  ref_inv s -> ref_inv (set_transactions (map_update xid f (transactions s)) s).
Proof.
  intros Hf [Hp Hx Hr Ho Ht]. split; cbn; try done.
  - by apply map_update_wf.
  - intros i r E. by destruct (Hr _ _ E).
  - intros i t. rewrite map_get_update. intros E.
    assert (exists t0, map_get i (transactions s) = Some t0 /\
      tx_transactionId t = tx_transactionId t0 /\ tx_challenge t = tx_challenge t0) as (t0 & E0 & E1 & E2).
    { case_bool_decide; [|by eauto]. destruct (map_get i (transactions s)) as [t0|]; [|done].
      injection E as <-. exists t0. split; [done|]. apply Hf. }
    destruct (Ht _ _ E0) as [Hid Hch]. split; cbn; by rewrite ?E1, ?E2.
Qed.

Lemma ref_set_request_state rid st : keeps ref_inv (set_request_state rid st).
Proof. unfold set_request_state. keeps_steps. by apply ref_update_request. Qed.

Lemma ref_set_transaction_state xid st : keeps ref_inv (set_transaction_state xid st).
Proof. unfold set_transaction_state. keeps_steps. by apply ref_update_transaction. Qed.

Lemma tokens_le_update id f ts : tokens_le ts (map_update id f ts).
Proof.
  intros i. rewrite map_get_update. case_bool_decide; [|done].
  destruct (map_get i ts); [by eexists|done].
Qed.

Lemma ref_set_token id f : keeps ref_inv (set_token id f).
Proof.
  unfold set_token. keeps_steps.
  match goal with Hs : ref_inv _ |- _ => revert Hs end.
  apply ref_frame; auto. apply tokens_le_update.
Qed.

Lemma ref_spend sp s : ref_inv s -> ref_inv (set_dailySpend sp s).
Proof. apply ref_frame; auto. Qed.

Lemma ref_devices ds s : ref_inv s -> ref_inv (set_devices ds s).
Proof. apply ref_frame; auto. Qed.

Lemma ref_release xid : keeps ref_inv (releaseCapReservation xid).
Proof.
  unfold releaseCapReservation. keeps_steps; [by apply ref_spend|by apply ref_update_transaction].
Qed.

Ltac keeps_ref :=
  keeps_steps;
  repeat first
    [ apply ref_audit | apply ref_set_request_state | apply ref_set_transaction_state
    | apply ref_release | apply ref_set_token
    | apply ref_challenges; intros; first [apply consume_store_le|apply cancel_store_le]
    | by apply ref_devices | by apply ref_spend ];
  keeps_steps.

Lemma ref_settle id c now : keeps ref_inv (settle_challenge id c now).
Proof. unfold settle_challenge. destruct (status <$> c) as [[]|]; keeps_ref. Qed.

Lemma ref_invalidate_request now p : keeps ref_inv (invalidate_request now p).
Proof. destruct p as [[rid id] c]. unfold invalidate_request. keeps_steps; try apply ref_settle; keeps_ref. Qed.

Lemma ref_invalidate_transaction now p : keeps ref_inv (invalidate_transaction now p).
Proof. destruct p as [[xid id] c]. unfold invalidate_transaction. keeps_steps; try apply ref_settle; keeps_ref. Qed.

Lemma ref_invalidate deviceId now : keeps ref_inv (invalidateOutstandingChallenges deviceId now).
Proof.
  unfold invalidateOutstandingChallenges. keeps_steps; apply keeps_collect; intros p;
    [apply ref_invalidate_request|apply ref_invalidate_transaction].
Qed.

(** The random values of a call are not in use yet. *)
Definition fresh_call (o : engine_op) (s : AirlockEngine) : Prop :=
  match o with
  | do_request _ e => map_get (env_challengeId e) (challenges s) = None /\
                      map_get (env_uuid e 0) (provisioning s) = None
  | do_authorize _ e => map_get (env_challengeId e) (challenges s) = None
  | _ => True
  end.

Lemma ref_new_token id t s : ref_inv s -> ref_inv (set_tokens (map_set id t (tokens s)) s).
Proof.
  apply ref_frame; auto. intros i. cbn. rewrite map_get_set. case_bool_decide; [by eexists|done].
Qed.

Lemma ref_new_challenge id c s :
  map_get id (challenges s) = None -> ref_inv s ->
  ref_inv (set_challenges (map_set id c (challenges s)) s).
Proof. intros Hn. apply ref_frame; auto. by apply store_le_fresh. Qed.

Lemma refers_new b c cs : rec_binding c = b -> refers b (map_set (challengeId b) c cs).
Proof. intros Hb. exists c. by rewrite map_get_set_eq. Qed.

Lemma ref_new_request rid r s :
  map_get rid (provisioning s) = None -> request_ok s rid r ->
  (forall i u, map_get i (provisioning s) = Some u -> pr_tokenId u <> pr_tokenId r) ->
  ref_inv s -> ref_inv (set_provisioning (map_set rid r (provisioning s)) s).
Proof.
  intros Hn Hr Hfresh [Hp Hx Hreq Ho Ht]. split; cbn; try done.
  - by apply map_set_wf.
  - intros i u. rewrite map_get_set. case_bool_decide; [intros [= <-]; subst; by destruct Hr|].
    intros E. by destruct (Hreq _ _ E).
  - intros i1 i2 u1 u2. rewrite !map_get_set. repeat case_bool_decide; subst; try done.
    + intros [= <-] E2 E. by destruct (Hfresh _ _ E2).
    + intros E1 [= <-] E. by destruct (Hfresh _ _ E1).
    + by apply Ho.
  - intros i t E. by destruct (Ht _ _ E).
Qed.

Lemma ref_new_transaction xid t s :
  map_get xid (transactions s) = None -> transaction_ok s xid t ->
  ref_inv s -> ref_inv (set_transactions (map_set xid t (transactions s)) s).
Proof.
  intros Hn Hok [Hp Hx Hreq Ho Ht]. split; cbn; try done.
  - by apply map_set_wf.
  - intros i u E. by destruct (Hreq _ _ E).
  - intros i u. rewrite map_get_set. case_bool_decide; [intros [= <-]; subst; by destruct Hok|].
    intros E. by destruct (Ht _ _ E).
Qed.

(** Creating a challenge inside a call. *)
Lemma at_create {A} (I : AirlockEngine -> Prop) input id now
    (k : ChallengeBinding -> St AirlockEngine A) s :
  I s ->
  (forall b t ttl, now = Some t -> safe_between (in_ttlMs input) 1000 300000 = Some ttl ->
     challengeId b = id -> purpose b = in_purpose input ->
     protocolVersion b = "airlock.v1" -> audience b = "airlock-issuer" ->
     subjectId b = in_subjectId input -> accountId b = in_accountId input ->
     paymentTokenId b = in_paymentTokenId input ->
     trustedDeviceId b = in_trustedDeviceId input ->
     transactionId b = in_transactionId input -> merchantId b = in_merchantId input ->
     amountMinor b = in_amountMinor input -> currency b = in_currency input ->
     issuedAt b = iso_string t -> expiresAt b = iso_string (t + ttl) ->
     Z.abs (t + ttl) <= MAX_TIME ->
     I (k b (set_challenges (map_set id (created_record b) (challenges s)) s)).2) ->
  I ((on_challenges (create input id now) ≫= k) s).2.
Proof.
  intros Hs Hk. cbv [mbind St_bind]. unfold on_challenges, zoom.
  pose proof (create_outcome_total input id now (challenges s)) as Ho.
  destruct (create input id now (challenges s)) as [r cs].
  inversion Ho; subst; [by destruct s|by eapply Hk].
Qed.

Lemma ref_request input e :
  forall s, ref_inv s -> fresh_call (do_request input e) s ->
    ref_inv (requestProvisioning kp input e s).2.
Proof.
  intros s Hs [Hc Hrid]. unfold requestProvisioning. apply at_get_bind.
  apply at_lift_bind; [done|]. intros [] Hh%throw_if_Ok.
  destruct (safe_between _ _ _) as [cap|]; [|done].
  apply at_lift_bind; [done|]. intros device Hdev. cbv zeta. apply at_modify_bind.
  set (token := {| pt_tokenId := _ |}). set (s1 := set_tokens _ s).
  assert (Hs1 : ref_inv s1) by by apply ref_new_token.
  apply at_lift_bind; [done|]. intros st1 _. apply at_lift_bind; [done|]. intros st _.
  apply at_create; [done|].
  intros b t ttl En _ Hid Hpur _ _ _ _ Hptok Hdid _ _ _ _ _ _ _. apply at_modify_bind.
  match goal with |- ref_inv (?m _).2 => assert (Hm : keeps ref_inv m) by keeps_ref; apply Hm end.
  cbn in Hpur, Hptok, Hdid. apply ref_new_request.
  - done.
  - split; cbn; try done.
    + subst s1. cbn. rewrite <-Hid. by apply refers_new.
    + by rewrite map_get_set_eq.
  - cbn. intros i u Hu E. destruct (ri_request _ Hs _ _ Hu). rewrite E in rq_token0. cbn in rq_token0.
    destruct rq_token0 as [x Ex]. unfold map_has in Hh. by rewrite Ex in Hh.
  - subst s1. by apply (ref_new_challenge _ _ (set_tokens _ s)).
Qed.

Lemma ref_authorize input e :
  forall s, ref_inv s -> fresh_call (do_authorize input e) s ->
    ref_inv (authorize kp input e s).2.
Proof.
  intros s Hs Hc. cbn in Hc. unfold authorize. apply at_get_bind.
  apply at_lift_bind; [done|]. intros [] Hh%throw_if_Ok.
  destruct (safe_between _ _ _) as [a|]; [|done].
  apply at_lift_bind; [done|]. intros [] _. apply at_lift_bind; [done|]. intros token _.
  apply at_lift_bind; [done|]. intros [] _. apply at_lift_bind; [done|]. intros device _. cbv zeta.
  apply at_lift_bind; [done|]. intros [] _.
  set (J := fun s' => ref_inv s' /\ challenges s' = challenges s /\ transactions s' = transactions s).
  apply (at_keeps_bind _ J); [|done|intros s' HJ; apply HJ|].
  { unfold reserve_spend. keeps_steps.
    match goal with HJ : J _ |- _ => destruct HJ as (? & ? & ?) end.
    split; [by apply ref_spend|done]. }
  intros o s' (Hs' & Ec & Ex). apply at_lift_bind; [done|]. intros st _.
  apply at_create; [done|].
  intros b t ttl En _ Hid Hpur _ _ _ _ _ _ Htx _ _ _ _ _ _. apply at_modify_bind.
  match goal with |- ref_inv (?m _).2 => assert (Hm : keeps ref_inv m) by keeps_ref; apply Hm end.
  cbn in Hpur, Htx. apply ref_new_transaction.
  - cbn. rewrite Ex. by apply map_has_false.
  - split; cbn; [done|]. exists b. split_and!; try done.
    rewrite <-Hid. by apply refers_new.
  - apply ref_new_challenge; [by rewrite Ec|done].
Qed.

Lemma ref_run_op o s : ref_inv s -> fresh_call o s -> ref_inv (run_op kp o s).
Proof.
  intros Hs Hf.
  assert (Hk : forall {A} (m : St AirlockEngine A), keeps ref_inv m -> ref_inv (m s).2)
    by (intros A m Hm; by apply Hm).
  destruct o; cbn [run_op].
  - apply Hk. unfold enrollTrustedDevice. keeps_ref.
  - apply Hk. unfold revokeTrustedDevice, must_device, device_update. keeps_steps; try apply ref_invalidate; keeps_ref.
  - apply Hk. unfold markTrustedDeviceCompromised, must_device, device_update. keeps_steps; try apply ref_invalidate; keeps_ref.
  - apply Hk. unfold rotateTrustedDeviceKey, must_device, device_update. keeps_steps; try apply ref_invalidate; keeps_ref.
  - by apply ref_request.
  - apply Hk. unfold approveProvisioning, must_request. keeps_ref.
  - by apply ref_authorize.
  - apply Hk. unfold confirmTransaction, must_transaction. keeps_ref.
  - apply Hk. unfold expireAndReverse, must_transaction. keeps_ref.
  - apply Hk. unfold receiveClearing, must_transaction. keeps_ref.
Qed.
End references.

(** Calls whose random values are fresh. *)
Inductive fresh_step `{Host} : AirlockEngine -> AirlockEngine -> Prop :=
| fresh_engine_call kp o s : fresh_call o s -> fresh_step s (run_op kp o s).

Lemma empty_ref_inv : ref_inv empty_engine.
Proof. split; try done; constructor. Qed.

Lemma fresh_steps_ref `{Host} s s' : rtc fresh_step s s' -> ref_inv s -> ref_inv s'.
Proof.
  induction 1 as [|s0 s1 s2 [kp o s0' Hf] _ IH]; [done|]. intros Hs. by apply IH, ref_run_op.
Qed.
