(* ===== verification/EngineRevoke.v ===== *)
(** EngineRevoke: revoking, compromising and rotating a device settles all the
    work that waits on it, or changes nothing. *)
From stdpp Require Import relations.
From S2P Require Import Prelude JsString JsMap Host TestHost JsTime JsJson Transitions Protocol DeviceKeys AuditLog ChallengeStore Engine EngineSteps EngineDevices EngineRefs.
#[local] Open Scope string_scope.
#[local] Open Scope list_scope.
#[local] Open Scope Z_scope.
#[local] Open Scope js_scope.

(** ** The second pass *)

Abbreviation plan := (jstr * jstr * option ChallengeRecord)%type.

(** A planned request ([true]) or transaction ([false]). *)
Abbreviation item := (bool * plan)%type.

Definition apart (p q : item) : Prop :=
  (p.1 = q.1 -> p.2.1.1 <> q.2.1.1) /\ p.2.1.2 <> q.2.1.2.

Section second_pass.
Context `{Host}.
Variable t : Z.

Definition settle_item (p : item) : St AirlockEngine (list jstr) :=
  if p.1 then invalidate_request (Some t) p.2 else invalidate_transaction (Some t) p.2.

(** The plan of an item still describes the state. *)
Definition accurate (p : item) (s : AirlockEngine) : Prop :=
  let '(key, id, oc) := p.2 in
  exists c, oc = Some c /\ map_get id (challenges s) = Some c /\
    (status c = c_created -> before_issuance c (Some t) = false) /\
    if p.1 then
      exists r, map_get key (provisioning s) = Some r /\
        pr_state r = trusted_device_challenge /\ challengeId (pr_challenge r) = id
    else
      exists x b, map_get key (transactions s) = Some x /\ tx_state x = confirmation_pending /\
        tx_challenge x = Some b /\ challengeId b = id.

Definition closed_status (st : ChallengeStatus) : Prop := st = c_cancelled \/ st = c_expired.

(** What the pass leaves of an item: declined with a closed challenge, or
    waiting on a challenge that was already confirmed. *)
Definition settled_item (p : item) (s : AirlockEngine) : Prop :=
  let '(key, id, _) := p.2 in
  exists c, map_get id (challenges s) = Some c /\
    if p.1 then
      exists r, map_get key (provisioning s) = Some r /\ challengeId (pr_challenge r) = id /\
        (pr_state r = p_declined /\ closed_status (status c) \/
         pr_state r = trusted_device_challenge /\ status c = c_confirmed)
    else
      exists x b, map_get key (transactions s) = Some x /\ tx_challenge x = Some b /\
        challengeId b = id /\
        (tx_state x = declined /\ capReservation x = None /\ closed_status (status c) \/
         tx_state x = confirmation_pending /\ status c = c_confirmed).

(** States that agree outside one item. *)
Record same_but (p : item) (s s' : AirlockEngine) : Prop := {
  sb_audit : audit s' = audit s;
  sb_devices : devices s' = devices s;
  sb_request : forall k, (p.1 = true -> k <> p.2.1.1) ->
    map_get k (provisioning s') = map_get k (provisioning s);
  sb_transaction : forall k, (p.1 = false -> k <> p.2.1.1) ->
    map_get k (transactions s') = map_get k (transactions s);
  sb_challenge : forall id, id <> p.2.1.2 -> map_get id (challenges s') = map_get id (challenges s);
}.

Lemma same_but_accurate p q s s' : apart p q -> same_but p s s' -> accurate q s -> accurate q s'.
Proof.
  destruct q as [k2 [[key2 id2] oc2]], p as [k1 [[key1 id1] oc1]]. intros [Hk Hid] [].
  unfold accurate. cbn in *. intros (c & -> & Hc & Hb & Hq). exists c.
  rewrite sb_challenge0 by done. split_and!; try done. destruct k2.
  - destruct Hq as (r & Hr & ?). exists r. rewrite sb_request0; [done|]. intros ->. by apply not_eq_sym, Hk.
  - destruct Hq as (x & b & Hx & ?). exists x, b. rewrite sb_transaction0; [done|]. intros ->. by apply not_eq_sym, Hk.
Qed.

Lemma same_but_settled p q s s' : apart p q -> same_but p s s' -> settled_item q s -> settled_item q s'.
Proof.
  destruct q as [k2 [[key2 id2] oc2]], p as [k1 [[key1 id1] oc1]]. intros [Hk Hid] [].
  unfold settled_item. cbn in *. intros (c & Hc & Hq). exists c.
  rewrite sb_challenge0 by done. split; [done|]. destruct k2.
  - destruct Hq as (r & Hr & ?). exists r. rewrite sb_request0; [done|]. intros ->. by apply not_eq_sym, Hk.
  - destruct Hq as (x & b & Hx & ?). exists x, b. rewrite sb_transaction0; [done|]. intros ->. by apply not_eq_sym, Hk.
Qed.

(** The challenge of an item, closed unless it was confirmed. *)
Lemma settle_challenge_run id c s :
  map_get id (challenges s) = Some c ->
  (status c = c_created -> before_issuance c (Some t) = false) ->
  exists cs, settle_challenge id (Some c) (Some t) s =
      (Ok (negb (bool_decide (status c = c_confirmed))), set_challenges cs s) /\
    (forall i, i <> id -> map_get i cs = map_get i (challenges s)) /\
    exists c', map_get id cs = Some c' /\
      (status c = c_confirmed /\ c' = c \/ status c <> c_confirmed /\ closed_status (status c')).
Proof.
  intros Hc Hb. unfold settle_challenge. cbn [fmap option_fmap option_map].
  destruct (status c) eqn:Est.
  - exists (map_set id (finish c_cancelled (iso_string t) c) (challenges s)). split.
    + cbv [mbind St_bind]. unfold on_challenges, zoom.
      by rewrite (cancel_open _ _ _ _ Hc Est (Hb eq_refl)).
    + split; [intros i Hi; by rewrite map_get_set_ne|].
      eexists. rewrite map_get_set_eq. split; [done|]. right. split; [done|]. by left.
  - exists (challenges s). split; [by destruct s|]. split; [done|]. exists c. rewrite Est. auto.
  - exists (challenges s). split; [by destruct s|]. split; [done|]. exists c.
    rewrite Est. split; [done|]. right. split; [done|]. by right.
  - exists (challenges s). split; [by destruct s|]. split; [done|]. exists c.
    rewrite Est. split; [done|]. right. split; [done|]. by left.
Qed.

Lemma set_request_state_run rid st r s :
  map_get rid (provisioning s) = Some r -> transitionProvisioning (pr_state r) st = Ok st ->
  set_request_state rid st s =
    (Ok tt, set_provisioning (map_set rid (set_pr_state st r) (provisioning s)) s).
Proof.
  intros Hr Ht. unfold set_request_state, must. cbv [mbind St_bind sget lift smodify].
  rewrite Hr, Ht. by rewrite (map_update_present _ _ _ _ Hr).
Qed.

Lemma set_transaction_state_run xid st x s :
  map_get xid (transactions s) = Some x -> transitionTransaction (tx_state x) st = Ok st ->
  set_transaction_state xid st s =
    (Ok tt, set_transactions (map_set xid (set_tx_state st x) (transactions s)) s).
Proof.
  intros Hr Ht. unfold set_transaction_state, must. cbv [mbind St_bind sget lift smodify].
  rewrite Hr, Ht. by rewrite (map_update_present _ _ _ _ Hr).
Qed.

Lemma release_run xid x s :
  map_get xid (transactions s) = Some x ->
  exists sp, releaseCapReservation xid s =
    (Ok tt, set_transactions (map_set xid (drop_reservation x) (transactions s))
              (set_dailySpend sp s)).
Proof.
  intros Hx. unfold releaseCapReservation. cbv [mbind St_bind sget smodify]. rewrite Hx.
  cbn [option_bind]. destruct (capReservation x) as [r|] eqn:Er.
  - eexists. cbn. by rewrite (map_update_present _ _ _ _ Hx).
  - exists (dailySpend s). assert (drop_reservation x = x) as ->.
    { destruct x. cbn in *. by subst. }
    rewrite map_set_same by done. by destruct s.
Qed.

Lemma settle_request_item p s :
  p.1 = true -> ref_inv s -> accurate p s ->
  exists ids s', settle_item p s = (Ok ids, s') /\ ref_inv s' /\ same_but p s s' /\ settled_item p s'.
Proof.
  destruct p as [k [[rid id] oc]]. cbn. intros -> Hs (c & -> & Hc & Hb & r & Hr & Hst & Hid).
  pose proof (ref_invalidate_request (Some t) (rid, id, Some c) s Hs) as Hs'.
  destruct (settle_challenge_run id c s Hc Hb) as (cs & E & Hcs & c' & Hc' & Hcase).
  unfold settle_item. cbn [fst snd]. unfold invalidate_request in *.
  cbv [mbind St_bind sget lift] in *. rewrite E in *.
  destruct (bool_decide (status c = c_confirmed)) eqn:Ebd; cbn [negb] in *.
  - apply bool_decide_eq_true in Ebd. destruct Hcase as [[_ ->]|[? _]]; [|done].
    eexists _, _. split; [done|]. split; [done|]. split; [by split|].
    unfold settled_item. cbn. exists c. split; [done|]. exists r. auto.
  - apply bool_decide_eq_false in Ebd. destruct Hcase as [[? _]|[_ Hcl]]; [done|].
    rewrite (set_request_state_run rid p_declined r) in * by (by rewrite ?Hst).
    cbn [provisioning tokens set_provisioning set_challenges] in *. unfold must in *.
    rewrite map_get_set_eq in *. cbn [pr_tokenId set_pr_state] in *.
    destruct (ri_request _ Hs _ _ Hr) as [_ _ [tk Htk] _ _ _]. rewrite Htk in *.
    assert (Hset : forall ts, settled_item (true, (rid, id, Some c))
      (set_tokens ts (set_provisioning (map_set rid (set_pr_state p_declined r) (provisioning s))
         (set_challenges cs s)))).
    { intros ts. unfold settled_item. cbn. exists c'. split; [done|].
      rewrite map_get_set_eq. eexists. split; [done|]. cbn. auto. }
    assert (Hsb : forall ts, same_but (true, (rid, id, Some c)) s
      (set_tokens ts (set_provisioning (map_set rid (set_pr_state p_declined r) (provisioning s))
         (set_challenges cs s)))).
    { intros ts. split; cbn; try done. intros k Hk. rewrite map_get_set_ne; [done|]. by apply Hk. }
    destruct (bool_decide (pt_state tk = t_pending)).
    + eexists _, _. split; [done|]. split; [exact Hs'|]. split; [apply Hsb|apply Hset].
    + eexists _, _. split; [done|]. split; [exact Hs'|].
      split; [apply (Hsb (tokens s))|apply (Hset (tokens s))].
Qed.

Lemma settle_transaction_item p s :
  p.1 = false -> ref_inv s -> accurate p s ->
  exists ids s', settle_item p s = (Ok ids, s') /\ ref_inv s' /\ same_but p s s' /\ settled_item p s'.
Proof.
  destruct p as [k [[xid id] oc]]. cbn. intros -> Hs (c & -> & Hc & Hb & x & b & Hx & Hst & Hch & Hid).
  pose proof (ref_invalidate_transaction (Some t) (xid, id, Some c) s Hs) as Hs'.
  destruct (settle_challenge_run id c s Hc Hb) as (cs & E & Hcs & c' & Hc' & Hcase).
  unfold settle_item. cbn [fst snd]. unfold invalidate_transaction in *.
  cbv [mbind St_bind] in *. rewrite E in *.
  destruct (bool_decide (status c = c_confirmed)) eqn:Ebd; cbn [negb] in *.
  - apply bool_decide_eq_true in Ebd. destruct Hcase as [[_ ->]|[? _]]; [|done].
    eexists _, _. split; [done|]. split; [done|]. split; [by split|].
    unfold settled_item. cbn. exists c. split; [done|]. exists x, b. auto 10.
  - apply bool_decide_eq_false in Ebd. destruct Hcase as [[? _]|[_ Hcl]]; [done|].
    rewrite (set_transaction_state_run xid declined x) in * by (by rewrite ?Hst).
    destruct (release_run xid (set_tx_state declined x)
      (set_transactions (map_set xid (set_tx_state declined x) (transactions (set_challenges cs s))) (set_challenges cs s)))
      as [sp Hsp]; [apply map_get_set_eq|]. rewrite Hsp in *.
    eexists _, _. split; [done|]. split; [exact Hs'|]. split.
    + split; cbn; try done. intros k Hk. rewrite !map_get_set_ne; [done|by apply Hk..].
    + unfold settled_item. cbn. exists c'. split; [done|]. rewrite map_get_set_eq.
      eexists _, b. split; [done|]. cbn. auto 10.
Qed.

Lemma settle_item_ok p s :
  ref_inv s -> accurate p s ->
  exists ids s', settle_item p s = (Ok ids, s') /\ ref_inv s' /\ same_but p s s' /\ settled_item p s'.
Proof. destruct (p.1) eqn:E; [by apply settle_request_item|by apply settle_transaction_item]. Qed.

(** The items come from different aggregates and name different challenges. *)
Fixpoint all_apart (l : list item) : Prop :=
  match l with
  | [] => True
  | p :: l => Forall (apart p) l /\ all_apart l
  end.

(** States that agree outside the items of a list. *)
Record same_but_all (l : list item) (s s' : AirlockEngine) : Prop := {
  sa_audit : audit s' = audit s;
  sa_devices : devices s' = devices s;
  sa_request : forall k, (forall p, p ∈ l -> p.1 = true -> k <> p.2.1.1) ->
    map_get k (provisioning s') = map_get k (provisioning s);
  sa_transaction : forall k, (forall p, p ∈ l -> p.1 = false -> k <> p.2.1.1) ->
    map_get k (transactions s') = map_get k (transactions s);
}.

Lemma apart_sym p q : apart p q -> apart q p.
Proof. intros [Hk Hi]. split; [intros E; by apply not_eq_sym, Hk|by apply not_eq_sym]. Qed.

Lemma settle_items_ok l s :
  ref_inv s -> all_apart l -> Forall (fun p => accurate p s) l ->
  exists ids s', collect settle_item l s = (Ok ids, s') /\ ref_inv s' /\
    same_but_all l s s' /\ Forall (fun p => settled_item p s') l /\
    (forall p, Forall (apart p) l -> settled_item p s -> settled_item p s').
Proof.
  revert s. induction l as [|p l IH]; intros s Hs Hap Hacc.
  { exists [], s. split; [done|]. split; [done|]. split; [by split|]. by split; [constructor|]. }
  destruct Hap as [Hp Hl]. apply Forall_cons in Hacc as [Hpa Hla].
  destruct (settle_item_ok p s Hs Hpa) as (ids & s1 & E1 & Hs1 & Hsb & Hset).
  destruct (IH s1 Hs1 Hl) as (rest & s2 & E2 & Hs2 & Hsa & Hfl & Hkeep).
  { rewrite Forall_forall in Hp, Hla. apply Forall_forall. intros q Hq.
    eapply same_but_accurate; eauto. }
  cbn [collect]. cbv [mbind St_bind]. rewrite E1, E2.
  exists (ids ++ rest), s2. split; [done|]. split; [done|]. split; [|split].
  - destruct Hsb, Hsa. split; [congruence|congruence|..].
    + intros k Hk. rewrite sa_request0, sb_request0; [done| |].
      * apply Hk. constructor.
      * intros q Hq. apply Hk. by constructor.
    + intros k Hk. rewrite sa_transaction0, sb_transaction0; [done| |].
      * apply Hk. constructor.
      * intros q Hq. apply Hk. by constructor.
  - constructor; [by apply Hkeep|done].
  - intros q Hq Hqs. apply Forall_cons in Hq as [Hqp Hql]. apply Hkeep; [done|].
    eapply same_but_settled; [|done|done]. by apply apart_sym.
Qed.

Lemma collect_app {A} (f : A -> St AirlockEngine (list jstr)) l1 l2 s ids s' :
  collect f (l1 ++ l2) s = (Ok ids, s') ->
  exists ids1 ids2, (collect f l1 ≫= fun a => collect f l2 ≫= fun b => mret (a ++ b)) s =
    (Ok (ids1 ++ ids2), s') /\ ids = ids1 ++ ids2.
Proof.
  revert s ids. induction l1 as [|x l1 IH]; intros s ids; cbn [app collect].
  - intros E. cbv [mbind St_bind mret St_ret]. rewrite E. by exists [], ids.
  - cbv [mbind St_bind mret St_ret] in *. destruct (f x s) as [[a|] s1]; [|done].
    destruct (collect f (l1 ++ l2) s1) as [[rest|] s2] eqn:E; [|done]. intros [= <- <-].
    destruct (IH _ _ E) as (ids1 & ids2 & E' & ->).
    destruct (collect f l1 s1) as [[b|] s3]; [|done].
    destruct (collect f l2 s3) as [[c|] s4]; [|done]. injection E' as Ebc ->.
    exists (a ++ ids1), ids2. split; [|by rewrite app_assoc]. by rewrite <-!app_assoc, Ebc.
Qed.

Lemma collect_map {A B} (f : B -> St AirlockEngine (list jstr)) (g : A -> B) l s :
  collect f (map g l) s = collect (fun x => f (g x)) l s.
Proof.
  revert s. induction l as [|x l IH]; intros s; [done|]. cbn [map collect].
  cbv [mbind St_bind]. destruct (f (g x) s) as [[a|] s1]; [|done]. by rewrite IH.
Qed.
End second_pass.

(** ** The plan *)

Section plan.
Context `{Host}.
Variable t : Z.

Lemma all_apart_map {A} (g : A -> item) l :
  NoDup l -> (forall x y, x ∈ l -> y ∈ l -> x <> y -> apart (g x) (g y)) -> all_apart (map g l).
Proof.
  induction 1 as [|x l Hx Hl IH]; intros Hg; [done|]. split.
  - apply Forall_forall. intros q (y & -> & Hy)%list_elem_of_fmap.
    apply Hg; [constructor|by constructor|]. by intros ->.
  - apply IH. intros y z Hy Hz. apply Hg; by constructor.
Qed.

Lemma all_apart_app l1 l2 :
  all_apart l1 -> all_apart l2 -> (forall p q, p ∈ l1 -> q ∈ l2 -> apart p q) ->
  all_apart (l1 ++ l2).
Proof.
  induction l1 as [|p l1 IH]; [done|]. intros [Hp H1] H2 Hx. cbn [app all_apart]. split.
  - apply Forall_app. split; [done|]. apply Forall_forall. intros q Hq. apply Hx; [constructor|done].
  - apply IH; [done|done|]. intros q r Hq Hr. apply Hx; [by constructor|done].
Qed.

Lemma refers_same_id b1 b2 cs :
  refers b1 cs -> refers b2 cs -> challengeId b1 = challengeId b2 -> b1 = b2.
Proof. intros (c1 & H1 & <-) (c2 & H2 & <-) E. rewrite E in H1. congruence. Qed.

Lemma filter_NoDup {A} (f : A -> bool) l : NoDup l -> NoDup (List.filter f l).
Proof.
  induction 1 as [|x l Hx Hl IH]; [constructor|]. cbn. destruct (f x); [|done].
  constructor; [|done]. rewrite list_elem_of_In, filter_In, <-list_elem_of_In. tauto.
Qed.

Lemma map_wf_NoDup {V} (m : list (jstr * V)) : map_wf m -> NoDup m.
Proof. unfold map_wf. apply NoDup_fmap_1. Qed.

Lemma waiting_request_spec deviceId rid r s :
  map_wf (provisioning s) ->
  (rid, r) ∈ waiting_requests deviceId s <->
  map_get rid (provisioning s) = Some r /\ pr_trustedDeviceId r = deviceId /\
  pr_state r = trusted_device_challenge.
Proof.
  intros Hwf. unfold waiting_requests. rewrite list_elem_of_In, filter_In, <-list_elem_of_In.
  cbn. rewrite andb_true_iff, jeqb_true, bool_decide_eq_true. split.
  - intros (Hin & ?). split; [by apply map_in_get|done].
  - intros (Hg & ?). split; [by apply map_get_in|done].
Qed.

Lemma waiting_transaction_spec deviceId xid x s :
  map_wf (transactions s) ->
  (xid, x) ∈ waiting_transactions deviceId s <->
  map_get xid (transactions s) = Some x /\ trustedDeviceId <$> tx_challenge x = Some deviceId /\
  tx_state x = confirmation_pending.
Proof.
  intros Hwf. unfold waiting_transactions. rewrite list_elem_of_In, filter_In, <-list_elem_of_In.
  cbn. rewrite andb_true_iff, !bool_decide_eq_true. split.
  - intros (Hin & ?). split; [by apply map_in_get|done].
  - intros (Hg & ?). split; [by apply map_get_in|done].
Qed.

Definition items (deviceId : jstr) (s : AirlockEngine) : list item :=
  map (fun p => (true, request_plan s p)) (waiting_requests deviceId s) ++
  map (fun p => (false, transaction_plan s p)) (waiting_transactions deviceId s).

Lemma items_apart deviceId s : ref_inv s -> all_apart (items deviceId s).
Proof.
  intros [Hp Hx Hr Ho Ht]. apply all_apart_app; [apply all_apart_map..|].
  - by apply filter_NoDup, map_wf_NoDup.
  - intros [k1 r1] [k2 r2] H1 H2 Hne.
    apply waiting_request_spec in H1 as (G1 & _); [|done].
    apply waiting_request_spec in H2 as (G2 & _); [|done].
    assert (Hk : k1 <> k2) by (intros ->; apply Hne; congruence).
    split; cbn; [done|]. intros Eid. apply Hk.
    destruct (Hr _ _ G1) as [_ R1 _ _ B1 _], (Hr _ _ G2) as [_ R2 _ _ B2 _].
    apply (Ho _ _ _ _ G1 G2). rewrite <-B1, <-B2.
    by rewrite (refers_same_id _ _ _ R1 R2 Eid).
  - by apply filter_NoDup, map_wf_NoDup.
  - intros [k1 x1] [k2 x2] H1 H2 Hne.
    apply waiting_transaction_spec in H1 as (G1 & _); [|done].
    apply waiting_transaction_spec in H2 as (G2 & _); [|done].
    assert (Hk : k1 <> k2) by (intros ->; apply Hne; congruence).
    destruct (Ht _ _ G1) as [_ (b1 & E1 & R1 & _ & T1)], (Ht _ _ G2) as [_ (b2 & E2 & R2 & _ & T2)].
    split; cbn; [done|]. rewrite E1, E2. intros Eid. apply Hk.
    rewrite (refers_same_id _ _ _ R1 R2 Eid) in T1. congruence.
  - intros p q ([k1 r1] & -> & H1)%list_elem_of_fmap ([k2 x2] & -> & H2)%list_elem_of_fmap.
    apply waiting_request_spec in H1 as (G1 & _); [|done].
    apply waiting_transaction_spec in H2 as (G2 & _); [|done].
    destruct (Hr _ _ G1) as [_ R1 _ P1 _ _], (Ht _ _ G2) as [_ (b2 & E2 & R2 & P2 & _)].
    split; cbn; [done|]. rewrite E2. intros Eid.
    rewrite (refers_same_id _ _ _ R1 R2 Eid) in P1. rewrite P2 in P1. by vm_compute in P1.
Qed.

Lemma plan_check_Ok p c :
  p.2 = Some c -> plan_check (Some t) p = Ok tt ->
  status c = c_created -> before_issuance c (Some t) = false.
Proof.
  unfold plan_check, before_issuance. intros -> Hc%throw_if_Ok Est.
  by rewrite bool_decide_true in Hc.
Qed.

Lemma items_accurate deviceId s :
  ref_inv s ->
  for_each (map (request_plan s) (waiting_requests deviceId s) ++
            map (transaction_plan s) (waiting_transactions deviceId s)) (plan_check (Some t)) = Ok tt ->
  Forall (fun p => accurate t p s) (items deviceId s).
Proof.
  intros [Hp Hx Hr Ho Ht] [Hc1 Hc2]%for_each_Ok%Forall_app. apply Forall_app.
  rewrite Forall_forall in Hc1, Hc2. split; apply Forall_forall.
  - intros p ([k r] & -> & Hin)%list_elem_of_fmap.
    assert (Hck : plan_check (Some t) (request_plan s (k, r)) = Ok tt).
    { apply Hc1. by apply list_elem_of_fmap_2. }
    apply waiting_request_spec in Hin as (G & _ & Hst); [|done].
    destruct (Hr _ _ G) as [_ (c & Hc & _) _ _ _ _]. unfold accurate, request_plan. cbn.
    unfold get. rewrite Hc. exists c. split_and!; try done.
    + eapply (plan_check_Ok (k, _, Some c)); [done|]. unfold request_plan, get in Hck. cbn in Hck.
      by rewrite Hc in Hck.
    + by exists r.
  - intros p ([k x] & -> & Hin)%list_elem_of_fmap.
    assert (Hck : plan_check (Some t) (transaction_plan s (k, x)) = Ok tt).
    { apply Hc2. by apply list_elem_of_fmap_2. }
    apply waiting_transaction_spec in Hin as (G & _ & Hst); [|done].
    destruct (Ht _ _ G) as [_ (b & Eb & (c & Hc & _) & _)]. unfold accurate, transaction_plan in *.
    cbn in *. unfold get in *. rewrite Eb in *. rewrite Hc in *. exists c. split_and!; try done.
    + by eapply (plan_check_Ok (k, _, Some c)).
    + by exists x, b.
Qed.

(** No work of the device is waiting on a challenge that is not confirmed. *)
Definition nothing_waiting (deviceId : jstr) (s : AirlockEngine) : Prop :=
  (forall rid r, map_get rid (provisioning s) = Some r -> pr_trustedDeviceId r = deviceId ->
     pr_state r = trusted_device_challenge ->
     exists c, map_get (challengeId (pr_challenge r)) (challenges s) = Some c /\
               status c = c_confirmed) /\
  (forall xid x b, map_get xid (transactions s) = Some x -> tx_challenge x = Some b ->
     trustedDeviceId b = deviceId -> tx_state x = confirmation_pending ->
     exists c, map_get (challengeId b) (challenges s) = Some c /\ status c = c_confirmed).

Lemma items_nothing_waiting deviceId s s' :
  ref_inv s -> same_but_all (items deviceId s) s s' ->
  Forall (fun p => settled_item p s') (items deviceId s) -> nothing_waiting deviceId s'.
Proof.
  intros [Hp Hx Hr Ho Ht] [_ _ Sr Sx] Hall. rewrite Forall_forall in Hall. split.
  - intros rid r Hg Hdev Hst.
    destruct (decide (rid ∈ (waiting_requests deviceId s).*1)) as [Hin|Hin].
    + apply list_elem_of_fmap in Hin as ([k r0] & -> & Hin).
      assert (Hset : settled_item (true, request_plan s (k, r0)) s').
      { apply Hall, elem_of_app. left. by apply (list_elem_of_fmap_2 (fun p => (true, request_plan s p))). }
      destruct Hset as (c & Hc & u & Hu & Hid & Hcase). cbn in Hu, Hid.
      assert (u = r) as -> by (cbn in Hg; congruence). rewrite Hid. exists c. split; [done|].
      destruct Hcase as [[? _]|[_ ?]]; congruence.
    + rewrite Sr in Hg.
      * destruct Hin. apply list_elem_of_fmap. exists (rid, r). split; [done|].
        by apply waiting_request_spec.
      * intros p [([k r0] & -> & Hk)%list_elem_of_fmap|([k r0] & -> & Hk)%list_elem_of_fmap]%elem_of_app; [|done].
        intros _ ->. apply Hin. apply list_elem_of_fmap. by exists (k, r0).
  - intros xid x b Hg Hb Hdev Hst.
    destruct (decide (xid ∈ (waiting_transactions deviceId s).*1)) as [Hin|Hin].
    + apply list_elem_of_fmap in Hin as ([k x0] & -> & Hin).
      assert (Hset : settled_item (false, transaction_plan s (k, x0)) s').
      { apply Hall, elem_of_app. right. by apply (list_elem_of_fmap_2 (fun p => (false, transaction_plan s p))). }
      destruct Hset as (c & Hc & u & b' & Hu & Hb' & Hid & Hcase). cbn in Hu, Hid.
      assert (u = x) as -> by (cbn in Hg; congruence).
      assert (b' = b) as -> by congruence. rewrite Hid. exists c. split; [done|].
      destruct Hcase as [[? _]|[_ ?]]; congruence.
    + rewrite Sx in Hg.
      * destruct Hin. apply list_elem_of_fmap. exists (xid, x). split; [done|].
        apply waiting_transaction_spec; [done|]. split; [done|]. split; [|done]. rewrite Hb. cbn. congruence.
      * intros p [([k x0] & -> & Hk)%list_elem_of_fmap|([k x0] & -> & Hk)%list_elem_of_fmap]%elem_of_app; [done|].
        intros _ ->. apply Hin. apply list_elem_of_fmap. by exists (k, x0).
Qed.

Lemma invalidate_all_or_nothing deviceId s :
  ref_inv s ->
  (exists msg, invalidateOutstandingChallenges deviceId (Some t) s = (Throw msg, s)) \/
  exists ids s', invalidateOutstandingChallenges deviceId (Some t) s = (Ok ids, s') /\
    ref_inv s' /\ audit s' = audit s /\ devices s' = devices s /\ nothing_waiting deviceId s'.
Proof.
  intros Hs. unfold invalidateOutstandingChallenges. cbv zeta.
  set (m1 := map (request_plan s) (waiting_requests deviceId s)).
  set (m2 := map (transaction_plan s) (waiting_transactions deviceId s)).
  destruct (for_each (m1 ++ m2) (plan_check (Some t))) as [[]|msg] eqn:Ec.
  2: { left. exists msg. cbv [mbind St_bind sget lift]. fold m1 m2. by rewrite Ec. }
  right. pose proof (items_accurate _ _ Hs Ec) as Hacc.
  destruct (settle_items_ok t _ _ Hs (items_apart _ _ Hs) Hacc)
    as (ids & s' & E & Hs' & Hsa & Hset & _).
  exists ids, s'. split_and!; try done.
  - unfold items in E. apply collect_app in E as (ids1 & ids2 & E & ->).
    cbv [mbind St_bind sget lift mret St_ret] in *. fold m1 m2. rewrite Ec.
    assert (E1 : forall s0, collect (settle_item t)
        (map (fun p => (true, request_plan s p)) (waiting_requests deviceId s)) s0 =
      collect (invalidate_request (Some t)) m1 s0) by (intros; subst m1 m2; by rewrite !collect_map).
    assert (E2 : forall s0, collect (settle_item t)
        (map (fun p => (false, transaction_plan s p)) (waiting_transactions deviceId s)) s0 =
      collect (invalidate_transaction (Some t)) m2 s0) by (intros; subst m1 m2; by rewrite !collect_map).
    rewrite E1 in E. destruct (collect (invalidate_request _) m1 s) as [[a|] s1]; [|done].
    rewrite E2 in E. exact E.
  - by destruct Hsa.
  - by destruct Hsa.
  - by apply (items_nothing_waiting _ s).
Qed.
End plan.

(** ** The three operations *)

Section device_actions.
Context `{Host}.

(** A call that takes a device's key out of use at time [t], and what it does
    to the device. *)
Inductive device_action (id : jstr) (t : Z)
  : St AirlockEngine TrustedDevice -> (TrustedDevice -> TrustedDevice) -> Prop :=
| act_revoke now e : or_now now e 0 = Some t ->
    device_action id t (revokeTrustedDevice None id now e) (set_td_status d_revoked)
| act_compromise now e : or_now now e 0 = Some t ->
    device_action id t (markTrustedDeviceCompromised None id now e) (set_td_status d_revoked)
| act_rotate keys now e : or_now now e 0 = Some t ->
    device_action id t (rotateTrustedDeviceKey None id keys now e)
      (set_td_key (ek_keyId keys) (ek_algorithm keys) (ek_publicKeyPem keys)).

(** The outcome of an action on an active device. *)
Definition action_outcome (id : jstr) (s : AirlockEngine) (d d' : TrustedDevice)
    (res : result TrustedDevice * AirlockEngine) : Prop :=
  (exists msg, res = (Throw msg, s)) \/
  exists s', res = (Ok d', s') /\ td_status d = d_active /\
    map_get id (devices s') = Some d' /\
    (forall i, i <> id -> map_get i (devices s') = map_get i (devices s)) /\
    nothing_waiting id s' /\ exists event, audit s' = audit s ++ [event].

(** The tail of the three operations. *)
Lemma action_tail id t f ty corr pl uuid s d :
  ref_inv s -> map_get id (devices s) = Some d -> td_status d = d_active ->
  action_outcome id s d (f d)
    ((invalidateOutstandingChallenges id (Some t) ≫= fun ids =>
      device_update id f ≫= fun _ =>
      audit_append None ty corr (pl ids) (Some t) uuid ≫= fun _ => must_device id) s).
Proof.
  intros Hs Hd Hst. cbv [mbind St_bind].
  destruct (invalidate_all_or_nothing t id s Hs) as [[msg ->]|(ids & s1 & -> & _ & Ea & Ed & Hn)];
    [left; by eexists|right].
  unfold device_update, audit_append, on_audit, zoom, smodify, must_device, sget, lift.
  cbv [mbind St_bind mret St_ret]. cbn [audit set_devices]. rewrite append_plain.
  rewrite Ea, Ed. cbn [devices set_audit set_devices]. unfold must.
  rewrite map_get_update, bool_decide_true, Hd by done. cbn [fmap option_fmap option_map].
  eexists. split; [done|]. split; [done|]. cbn. split_and!.
  - by rewrite map_get_update, bool_decide_true, Hd.
  - intros i Hi. by rewrite map_get_update, bool_decide_false.
  - exact Hn.
  - by eexists.
Qed.

(** revoking, compromising or rotating a device at a valid time either
    throws and changes nothing, or succeeds as a whole: the device changes as
    asked, no other device does, one event is logged, and no provisioning
    request or transaction waits on a challenge that the retired key could
    still answer. *)
Theorem device_action_atomic (s : AirlockEngine) (id : jstr) (t : Z)
    (m : St AirlockEngine TrustedDevice) (f : TrustedDevice -> TrustedDevice)
    (Hr : rtc fresh_step empty_engine s) (Hm : device_action id t m f) :
  (exists msg, m s = (Throw msg, s)) \/
  exists d s', map_get id (devices s) = Some d /\ td_status d = d_active /\
    m s = (Ok (f d), s') /\ map_get id (devices s') = Some (f d) /\
    (forall i, i <> id -> map_get i (devices s') = map_get i (devices s)) /\
    nothing_waiting id s' /\ exists event, audit s' = audit s ++ [event].
Proof.
  apply fresh_steps_ref in Hr; [|apply empty_ref_inv].
  assert (Hout : forall d, map_get id (devices s) = Some d ->
    action_outcome id s d (f d) (m s) -> (exists msg, m s = (Throw msg, s)) \/
      exists d s', map_get id (devices s) = Some d /\ td_status d = d_active /\
        m s = (Ok (f d), s') /\ map_get id (devices s') = Some (f d) /\
        (forall i, i <> id -> map_get i (devices s') = map_get i (devices s)) /\
        nothing_waiting id s' /\ exists event, audit s' = audit s ++ [event]).
  { intros d Hd [?|(s' & ?)]; [by left|right]. exists d, s'. tauto. }
  assert (Hact : forall d, td_status d <> d_revoked -> td_status d = d_active).
  { intros d. by destruct (td_status d). }
  destruct (map_get id (devices s)) as [d|] eqn:Hd.
  2: { left. destruct Hm; unfold revokeTrustedDevice, markTrustedDeviceCompromised,
         rotateTrustedDeviceKey, must_device, must; cbv [mbind St_bind sget lift];
         rewrite Hd; by eexists. }
  apply (Hout d eq_refl). clear Hout.
  assert (Hmd : must_device id s = (Ok d, s)) by (unfold must_device, must; cbv [mbind St_bind sget lift]; by rewrite Hd).
  destruct Hm as [now e Ht|now e Ht|keys now e Ht].
  - unfold revokeTrustedDevice. rewrite Ht. cbv zeta. unfold mbind at 1, St_bind at 1. rewrite Hmd.
    unfold mbind at 1, St_bind at 1, lift at 1, throw_if at 1.
    case_bool_decide as Hst; [left; by eexists|].
    apply (action_tail id t _ _ _ (fun ids => _)); auto.
  - unfold markTrustedDeviceCompromised. rewrite Ht. cbv zeta. unfold mbind at 1, St_bind at 1. rewrite Hmd.
    unfold mbind at 1, St_bind at 1, lift at 1, throw_if at 1.
    case_bool_decide as Hst; [left; by eexists|].
    apply (action_tail id t _ _ _ (fun ids => _)); auto.
  - unfold rotateTrustedDeviceKey. rewrite Ht. cbv zeta. unfold mbind at 1, St_bind at 1. rewrite Hmd.
    unfold mbind at 1, St_bind at 1, sget at 1.
    do 8 (unfold mbind at 1, St_bind at 1, lift at 1;
      match goal with |- context [match ?r with Ok _ => _ | Throw _ => _ end] =>
        destruct r eqn:?; [|left; by eexists] end).
    apply (action_tail id t _ _ _ (fun ids => _)); auto.
    match goal with Hst : throw_if (bool_decide (td_status d <> d_active)) _ = _ |- _ =>
      apply throw_if_Ok, bool_decide_eq_false in Hst end.
    by destruct (td_status d); [|exfalso; auto].
Qed.
End device_actions.

(** ** Instances *)

Section sample.
#[local] Existing Instance test_host.

Lemma fresh_call_step kp o s0 s :
  rtc fresh_step s0 s -> fresh_call o s -> rtc fresh_step s0 (run_op kp o s).
Proof. intros Hs Hf. eapply rtc_r; [exact Hs|by constructor]. Qed.

Lemma sample_fresh_4 : rtc fresh_step empty_engine state_4.
Proof.
  apply (fresh_call_step None authorize_1 _ state_3); [|by vm_compute].
  apply (fresh_call_step None approve_1 _ state_2); [|done].
  apply (fresh_call_step None request_1 _ state_1); [|by vm_compute].
  by apply (fresh_call_step None enroll_1 _ empty_engine).
Qed.

(** Revoking the device while its transaction is pending. *)
Lemma device_action_atomic_witness :
  exists d s', td_status d = d_active /\
    revokeTrustedDevice None "device-1" (Some (Some (noon + 2000))) (at_time noon "revoke") state_4 =
      (Ok (set_td_status d_revoked d), s') /\ nothing_waiting "device-1" s'.
Proof.
  destruct (device_action_atomic state_4 "device-1" (noon + 2000) _ _ sample_fresh_4
    (act_revoke "device-1" (noon + 2000) (Some (Some (noon + 2000))) (at_time noon "revoke") eq_refl))
    as [[msg Hx]|(d & s' & _ & Hst & E & _ & _ & Hn & _)].
  - exfalso. apply (f_equal (fun p => is_ok p.1)) in Hx. by vm_compute in Hx.
  - exists d, s'. split; [exact Hst|]. split; [exact E|exact Hn].
Defined.
End sample.
