(* ===== verification/EngineFlow.v ===== *)
(** EngineFlow: what provisioning, confirmation, timeout and clearing do to an
    aggregate, the history of a transaction under any calls, and the runs that
    show where the engine admits more, or less, than its documents say. *)
From stdpp Require Import relations.
From S2P Require Import Prelude JsString JsMap Host TestHost JsTime JsJson Transitions Protocol DeviceKeys AuditLog ChallengeStore Engine EngineSteps EngineCap EngineDevices EngineRefs EngineRevoke.
#[local] Open Scope string_scope.
#[local] Open Scope list_scope.
#[local] Open Scope Z_scope.
#[local] Open Scope js_scope.

(** ** The history of a transaction *)

Section history.
Context `{Host}.
Variable kp : option AuditKeyProvider.
Variables (xid : jstr) (x : TransactionRecord).

(** What a transaction may have become: the terms of the payment are fixed,
    its state moved along the transition table, its reservation at most
    dropped. *)
Definition later_version (y : TransactionRecord) : Prop :=
  rtc tx_step (tx_state x) (tx_state y) /\
  tx_transactionId y = tx_transactionId x /\ tx_tokenId y = tx_tokenId x /\
  tx_merchantId y = tx_merchantId x /\ tx_amountMinor y = tx_amountMinor x /\
  tx_currency y = tx_currency x /\ tx_strategy y = tx_strategy x /\
  tx_challenge y = tx_challenge x /\
  (capReservation y = capReservation x \/ capReservation y = None).

Definition history (s : AirlockEngine) : Prop :=
  exists y, map_get xid (transactions s) = Some y /\ later_version y.

Lemma history_frame s s' : transactions s' = transactions s -> history s -> history s'.
Proof. unfold history. by intros ->. Qed.

Lemma history_audit ty corr pl now uuid : keeps history (audit_append kp ty corr pl now uuid).
Proof. unfold audit_append, on_audit. keeps_steps; try done. by apply keeps_zoom. Qed.

Lemma history_challenges {A} (m : St store A) : keeps history (on_challenges m).
Proof. by apply keeps_zoom. Qed.

Lemma history_set_state id st : keeps history (set_transaction_state id st).
Proof.
  unfold set_transaction_state. apply keeps_read. intros s Hs.
  apply at_lift_bind; [done|]. intros z Hz%must_Ok.
  apply at_lift_bind; [done|]. intros st' Ht.
  cbn [smodify snd]. destruct Hs as (y & Hy & Hl). unfold history. cbn.
  rewrite map_get_update. case_bool_decide as E; [|by exists y].
  subst id. rewrite Hy. cbn. eexists. split; [done|].
  assert (z = y) as -> by congruence.
  apply transitionTransaction_Ok in Ht as E. destruct E as [-> _].
  unfold later_version in *. cbn. destruct Hl as (Hrun & Hrest). split; [|tauto].
  eapply rtc_r; [exact Hrun|]. exact Ht.
Qed.

Lemma history_release id : keeps history (releaseCapReservation id).
Proof.
  unfold releaseCapReservation. keeps_steps; [done|].
  match goal with Hs : history _ |- _ => destruct Hs as (y & Hy & Hl) end.
  unfold history. cbn. rewrite map_get_update. case_bool_decide as E; [|by exists y].
  subst id. rewrite Hy. cbn. eexists. split; [done|].
  unfold later_version in *. cbn. tauto.
Qed.

Ltac keeps_history :=
  keeps_steps;
  repeat first [ apply history_audit | apply history_challenges | apply history_set_state
               | apply history_release ];
  keeps_steps; try done.

Lemma history_invalidate deviceId now : keeps history (invalidateOutstandingChallenges deviceId now).
Proof.
  assert (Hsettle : forall id c, keeps history (settle_challenge id c now)).
  { intros id c. unfold settle_challenge. destruct (status <$> c) as [[]|]; keeps_history. }
  unfold invalidateOutstandingChallenges. keeps_steps; apply keeps_collect; intros [[? ?] ?];
    unfold invalidate_request, invalidate_transaction, set_request_state, set_token;
    keeps_steps; try apply Hsettle; keeps_history.
Qed.

Lemma history_new id y s :
  map_get id (transactions s) = None -> history s ->
  history (set_transactions (map_set id y (transactions s)) s).
Proof.
  intros Hn (z & Hz & Hl). exists z. split; [|done]. cbn. rewrite map_get_set_ne; [done|].
  intros ->. congruence.
Qed.

Lemma history_authorize input e : keeps history (authorize kp input e).
Proof.
  unfold authorize. apply keeps_read. intros s Hs.
  apply at_lift_bind; [done|]. intros [] Hh%throw_if_Ok%map_has_false.
  destruct (safe_between _ _ _) as [a|]; [|done].
  apply at_lift_bind; [done|]. intros [] _. apply at_lift_bind; [done|]. intros token _.
  apply at_lift_bind; [done|]. intros [] _. apply at_lift_bind; [done|]. intros device _. cbv zeta.
  apply at_lift_bind; [done|]. intros [] _.
  set (J := fun s' : AirlockEngine => history s' /\ map_get (ai_transactionId input) (transactions s') = None).
  apply (at_keeps_bind _ J); [|done|by intros s' [? _]|].
  { unfold reserve_spend. keeps_steps. done. }
  intros o s' [Hs' Hn]. apply at_lift_bind; [done|]. intros st _.
  unfold on_challenges. apply at_zoom_bind; [done|]. intros b cs. apply at_modify_bind.
  match goal with |- history (?m _).2 => assert (Hm : keeps history m) by keeps_history; apply Hm end.
  by apply history_new.
Qed.

Lemma history_run_op o : forall s, history s -> history (run_op kp o s).
Proof.
  intros s Hs.
  assert (Hk : forall {A} (m : St AirlockEngine A), keeps history m -> history (m s).2)
    by (intros A m Hm; by apply Hm).
  destruct o; cbn [run_op]; apply Hk.
  - unfold enrollTrustedDevice. keeps_history.
  - unfold revokeTrustedDevice, must_device, device_update. keeps_steps; try apply history_invalidate; keeps_history.
  - unfold markTrustedDeviceCompromised, must_device, device_update. keeps_steps; try apply history_invalidate; keeps_history.
  - unfold rotateTrustedDeviceKey, must_device, device_update. keeps_steps; try apply history_invalidate; keeps_history.
  - unfold requestProvisioning. keeps_history.
  - unfold approveProvisioning, must_request, set_request_state, set_token. keeps_history.
  - apply history_authorize.
  - unfold confirmTransaction, must_transaction. keeps_history.
  - unfold expireAndReverse, must_transaction. keeps_history.
  - unfold receiveClearing, must_transaction. keeps_history.
Qed.
End history.

Section flow.
Context `{Host}.

(** whatever calls follow, a recorded transaction keeps its identifier,
    token, merchant, amount, currency, strategy and challenge; its state only
    moves along the transition table and its reservation is at most dropped. *)
Theorem transaction_history (s s' : AirlockEngine) (xid : jstr) (x : TransactionRecord)
    (Hx : map_get xid (transactions s) = Some x) (Hs : rtc engine_step s s') :
  exists y, map_get xid (transactions s') = Some y /\
    rtc tx_step (tx_state x) (tx_state y) /\
    tx_transactionId y = tx_transactionId x /\ tx_tokenId y = tx_tokenId x /\
    tx_merchantId y = tx_merchantId x /\ tx_amountMinor y = tx_amountMinor x /\
    tx_currency y = tx_currency x /\ tx_strategy y = tx_strategy x /\
    tx_challenge y = tx_challenge x /\
    (capReservation y = capReservation x \/ capReservation y = None).
Proof.
  assert (Hh : history xid x s).
  { exists x. split; [done|]. unfold later_version. repeat split; [constructor|by left]. }
  clear Hx. induction Hs as [|s0 s1 s2 [kp o s0'] _ IH]; [exact Hh|].
  by apply IH, history_run_op.
Qed.

(** ** Clearing *)

(** The state a clearing message leads to. *)
Definition clearing_result (st : TransactionState) : option TransactionState :=
  match st with
  | confirmed => Some settled
  | expired | reversal_requested | reversed => Some exception
  | _ => None
  end.

(** A clearing message settles a confirmed transaction, turns one that was
    already expired or reversed into an exception, and is refused for any
    other, changing nothing; only that transaction's state and the audit log
    change. *)
Theorem clearing_outcome (s : AirlockEngine) (xid : jstr) (x : TransactionRecord) (t : Z)
    (now : option Date) (e : Env)
    (Hx : map_get xid (transactions s) = Some x) (Hnow : or_now now e 0 = Some t) :
  match clearing_result (tx_state x) with
  | Some st => exists event,
      receiveClearing None xid now e s =
        (Ok (set_tx_state st x),
         set_audit (audit s ++ [event])
           (set_transactions (map_set xid (set_tx_state st x) (transactions s)) s))
  | None => exists msg, receiveClearing None xid now e s = (Throw msg, s)
  end.
Proof.
  unfold receiveClearing, must_transaction. rewrite Hnow. cbv zeta.
  assert (Hm : must "transaction" xid (transactions s) = Ok x) by by apply must_Ok.
  assert (Hok : forall st final tail,
    transitionTransaction (tx_state x) clearing_received = Ok clearing_received ->
    transitionTransaction clearing_received final = Ok final -> st = final ->
    exists event, (set_transaction_state xid clearing_received ≫= fun _ =>
        set_transaction_state xid final ≫= fun _ =>
        audit_append None "transaction.clearing_received" xid tail (Some t) (env_uuid e 0) ≫= fun _ =>
        sget ≫= fun s => lift (must "transaction" xid (transactions s))) s =
      (Ok (set_tx_state st x),
       set_audit (audit s ++ [event])
         (set_transactions (map_set xid (set_tx_state st x) (transactions s)) s))).
  { intros st final tail H1 H2 ->. cbv [mbind St_bind].
    rewrite (set_transaction_state_run xid clearing_received x) by done.
    rewrite (set_transaction_state_run xid final (set_tx_state clearing_received x))
      by (cbn; first [apply map_get_set_eq|done]).
    unfold audit_append, on_audit, zoom. cbv [mbind St_bind mret St_ret sget lift].
    rewrite append_plain. eexists. cbn. unfold must. rewrite map_set_set, map_get_set_eq. done. }
  assert (Hno : (exists msg, transitionTransaction (tx_state x) clearing_received = Throw msg) ->
    forall k : unit -> St AirlockEngine TransactionRecord,
    exists msg, (set_transaction_state xid clearing_received ≫= k) s = (Throw msg, s)).
  { intros [msg Ht] k. exists msg. unfold set_transaction_state, must in *.
    cbv [mbind St_bind sget lift]. by rewrite Hx, Ht. }
  cbv [mbind St_bind sget lift] in *. rewrite Hm.
  destruct (tx_state x) eqn:Est; cbn [clearing_result];
    first [by apply Hok | by (apply Hno; eexists)].
Qed.

(** ** Approvals *)

Lemma requireActive_Ok id D d :
  requireActiveDevice id None D = Ok d -> map_get id D = Some d /\ td_status d = d_active.
Proof.
  unfold requireActiveDevice. intros (d0 & Hd%must_Ok & E)%result_bind_Ok. revert E.
  rewrite !throw_if_bind_Ok. intros (Hst & _ & [= <-]). split; [done|].
  apply bool_decide_eq_false in Hst. destruct (td_status d0); [done|]. by destruct Hst.
Qed.

Lemma consume_in_engine a pk now alg s c s1 :
  on_challenges (consume a pk now alg) s = (Ok c, s1) ->
  exists r t, map_get (challengeId (ap_binding a)) (challenges s) = Some r /\
    status r = c_created /\ approved_for a pk alg r /\ now = Some t /\
    past_expiry r (Some t) = false /\
    s1 = set_challenges (map_set (challengeId (ap_binding a))
           (finish c_confirmed (iso_string t) r) (challenges s)) s.
Proof.
  unfold on_challenges, zoom. destruct (consume a pk now alg (challenges s)) as [r cs] eqn:E.
  intros [= -> <-]. apply consume_success in E as (r & t & Hr & Hst & Ha & Hn & Hp & -> & ->).
  exists r, t. by split_and!.
Qed.

Lemma set_transaction_state_inv xid st s u s1 :
  set_transaction_state xid st s = (Ok u, s1) ->
  exists x, map_get xid (transactions s) = Some x /\
    transitionTransaction (tx_state x) st = Ok st /\
    s1 = set_transactions (map_set xid (set_tx_state st x) (transactions s)) s.
Proof.
  unfold set_transaction_state. intros (s0 & s2 & [= <- <-] & E)%bind_Ok_inv.
  apply bind_Ok_inv in E as (x & s3 & [Hx ->]%lift_inv & E).
  apply bind_Ok_inv in E as (st' & s4 & [Ht ->]%lift_inv & [= _ <-]).
  apply must_Ok in Hx. apply transitionTransaction_Ok in Ht as Hst. destruct Hst as [-> _].
  exists x. split; [done|]. split; [done|]. by rewrite (map_update_present _ _ _ _ Hx).
Qed.

Lemma audit_append_inv kp ty corr pl now uuid s u s1 :
  audit_append kp ty corr pl now uuid s = (Ok u, s1) ->
  exists log, s1 = set_audit log s.
Proof.
  unfold audit_append, on_audit, zoom. cbv [mbind St_bind mret St_ret].
  destruct (append _ _ _ _ _ _ _ (audit s)) as [[ev|] log]; [|done]. intros [= _ <-]. by exists log.
Qed.

(** C2: a transaction is confirmed only while it is pending, by an approval that
    names the current key of an active device, verifies under that key, and
    repeats an open challenge before its expiry; exactly that challenge and
    that transaction change. *)
Theorem confirm_requires_approval kp (s s' : AirlockEngine) (xid : jstr) (a : SignedApproval)
    (now : option Date) (e : Env) (x' : TransactionRecord)
    (Hc : confirmTransaction kp xid a now e s = (Ok x', s')) :
  exists x b d c t,
    map_get xid (transactions s) = Some x /\ tx_state x = confirmation_pending /\
    tx_challenge x = Some b /\
    map_get (trustedDeviceId b) (devices s) = Some d /\ td_status d = d_active /\
    ap_keyId a = td_keyId d /\
    verifyApproval a (td_publicKeyPem d) (td_algorithm d) = Ok true /\
    map_get (challengeId (ap_binding a)) (challenges s) = Some c /\ status c = c_created /\
    (exists bs, canonicalizeBinding (binding_value (rec_binding c)) = Ok bs /\
                canonicalizeBinding (binding_value (ap_binding a)) = Ok bs) /\
    or_now now e 0 = Some t /\
    num_le (date_parse (expiresAt (rec_binding c))) (Some t) = false /\
    x' = set_tx_state confirmed x /\
    exists log, s' = set_audit log
      (set_transactions (map_set xid x' (transactions s))
        (set_challenges (map_set (challengeId (ap_binding a))
           (finish c_confirmed (iso_string t) c) (challenges s)) s)).
Proof.
  unfold confirmTransaction, must_transaction in Hc. cbv zeta in Hc.
  apply bind_Ok_inv in Hc as (x & s1 & Hx & Hc).
  apply bind_Ok_inv in Hx as (s0 & s2 & [= <- <-] & [Hx%must_Ok ->]%lift_inv).
  apply bind_Ok_inv in Hc as (b & s1 & [Hb ->]%lift_inv & Hc).
  apply bind_Ok_inv in Hc as (s0 & s1 & [= <- <-] & Hc).
  apply bind_Ok_inv in Hc as (d & s1 & [[Hd Hact]%requireActive_Ok ->]%lift_inv & Hc).
  apply bind_Ok_inv in Hc as (u & s1 & [Hk%throw_if_Ok%negb_false_iff%jeqb_true ->]%lift_inv & Hc).
  apply bind_Ok_inv in Hc as (c0 & s1 & (c & t & Hcr & Hst & [Hcan Hver] & Hnow & Hexp & ->)%consume_in_engine & Hc).
  apply bind_Ok_inv in Hc as (u1 & s1 & (y & Hy & Htr & ->)%set_transaction_state_inv & Hc).
  apply bind_Ok_inv in Hc as (u2 & s1 & [log ->]%audit_append_inv & Hc).
  apply bind_Ok_inv in Hc as (s0 & s1 & [= <- <-] & [Hx' ->]%lift_inv).
  cbn in Hy. assert (y = x) as -> by congruence.
  unfold must_challenge in Hb. destruct (tx_challenge x) as [b0|] eqn:Eb; [|done]. injection Hb as ->.
  cbn in Hx'. apply must_Ok in Hx'. rewrite map_get_set_eq in Hx'. injection Hx' as <-.
  assert (tx_state x = confirmation_pending).
  { revert Htr. by destruct (tx_state x). }
  exists x, b, d, c, t. split_and!; try done. by exists log.
Qed.

(** A transaction whose challenge is already terminal cannot be reversed. *)
Lemma expire_refused kp xid x b r now e (s : AirlockEngine)
    (Hx : must "transaction" xid (transactions s) = Ok x) (Hb : must_challenge x = Ok b)
    (Hr : map_get (challengeId b) (challenges s) = Some r)
    (Ht : bool_decide (status r = c_created) = false) :
  expireAndReverse kp xid now e s = (Throw "challenge already terminal", s).
Proof.
  unfold expireAndReverse, must_transaction. cbv zeta. cbv [mbind St_bind sget lift].
  rewrite Hx, Hb. unfold on_challenges, zoom.
  rewrite (cancel_terminal _ _ _ r) by (exact Hr || (by apply bool_decide_eq_false in Ht)).
  by destruct s.
Qed.
End flow.

(** ** Instances and runs *)

Section runs.
#[local] Existing Instance test_host.

Definition tx_1 : TransactionRecord :=
  match map_get (js "tx-1") (transactions state_4) with
  | Some x => x
  | None => {| tx_transactionId := []; tx_tokenId := []; tx_merchantId := []; tx_amountMinor := 0;
      tx_currency := []; tx_state := received; tx_strategy := []; tx_challenge := None;
      capReservation := None |}
  end.

Lemma transaction_history_witness :
  exists y, map_get (js "tx-1") (transactions state_5) = Some y /\
    rtc tx_step confirmation_pending (tx_state y).
Proof.
  destruct (transaction_history state_4 state_5 "tx-1" tx_1) as (y & Hy & Hrun & _).
  - by vm_compute.
  - exact (rtc_call None confirm_1 _ _ (rtc_refl _ state_4)).
  - exists y. split; [exact Hy|]. exact Hrun.
Defined.

Lemma clearing_outcome_witness :
  (receiveClearing None "tx-1" (Some (Some (noon + 3000))) (at_time noon "clear") state_5).1 =
    Ok (set_tx_state settled (set_tx_state confirmed tx_1)).
Proof.
  destruct (clearing_outcome state_5 "tx-1" (set_tx_state confirmed tx_1) (noon + 3000)
    (Some (Some (noon + 3000))) (at_time noon "clear")) as [event E].
  - by vm_compute.
  - done.
  - by rewrite E.
Defined.

Lemma confirm_requires_approval_witness :
  exists x, map_get (js "tx-1") (transactions state_4) = Some x /\
            tx_state x = confirmation_pending /\
            set_tx_state confirmed tx_1 = set_tx_state confirmed x.
Proof.
  destruct (confirm_requires_approval None state_4 state_5 "tx-1"
    (sample_approve "authorize" state_4) (Some (Some (noon + 1000))) (at_time noon "confirm")
    (set_tx_state confirmed tx_1))
    as (x & b & d & c & t & Hx & Hst & _ & _ & _ & _ & _ & _ & _ & _ & _ & _ & E & _).
  - apply pair_eq; [by vm_compute|].
    unfold state_5, confirm_1. cbn [run_op]. reflexivity.
  - exists x. split; [exact Hx|]. split; [exact Hst|exact E].
Defined.

(** A second, larger transaction on the same device. *)
Definition authorize_2 : engine_op :=
  do_authorize {| ai_transactionId := "tx-2"; ai_tokenId := "token-1";
    ai_merchantId := "merchant-2"; ai_amountMinor := NInt 900;
    ai_strategy := "provisional_monitoring"; ai_trustedDeviceId := "device-1";
    ai_now := None |} (at_time noon "authorize-2").
Definition two_pending : AirlockEngine := run_op None authorize_2 state_4.

(** The owner signs the challenge of [tx-1]; the signature is presented for
    [tx-2]. *)
Definition crossed : AirlockEngine :=
  run_op None (do_confirm "tx-2" (sample_approve "authorize" two_pending)
    (Some (Some (noon + 1000))) (at_time noon "confirm-2")) two_pending.

Definition state_of_tx (id : string) (s : AirlockEngine) : option TransactionState :=
  tx_state <$> map_get (js id) (transactions s).
Definition status_of (id : string) (s : AirlockEngine) : option ChallengeStatus :=
  status <$> map_get (js id) (challenges s).

(** The engine does not tie an approval to the transaction it is presented
    for: the approval of a 500-unit payment to one merchant confirms a pending
    900-unit payment to another, whose own challenge stays open, and the state
    left behind cannot be restored from its snapshot. *)
Theorem approval_confirms_another_transaction :
  amountMinor (ap_binding (sample_approve "authorize" two_pending)) = Some 500 /\
  tx_amountMinor <$> map_get (js "tx-2") (transactions two_pending) = Some 900 /\
  state_of_tx "tx-2" crossed = Some confirmed /\
  state_of_tx "tx-1" crossed = Some confirmation_pending /\
  status_of "authorize-2" crossed = Some c_created /\
  status_of "authorize" crossed = Some c_confirmed /\
  restore (snapshot None crossed) = Throw "transaction lifecycle/challenge status mismatch".
Proof. by vm_compute. Qed.

(** An approval that arrives after the thirty seconds of the challenge. *)
Definition late : AirlockEngine :=
  run_op None (do_confirm "tx-1" (sample_approve "authorize" state_4)
    (Some (Some (noon + 60000))) (at_time noon "late")) state_4.

(** An approval that arrives late strands its transaction: the challenge is
    expired, the transaction stays pending with its reservation, the timeout
    operation refuses it at every later time and with it every state that
    holds it, and the snapshot cannot be restored. *)
Theorem late_approval_strands_transaction :
  state_of_tx "tx-1" late = Some confirmation_pending /\
  status_of "authorize" late = Some c_expired /\
  spent (day_key "token-1" "2026-01-01") late = 500 /\
  (forall kp now e, expireAndReverse kp "tx-1" now e late =
                    (Throw "challenge already terminal", late)) /\
  restore (snapshot None late) = Throw "transaction lifecycle/challenge status mismatch".
Proof.
  do 3 (split; [by vm_compute|]). split; [|by vm_compute].
  intros kp now e.
  apply (expire_refused kp "tx-1" tx_1 (default sample_binding (tx_challenge tx_1))
    (set_status c_expired (created_record (default sample_binding (tx_challenge tx_1)))));
    by vm_compute.
Qed.

(** With an invalid clock reading, revoking a device throws after it has
    cancelled challenges: the device stays active and the pending request or
    transaction stays pending on a cancelled challenge. *)
Theorem invalid_clock_breaks_revocation :
  (revokeTrustedDevice None "device-1" (Some None) (at_time noon "revoke") state_4).1 =
    Throw "Invalid time value" /\
  let s' := (revokeTrustedDevice None "device-1" (Some None) (at_time noon "revoke") state_4).2 in
  td_status <$> map_get (js "device-1") (devices s') = Some d_active /\
  state_of_tx "tx-1" s' = Some confirmation_pending /\
  status_of "authorize" s' = Some c_cancelled.
Proof. by vm_compute. Qed.

(** A confirmation dated before the challenge was issued. *)
Definition early : AirlockEngine :=
  run_op None (do_confirm "tx-1" (sample_approve "authorize" state_4)
    (Some (Some (noon - 1000))) (at_time noon "early")) state_4.

(** A challenge can be consumed before it was issued, which cancellation
    refuses, and the resulting store is then refused by its own restore. *)
Theorem confirmed_before_issuance :
  state_of_tx "tx-1" early = Some confirmed /\
  (cancel "authorize" (Some (noon - 1000)) (challenges state_4)).1 =
    Throw "challenge cannot be cancelled before issuance" /\
  ChallengeStore.restore (ChallengeStore.snapshot (challenges early)) =
    Throw "challenge consumed before issuance".
Proof. by vm_compute. Qed.
End runs.
