(* ===== verification/CustomerOperations.v ===== *)
(** CustomerOperations: packages/customer-operations/operationsStateMachine.ts,
    the tenant-scoped case workflow with its dual-controlled trust reset,
    idempotent mutations, hash-chained audit and notification outbox. *)
From S2P Require Import Prelude JsString JsMap Host TestHost JsTime JsJson.
#[local] Open Scope string_scope.
#[local] Open Scope list_scope.
#[local] Open Scope Z_scope.
#[local] Open Scope js_scope.

(** ** Data *)

Definition OPERATIONS_CASE_TYPES : list jstr :=
  [js "device_loss"; js "account_recovery"; js "false_decline_review";
   js "fraudulent_approval_dispute"; js "compromise_response"].

Definition OPERATIONS_ROLES : list jstr :=
  [js "customer"; js "fraud_analyst"; js "security_operator"; js "supervisor";
   js "recovery_officer"; js "system"].

Record OperationsActor : Type := {
  ac_tenantId : jstr; ac_actorId : jstr; ac_role : jstr; ac_deviceId : option jstr;
}.

Record OperationsCase : Type := {
  oc_tenantId : jstr;
  oc_caseId : jstr;
  oc_caseType : jstr;
  oc_state : jstr;
  subjectRef : jstr;
  subjectDeviceId : option jstr;
  oc_reason : jstr;
  oc_correlationId : jstr;
  openedAt : jstr;
  oc_expiresAt : jstr;
  oc_updatedAt : jstr;
}.

Record Approval : Type := { apr_actorId : jstr; apr_role : jstr; apr_approvedAt : jstr }.

Record SensitiveOverride : Type := {
  ov_tenantId : jstr;
  ov_overrideId : jstr;
  ov_caseId : jstr;
  ov_action : jstr;
  ov_state : jstr;
  ov_reason : jstr;
  requestedBy : jstr;
  requestedAt : jstr;
  ov_expiresAt : jstr;
  approvals : list Approval;
  executedAt : option jstr;
}.

Record OperationsAuditEvent : Type := {
  oe_sequence : Z;
  oe_eventId : jstr;
  oe_tenantId : jstr;
  oe_caseId : jstr;
  oe_type : jstr;
  oe_actorId : jstr;
  oe_actorRole : jstr;
  oe_reason : jstr;
  oe_correlationId : jstr;
  oe_occurredAt : jstr;
  oe_previousHash : jstr;
  oe_hash : jstr;
}.

Record NotificationOutboxIntent : Type := {
  ni_intentId : jstr;
  ni_eventKey : jstr;
  ni_topic : jstr;
  ni_tenantId : jstr;
  ni_caseId : jstr;
  ni_template : jstr;
  syntheticRecipientRef : jstr;
  ni_createdAt : jstr;
}.

#[global] Instance OperationsCase_eq_dec : EqDecision OperationsCase.
Proof. solve_decision. Defined.
#[global] Instance Approval_eq_dec : EqDecision Approval.
Proof. solve_decision. Defined.
#[global] Instance SensitiveOverride_eq_dec : EqDecision SensitiveOverride.
Proof. solve_decision. Defined.

(** What a recorded mutation answered. *)
Inductive Response : Type :=
| r_case (c : OperationsCase)
| r_override (o : SensitiveOverride).

(** A recorded mutation holds its response or its error message, never both:
    [restore] refuses an entry that has both or neither. *)
Record Idempotency : Type := { im_requestHash : jstr; im_outcome : result Response }.

Record IdempotencyEntry : Type := {
  ie_scope : jstr; ie_key : jstr; ie_requestHash : jstr;
  ie_response : option Response; ie_error : option jstr;
}.

Record CustomerOperationsSnapshot : Type := {
  cs_schemaVersion : Z;
  cs_cases : list OperationsCase;
  cs_overrides : list SensitiveOverride;
  cs_auditEvents : list OperationsAuditEvent;
  cs_notificationIntents : list NotificationOutboxIntent;
  cs_idempotency : list IdempotencyEntry;
}.

Record CustomerOperationsStateMachine : Type := {
  cases : list (jstr * OperationsCase);
  overrides : list (jstr * SensitiveOverride);
  events : list OperationsAuditEvent;
  intents : list NotificationOutboxIntent;
  idempotency : list (jstr * Idempotency);
}.

(** ** Constants *)

Definition ID (s : jstr) : bool := id_pattern s.

(** [/^synthetic-[A-Za-z0-9][A-Za-z0-9._:-]{0,118}$/] *)
Definition SYNTHETIC_REF (s : jstr) : bool :=
  (take 10 s =s? js "synthetic-") && id_pattern_max 118 (drop 10 s).

Definition APPROVER_ROLES : list jstr :=
  [js "security_operator"; js "supervisor"; js "recovery_officer"].

Definition TRANSITION_ROLES : list (jstr * list jstr) :=
  [(js "contained", [js "fraud_analyst"; js "security_operator"; js "supervisor"]);
   (js "proof_verified", [js "recovery_officer"; js "security_operator"]);
   (js "under_review", [js "fraud_analyst"; js "supervisor"]);
   (js "payment_frozen", [js "fraud_analyst"; js "security_operator"; js "supervisor"]);
   (js "eradicated", [js "security_operator"; js "supervisor"]);
   (js "upheld", [js "fraud_analyst"; js "supervisor"]);
   (js "overturned", [js "fraud_analyst"; js "supervisor"]);
   (js "remediated", [js "fraud_analyst"; js "security_operator"; js "supervisor"]);
   (js "resolved", [js "security_operator"; js "supervisor"]);
   (js "cancelled", [js "customer"; js "fraud_analyst"; js "security_operator"; js "supervisor"])].

Definition MAX_TTL_MS : Z := 30 * 24 * 60 * 60 * 1000.
Definition MAX_OVERRIDE_TTL_MS : Z := 24 * 60 * 60 * 1000.

Definition TRANSITIONS : list (jstr * list (jstr * list jstr)) :=
  [(js "device_loss",
    [(js "opened", [js "contained"; js "cancelled"]);
     (js "contained", [js "trust_reset_pending"; js "resolved"]);
     (js "trust_reset_pending", [js "resolved"])]);
   (js "account_recovery",
    [(js "opened", [js "proof_verified"; js "cancelled"]);
     (js "proof_verified", [js "trust_reset_pending"]);
     (js "trust_reset_pending", [js "resolved"])]);
   (js "false_decline_review",
    [(js "opened", [js "under_review"; js "cancelled"]);
     (js "under_review", [js "upheld"; js "overturned"])]);
   (js "fraudulent_approval_dispute",
    [(js "opened", [js "payment_frozen"; js "cancelled"]);
     (js "payment_frozen", [js "under_review"]);
     (js "under_review", [js "upheld"; js "remediated"])]);
   (js "compromise_response",
    [(js "opened", [js "contained"]);
     (js "contained", [js "eradicated"; js "trust_reset_pending"]);
     (js "eradicated", [js "resolved"]);
     (js "trust_reset_pending", [js "resolved"])])].

Definition TERMINAL_STATES : list jstr :=
  [js "resolved"; js "upheld"; js "overturned"; js "remediated"; js "expired"; js "cancelled"].

(** [TRANSITIONS[caseType][state] ?? []] *)
Definition allowed_from (caseType state : jstr) : result (list jstr) :=
  match map_get caseType TRANSITIONS with
  | None => Throw "TypeError"
  | Some row => Ok (default [] (map_get state row))
  end.

(** ** Hashing and checks *)

(** [s.slice(0, s.indexOf("\u0000"))] *)
Fixpoint take_until_nul (s : jstr) : jstr :=
  match s with
  | [] => []
  | c :: r => if (c =? 0)%N then [] else c :: take_until_nul r
  end.

Section operations.
Context `{Host}.

(** [stable(value)], [None] being [undefined]. *)
Fixpoint stable (value : jsval) : option jstr :=
  match value with
  | JArr l => Some ("[" +:+ join "," (map (fun v => default [] (stable v)) l) +:+ "]")
  | JObj props =>
      Some ("{" +:+ join ","
        (map (fun p => json_quote p.1 +:+ ":" +:+ p.2)
           (sort_props (map (fun p => (p.1, default (js "undefined") (stable p.2))) props)))
        +:+ "}")
  | v => json_stringify v
  end.

Definition hash (value : jsval) : jstr :=
  sha256Hex (utf8_encode (default [] (stable value))).

Definition assertId (value label : jstr) : result unit :=
  throw_if (negb (ID value)) ("invalid operations " +:+ label).

Definition assertReason (value : jstr) : result unit :=
  throw_if (negb (trim value =s? value) || (length value <? 3)%nat || (512 <? length value)%nat)
    "invalid operations reason".

Definition assertNow (now : Date) : result unit :=
  throw_if (bool_decide (now = None)) "invalid operations time".

Definition case_key (tenantId id : jstr) : jstr := tenantId +:+ ":" +:+ id.
Definition idempotency_key (tenantId key : jstr) : jstr := tenantId +:+ [0%N] +:+ key.

Definition assertActor (tenantId : jstr) (actor : OperationsActor) : result unit :=
  throw_if (negb (ac_tenantId actor =s? tenantId)) "cross-tenant operations actor rejected" ≫= fun _ =>
  assertId (ac_actorId actor) "actor id" ≫= fun _ =>
  match ac_deviceId actor with
  | Some (c :: r) => assertId (c :: r) "actor device id"
  | _ => Ok tt
  end ≫= fun _ =>
  throw_if (negb (includes OPERATIONS_ROLES (ac_role actor))) "invalid operations actor role".

(** ** The machine's own steps *)

Abbreviation M := (St CustomerOperationsStateMachine).

Definition set_cases cs (s : CustomerOperationsStateMachine) : CustomerOperationsStateMachine :=
  {| cases := cs; overrides := overrides s; events := events s; intents := intents s;
     idempotency := idempotency s |}.
Definition set_overrides os (s : CustomerOperationsStateMachine) : CustomerOperationsStateMachine :=
  {| cases := cases s; overrides := os; events := events s; intents := intents s;
     idempotency := idempotency s |}.
Definition set_events es (s : CustomerOperationsStateMachine) : CustomerOperationsStateMachine :=
  {| cases := cases s; overrides := overrides s; events := es; intents := intents s;
     idempotency := idempotency s |}.
Definition set_intents ns (s : CustomerOperationsStateMachine) : CustomerOperationsStateMachine :=
  {| cases := cases s; overrides := overrides s; events := events s; intents := ns;
     idempotency := idempotency s |}.
Definition set_idempotency im (s : CustomerOperationsStateMachine) : CustomerOperationsStateMachine :=
  {| cases := cases s; overrides := overrides s; events := events s; intents := intents s;
     idempotency := im |}.

(** [value.state = state; value.updatedAt = at;] *)
Definition with_state (state updatedAt : jstr) (c : OperationsCase) : OperationsCase :=
  {| oc_tenantId := oc_tenantId c; oc_caseId := oc_caseId c; oc_caseType := oc_caseType c;
     oc_state := state; subjectRef := subjectRef c; subjectDeviceId := subjectDeviceId c;
     oc_reason := oc_reason c; oc_correlationId := oc_correlationId c; openedAt := openedAt c;
     oc_expiresAt := oc_expiresAt c; oc_updatedAt := updatedAt |}.

Definition with_ov_state (state : jstr) (executed : option jstr) (o : SensitiveOverride)
    : SensitiveOverride :=
  {| ov_tenantId := ov_tenantId o; ov_overrideId := ov_overrideId o; ov_caseId := ov_caseId o;
     ov_action := ov_action o; ov_state := state; ov_reason := ov_reason o;
     requestedBy := requestedBy o; requestedAt := requestedAt o; ov_expiresAt := ov_expiresAt o;
     approvals := approvals o; executedAt := executed |}.

Definition with_approval (a : Approval) (o : SensitiveOverride) : SensitiveOverride :=
  {| ov_tenantId := ov_tenantId o; ov_overrideId := ov_overrideId o; ov_caseId := ov_caseId o;
     ov_action := ov_action o; ov_state := ov_state o; ov_reason := ov_reason o;
     requestedBy := requestedBy o; requestedAt := requestedAt o; ov_expiresAt := ov_expiresAt o;
     approvals := approvals o ++ [a]; executedAt := executedAt o |}.

(** The properties of an event other than its hash. *)
Definition event_body (e : OperationsAuditEvent) : jsval :=
  JObj [(js "sequence", JNum (NInt (oe_sequence e))); (js "eventId", JStr (oe_eventId e));
        (js "tenantId", JStr (oe_tenantId e)); (js "caseId", JStr (oe_caseId e));
        (js "type", JStr (oe_type e)); (js "actorId", JStr (oe_actorId e));
        (js "actorRole", JStr (oe_actorRole e)); (js "reason", JStr (oe_reason e));
        (js "correlationId", JStr (oe_correlationId e));
        (js "occurredAt", JStr (oe_occurredAt e));
        (js "previousHash", JStr (oe_previousHash e))].

Definition last_hash (l : list OperationsAuditEvent) : jstr :=
  match last l with Some e => oe_hash e | None => "GENESIS" end.

Definition with_hash (h : jstr) (e : OperationsAuditEvent) : OperationsAuditEvent :=
  {| oe_sequence := oe_sequence e; oe_eventId := oe_eventId e; oe_tenantId := oe_tenantId e;
     oe_caseId := oe_caseId e; oe_type := oe_type e; oe_actorId := oe_actorId e;
     oe_actorRole := oe_actorRole e; oe_reason := oe_reason e;
     oe_correlationId := oe_correlationId e; oe_occurredAt := oe_occurredAt e;
     oe_previousHash := oe_previousHash e; oe_hash := h |}.

Definition appendAudit (value : OperationsCase) (type : jstr) (actor : OperationsActor)
    (reason : jstr) (now : Date) (uuid : jstr) : M unit :=
  lift (assertReason reason) ≫= fun _ =>
  sget ≫= fun s =>
  lift (toISOString now) ≫= fun at_ =>
  let body := {| oe_sequence := Z.of_nat (length (events s)) + 1; oe_eventId := uuid;
    oe_tenantId := oc_tenantId value; oe_caseId := oc_caseId value; oe_type := type;
    oe_actorId := ac_actorId actor; oe_actorRole := ac_role actor; oe_reason := reason;
    oe_correlationId := oc_correlationId value; oe_occurredAt := at_;
    oe_previousHash := last_hash (events s); oe_hash := [] |} in
  smodify (fun s => set_events (events s ++ [with_hash (hash (event_body body)) body]) s).

Definition NOTIFICATION_TOPIC : jstr := "operations.notification.requested".

Definition notify (value : OperationsCase) (template : jstr) (now : Date) (uuid : jstr) : M unit :=
  lift (toISOString now) ≫= fun at_ =>
  smodify (fun s => set_intents (intents s ++
    [{| ni_intentId := uuid;
        ni_eventKey := oc_tenantId value +:+ ":" +:+ oc_caseId value +:+ ":" +:+ template +:+ ":" +:+ uuid;
        ni_topic := NOTIFICATION_TOPIC; ni_tenantId := oc_tenantId value;
        ni_caseId := oc_caseId value; ni_template := template;
        syntheticRecipientRef := subjectRef value; ni_createdAt := at_ |}]) s).

Definition update_case (key : jstr) (f : OperationsCase -> OperationsCase) : M unit :=
  smodify (fun s => set_cases (map_update key f (cases s)) s).
Definition update_override (key : jstr) (f : SensitiveOverride -> SensitiveOverride) : M unit :=
  smodify (fun s => set_overrides (map_update key f (overrides s)) s).

Definition once (tenantId key : jstr) (request : jsval) (work : M Response) : M Response :=
  lift (assertId tenantId "tenant id") ≫= fun _ =>
  lift (assertId key "idempotency key") ≫= fun _ =>
  sget ≫= fun s =>
  match map_get (idempotency_key tenantId key) (idempotency s) with
  | Some prior =>
      lift (throw_if (negb (im_requestHash prior =s? hash request))
        "operations idempotency key reused with different request") ≫= fun _ =>
      lift (im_outcome prior)
  | None => fun s =>
      let '(outcome, s) := work s in
      (outcome, set_idempotency (map_set (idempotency_key tenantId key)
         {| im_requestHash := hash request; im_outcome := outcome |} (idempotency s)) s)
  end.

Definition system_of (tenantId : jstr) (deviceId : option jstr) : OperationsActor :=
  {| ac_tenantId := tenantId; ac_actorId := "system"; ac_role := "system"; ac_deviceId := deviceId |}.

Definition activeCase (tenantId caseId : jstr) (now : Date) (uuid : jstr) : M OperationsCase :=
  lift (assertNow now) ≫= fun _ =>
  sget ≫= fun s =>
  match map_get (case_key tenantId caseId) (cases s) with
  | None => lift (Throw "operations case not found")
  | Some value =>
      if includes TERMINAL_STATES (oc_state value) then lift (Throw "operations case is terminal")
      else if num_le (date_parse (oc_expiresAt value)) now then
        lift (toISOString now) ≫= fun at_ =>
        let expired := with_state "expired" at_ value in
        update_case (case_key tenantId caseId) (fun _ => expired) ≫= fun _ =>
        appendAudit expired "case.expired" (system_of tenantId None) "case lifetime expired" now uuid ≫= fun _ =>
        lift (Throw "operations case expired")
      else mret value
  end.

Definition mustOverride (tenantId overrideId : jstr) : M SensitiveOverride :=
  lift (assertId tenantId "tenant id") ≫= fun _ =>
  lift (assertId overrideId "override id") ≫= fun _ =>
  sget ≫= fun s =>
  match map_get (case_key tenantId overrideId) (overrides s) with
  | None => lift (Throw "trust reset override not found")
  | Some value => mret value
  end.

(** ** Requests *)

Definition actor_json (a : OperationsActor) : jsval :=
  JObj ([(js "tenantId", JStr (ac_tenantId a)); (js "actorId", JStr (ac_actorId a));
         (js "role", JStr (ac_role a))] ++ opt_prop "deviceId" (JStr <$> ac_deviceId a)).

Record OpenCaseInput : Type := {
  op_tenantId : jstr; op_caseType : jstr; op_subjectRef : jstr;
  op_subjectDeviceId : option jstr; op_reason : jstr; op_correlationId : jstr;
  op_actor : OperationsActor; op_idempotencyKey : jstr; op_ttlMs : jsnum;
  op_now : option Date; op_caseId : option jstr;
}.

Record TransitionInput : Type := {
  ti_tenantId : jstr; ti_caseId : jstr; ti_nextState : jstr; ti_reason : jstr;
  ti_actor : OperationsActor; ti_idempotencyKey : jstr; ti_now : option Date;
  ti_proofMethod : option jstr;   (** only when called by [verifyRecoveryProof] *)
}.

Record ProofInput : Type := {
  pr_tenantId : jstr; pr_caseId : jstr; proofMethod : jstr; pr_reason : jstr;
  pr_actor : OperationsActor; pr_idempotencyKey : jstr; pr_now : option Date;
}.

Record ResetInput : Type := {
  rs_tenantId : jstr; rs_caseId : jstr; rs_reason : jstr; rs_actor : OperationsActor;
  rs_idempotencyKey : jstr; rs_ttlMs : jsnum; rs_now : option Date; rs_overrideId : option jstr;
}.

Record ApproveInput : Type := {
  ap_tenantId : jstr; ap_overrideId : jstr; ap_reason : jstr; ap_actor : OperationsActor;
  ap_idempotencyKey : jstr; ap_now : option Date;
}.

Definition open_json (i : OpenCaseInput) (now : jstr) : jsval :=
  JObj ([(js "operation", JStr "open"); (js "tenantId", JStr (op_tenantId i));
         (js "caseType", JStr (op_caseType i)); (js "subjectRef", JStr (op_subjectRef i))]
    ++ opt_prop "subjectDeviceId" (JStr <$> op_subjectDeviceId i)
    ++ [(js "reason", JStr (op_reason i)); (js "correlationId", JStr (op_correlationId i));
        (js "actor", actor_json (op_actor i)); (js "idempotencyKey", JStr (op_idempotencyKey i));
        (js "ttlMs", JNum (op_ttlMs i)); (js "now", JStr now)]
    ++ opt_prop "caseId" (JStr <$> op_caseId i)).

Definition transition_json (i : TransitionInput) (now : jstr) : jsval :=
  JObj ([(js "operation", JStr "transition"); (js "tenantId", JStr (ti_tenantId i));
         (js "caseId", JStr (ti_caseId i))]
    ++ opt_prop "proofMethod" (JStr <$> ti_proofMethod i)
    ++ [(js "nextState", JStr (ti_nextState i)); (js "reason", JStr (ti_reason i));
        (js "actor", actor_json (ti_actor i)); (js "idempotencyKey", JStr (ti_idempotencyKey i));
        (js "now", JStr now)]).

Definition reset_json (i : ResetInput) (now : jstr) : jsval :=
  JObj ([(js "operation", JStr "requestTrustReset"); (js "tenantId", JStr (rs_tenantId i));
         (js "caseId", JStr (rs_caseId i)); (js "reason", JStr (rs_reason i));
         (js "actor", actor_json (rs_actor i)); (js "idempotencyKey", JStr (rs_idempotencyKey i));
         (js "ttlMs", JNum (rs_ttlMs i)); (js "now", JStr now)]
    ++ opt_prop "overrideId" (JStr <$> rs_overrideId i)).

Definition approve_json (i : ApproveInput) (now : jstr) : jsval :=
  JObj [(js "operation", JStr "approveTrustReset"); (js "tenantId", JStr (ap_tenantId i));
        (js "overrideId", JStr (ap_overrideId i)); (js "reason", JStr (ap_reason i));
        (js "actor", actor_json (ap_actor i)); (js "idempotencyKey", JStr (ap_idempotencyKey i));
        (js "now", JStr now)].

(** ** Operations *)

(** The mutation of [openCase], run at most once per idempotency key. *)
Definition open_work (i : OpenCaseInput) (now : Date) (e : Env) : M Response :=
  lift (assertActor (op_tenantId i) (op_actor i)) ≫= fun _ =>
  lift (assertNow now) ≫= fun _ =>
  lift (throw_if (negb (includes OPERATIONS_CASE_TYPES (op_caseType i)))
    "invalid operations case type") ≫= fun _ =>
  lift (throw_if (negb (SYNTHETIC_REF (op_subjectRef i)))
    "operations lab accepts synthetic subject references only") ≫= fun _ =>
  lift (match op_subjectDeviceId i with
        | Some (c :: r) => assertId (c :: r) "device id" | _ => Ok tt end) ≫= fun _ =>
  lift (assertReason (op_reason i)) ≫= fun _ =>
  lift (assertId (op_correlationId i) "correlation id") ≫= fun _ =>
  match safe_between (op_ttlMs i) 60000 MAX_TTL_MS with
  | None => lift (Throw "invalid operations case TTL")
  | Some ttl =>
      let caseId := default (env_uuid e 0) (op_caseId i) in
      lift (assertId caseId "case id") ≫= fun _ =>
      let key := case_key (op_tenantId i) caseId in
      sget ≫= fun s =>
      lift (throw_if (map_has key (cases s)) "operations case already exists") ≫= fun _ =>
      lift (toISOString now) ≫= fun opened =>
      lift (toISOString (now ≫= fun t => new_date (t + ttl))) ≫= fun expires =>
      let value := {| oc_tenantId := op_tenantId i; oc_caseId := caseId;
        oc_caseType := op_caseType i; oc_state := "opened"; subjectRef := op_subjectRef i;
        subjectDeviceId := op_subjectDeviceId i; oc_reason := op_reason i;
        oc_correlationId := op_correlationId i; openedAt := opened; oc_expiresAt := expires;
        oc_updatedAt := opened |} in
      smodify (fun s => set_cases (map_set key value (cases s)) s) ≫= fun _ =>
      appendAudit value "case.opened" (op_actor i) (op_reason i) now (env_uuid e 1) ≫= fun _ =>
      notify value "case_opened" now (env_uuid e 2) ≫= fun _ =>
      mret (r_case value)
  end.

Definition openCase (i : OpenCaseInput) (e : Env) : M Response :=
  let now := or_now (op_now i) e 0 in
  lift (toISOString now) ≫= fun at_ =>
  once (op_tenantId i) (op_idempotencyKey i) (open_json i at_) (open_work i now e).

Definition transition_work (i : TransitionInput) (now : Date) (e : Env) : M Response :=
  lift (assertActor (ti_tenantId i) (ti_actor i)) ≫= fun _ =>
  lift (assertReason (ti_reason i)) ≫= fun _ =>
  activeCase (ti_tenantId i) (ti_caseId i) now (env_uuid e 0) ≫= fun value =>
  lift (throw_if ((ti_nextState i =s? "trust_reset_pending")
                  || ((ti_nextState i =s? "resolved") && (oc_state value =s? "trust_reset_pending")))
    "destructive trust reset requires the dual-control API") ≫= fun _ =>
  lift (allowed_from (oc_caseType value) (oc_state value)) ≫= fun allowed =>
  lift (throw_if (negb (includes allowed (ti_nextState i)))
    "invalid or non-monotonic operations transition") ≫= fun _ =>
  lift (throw_if (negb (includes (default [] (map_get (ti_nextState i) TRANSITION_ROLES))
                          (ac_role (ti_actor i))))
    "operations actor is not authorized for transition") ≫= fun _ =>
  lift (toISOString now) ≫= fun at_ =>
  let value := with_state (ti_nextState i) at_ value in
  update_case (case_key (ti_tenantId i) (ti_caseId i)) (fun _ => value) ≫= fun _ =>
  appendAudit value ("case." +:+ ti_nextState i) (ti_actor i) (ti_reason i) now (env_uuid e 1) ≫= fun _ =>
  notify value "case_state_changed" now (env_uuid e 2) ≫= fun _ =>
  mret (r_case value).

Definition transition (i : TransitionInput) (e : Env) : M Response :=
  let now := or_now (ti_now i) e 0 in
  lift (toISOString now) ≫= fun at_ =>
  once (ti_tenantId i) (ti_idempotencyKey i) (transition_json i at_) (transition_work i now e).

Definition getCase (tenantId caseId : jstr) : M OperationsCase :=
  lift (assertId tenantId "tenant id") ≫= fun _ =>
  lift (assertId caseId "case id") ≫= fun _ =>
  sget ≫= fun s =>
  match map_get (case_key tenantId caseId) (cases s) with
  | None => lift (Throw "operations case not found")
  | Some value => mret value
  end.

Definition PROOF_METHODS : list jstr :=
  [js "existing_passkey"; js "in_person_strong_identity"; js "bank_verified_strong_identity"].

Definition verifyRecoveryProof (i : ProofInput) (e : Env) : M Response :=
  lift (throw_if (negb (includes PROOF_METHODS (proofMethod i)))
    "recovery proof cannot downgrade to SMS or typed codes") ≫= fun _ =>
  getCase (pr_tenantId i) (pr_caseId i) ≫= fun value =>
  lift (throw_if (negb (oc_caseType value =s? "account_recovery"))
    "recovery proof applies only to account recovery") ≫= fun _ =>
  transition {| ti_tenantId := pr_tenantId i; ti_caseId := pr_caseId i;
    ti_nextState := "proof_verified";
    ti_reason := pr_reason i +:+ " [proof:" +:+ proofMethod i +:+ "]";
    ti_actor := pr_actor i; ti_idempotencyKey := pr_idempotencyKey i; ti_now := pr_now i;
    ti_proofMethod := Some (proofMethod i) |} e.

Definition reset_eligible (c : OperationsCase) : bool :=
  ((oc_caseType c =s? "account_recovery") && (oc_state c =s? "proof_verified"))
  || (includes [js "device_loss"; js "compromise_response"] (oc_caseType c)
      && (oc_state c =s? "contained")).

Definition reset_work (i : ResetInput) (now : Date) (e : Env) : M Response :=
  lift (assertActor (rs_tenantId i) (rs_actor i)) ≫= fun _ =>
  lift (assertReason (rs_reason i)) ≫= fun _ =>
  lift (throw_if (negb (includes APPROVER_ROLES (ac_role (rs_actor i))))
    "trust reset requester is not authorized") ≫= fun _ =>
  match safe_between (rs_ttlMs i) 60000 MAX_OVERRIDE_TTL_MS with
  | None => lift (Throw "invalid trust reset approval TTL")
  | Some ttl =>
      activeCase (rs_tenantId i) (rs_caseId i) now (env_uuid e 0) ≫= fun value =>
      lift (throw_if (negb (reset_eligible value))
        "case is not eligible for destructive trust reset") ≫= fun _ =>
      let overrideId := default (env_uuid e 1) (rs_overrideId i) in
      lift (assertId overrideId "override id") ≫= fun _ =>
      let key := case_key (rs_tenantId i) overrideId in
      sget ≫= fun s =>
      lift (throw_if (map_has key (overrides s)) "trust reset override already exists") ≫= fun _ =>
      (** The case changes before the override's expiry is formatted. *)
      update_case (case_key (rs_tenantId i) (rs_caseId i))
        (fun c => with_state "trust_reset_pending" (oc_updatedAt c) c) ≫= fun _ =>
      lift (toISOString now) ≫= fun at_ =>
      let value := with_state "trust_reset_pending" at_ value in
      update_case (case_key (rs_tenantId i) (rs_caseId i)) (fun _ => value) ≫= fun _ =>
      lift (toISOString (now ≫= fun t => new_date (t + ttl))) ≫= fun expires =>
      let override := {| ov_tenantId := rs_tenantId i; ov_overrideId := overrideId;
        ov_caseId := oc_caseId value; ov_action := "destructive_trust_reset";
        ov_state := "pending"; ov_reason := rs_reason i; requestedBy := ac_actorId (rs_actor i);
        requestedAt := at_; ov_expiresAt := expires; approvals := []; executedAt := None |} in
      smodify (fun s => set_overrides (map_set key override (overrides s)) s) ≫= fun _ =>
      appendAudit value "trust_reset.requested" (rs_actor i) (rs_reason i) now (env_uuid e 2) ≫= fun _ =>
      notify value "approval_requested" now (env_uuid e 3) ≫= fun _ =>
      mret (r_override override)
  end.

Definition requestTrustReset (i : ResetInput) (e : Env) : M Response :=
  let now := or_now (rs_now i) e 0 in
  lift (toISOString now) ≫= fun at_ =>
  once (rs_tenantId i) (rs_idempotencyKey i) (reset_json i at_) (reset_work i now e).

(** The second approval executes the reset and resolves the case. *)
Definition execute_reset (i : ApproveInput) (value : OperationsCase) (override : SensitiveOverride)
    (now : Date) (at_ : jstr) (e : Env) : M SensitiveOverride :=
  let override := with_ov_state "executed" (Some at_) override in
  update_override (case_key (ap_tenantId i) (ap_overrideId i)) (fun _ => override) ≫= fun _ =>
  let caseKey := case_key (ap_tenantId i) (ov_caseId override) in
  let value := with_state "resolved" at_ value in
  update_case caseKey (fun _ => value) ≫= fun _ =>
  appendAudit value "trust_reset.executed"
    (system_of (ac_tenantId (ap_actor i)) (ac_deviceId (ap_actor i)))
    (ov_reason override) now (env_uuid e 3) ≫= fun _ =>
  notify value "trust_reset_completed" now (env_uuid e 4) ≫= fun _ =>
  mret override.

Definition approve_work (i : ApproveInput) (now : Date) (e : Env) : M Response :=
  let key := case_key (ap_tenantId i) (ap_overrideId i) in
  lift (assertActor (ap_tenantId i) (ap_actor i)) ≫= fun _ =>
  lift (assertReason (ap_reason i)) ≫= fun _ =>
  lift (throw_if (negb (includes APPROVER_ROLES (ac_role (ap_actor i))))
    "trust reset approver is not authorized") ≫= fun _ =>
  mustOverride (ap_tenantId i) (ap_overrideId i) ≫= fun override =>
  activeCase (ap_tenantId i) (ov_caseId override) now (env_uuid e 0) ≫= fun value =>
  lift (throw_if (negb (ov_state override =s? "pending")) "trust reset override is terminal") ≫= fun _ =>
  if num_le (date_parse (ov_expiresAt override)) now then
    update_override key (with_ov_state "expired" (executedAt override)) ≫= fun _ =>
    appendAudit value "trust_reset.expired"
      (system_of (ac_tenantId (ap_actor i)) (ac_deviceId (ap_actor i)))
      "approval window expired" now (env_uuid e 1) ≫= fun _ =>
    lift (Throw "trust reset override expired")
  else
    lift (throw_if (existsb (fun a => apr_actorId a =s? ac_actorId (ap_actor i)) (approvals override))
      "duplicate trust reset approver") ≫= fun _ =>
    lift (throw_if (match subjectDeviceId value with
                    | None | Some [] => false
                    | Some d => bool_decide (ac_deviceId (ap_actor i) = Some d)
                    end)
      "new or affected device cannot self-approve recovery") ≫= fun _ =>
    lift (toISOString now) ≫= fun at_ =>
    let override := with_approval {| apr_actorId := ac_actorId (ap_actor i);
      apr_role := ac_role (ap_actor i); apr_approvedAt := at_ |} override in
    update_override key (fun _ => override) ≫= fun _ =>
    appendAudit value "trust_reset.approved" (ap_actor i) (ap_reason i) now (env_uuid e 2) ≫= fun _ =>
    (if (length (approvals override) =? 2)%nat then execute_reset i value override now at_ e
     else mret override) ≫= fun override =>
    mret (r_override override).

Definition approveTrustReset (i : ApproveInput) (e : Env) : M Response :=
  let now := or_now (ap_now i) e 0 in
  lift (toISOString now) ≫= fun at_ =>
  once (ap_tenantId i) (ap_idempotencyKey i) (approve_json i at_) (approve_work i now e).

(** ** Queries *)

Definition getOverride (tenantId overrideId : jstr) : M SensitiveOverride :=
  mustOverride tenantId overrideId.

Definition auditEvents (tenantId : jstr) : M (list OperationsAuditEvent) :=
  lift (assertId tenantId "tenant id") ≫= fun _ =>
  sget ≫= fun s => mret (List.filter (fun e => oe_tenantId e =s? tenantId) (events s)).

Definition notificationIntents (tenantId : jstr) : M (list NotificationOutboxIntent) :=
  lift (assertId tenantId "tenant id") ≫= fun _ =>
  sget ≫= fun s => mret (List.filter (fun n => ni_tenantId n =s? tenantId) (intents s)).

Fixpoint verify_events (index : Z) (previousHash : jstr) (l : list OperationsAuditEvent) : bool :=
  match l with
  | [] => true
  | e :: l =>
      (oe_sequence e =? index + 1) && (oe_previousHash e =s? previousHash)
      && (hash (event_body e) =s? oe_hash e) && verify_events (index + 1) (oe_hash e) l
  end.

Definition verifyAudit (s : CustomerOperationsStateMachine) : bool :=
  verify_events 0 "GENESIS" (events s).

(** ** Snapshot and restore *)

Definition snapshot (s : CustomerOperationsStateMachine) : CustomerOperationsSnapshot :=
  {| cs_schemaVersion := 1; cs_cases := (cases s).*2; cs_overrides := (overrides s).*2;
     cs_auditEvents := events s; cs_notificationIntents := intents s;
     cs_idempotency := map (fun '(composite, value) =>
       let scope := take_until_nul composite in
       {| ie_scope := scope; ie_key := drop (S (length scope)) composite;
          ie_requestHash := im_requestHash value;
          ie_response := match im_outcome value with Ok r => Some r | Throw _ => None end;
          ie_error := match im_outcome value with Ok _ => None | Throw m => Some m end |})
       (idempotency s) |}.

Definition stateByEvent : list (jstr * jstr) :=
  [(js "case.opened", js "opened"); (js "case.contained", js "contained");
   (js "case.proof_verified", js "proof_verified"); (js "case.under_review", js "under_review");
   (js "case.payment_frozen", js "payment_frozen"); (js "case.eradicated", js "eradicated");
   (js "case.upheld", js "upheld"); (js "case.overturned", js "overturned");
   (js "case.remediated", js "remediated"); (js "case.resolved", js "resolved");
   (js "case.expired", js "expired"); (js "case.cancelled", js "cancelled");
   (js "trust_reset.requested", js "trust_reset_pending");
   (js "trust_reset.executed", js "resolved")].

Definition derived_state (l : list OperationsAuditEvent) : jstr :=
  fold_left (fun state e => default state (map_get (oe_type e) stateByEvent)) l "opened".

(** The events recorded for a case. *)
Definition events_of (tenantId caseId : jstr) (l : list OperationsAuditEvent) : list OperationsAuditEvent :=
  List.filter (fun e => (oe_tenantId e =s? tenantId) && (oe_caseId e =s? caseId)) l.

Definition of_type (ty : jstr) (e : OperationsAuditEvent) : bool := oe_type e =s? ty.

Definition valid_case (log : list OperationsAuditEvent) (c : OperationsCase) : bool :=
  ID (oc_tenantId c) && ID (oc_caseId c) && SYNTHETIC_REF (subjectRef c)
  && includes OPERATIONS_CASE_TYPES (oc_caseType c)
  && let es := events_of (oc_tenantId c) (oc_caseId c) log in
     match List.find (of_type "case.opened") es with
     | None => false
     | Some opened =>
         (oe_reason opened =s? oc_reason c)
         && negb (existsb (fun e => negb (oe_correlationId e =s? oc_correlationId c)) es)
     end
     && (derived_state es =s? oc_state c).

(** [Boolean(x)] of a found object. *)
Definition found {A} (o : option A) : bool := match o with Some _ => true | None => false end.

Definition valid_override (cs : list (jstr * OperationsCase)) (log : list OperationsAuditEvent)
    (o : SensitiveOverride) : bool :=
  let es := events_of (ov_tenantId o) (ov_caseId o) log in
  let requestEvents := List.filter (of_type "trust_reset.requested") es in
  let approvalEvents := List.filter (of_type "trust_reset.approved") es in
  let executed := List.find (of_type "trust_reset.executed") es in
  let expired := List.find (of_type "trust_reset.expired") es in
  map_has (case_key (ov_tenantId o) (ov_caseId o)) cs
  && (length (approvals o) <=? 2)%nat
  && bool_decide (NoDup (map apr_actorId (approvals o)))
  && forallb (fun a => includes APPROVER_ROLES (apr_role a)) (approvals o)
  && (length approvalEvents =? length (approvals o))%nat
  && forallb (fun a => existsb (fun e => (oe_actorId e =s? apr_actorId a)
       && (oe_actorRole e =s? apr_role a) && (oe_occurredAt e =s? apr_approvedAt a))
       approvalEvents) (approvals o)
  && match requestEvents with
     | [r] => (oe_actorId r =s? requestedBy o) && (oe_reason r =s? ov_reason o)
              && (oe_occurredAt r =s? requestedAt o)
     | _ => false
     end
  && Bool.eqb (ov_state o =s? "executed") (found executed)
  && Bool.eqb (ov_state o =s? "expired") (found expired)
  && Bool.eqb (found (executedAt o)) (found executed)
  && match executed with
     | Some x => bool_decide (executedAt o = Some (oe_occurredAt x))
     | None => true
     end.

(** [for (...) { if (keys.has(key) || !valid) return false; keys.add(key); }] *)
Fixpoint all_distinct {A} (key : A -> jstr) (valid : A -> bool) (l : list A) (seen : list jstr) : bool :=
  match l with
  | [] => true
  | x :: l => negb (includes seen (key x)) && valid x && all_distinct key valid l (key x :: seen)
  end.

Definition validateRestoredState (s : CustomerOperationsStateMachine) : bool :=
  all_distinct (fun c => case_key (oc_tenantId c) (oc_caseId c)) (valid_case (events s))
    ((cases s).*2) []
  && all_distinct (fun o => case_key (ov_tenantId o) (ov_caseId o))
       (valid_override (cases s) (events s)) ((overrides s).*2) []
  && forallb (fun n => (ni_topic n =s? NOTIFICATION_TOPIC) && SYNTHETIC_REF (syntheticRecipientRef n)
       && map_has (case_key (ni_tenantId n) (ni_caseId n)) (cases s)) (intents s).

(** [for (const value of values) { if (map.has(key)) throw ...; map.set(key, value); }] *)
Fixpoint restore_map {A} (key : A -> jstr) (msg : jstr) (l : list A) (m : list (jstr * A))
    : result (list (jstr * A)) :=
  match l with
  | [] => Ok m
  | x :: l => throw_if (map_has (key x) m) msg ≫= fun _ => restore_map key msg l (map_set (key x) x m)
  end.

Definition restore_entry (v : IdempotencyEntry) (m : list (jstr * Idempotency))
    : result (list (jstr * Idempotency)) :=
  let key := idempotency_key (ie_scope v) (ie_key v) in
  let invalid : jstr := "invalid operations idempotency snapshot" in
  throw_if (map_has key m || negb (ID (ie_scope v)) || negb (ID (ie_key v))
            || negb (hex_of_length 64 (ie_requestHash v))) invalid ≫= fun _ =>
  match ie_error v, ie_response v with
  | Some msg, None =>
      throw_if ((length msg =? 0)%nat || (512 <? length msg)%nat) invalid ≫= fun _ =>
      Ok (map_set key {| im_requestHash := ie_requestHash v; im_outcome := Throw msg |} m)
  | None, Some r => Ok (map_set key {| im_requestHash := ie_requestHash v; im_outcome := Ok r |} m)
  | _, _ => Throw invalid
  end.

Fixpoint restore_entries (l : list IdempotencyEntry) (m : list (jstr * Idempotency))
    : result (list (jstr * Idempotency)) :=
  match l with
  | [] => Ok m
  | v :: l => restore_entry v m ≫= restore_entries l
  end.

Definition restore (snap : CustomerOperationsSnapshot) : result CustomerOperationsStateMachine :=
  throw_if (negb (cs_schemaVersion snap =? 1)) "invalid customer operations snapshot" ≫= fun _ =>
  restore_map (fun c => case_key (oc_tenantId c) (oc_caseId c)) "duplicate operations case"
    (cs_cases snap) [] ≫= fun cs =>
  restore_map (fun o => case_key (ov_tenantId o) (ov_overrideId o)) "duplicate operations override"
    (cs_overrides snap) [] ≫= fun os =>
  restore_entries (cs_idempotency snap) [] ≫= fun im =>
  let machine := {| cases := cs; overrides := os; events := cs_auditEvents snap;
                    intents := cs_notificationIntents snap; idempotency := im |} in
  throw_if (negb (verifyAudit machine) || negb (validateRestoredState machine))
    "customer operations snapshot verification failed" ≫= fun _ =>
  Ok machine.
End operations.
