(* ===== verification/OperationsSteps.v ===== *)
(** OperationsSteps: an abstract specification of the case workflow, the
    effects a call can have on cases, overrides, audit and outbox, and the
    proof that every call of the machine is at most one such effect. *)
From stdpp Require Import relations.
From S2P Require Import Prelude JsString JsMap Host TestHost JsTime JsJson CustomerOperations.
#[local] Open Scope string_scope.
#[local] Open Scope list_scope.
#[local] Open Scope Z_scope.
#[local] Open Scope js_scope.

#[local] Abbreviation M := (St CustomerOperationsStateMachine).

(** ** Calls *)

Inductive ops_op : Type :=
| do_open (i : OpenCaseInput) (e : Env)
| do_transition (i : TransitionInput) (e : Env)
| do_proof (i : ProofInput) (e : Env)
| do_reset (i : ResetInput) (e : Env)
| do_approve (i : ApproveInput) (e : Env).

Section calls.
Context `{Host}.

(** The state a call leaves, whether it returned or threw. *)
Definition run_ops (o : ops_op) (s : CustomerOperationsStateMachine) : CustomerOperationsStateMachine :=
  match o with
  | do_open i e => (openCase i e s).2
  | do_transition i e => (transition i e s).2
  | do_proof i e => (verifyRecoveryProof i e s).2
  | do_reset i e => (requestTrustReset i e s).2
  | do_approve i e => (approveTrustReset i e s).2
  end.

Definition ops_tenant (o : ops_op) : jstr :=
  match o with
  | do_open i _ => op_tenantId i | do_transition i _ => ti_tenantId i
  | do_proof i _ => pr_tenantId i | do_reset i _ => rs_tenantId i
  | do_approve i _ => ap_tenantId i
  end.
Definition ops_now (o : ops_op) : Date :=
  match o with
  | do_open i e => or_now (op_now i) e 0 | do_transition i e => or_now (ti_now i) e 0
  | do_proof i e => or_now (pr_now i) e 0 | do_reset i e => or_now (rs_now i) e 0
  | do_approve i e => or_now (ap_now i) e 0
  end.

(** ** The state changes of the specification *)

Definition event_at (value : OperationsCase) (type : jstr) (actorId actorRole reason at_ uuid : jstr)
    (log : list OperationsAuditEvent) : OperationsAuditEvent :=
  let body := {| oe_sequence := Z.of_nat (length log) + 1; oe_eventId := uuid;
    oe_tenantId := oc_tenantId value; oe_caseId := oc_caseId value; oe_type := type;
    oe_actorId := actorId; oe_actorRole := actorRole; oe_reason := reason;
    oe_correlationId := oc_correlationId value; oe_occurredAt := at_;
    oe_previousHash := last_hash log; oe_hash := [] |} in
  with_hash (hash (event_body body)) body.

Definition log_event value type actorId actorRole reason at_ uuid (s : CustomerOperationsStateMachine) :=
  set_events (events s ++ [event_at value type actorId actorRole reason at_ uuid (events s)]) s.

Definition intent_at (value : OperationsCase) (template at_ uuid : jstr) : NotificationOutboxIntent :=
  {| ni_intentId := uuid;
     ni_eventKey := oc_tenantId value +:+ ":" +:+ oc_caseId value +:+ ":" +:+ template +:+ ":" +:+ uuid;
     ni_topic := NOTIFICATION_TOPIC; ni_tenantId := oc_tenantId value;
     ni_caseId := oc_caseId value; ni_template := template;
     syntheticRecipientRef := subjectRef value; ni_createdAt := at_ |}.

Definition log_intent value template at_ uuid (s : CustomerOperationsStateMachine) :=
  set_intents (intents s ++ [intent_at value template at_ uuid]) s.

Definition put_case key value (s : CustomerOperationsStateMachine) :=
  set_cases (map_set key value (cases s)) s.
Definition put_override key value (s : CustomerOperationsStateMachine) :=
  set_overrides (map_set key value (overrides s)) s.

(** A move the workflow table allows outside the dual-control path. *)
Definition workflow_move (caseType from to : jstr) : Prop :=
  (exists allowed, allowed_from caseType from = Ok allowed /\ to ∈ allowed) /\
  to <> js "trust_reset_pending" /\ ~ (to = js "resolved" /\ from = js "trust_reset_pending").

Definition open_case (s : CustomerOperationsStateMachine) (tenant id : jstr) (c : OperationsCase) : Prop :=
  map_get (case_key tenant id) (cases s) = Some c /\ oc_state c ∉ TERMINAL_STATES.

(** What one call of tenant [tenant] at time [at_] may do. *)
Inductive effect (tenant : jstr) (at_ : jstr) :
    CustomerOperationsStateMachine -> CustomerOperationsStateMachine -> Prop :=
| eff_open s c actorId role u1 u2
    (Hfresh : map_get (case_key tenant (oc_caseId c)) (cases s) = None)
    (Htenant : oc_tenantId c = tenant) (Hid : ID tenant = true /\ ID (oc_caseId c) = true)
    (Hsubject : SYNTHETIC_REF (subjectRef c) = true)
    (Htype : oc_caseType c ∈ OPERATIONS_CASE_TYPES) (Hstate : oc_state c = js "opened") :
    effect tenant at_ s
      (log_intent c "case_opened" at_ u2 (log_event c "case.opened" actorId role (oc_reason c) at_ u1
         (put_case (case_key tenant (oc_caseId c)) c s)))
| eff_move s id c to actorId role reason u1 u2
    (Hc : open_case s tenant id c) (Hmove : workflow_move (oc_caseType c) (oc_state c) to)
    (Hrole : role ∈ default [] (map_get to TRANSITION_ROLES)) :
    effect tenant at_ s
      (log_intent (with_state to at_ c) "case_state_changed" at_ u2
         (log_event (with_state to at_ c) ("case." +:+ to) actorId role reason at_ u1
            (put_case (case_key tenant id) (with_state to at_ c) s)))
| eff_expire s id c u1
    (Hc : open_case s tenant id c) :
    effect tenant at_ s
      (log_event (with_state "expired" at_ c) "case.expired" "system" "system" "case lifetime expired" at_ u1
         (put_case (case_key tenant id) (with_state "expired" at_ c) s))
| eff_request s id c o role u1 u2
    (Hc : open_case s tenant id c) (Helig : reset_eligible c = true)
    (Hfresh : map_get (case_key tenant (ov_overrideId o)) (overrides s) = None)
    (Ho : ov_tenantId o = tenant /\ ov_caseId o = oc_caseId c /\ ov_state o = js "pending" /\
          requestedAt o = at_ /\ approvals o = [] /\ executedAt o = None /\
          assertReason (ov_reason o) = Ok tt)
    (Hrole : role ∈ APPROVER_ROLES) :
    effect tenant at_ s
      (log_intent (with_state "trust_reset_pending" at_ c) "approval_requested" at_ u2
         (log_event (with_state "trust_reset_pending" at_ c) "trust_reset.requested" (requestedBy o)
            role (ov_reason o) at_ u1
            (put_override (case_key tenant (ov_overrideId o)) o
               (put_case (case_key tenant id) (with_state "trust_reset_pending" at_ c) s))))
| eff_lapse s oid o c u1
    (Hc : open_case s tenant (ov_caseId o) c)
    (Ho : map_get (case_key tenant oid) (overrides s) = Some o) (Hp : ov_state o = js "pending") :
    effect tenant at_ s
      (log_event c "trust_reset.expired" "system" "system" "approval window expired" at_ u1
         (put_override (case_key tenant oid) (with_ov_state "expired" (executedAt o) o) s))
| eff_approve s oid o c a reason u1
    (Hc : open_case s tenant (ov_caseId o) c)
    (Ho : map_get (case_key tenant oid) (overrides s) = Some o) (Hp : ov_state o = js "pending")
    (Hnew : Forall (fun b => apr_actorId b <> apr_actorId a) (approvals o))
    (Ha : apr_role a ∈ APPROVER_ROLES /\ apr_approvedAt a = at_)
    (Hmore : length (approvals o) <> 1%nat) :
    effect tenant at_ s
      (log_event c "trust_reset.approved" (apr_actorId a) (apr_role a) reason at_ u1
         (put_override (case_key tenant oid) (with_approval a o) s))
| eff_execute s oid o c a reason u1 u2 u3
    (Hc : open_case s tenant (ov_caseId o) c)
    (Ho : map_get (case_key tenant oid) (overrides s) = Some o) (Hp : ov_state o = js "pending")
    (Hnew : Forall (fun b => apr_actorId b <> apr_actorId a) (approvals o))
    (Ha : apr_role a ∈ APPROVER_ROLES /\ apr_approvedAt a = at_)
    (Hsecond : length (approvals o) = 1%nat) :
    effect tenant at_ s
      (log_intent (with_state "resolved" at_ c) "trust_reset_completed" at_ u3
         (log_event (with_state "resolved" at_ c) "trust_reset.executed" "system" "system"
            (ov_reason o) at_ u2
            (put_case (case_key tenant (ov_caseId o)) (with_state "resolved" at_ c)
               (put_override (case_key tenant oid)
                  (with_ov_state "executed" (Some at_) (with_approval a o))
                  (log_event c "trust_reset.approved" (apr_actorId a) (apr_role a) reason at_ u1
                     (put_override (case_key tenant oid) (with_approval a o) s)))))).

(** Error messages have between 1 and 512 code units. *)
Definition short_outcome {A} (r : result A) : Prop :=
  match r with Ok _ => True | Throw msg => (0 < length msg <= 512)%nat end.

(** The specification of one call: an effect or none, and at most one more
    recorded answer. *)
Definition spec_call (tenant at_ : jstr) (s s' : CustomerOperationsStateMachine) : Prop :=
  exists s1, (s1 = s \/ effect tenant at_ s s1) /\
    (s' = s1 \/ exists key request outcome,
       ID tenant = true /\ ID key = true /\ short_outcome outcome /\
       map_get (idempotency_key tenant key) (idempotency s1) = None /\
       s' = set_idempotency (map_set (idempotency_key tenant key)
              {| im_requestHash := hash request; im_outcome := outcome |} (idempotency s1)) s1).

(** ** Running the machine's own steps *)

Section running.
Variable I : CustomerOperationsStateMachine -> Prop.

Lemma appendAudit_run value ty actor reason t uuid s :
  assertReason reason = Ok tt ->
  appendAudit value ty actor reason (Some t) uuid s =
    (Ok tt, log_event value ty (ac_actorId actor) (ac_role actor) reason (iso_string t) uuid s).
Proof. intros E. unfold appendAudit. cbv [mbind St_bind lift sget]. by rewrite E. Qed.

Lemma at_append {B} value ty actor reason t uuid (k : unit -> M B) s :
  assertReason reason = Ok tt ->
  I (k tt (log_event value ty (ac_actorId actor) (ac_role actor) reason (iso_string t) uuid s)).2 ->
  I ((appendAudit value ty actor reason (Some t) uuid ≫= k) s).2.
Proof. intros E. cbv [mbind St_bind]. by rewrite appendAudit_run. Qed.

Lemma at_notify {B} value template t uuid (k : unit -> M B) s :
  I (k tt (log_intent value template (iso_string t) uuid s)).2 ->
  I ((notify value template (Some t) uuid ≫= k) s).2.
Proof. done. Qed.

Lemma at_update_case {B} key f c (k : unit -> M B) s :
  map_get key (cases s) = Some c -> I (k tt (put_case key (f c) s)).2 ->
  I ((update_case key f ≫= k) s).2.
Proof.
  intros E Hk. cbv [mbind St_bind update_case smodify].
  by rewrite (map_update_present _ _ _ _ E).
Qed.

Lemma at_update_override {B} key f o (k : unit -> M B) s :
  map_get key (overrides s) = Some o -> I (k tt (put_override key (f o) s)).2 ->
  I ((update_override key f ≫= k) s).2.
Proof.
  intros E Hk. cbv [mbind St_bind update_override smodify].
  by rewrite (map_update_present _ _ _ _ E).
Qed.

Lemma at_activeCase {B} tenant id t uuid (k : OperationsCase -> M B) s :
  I s ->
  (forall c, open_case s tenant id c ->
     I (log_event (with_state "expired" (iso_string t) c) "case.expired" "system" "system"
          "case lifetime expired" (iso_string t) uuid
          (put_case (case_key tenant id) (with_state "expired" (iso_string t) c) s))) ->
  (forall c, open_case s tenant id c -> I (k c s).2) ->
  I ((activeCase tenant id (Some t) uuid ≫= k) s).2.
Proof.
  intros Hs Hexp Hk. unfold activeCase.
  cbv [mbind St_bind]. unfold assertNow. cbn [lift throw_if bool_decide decide_rel]. cbv [sget].
  destruct (map_get _ (cases s)) as [c|] eqn:Ec; [|done].
  destruct (includes _ _) eqn:Et; [done|].
  assert (Hopen : open_case s tenant id c) by (split; [done|by apply bool_decide_eq_false in Et]).
  destruct (num_le _ _).
  - cbn [lift toISOString]. cbv [update_case smodify]. rewrite (map_update_present _ _ _ _ Ec).
    rewrite (appendAudit_run _ _ _ "case lifetime expired") by done. by apply Hexp.
  - by apply Hk.
Qed.

Lemma at_mustOverride {B} tenant id (k : SensitiveOverride -> M B) s :
  I s -> (forall o, map_get (case_key tenant id) (overrides s) = Some o -> I (k o s).2) ->
  I ((mustOverride tenant id ≫= k) s).2.
Proof.
  intros Hs Hk. unfold mustOverride. cbv [mbind St_bind lift]. unfold assertId, throw_if.
  destruct (negb (ID tenant)); [done|]. destruct (negb (ID id)); [done|]. cbv [sget].
  destruct (map_get _ (overrides s)) as [o|] eqn:E; [by apply Hk|done].
Qed.
End running.

(** ** Every call is at most one effect *)

(** *** Messages *)

Ltac short_literal :=
  split; [apply Nat.ltb_lt; vm_compute; reflexivity|apply Nat.leb_le; vm_compute; reflexivity].

Definition throws_short {A} (m : M A) : Prop := forall s, short_outcome (m s).1.

Lemma short_bind {A B} (m : M A) (k : A -> M B) :
  throws_short m -> (forall a, throws_short (k a)) -> throws_short (m ≫= k).
Proof.
  intros Hm Hk s. specialize (Hm s). cbv [mbind St_bind].
  destruct (m s) as [[a|] s']; [apply Hk|exact Hm].
Qed.
Lemma short_lift {A} (r : result A) : short_outcome r -> throws_short (lift r).
Proof. by intros Hr s. Qed.
Lemma short_throw_if b msg : (0 < length msg <= 512)%nat -> short_outcome (throw_if b msg).
Proof. by destruct b. Qed.
Lemma short_result_bind {A B} (r : result A) (k : A -> result B) :
  short_outcome r -> (forall a, short_outcome (k a)) -> short_outcome (r ≫= k).
Proof. destruct r; [by intros _ Hk; apply Hk|done]. Qed.
Lemma short_toISOString d : short_outcome (toISOString d).
Proof. destruct d; [done|short_literal]. Qed.
Lemma short_allowed ct st : short_outcome (allowed_from ct st).
Proof. unfold allowed_from. destruct (map_get _ _); [done|short_literal]. Qed.

Ltac short_result :=
  repeat first
    [ apply short_throw_if; short_literal
    | apply short_toISOString | apply short_allowed
    | apply short_result_bind; [|intros]
    | progress unfold assertActor, assertId, assertReason, assertNow
    | done
    | match goal with |- short_outcome (match ?o with _ => _ end) => destruct o end
    | short_literal ].

Ltac short_call :=
  repeat first
    [ apply short_bind; [|intros]
    | apply short_lift; short_result
    | done
    | match goal with
      | |- throws_short (match ?o with _ => _ end) => destruct o
      | |- throws_short (if ?b then _ else _) => destruct b
      end
    | progress cbv zeta
    | progress unfold appendAudit, notify, update_case, update_override, activeCase, mustOverride ].

Lemma open_short i t e : throws_short (open_work i t e).
Proof. unfold open_work. short_call. Qed.
Lemma transition_short i t e : throws_short (transition_work i t e).
Proof. unfold transition_work. short_call. Qed.
Lemma reset_short i t e : throws_short (reset_work i t e).
Proof. unfold reset_work. short_call. Qed.
Lemma approve_short i t e : throws_short (approve_work i t e).
Proof. unfold approve_work, execute_reset. short_call. Qed.

(** The reason of an override is logged again when it executes. *)
Definition reasons_ok (s : CustomerOperationsStateMachine) : Prop :=
  forall key o, map_get key (overrides s) = Some o -> assertReason (ov_reason o) = Ok tt.

Definition effect_or_none (tenant at_ : jstr) (s s' : CustomerOperationsStateMachine) : Prop :=
  s' = s \/ effect tenant at_ s s'.

Lemma assertId_Ok s label u : assertId s label = Ok u <-> ID s = true.
Proof. apply throw_unless_Ok. Qed.

(** Passes one guard, keeping what it checked under the given name. *)
Tactic Notation "checked" simple_intropattern(p) :=
  apply at_lift_bind; [by left|]; intros ? p.

Lemma open_effect i t e s :
  ID (op_tenantId i) = true ->
  effect_or_none (op_tenantId i) (iso_string t) s (open_work i (Some t) e s).2.
Proof.
  intros Ht. unfold open_work. checked _. checked _.
  checked Htype%throw_unless_Ok%includes_true. checked Hsub%throw_unless_Ok. checked _.
  apply at_lift_bind; [by left|]. intros [] Hreason. checked _.
  destruct (safe_between _ _ _) as [ttl|]; [|by left]. cbv zeta.
  checked Hid%assertId_Ok. apply at_get_bind. checked Hfresh%throw_if_Ok%map_has_false.
  checked [= <-]. checked _. apply at_modify_bind.
  apply at_append; [done|]. apply at_notify. apply at_ret. right. by eapply eff_open.
Qed.

Lemma transition_effect i t e s :
  effect_or_none (ti_tenantId i) (iso_string t) s (transition_work i (Some t) e s).2.
Proof.
  unfold transition_work. checked _. apply at_lift_bind; [by left|]. intros [] Hreason.
  apply at_activeCase; [by left|intros c Hc; right; by apply eff_expire|]. intros c Hc.
  checked [Hn%bool_decide_eq_false Hr]%throw_if_Ok%orb_false_iff.
  checked Hall. checked Hmove%throw_unless_Ok%includes_true.
  checked Hrole%throw_unless_Ok%includes_true. checked [= <-].
  apply (at_update_case _ _ _ c); [apply Hc|]. apply at_append; [done|]. apply at_notify.
  apply at_ret. right. eapply eff_move; [done| |done].
  split; [by eexists|]. split; [done|]. intros [E1 E2]. revert Hr.
  unfold jeqb. by rewrite E1, E2, !bool_decide_true.
Qed.

Lemma reset_effect i t e s :
  -MAX_TIME <= t -> t + MAX_OVERRIDE_TTL_MS <= MAX_TIME ->
  effect_or_none (rs_tenantId i) (iso_string t) s (reset_work i (Some t) e s).2.
Proof.
  intros Hlo Hhi. unfold reset_work. checked _. apply at_lift_bind; [by left|]. intros [] Hreason.
  checked Hrole%throw_unless_Ok%includes_true.
  destruct (safe_between _ _ _) as [ttl|] eqn:Ettl; [|by left].
  apply safe_between_Some in Ettl as (_ & _ & Httl).
  apply at_activeCase; [by left|intros c Hc; right; by apply eff_expire|]. intros c Hc.
  checked Helig%throw_unless_Ok. cbv zeta. checked Hid%assertId_Ok. apply at_get_bind.
  checked Hfresh%throw_if_Ok%map_has_false.
  apply (at_update_case _ _ _ c); [apply Hc|]. eapply at_ok; [done|].
  eapply at_update_case; [apply map_get_set_eq|].
  eapply at_ok.
  { cbn. unfold new_date. rewrite (proj2 (Z.leb_le _ _)) by lia. done. }
  apply at_modify_bind. apply at_append; [done|]. apply at_notify. apply at_ret. right.
  unfold put_case. cbn [set_cases cases]. rewrite map_set_set.
  match goal with
  | |- context [map_set _ ?o (overrides _)] => by eapply (eff_request _ _ s (rs_caseId i) c o)
  end.
Qed.

Lemma approve_effect i t e s :
  reasons_ok s ->
  effect_or_none (ap_tenantId i) (iso_string t) s (approve_work i (Some t) e s).2.
Proof.
  intros Hreasons. unfold approve_work. cbv zeta. checked _. apply at_lift_bind; [by left|]. intros [] Hreason.
  checked Hrole%throw_unless_Ok%includes_true.
  apply at_mustOverride; [by left|]. intros o Ho.
  apply at_activeCase; [by left|intros c Hc; right; by apply eff_expire|]. intros c Hc.
  checked Hp%throw_unless_Ok%bool_decide_eq_true.
  destruct (num_le _ _).
  { apply (at_update_override _ _ _ o); [done|]. apply at_append; [done|].
    right. by eapply eff_lapse. }
  checked Hdup%throw_if_Ok%existsb_false_Forall. checked _. checked [= <-].
  assert (Hnew : Forall (fun b => apr_actorId b <> ac_actorId (ap_actor i)) (approvals o)).
  { eapply Forall_impl; [exact Hdup|]. intros b. apply bool_decide_eq_false. }
  apply (at_update_override _ _ _ o); [done|]. apply at_append; [done|].
  cbn [approvals with_approval]. rewrite length_app. cbn [length].
  destruct (Nat.eqb_spec (length (approvals o) + 1) 2) as [E|E]; cbv iota.
  - unfold execute_reset. cbv zeta.
    apply at_assoc, (at_update_override _ _ _ (with_approval
      {| apr_actorId := ac_actorId (ap_actor i); apr_role := ac_role (ap_actor i);
         apr_approvedAt := iso_string t |} o)); [apply map_get_set_eq|].
    apply at_assoc, (at_update_case _ _ _ c); [apply Hc|].
    apply at_assoc, at_append; [exact (Hreasons _ _ Ho)|]. apply at_assoc, at_notify. right.
    eapply (eff_execute _ _ s (ap_overrideId i) o c); try done. lia.
  - right. eapply (eff_approve _ _ s (ap_overrideId i) o c); try done. lia.
Qed.

Lemma effect_idempotency tenant at_ s s' :
  effect tenant at_ s s' -> idempotency s' = idempotency s.
Proof. by destruct 1. Qed.

Lemma once_spec tenant at_ key request work s :
  (ID tenant = true -> effect_or_none tenant at_ s (work s).2) -> throws_short work ->
  spec_call tenant at_ s (once tenant key request work s).2.
Proof.
  intros Hw Hshort. assert (Hnone : spec_call tenant at_ s s) by (exists s; split; by left).
  unfold once. apply at_lift_bind; [done|]. intros u Ht%assertId_Ok.
  apply at_lift_bind; [done|]. intros u' Hk%assertId_Ok. apply at_get_bind.
  destruct (map_get _ (idempotency s)) as [prior|] eqn:E.
  { apply at_lift_bind; [exact Hnone|intros; exact Hnone]. }
  specialize (Hw Ht). specialize (Hshort s). destruct (work s) as [outcome s1] eqn:Ew. cbn in *.
  exists s1. split; [exact Hw|]. right. exists key, request, outcome. split_and!; try done.
  destruct Hw as [->|Hw%effect_idempotency]; [done|]. by rewrite Hw.
Qed.

(** A call whose clock is valid and leaves room for an approval window. *)
Definition timely (o : ops_op) : Prop :=
  exists t, ops_now o = Some t /\ -MAX_TIME <= t /\ t + MAX_OVERRIDE_TTL_MS <= MAX_TIME.

Lemma call_spec o s :
  reasons_ok s -> timely o ->
  exists t, ops_now o = Some t /\ spec_call (ops_tenant o) (iso_string t) s (run_ops o s).
Proof.
  intros Hreasons (t0 & Ht & Hlo & Hhi). exists t0. split; [done|].
  assert (Hnone : forall tenant at_, spec_call tenant at_ s s) by (intros; exists s; split; by left).
  assert (Htr : forall i e, or_now (ti_now i) e 0 = Some t0 ->
    spec_call (ti_tenantId i) (iso_string t0) s (transition i e s).2).
  { intros i e Hn. unfold transition. cbv zeta. rewrite Hn. eapply at_ok; [done|].
    apply once_spec; [intros _; apply transition_effect|apply transition_short]. }
  destruct o as [i e|i e|i e|i e|i e]; cbn [run_ops ops_tenant ops_now] in *.
  - unfold openCase. cbv zeta. rewrite Ht. eapply at_ok; [done|].
    apply once_spec; [by apply open_effect|apply open_short].
  - by apply Htr.
  - unfold verifyRecoveryProof, getCase. apply at_lift_bind; [done|]. intros u _.
    apply at_assoc, at_lift_bind; [done|]. intros u1 _.
    apply at_assoc, at_lift_bind; [done|]. intros u2 _. apply at_assoc, at_get_bind.
    destruct (map_get _ _) as [c|]; [|done]. apply at_ret_bind, at_lift_bind; [done|]. intros u3 _.
    by apply (Htr {| ti_tenantId := pr_tenantId i; ti_now := pr_now i |}).
  - unfold requestTrustReset. cbv zeta. rewrite Ht. eapply at_ok; [done|].
    apply once_spec; [intros _; by apply reset_effect|apply reset_short].
  - unfold approveTrustReset. cbv zeta. rewrite Ht. eapply at_ok; [done|].
    apply once_spec; [intros _; by apply approve_effect|apply approve_short].
Qed.

(** C30: a call changes cases, overrides, audit and outbox by at most one effect
    of the specification, on the caller's tenant and at the call's time, and
    records at most one new answer. *)
Theorem operations_call_refines (o : ops_op) (s : CustomerOperationsStateMachine)
    (Hreasons : reasons_ok s) (Htimely : timely o) :
  exists t, ops_now o = Some t /\ spec_call (ops_tenant o) (iso_string t) s (run_ops o s).
Proof. by apply call_spec. Qed.
End calls.
