(* ===== verification/OperationsInv.v ===== *)
(** OperationsInv: the invariant of the case workflow under the effects of its
    specification, and what follows for reachable machines: dual control, the
    history of a case, and snapshots that restore. *)
From stdpp Require Import relations.
From S2P Require Import Prelude JsString JsMap Host TestHost JsTime JsJson CustomerOperations OperationsSteps.
#[local] Open Scope string_scope.
#[local] Open Scope list_scope.
#[local] Open Scope Z_scope.
#[local] Open Scope js_scope.

(** ** Composite keys *)

(** A tenant identifier without the separator of composite keys. *)
Definition no_colon (t : jstr) : Prop := 58%N ∉ t.

Lemma case_key_inj t c t' c' :
  no_colon t -> no_colon t' -> case_key t c = case_key t' c' -> t = t' /\ c = c'.
Proof.
  unfold no_colon, case_key. revert t'.
  induction t as [|x t IH]; intros [|y t'] Ht Ht' E; cbn in E.
  - by injection E.
  - injection E as <- _. destruct Ht'. apply list_elem_of_here.
  - injection E as -> _. destruct Ht. apply list_elem_of_here.
  - injection E as -> E. apply not_elem_of_cons in Ht as [_ Ht].
    apply not_elem_of_cons in Ht' as [_ Ht']. by destruct (IH t' Ht Ht' E) as [-> ->].
Qed.

(** ** Lists of events *)

Lemma find_app {A} (f : A -> bool) l1 l2 :
  List.find f (l1 ++ l2) = match List.find f l1 with Some x => Some x | None => List.find f l2 end.
Proof. induction l1 as [|x l1 IH]; [done|]. cbn. by destruct (f x). Qed.

Lemma find_head_filter {A} (f : A -> bool) l : List.find f l = head (List.filter f l).
Proof. induction l as [|x l IH]; [done|]. cbn. by destruct (f x). Qed.

Definition about (t id : jstr) (e : OperationsAuditEvent) : Prop := oe_tenantId e = t /\ oe_caseId e = id.

Lemma events_of_app t id l1 l2 : events_of t id (l1 ++ l2) = events_of t id l1 ++ events_of t id l2.
Proof. apply List.filter_app. Qed.

Lemma events_of_same t id l : Forall (about t id) l -> events_of t id l = l.
Proof.
  induction 1 as [|e l [H1 H2] Hl IH]; [done|]. cbn. unfold jeqb.
  rewrite !bool_decide_true by done. cbn. f_equal. exact IH.
Qed.

Lemma events_of_other t id t' id' l :
  Forall (about t id) l -> (t, id) <> (t', id') -> events_of t' id' l = [].
Proof.
  intros Hl Hne. induction Hl as [|e l [H1 H2] Hl IH]; [done|]. cbn. unfold jeqb.
  destruct (bool_decide_reflect (oe_tenantId e = t')), (bool_decide_reflect (oe_caseId e = id'));
    cbn; try exact IH. destruct Hne. congruence.
Qed.

Lemma events_of_none t id l : (forall e, e ∈ l -> ~ about t id e) -> events_of t id l = [].
Proof.
  intros Hl. induction l as [|e l IH]; [done|]. cbn. unfold jeqb.
  destruct (bool_decide_reflect (oe_tenantId e = t)), (bool_decide_reflect (oe_caseId e = id)); cbn;
    try (apply IH; intros x Hx; apply Hl; by constructor).
  destruct (Hl e); [constructor|done].
Qed.

Definition requests := List.filter (of_type "trust_reset.requested").
Definition approved := List.filter (of_type "trust_reset.approved").
Definition executed := List.filter (of_type "trust_reset.executed").
Definition lapsed := List.filter (of_type "trust_reset.expired").

(** ** The invariant *)

Definition AFTER_REQUEST : list jstr := [js "trust_reset_pending"; js "resolved"; js "expired"].

(** What a case and the events recorded for it have in common. *)
Record case_inv (es : list OperationsAuditEvent) (c : OperationsCase) : Prop := {
  ci_ids : ID (oc_tenantId c) = true /\ ID (oc_caseId c) = true /\
           SYNTHETIC_REF (subjectRef c) = true /\ oc_caseType c ∈ OPERATIONS_CASE_TYPES;
  ci_opened : exists e, List.find (of_type "case.opened") es = Some e /\ oe_reason e = oc_reason c;
  ci_correlation : Forall (fun e => oe_correlationId e = oc_correlationId c) es;
  ci_state : derived_state es = oc_state c;
  ci_requested : requests es <> [] -> oc_state c ∈ AFTER_REQUEST;
  ci_unrequested : requests es = [] -> approved es = [] /\ executed es = [] /\ lapsed es = [];
}.

Definition approval_logged (a : Approval) (e : OperationsAuditEvent) : Prop :=
  oe_actorId e = apr_actorId a /\ oe_actorRole e = apr_role a /\ oe_occurredAt e = apr_approvedAt a.

(** How far an override is. *)
Definition override_phase (es : list OperationsAuditEvent) (o : SensitiveOverride) : Prop :=
  (ov_state o = js "pending" /\ (length (approvals o) < 2)%nat /\ executedAt o = None /\
     executed es = [] /\ lapsed es = []) \/
  (ov_state o = js "expired" /\ (length (approvals o) < 2)%nat /\ executedAt o = None /\
     executed es = [] /\ lapsed es <> []) \/
  (ov_state o = js "executed" /\ length (approvals o) = 2%nat /\
     (exists x, executed es = [x] /\ executedAt o = Some (oe_occurredAt x)) /\ lapsed es = []).

Record override_inv `{Host} (es : list OperationsAuditEvent) (o : SensitiveOverride) : Prop := {
  oi_request : exists r, requests es = [r] /\ oe_actorId r = requestedBy o /\
               oe_reason r = ov_reason o /\ oe_occurredAt r = requestedAt o;
  oi_approvals : Forall2 approval_logged (approvals o) (approved es);
  oi_distinct : NoDup (map apr_actorId (approvals o));
  oi_roles : Forall (fun a => apr_role a ∈ APPROVER_ROLES) (approvals o);
  oi_reason : assertReason (ov_reason o) = Ok tt;
  oi_phase : override_phase es o;
}.

Record core_inv `{Host} (cs : list (jstr * OperationsCase)) (os : list (jstr * SensitiveOverride))
    (log : list OperationsAuditEvent) : Prop := {
  co_cases : map_wf cs;
  co_case k c : map_get k cs = Some c ->
    k = case_key (oc_tenantId c) (oc_caseId c) /\ no_colon (oc_tenantId c) /\
    case_inv (events_of (oc_tenantId c) (oc_caseId c) log) c;
  co_overrides : map_wf os;
  co_override k o : map_get k os = Some o ->
    k = case_key (ov_tenantId o) (ov_overrideId o) /\ no_colon (ov_tenantId o) /\
    (exists c, map_get (case_key (ov_tenantId o) (ov_caseId o)) cs = Some c) /\
    override_inv (events_of (ov_tenantId o) (ov_caseId o) log) o;
  co_unique k1 k2 o1 o2 : map_get k1 os = Some o1 -> map_get k2 os = Some o2 ->
    case_key (ov_tenantId o1) (ov_caseId o1) = case_key (ov_tenantId o2) (ov_caseId o2) -> k1 = k2;
  co_events e : e ∈ log -> no_colon (oe_tenantId e) /\
    exists c, map_get (case_key (oe_tenantId e) (oe_caseId e)) cs = Some c;
}.

Section invariant.
Context `{HostLaws}.

(** ** How events bear on a case *)

(** Types that move a case without concerning its trust reset. *)
Definition plain_type (ty : jstr) : bool :=
  negb (includes [js "trust_reset.requested"; js "trust_reset.approved"; js "trust_reset.executed";
                  js "trust_reset.expired"; js "case.opened"] ty).

Lemma derived_snoc es e :
  derived_state (es ++ [e]) = default (derived_state es) (map_get (oe_type e) stateByEvent).
Proof. unfold derived_state. by rewrite fold_left_app. Qed.

Lemma of_type_snoc ty es e :
  List.filter (of_type ty) (es ++ [e]) =
  List.filter (of_type ty) es ++ (if oe_type e =s? ty then [e] else []).
Proof. rewrite List.filter_app. cbn. unfold of_type. by destruct (_ =s? _). Qed.

(** The events of the four trust-reset types after one more event. *)
Lemma reset_events_snoc es e :
  (requests (es ++ [e]) = requests es ++ (if oe_type e =s? "trust_reset.requested" then [e] else [])) /\
  (approved (es ++ [e]) = approved es ++ (if oe_type e =s? "trust_reset.approved" then [e] else [])) /\
  (executed (es ++ [e]) = executed es ++ (if oe_type e =s? "trust_reset.executed" then [e] else [])) /\
  (lapsed (es ++ [e]) = lapsed es ++ (if oe_type e =s? "trust_reset.expired" then [e] else [])).
Proof. split_and!; apply of_type_snoc. Qed.

Lemma plain_snoc es e :
  plain_type (oe_type e) = true ->
  requests (es ++ [e]) = requests es /\ approved (es ++ [e]) = approved es /\
  executed (es ++ [e]) = executed es /\ lapsed (es ++ [e]) = lapsed es.
Proof.
  intros Hp. apply negb_true_iff, bool_decide_eq_false in Hp.
  destruct (reset_events_snoc es e) as (-> & -> & -> & ->). unfold jeqb.
  rewrite !bool_decide_false; [by rewrite !app_nil_r|..]; intros E; rewrite E in Hp; apply Hp; set_solver.
Qed.

Definition same_case (c c' : OperationsCase) : Prop :=
  oc_tenantId c' = oc_tenantId c /\ oc_caseId c' = oc_caseId c /\ oc_caseType c' = oc_caseType c /\
  subjectRef c' = subjectRef c /\ oc_reason c' = oc_reason c /\
  oc_correlationId c' = oc_correlationId c.

(** One more event on a case, with the state it leads to. *)
Lemma case_inv_snoc es e c c' :
  case_inv es c -> same_case c c' -> oe_correlationId e = oc_correlationId c ->
  oc_state c' = default (oc_state c) (map_get (oe_type e) stateByEvent) ->
  (requests (es ++ [e]) <> [] -> oc_state c' ∈ AFTER_REQUEST) ->
  (requests (es ++ [e]) = [] -> approved (es ++ [e]) = [] /\ executed (es ++ [e]) = [] /\ lapsed (es ++ [e]) = []) ->
  case_inv (es ++ [e]) c'.
Proof.
  intros [Hids (x & Hx & Hr) Hcorr Hst _ _] (E1 & E2 & E3 & E4 & E5 & E6) He Hs Hreq Hun.
  split; rewrite ?E1, ?E2, ?E3, ?E4, ?E5, ?E6; try done.
  - exists x. split; [|done]. by rewrite find_app, Hx.
  - apply Forall_app. split; [done|]. by constructor.
  - by rewrite derived_snoc, Hst.
Qed.

(** A plain event leaves an override alone. *)
Lemma override_inv_plain es e o :
  plain_type (oe_type e) = true -> override_inv es o -> override_inv (es ++ [e]) o.
Proof.
  intros Hp [Hreq Happ Hd Hr Hrs Hph]. destruct (plain_snoc es e Hp) as (E1 & E2 & E3 & E4).
  split; unfold override_phase in *; by rewrite ?E1, ?E2, ?E3, ?E4.
Qed.

(** ** One case and its override change *)

Lemma core_touch cs os log t id c c' evs os' :
  core_inv cs os log -> no_colon t -> map_get (case_key t id) cs = Some c -> same_case c c' ->
  Forall (about (oc_tenantId c) (oc_caseId c)) evs ->
  (case_inv (events_of (oc_tenantId c) (oc_caseId c) log) c ->
   case_inv (events_of (oc_tenantId c) (oc_caseId c) log ++ evs) c') ->
  map_wf os' ->
  (forall k o, map_get k os' = Some o ->
     (map_get k os = Some o /\ case_key (ov_tenantId o) (ov_caseId o) <> case_key t id) \/
     (k = case_key (ov_tenantId o) (ov_overrideId o) /\
      ov_tenantId o = oc_tenantId c /\ ov_caseId o = oc_caseId c /\
      override_inv (events_of (oc_tenantId c) (oc_caseId c) log ++ evs) o)) ->
  (forall k1 k2 o1 o2, map_get k1 os' = Some o1 -> map_get k2 os' = Some o2 ->
    case_key (ov_tenantId o1) (ov_caseId o1) = case_key (ov_tenantId o2) (ov_caseId o2) -> k1 = k2) ->
  core_inv (map_set (case_key t id) c' cs) os' (log ++ evs).
Proof.
  intros [Hwf Hcs _ Hov _ Hev] Hnc Hc Hsame Hevs Hci Hwf' Hos Huniq.
  destruct (Hcs _ _ Hc) as (Hk & Hnt & Hinv). apply case_key_inj in Hk as [-> ->]; [|done..].
  assert (Hpres : forall k, (exists x, map_get k cs = Some x) ->
    exists x, map_get k (map_set (case_key (oc_tenantId c) (oc_caseId c)) c' cs) = Some x).
  { intros k [x Hx]. rewrite map_get_set. case_bool_decide; [by eexists|by exists x]. }
  split; try done.
  - by apply map_set_wf.
  - intros k x. rewrite map_get_set. case_bool_decide as E; intros Hx.
    + injection Hx as <-. destruct Hsame as (E1 & E2 & _). rewrite E1, E2.
      rewrite events_of_app, (events_of_same _ _ evs) by done. by auto.
    + destruct (Hcs _ _ Hx) as (Hkx & Hnx & Hix). split; [done|]. split; [done|].
      rewrite events_of_app, (events_of_other _ _ _ _ evs Hevs), app_nil_r; [done|].
      intros [= E1 E2]. rewrite Hkx, E1, E2 in E. done.
  - intros k o Ho. destruct (Hos _ _ Ho) as [[Hold Hne]|(Hko & Ht & Hi & Hio)].
    + destruct (Hov _ _ Hold) as (Hko & Hno & Hco & Hio). split_and!; try done; [by apply Hpres|].
      rewrite events_of_app, (events_of_other _ _ _ _ evs Hevs), app_nil_r; [done|].
      intros [= E1 E2]. rewrite E1, E2 in Hne. done.
    + rewrite Ht, Hi. split_and!; try done.
      * congruence.
      * apply Hpres. by exists c.
      * by rewrite events_of_app, (events_of_same _ _ evs).
  - intros e He. apply elem_of_app in He as [He|He].
    + destruct (Hev _ He) as [Hne Hex]. split; [done|by apply Hpres].
    + eapply Forall_forall in Hevs as [E1 E2]; [|exact He]. rewrite E1, E2. split; [done|].
      apply Hpres. by exists c.
Qed.

(** ** The workflow table *)

Definition move_facts (ct from to : jstr) : bool :=
  (to =s? "trust_reset_pending") || (from =s? "trust_reset_pending")
  || (bool_decide (map_get ("case." +:+ to) stateByEvent = Some to) && plain_type ("case." +:+ to)
      && negb (includes AFTER_REQUEST from)).

Lemma table_facts :
  forallb (fun r => forallb (fun m => forallb (move_facts r.1 m.1) m.2) r.2) TRANSITIONS = true.
Proof. by vm_compute. Qed.

(** Leaving a pending reset is left to the dual-control path. *)
Lemma table_pending :
  forallb (fun r => forallb (fun m => negb (m.1 =s? "trust_reset_pending")
    || forallb (fun to => to =s? "resolved") m.2) r.2) TRANSITIONS = true.
Proof. by vm_compute. Qed.

Lemma workflow_move_in ct from to allowed (f : jstr -> jstr * list jstr -> bool) :
  allowed_from ct from = Ok allowed -> to ∈ allowed ->
  forallb (fun r => forallb (f r.1) r.2) TRANSITIONS = true ->
  f ct (from, allowed) = true.
Proof.
  unfold allowed_from. destruct (map_get ct TRANSITIONS) as [row|] eqn:Er; [|done].
  intros [= <-] Hto Hall. destruct (map_get from row) as [tos|] eqn:Et; [|by apply elem_of_nil in Hto].
  apply map_get_in in Er, Et. rewrite forallb_forall in Hall.
  apply list_elem_of_In in Er, Et. specialize (Hall _ Er). cbn in Hall.
  rewrite forallb_forall in Hall. exact (Hall _ Et).
Qed.

Lemma workflow_move_facts ct from to :
  workflow_move ct from to ->
  map_get ("case." +:+ to) stateByEvent = Some to /\ plain_type ("case." +:+ to) = true /\
  from ∉ AFTER_REQUEST.
Proof.
  intros ((allowed & Ha & Hin) & Hn & Hr).
  pose proof (workflow_move_in _ _ _ _
    (fun ct m => forallb (move_facts ct m.1) m.2) Ha Hin table_facts) as Hf.
  pose proof (workflow_move_in _ _ _ _ (fun _ m => negb (m.1 =s? "trust_reset_pending")
    || forallb (fun to => to =s? "resolved") m.2) Ha Hin table_pending) as Hp.
  cbn in Hf, Hp. apply list_elem_of_In in Hin as Hin'.
  rewrite forallb_forall in Hf. specialize (Hf _ Hin'). unfold move_facts in Hf.
  rewrite !orb_true_iff, !andb_true_iff, negb_true_iff in Hf. unfold jeqb, includes in *.
  rewrite !bool_decide_eq_true, bool_decide_eq_false in Hf.
  destruct Hf as [[?|Hfrom]|[[? ?] ?]]; [done| |done].
  rewrite bool_decide_true in Hp by done. cbn in Hp. rewrite forallb_forall in Hp.
  specialize (Hp _ Hin'). apply bool_decide_eq_true in Hp. by destruct Hr.
Qed.

(** ** Every effect keeps the invariant *)

Lemma event_at_about c ty a r reason at_ u log :
  about (oc_tenantId c) (oc_caseId c) (event_at c ty a r reason at_ u log) /\
  oe_type (event_at c ty a r reason at_ u log) = ty /\
  oe_correlationId (event_at c ty a r reason at_ u log) = oc_correlationId c /\
  oe_actorId (event_at c ty a r reason at_ u log) = a /\
  oe_actorRole (event_at c ty a r reason at_ u log) = r /\
  oe_reason (event_at c ty a r reason at_ u log) = reason /\
  oe_occurredAt (event_at c ty a r reason at_ u log) = at_.
Proof. done. Qed.

(** A move of a case by an event that does not concern its trust reset. *)
Lemma core_plain cs os log t id c st at_ e :
  core_inv cs os log -> no_colon t -> map_get (case_key t id) cs = Some c ->
  about (oc_tenantId c) (oc_caseId c) e -> oe_correlationId e = oc_correlationId c ->
  plain_type (oe_type e) = true -> map_get (oe_type e) stateByEvent = Some st ->
  (requests (events_of (oc_tenantId c) (oc_caseId c) log) <> [] -> st ∈ AFTER_REQUEST) ->
  core_inv (map_set (case_key t id) (with_state st at_ c) cs) os (log ++ [e]).
Proof.
  intros Hinv Hnc Hc He Hcorr Hp Hst Hreq. pose proof Hinv as [_ Hcs Hwf Hov Huniq _].
  destruct (plain_snoc (events_of (oc_tenantId c) (oc_caseId c) log) e Hp) as (E1 & E2 & E3 & E4).
  eapply core_touch; try done; [by constructor| |].
  - intros Hci. eapply case_inv_snoc; [exact Hci|done|done|by rewrite Hst|by rewrite E1|].
    rewrite E1, E2, E3, E4. apply Hci.
  - intros k o Ho. destruct (Hov _ _ Ho) as (Hk & Hno & Hx & Hio).
    destruct (decide (case_key (ov_tenantId o) (ov_caseId o) = case_key t id)) as [E|E]; [|by left].
    right. destruct (Hcs _ _ Hc) as (Hkc & Hnt & _). rewrite Hkc in E.
    apply case_key_inj in E as [E5 E6]; [|done..]. rewrite E5, E6 in *.
    split_and!; try done. by apply override_inv_plain.
Qed.

(** Effects that touch one override of the case: the others are on other cases. *)
Lemma other_overrides cs os log t id c ko o o' evs :
  core_inv cs os log -> no_colon t -> map_get (case_key t id) cs = Some c ->
  map_get ko os = Some o -> case_key (ov_tenantId o) (ov_caseId o) = case_key t id ->
  ov_tenantId o' = ov_tenantId o -> ov_overrideId o' = ov_overrideId o -> ov_caseId o' = ov_caseId o ->
  (override_inv (events_of (oc_tenantId c) (oc_caseId c) log) o ->
   override_inv (events_of (oc_tenantId c) (oc_caseId c) log ++ evs) o') ->
  (forall k x, map_get k (map_set ko o' os) = Some x ->
     (map_get k os = Some x /\ case_key (ov_tenantId x) (ov_caseId x) <> case_key t id) \/
     (k = case_key (ov_tenantId x) (ov_overrideId x) /\
      ov_tenantId x = oc_tenantId c /\ ov_caseId x = oc_caseId c /\
      override_inv (events_of (oc_tenantId c) (oc_caseId c) log ++ evs) x)) /\
  (forall k1 k2 o1 o2, map_get k1 (map_set ko o' os) = Some o1 -> map_get k2 (map_set ko o' os) = Some o2 ->
    case_key (ov_tenantId o1) (ov_caseId o1) = case_key (ov_tenantId o2) (ov_caseId o2) -> k1 = k2).
Proof.
  intros [_ Hcs _ Hov Huniq _] Hnc Hc Ho Hkey E1 E2 E3 Hstep.
  destruct (Hcs _ _ Hc) as (Hkc & Hnt & _). destruct (Hov _ _ Ho) as (Hko & Hno & _ & Hio).
  assert (ov_tenantId o = oc_tenantId c /\ ov_caseId o = oc_caseId c) as [E4 E5].
  { rewrite Hkc in Hkey. by apply case_key_inj in Hkey. }
  split.
  - intros k x. rewrite map_get_set. case_bool_decide as E; intros Hx.
    + injection Hx as <-. right. rewrite E1, E2, E3. rewrite E4, E5 in *. split_and!; try done; [congruence|].
      by apply Hstep.
    + left. split; [done|]. intros Ex. destruct E. apply (Huniq _ _ _ _ Hx Ho). congruence.
  - intros k1 k2 o1 o2. rewrite !map_get_set. repeat case_bool_decide; intros G1 G2 Hk; simplify_eq; [done|..].
    + apply (Huniq _ _ _ _ Ho G2). congruence.
    + apply (Huniq _ _ _ _ G1 Ho). congruence.
    + by apply (Huniq _ _ _ _ G1 G2).
Qed.


Lemma core_open cs os log c e :
  core_inv cs os log -> map_get (case_key (oc_tenantId c) (oc_caseId c)) cs = None ->
  no_colon (oc_tenantId c) -> ID (oc_tenantId c) = true -> ID (oc_caseId c) = true ->
  SYNTHETIC_REF (subjectRef c) = true -> oc_caseType c ∈ OPERATIONS_CASE_TYPES ->
  oc_state c = js "opened" -> about (oc_tenantId c) (oc_caseId c) e ->
  oe_type e = js "case.opened" -> oe_correlationId e = oc_correlationId c ->
  oe_reason e = oc_reason c ->
  core_inv (map_set (case_key (oc_tenantId c) (oc_caseId c)) c cs) os (log ++ [e]).
Proof.
  intros [Hwf Hcs Hwfo Hov Huniq Hev] Hfresh Hnc Hi1 Hi2 Hi3 Hi4 Hst He Hty Hcorr Hrs.
  assert (Hnone : events_of (oc_tenantId c) (oc_caseId c) log = []).
  { apply events_of_none. intros x Hx [E1 E2]. destruct (Hev _ Hx) as [_ [y Hy]].
    rewrite E1, E2 in Hy. congruence. }
  assert (Hother : forall t id, (oc_tenantId c, oc_caseId c) <> (t, id) ->
    events_of t id (log ++ [e]) = events_of t id log).
  { intros t id Hne. rewrite events_of_app, (events_of_other _ _ _ _ [e] ltac:(by constructor)), app_nil_r; done. }
  split; try done.
  - by apply map_set_wf.
  - intros k x. rewrite map_get_set. case_bool_decide as E; intros Hx.
    + injection Hx as <-. split; [done|]. split; [done|].
      rewrite events_of_app, Hnone, (events_of_same _ _ [e]) by (by constructor). cbn [app].
      split; try done.
      * exists e. cbn. unfold of_type, jeqb. by rewrite bool_decide_true.
      * by constructor.
      * unfold derived_state. cbn [fold_left]. rewrite Hty. by rewrite Hst.
      * unfold requests. cbn. unfold of_type. by rewrite Hty.
      * intros _. unfold approved, executed, lapsed. cbn. unfold of_type. by rewrite Hty.
    + destruct (Hcs _ _ Hx) as (Hkx & Hnx & Hix). split; [done|]. split; [done|].
      rewrite Hother; [done|]. intros [= E1 E2]. rewrite Hkx, E1, E2 in E. done.
  - intros k o Ho. destruct (Hov _ _ Ho) as (Hko & Hno & [y Hy] & Hio). split_and!; try done.
    + rewrite map_get_set. case_bool_decide; [by eexists|by exists y].
    + rewrite Hother; [done|]. intros [= E1 E2]. rewrite <-E1, <-E2 in Hy. congruence.
  - intros x Hx. apply elem_of_app in Hx as [Hx|Hx%list_elem_of_singleton].
    + destruct (Hev _ Hx) as [Hnx [y Hy]]. split; [done|].
      rewrite map_get_set. case_bool_decide; [by eexists|by exists y].
    + destruct He as [E1 E2]. rewrite Hx, E1, E2, map_get_set_eq. split; [done|by eexists].
Qed.

Lemma core_request cs os log t id c o at_ e :
  core_inv cs os log -> no_colon t -> map_get (case_key t id) cs = Some c ->
  reset_eligible c = true -> map_get (case_key t (ov_overrideId o)) os = None ->
  ov_tenantId o = t -> ov_caseId o = oc_caseId c -> ov_state o = js "pending" ->
  approvals o = [] -> executedAt o = None -> assertReason (ov_reason o) = Ok tt ->
  about (oc_tenantId c) (oc_caseId c) e -> oe_type e = js "trust_reset.requested" ->
  oe_correlationId e = oc_correlationId c -> oe_actorId e = requestedBy o ->
  oe_reason e = ov_reason o -> oe_occurredAt e = requestedAt o ->
  core_inv (map_set (case_key t id) (with_state "trust_reset_pending" at_ c) cs)
    (map_set (case_key t (ov_overrideId o)) o os) (log ++ [e]).
Proof.
  intros Hinv Hnc Hc Helig Hfresh Ht Hid Hp Happ Hex Hrs He Hty Hcorr Hact Hre Hat.
  pose proof Hinv as [_ Hcs Hwf Hov Huniq _].
  destruct (Hcs _ _ Hc) as (Hk & Hnt & Hci).
  apply case_key_inj in Hk as [-> ->]; [|done..].
  set (es := events_of (oc_tenantId c) (oc_caseId c) log) in *.
  assert (Hreq : requests es = []).
  { destruct (decide (requests es = [])) as [|Hne]; [done|].
    apply (ci_requested _ _ Hci) in Hne. revert Helig. unfold reset_eligible, jeqb, includes.
    rewrite !orb_true_iff, !andb_true_iff, !bool_decide_eq_true.
    intros [[_ Es]|[_ Es]]; rewrite Es in Hne; set_solver. }
  destruct (ci_unrequested _ _ Hci Hreq) as (A1 & A2 & A3).
  destruct (reset_events_snoc es e) as (R1 & R2 & R3 & R4). rewrite Hty in R1, R2, R3, R4.
  cbn in R1, R2, R3, R4. rewrite ?app_nil_r in R2, R3, R4. rewrite Hreq in R1.
  change (requests (es ++ [e]) = [e]) in R1.
  assert (Hnone : forall k x, map_get k os = Some x ->
    case_key (ov_tenantId x) (ov_caseId x) <> case_key (oc_tenantId c) (oc_caseId c)).
  { intros k x Hx E. destruct (Hov _ _ Hx) as (_ & Hnx & _ & Hix).
    apply case_key_inj in E as [E3 E4]; [|done..]. destruct (oi_request _ _ Hix) as (r & Hr & _).
    rewrite E3, E4 in Hr. unfold es in Hreq. congruence. }
  eapply core_touch; try done; [by constructor| |by apply map_set_wf| |].
  - intros _. fold es. eapply case_inv_snoc; [exact Hci|done|done|by rewrite Hty| |].
    + intros _. cbn. set_solver.
    + rewrite R1. done.
  - intros k x. rewrite map_get_set. case_bool_decide as Ek; intros Hx.
    + injection Hx as <-. right. rewrite Ht, Hid. split_and!; try done.
      fold es. split; rewrite ?R1, ?R2, ?R3, ?R4, ?Happ, ?A1; try constructor; try done.
      * by exists e.
      * rewrite Happ, R3, R4. split_and!; try done. cbn. lia.
    + left. split; [done|]. by eapply Hnone.
  - intros k1 k2 o1 o2. rewrite !map_get_set.
    repeat case_bool_decide; intros G1 G2 Hk; simplify_eq; [done|..].
    + rewrite Ht, Hid in Hk. by destruct (Hnone _ _ G2).
    + rewrite Ht, Hid in Hk. by destruct (Hnone _ _ G1).
    + by apply (Huniq _ _ _ _ G1 G2).
Qed.

(** An event about the trust reset of a pending override. *)
Lemma pending_phase es o :
  override_phase es o -> ov_state o = js "pending" ->
  (length (approvals o) < 2)%nat /\ executedAt o = None /\ executed es = [] /\ lapsed es = [].
Proof.
  intros [(_ & ? & ? & ? & ?)|[(E & _)|(E & _)]] Hp; [done| |];
    rewrite E in Hp; by vm_compute in Hp.
Qed.

Lemma core_lapse cs os log t oid o c e :
  core_inv cs os log -> no_colon t -> map_get (case_key t (ov_caseId o)) cs = Some c ->
  map_get (case_key t oid) os = Some o -> ov_state o = js "pending" ->
  about (oc_tenantId c) (oc_caseId c) e -> oe_type e = js "trust_reset.expired" ->
  oe_correlationId e = oc_correlationId c ->
  core_inv cs (map_set (case_key t oid) (with_ov_state "expired" (executedAt o) o) os) (log ++ [e]).
Proof.
  intros Hinv Hnc Hc Ho Hp He Hty Hcorr. pose proof Hinv as [_ Hcs Hwf Hov Huniq _].
  destruct (Hov _ _ Ho) as (Hko & Hno & _ & Hio). apply case_key_inj in Hko as [-> _]; [|done..].
  destruct (Hcs _ _ Hc) as (Hkc & _ & _).
  apply case_key_inj in Hkc as [Et Ei]; [|done|by eapply Hcs].
  set (es := events_of (oc_tenantId c) (oc_caseId c) log) in *.
  rewrite Et, Ei in Hio. fold es in Hio.
  destruct (reset_events_snoc es e) as (R1 & R2 & R3 & R4). rewrite Hty in R1, R2, R3, R4.
  cbn in R1, R2, R3. rewrite ?app_nil_r in R1, R2, R3.
  change (lapsed (es ++ [e]) = lapsed es ++ [e]) in R4.
  destruct (oi_request _ _ Hio) as (r & Hr & _).
  destruct (other_overrides _ _ _ _ _ _ _ _ (with_ov_state "expired" (executedAt o) o) [e]
    Hinv Hnc Hc Ho eq_refl eq_refl eq_refl eq_refl) as [O1 O2].
  { intros [Hreq Happ Hd Hro Hrs Hph]. fold es. split; rewrite ?R1, ?R2; try done.
    destruct (pending_phase _ _ Hph Hp) as (P1 & P2 & P3 & P4).
    right. left. rewrite R3, R4. split_and!; try done. by destruct (lapsed es). }
  rewrite <-(map_set_same _ _ _ Hc).
  eapply core_touch; try done; [by constructor| |by apply map_set_wf].
  intros Hci. fold es in Hci |- *. eapply case_inv_snoc; [exact Hci|done|done|by rewrite Hty| |].
  - rewrite R1. apply Hci.
  - rewrite R1, Hr. done.
Qed.

(** One more approval, logged. *)
Lemma override_inv_approval es e o a :
  override_inv es o -> ov_state o = js "pending" ->
  Forall (fun b => apr_actorId b <> apr_actorId a) (approvals o) -> apr_role a ∈ APPROVER_ROLES ->
  approval_logged a e -> oe_type e = js "trust_reset.approved" ->
  (exists r, requests (es ++ [e]) = [r] /\ oe_actorId r = requestedBy o /\
               oe_reason r = ov_reason o /\ oe_occurredAt r = requestedAt o) /\
  Forall2 approval_logged (approvals o ++ [a]) (approved (es ++ [e])) /\
  NoDup (map apr_actorId (approvals o ++ [a])) /\
  Forall (fun a => apr_role a ∈ APPROVER_ROLES) (approvals o ++ [a]) /\
  executed (es ++ [e]) = [] /\ lapsed (es ++ [e]) = [].
Proof.
  intros [Hreq Happ Hd Hro Hrs Hph] Hp Hnew Ha Hlog Hty.
  destruct (pending_phase _ _ Hph Hp) as (P1 & P2 & P3 & P4).
  destruct (reset_events_snoc es e) as (R1 & R2 & R3 & R4). rewrite Hty in R1, R2, R3, R4.
  cbn in R1, R3, R4. rewrite ?app_nil_r in R1, R3, R4.
  change (approved (es ++ [e]) = approved es ++ [e]) in R2.
  rewrite R1, R2, R3, R4. split_and!; try done.
  - apply Forall2_app; [done|]. by constructor.
  - rewrite map_app. apply NoDup_app. split; [done|]. split; [|apply NoDup_singleton].
    intros x Hx ->%list_elem_of_singleton. apply list_elem_of_fmap in Hx as (b & Hb & Hin).
    eapply Forall_forall in Hnew; [|exact Hin]. done.
  - apply Forall_app. split; [done|]. by constructor.
Qed.

Lemma core_approve cs os log t oid o c a e :
  core_inv cs os log -> no_colon t -> map_get (case_key t (ov_caseId o)) cs = Some c ->
  map_get (case_key t oid) os = Some o -> ov_state o = js "pending" ->
  Forall (fun b => apr_actorId b <> apr_actorId a) (approvals o) -> apr_role a ∈ APPROVER_ROLES ->
  length (approvals o) <> 1%nat ->
  about (oc_tenantId c) (oc_caseId c) e -> oe_type e = js "trust_reset.approved" ->
  oe_correlationId e = oc_correlationId c -> approval_logged a e ->
  core_inv cs (map_set (case_key t oid) (with_approval a o) os) (log ++ [e]).
Proof.
  intros Hinv Hnc Hc Ho Hp Hnew Ha Hlen He Hty Hcorr Hlog. pose proof Hinv as [_ Hcs Hwf Hov Huniq _].
  destruct (Hov _ _ Ho) as (Hko & Hno & _ & Hio). apply case_key_inj in Hko as [-> _]; [|done..].
  destruct (Hcs _ _ Hc) as (Hkc & _ & _).
  apply case_key_inj in Hkc as [Et Ei]; [|done|by eapply Hcs].
  set (es := events_of (oc_tenantId c) (oc_caseId c) log) in *.
  rewrite Et, Ei in Hio. fold es in Hio.
  destruct (override_inv_approval _ _ _ _ Hio Hp Hnew Ha Hlog Hty) as (A1 & A2 & A3 & A4 & A5 & A6).
  destruct (other_overrides _ _ _ _ _ _ _ _ (with_approval a o) [e]
    Hinv Hnc Hc Ho eq_refl eq_refl eq_refl eq_refl) as [O1 O2].
  { intros [_ _ _ _ Hrs Hph]. fold es. split; try done.
    destruct (pending_phase _ _ Hph Hp) as (P1 & P2 & _ & _).
    left. cbn [approvals with_approval]. rewrite length_app. split_and!; try done. cbn. lia. }
  rewrite <-(map_set_same _ _ _ Hc).
  eapply core_touch; try done; [by constructor| |by apply map_set_wf].
  intros Hci. fold es in Hci |- *. destruct (reset_events_snoc es e) as (R1 & _).
  rewrite Hty in R1. cbn in R1. rewrite app_nil_r in R1. destruct (oi_request _ _ Hio) as (r & Hr & _).
  eapply case_inv_snoc; [exact Hci|done|done|by rewrite Hty| |].
  - rewrite R1. apply Hci.
  - by rewrite R1, Hr.
Qed.

Lemma core_execute cs os log t oid o c a at_ e1 e2 :
  core_inv cs os log -> no_colon t -> map_get (case_key t (ov_caseId o)) cs = Some c ->
  map_get (case_key t oid) os = Some o -> ov_state o = js "pending" ->
  Forall (fun b => apr_actorId b <> apr_actorId a) (approvals o) -> apr_role a ∈ APPROVER_ROLES ->
  length (approvals o) = 1%nat ->
  about (oc_tenantId c) (oc_caseId c) e1 -> oe_type e1 = js "trust_reset.approved" ->
  oe_correlationId e1 = oc_correlationId c -> approval_logged a e1 ->
  about (oc_tenantId c) (oc_caseId c) e2 -> oe_type e2 = js "trust_reset.executed" ->
  oe_correlationId e2 = oc_correlationId c -> oe_occurredAt e2 = at_ ->
  core_inv (map_set (case_key t (ov_caseId o)) (with_state "resolved" at_ c) cs)
    (map_set (case_key t oid) (with_ov_state "executed" (Some at_) (with_approval a o)) os)
    ((log ++ [e1]) ++ [e2]).
Proof.
  intros Hinv Hnc Hc Ho Hp Hnew Ha Hlen He1 Hty1 Hc1 Hlog He2 Hty2 Hc2 Hat.
  pose proof Hinv as [_ Hcs Hwf Hov Huniq _].
  destruct (Hov _ _ Ho) as (Hko & Hno & _ & Hio). apply case_key_inj in Hko as [-> _]; [|done..].
  destruct (Hcs _ _ Hc) as (Hkc & _ & _).
  apply case_key_inj in Hkc as [Et Ei]; [|done|by eapply Hcs].
  set (es := events_of (oc_tenantId c) (oc_caseId c) log) in *.
  rewrite Et, Ei in Hio. fold es in Hio.
  destruct (override_inv_approval _ _ _ _ Hio Hp Hnew Ha Hlog Hty1) as (A1 & A2 & A3 & A4 & A5 & A6).
  destruct (reset_events_snoc (es ++ [e1]) e2) as (R1 & R2 & R3 & R4).
  rewrite Hty2 in R1, R2, R3, R4. cbn in R1, R2, R4. rewrite ?app_nil_r in R1, R2, R4.
  change (executed ((es ++ [e1]) ++ [e2]) = executed (es ++ [e1]) ++ [e2]) in R3.
  rewrite A5 in R3. cbn [app] in R3.
  destruct (other_overrides _ _ _ _ _ _ _ _ (with_ov_state "executed" (Some at_) (with_approval a o))
    [e1; e2] Hinv Hnc Hc Ho eq_refl eq_refl eq_refl eq_refl) as [O1 O2].
  { intros [_ _ _ _ Hrs Hph]. fold es. change [e1; e2] with ([e1] ++ [e2]). rewrite app_assoc.
    split; rewrite ?R1, ?R2, ?R3, ?R4; try done.
    right. right. cbn [approvals with_approval with_ov_state]. rewrite length_app, R3, R4, Hlen.
    split_and!; try done. exists e2. by rewrite Hat. }
  rewrite <-app_assoc. cbn [app].
  eapply core_touch; try done; [constructor; [done|by constructor]| |by apply map_set_wf].
  intros Hci. fold es in Hci |- *. change [e1; e2] with ([e1] ++ [e2]). rewrite app_assoc.
  destruct A1 as (r & Hr & _).
  assert (Hci1 : case_inv (es ++ [e1]) c).
  { destruct (reset_events_snoc es e1) as (Q1 & _). rewrite Hty1 in Q1. cbn in Q1. rewrite app_nil_r in Q1.
    eapply case_inv_snoc; [exact Hci|done|done|by rewrite Hty1| |].
    - rewrite Q1. apply Hci.
    - by rewrite Hr. }
  eapply case_inv_snoc; [exact Hci1|done|done|by rewrite Hty2| |].
  - intros _. cbn. set_solver.
  - by rewrite R1, Hr.
Qed.

Lemma effect_core tenant at_ s s' :
  effect tenant at_ s s' -> no_colon tenant ->
  core_inv (cases s) (overrides s) (events s) -> core_inv (cases s') (overrides s') (events s').
Proof.
  intros He Hnc Hinv.
  destruct He as [s c a r u1 u2|s id c to a r reason u1 u2|s id c u1|s id c o r u1 u2
                 |s oid o c u1|s oid o c a reason u1|s oid o c a reason u1 u2 u3];
    try destruct Hc as [Hc Hterm].
  - subst tenant. destruct Hid. by apply core_open.
  - destruct (workflow_move_facts _ _ _ Hmove) as (Hst & Hp & Hn).
    eapply core_plain; try done. intros Hr. destruct Hn.
    destruct (co_case _ _ _ Hinv _ _ Hc) as (_ & _ & Hci). by apply Hci.
  - apply (core_plain _ _ _ _ _ _ "expired"); try done. intros _. set_solver.
  - destruct Ho as (Ht & Hi & Hp & Hat & Happ & Hex & Hrs). subst at_. by eapply core_request.
  - by eapply core_lapse.
  - destruct Ha as [Ha Hat]. eapply core_approve; try done.
  - destruct Ha as [Ha Hat]. cbn. rewrite map_set_set. by eapply core_execute.
Qed.

(** ** The chain of events *)

Lemma verify_events_snoc i h log e :
  verify_events i h log = true ->
  oe_sequence e = i + Z.of_nat (length log) + 1 ->
  oe_previousHash e = match last log with Some x => oe_hash x | None => h end ->
  hash (event_body e) = oe_hash e ->
  verify_events i h (log ++ [e]) = true.
Proof.
  revert i h. induction log as [|x log IH]; intros i h Hv Hs Hp Hh; cbn [app verify_events length] in Hv, Hs |- *.
  - unfold jeqb. rewrite Hp, Hh, !bool_decide_true by done. rewrite !andb_true_r.
    apply Z.eqb_eq. lia.
  - rewrite !andb_true_iff in Hv |- *. destruct Hv as [Hx Hv]. split; [exact Hx|].
    apply IH; [done|lia| |done]. rewrite Hp, last_cons. by destruct (last log).
Qed.

Definition log_ok (log : list OperationsAuditEvent) : Prop := verify_events 0 "GENESIS" log = true.

Lemma log_ok_snoc c ty a r reason at_ u log :
  log_ok log -> log_ok (log ++ [event_at c ty a r reason at_ u log]).
Proof. intros Hl. apply verify_events_snoc; [done|cbn; lia|done|done]. Qed.

(** ** The invariant of the machine *)

Definition intent_ok (cs : list (jstr * OperationsCase)) (n : NotificationOutboxIntent) : Prop :=
  ni_topic n = NOTIFICATION_TOPIC /\ SYNTHETIC_REF (syntheticRecipientRef n) = true /\
  map_has (case_key (ni_tenantId n) (ni_caseId n)) cs = true.

Definition entry_ok (p : jstr * Idempotency) : Prop :=
  (exists t k, ID t = true /\ ID k = true /\ p.1 = idempotency_key t k) /\
  hex_of_length 64 (im_requestHash p.2) = true /\ short_outcome (im_outcome p.2).

Record ops_inv (s : CustomerOperationsStateMachine) : Prop := {
  op_core : core_inv (cases s) (overrides s) (events s);
  op_log : log_ok (events s);
  op_intents : Forall (intent_ok (cases s)) (intents s);
  op_idempotency : map_wf (idempotency s) /\ Forall entry_ok (idempotency s);
}.

Lemma map_has_set {V} k k' (v : V) (m : list (jstr * V)) :
  map_has k m = true -> map_has k (map_set k' v m) = true.
Proof. unfold map_has. rewrite map_get_set. by case_bool_decide. Qed.

Lemma intents_set k c cs l : Forall (intent_ok cs) l -> Forall (intent_ok (map_set k c cs)) l.
Proof.
  intros Hl. eapply Forall_impl; [exact Hl|]. intros n (H1 & H2 & H3).
  split_and!; [done..|by apply map_has_set].
Qed.

Lemma intents_log cs c template at_ u l k :
  Forall (intent_ok cs) l -> map_get k cs = Some c ->
  k = case_key (oc_tenantId c) (oc_caseId c) -> SYNTHETIC_REF (subjectRef c) = true ->
  Forall (intent_ok cs) (l ++ [intent_at c template at_ u]).
Proof.
  intros Hl Hc -> Hs. apply Forall_app. split; [done|]. constructor; [|done].
  split_and!; [done|done|]. unfold map_has. cbn [ni_tenantId ni_caseId intent_at]. by rewrite Hc.
Qed.

Lemma effect_inv tenant at_ s s' :
  effect tenant at_ s s' -> no_colon tenant -> ops_inv s -> ops_inv s'.
Proof.
  intros He Hnc [Hcore Hlog Hint Him].
  pose proof (effect_core _ _ _ _ He Hnc Hcore) as Hcore'.
  rewrite <-(effect_idempotency _ _ _ _ He) in Him. split; try done.
  - destruct He; cbn; by repeat apply log_ok_snoc.
  - clear Him. assert (Hcs : forall k c, map_get k (cases s') = Some c ->
      k = case_key (oc_tenantId c) (oc_caseId c) /\ SYNTHETIC_REF (subjectRef c) = true).
    { intros k c Hc. destruct (co_case _ _ _ Hcore' _ _ Hc) as (Hk & _ & Hi).
      split; [done|]. apply Hi. }
    destruct He; cbn in *; try done; try (by apply intents_set);
      (eapply intents_log; [by apply intents_set|by apply map_get_set_eq| |];
       eapply Hcs, map_get_set_eq).
Qed.

(** ** Disciplined calls *)

Inductive ops_step : CustomerOperationsStateMachine -> CustomerOperationsStateMachine -> Prop :=
| ops_call o s : timely o -> no_colon (ops_tenant o) -> ops_step s (run_ops o s).

Lemma inv_reasons s : ops_inv s -> reasons_ok s.
Proof. intros Hi k o Ho. by destruct (co_override _ _ _ (op_core _ Hi) _ _ Ho) as (_ & _ & _ & []). Qed.

Lemma ops_inv_step s s' : ops_step s s' -> ops_inv s -> ops_inv s'.
Proof.
  intros [o s0 Ht Hnc] Hi. destruct (call_spec o s0 (inv_reasons _ Hi) Ht) as (t & _ & s1 & H1 & H2).
  assert (Hi1 : ops_inv s1) by (destruct H1 as [->|H1]; [done|by eapply effect_inv]).
  destruct H2 as [->|(key & request & outcome & Hk1 & Hk2 & Hshort & Hnone & ->)]; [done|].
  destruct Hi1 as [H3 H4 H5 [H6 H7]]. split; try done. split; [by apply map_set_wf|].
  cbn. rewrite map_set_fresh by done. apply Forall_app. split; [done|]. constructor; [|done].
  split; [exists (ops_tenant o), key; by split_and!|]. split; [|done]. apply sha256Hex_pattern.
Qed.

Lemma ops_inv_run s s' : rtc ops_step s s' -> ops_inv s -> ops_inv s'.
Proof. induction 1; eauto using ops_inv_step. Qed.

Definition new_machine : CustomerOperationsStateMachine :=
  {| cases := []; overrides := []; events := []; intents := []; idempotency := [] |}.

Lemma ops_inv_new : ops_inv new_machine.
Proof.
  split; [split|done| |split]; cbn; try done; try apply NoDup_nil_2; try constructor;
    match goal with He : _ ∈ [] |- _ => by apply elem_of_nil in He end.
Qed.

(** ** Snapshots restore *)

Lemma restore_map_ok {A} (key : A -> jstr) msg l m :
  NoDup (map key l) -> (forall x, x ∈ l -> map_get (key x) m = None) ->
  restore_map key msg l m = Ok (m ++ map (fun x => (key x, x)) l).
Proof.
  revert m. induction l as [|x l IH]; intros m Hnd Hm; cbn [restore_map map].
  { by rewrite app_nil_r. }
  apply NoDup_cons in Hnd as [Hx Hnd].
  rewrite (proj2 (map_has_false _ _)) by (apply Hm; constructor). cbn.
  rewrite map_set_fresh by (apply Hm; constructor). rewrite IH; [by rewrite <-app_assoc|done|].
  intros y Hy. destruct (map_get (key y) (m ++ [(key x, x)])) eqn:E; [|done].
  apply map_get_in in E. apply elem_of_app in E as [E|E%list_elem_of_singleton].
  - assert (Hn : key y ∉ m.*1) by (apply map_get_None, Hm; by constructor). destruct Hn. by apply (list_elem_of_fmap_2 fst) in E.
  - injection E as E _. destruct Hx. rewrite <-E. by apply (list_elem_of_fmap_2 key).
Qed.

Lemma keyed_map {V} (key : V -> jstr) (m : list (jstr * V)) :
  map_wf m -> (forall k v, map_get k m = Some v -> k = key v) -> m = map (fun v => (key v, v)) (m.*2).
Proof.
  intros Hwf Hk. assert (Hall : Forall (fun p => p.1 = key p.2) m).
  { apply Forall_forall. intros [k v] Hin. apply Hk. by apply map_in_get. }
  clear Hwf Hk. induction Hall as [|[k v] m E Hall IH]; [done|]. cbn in *. by rewrite E, <-IH.
Qed.

Lemma keyed_nodup {V} (key : V -> jstr) (m : list (jstr * V)) :
  map_wf m -> m = map (fun v => (key v, v)) (m.*2) -> NoDup (map key (m.*2)).
Proof.
  unfold map_wf. intros Hwf E. rewrite E in Hwf. rewrite <-list_fmap_compose in Hwf.
  erewrite map_ext; [exact Hwf|done].
Qed.

Lemma all_distinct_ok {A} (key : A -> jstr) valid l seen :
  NoDup (map key l) -> (forall x, x ∈ l -> valid x = true /\ key x ∉ seen) ->
  all_distinct key valid l seen = true.
Proof.
  revert seen. induction l as [|x l IH]; intros seen Hnd Hl; [done|]. cbn.
  apply NoDup_cons in Hnd as [Hx Hnd]. destruct (Hl x) as [Hv Hs]; [constructor|].
  rewrite Hv. unfold includes. rewrite bool_decide_false by done. cbn. apply IH; [done|].
  intros y Hy. destruct (Hl y) as [Hvy Hsy]; [by constructor|]. split; [done|].
  intros [E|?]%elem_of_cons; [|done]. destruct Hx. rewrite <-E. by apply (list_elem_of_fmap_2 key).
Qed.

Lemma valid_case_ok log c :
  case_inv (events_of (oc_tenantId c) (oc_caseId c) log) c -> valid_case log c = true.
Proof.
  intros [(H1 & H2 & H3 & H4) (x & Hx & Hr) Hcorr Hst _ _]. unfold valid_case.
  rewrite H1, H2, H3, (includes_in _ _ H4), Hx, (jeqb_of_eq _ _ Hr), (jeqb_of_eq _ _ Hst).
  cbn. rewrite andb_true_r. apply negb_true_iff, existsb_false_Forall.
  eapply Forall_impl; [exact Hcorr|]. intros e He. by rewrite (jeqb_of_eq _ _ He).
Qed.

(** What the three phases of an override say of its flags. *)
Lemma phase_flags es o :
  override_phase es o ->
  (length (approvals o) <=? 2)%nat = true /\
  Bool.eqb (ov_state o =s? "executed") (found (head (executed es))) = true /\
  Bool.eqb (ov_state o =s? "expired") (found (head (lapsed es))) = true /\
  Bool.eqb (found (executedAt o)) (found (head (executed es))) = true /\
  match head (executed es) with
  | Some x => bool_decide (executedAt o = Some (oe_occurredAt x)) | None => true end = true.
Proof.
  intros [(E & Hl & Hx & He & Hp)|[(E & Hl & Hx & He & Hp)|(E & Hl & (x & He & Hx) & Hp)]];
    rewrite E, He, Hx; try rewrite Hp; (split; [apply Nat.leb_le; lia|]); cbn; try by split_and!.
  - by destruct (lapsed es).
  - split_and!; try done. by apply bool_decide_true.
Qed.

Lemma approvals_in_log l es :
  Forall2 approval_logged l es ->
  forallb (fun a => existsb (fun e => (oe_actorId e =s? apr_actorId a)
       && (oe_actorRole e =s? apr_role a) && (oe_occurredAt e =s? apr_approvedAt a)) es) l = true.
Proof.
  intros Hl. apply forallb_Forall. apply Forall_forall. intros a Ha.
  apply list_elem_of_lookup in Ha as [i Ha]. destruct (Forall2_lookup_l _ _ _ _ _ Hl Ha) as (e & He & H1 & H2 & H3).
  apply existsb_exists. exists e. split; [by apply list_elem_of_In, list_elem_of_lookup; exists i|].
  by rewrite !jeqb_of_eq.
Qed.

Lemma valid_override_ok cs log o c :
  map_get (case_key (ov_tenantId o) (ov_caseId o)) cs = Some c ->
  override_inv (events_of (ov_tenantId o) (ov_caseId o) log) o -> valid_override cs log o = true.
Proof.
  intros Hc [(r & Hr & R1 & R2 & R3) Happ Hd Hro _ Hph]. unfold valid_override.
  set (es := events_of _ _ log) in *.
  change (List.filter (of_type "trust_reset.requested") es) with (requests es).
  change (List.filter (of_type "trust_reset.approved") es) with (approved es).
  rewrite !find_head_filter.
  change (List.filter (of_type "trust_reset.executed") es) with (executed es).
  change (List.filter (of_type "trust_reset.expired") es) with (lapsed es).
  destruct (phase_flags _ _ Hph) as (P1 & P2 & P3 & P4 & P5).
  rewrite Hr, P1, P2, P3, P4, P5, (approvals_in_log _ _ Happ), !jeqb_of_eq by done.
  unfold map_has. rewrite Hc, bool_decide_true by done.
  rewrite <-(Forall2_length _ _ _ Happ), Nat.eqb_refl. cbn. rewrite !andb_true_r.
  apply forallb_Forall. eapply Forall_impl; [exact Hro|]. intros a. apply includes_in.
Qed.

Lemma validate_ok s : ops_inv s -> validateRestoredState s = true.
Proof.
  intros [Hcore _ Hint _]. unfold validateRestoredState. rewrite !andb_true_iff.
  assert (Hck : cases s = map (fun c => (case_key (oc_tenantId c) (oc_caseId c), c)) ((cases s).*2)).
  { apply keyed_map; [apply Hcore|]. intros k c Hc. by apply (co_case _ _ _ Hcore). }
  split; [split|].
  - apply all_distinct_ok; [by apply keyed_nodup; [apply Hcore|]|].
    intros c Hc. split; [|apply not_elem_of_nil]. apply list_elem_of_fmap in Hc as ([k c'] & -> & Hin).
    apply map_in_get in Hin; [|apply Hcore].
    destruct (co_case _ _ _ Hcore _ _ Hin) as (_ & _ & Hi). by apply valid_case_ok.
  - apply all_distinct_ok.
    + assert (Hu : forall p1 p2, p1 ∈ overrides s -> p2 ∈ overrides s ->
        case_key (ov_tenantId p1.2) (ov_caseId p1.2) = case_key (ov_tenantId p2.2) (ov_caseId p2.2) ->
        p1.1 = p2.1).
      { intros [k1 o1] [k2 o2] G1 G2 E. apply map_in_get in G1, G2; try apply Hcore.
        by apply (co_unique _ _ _ Hcore _ _ _ _ G1 G2). }
      pose proof (co_overrides _ _ _ Hcore) as Hwf. revert Hu Hwf. unfold map_wf. clear.
      induction (overrides s) as [|p l IH]; intros Hu Hwf; [constructor|].
      cbn in *. apply NoDup_cons in Hwf as [Hp Hwf]. apply NoDup_cons. split.
      * intros Hin. rewrite <-list_fmap_compose in Hin. apply list_elem_of_fmap in Hin as (q & E & Hq).
        destruct Hp. rewrite (Hu p q); [by apply (list_elem_of_fmap_2 fst)|constructor|by constructor|done].
      * apply IH; [|done]. intros q1 q2 G1 G2. apply Hu; by constructor.
    + intros o Ho. split; [|apply not_elem_of_nil]. apply list_elem_of_fmap in Ho as ([k o'] & -> & Hin).
      apply map_in_get in Hin; [|apply Hcore].
      destruct (co_override _ _ _ Hcore _ _ Hin) as (_ & _ & [c Hc] & Hi). by eapply valid_override_ok.
  - apply forallb_Forall. eapply Forall_impl; [exact Hint|]. intros n (H1 & H2 & H3).
    by rewrite (jeqb_of_eq _ _ H1), H2, H3.
Qed.

(** *** Idempotency records *)

Lemma id_no_nul s : ID s = true -> Forall (fun c => (c =? 0)%N = false) s.
Proof.
  intros Hs%id_pattern_chars. eapply Forall_impl; [exact Hs|]. intros c Hc.
  apply N.eqb_neq. intros ->. by vm_compute in Hc.
Qed.

Lemma take_until_nul_app t k :
  Forall (fun c => (c =? 0)%N = false) t -> take_until_nul (t ++ 0%N :: k) = t.
Proof. induction 1 as [|c t Hc Ht IH]; [done|]. cbn. by rewrite Hc, IH. Qed.

Definition entry_of (p : jstr * Idempotency) : IdempotencyEntry :=
  let '(composite, value) := p in
  let scope := take_until_nul composite in
  {| ie_scope := scope; ie_key := drop (S (length scope)) composite;
     ie_requestHash := im_requestHash value;
     ie_response := match im_outcome value with Ok r => Some r | Throw _ => None end;
     ie_error := match im_outcome value with Ok _ => None | Throw m => Some m end |}.

Lemma restore_entry_of p m :
  entry_ok p -> map_get p.1 m = None -> restore_entry (entry_of p) m = Ok (m ++ [p]).
Proof.
  destruct p as [k [h out]]. intros ((t & key & Ht & Hk & Ek) & Hh & Hs) Hm. cbn in Ek, Hm, Hh, Hs.
  assert (Hscope : take_until_nul k = t)
    by (rewrite Ek; apply take_until_nul_app, id_no_nul, Ht).
  assert (Hdrop : drop (S (length t)) k = key).
  { rewrite Ek. unfold idempotency_key. rewrite (app_assoc t [0%N] key).
    apply drop_app_length'. rewrite length_app. cbn. lia. }
  unfold entry_of. rewrite Hscope, Hdrop.
  unfold restore_entry. cbn [ie_scope ie_key ie_requestHash ie_error ie_response im_requestHash im_outcome].
  rewrite <-Ek, (proj2 (map_has_false _ _)), Ht, Hk, Hh by done. cbn [negb orb throw_if].
  cbv [mbind result_bind]. destruct out as [r|msg].
  - by rewrite map_set_fresh.
  - destruct Hs as [Hs1 Hs2]. rewrite (proj2 (Nat.eqb_neq _ _)), (proj2 (Nat.ltb_ge _ _)) by lia.
    cbn. by rewrite map_set_fresh.
Qed.

Lemma restore_entries_ok l m :
  Forall entry_ok l -> map_wf (m ++ l) -> restore_entries (map entry_of l) m = Ok (m ++ l).
Proof.
  intros Hl. revert m. induction Hl as [|p l Hp Hl IH]; intros m Hwf; cbn [map restore_entries].
  { by rewrite app_nil_r. }
  rewrite restore_entry_of; [|done|].
  - cbv [mbind result_bind]. change (p :: l) with ([p] ++ l) in *. rewrite app_assoc in *. by apply IH.
  - apply map_get_None. intros Hin. revert Hwf. unfold map_wf. rewrite fmap_app. cbn.
    intros (_ & Hd & _)%NoDup_app. destruct (Hd _ Hin). constructor.
Qed.

Lemma snapshot_restore_inv s : ops_inv s -> restore (snapshot s) = Ok s.
Proof.
  intros Hi. pose proof Hi as [Hcore Hlog _ [Hwf Him]]. unfold restore, snapshot.
  cbn [cs_schemaVersion cs_cases cs_overrides cs_auditEvents cs_notificationIntents cs_idempotency].
  assert (Hck : cases s = map (fun c => (case_key (oc_tenantId c) (oc_caseId c), c)) ((cases s).*2)).
  { apply keyed_map; [apply Hcore|]. intros k c Hc. by apply (co_case _ _ _ Hcore). }
  assert (Hok : overrides s = map (fun o => (case_key (ov_tenantId o) (ov_overrideId o), o)) ((overrides s).*2)).
  { apply keyed_map; [apply Hcore|]. intros k c Hc. by apply (co_override _ _ _ Hcore). }
  rewrite restore_map_ok; [|by apply keyed_nodup; [apply Hcore|]|done].
  rewrite restore_map_ok; [|by apply keyed_nodup; [apply Hcore|]|done].
  change (map _ (idempotency s)) with (map entry_of (idempotency s)).
  rewrite restore_entries_ok by done. cbn [app throw_if Z.eqb Pos.eqb negb]. cbv [mbind result_bind].
  rewrite <-Hck, <-Hok. destruct s as [cs os es ns im].
  cbn [cases overrides events intents idempotency] in *.
  rewrite (validate_ok _ Hi). unfold verifyAudit. cbn [events]. rewrite Hlog. done.
Qed.

(** C32: a machine reached from an empty one by calls of tenants whose identifiers
    have no colon, with valid clocks, survives a snapshot: restoring it checks
    its audit chain, its cases, overrides, outbox and idempotency records, and
    gives the same machine back. *)
Theorem operations_snapshot_restores (s : CustomerOperationsStateMachine)
    (Hs : rtc ops_step new_machine s) :
  restore (snapshot s) = Ok s.
Proof. by apply snapshot_restore_inv, (ops_inv_run _ _ Hs), ops_inv_new. Qed.


(** ** The history of a case *)

(** One state change: along the table, by execution of a pending reset, or by
    expiry; never out of a terminal state. *)
Definition case_step (ct from to : jstr) : Prop :=
  (from ∉ TERMINAL_STATES) /\
  (to = js "expired" \/ (from = js "trust_reset_pending" /\ to = js "resolved") \/
   exists allowed, allowed_from ct from = Ok allowed /\ to ∈ allowed).

Definition later_case (c c' : OperationsCase) : Prop :=
  same_case c c' /\ subjectDeviceId c' = subjectDeviceId c /\ oc_expiresAt c' = oc_expiresAt c /\
  rtc (case_step (oc_caseType c)) (oc_state c) (oc_state c') /\
  (oc_state c ∈ TERMINAL_STATES -> c' = c).

Lemma later_refl c : later_case c c.
Proof. repeat split; constructor. Qed.

Lemma later_trans c1 c2 c3 : later_case c1 c2 -> later_case c2 c3 -> later_case c1 c3.
Proof.
  intros ((A1 & A2 & A3 & A4 & A5 & A6) & A7 & A8 & A9 & A10)
         ((B1 & B2 & B3 & B4 & B5 & B6) & B7 & B8 & B9 & B10).
  split; [repeat split; congruence|]. split; [congruence|]. split; [congruence|].
  split; [rewrite A3 in B9; by etrans|].
  intros Ht. rewrite (A10 Ht) in *. by apply B10.
Qed.

Lemma later_with_state c st at_ :
  case_step (oc_caseType c) (oc_state c) st -> later_case c (with_state st at_ c).
Proof.
  intros Hs. repeat split; [by apply rtc_once|]. intros Ht. by destruct Hs.
Qed.

Lemma eligible_step c :
  reset_eligible c = true -> oc_state c ∉ TERMINAL_STATES ->
  case_step (oc_caseType c) (oc_state c) "trust_reset_pending".
Proof.
  intros He Ht. split; [done|]. right. right. revert He. unfold reset_eligible, jeqb, includes.
  rewrite !orb_true_iff, !andb_true_iff, !bool_decide_eq_true.
  intros [[-> ->]|[Hin ->]]; [by eexists; split; [done|set_solver]|].
  apply elem_of_cons in Hin as [->|Hin%list_elem_of_singleton];
    [|rewrite Hin]; (eexists; split; [done|set_solver]).
Qed.

Lemma later_put s tenant id c c' :
  map_get (case_key tenant id) (cases s) = Some c -> later_case c c' ->
  forall k x, map_get k (cases s) = Some x ->
    exists y, map_get k (map_set (case_key tenant id) c' (cases s)) = Some y /\ later_case x y.
Proof.
  intros Hc Hl k x Hx. rewrite map_get_set. case_bool_decide as E.
  - exists c'. split; [done|]. subst k. by assert (x = c) as -> by congruence.
  - exists x. split; [done|apply later_refl].
Qed.

Lemma effect_history tenant at_ s s' :
  effect tenant at_ s s' -> no_colon tenant -> ops_inv s ->
  forall k x, map_get k (cases s) = Some x ->
    exists y, map_get k (cases s') = Some y /\ later_case x y.
Proof.
  intros He Hnc Hi.
  destruct He as [s c a r u1 u2|s id c to a r reason u1 u2|s id c u1|s id c o r u1 u2
                 |s oid o c u1|s oid o c a reason u1|s oid o c a reason u1 u2 u3];
    cbn [cases log_intent log_event put_case put_override set_cases set_overrides set_events set_intents];
    try (intros k x Hx; exists x; split; [done|apply later_refl]);
    try destruct Hc as [Hc Hterm].
  - intros k x Hx. exists x. split; [|apply later_refl]. rewrite map_get_set.
    case_bool_decide; [congruence|done].
  - apply (later_put _ _ _ c); [done|]. apply later_with_state. split; [done|].
    right. right. apply Hmove.
  - apply (later_put _ _ _ c); [done|]. apply later_with_state. split; [done|by left].
  - apply (later_put _ _ _ c); [done|]. by apply later_with_state, eligible_step.
  - apply (later_put _ _ _ c); [done|]. apply later_with_state. split; [done|]. right. left.
    split; [|done].
    destruct (co_override _ _ _ (op_core _ Hi) _ _ Ho) as (Hk & Hno & _ & Hio).
    apply case_key_inj in Hk as [-> _]; [|done..].
    destruct (co_case _ _ _ (op_core _ Hi) _ _ Hc) as (Hkc & Hnt & Hci).
    apply case_key_inj in Hkc as [E1 E2]; [|done..]. rewrite <-E1, <-E2 in Hci.
    destruct (oi_request _ _ Hio) as (q & Hq & _).
    assert (Hin : oc_state c ∈ AFTER_REQUEST) by (apply Hci; by rewrite Hq).
    unfold AFTER_REQUEST in Hin. apply elem_of_cons in Hin as [E|Hin]; [done|].
    destruct Hterm. unfold TERMINAL_STATES. set_solver.
Qed.

Lemma step_history s s' :
  ops_step s s' -> ops_inv s -> forall k x, map_get k (cases s) = Some x ->
    exists y, map_get k (cases s') = Some y /\ later_case x y.
Proof.
  intros [o s0 Ht Hnc] Hi k x Hx.
  destruct (call_spec o s0 (inv_reasons _ Hi) Ht) as (t & _ & s1 & H1 & H2).
  assert (Hs1 : exists y, map_get k (cases s1) = Some y /\ later_case x y).
  { destruct H1 as [->|H1]; [|by eapply effect_history]. exists x. split; [done|apply later_refl]. }
  by destruct H2 as [->|(key & request & outcome & _ & _ & _ & _ & ->)].
Qed.

(** whatever calls follow, a recorded case keeps its tenant, type, subject,
    reason, correlation and deadline; its state only moves along the workflow
    table, by an executed trust reset or by expiry, and a terminal case never
    changes at all. *)
Theorem case_history (s s' : CustomerOperationsStateMachine) (key : jstr) (c : OperationsCase)
    (Hs : rtc ops_step new_machine s) (Hc : map_get key (cases s) = Some c)
    (Hs' : rtc ops_step s s') :
  exists c', map_get key (cases s') = Some c' /\ later_case c c'.
Proof.
  pose proof (ops_inv_run _ _ Hs ops_inv_new) as Hi. clear Hs. revert c Hc Hi.
  induction Hs' as [s|s s1 s2 H1 _ IH]; intros c Hc Hi.
  - exists c. split; [done|apply later_refl].
  - destruct (step_history _ _ H1 Hi _ _ Hc) as (c1 & Hc1 & Hl1).
    destruct (IH _ Hc1 (ops_inv_step _ _ H1 Hi)) as (c2 & Hc2 & Hl2).
    exists c2. split; [done|]. by eapply later_trans.
Qed.

(** ** Tenants *)

Lemma put_other_case s tenant id c' :
  no_colon tenant -> ops_inv s -> forall k x, map_get k (cases s) = Some x -> oc_tenantId x <> tenant ->
    map_get k (map_set (case_key tenant id) c' (cases s)) = Some x.
Proof.
  intros Hnc Hi k x Hx Hne. rewrite map_get_set_ne; [done|]. intros ->.
  destruct (co_case _ _ _ (op_core _ Hi) _ _ Hx) as (Hk & Hno & _).
  apply case_key_inj in Hk as [E _]; [|done..]. done.
Qed.

Lemma put_other_override s tenant id o' :
  no_colon tenant -> ops_inv s -> forall k x, map_get k (overrides s) = Some x -> ov_tenantId x <> tenant ->
    map_get k (map_set (case_key tenant id) o' (overrides s)) = Some x.
Proof.
  intros Hnc Hi k x Hx Hne. rewrite map_get_set_ne; [done|]. intros ->.
  destruct (co_override _ _ _ (op_core _ Hi) _ _ Hx) as (Hk & Hno & _).
  apply case_key_inj in Hk as [E _]; [|done..]. done.
Qed.

Lemma effect_isolated tenant at_ s s' :
  effect tenant at_ s s' -> no_colon tenant -> ops_inv s ->
  (forall k x, map_get k (cases s) = Some x -> oc_tenantId x <> tenant -> map_get k (cases s') = Some x) /\
  (forall k x, map_get k (overrides s) = Some x -> ov_tenantId x <> tenant -> map_get k (overrides s') = Some x) /\
  exists evs, events s' = events s ++ evs /\ Forall (fun e => oe_tenantId e = tenant) evs.
Proof.
  intros He Hnc Hi.
  assert (Htenant : forall id c, open_case s tenant id c -> oc_tenantId c = tenant).
  { intros id c [Hc _]. destruct (co_case _ _ _ (op_core _ Hi) _ _ Hc) as (Hk & Hno & _).
    by apply case_key_inj in Hk as [E _]. }
  destruct He as [s c a r u1 u2|s id c to a r reason u1 u2|s id c u1|s id c o r u1 u2
                 |s oid o c u1|s oid o c a reason u1|s oid o c a reason u1 u2 u3];
    (split; [|split]);
    cbn [cases overrides events log_intent log_event put_case put_override set_cases set_overrides
         set_events set_intents]; rewrite ?map_set_set;
    try done; try (by apply put_other_case); try (by apply put_other_override);
    try (eexists; split; [done|]; repeat constructor; first [exact (Htenant _ _ Hc)|done]).
  eexists. rewrite <-app_assoc. split; [done|]. repeat constructor; exact (Htenant _ _ Hc).
Qed.

(** a call of one tenant leaves the cases and overrides of every other
    tenant alone and logs events of its own tenant only, as long as tenant
    identifiers have no colon. *)
Theorem tenant_isolation (s : CustomerOperationsStateMachine) (o : ops_op)
    (Hs : rtc ops_step new_machine s) (Ht : timely o) (Hnc : no_colon (ops_tenant o)) :
  (forall k c, map_get k (cases s) = Some c -> oc_tenantId c <> ops_tenant o ->
     map_get k (cases (run_ops o s)) = Some c) /\
  (forall k x, map_get k (overrides s) = Some x -> ov_tenantId x <> ops_tenant o ->
     map_get k (overrides (run_ops o s)) = Some x) /\
  exists evs, events (run_ops o s) = events s ++ evs /\
    Forall (fun e => oe_tenantId e = ops_tenant o) evs.
Proof.
  pose proof (ops_inv_run _ _ Hs ops_inv_new) as Hi.
  destruct (call_spec o s (inv_reasons _ Hi) Ht) as (t & _ & s1 & H1 & H2).
  assert (Hiso : forall s2, cases s2 = cases s1 -> overrides s2 = overrides s1 -> events s2 = events s1 ->
    (forall k c, map_get k (cases s) = Some c -> oc_tenantId c <> ops_tenant o -> map_get k (cases s2) = Some c) /\
    (forall k x, map_get k (overrides s) = Some x -> ov_tenantId x <> ops_tenant o -> map_get k (overrides s2) = Some x) /\
    exists evs, events s2 = events s ++ evs /\ Forall (fun e => oe_tenantId e = ops_tenant o) evs).
  { intros s2 -> -> ->. destruct H1 as [->|H1]; [|by eapply effect_isolated].
    split; [done|]. split; [done|]. exists []. by rewrite app_nil_r. }
  destruct H2 as [->|(key & request & outcome & _ & _ & _ & _ & ->)]; by apply Hiso.
Qed.
End invariant.
