(* ===== verification/OperationsRuns.v ===== *)
(** OperationsRuns: retries of workflow calls, the workflow's theorems applied
    to a concrete run, and the runs where it admits more than its runbook says. *)
From stdpp Require Import relations.
From S2P Require Import Prelude JsString JsMap Host TestHost JsTime JsJson CustomerOperations OperationsSteps OperationsInv.
#[local] Open Scope string_scope.
#[local] Open Scope list_scope.
#[local] Open Scope Z_scope.
#[local] Open Scope js_scope.

(** ** Retries *)

Section retries.
Context `{HostLaws}.

(** A call with another environment: fresh identifiers, another clock. *)
Definition with_env (e : Env) (o : ops_op) : ops_op :=
  match o with
  | do_open i _ => do_open i e | do_transition i _ => do_transition i e
  | do_proof i _ => do_proof i e | do_reset i _ => do_reset i e | do_approve i _ => do_approve i e
  end.

Definition answer (o : ops_op) (s : CustomerOperationsStateMachine) : result Response :=
  match o with
  | do_open i e => (openCase i e s).1
  | do_transition i e => (transition i e s).1
  | do_proof i e => (verifyRecoveryProof i e s).1
  | do_reset i e => (requestTrustReset i e s).1
  | do_approve i e => (approveTrustReset i e s).1
  end.

(** The caller names the time of the call. *)
Definition explicit_clock (o : ops_op) : Prop :=
  match o with
  | do_open i _ => is_Some (op_now i) | do_transition i _ => is_Some (ti_now i)
  | do_proof i _ => is_Some (pr_now i) | do_reset i _ => is_Some (rs_now i)
  | do_approve i _ => is_Some (ap_now i)
  end.

Lemma once_replays tenant key request work work' s :
  once tenant key request work' (once tenant key request work s).2 =
  once tenant key request work s.
Proof.
  unfold once. cbv [mbind St_bind lift sget].
  destruct (assertId tenant _) eqn:E1; [|done].
  destruct (assertId key _) eqn:E2; [|done].
  destruct (map_get _ (idempotency s)) as [prior|] eqn:Ep.
  - destruct (throw_if _ _) eqn:E3; cbv [snd]; by rewrite Ep, E3.
  - destruct (work s) as [r s1]. cbv [snd]. cbn [idempotency set_idempotency].
    rewrite map_get_set_eq. cbn [im_requestHash im_outcome].
    unfold jeqb. by rewrite bool_decide_true.
Qed.

Lemma getCase_found tenant id c s :
  ID tenant = true -> ID id = true -> map_get (case_key tenant id) (cases s) = Some c ->
  getCase tenant id s = (Ok c, s).
Proof.
  intros Ht Hi Hc. unfold getCase, assertId. cbv [mbind St_bind lift sget].
  by rewrite Ht, Hi, Hc.
Qed.

Lemma at_replay {A B} (r : result A) (k k' : A -> St CustomerOperationsStateMachine B) s :
  (forall a, r = Ok a -> k' a (k a s).2 = k a s) ->
  (lift r ≫= k') ((lift r ≫= k) s).2 = (lift r ≫= k) s.
Proof. intros Hk. cbv [mbind St_bind lift]. destruct r; [by apply Hk|done]. Qed.

Lemma transition_replays i e e' s :
  is_Some (ti_now i) -> transition i e' (transition i e s).2 = transition i e s.
Proof.
  intros [t Ht]. unfold transition, or_now. rewrite Ht. cbn [default].
  apply at_replay. intros at_ _. apply once_replays.
Qed.

(** repeating a call under its idempotency key gives the same answer, error
    messages included, and changes nothing, whatever identifiers and clock the
    retry draws, provided the caller names the time. *)
Theorem retry_replays (s : CustomerOperationsStateMachine) (o : ops_op) (e : Env)
    (Hs : rtc ops_step new_machine s) (Ht : timely o) (Hnc : no_colon (ops_tenant o))
    (Hclock : explicit_clock o) :
  answer (with_env e o) (run_ops o s) = answer o s /\
  run_ops (with_env e o) (run_ops o s) = run_ops o s.
Proof.
  assert (Hsplit : forall (p q : result Response * CustomerOperationsStateMachine),
    p = q -> p.1 = q.1 /\ p.2 = q.2) by by intros p q ->.
  pose proof (ops_inv_run _ _ Hs ops_inv_new) as Hi.
  pose proof (step_history _ _ (ops_call o s Ht Hnc) Hi) as Hhist. clear Hs Hi Ht Hnc.
  destruct o as [i e0|i e0|i e0|i e0|i e0]; cbn [with_env answer run_ops explicit_clock] in *;
    apply Hsplit; destruct Hclock as [t Ht].
  - unfold openCase, or_now. rewrite Ht. cbn [default].
    apply at_replay. intros at_ _. apply once_replays.
  - apply transition_replays. by eexists.
  - revert Hhist. unfold verifyRecoveryProof. intros Hhist. apply at_replay. intros u Hu.
    revert Hhist. unfold verifyRecoveryProof. rewrite Hu. unfold getCase. cbv [mbind St_bind lift sget].
    destruct (assertId (pr_tenantId i) _); [|done]. destruct (assertId (pr_caseId i) _); [|done].
    destruct (map_get _ (cases s)) as [c|] eqn:Ec; [|cbv [snd]; intros _; by rewrite Ec].
    cbv [mret St_ret]. intros Hhist. destruct (Hhist _ _ Ec) as (c' & Hc' & ((_ & _ & Hty & _) & _)).
    destruct (throw_if (negb (oc_caseType c =s? _)) _) eqn:E4; cbv [snd] in *.
    + rewrite Hc', Hty, E4. apply transition_replays. by eexists.
    + by rewrite Ec, E4.
  - unfold requestTrustReset, or_now. rewrite Ht. cbn [default].
    apply at_replay. intros at_ _. apply once_replays.
  - unfold approveTrustReset, or_now. rewrite Ht. cbn [default].
    apply at_replay. intros at_ _. apply once_replays.
Qed.
End retries.

(** ** A run on concrete inputs *)

Section runs.
#[local] Existing Instance test_host.

Definition person (tenant id role : string) (device : option jstr) : OperationsActor :=
  {| ac_tenantId := tenant; ac_actorId := id; ac_role := role; ac_deviceId := device |}.

(** Identifiers [u0], [u1], ... and an invalid clock, unused when the caller
    names the time. *)
Definition draws (t : Date) : Env :=
  {| env_uuid := fun i => "u" +:+ decimal (N.of_nat i); env_challengeId := []; env_clock := fun _ => t |}.

Definition open_1 (now : option Date) : OpenCaseInput :=
  {| op_tenantId := "bank"; op_caseType := "device_loss"; op_subjectRef := "synthetic-user";
     op_subjectDeviceId := Some (js "phone"); op_reason := "lost phone"; op_correlationId := "corr";
     op_actor := person "bank" "ann" "customer" None; op_idempotencyKey := "k1";
     op_ttlMs := NInt 3600000; op_now := now; op_caseId := Some (js "case") |}.
Definition contain_1 : TransitionInput :=
  {| ti_tenantId := "bank"; ti_caseId := "case"; ti_nextState := "contained"; ti_reason := "contain it";
     ti_actor := person "bank" "bob" "security_operator" None; ti_idempotencyKey := "k2";
     ti_now := Some (Some (noon + 1)); ti_proofMethod := None |}.
Definition reset_1 : ResetInput :=
  {| rs_tenantId := "bank"; rs_caseId := "case"; rs_reason := "reset trust";
     rs_actor := person "bank" "bob" "security_operator" None; rs_idempotencyKey := "k3";
     rs_ttlMs := NInt 60000; rs_now := Some (Some (noon + 2)); rs_overrideId := Some (js "ov") |}.
Definition approve_by (who role key : string) : ApproveInput :=
  {| ap_tenantId := "bank"; ap_overrideId := "ov"; ap_reason := "seen it";
     ap_actor := person "bank" who role (Some (js "desk")); ap_idempotencyKey := key;
     ap_now := Some (Some (noon + 3)) |}.

Definition call_1 : ops_op := do_open (open_1 (Some (Some noon))) (draws None).
Definition call_2 : ops_op := do_transition contain_1 (draws None).
Definition call_3 : ops_op := do_reset reset_1 (draws None).
Definition call_4 : ops_op := do_approve (approve_by "dan" "recovery_officer" "k4") (draws None).
Definition call_5 : ops_op := do_approve (approve_by "eve" "supervisor" "k5") (draws None).

Definition opened_1 : CustomerOperationsStateMachine := run_ops call_1 new_machine.
Definition machine_1 : CustomerOperationsStateMachine :=
  run_ops call_5 (run_ops call_4 (run_ops call_3 (run_ops call_2 opened_1))).

Lemma bank_no_colon : no_colon "bank".
Proof.
  assert (E : bool_decide (58%N ∈ js "bank") = false) by by vm_compute.
  by apply bool_decide_eq_false in E.
Qed.

Lemma timely_noon o d : ops_now o = Some (noon + d) -> 0 <= d <= 10 -> timely o.
Proof.
  intros E Hd. exists (noon + d). split; [done|].
  assert (0 <= noon <= 2000000000000) by by vm_compute. unfold MAX_TIME, MAX_OVERRIDE_TTL_MS. lia.
Qed.

Lemma rtc_ops o d s0 s :
  ops_now o = Some (noon + d) -> 0 <= d <= 10 -> ops_tenant o = js "bank" ->
  rtc ops_step s0 s -> rtc ops_step s0 (run_ops o s).
Proof.
  intros Hn Hd Ht Hs. eapply rtc_r; [exact Hs|]. constructor; [by eapply timely_noon|].
  rewrite Ht. exact bank_no_colon.
Qed.

Lemma opened_run : rtc ops_step new_machine opened_1.
Proof. apply (rtc_ops call_1 0); [done|lia|done|apply rtc_refl]. Qed.

Lemma later_run : rtc ops_step opened_1 machine_1.
Proof.
  unfold machine_1. generalize opened_1. intros s.
  apply (rtc_ops call_5 3); [done|lia|done|]. apply (rtc_ops call_4 3); [done|lia|done|].
  apply (rtc_ops call_3 2); [done|lia|done|]. apply (rtc_ops call_2 1); [done|lia|done|].
  apply rtc_refl.
Qed.

Lemma machine_run : rtc ops_step new_machine machine_1.
Proof. etrans; [exact opened_run|exact later_run]. Qed.

Definition case_1 (s : CustomerOperationsStateMachine) : option OperationsCase :=
  map_get (case_key "bank" "case") (cases s).


(** ** The theorems at this run *)

Lemma operations_call_refines_witness :
  exists t, ops_now call_1 = Some t /\ spec_call "bank" (iso_string t) new_machine (run_ops call_1 new_machine).
Proof.
  apply (operations_call_refines call_1 new_machine).
  - by intros k o.
  - by apply (timely_noon _ 0).
Defined.

Lemma operations_snapshot_restores_witness : restore (snapshot machine_1) = Ok machine_1.
Proof. exact (operations_snapshot_restores (H0 := test_host_laws) machine_1 machine_run). Defined.



Lemma case_history_witness :
  exists c c', case_1 opened_1 = Some c /\ case_1 machine_1 = Some c' /\ later_case c c'.
Proof.
  destruct (case_1 opened_1) as [c|] eqn:E; [|by vm_compute in E].
  destruct (case_history (H0 := test_host_laws) opened_1 machine_1 (case_key "bank" "case") c
    opened_run E later_run) as (c' & Hc' & Hl).
  exists c, c'. split; [done|]. split; [exact Hc'|exact Hl].
Defined.

Lemma tenant_isolation_witness :
  exists evs, events opened_1 = [] ++ evs /\ Forall (fun e => oe_tenantId e = js "bank") evs.
Proof.
  destruct (tenant_isolation (H0 := test_host_laws) new_machine call_1) as (_ & _ & Hev);
    [apply rtc_refl|by apply (timely_noon _ 0)|exact bank_no_colon|exact Hev].
Defined.

Lemma retry_replays_witness :
  run_ops (with_env (draws (Some noon)) call_1) opened_1 = opened_1.
Proof.
  destruct (retry_replays (H0 := test_host_laws) new_machine call_1 (draws (Some noon))) as [_ Hr];
    [apply rtc_refl|by apply (timely_noon _ 0)|exact bank_no_colon|by eexists|exact Hr].
Defined.

(** ** Where the machine admits more, or less, than its runbook says *)

(** Tenant [a] names a case of tenant [a:b]. *)
Definition tenant_ab (caseId : string) : OpenCaseInput :=
  {| op_tenantId := "a:b"; op_caseType := "device_loss"; op_subjectRef := "synthetic-user";
     op_subjectDeviceId := None; op_reason := "lost phone"; op_correlationId := "corr";
     op_actor := person "a:b" "ann" "customer" None; op_idempotencyKey := "k1";
     op_ttlMs := NInt 3600000; op_now := Some (Some noon); op_caseId := Some (js caseId) |}.
Definition contain_across : TransitionInput :=
  {| ti_tenantId := "a"; ti_caseId := "b:case"; ti_nextState := "contained"; ti_reason := "contain it";
     ti_actor := person "a" "mallory" "supervisor" None; ti_idempotencyKey := "k2";
     ti_now := Some (Some noon); ti_proofMethod := None |}.
Definition reset_across : ResetInput :=
  {| rs_tenantId := "a"; rs_caseId := "b:case"; rs_reason := "reset trust";
     rs_actor := person "a" "mallory" "supervisor" None;
     rs_idempotencyKey := "k3"; rs_ttlMs := NInt 60000; rs_now := Some (Some noon);
     rs_overrideId := Some (js "ov") |}.
Definition machine_ab : CustomerOperationsStateMachine :=
  run_ops (do_transition contain_across (draws None))
    (run_ops (do_open (tenant_ab "case") (draws None)) new_machine).

(** Composite keys join tenant and case with a colon that identifiers may
    contain, so one tenant can read and move another tenant's case, and the
    machine it leaves after a reset request no longer restores. *)
Theorem tenants_share_cases :
  (oc_state <$> map_get (case_key "a:b" "case") (cases machine_ab)) = Some (js "contained") /\
  (exists c, getCase "a" "b:case" machine_ab = (Ok c, machine_ab) /\ oc_tenantId c = js "a:b") /\
  restore (snapshot (run_ops (do_reset reset_across (draws None)) machine_ab)) =
    Throw "customer operations snapshot verification failed".
Proof.
  split; [by vm_compute|]. split; [|by vm_compute].
  destruct (map_get (case_key "a" "b:case") (cases machine_ab)) as [c|] eqn:E; [|by vm_compute in E].
  exists c. split; [by apply getCase_found|].
  assert (Hc : oc_tenantId <$> map_get (case_key "a" "b:case") (cases machine_ab) = Some (js "a:b"))
    by by vm_compute.
  rewrite E in Hc. by injection Hc.
Qed.

(** Proof verification asked for through the generic transition. *)
Definition recovery_1 : OpenCaseInput :=
  {| op_tenantId := "bank"; op_caseType := "account_recovery"; op_subjectRef := "synthetic-user";
     op_subjectDeviceId := None; op_reason := "lost access"; op_correlationId := "corr";
     op_actor := person "bank" "ann" "customer" None; op_idempotencyKey := "k1";
     op_ttlMs := NInt 3600000; op_now := Some (Some noon); op_caseId := Some (js "case") |}.
Definition unproved : TransitionInput :=
  {| ti_tenantId := "bank"; ti_caseId := "case"; ti_nextState := "proof_verified"; ti_reason := "sms code ok";
     ti_actor := person "bank" "bob" "recovery_officer" None; ti_idempotencyKey := "k2";
     ti_now := Some (Some noon); ti_proofMethod := None |}.

(** An account recovery reaches [proof_verified] through the generic
    transition with no proof method named at all. *)
Theorem recovery_without_proof_method :
  oc_state <$> case_1 (run_ops (do_transition unproved (draws None))
    (run_ops (do_open recovery_1 (draws None)) new_machine)) = Some (js "proof_verified").
Proof. by vm_compute. Qed.

(** A retry that leaves the time to the machine is refused as a different
    request one millisecond later. *)
Theorem implicit_clock_retry_refused :
  is_ok (openCase (open_1 None) (draws (Some noon)) new_machine).1 = true /\
  (openCase (open_1 None) (draws (Some (noon + 1)))
     (openCase (open_1 None) (draws (Some noon)) new_machine).2).1 =
    Throw "operations idempotency key reused with different request".
Proof. by vm_compute. Qed.

(** Late in the range of dates a reset request throws after it has moved the
    case: nothing can move the case on, and the machine no longer restores. *)
Definition late_open : OpenCaseInput :=
  {| op_tenantId := "bank"; op_caseType := "device_loss"; op_subjectRef := "synthetic-user";
     op_subjectDeviceId := None; op_reason := "lost phone"; op_correlationId := "corr";
     op_actor := person "bank" "ann" "customer" None; op_idempotencyKey := "k1";
     op_ttlMs := NInt 60000; op_now := Some (Some (MAX_TIME - 60000)); op_caseId := Some (js "case") |}.
Definition late_contain : TransitionInput :=
  {| ti_tenantId := "bank"; ti_caseId := "case"; ti_nextState := "contained"; ti_reason := "contain it";
     ti_actor := person "bank" "bob" "security_operator" None; ti_idempotencyKey := "k2";
     ti_now := Some (Some (MAX_TIME - 60000)); ti_proofMethod := None |}.
Definition late_reset : ResetInput :=
  {| rs_tenantId := "bank"; rs_caseId := "case"; rs_reason := "reset trust";
     rs_actor := person "bank" "bob" "security_operator" None; rs_idempotencyKey := "k3";
     rs_ttlMs := NInt 60001; rs_now := Some (Some (MAX_TIME - 60000)); rs_overrideId := Some (js "ov") |}.

Example reset_past_range_strands_case :
  let s := run_ops (do_reset late_reset (draws None))
    (run_ops (do_transition late_contain (draws None)) (run_ops (do_open late_open (draws None)) new_machine)) in
  oc_state <$> case_1 s = Some (js "trust_reset_pending") /\ overrides s = [] /\
  restore (snapshot s) = Throw "customer operations snapshot verification failed".
Proof. by vm_compute. Qed.
End runs.
