(* ===== verification/PartnerContract.v ===== *)
(** PartnerContract: packages/partner-transport/contract.ts and signing.ts, the
    versioned webhook envelope, its signature over the raw body and the replay
    window on the receiving side. *)
From S2P Require Import Prelude JsString JsMap Host TestHost JsTime JsJson JsParse.
#[local] Open Scope string_scope.
#[local] Open Scope list_scope.
#[local] Open Scope Z_scope.
#[local] Open Scope js_scope.

(** ** The envelope *)

Definition PARTNER_WEBHOOK_VERSION : jstr := "airlock.partner-webhook.v1".

Definition PARTNER_EVENT_TYPES : list jstr :=
  [js "authorization.provisional"; js "authorization.confirmed";
   js "authorization.reversal_requested"; js "authorization.clearing_exception"].

Definition ENVELOPE_FIELDS : list jstr :=
  [js "schemaVersion"; js "eventId"; js "eventType"; js "occurredAt"; js "issuerId";
   js "processorId"; js "correlationId"; js "aggregateId"; js "payload"].

(** A hexadecimal digit in either case. *)
Definition is_hex_i (c : N) : bool := is_hex_char c || in_range 65 70 c.

(** [/^[0-9a-f]{8}-[0-9a-f]{4}-[1-8][0-9a-f]{3}-[89ab][0-9a-f]{3}-[0-9a-f]{12}$/i] *)
Definition UUID (s : jstr) : bool :=
  (length s =? 36)%nat &&
  forallb (fun '(i, c) =>
    if (i =? 8)%nat || (i =? 13)%nat || (i =? 18)%nat || (i =? 23)%nat then (c =? 45)%N
    else if (i =? 14)%nat then in_range 49 56 c
    else if (i =? 19)%nat then in_range 56 57 c || in_range 97 98 c || in_range 65 66 c
    else is_hex_i c)
    (zip (seq 0 36) s).

Definition keys_of (props : list (jstr * jsval)) : list jstr := props.*1.

(** [const s = value as string; typeof s === "string" && test(s)] *)
Definition text_such (test : jstr -> bool) (v : jsval) : bool :=
  match v with JStr s => test s | _ => false end.

Section contract.
Context `{Host}.

Definition assertExactObject (value : jsval) (required : list jstr) (label : jstr)
    : result (list (jstr * jsval)) :=
  match value with
  | JObj props =>
      throw_if (negb (length props =? length required)%nat
                || existsb (fun key => negb (includes (keys_of props) key)) required)
        ("invalid " +:+ label +:+ " fields") ≫= fun _ =>
      Ok props
  | _ => Throw ("invalid " +:+ label)
  end.

Definition assertIdentifier (value : jsval) (label : jstr) : result unit :=
  throw_if (negb (text_such id_pattern value)) ("invalid " +:+ label).

(** A time in the canonical format, denoting the instant it prints back to. *)
Definition canonical_time (s : jstr) : bool :=
  canonical_timestamp s &&
  match date_parse s with Some t => iso_string t =s? s | None => false end.

Definition assertCanonicalTime (value : jsval) (label : jstr) : result unit :=
  throw_if (negb (text_such canonical_time value)) ("invalid " +:+ label).

Definition PARTNER_CURRENCIES : list jstr := [js "USD"; js "EUR"; js "GBP"; js "CAD"; js "AUD"].
Definition REVERSAL_REASONS : list jstr :=
  [js "confirmation_timeout"; js "holder_declined"; js "risk_declined"].

Definition positive_safe (v : jsval) : bool :=
  match v with
  | JNum n => match safe_between n 1 MAX_SAFE_INTEGER with Some _ => true | None => false end
  | _ => false
  end.

Definition assertPayload (eventType : jstr) (payload : jsval) : result unit :=
  if eventType =s? "authorization.provisional" then
    assertExactObject payload
      [js "authorizationId"; js "tokenReference"; js "merchantId"; js "amountMinor";
       js "currency"; js "confirmationExpiresAt"] "provisional payload" ≫= fun p =>
    for_each [js "authorizationId"; js "tokenReference"; js "merchantId"] (fun key =>
      assertIdentifier (prop key p) ("provisional " +:+ key)) ≫= fun _ =>
    throw_if (negb (positive_safe (prop "amountMinor" p))) "invalid provisional amountMinor" ≫= fun _ =>
    throw_if (negb (text_such (includes PARTNER_CURRENCIES) (prop "currency" p)))
      "invalid provisional currency" ≫= fun _ =>
    assertCanonicalTime (prop "confirmationExpiresAt" p) "provisional confirmationExpiresAt"
  else if eventType =s? "authorization.confirmed" then
    assertExactObject payload [js "authorizationId"; js "confirmedAt"] "confirmation payload" ≫= fun p =>
    assertIdentifier (prop "authorizationId" p) "confirmation authorizationId" ≫= fun _ =>
    assertCanonicalTime (prop "confirmedAt" p) "confirmation confirmedAt"
  else if eventType =s? "authorization.reversal_requested" then
    assertExactObject payload [js "authorizationId"; js "reason"; js "requestedAt"]
      "reversal payload" ≫= fun p =>
    assertIdentifier (prop "authorizationId" p) "reversal authorizationId" ≫= fun _ =>
    throw_if (negb (text_such (includes REVERSAL_REASONS) (prop "reason" p)))
      "invalid reversal reason" ≫= fun _ =>
    assertCanonicalTime (prop "requestedAt" p) "reversal requestedAt"
  else
    assertExactObject payload [js "authorizationId"; js "clearingReference"; js "detectedAt"]
      "clearing exception payload" ≫= fun p =>
    assertIdentifier (prop "authorizationId" p) "exception authorizationId" ≫= fun _ =>
    assertIdentifier (prop "clearingReference" p) "exception clearingReference" ≫= fun _ =>
    assertCanonicalTime (prop "detectedAt" p) "exception detectedAt".

(** [value[key]] on an object, [undefined] on anything else. *)
Definition field_of (key : jstr) (v : jsval) : jsval :=
  match v with JObj props => prop key props | _ => JUndefined end.

(** Strict equality of two strings read from objects. *)
Definition same_text (a b : jsval) : bool :=
  match a, b with JStr s, JStr t => s =s? t | _, _ => false end.

Definition assertPartnerEnvelope (value : jsval) : result unit :=
  match value with
  | JObj props =>
      let get key := prop key props in
      throw_if (existsb (fun key => negb (includes ENVELOPE_FIELDS key)) (keys_of props))
        "partner envelope contains unknown fields" ≫= fun _ =>
      throw_if (negb (text_such (jeqb PARTNER_WEBHOOK_VERSION) (get "schemaVersion")))
        "unsupported partner envelope version" ≫= fun _ =>
      throw_if (negb (text_such UUID (get "eventId"))) "invalid partner event id" ≫= fun _ =>
      match get "eventType" with
      | JStr eventType =>
          throw_if (negb (includes PARTNER_EVENT_TYPES eventType)) "invalid partner event type" ≫= fun _ =>
          assertCanonicalTime (get "occurredAt") "partner event time" ≫= fun _ =>
          for_each [js "issuerId"; js "processorId"; js "correlationId"; js "aggregateId"] (fun key =>
            throw_if (negb (text_such id_pattern (get key))) ("invalid partner " +:+ key)) ≫= fun _ =>
          assertPayload eventType (get "payload") ≫= fun _ =>
          throw_if (negb (same_text (field_of "authorizationId" (get "payload")) (get "aggregateId")))
            "partner aggregate does not match authorization id"
      | _ => Throw "invalid partner event type"
      end
  | _ => Throw "partner envelope must be an object"
  end.

Definition encodePartnerEnvelope (envelope : jsval) : result (list N) :=
  assertPartnerEnvelope envelope ≫= fun _ =>
  Ok (utf8_encode (default [] (json_stringify envelope))).

(** ** Signing *)

Definition SIGNATURE_VERSION : jstr := "v1".
Definition DEFAULT_REPLAY_WINDOW_SECONDS : Z := 300.
Definition MAX_WEBHOOK_BYTES : nat := Z.to_nat 1048576.

Record PartnerSigningKey : Type := { sk_keyId : jstr; secret : list N }.

(** Header names and values, as [Object.entries] lists them. *)
Definition Headers : Type := list (jstr * jstr).

Definition assertToken (value label : jstr) : result unit :=
  throw_if (negb (id_pattern value)) ("invalid partner " +:+ label).

Definition assertKey (key : PartnerSigningKey) : result unit :=
  assertToken (sk_keyId key) "key id" ≫= fun _ =>
  throw_if (length (secret key) <? 32)%nat "partner HMAC key must contain at least 32 bytes".

Definition bodyDigest (body : list N) : jstr := sha256Hex body.

Definition canonicalRequest (timestamp nonce idempotencyKey : jstr) (body : list N) : jstr :=
  join [10%N] [SIGNATURE_VERSION; timestamp; nonce; idempotencyKey; bodyDigest body].

Definition request_signature (key : list N) (timestamp nonce idempotencyKey : jstr) (body : list N) : jstr :=
  SIGNATURE_VERSION +:+ "=" +:+
  hexEncode (hmacSha256 key (utf8_encode (canonicalRequest timestamp nonce idempotencyKey body))).

Definition too_large (body : list N) : bool := (MAX_WEBHOOK_BYTES <? length body)%nat.

Definition signPartnerWebhook (body : list N) (idempotencyKey nonce : jstr) (timestampEpochSeconds : jsnum)
    (key : PartnerSigningKey) : result Headers :=
  assertKey key ≫= fun _ =>
  assertToken idempotencyKey "idempotency key" ≫= fun _ =>
  assertToken nonce "nonce" ≫= fun _ =>
  match safe_between timestampEpochSeconds 0 MAX_SAFE_INTEGER with
  | Some t =>
      throw_if (too_large body) "invalid partner signed request" ≫= fun _ =>
      let timestamp := decimal_Z t in
      Ok [(js "content-type", js "application/json");
          (js "idempotency-key", idempotencyKey);
          (js "x-airlock-key-id", sk_keyId key);
          (js "x-airlock-nonce", nonce);
          (js "x-airlock-signature", request_signature (secret key) timestamp nonce idempotencyKey body);
          (js "x-airlock-timestamp", timestamp);
          (js "x-airlock-version", SIGNATURE_VERSION)]
  | None => Throw "invalid partner signed request"
  end.

(** ** The replay window *)

(** [interface ReplayStore] over a store of type [R]. *)
Class ReplayStore (R : Type) := {
  consumeOnce : jstr -> Z -> Z -> R -> bool * R;
}.

(** What the window relies on: a consumed key is refused until it expires,
    whatever else is consumed meanwhile. *)
Class ReplayStoreLaws (R : Type) `{ReplayStore R} := {
  held : jstr -> Z -> R -> Prop;
  unused : jstr -> R -> Prop;
  unused_accepts k e now s : unused k s -> (consumeOnce k e now s).1 = true;
  consume_holds k e now s s' : consumeOnce k e now s = (true, s') -> held k e s';
  consume_keeps k e k' e' now s : held k e s -> now < e -> held k e (consumeOnce k' e' now s).2;
  held_refuses k e e' now s : held k e s -> now < e -> (consumeOnce k e' now s).1 = false;
}.

Definition lower_unit (c : N) : N := if is_upper c then (c + 32)%N else c.
(** [key.toLowerCase()] on an ASCII header name. *)
Definition lower_case (s : jstr) : jstr := map lower_unit s.

(** [Object.fromEntries(...)]: the last of two equal names wins. *)
Definition header (name : jstr) (hs : Headers) : option jstr :=
  map_get name (fold_left (fun m p => map_set (lower_case p.1) p.2 m) hs []).

(** [/^(0|[1-9][0-9]{0,15})$/] *)
Definition timestamp_pattern (s : jstr) : bool :=
  match s with
  | [] => false
  | c :: r => forallb is_digit s && (length r <=? 15)%nat && (negb (c =? 48)%N || (length r =? 0)%nat)
  end.

Record Verified : Type := { ve_keyId : jstr; ve_idempotencyKey : jstr }.

Section verify.
Context {R : Type} `{ReplayStore R}.

Definition verifyPartnerWebhook (body : list N) (headers : Headers) (resolveKey : jstr -> option (list N))
    (nowEpochSeconds : jsnum) (replayWindowSeconds : option jsnum) : St R Verified :=
  lift (throw_if (too_large body) "partner webhook payload too large") ≫= fun _ =>
  let get name := default [] (header name headers) in
  let keyId := get "x-airlock-key-id" in
  let nonce := get "x-airlock-nonce" in
  let timestamp := get "x-airlock-timestamp" in
  let idempotencyKey := get "idempotency-key" in
  let supplied := get "x-airlock-signature" in
  lift (throw_if (negb (bool_decide (header "x-airlock-version" headers = Some SIGNATURE_VERSION)))
    "unsupported partner signature version") ≫= fun _ =>
  lift (assertToken keyId "key id") ≫= fun _ =>
  lift (assertToken nonce "nonce") ≫= fun _ =>
  lift (assertToken idempotencyKey "idempotency key") ≫= fun _ =>
  lift (throw_if (negb (timestamp_pattern timestamp)) "invalid partner timestamp") ≫= fun _ =>
  let sentAt := round53 (Z.of_N (digits_value timestamp)) in
  match safe_between (default (NInt DEFAULT_REPLAY_WINDOW_SECONDS) replayWindowSeconds) 1 3600 with
  | None => lift (Throw "invalid partner replay window")
  | Some window =>
      match nowEpochSeconds with
      | NInt now =>
          lift (throw_if (negb (safe_int now) || (window <? Z.abs (num_sub now sentAt)))
            "partner webhook outside replay window") ≫= fun _ =>
          match resolveKey keyId with
          | None => lift (Throw "unknown partner signing key")
          | Some key =>
              lift (assertKey {| sk_keyId := keyId; secret := key |}) ≫= fun _ =>
              lift (throw_if (negb (bool_decide (utf8_encode supplied =
                  utf8_encode (request_signature key timestamp nonce idempotencyKey body))))
                "invalid partner signature") ≫= fun _ =>
              (fun s => let '(fresh, s) :=
                 consumeOnce (keyId +:+ ":" +:+ nonce) (num_add sentAt window) now s in (Ok fresh, s))
              ≫= fun fresh =>
              lift (throw_if (negb fresh) "partner webhook replay detected") ≫= fun _ =>
              mret {| ve_keyId := keyId; ve_idempotencyKey := idempotencyKey |}
          end
      | _ => lift (Throw "partner webhook outside replay window")
      end
  end.
End verify.
End contract.

(** ** A valid envelope survives its encoding *)

Section clean.
Context `{Host}.

(** No object has two properties of one name, as in any JavaScript value. *)
Fixpoint distinct_keys (v : jsval) : Prop :=
  match v with
  | JArr l => (fix go l := match l with [] => True | v :: l => distinct_keys v /\ go l end) l
  | JObj l => NoDup l.*1 /\
      (fix go l := match l with [] => True | p :: l => distinct_keys p.2 /\ go l end) l
  | _ => True
  end.

Lemma prop_of_in k v props : NoDup props.*1 -> (k, v) ∈ props -> prop k props = v.
Proof.
  unfold prop. induction props as [|[k' v'] l IH]; [by intros _ ?%elem_of_nil|].
  cbn. intros [Hk Hnd]%NoDup_cons Hin. unfold jeqb. case_bool_decide as E.
  - apply elem_of_cons in Hin as [[= <-]|Hin]; [done|]. subst k'.
    destruct Hk. by apply (list_elem_of_fmap_2 fst) in Hin.
  - apply elem_of_cons in Hin as [[= -> _]|Hin]; [done|]. by apply IH.
Qed.

Definition ascii (s : jstr) : Prop := Forall (fun c => c < 128)%N s.

Lemma ascii_good s : ascii s -> good_text s.
Proof. intros Hs. apply good_text_small. eapply Forall_impl; [exact Hs|]. cbn. lia. Qed.

Lemma is_id_char_ascii c : is_id_char c = true -> (c < 128)%N.
Proof.
  unfold is_id_char, is_alnum, is_digit, is_upper, is_lower, in_range.
  rewrite !orb_true_iff, !andb_true_iff, !N.leb_le, !N.eqb_eq. lia.
Qed.

Lemma id_ascii s : id_pattern s = true -> ascii s.
Proof. intros Hs%id_pattern_chars. eapply Forall_impl; [exact Hs|]. intros c. apply is_id_char_ascii. Qed.

Lemma uuid_ascii s : UUID s = true -> ascii s.
Proof.
  unfold UUID. intros [Hl%Nat.eqb_eq Hf]%andb_true_iff. apply forallb_Forall in Hf.
  apply Forall_lookup. intros i c Hc. pose proof (lookup_lt_Some _ _ _ Hc).
  assert (Hi : zip (seq 0 36) s !! i = Some (i, c)).
  { apply lookup_zip_with_Some. exists i, c. split_and!; [done| |done]. apply lookup_seq. lia. }
  eapply Forall_lookup in Hf; [|exact Hi]. cbn beta iota in Hf. revert Hf.
  unfold is_hex_i, is_hex_char, is_digit, in_range.
  repeat case_match; rewrite ?orb_true_iff, ?andb_true_iff, ?N.leb_le, ?N.eqb_eq; lia.
Qed.

Lemma is_digit_ascii c : is_digit c = true -> (c < 128)%N.
Proof. unfold is_digit, in_range. rewrite andb_true_iff, !N.leb_le. lia. Qed.

Lemma iso_tail_ascii r : iso_tail r = true -> ascii r.
Proof.
  do 20 (destruct r as [|? r]; [done|]). destruct r; [|done].
  cbn [iso_tail forallb]. rewrite !andb_true_iff, !N.eqb_eq.
  intros [[[[[[[Hd ->] ->] ->] ->] ->] ->] ->].
  repeat match goal with Hd : _ /\ _ |- _ => destruct Hd end.
  repeat constructor; by apply is_digit_ascii.
Qed.

Lemma canonical_time_ascii s : canonical_time s = true -> ascii s.
Proof.
  unfold canonical_time, canonical_timestamp. intros [[Hd Ht]%andb_true_iff _]%andb_true_iff.
  rewrite <-(take_drop 4 s). apply Forall_app. split; [|by apply iso_tail_ascii].
  apply forallb_Forall in Hd. eapply Forall_impl; [exact Hd|]. intros c. apply is_digit_ascii.
Qed.

(** A text that passes one of the tests of the contract. *)
Lemma text_such_clean test v :
  text_such test v = true -> (forall s, test s = true -> ascii s) -> json_clean v.
Proof. destruct v; try done. cbn. intros Ht Ha. by apply ascii_good, Ha. Qed.

Lemma includes_ascii l s :
  forallb (forallb (fun c => c <? 128)%N) l = true -> includes l s = true -> ascii s.
Proof.
  rewrite forallb_forall. intros Hl Hs%includes_true%list_elem_of_In. specialize (Hl _ Hs).
  apply forallb_Forall in Hl. eapply Forall_impl; [exact Hl|]. intros c. apply N.ltb_lt.
Qed.

Lemma positive_safe_clean v : positive_safe v = true -> json_clean v.
Proof.
  destruct v as [| | |n| | |]; try done. cbn [positive_safe].
  destruct (safe_between n 1 MAX_SAFE_INTEGER) as [z|] eqn:E; [|done].
  apply safe_between_Some in E as (-> & Hz & _). intros _. unfold MAX_SAFE_INTEGER in Hz. cbn. lia.
Qed.

(** An object whose keys are among [ks], each value of which is clean. *)
Lemma clean_object props ks :
  NoDup props.*1 -> forallb (forallb (fun c => c <? 128)%N) ks = true ->
  (forall k, k ∈ props.*1 -> k ∈ ks) -> (forall k, k ∈ ks -> json_clean (prop k props)) ->
  json_clean (JObj props).
Proof.
  intros Hnd Hks Hsub Hv. apply json_clean_obj. split; [done|]. apply Forall_forall. intros [k v] Hin.
  assert (Hk : k ∈ ks) by (apply Hsub; by apply (list_elem_of_fmap_2 fst) in Hin).
  cbn. split; [apply ascii_good, (includes_ascii ks); [done|by apply includes_in]|].
  rewrite <-(prop_of_in _ _ _ Hnd Hin). by apply Hv.
Qed.

Lemma assertExactObject_keys v ks label props :
  assertExactObject v ks label = Ok props -> distinct_keys v -> NoDup ks ->
  v = JObj props /\ NoDup props.*1 /\ forall k, k ∈ props.*1 -> k ∈ ks.
Proof.
  destruct v as [| | | | | |l]; try done. cbn [assertExactObject]. intros Ha [Hnd _] Hks.
  apply throw_if_bind_Ok in Ha as [[Hlen Hall]%orb_false_iff [= ->]].
  split; [done|]. split; [done|]. apply negb_false_iff, Nat.eqb_eq in Hlen.
  apply existsb_false_Forall in Hall.
  assert (Hsub : ks ⊆+ props.*1).
  { apply NoDup_submseteq; [done|]. intros k Hk. eapply Forall_forall in Hall; [|exact Hk].
    apply negb_false_iff in Hall. by apply includes_true in Hall. }
  assert (Hperm : ks ≡ₚ props.*1).
  { apply submseteq_length_Permutation; [done|]. rewrite length_map. lia. }
  intros k Hk. by rewrite Hperm.
Qed.

(** Each guard a call passed, as a fact about the field it read. *)
Ltac passed Hx :=
  lazymatch type of Hx with
  | (throw_if (negb _) _ ≫= _) = Ok _ =>
      let Hc := fresh "Hc" in apply throw_if_bind_Ok in Hx as [Hc%negb_false_iff Hx]
  | (for_each _ _ ≫= _) = Ok _ =>
      let Hc := fresh "Hc" in apply for_each_bind_Ok in Hx as [Hc Hx];
      repeat (let Hy := fresh "Hc" in apply Forall_cons in Hc as [Hy%throw_unless_Ok Hc])
  | throw_if (negb _) _ = Ok _ => apply throw_unless_Ok in Hx
  end.

(** The fields of a validated object, one by one. *)
Ltac each_field :=
  let k := fresh "k" in let Hk := fresh "Hk" in
  intros k Hk; repeat (apply elem_of_cons in Hk as [->|Hk]); [..|by apply elem_of_nil in Hk];
  first [ by apply positive_safe_clean
        | eapply text_such_clean; [eassumption|];
          first [ exact id_ascii | exact uuid_ascii | exact canonical_time_ascii
                | intros ?; by apply includes_ascii ] ].

Lemma payload_clean ty payload u :
  assertPayload ty payload = Ok u -> distinct_keys payload -> json_clean payload.
Proof.
  unfold assertPayload, assertIdentifier, assertCanonicalTime. intros Ha Hd.
  repeat match type of Ha with context [if ?b then _ else _] => destruct b end;
    apply result_bind_Ok in Ha as (p & Hp & Ha);
    (apply assertExactObject_keys in Hp as (-> & Hnd & Hkeys); [|done|by apply (bool_decide_unpack _)]);
    repeat passed Ha;
    (eapply clean_object; [done| |exact Hkeys|]; [by vm_compute|each_field]).
Qed.

Lemma envelope_clean v u :
  assertPartnerEnvelope v = Ok u -> distinct_keys v -> json_clean v.
Proof.
  destruct v as [| | | | | |props]; try done. unfold assertPartnerEnvelope, assertCanonicalTime.
  intros Ha [Hnd Hd]. cbv zeta in Ha.
  apply throw_if_bind_Ok in Ha as [Hkeys Ha]. apply existsb_false_Forall in Hkeys.
  passed Ha. passed Ha.
  destruct (prop "eventType" props) as [| | | |ty| |] eqn:Ety; try done.
  repeat passed Ha. apply result_bind_Ok in Ha as (u1 & Hpay & Ha).
  assert (Hpd : distinct_keys (prop "payload" props)).
  { unfold prop. destruct (List.find _ props) as [[k v]|] eqn:E; [|done].
    apply find_some in E as [Hin _]. clear -Hd Hin. induction props as [|[k' v'] l IH]; [done|].
    destruct Hd as [Hd1 Hd2]. destruct Hin as [[= -> ->]|Hin]; [done|by apply IH]. }
  apply (clean_object props ENVELOPE_FIELDS); [done|by vm_compute| |].
  - intros k Hk. eapply Forall_forall in Hkeys; [|exact Hk].
    apply negb_false_iff in Hkeys. by apply includes_true in Hkeys.
  - intros k Hk. repeat (apply elem_of_cons in Hk as [->|Hk]); [..|by apply elem_of_nil in Hk].
    all: try (eapply text_such_clean; [eassumption|];
      first [exact id_ascii | exact uuid_ascii | exact canonical_time_ascii
            | intros s Hs; by apply bool_decide_eq_true in Hs as <-; repeat constructor]).
    + rewrite Ety. apply ascii_good. by apply (includes_ascii PARTNER_EVENT_TYPES).
    + by eapply payload_clean.
Qed.
End clean.

(** ** A signed request verifies *)

Section signed.
Context `{Host} {R : Type} `{ReplayStore R}.

Lemma decimal_aux_length fuel n acc k :
  (n < 10 ^ N.of_nat k)%N -> (1 <= k)%nat -> (length (decimal_aux fuel n acc) <= k + length acc)%nat.
Proof.
  revert n acc k. induction fuel as [|fuel IH]; intros n acc k Hn Hk; cbn [decimal_aux]; [lia|].
  destruct (N.eqb_spec (n / 10) 0) as [E|NE]; [cbn; lia|].
  destruct k as [|[|k]]; [lia| |].
  { change (10 ^ N.of_nat 1)%N with 10%N in Hn. rewrite N.div_small in NE by done. done. }
  etrans; [apply (IH _ _ (S k)); [|lia]|cbn; lia].
  rewrite Nnat.Nat2N.inj_succ, N.pow_succ_r' in Hn. apply N.Div0.div_lt_upper_bound. lia.
Qed.

Lemma decimal_timestamp t :
  0 <= t <= MAX_SAFE_INTEGER ->
  timestamp_pattern (decimal_Z t) = true /\ round53 (Z.of_N (digits_value (decimal_Z t))) = t.
Proof.
  intros Ht. unfold MAX_SAFE_INTEGER in Ht. unfold decimal_Z. rewrite (proj2 (Z.ltb_ge _ _)) by lia.
  rewrite digits_value_decimal. split; [|rewrite Z2N.id by lia; apply round53_small; lia].
  set (n := Z.to_N t).
  assert (Hlen : (length (decimal n) <= 16)%nat).
  { pose proof (decimal_aux_length (S (N.to_nat (N.log2 n))) n [] 16) as Hl. cbn [length] in Hl.
    apply Hl; [|lia]. change (10 ^ N.of_nat 16)%N with 10000000000000000%N. unfold n. lia. }
  pose proof (decimal_digits n) as Hd. apply forallb_Forall in Hd.
  destruct (N.eq_dec n 0) as [->|Hn]; [done|].
  destruct (decimal_head n Hn) as (c & l & E & Hc). rewrite E in *. unfold timestamp_pattern.
  rewrite Hd. cbn [length] in Hlen. rewrite (proj2 (Nat.leb_le _ _)) by lia.
  by rewrite (proj2 (N.eqb_neq _ _) Hc).
Qed.

Lemma signed_verifies body idem nonce t key headers resolveKey now r :
  signPartnerWebhook body idem nonce (NInt t) key = Ok headers ->
  resolveKey (sk_keyId key) = Some (secret key) ->
  Z.abs now <= MAX_SAFE_INTEGER -> Z.abs (now - t) <= DEFAULT_REPLAY_WINDOW_SECONDS ->
  verifyPartnerWebhook body headers resolveKey (NInt now) None r =
    let '(fresh, r') := consumeOnce (sk_keyId key +:+ ":" +:+ nonce)
      (num_add t DEFAULT_REPLAY_WINDOW_SECONDS) now r in
    (if fresh then Ok {| ve_keyId := sk_keyId key; ve_idempotencyKey := idem |}
     else Throw "partner webhook replay detected", r').
Proof.
  unfold signPartnerWebhook. intros Hs Hkey Hnow Hwin.
  apply result_bind_Ok in Hs as (u & Hk & Hs). apply result_bind_Ok in Hs as (u1 & Hidem & Hs).
  apply result_bind_Ok in Hs as (u2 & Hnonce & Hs).
  destruct (safe_between _ _ _) as [t'|] eqn:Et; [|done].
  apply safe_between_Some in Et as ([= <-] & Ht1 & Ht2).
  apply throw_if_bind_Ok in Hs as [Hlarge [= <-]].
  destruct (decimal_timestamp t Ht2) as [Hts Hval].
  pose proof Hk as Hk'. apply result_bind_Ok in Hk' as (u3 & Hkid & _).
  unfold verifyPartnerWebhook. cbv zeta.
  set (sig := request_signature _ _ _ _ _). set (ts := decimal_Z t) in *.
  set (hs := [_; _; _; _; _; _; _]).
  assert (Hh : header "x-airlock-key-id" hs = Some (sk_keyId key) /\
    header "x-airlock-nonce" hs = Some nonce /\ header "x-airlock-timestamp" hs = Some ts /\
    header "idempotency-key" hs = Some idem /\ header "x-airlock-signature" hs = Some sig /\
    header "x-airlock-version" hs = Some SIGNATURE_VERSION) by done.
  destruct Hh as (-> & -> & -> & -> & -> & ->). cbn [from_option]; unfold id.
  rewrite Hlarge, bool_decide_true by done. cbv [mbind St_bind lift]. cbn [throw_if negb].
  rewrite Hkid, Hnonce, Hidem, Hts. cbn [throw_if negb].
  rewrite Hval. change (safe_between (NInt DEFAULT_REPLAY_WINDOW_SECONDS) 1 3600) with
    (Some DEFAULT_REPLAY_WINDOW_SECONDS). cbv iota beta.
  unfold num_sub. rewrite round53_small by (unfold MAX_SAFE_INTEGER, DEFAULT_REPLAY_WINDOW_SECONDS in *; lia).
  unfold safe_int at 1. rewrite (proj2 (Z.leb_le _ _) Hnow), (proj2 (Z.ltb_ge _ _) Hwin).
  cbn [negb orb throw_if]. rewrite Hkey. destruct key as [kid sec]. cbn [sk_keyId secret] in *.
  rewrite Hk, bool_decide_true by done. cbn [negb throw_if].
  destruct (consumeOnce _ _ _ _) as [[|] r']; done.
Qed.
End signed.

(** ** The in-memory replay store *)

Module MemoryReplayStore.
Definition t : Type := list (jstr * Z).

Definition consumeOnce (key : jstr) (expiresAt now : Z) (entries : t) : bool * t :=
  let entries := List.filter (fun p => negb (p.2 <=? now)) entries in
  if map_has key entries then (false, entries) else (true, map_set key expiresAt entries).
End MemoryReplayStore.

#[export] Instance memory_replay_store : ReplayStore MemoryReplayStore.t :=
  {| consumeOnce := MemoryReplayStore.consumeOnce |}.

Lemma map_has_filter {V} (f : jstr * V -> bool) k (m : list (jstr * V)) :
  map_has k m = false -> map_has k (List.filter f m) = false.
Proof.
  rewrite !map_has_false. induction m as [|[k' v'] m IH]; [done|]. cbn. case_bool_decide as E; [done|].
  intros Hm. destruct (f (k', v')); cbn; [rewrite bool_decide_false by done|]; by apply IH.
Qed.

Lemma map_get_filter {V} (f : jstr * V -> bool) k v (m : list (jstr * V)) :
  map_get k m = Some v -> f (k, v) = true -> map_get k (List.filter f m) = Some v.
Proof.
  induction m as [|[k' v'] m IH]; [done|]. cbn. case_bool_decide as E.
  - intros [= ->] Hf. subst k'. rewrite Hf. cbn. by rewrite bool_decide_true.
  - intros Hg Hf. destruct (f (k', v')); cbn; [rewrite bool_decide_false by done|]; by apply IH.
Qed.

#[export] Instance memory_replay_laws : ReplayStoreLaws MemoryReplayStore.t.
Proof.
  refine {| held k e s := map_get k s = Some e; unused k s := map_has k s = false |};
    cbn; unfold MemoryReplayStore.consumeOnce.
  - intros k e now s Hk. by rewrite map_has_filter.
  - intros k e now s s'. destruct (map_has _ _) eqn:E; [done|]. intros [= <-]. apply map_get_set_eq.
  - intros k e k' e' now s Hk Hn.
    assert (Hf : map_get k (List.filter (fun p => negb (p.2 <=? now)) s) = Some e)
      by (apply map_get_filter; [done|]; cbn; rewrite (proj2 (Z.leb_gt _ _)) by lia; done).
    destruct (map_has k' _) eqn:E; cbn; [done|].
    rewrite map_get_set_ne; [done|]. intros ->. apply map_has_false in E. congruence.
  - intros k e e' now s Hk Hn.
    assert (Hf : map_get k (List.filter (fun p => negb (p.2 <=? now)) s) = Some e)
      by (apply map_get_filter; [done|]; cbn; rewrite (proj2 (Z.leb_gt _ _)) by lia; done).
    unfold map_has. by rewrite Hf.
Defined.
