(* ===== verification/PartnerReceiver.v ===== *)
(** PartnerReceiver: packages/partner-transport/receiver.ts, verified delivery
    of a partner webhook with at-most-once application, composed with the
    sender's encoding and signature. *)
From stdpp Require Import relations.
From S2P Require Import Prelude JsString JsMap Host TestHost JsTime JsJson JsParse PartnerContract.
#[local] Open Scope string_scope.
#[local] Open Scope list_scope.
#[local] Open Scope Z_scope.
#[local] Open Scope js_scope.

Record PartnerReceipt : Type := { rc_status : Z; rc_code : jstr; rc_eventId : jstr }.

(** [interface PartnerIdempotencyStore], over a store [I] and whatever state
    [W] the work changes. *)
Class PartnerIdempotencyStore (I : Type) := {
  runOnce {W : Type} : jstr -> jstr -> St W PartnerReceipt -> St (I * W) (bool * PartnerReceipt);
}.

Definition REUSED : jstr := "partner idempotency key reused with different request".

(** What the receiver relies on: a key is answered from its record for ever,
    without running the work again. *)
Class PartnerIdempotencyLaws (I : Type) `{PartnerIdempotencyStore I} := {
  recorded : jstr -> jstr -> PartnerReceipt -> I -> Prop;
  unanswered : jstr -> I -> Prop;
  run_first {W} k h v (work : St W PartnerReceipt) i w w' :
    unanswered k i -> work w = (Ok v, w') -> exists i', runOnce k h work (i, w) = (Ok (false, v), (i', w'));
  run_replayed {W} k h v (work : St W PartnerReceipt) i w s :
    runOnce k h work (i, w) = (Ok (true, v), s) -> recorded k h v i /\ s = (i, w);
  run_replays {W} k h h' v (work : St W PartnerReceipt) i w :
    recorded k h v i ->
    runOnce k h' work (i, w) = (if h' =s? h then Ok (true, v) else Throw REUSED, (i, w));
  run_runs {W} k h v (work : St W PartnerReceipt) i w s :
    runOnce k h work (i, w) = (Ok (false, v), s) ->
    exists i' w', s = (i', w') /\ work w = (Ok v, w') /\ recorded k h v i';
  run_keeps {W} k h v k' h' (work : St W PartnerReceipt) i w :
    recorded k h v i -> recorded k h v (runOnce k' h' work (i, w)).2.1;
}.

Module MemoryPartnerIdempotencyStore.
Record Entry : Type := { en_requestHash : jstr; en_value : PartnerReceipt }.
Definition t : Type := list (jstr * Entry).

Definition runOnce {W} (key requestHash : jstr) (work : St W PartnerReceipt)
    : St (t * W) (bool * PartnerReceipt) := fun '(entries, w) =>
  match map_get key entries with
  | Some prior =>
      (throw_if (negb (en_requestHash prior =s? requestHash)) REUSED ≫= fun _ =>
       Ok (true, en_value prior), (entries, w))
  | None =>
      match work w with
      | (Ok value, w') =>
          (Ok (false, value),
           (map_set key {| en_requestHash := requestHash; en_value := value |} entries, w'))
      | (Throw e, w') => (Throw e, (entries, w'))
      end
  end.
End MemoryPartnerIdempotencyStore.

#[export] Instance memory_idempotency_store : PartnerIdempotencyStore MemoryPartnerIdempotencyStore.t :=
  {| runOnce := @MemoryPartnerIdempotencyStore.runOnce |}.

#[export] Instance memory_idempotency_laws : PartnerIdempotencyLaws MemoryPartnerIdempotencyStore.t.
Proof.
  refine {| recorded k h v i := map_get k i =
    Some {| MemoryPartnerIdempotencyStore.en_requestHash := h; MemoryPartnerIdempotencyStore.en_value := v |};
    unanswered k i := map_get k i = None |};
    intros W; cbn.
  - intros k h v work i w w' -> ->. by eexists.
  - intros k h v work i w s. destruct (map_get k i) as [[h0 v0]|] eqn:E.
    + cbn. destruct (jeqb h0 h) eqn:Eh; [|by intros [= ?]].
      apply jeqb_true in Eh as ->. by intros [= -> <-].
    + by destruct (work w) as [[value|e] w'].
  - intros k h h' v work i w ->. cbn. unfold jeqb.
    destruct (bool_decide_reflect (h = h')) as [->|]; [by rewrite bool_decide_true|].
    by rewrite bool_decide_false.
  - intros k h v work i w s. destruct (map_get k i) as [prior|] eqn:E.
    { unfold throw_if. destruct (negb _); by intros [= ?]. }
    destruct (work w) as [[value|e] w'] eqn:Ew; [|done]. intros [= -> <-].
    eexists _, _. split; [done|]. split; [done|]. apply map_get_set_eq.
  - intros k h v k' h' work i w Hk. destruct (map_get k' i) as [prior|] eqn:E; [done|].
    destruct (work w) as [[value|e] w']; [|done]. cbn. rewrite map_get_set_ne; [done|congruence].
Defined.

(** ** Receiving *)

Section receiver.
Context `{Host} {R I A : Type} `{ReplayStore R} `{PartnerIdempotencyStore I}.

(** The two stores and the application the receiver writes to. *)
Record Receiver : Type := { replays : R; answered : I; application : A }.

Definition set_replays r (s : Receiver) : Receiver :=
  {| replays := r; answered := answered s; application := application s |}.
Definition set_answered (p : I * A) (s : Receiver) : Receiver :=
  {| replays := replays s; answered := p.1; application := p.2 |}.

Record Delivery : Type := { dl_body : list N; dl_headers : Headers; dl_now : jsnum }.

Variables (resolveKey : jstr -> option (list N)) (apply_event : jsval -> St A unit).

Definition event_id (envelope : jsval) : jstr :=
  match field_of "eventId" envelope with JStr s => s | _ => [] end.

(** The key of the idempotency record. *)
Definition answer_key (v : Verified) : jstr := ve_keyId v +:+ ":" +:+ ve_idempotencyKey v.

Definition apply_work (parsed : jsval) : St A PartnerReceipt :=
  apply_event parsed ≫= fun _ =>
  mret {| rc_status := 202; rc_code := "ACCEPTED"; rc_eventId := event_id parsed |}.

Definition parse_body (body : list N) : result jsval :=
  match json_parse (utf8_decode body) with
  | Ok v => Ok v
  | Throw _ => Throw "invalid partner JSON body"
  end.

Definition receivePartnerWebhook (d : Delivery) : St Receiver PartnerReceipt :=
  zoom replays set_replays
    (verifyPartnerWebhook (dl_body d) (dl_headers d) resolveKey (dl_now d) None) ≫= fun verified =>
  lift (parse_body (dl_body d)) ≫= fun parsed =>
  lift (assertPartnerEnvelope parsed) ≫= fun _ =>
  zoom (fun s : Receiver => (answered s, application s)) set_answered
    (runOnce (answer_key verified) (sha256Hex (dl_body d)) (apply_work parsed)) ≫= fun result : bool * PartnerReceipt =>
  mret (if result.1 then {| rc_status := rc_status result.2; rc_code := "DUPLICATE";
                            rc_eventId := rc_eventId result.2 |}
        else result.2).

(** The key under which the window remembers a delivery, and the clock
    reading at which it forgets it. *)
Definition window_key (hs : Headers) : jstr :=
  default [] (header "x-airlock-key-id" hs) +:+ ":" +:+ default [] (header "x-airlock-nonce" hs).
Definition expires (d : Delivery) : Z :=
  num_add (round53 (Z.of_N (digits_value (default [] (header "x-airlock-timestamp" (dl_headers d))))))
    DEFAULT_REPLAY_WINDOW_SECONDS.

Definition before (e : Z) (d : Delivery) : Prop :=
  match dl_now d with NInt n => n < e | _ => True end.

(** Any deliveries satisfying [P], returned or refused. *)
Inductive deliveries (P : Delivery -> Prop) : Receiver -> Receiver -> Prop :=
| deliver_none (s : Receiver) : deliveries P s s
| deliver_more (s s' : Receiver) (d : Delivery) :
    P d -> deliveries P (receivePartnerWebhook d s).2 s' -> deliveries P s s'.

Definition same_headers (names : list jstr) (d d' : Delivery) : Prop :=
  Forall (fun name => header name (dl_headers d') = header name (dl_headers d)) names.

(** *** What an accepted delivery went through *)

Lemma verify_Ok body headers now r v r' :
  verifyPartnerWebhook body headers resolveKey now None r = (Ok v, r') ->
  exists n,
    now = NInt n /\
    default [] (header "x-airlock-key-id" headers) = ve_keyId v /\
    default [] (header "idempotency-key" headers) = ve_idempotencyKey v /\
    consumeOnce (window_key headers)
      (num_add (round53 (Z.of_N (digits_value (default [] (header "x-airlock-timestamp" headers)))))
        DEFAULT_REPLAY_WINDOW_SECONDS) n r = (true, r').
Proof.
  unfold verifyPartnerWebhook. cbv zeta.
  intros (? & ? & [_ ->]%lift_inv & Hv)%bind_Ok_inv.
  do 5 apply bind_Ok_inv in Hv as (? & ? & [_ ->]%lift_inv & Hv).
  change (safe_between _ 1 3600) with (Some DEFAULT_REPLAY_WINDOW_SECONDS) in Hv. cbv iota beta in Hv.
  destruct now as [n| | |]; try done.
  apply bind_Ok_inv in Hv as (? & ? & [_ ->]%lift_inv & Hv).
  destruct (resolveKey _) as [key|] eqn:Ek; [|done].
  do 2 apply bind_Ok_inv in Hv as (? & ? & [_ ->]%lift_inv & Hv).
  apply bind_Ok_inv in Hv as (fresh & r1 & Hc & Hv).
  apply bind_Ok_inv in Hv as (? & ? & [->%throw_unless_Ok ->]%lift_inv & [= <- ->]).
  exists n. split_and!; try done. cbn beta in Hc.
  destruct (consumeOnce _ _ n r) as [b r2]. by injection Hc as -> ->.
Qed.

Lemma receive_Ok d s rc s' :
  receivePartnerWebhook d s = (Ok rc, s') ->
  exists v r p result w,
    verifyPartnerWebhook (dl_body d) (dl_headers d) resolveKey (dl_now d) None (replays s) = (Ok v, r) /\
    runOnce (answer_key v) (sha256Hex (dl_body d)) (apply_work p) (answered s, application s) = (Ok result, w) /\
    s' = set_answered w (set_replays r s) /\
    rc = (if result.1 then {| rc_status := rc_status result.2; rc_code := "DUPLICATE";
                              rc_eventId := rc_eventId result.2 |} else result.2).
Proof.
  unfold receivePartnerWebhook. intros (v & s1 & Hv & Hr)%bind_Ok_inv.
  unfold zoom at 1 in Hv. destruct (verifyPartnerWebhook _ _ _ _ _ _) as [rv r] eqn:Ev.
  injection Hv as -> <-. apply bind_Ok_inv in Hr as (p & ? & [_ ->]%lift_inv & Hr).
  apply bind_Ok_inv in Hr as (? & ? & [_ ->]%lift_inv & Hr).
  apply bind_Ok_inv in Hr as (result & s2 & Hrun & [= <- ->]).
  unfold zoom in Hrun. destruct (runOnce _ _ _ _) as [rr w] eqn:Ew. injection Hrun as -> <-.
  by exists v, r, p, result, w.
Qed.

(** A delivery the window refuses changes the window alone. *)
Lemma receive_refused d s e r :
  verifyPartnerWebhook (dl_body d) (dl_headers d) resolveKey (dl_now d) None (replays s) = (Throw e, r) ->
  receivePartnerWebhook d s = (Throw e, set_replays r s).
Proof. intros Hv. unfold receivePartnerWebhook. cbv [mbind St_bind]. unfold zoom at 1. by rewrite Hv. Qed.

Lemma receive_verified d s v r :
  verifyPartnerWebhook (dl_body d) (dl_headers d) resolveKey (dl_now d) None (replays s) = (Ok v, r) ->
  receivePartnerWebhook d s =
    match parse_body (dl_body d) ≫= fun parsed => assertPartnerEnvelope parsed ≫= fun _ => Ok parsed with
    | Throw e => (Throw e, set_replays r s)
    | Ok parsed =>
        match runOnce (answer_key v) (sha256Hex (dl_body d)) (apply_work parsed) (answered s, application s) with
        | (Throw e, w) => (Throw e, set_answered w (set_replays r s))
        | (Ok (true, v), w) => (Ok {| rc_status := rc_status v; rc_code := "DUPLICATE"; rc_eventId := rc_eventId v |},
                                set_answered w (set_replays r s))
        | (Ok (false, v), w) => (Ok v, set_answered w (set_replays r s))
        end
    end.
Proof.
  intros Hv. unfold receivePartnerWebhook. cbv [mbind St_bind result_bind]. unfold zoom at 1. rewrite Hv.
  unfold lift. destruct (parse_body _) as [p|]; [|done].
  destruct (assertPartnerEnvelope p); [|done]. unfold zoom.
  change (answered (set_replays r s)) with (answered s). change (application (set_replays r s)) with (application s).
  by destruct (runOnce _ _ _ _) as [[[[] ?]|] ?].
Qed.

(** *** What later deliveries keep *)

Lemma verify_held `{!ReplayStoreLaws R} body headers now k e :
  (forall n, now = NInt n -> n < e) ->
  keeps (held k e) (verifyPartnerWebhook body headers resolveKey now None).
Proof.
  intros Hn. unfold verifyPartnerWebhook. keeps_steps.
  destruct now as [n| | |]; keeps_steps. intros r Hr.
  lazymatch goal with |- held _ _ (let '(_, _) := consumeOnce ?k' ?e' _ _ in _).2 =>
    pose proof (consume_keeps k e k' e' n r Hr (Hn n eq_refl)) as Hc end.
  destruct (consumeOnce _ _ _ _). apply Hc.
Qed.

Lemma receive_held `{!ReplayStoreLaws R} d k e :
  before e d -> keeps (fun s => held k e (replays s)) (receivePartnerWebhook d).
Proof.
  intros Hd. unfold receivePartnerWebhook. apply keeps_bind.
  - intros s Hs. unfold zoom. pose proof (verify_held (dl_body d) (dl_headers d) (dl_now d) k e) as Hv.
    specialize (Hv ltac:(intros n En; unfold before in Hd; by rewrite En in Hd) _ Hs).
    by destruct (verifyPartnerWebhook _ _ _ _ _ _).
  - intros v. keeps_steps. by apply keeps_zoom.
Qed.

Lemma receive_recorded `{!PartnerIdempotencyLaws I} d k h v :
  keeps (fun s => recorded k h v (answered s)) (receivePartnerWebhook d).
Proof.
  unfold receivePartnerWebhook. apply keeps_bind; [by apply keeps_zoom|]. intros u. keeps_steps.
  intros s Hs. unfold zoom. pose proof (run_keeps k h v (answer_key u) (sha256Hex (dl_body d)) (apply_work a) _ (application s) Hs) as Hr.
  by destruct (runOnce _ _ _ _) as [? []].
Qed.

Lemma deliveries_keep (P : Delivery -> Prop) (J : Receiver -> Prop) s s' :
  (forall d, P d -> keeps J (receivePartnerWebhook d)) -> deliveries P s s' -> J s -> J s'.
Proof. intros Hk. induction 1 as [|s s' d Hd Hds IH]; [done|]. intros Hs. by apply IH, Hk. Qed.

(** A call that ended in an exception without touching the application. *)
Ltac refused := cbv beta iota; intros [= <- <-]; split; [done|by intros ? [=]].

(** *** The properties *)

(** Replay protection: once a delivery is accepted, and until its expiry,
    every later delivery under the same key id and nonce, whatever its body,
    throws and changes neither the idempotency record nor the application. *)
Theorem replay_rejected `{!ReplayStoreLaws R} d s rc s1 s2 d' :
  receivePartnerWebhook d s = (Ok rc, s1) ->
  deliveries (before (expires d)) s1 s2 ->
  same_headers [js "x-airlock-key-id"; js "x-airlock-nonce"] d d' -> before (expires d) d' ->
  exists e s3, receivePartnerWebhook d' s2 = (Throw e, s3) /\
    answered s3 = answered s2 /\ application s3 = application s2.
Proof.
  intros (v & r & p & result & w & Hv & _ & -> & _)%receive_Ok Hds Hh Hd'.
  apply verify_Ok in Hv as (n & _ & _ & _ & Hc). apply consume_holds in Hc.
  apply (deliveries_keep _ _ _ _ (fun d' => receive_held d' (window_key (dl_headers d)) (expires d)))
    in Hds; [|exact Hc].
  apply Forall_cons in Hh as [Hk [Hn _]%Forall_cons].
  destruct (verifyPartnerWebhook (dl_body d') (dl_headers d') resolveKey (dl_now d') None (replays s2))
    as [[v'|e] r'] eqn:Ev; [exfalso|by rewrite (receive_refused _ _ _ _ Ev); eexists _, _].
  apply verify_Ok in Ev as (n' & En & _ & _ & Hc'). unfold before in Hd'. rewrite En in Hd'.
  assert (Ek : window_key (dl_headers d') = window_key (dl_headers d)) by (unfold window_key; by rewrite Hk, Hn).
  rewrite Ek in Hc'. pose proof (held_refuses _ _ (num_add (round53 (Z.of_N (digits_value
    (default [] (header "x-airlock-timestamp" (dl_headers d')))))) DEFAULT_REPLAY_WINDOW_SECONDS) n' _ Hds Hd') as Hr.
  by rewrite Hc' in Hr.
Qed.

Lemma applied_once `{!PartnerIdempotencyLaws I} d s rc s1 s2 d' res s3 :
  receivePartnerWebhook d s = (Ok rc, s1) ->
  deliveries (fun _ => True) s1 s2 ->
  same_headers [js "x-airlock-key-id"; js "idempotency-key"] d d' ->
  receivePartnerWebhook d' s2 = (res, s3) ->
  application s3 = application s2 /\
  (forall rc', res = Ok rc' ->
    rc' = {| rc_status := rc_status rc; rc_code := "DUPLICATE"; rc_eventId := rc_eventId rc |} /\
    sha256Hex (dl_body d') = sha256Hex (dl_body d)).
Proof.
  intros (v & r & p & result & w & Hv & Hrun & -> & ->)%receive_Ok Hds Hh Hd'.
  assert (Hrec : recorded (answer_key v) (sha256Hex (dl_body d)) result.2 w.1).
  { destruct result as [[] rc].
    - by apply run_replayed in Hrun as [Hrun ->].
    - by apply run_runs in Hrun as (i' & w' & -> & _ & Hrun). }
  apply (deliveries_keep _ (fun s => recorded (answer_key v) (sha256Hex (dl_body d)) result.2 (answered s)))
    in Hds; [|intros ? _; apply receive_recorded|exact Hrec].
  apply Forall_cons in Hh as [Hk [Hi _]%Forall_cons].
  destruct (verifyPartnerWebhook (dl_body d') (dl_headers d') resolveKey (dl_now d') None (replays s2))
    as [[v'|e] r'] eqn:Ev; revert Hd'; [|rewrite (receive_refused _ _ _ _ Ev); by refused].
  rewrite (receive_verified _ _ _ _ Ev). assert (Ek : answer_key v' = answer_key v).
  { apply verify_Ok in Ev as (n' & _ & Ev1 & Ev2 & _). apply verify_Ok in Hv as (n & _ & Ev3 & Ev4 & _).
    unfold answer_key. by rewrite <-Ev1, <-Ev2, <-Ev3, <-Ev4, Hk, Hi. }
  destruct (_ ≫= _) as [p'|e]; [|by refused]. rewrite Ek, (run_replays _ _ _ _ _ _ _ Hds).
  destruct (jeqb _ _) eqn:Eh; [|by refused]. apply jeqb_true in Eh.
  intros [= <- <-]. split; [done|]. intros rc' [= <-]. split; [by destruct result.1|done].
Qed.

(** At-most-once application: once a delivery is accepted, no later
    delivery under the same key id and idempotency key changes the
    application, at any clock and after any other deliveries; if one is
    answered, it repeats the first receipt as a duplicate and its body has the
    digest of the first. *)
Theorem event_applied_once `{!PartnerIdempotencyLaws I} d s rc s1 s2 d' res s3 :
  receivePartnerWebhook d s = (Ok rc, s1) ->
  deliveries (fun _ => True) s1 s2 ->
  same_headers [js "x-airlock-key-id"; js "idempotency-key"] d d' ->
  receivePartnerWebhook d' s2 = (res, s3) ->
  application s3 = application s2 /\
  (forall rc', res = Ok rc' ->
    rc' = {| rc_status := rc_status rc; rc_code := "DUPLICATE"; rc_eventId := rc_eventId rc |} /\
    sha256Hex (dl_body d') = sha256Hex (dl_body d)).
Proof. apply applied_once. Qed.

Lemma delivery_accepted `{!ReplayStoreLaws R, !PartnerIdempotencyLaws I}
    envelope body idem nonce t key headers now s a :
  encodePartnerEnvelope envelope = Ok body -> distinct_keys envelope ->
  signPartnerWebhook body idem nonce (NInt t) key = Ok headers ->
  resolveKey (sk_keyId key) = Some (secret key) ->
  Z.abs now <= MAX_SAFE_INTEGER -> Z.abs (now - t) <= DEFAULT_REPLAY_WINDOW_SECONDS ->
  unused (sk_keyId key +:+ ":" +:+ nonce) (replays s) ->
  unanswered (sk_keyId key +:+ ":" +:+ idem) (answered s) ->
  apply_event envelope (application s) = (Ok tt, a) ->
  exists s', receivePartnerWebhook {| dl_body := body; dl_headers := headers; dl_now := NInt now |} s =
      (Ok {| rc_status := 202; rc_code := "ACCEPTED"; rc_eventId := event_id envelope |}, s') /\
    application s' = a.
Proof.
  unfold encodePartnerEnvelope. intros (u & Ha & [= <-])%result_bind_Ok Hd Hs Hkey Hnow Hwin Hun Han Happ.
  pose proof (envelope_clean _ _ Ha Hd) as Hclean.
  pose proof (signed_verifies _ _ _ _ _ _ _ _ (replays s) Hs Hkey Hnow Hwin) as Hv.
  pose proof (unused_accepts _ (num_add t DEFAULT_REPLAY_WINDOW_SECONDS) now _ Hun) as Hfresh.
  destruct (consumeOnce _ _ _ _) as [[] r']; [|done].
  erewrite receive_verified by exact Hv. cbn [dl_body]. unfold parse_body.
  rewrite (json_bytes_round_trip _ Hclean). cbv [mbind result_bind]. rewrite Ha.
  destruct (run_first (sk_keyId key +:+ ":" +:+ idem) (sha256Hex (utf8_encode (default [] (json_stringify envelope))))
    {| rc_status := 202; rc_code := "ACCEPTED"; rc_eventId := event_id envelope |} (apply_work envelope)
    (answered s) (application s) a Han) as [i' Hi].
  { unfold apply_work. cbv [mbind St_bind]. by rewrite Happ. }
  unfold answer_key. cbn [ve_keyId ve_idempotencyKey]. rewrite Hi. by eexists.
Qed.

(** C33: End-to-end delivery: an envelope the sender encodes and signs within
    the window, under a nonce and an idempotency key not used before, is
    accepted, and the application is applied to exactly the envelope sent. *)
Theorem webhook_round_trip `{!ReplayStoreLaws R, !PartnerIdempotencyLaws I}
    envelope body idem nonce t key headers now s a :
  encodePartnerEnvelope envelope = Ok body -> distinct_keys envelope ->
  signPartnerWebhook body idem nonce (NInt t) key = Ok headers ->
  resolveKey (sk_keyId key) = Some (secret key) ->
  Z.abs now <= MAX_SAFE_INTEGER -> Z.abs (now - t) <= DEFAULT_REPLAY_WINDOW_SECONDS ->
  unused (sk_keyId key +:+ ":" +:+ nonce) (replays s) ->
  unanswered (sk_keyId key +:+ ":" +:+ idem) (answered s) ->
  apply_event envelope (application s) = (Ok tt, a) ->
  exists s', receivePartnerWebhook {| dl_body := body; dl_headers := headers; dl_now := NInt now |} s =
      (Ok {| rc_status := 202; rc_code := "ACCEPTED"; rc_eventId := event_id envelope |}, s') /\
    application s' = a.
Proof. apply delivery_accepted. Qed.
End receiver.

(** ** A concrete partner *)

Definition sample_envelope : jsval := JObj [
  (js "schemaVersion", JStr PARTNER_WEBHOOK_VERSION);
  (js "eventId", JStr "0d6cf3c5-6f3a-4e0a-9b1e-1f2a3b4c5d6e");
  (js "eventType", JStr "authorization.confirmed");
  (js "occurredAt", JStr "2026-01-01T12:00:00.000Z");
  (js "issuerId", JStr "issuer-1");
  (js "processorId", JStr "processor-1");
  (js "correlationId", JStr "correlation-1");
  (js "aggregateId", JStr "authorization-1");
  (js "payload", JObj [(js "authorizationId", JStr "authorization-1");
                       (js "confirmedAt", JStr "2026-01-01T12:00:00.000Z")])].

Definition sample_key : PartnerSigningKey := {| sk_keyId := "key-1"; secret := repeat 7%N 32 |}.
Definition sample_resolve (keyId : jstr) : option (list N) :=
  if keyId =s? sk_keyId sample_key then Some (secret sample_key) else None.

(** The application keeps the envelopes it was given. *)
Definition sample_apply (envelope : jsval) : St (list jsval) unit := smodify (fun log => log ++ [envelope]).

Definition sent_at : Z := noon / 1000.
Definition ok_or {A} (d : A) (r : result A) : A := match r with Ok a => a | Throw _ => d end.
Definition sample_body : list N := ok_or [] (@encodePartnerEnvelope test_host sample_envelope).
Definition sample_headers : Headers :=
  ok_or [] (@signPartnerWebhook test_host sample_body "idempotency-1" "nonce-1" (NInt sent_at) sample_key).
Definition sample_delivery (now : Z) : Delivery :=
  {| dl_body := sample_body; dl_headers := sample_headers; dl_now := NInt now |}.

Definition sample_receiver : Receiver (R := MemoryReplayStore.t)
    (I := MemoryPartnerIdempotencyStore.t) (A := list jsval) :=
  {| replays := []; answered := []; application := [] |}.
#[local] Abbreviation sample_receive now :=
  (receivePartnerWebhook (H := test_host) sample_resolve sample_apply (sample_delivery now)).

Lemma sample_body_made : @encodePartnerEnvelope test_host sample_envelope = Ok sample_body.
Proof. by vm_compute. Qed.
Lemma sample_headers_made :
  @signPartnerWebhook test_host sample_body "idempotency-1" "nonce-1" (NInt sent_at) sample_key = Ok sample_headers.
Proof. by vm_compute. Qed.
Definition sample_accepted : Receiver := (sample_receive sent_at sample_receiver).2.
Definition sample_receipt : PartnerReceipt :=
  ok_or {| rc_status := 0; rc_code := []; rc_eventId := [] |} (sample_receive sent_at sample_receiver).1.
Lemma sample_received : sample_receive sent_at sample_receiver = (Ok sample_receipt, sample_accepted).
Proof. apply pair_eq; by vm_compute. Qed.

Lemma webhook_round_trip_witness :
  exists s', sample_receive (sent_at + 299) sample_receiver =
      (Ok {| rc_status := 202; rc_code := "ACCEPTED"; rc_eventId := event_id sample_envelope |}, s') /\
    application s' = [sample_envelope].
Proof.
  apply (webhook_round_trip (H := test_host) sample_resolve sample_apply sample_envelope sample_body
    "idempotency-1" "nonce-1" sent_at sample_key sample_headers (sent_at + 299) sample_receiver);
    [exact sample_body_made| |exact sample_headers_made|by vm_compute..].
  cbn. split; [apply (bool_decide_unpack _); by vm_compute|]. repeat split.
  apply (bool_decide_unpack _); by vm_compute.
Defined.

Lemma replay_rejected_witness :
  exists e s3, sample_receive (sent_at + 299) sample_accepted = (Throw e, s3) /\
    answered s3 = answered sample_accepted /\ application s3 = application sample_accepted.
Proof.
  apply (replay_rejected (H := test_host) sample_resolve sample_apply (sample_delivery sent_at) sample_receiver
    sample_receipt sample_accepted sample_accepted (sample_delivery (sent_at + 299)));
    [exact sample_received|constructor|by repeat constructor|by vm_compute].
Defined.

Lemma event_applied_once_witness :
  application (sample_receive (sent_at + 300) sample_accepted).2 = application sample_accepted.
Proof.
  assert (Hh : same_headers [js "x-airlock-key-id"; js "idempotency-key"] (sample_delivery sent_at)
    (sample_delivery (sent_at + 300))) by (repeat constructor).
  exact (proj1 (event_applied_once (H := test_host) sample_resolve sample_apply _ _ _ _ _ _ _ _
    sample_received (deliver_none _ _ _ _) Hh (surjective_pairing _))).
Defined.

(** The replay window forgets a request one second too early: in the last
    second in which the request is still inside the window its nonce has
    already been dropped, and the very same request is accepted again. *)
Theorem replay_at_window_edge :
  exists r, @verifyPartnerWebhook test_host _ _ sample_body sample_headers sample_resolve (NInt sent_at) None
      ([] : MemoryReplayStore.t) = (Ok {| ve_keyId := "key-1"; ve_idempotencyKey := "idempotency-1" |}, r) /\
    (@verifyPartnerWebhook test_host _ _ sample_body sample_headers sample_resolve (NInt (sent_at + 299)) None r).1
      = Throw "partner webhook replay detected" /\
    (@verifyPartnerWebhook test_host _ _ sample_body sample_headers sample_resolve (NInt (sent_at + 300)) None r).1
      = Ok {| ve_keyId := "key-1"; ve_idempotencyKey := "idempotency-1" |}.
Proof.
  exists [(js "key-1:nonce-1", sent_at + 300)]. split; [|split; by vm_compute].
  apply pair_eq; by vm_compute.
Qed.
