(* ===== verification/DurableStore.v ===== *)
(** DurableStore: packages/storage/durableStore.ts and migrations.ts, the
    tables of the SQLite file, the versioned records, the idempotent mutations
    and the outbox.  Every public call is one atomic step on the tables, as
    SQLite runs it; several connections to one file are several such steps.
    The text columns hold the bytes SQLite stores for a bound string, by two
    functions of the driver that are arguments of the definitions. *)
From S2P Require Import Prelude JsString JsMap Host JsTime JsJson JsParse.
#[local] Open Scope string_scope.
#[local] Open Scope list_scope.
#[local] Open Scope Z_scope.
#[local] Open Scope js_scope.

(** ** Text columns *)

(** What the driver stores for a string it is given, and the string it reads
    back from a column. *)
Class Sqlite := {
  bind_text : jstr -> list N;
  column_text : list N -> jstr;
}.

Definition ascii_text (s : jstr) : Prop := Forall (fun c => (c < 128)%N) s.

(** Text is stored as UTF-8: well-formed text without NUL is read back
    unchanged, and ASCII text is stored as it is. *)
Class SqliteLaws (Q : Sqlite) := {
  column_bind s : good_text s -> Forall (fun c => c <> 0%N) s -> column_text (bind_text s) = s;
  bind_ascii s : ascii_text s -> bind_text s = s;
}.

(** An INTEGER column is read as a number when it is a safe integer. *)
Definition column_int (z : Z) : result Z :=
  if safe_int z then Ok z else Throw "The value of column is too large to be represented as a JavaScript number".

(** [UPDATE ... SET f WHERE p]: the rows, and how many changed. *)
Definition update_where {A} (p : A -> bool) (f : A -> A) (rows : list A) : list A * nat :=
  (map (fun r => if p r then f r else r) rows, length (List.filter p rows)).

Definition text_eqb (a b : list N) : bool := bool_decide (a = b).

(** ** Data *)

Record VersionedRecord : Type := {
  value : jsval; status : jstr; version : Z; updatedAt : jstr;
}.

Record OutboxEvent : Type := {
  eventId : jstr; eventKey : jstr; topic : jstr; aggregateId : jstr; payload : jsval;
  createdAt : jstr; availableAt : jstr; attempts : Z;
  claimedBy : option jstr; claimedUntil : option jstr; deliveredAt : option jstr;
}.

Record ChallengeRow : Type := {
  ch_challenge_id : list N; ch_status : list N; ch_version : Z;
  ch_record_json : list N; ch_updated_at : list N;
}.

Record IdempotencyRow : Type := {
  id_scope : list N; id_idempotency_key : list N; id_request_hash : list N;
  id_response_json : list N; id_created_at : list N;
}.

Record OutboxRow : Type := {
  ob_event_id : list N; ob_event_key : list N; ob_topic : list N; ob_aggregate_id : list N;
  ob_payload_json : list N; ob_created_at : list N; ob_available_at : list N; ob_attempts : Z;
  ob_claimed_by : option (list N); ob_claimed_until : option (list N); ob_delivered_at : option (list N);
}.

Record MigrationRow : Type := { mi_version : Z; mi_name : list N; mi_applied_at : list N }.

Record Tables : Type := {
  durable_challenges : list ChallengeRow;
  idempotency_records : list IdempotencyRow;
  outbox_events : list OutboxRow;
}.

Definition set_challenges l (t : Tables) : Tables :=
  {| durable_challenges := l; idempotency_records := idempotency_records t; outbox_events := outbox_events t |}.
Definition set_idempotency l (t : Tables) : Tables :=
  {| durable_challenges := durable_challenges t; idempotency_records := l; outbox_events := outbox_events t |}.
Definition set_outbox l (t : Tables) : Tables :=
  {| durable_challenges := durable_challenges t; idempotency_records := idempotency_records t; outbox_events := l |}.

Definition OUTBOX_LIMITS_eventKey : nat := 256.
Definition OUTBOX_LIMITS_topic : nat := 128.
Definition OUTBOX_LIMITS_aggregateId : nat := 256.
Definition OUTBOX_LIMITS_workerId : nat := 128.
Definition OUTBOX_LIMITS_payloadBytes : nat := Z.to_nat 1048576.

Definition assertBoundedOutboxIdentifier (value field : jstr) (maximum : nat) : result unit :=
  throw_if ((length (trim value) =? 0)%nat || (maximum <? length value)%nat) ("invalid outbox " +:+ field).

(** The time value of a date that has one. *)
Definition assertValidDate (value : Date) (field : jstr) : result Z :=
  match value with Some t => Ok t | None => Throw ("invalid outbox " +:+ field) end.

(** A value bound as text; [undefined] cannot be bound. *)
Definition bind_json (text : option jstr) : result jstr :=
  match text with Some s => Ok s | None => Throw "Provided value cannot be bound to SQLite parameter" end.

Module DurableStore.

(** A connection between calls, or inside [#transaction]. *)
Record t : Type := { tables : Tables; schema_migrations : list MigrationRow; inTransaction : bool }.

Definition set_tables x (s : t) : t :=
  {| tables := x; schema_migrations := schema_migrations s; inTransaction := inTransaction s |}.
Definition set_inTransaction b (s : t) : t :=
  {| tables := tables s; schema_migrations := schema_migrations s; inTransaction := b |}.

Section store.
Context `{Host, Sqlite}.

(** ** Rows *)

Definition parse (text : list N) : result jsval := json_parse (column_text text).

Definition rowToRecord (row : ChallengeRow) : result VersionedRecord :=
  column_int (ch_version row) ≫= fun v =>
  parse (ch_record_json row) ≫= fun x =>
  Ok {| value := x; status := column_text (ch_status row); version := v;
        updatedAt := column_text (ch_updated_at row) |}.

Definition rowToEvent (row : OutboxRow) : result OutboxEvent :=
  column_int (ob_attempts row) ≫= fun n =>
  parse (ob_payload_json row) ≫= fun x =>
  Ok {| eventId := column_text (ob_event_id row); eventKey := column_text (ob_event_key row);
        topic := column_text (ob_topic row); aggregateId := column_text (ob_aggregate_id row);
        payload := x; createdAt := column_text (ob_created_at row);
        availableAt := column_text (ob_available_at row); attempts := n;
        claimedBy := column_text <$> ob_claimed_by row;
        claimedUntil := column_text <$> ob_claimed_until row;
        deliveredAt := column_text <$> ob_delivered_at row |}.

(** ** Transactions *)

(** [#transaction]: nested calls join; an exception rolls the tables back. *)
Definition transaction {A} (work : St t A) : St t A := fun s =>
  if inTransaction s then work s
  else match work (set_inTransaction true s) with
       | (Ok a, s') => (Ok a, set_inTransaction false s')
       | (Throw e, _) => (Throw e, s)
       end.

(** ** Versioned records *)

Definition challenge_row (challengeId : jstr) (s : t) : option ChallengeRow :=
  List.find (fun r => text_eqb (ch_challenge_id r) (bind_text challengeId)) (durable_challenges (tables s)).

Definition create (challengeId status : jstr) (value : jsval) (now : option Date) (e : Env)
    : St t VersionedRecord :=
  lift (toISOString (or_now now e 0)) ≫= fun updatedAt =>
  lift (bind_json (json_stringify value)) ≫= fun text =>
  sget ≫= fun s =>
  match challenge_row challengeId s with
  | Some _ => lift (Throw "UNIQUE constraint failed: durable_challenges.challenge_id")
  | None =>
      smodify (fun s => set_tables (set_challenges (durable_challenges (tables s) ++
        [{| ch_challenge_id := bind_text challengeId; ch_status := bind_text status; ch_version := 0;
            ch_record_json := bind_text text; ch_updated_at := bind_text updatedAt |}]) (tables s)) s) ≫= fun _ =>
      mret {| value := value; status := status; version := 0; updatedAt := updatedAt |}
  end.

Definition get (challengeId : jstr) (s : t) : result (option VersionedRecord) :=
  match challenge_row challengeId s with
  | Some row => rowToRecord row ≫= fun r => Ok (Some r)
  | None => Ok None
  end.

(** [WHERE challenge_id = ? AND version = ? AND status = ?] *)
Definition swap_where (challengeId : jstr) (expectedVersion : jsnum) (expectedStatus : jstr)
    (r : ChallengeRow) : bool :=
  text_eqb (ch_challenge_id r) (bind_text challengeId) &&
  bool_decide (expectedVersion = NInt (ch_version r)) &&
  text_eqb (ch_status r) (bind_text expectedStatus).

Definition swap_row (nextStatus text updatedAt : jstr) (r : ChallengeRow) : ChallengeRow :=
  {| ch_challenge_id := ch_challenge_id r; ch_status := bind_text nextStatus; ch_version := ch_version r + 1;
     ch_record_json := bind_text text; ch_updated_at := bind_text updatedAt |}.

(** [expectedVersion + 1], for the version a row matched. *)
Definition next_version (expectedVersion : jsnum) : Z :=
  match expectedVersion with NInt v => num_add v 1 | _ => 0 end.

Definition compareAndSwap (challengeId : jstr) (expectedVersion : jsnum) (expectedStatus nextStatus : jstr)
    (nextValue : jsval) (now : option Date) (e : Env) : St t VersionedRecord :=
  lift (toISOString (or_now now e 0)) ≫= fun updatedAt =>
  lift (bind_json (json_stringify nextValue)) ≫= fun text =>
  sget ≫= fun s =>
  let '(rows, changes) := update_where (swap_where challengeId expectedVersion expectedStatus)
                            (swap_row nextStatus text updatedAt) (durable_challenges (tables s)) in
  smodify (fun s => set_tables (set_challenges rows (tables s)) s) ≫= fun _ =>
  lift (throw_if (negb (changes =? 1)%nat) "compare-and-swap conflict") ≫= fun _ =>
  mret {| value := nextValue; status := nextStatus; version := next_version expectedVersion;
          updatedAt := updatedAt |}.

(** ** The outbox *)

Definition enqueue (eventKey topic aggregateId : jstr) (payload : jsval) (now : option Date) (e : Env)
    : St t OutboxEvent :=
  lift (assertBoundedOutboxIdentifier eventKey "event key" OUTBOX_LIMITS_eventKey) ≫= fun _ =>
  lift (assertBoundedOutboxIdentifier topic "topic" OUTBOX_LIMITS_topic) ≫= fun _ =>
  lift (assertBoundedOutboxIdentifier aggregateId "aggregate id" OUTBOX_LIMITS_aggregateId) ≫= fun _ =>
  lift (assertValidDate (or_now now e 0) "enqueue time") ≫= fun at_ms =>
  match json_stringify payload with
  | None => lift (Throw "invalid outbox payload")
  | Some payloadJson =>
      lift (throw_if (OUTBOX_LIMITS_payloadBytes <? length (utf8_encode payloadJson))%nat
        "invalid outbox payload") ≫= fun _ =>
      lift (json_parse payloadJson) ≫= fun storedPayload =>
      let eventId := env_uuid e 0 in
      let timestamp := iso_string at_ms in
      sget ≫= fun s =>
      lift (throw_if (existsb (fun r => text_eqb (ob_event_id r) (bind_text eventId))
                        (outbox_events (tables s)))
        "UNIQUE constraint failed: outbox_events.event_id") ≫= fun _ =>
      lift (throw_if (existsb (fun r => text_eqb (ob_event_key r) (bind_text eventKey))
                        (outbox_events (tables s)))
        "UNIQUE constraint failed: outbox_events.event_key") ≫= fun _ =>
      smodify (fun s => set_tables (set_outbox (outbox_events (tables s) ++
        [{| ob_event_id := bind_text eventId; ob_event_key := bind_text eventKey; ob_topic := bind_text topic;
            ob_aggregate_id := bind_text aggregateId; ob_payload_json := bind_text payloadJson;
            ob_created_at := bind_text timestamp; ob_available_at := bind_text timestamp; ob_attempts := 0;
            ob_claimed_by := None; ob_claimed_until := None; ob_delivered_at := None |}]) (tables s)) s) ≫= fun _ =>
      mret {| eventId := eventId; eventKey := eventKey; topic := topic; aggregateId := aggregateId;
              payload := storedPayload; createdAt := timestamp; availableAt := timestamp; attempts := 0;
              claimedBy := None; claimedUntil := None; deliveredAt := None |}
  end.

(** ** Idempotent mutations *)

(** What an operation can do through [MutationTransaction]: any sequence of
    calls, each chosen by the results and exceptions of those before it. *)
Inductive Tx : Type :=
| TxReturn (r : result jsval)
| TxCreate (challengeId status : jstr) (value : jsval) (now : option Date) (e : Env)
    (k : result VersionedRecord -> Tx)
| TxSwap (challengeId : jstr) (expectedVersion : jsnum) (expectedStatus nextStatus : jstr)
    (nextValue : jsval) (now : option Date) (e : Env) (k : result VersionedRecord -> Tx)
| TxEnqueue (eventKey topic aggregateId : jstr) (payload : jsval) (now : option Date) (e : Env)
    (k : result OutboxEvent -> Tx).

Fixpoint runTx (tx : Tx) (s : t) : result jsval * t :=
  match tx with
  | TxReturn r => (r, s)
  | TxCreate c st v now e k => let '(r, s) := create c st v now e s in runTx (k r) s
  | TxSwap c ev es ns v now e k => let '(r, s) := compareAndSwap c ev es ns v now e s in runTx (k r) s
  | TxEnqueue k1 tp a p now e k => let '(r, s) := enqueue k1 tp a p now e s in runTx (k r) s
  end.

Definition prior_response (scope key : jstr) (s : t) : option IdempotencyRow :=
  List.find (fun r => text_eqb (id_scope r) (bind_text scope) &&
                      text_eqb (id_idempotency_key r) (bind_text key)) (idempotency_records (tables s)).

Definition REQUEST_REUSED : jstr := "idempotency key reused with a different request".

Definition runIdempotent (scope key requestHash : jstr) (operation : Tx) (now : option Date) (e : Env)
    : St t (bool * jsval) :=
  transaction (
    sget ≫= fun s =>
    match prior_response scope key s with
    | Some prior =>
        lift (throw_if (negb (column_text (id_request_hash prior) =s? requestHash)) REQUEST_REUSED) ≫= fun _ =>
        lift (parse (id_response_json prior)) ≫= fun value =>
        mret (true, value)
    | None =>
        runTx operation ≫= fun value =>
        lift (toISOString (or_now now e 0)) ≫= fun createdAt =>
        lift (bind_json (json_stringify value)) ≫= fun text =>
        smodify (fun s => set_tables (set_idempotency (idempotency_records (tables s) ++
          [{| id_scope := bind_text scope; id_idempotency_key := bind_text key;
              id_request_hash := bind_text requestHash; id_response_json := bind_text text;
              id_created_at := bind_text createdAt |}]) (tables s)) s) ≫= fun _ =>
        mret (false, value)
    end).

Definition getIdempotent (scope key requestHash : jstr) (s : t) : result (option jsval) :=
  match prior_response scope key s with
  | None => Ok None
  | Some prior =>
      throw_if (negb (column_text (id_request_hash prior) =s? requestHash)) REQUEST_REUSED ≫= fun _ =>
      parse (id_response_json prior) ≫= fun v => Ok (Some v)
  end.

(** ** Leases *)

(** [claimed_until IS NULL OR claimed_until <= ?] *)
Definition lease_over (nowIso : list N) (r : OutboxRow) : bool :=
  match ob_claimed_until r with None => true | Some u => jstr_le u nowIso end.

Definition undelivered (r : OutboxRow) : bool := bool_decide (ob_delivered_at r = None).

Definition claimable (nowIso : list N) (r : OutboxRow) : bool :=
  undelivered r && jstr_le (ob_available_at r) nowIso && lease_over nowIso r.

(** [ORDER BY created_at, event_id] *)
Definition row_le (a b : OutboxRow) : bool :=
  if text_eqb (ob_created_at a) (ob_created_at b) then jstr_le (ob_event_id a) (ob_event_id b)
  else jstr_le (ob_created_at a) (ob_created_at b).

Fixpoint insert_row (r : OutboxRow) (l : list OutboxRow) : list OutboxRow :=
  match l with
  | [] => [r]
  | q :: l => if row_le r q then r :: q :: l else q :: insert_row r l
  end.
Definition sort_rows (l : list OutboxRow) : list OutboxRow := foldr insert_row [] l.

Definition claim_row (workerId claimedUntil : jstr) (r : OutboxRow) : OutboxRow :=
  {| ob_event_id := ob_event_id r; ob_event_key := ob_event_key r; ob_topic := ob_topic r;
     ob_aggregate_id := ob_aggregate_id r; ob_payload_json := ob_payload_json r;
     ob_created_at := ob_created_at r; ob_available_at := ob_available_at r; ob_attempts := ob_attempts r + 1;
     ob_claimed_by := Some (bind_text workerId); ob_claimed_until := Some (bind_text claimedUntil);
     ob_delivered_at := ob_delivered_at r |}.

Definition outbox_row (eventId : list N) (s : t) : option OutboxRow :=
  List.find (fun r => text_eqb (ob_event_id r) eventId) (outbox_events (tables s)).

(** The body of the loop over the selected rows. *)
Fixpoint claim_rows (workerId claimedUntil nowIso : jstr) (ids : list (list N)) : St t (list OutboxEvent) :=
  match ids with
  | [] => mret []
  | eventId :: ids =>
      sget ≫= fun s =>
      let '(rows, changes) := update_where
        (fun r => text_eqb (ob_event_id r) eventId && undelivered r && lease_over (bind_text nowIso) r)
        (claim_row workerId claimedUntil) (outbox_events (tables s)) in
      smodify (fun s => set_tables (set_outbox rows (tables s)) s) ≫= fun _ =>
      if negb (changes =? 1)%nat then claim_rows workerId claimedUntil nowIso ids
      else sget ≫= fun s =>
        match outbox_row eventId s with
        | Some row =>
            lift (rowToEvent row) ≫= fun event =>
            claim_rows workerId claimedUntil nowIso ids ≫= fun claimed =>
            mret (event :: claimed)
        | None => lift (Throw "Cannot read properties of undefined")
        end
  end.

Definition claimOutbox (workerId : jstr) (limit leaseMs : jsnum) (now : option Date) (e : Env)
    : St t (list OutboxEvent) :=
  lift (assertBoundedOutboxIdentifier workerId "worker id" OUTBOX_LIMITS_workerId) ≫= fun _ =>
  lift (assertValidDate (or_now now e 0) "claim time") ≫= fun at_ms =>
  match safe_between limit 1 1000 with
  | None => lift (Throw "invalid outbox claim")
  | Some limit =>
      match safe_between leaseMs 1000 MAX_SAFE_INTEGER with
      | None => lift (Throw "invalid lease")
      | Some leaseMs =>
          transaction (
            let nowIso := iso_string at_ms in
            lift (toISOString (new_date (num_add at_ms leaseMs))) ≫= fun claimedUntil =>
            sget ≫= fun s =>
            let rows := take (Z.to_nat limit)
              (sort_rows (List.filter (claimable (bind_text nowIso)) (outbox_events (tables s)))) in
            claim_rows workerId claimedUntil nowIso (map ob_event_id rows))
      end
  end.

(** [WHERE event_id = ? AND claimed_by = ? AND claimed_until > ? AND delivered_at IS NULL] *)
Definition lease_held (eventId workerId nowIso : jstr) (r : OutboxRow) : bool :=
  text_eqb (ob_event_id r) (bind_text eventId) &&
  bool_decide (ob_claimed_by r = Some (bind_text workerId)) &&
  match ob_claimed_until r with Some u => negb (jstr_le u (bind_text nowIso)) | None => false end &&
  undelivered r.

(** The claim columns cleared, with the delivery or the retry time. *)
Definition unclaim (delivered : option (list N)) (available : list N) (r : OutboxRow) : OutboxRow :=
  {| ob_event_id := ob_event_id r; ob_event_key := ob_event_key r; ob_topic := ob_topic r;
     ob_aggregate_id := ob_aggregate_id r; ob_payload_json := ob_payload_json r;
     ob_created_at := ob_created_at r; ob_available_at := available; ob_attempts := ob_attempts r;
     ob_claimed_by := None; ob_claimed_until := None; ob_delivered_at := delivered |}.

Definition acknowledgeOutbox (eventId workerId : jstr) (now : option Date) (e : Env) : St t unit :=
  lift (assertBoundedOutboxIdentifier workerId "worker id" OUTBOX_LIMITS_workerId) ≫= fun _ =>
  lift (assertValidDate (or_now now e 0) "acknowledgement time") ≫= fun at_ms =>
  let nowIso := iso_string at_ms in
  sget ≫= fun s =>
  let '(rows, changes) := update_where (lease_held eventId workerId nowIso)
    (fun r => unclaim (Some (bind_text nowIso)) (ob_available_at r) r) (outbox_events (tables s)) in
  smodify (fun s => set_tables (set_outbox rows (tables s)) s) ≫= fun _ =>
  lift (throw_if (negb (changes =? 1)%nat) "outbox acknowledgement conflict").

Definition releaseOutbox (eventId workerId : jstr) (retryAt : Date) (now : option Date) (e : Env) : St t unit :=
  lift (assertBoundedOutboxIdentifier workerId "worker id" OUTBOX_LIMITS_workerId) ≫= fun _ =>
  lift (assertValidDate retryAt "retry time") ≫= fun retry_ms =>
  lift (assertValidDate (or_now now e 0) "release time") ≫= fun at_ms =>
  sget ≫= fun s =>
  let '(rows, changes) := update_where (lease_held eventId workerId (iso_string at_ms))
    (fun r => unclaim (ob_delivered_at r) (bind_text (iso_string retry_ms)) r) (outbox_events (tables s)) in
  smodify (fun s => set_tables (set_outbox rows (tables s)) s) ≫= fun _ =>
  lift (throw_if (negb (changes =? 1)%nat) "outbox release conflict").

Definition outboxEvent (eventId : jstr) (s : t) : result (option OutboxEvent) :=
  match outbox_row (bind_text eventId) s with
  | Some row => rowToEvent row ≫= fun ev => Ok (Some ev)
  | None => Ok None
  end.

(** ** Opening a file *)

(** The migrations, each creating its tables. *)
Definition MIGRATIONS : list (Z * jstr) := [(1, js "durable_challenges_idempotency_outbox")].

Definition empty_tables : Tables :=
  {| durable_challenges := []; idempotency_records := []; outbox_events := [] |}.

(** The content of the file: the migrations it records, and the tables they
    created. *)
Record File : Type := { f_migrations : list MigrationRow; f_tables : option Tables }.

Definition migrate1 (m : Z * jstr) (e : Env) : St File unit :=
  sget ≫= fun f =>
  if existsb (fun r => mi_version r =? m.1) (f_migrations f) then mret tt
  else match f_tables f with
       | Some _ => lift (Throw "table durable_challenges already exists")
       | None =>
           lift (toISOString (env_clock e 0)) ≫= fun appliedAt =>
           smodify (fun f => {| f_migrations := f_migrations f ++
               [{| mi_version := m.1; mi_name := bind_text m.2; mi_applied_at := bind_text appliedAt |}];
             f_tables := Some empty_tables |})
       end.

Definition migrate (e : Env) : St File unit := sfor MIGRATIONS (fun m => migrate1 m e).

Definition constructor (e : Env) (f : File) : result t :=
  match migrate e f with
  | (Throw err, _) => Throw err
  | (Ok _, f') =>
      match f_tables f' with
      | Some x => Ok {| tables := x; schema_migrations := f_migrations f'; inTransaction := false |}
      | None => Throw "no such table: durable_challenges"
      end
  end.

Definition close (s : t) : File := {| f_migrations := schema_migrations s; f_tables := Some (tables s) |}.

(** [COALESCE(MAX(version), 0)] *)
Definition schemaVersion (s : t) : Z := fold_left Z.max (map mi_version (schema_migrations s)) 0.
End store.
End DurableStore.
