(* ===== verification/DurableSteps.v ===== *)
(** DurableSteps: every public call of the store moves the tables by a few
    kinds of row change; the invariants of the tables are proved once per
    kind of change. *)
From stdpp Require Import relations.
From S2P Require Import Prelude JsString JsMap Host JsTime JsJson JsParse DurableStore.
Import DurableStore.
#[local] Open Scope string_scope.
#[local] Open Scope list_scope.
#[local] Open Scope Z_scope.
#[local] Open Scope js_scope.

(** ** Plain text: printable ASCII, stored and read back as it is *)

Definition plain (s : jstr) : Prop := Forall (fun c => (32 <= c < 128)%N) s.

Lemma plain_ascii s : plain s -> ascii_text s.
Proof. intros Hs. eapply Forall_impl; [exact Hs|]. cbn. lia. Qed.

Lemma plain_app s t : plain s -> plain t -> plain (s ++ t).
Proof. intros. by apply Forall_app. Qed.

Lemma digits_plain w z : plain (digits w z).
Proof.
  pose proof (digits_are_digits w z) as Hd. apply forallb_Forall in Hd.
  eapply Forall_impl; [exact Hd|]. intros c. unfold is_digit, in_range.
  rewrite andb_true_iff, !N.leb_le. lia.
Qed.

Lemma iso_string_plain t : plain (iso_string t).
Proof.
  assert (H1 : forall c, (32 <= c < 128)%N -> plain [c]) by (intros; constructor; [done|constructor]).
  unfold iso_string. destruct (civil_from_days _) as [[y m] d].
  repeat (apply plain_app; [first [apply digits_plain|by apply H1|idtac]|]); [|by apply H1].
  unfold iso_year. destruct (_ && _); [apply digits_plain|].
  apply (plain_app [_]); [apply H1; destruct (_ <? _); lia|apply digits_plain].
Qed.

Section plain_columns.
Context `{Sqlite, !SqliteLaws _}.

Lemma bind_plain s : plain s -> bind_text s = s.
Proof. intros. by apply bind_ascii, plain_ascii. Qed.

Lemma column_plain s : plain s -> column_text s = s.
Proof.
  intros Hs. rewrite <-(bind_plain s Hs) at 1. apply column_bind.
  - apply good_text_small. eapply Forall_impl; [exact Hs|]. cbn. lia.
  - eapply Forall_impl; [exact Hs|]. cbn. lia.
Qed.

Lemma column_json `{Host} v text :
  json_clean v -> json_stringify v = Some text -> column_text (bind_text text) = text.
Proof.
  intros Hv Ht. pose proof (clean_text_good v Hv) as Hg. pose proof (clean_text_printable v Hv) as Hp.
  unfold value_text in *. rewrite Ht in Hg, Hp. cbn in Hg, Hp. apply column_bind; [done|].
  eapply Forall_impl; [exact Hp|]. cbn. lia.
Qed.

Lemma parse_json `{Host} v text :
  json_clean v -> json_stringify v = Some text -> parse (bind_text text) = Ok v.
Proof. intros Hv Ht. unfold parse. rewrite (column_json _ _ Hv Ht). by apply json_parse_stringify. Qed.
End plain_columns.

(** ** Row changes *)

Section changes.
Context `{Host, Sqlite}.

Inductive change : Type :=
| ChCreate (row : ChallengeRow)
| ChSwap (challengeId : jstr) (expectedVersion : jsnum) (expectedStatus nextStatus text updatedAt : jstr)
| ChAnswer (row : IdempotencyRow)
| ChEnqueue (row : OutboxRow)
| ChClaim (workerId claimedUntil nowIso : jstr) (event : list N)
| ChDeliver (eventId workerId nowIso : jstr)
| ChRetry (eventId workerId nowIso retryIso : jstr).

Definition claim_where (nowIso : jstr) (event : list N) (r : OutboxRow) : bool :=
  text_eqb (ob_event_id r) event && undelivered r && lease_over (bind_text nowIso) r.

Definition enabled (c : change) (T : Tables) : Prop :=
  match c with
  | ChCreate row => (ch_challenge_id row ∉ map ch_challenge_id (durable_challenges T)) /\ ch_version row = 0
  | ChAnswer row =>
      (id_scope row, id_idempotency_key row) ∉
        map (fun r => (id_scope r, id_idempotency_key r)) (idempotency_records T)
  | ChEnqueue row => (ob_event_id row ∉ map ob_event_id (outbox_events T)) /\
      (ob_event_key row ∉ map ob_event_key (outbox_events T)) /\
      ob_claimed_by row = None /\ ob_claimed_until row = None /\ ob_delivered_at row = None /\
      ob_attempts row = 0
  | _ => True
  end.

Definition effect (c : change) (T : Tables) : Tables :=
  match c with
  | ChCreate row => set_challenges (durable_challenges T ++ [row]) T
  | ChSwap c v es ns text at_ =>
      set_challenges (map (fun r => if swap_where c v es r then swap_row ns text at_ r else r)
        (durable_challenges T)) T
  | ChAnswer row => set_idempotency (idempotency_records T ++ [row]) T
  | ChEnqueue row => set_outbox (outbox_events T ++ [row]) T
  | ChClaim w u n ev =>
      set_outbox (map (fun r => if claim_where n ev r then claim_row w u r else r) (outbox_events T)) T
  | ChDeliver ev w n =>
      set_outbox (map (fun r => if lease_held ev w n r
        then unclaim (Some (bind_text n)) (ob_available_at r) r else r) (outbox_events T)) T
  | ChRetry ev w n retry =>
      set_outbox (map (fun r => if lease_held ev w n r
        then unclaim (ob_delivered_at r) (bind_text retry) r else r) (outbox_events T)) T
  end.

Inductive tstep (A : change -> Prop) : Tables -> Tables -> Prop :=
| tstep_change c T : A c -> enabled c T -> tstep A T (effect c T).

Lemma tstep_mono (A B : change -> Prop) T T' :
  (forall c, A c -> B c) -> rtc (tstep A) T T' -> rtc (tstep B) T T'.
Proof.
  intros HAB. induction 1 as [|T T1 T' [c T0 Ha He] _ IH]; [constructor|].
  eapply rtc_l; [constructor; [by apply HAB|done]|exact IH].
Qed.

(** ** The calls *)

(** What the environment and the callers supply: generated identifiers and
    statuses in plain text, and values that JSON carries. *)
Fixpoint good_tx (tx : Tx) : Prop :=
  match tx with
  | TxReturn _ => True
  | TxCreate _ st v _ _ k => plain st /\ json_clean v /\ forall r, good_tx (k r)
  | TxSwap _ _ _ ns v _ _ k => plain ns /\ json_clean v /\ forall r, good_tx (k r)
  | TxEnqueue _ _ _ payload _ e k => plain (env_uuid e 0) /\ json_clean payload /\ forall r, good_tx (k r)
  end.

(** The state-changing calls, with their arguments. *)
Inductive call : Type :=
| CallCreate (challengeId status : jstr) (value : jsval) (now : option Date) (e : Env)
| CallSwap (challengeId : jstr) (expectedVersion : jsnum) (expectedStatus nextStatus : jstr)
    (nextValue : jsval) (now : option Date) (e : Env)
| CallRun (scope key requestHash : jstr) (operation : Tx) (now : option Date) (e : Env)
| CallEnqueue (eventKey topic aggregateId : jstr) (payload : jsval) (now : option Date) (e : Env)
| CallClaim (workerId : jstr) (limit leaseMs : jsnum) (now : option Date) (e : Env)
| CallAcknowledge (eventId workerId : jstr) (now : option Date) (e : Env)
| CallRelease (eventId workerId : jstr) (retryAt : Date) (now : option Date) (e : Env)
| CallReopen (e : Env).

(** The state a call leaves, whether it returned or threw. *)
Definition run_call (c : call) (s : t) : t :=
  match c with
  | CallCreate i st v now e => (create i st v now e s).2
  | CallSwap i ev es ns v now e => (compareAndSwap i ev es ns v now e s).2
  | CallRun sc k h op now e => (runIdempotent sc k h op now e s).2
  | CallEnqueue k tp a p now e => (enqueue k tp a p now e s).2
  | CallClaim w l m now e => (claimOutbox w l m now e s).2
  | CallAcknowledge ev w now e => (acknowledgeOutbox ev w now e s).2
  | CallRelease ev w r now e => (releaseOutbox ev w r now e s).2
  | CallReopen e => match constructor e (close s) with Ok s' => s' | Throw _ => s end
  end.

Definition good_call (c : call) : Prop :=
  match c with
  | CallCreate _ st v _ _ => plain st /\ json_clean v
  | CallSwap _ _ _ ns v _ _ => plain ns /\ json_clean v
  | CallEnqueue _ _ _ p _ e => plain (env_uuid e 0) /\ json_clean p
  | CallRun _ _ _ op _ _ => good_tx op
  | _ => True
  end.

(** Columns that read back. *)
Definition record_ok (r : ChallengeRow) : Prop :=
  plain (ch_status r) /\ is_ok (parse (ch_record_json r)) /\ plain (ch_updated_at r).
Definition event_ok (r : OutboxRow) : Prop := plain (ob_event_id r) /\ is_ok (parse (ob_payload_json r)).

Definition swap_ok (nextStatus text updatedAt : jstr) : Prop :=
  plain nextStatus /\ is_ok (parse (bind_text text)) /\ plain updatedAt.

(** The row changes a call may make. *)
Definition change_of (c : call) (ch : change) : Prop :=
  match ch with
  | ChCreate row => match c with CallCreate _ _ _ _ _ | CallRun _ _ _ _ _ _ => record_ok row | _ => False end
  | ChSwap i ev es ns text at_ =>
      match c with
      | CallSwap i' ev' es' ns' _ _ _ => i = i' /\ ev = ev' /\ es = es' /\ ns = ns' /\ swap_ok ns text at_
      | CallRun _ _ _ _ _ _ => swap_ok ns text at_
      | _ => False
      end
  | ChAnswer row => match c with CallRun _ _ _ _ _ _ => True | _ => False end
  | ChEnqueue row =>
      match c with
      | CallEnqueue _ _ _ _ _ _ | CallRun _ _ _ _ _ _ => event_ok row
      | _ => False
      end
  | ChClaim w u n _ =>
      match c with
      | CallClaim w' _ lease now e => w = w' /\ exists at_ms ms, or_now now e 0 = Some at_ms /\
          lease = NInt ms /\ 1000 <= ms /\ n = iso_string at_ms /\
          toISOString (new_date (num_add at_ms ms)) = Ok u
      | _ => False
      end
  | ChDeliver ev w n =>
      match c with
      | CallAcknowledge ev' w' now e => ev = ev' /\ w = w' /\ exists at_ms, or_now now e 0 = Some at_ms /\ n = iso_string at_ms
      | _ => False
      end
  | ChRetry ev w n _ =>
      match c with
      | CallRelease ev' w' _ now e => ev = ev' /\ w = w' /\ exists at_ms, or_now now e 0 = Some at_ms /\ n = iso_string at_ms
      | _ => False
      end
  end.

(** ** Calls are row changes *)

Section reach.
Context (A : change -> Prop) (s0 : t).

Definition reach (b : bool) (s : t) : Prop :=
  rtc (tstep A) (tables s0) (tables s) /\ schema_migrations s = schema_migrations s0 /\ inTransaction s = b.

Lemma reach_change b c s :
  reach b s -> A c -> enabled c (tables s) -> reach b (set_tables (effect c (tables s)) s).
Proof. intros (Hr & Hm & Hb) Ha He. split_and!; try done. eapply rtc_r; [exact Hr|by constructor]. Qed.

Lemma find_absent {B K} `{EqDecision K} (key : B -> K) (p : B -> bool) k l :
  (forall r, p r = true <-> key r = k) -> List.find p l = None -> k ∉ map key l.
Proof.
  intros Hp Hf. rewrite list_elem_of_fmap. intros (r & -> & Hr%list_elem_of_In).
  pose proof (find_none _ _ Hf r Hr). rewrite (proj2 (Hp r)) in *; done.
Qed.

Lemma text_eqb_true a b : text_eqb a b = true <-> a = b.
Proof. apply bool_decide_eq_true. Qed.

Lemma existsb_absent {B} (key : B -> list N) k l :
  existsb (fun r => text_eqb (key r) k) l = false -> k ∉ map key l.
Proof.
  rewrite existsb_false_Forall, Forall_forall, list_elem_of_fmap. intros Hf (r & -> & Hr).
  specialize (Hf r Hr). cbn in Hf. by rewrite (proj2 (text_eqb_true _ _)) in Hf.
Qed.

Lemma iso_plain d at_ : toISOString d = Ok at_ -> plain at_.
Proof. destruct d; [|done]. intros [= <-]. apply iso_string_plain. Qed.

Lemma create_reach `{!SqliteLaws _} b i st v now e :
  plain st -> json_clean v -> (forall row, record_ok row -> A (ChCreate row)) ->
  keeps (reach b) (create i st v now e).
Proof.
  intros Hst Hv Ha. unfold create. apply keeps_lift_bind. intros at_ Hat%iso_plain.
  apply keeps_lift_bind. intros text Ht. apply keeps_read. intros s Hs.
  destruct (challenge_row i s) eqn:E; [done|]. apply at_modify_bind, at_ret.
  apply (reach_change b (ChCreate _) s Hs).
  { apply Ha. split_and!; cbn; [by rewrite bind_plain| |by rewrite bind_plain].
    destruct (json_stringify v) as [t'|] eqn:Et; [|done]. injection Ht as ->. by rewrite (parse_json _ _ Hv Et). }
  split; [|done]. cbn.
  eapply find_absent; [|exact E]. intros r. apply text_eqb_true.
Qed.

Lemma swap_reach `{!SqliteLaws _} b i ev es ns v now e :
  plain ns -> json_clean v -> (forall text at_, swap_ok ns text at_ -> A (ChSwap i ev es ns text at_)) ->
  keeps (reach b) (compareAndSwap i ev es ns v now e).
Proof.
  intros Hns Hv Ha. unfold compareAndSwap. apply keeps_lift_bind. intros at_ Hat%iso_plain.
  apply keeps_lift_bind. intros text Ht. apply keeps_read. intros s Hs.
  cbn [update_where]. apply at_modify_bind, at_lift_bind; [|intros; apply at_ret];
    (apply (reach_change b (ChSwap _ _ _ _ _ _) s Hs); [apply Ha|done]; split_and!; [done| |done];
     destruct (json_stringify v) as [t'|] eqn:Et; [|done]; injection Ht as ->; by rewrite (parse_json _ _ Hv Et)).
Qed.

Lemma enqueue_reach `{!SqliteLaws _} b k tp a p now e :
  plain (env_uuid e 0) -> json_clean p ->
  (forall row, event_ok row -> A (ChEnqueue row)) ->
  keeps (reach b) (enqueue k tp a p now e).
Proof.
  intros Hu Hp Ha. unfold enqueue. do 4 (apply keeps_lift_bind; intros).
  destruct (json_stringify p) as [text|] eqn:Et; [|apply keeps_lift].
  do 2 (apply keeps_lift_bind; intros). apply keeps_read. intros s Hs.
  apply at_lift_bind; [done|]. intros ? Hid%throw_if_Ok. apply at_lift_bind; [done|]. intros ? Hkey%throw_if_Ok.
  apply at_modify_bind, at_ret. apply (reach_change b (ChEnqueue _) s Hs).
  - apply Ha. split; cbn; [by rewrite bind_plain|by rewrite (parse_json _ _ Hp Et)].
  - split_and!; try done; by apply existsb_absent.
Qed.

Lemma runTx_reach `{!SqliteLaws _} b tx :
  good_tx tx -> (forall row, record_ok row -> A (ChCreate row)) ->
  (forall i ev es ns text at_, swap_ok ns text at_ -> A (ChSwap i ev es ns text at_)) ->
  (forall row, event_ok row -> A (ChEnqueue row)) ->
  keeps (reach b) (runTx tx).
Proof.
  intros Hg Hc Hsw He. induction tx as [r|i st v now e k IH|i ev es ns v now e k IH|k1 tp a p now e k IH];
    intros s Hs; cbn [runTx good_tx] in *; [done|..].
  - destruct Hg as (Hst & Hv & Hk). pose proof (create_reach b i st v now e Hst Hv Hc s Hs). destruct (create _ _ _ _ _ s) as [r s']. by apply IH.
  - destruct Hg as (Hst & Hv & Hk). pose proof (swap_reach b i ev es ns v now e Hst Hv (Hsw _ _ _ _) s Hs).
    destruct (compareAndSwap _ _ _ _ _ _ _ s) as [r s']. by apply IH.
  - destruct Hg as (Hu & Hp & Hk). pose proof (enqueue_reach b k1 tp a p now e Hu Hp He s Hs).
    destruct (enqueue _ _ _ _ _ _ s) as [r s']. by apply IH.
Qed.

Lemma transaction_reach {B} (work : St t B) :
  keeps (reach true) work -> keeps (reach false) (transaction work).
Proof.
  intros Hw s (Hr & Hm & Hb). unfold transaction. rewrite Hb.
  pose proof (Hw (set_inTransaction true s) (conj Hr (conj Hm eq_refl))) as Hw'.
  destruct (work _) as [[a|e] s']; [|done]. by destruct Hw' as (? & ? & _).
Qed.

(** The operation's calls record no answer. *)
Definition answers_are (l : list IdempotencyRow) (s : t) : Prop := idempotency_records (tables s) = l.

Lemma create_answers l i st v now e : keeps (answers_are l) (create i st v now e).
Proof.
  unfold create. do 2 (apply keeps_lift_bind; intros). apply keeps_read. intros s Hs.
  by destruct (challenge_row i s).
Qed.

Lemma swap_answers l i ev es ns v now e : keeps (answers_are l) (compareAndSwap i ev es ns v now e).
Proof.
  unfold compareAndSwap. do 2 (apply keeps_lift_bind; intros). apply keeps_read. intros s Hs.
  cbn [update_where]. apply at_modify_bind. by apply at_lift_bind.
Qed.

Lemma enqueue_answers l k tp a p now e : keeps (answers_are l) (enqueue k tp a p now e).
Proof.
  unfold enqueue. do 4 (apply keeps_lift_bind; intros). destruct (json_stringify p); [|apply keeps_lift].
  do 2 (apply keeps_lift_bind; intros). apply keeps_read. intros s Hs.
  by do 2 (apply at_lift_bind; [done|]; intros).
Qed.

Lemma runTx_answers l op : keeps (answers_are l) (runTx op).
Proof.
  induction op as [r|i st v now e k IH|i ev es ns v now e k IH|k1 tp a p now e k IH];
    intros s Hs; cbn [runTx]; [done|..].
  - pose proof (create_answers l i st v now e s Hs). destruct (create _ _ _ _ _ s). by apply IH.
  - pose proof (swap_answers l i ev es ns v now e s Hs). destruct (compareAndSwap _ _ _ _ _ _ _ s). by apply IH.
  - pose proof (enqueue_answers l k1 tp a p now e s Hs). destruct (enqueue _ _ _ _ _ _ s). by apply IH.
Qed.

Lemma run_reach `{!SqliteLaws _} sc k h op now e :
  good_tx op -> (forall row, record_ok row -> A (ChCreate row)) -> (forall row, A (ChAnswer row)) ->
  (forall i ev es ns text at_, swap_ok ns text at_ -> A (ChSwap i ev es ns text at_)) ->
  (forall row, event_ok row -> A (ChEnqueue row)) ->
  keeps (reach false) (runIdempotent sc k h op now e).
Proof.
  intros Hg Hc Ha Hs He. unfold runIdempotent. apply transaction_reach, keeps_read. intros s Hr.
  destruct (prior_response sc k s) as [prior|] eqn:Ep.
  { apply (at_keeps _ (reach true)); [keeps_steps|done|done]. }
  pose proof (runTx_reach true op Hg Hc Hs He s Hr) as Hr'. pose proof (runTx_answers (idempotency_records (tables s)) op s eq_refl) as Hn.
  cbv [mbind St_bind] in *. destruct (runTx op s) as [[v|err] s']; [|done]. cbn [snd] in *.
  unfold lift. destruct (toISOString _); [|done]. destruct (bind_json _); [|done].
  apply (reach_change true (ChAnswer _) s' Hr'); [done|]. cbn. rewrite (Hn : idempotency_records (tables s') = _).
  eapply find_absent; [|exact Ep]. intros r. cbn. rewrite andb_true_iff, !text_eqb_true. split; [intros [-> ->]|intros [= -> ->]]; done.
Qed.

Lemma claim_rows_reach b w u n ids :
  (forall ev, A (ChClaim w u n ev)) -> keeps (reach b) (claim_rows w u n ids).
Proof.
  intros Ha. induction ids as [|ev ids IH]; [apply keeps_ret|]. cbn [claim_rows]. apply keeps_read. intros s Hs.
  cbn [update_where]. apply at_modify_bind.
  pose proof (reach_change b (ChClaim w u n ev) s Hs (Ha ev) I) as Hs1. cbn [effect] in Hs1.
  case_match; [by apply IH|]. apply at_get_bind. destruct (outbox_row ev _); [|done].
  apply at_lift_bind; [done|]. intros event _. apply (at_keeps _ (reach b)); [|done|done].
  apply keeps_bind; [done|intros; apply keeps_ret].
Qed.

Lemma claim_reach w l m now e :
  (forall u n ev at_ms ms, or_now now e 0 = Some at_ms -> m = NInt ms -> 1000 <= ms -> n = iso_string at_ms ->
     toISOString (new_date (num_add at_ms ms)) = Ok u -> A (ChClaim w u n ev)) ->
  keeps (reach false) (claimOutbox w l m now e).
Proof.
  intros Ha. unfold claimOutbox. apply keeps_lift_bind. intros ? _. apply keeps_lift_bind. intros at_ms Hat.
  destruct (safe_between l _ _); [|apply keeps_lift]. destruct (safe_between m _ _) as [ms|] eqn:Em; [|apply keeps_lift].
  apply safe_between_Some in Em as (-> & _ & Hms & _). apply transaction_reach. cbv zeta.
  apply keeps_lift_bind. intros u Hu. apply keeps_read. intros s Hs.
  apply (claim_rows_reach true _ u (iso_string at_ms)); [|done]. intros ev.
  apply (Ha _ _ _ at_ms ms); try done. unfold assertValidDate in Hat. by destruct (or_now _ _ _); simplify_eq.
Qed.

Lemma valid_date d f z : assertValidDate d f = Ok z -> d = Some z.
Proof. unfold assertValidDate. destruct d; by intros [= ->]. Qed.

Lemma acknowledge_reach b ev w now e :
  (forall at_ms, or_now now e 0 = Some at_ms -> A (ChDeliver ev w (iso_string at_ms))) ->
  keeps (reach b) (acknowledgeOutbox ev w now e).
Proof.
  intros Ha. unfold acknowledgeOutbox. apply keeps_lift_bind. intros ? _. apply keeps_lift_bind. intros z Hz%valid_date.
  cbv zeta. apply keeps_read. intros s Hs. cbn [update_where]. apply at_modify_bind.
  apply (reach_change b (ChDeliver _ _ _) s Hs); [by apply Ha|done].
Qed.

Lemma release_reach b ev w r now e :
  (forall at_ms r, or_now now e 0 = Some at_ms -> A (ChRetry ev w (iso_string at_ms) r)) ->
  keeps (reach b) (releaseOutbox ev w r now e).
Proof.
  intros Ha. unfold releaseOutbox. do 2 (apply keeps_lift_bind; intros ? _). apply keeps_lift_bind. intros z Hz%valid_date.
  apply keeps_read. intros s Hs. cbn [update_where]. apply at_modify_bind.
  apply (reach_change b (ChRetry _ _ _ _) s Hs); [by apply Ha|done].
Qed.
End reach.

(** Opening again what a connection to this store closes. *)
Definition migrated (s : t) : Prop := Forall (fun m => exists r, r ∈ schema_migrations s /\ mi_version r = m.1) MIGRATIONS.

Lemma reopened e s : migrated s -> constructor e (close s) = Ok (set_inTransaction false s).
Proof.
  unfold migrated, MIGRATIONS. intros [(r & Hr & Hv) _]%Forall_cons. unfold constructor, migrate, MIGRATIONS.
  cbn [sfor]. cbv [mbind St_bind]. unfold migrate1 at 1. cbv [mbind St_bind sget close]. cbn [f_migrations].
  assert (E : existsb (fun r => mi_version r =? 1) (schema_migrations s) = true).
  { apply existsb_exists. exists r. split; [by apply list_elem_of_In|]. cbn in Hv. by rewrite Hv. }
  cbn [fst]. by rewrite E.
Qed.

(** A connection between calls, to a file that was migrated. *)
Definition ready (s : t) : Prop := inTransaction s = false /\ migrated s.

Lemma call_reach `{!SqliteLaws _} c s :
  good_call c -> ready s -> reach (change_of c) s false (run_call c s).
Proof.
  intros Hg [Hb Hm]. assert (H0s : reach (change_of c) s false s) by (by split_and!).
  destruct c; cbn [run_call good_call] in *.
  - destruct Hg. by apply create_reach.
  - destruct Hg. by apply swap_reach.
  - by apply run_reach.
  - destruct Hg. by apply enqueue_reach.
  - apply claim_reach; [|done]. cbn. intros. split; [done|]. by eexists _, _.
  - apply acknowledge_reach; [|done]. cbn. intros. split_and!; [done..|]. by eexists.
  - apply release_reach; [|done]. cbn. intros. split_and!; [done..|]. by eexists.
  - rewrite reopened by done. by destruct s; cbn in *; subst.
Qed.

Lemma call_migrations `{!SqliteLaws _} c s :
  good_call c -> ready s -> schema_migrations (run_call c s) = schema_migrations s.
Proof. intros Hg Hr. apply (call_reach c s Hg Hr). Qed.

Lemma call_steps `{!SqliteLaws _} c s :
  good_call c -> ready s ->
  rtc (tstep (change_of c)) (tables s) (tables (run_call c s)) /\ ready (run_call c s).
Proof.
  intros Hg Hr. pose proof (call_reach c s Hg Hr) as (Hs & Hm & Hb). destruct Hr as [_ Hr].
  split; [done|]. split; [done|]. unfold migrated. by rewrite Hm.
Qed.

(** Any calls satisfying [P], from any connections to the file. *)
Inductive history (P : call -> Prop) : t -> t -> Prop :=
| history_nil s : history P s s
| history_call c s s' : P c -> good_call c -> history P (run_call c s) s' -> history P s s'.

(** The row changes of a history. *)
Definition changes_of (P : call -> Prop) (ch : change) : Prop := exists c, P c /\ change_of c ch.

Lemma history_steps `{!SqliteLaws _} P s s' :
  history P s s' -> ready s ->
  rtc (tstep (changes_of P)) (tables s) (tables s') /\ ready s'.
Proof.
  induction 1 as [s|c s s' HP Hg _ IH]; intros Hs; [done|].
  destruct (call_steps c s Hg Hs) as [Hc Hs1]. destruct (IH Hs1) as [Hr Hs']. split; [|done].
  etrans; [|exact Hr]. eapply tstep_mono; [|exact Hc]. intros ch Hch. by exists c.
Qed.

Lemma steps_keep (J : Tables -> Prop) (A : change -> Prop) T T' :
  (forall c T, A c -> enabled c T -> J T -> J (effect c T)) -> rtc (tstep A) T T' -> J T -> J T'.
Proof. intros Hk. induction 1 as [|T T1 T' [c T0 Ha He] _ IH]; [done|]. intros HJ. by apply IH, Hk. Qed.
End changes.
