(* ===== verification/DurableRecords.v ===== *)
(** DurableRecords: the invariant of the tables, all-or-nothing calls, what a
    versioned record and an idempotent mutation promise, and the reopening of
    the file. *)
From stdpp Require Import relations.
From S2P Require Import Prelude JsString JsMap Host TestHost JsTime JsJson JsParse DurableStore DurableSteps.
Import DurableStore.
#[local] Open Scope string_scope.
#[local] Open Scope list_scope.
#[local] Open Scope Z_scope.
#[local] Open Scope js_scope.

Section records.
Context `{Host, Sqlite, !SqliteLaws _}.

(** ** The tables *)

(** The primary keys and the unique column, and rows that read back. *)
Record wf (T : Tables) : Prop := {
  wf_challenges : NoDup (map ch_challenge_id (durable_challenges T));
  wf_answers : NoDup (map (fun r => (id_scope r, id_idempotency_key r)) (idempotency_records T));
  wf_events : NoDup (map ob_event_id (outbox_events T));
  wf_event_keys : NoDup (map ob_event_key (outbox_events T));
  wf_versions : Forall (fun r => 0 <= ch_version r) (durable_challenges T);
  wf_attempts : Forall (fun r => 0 <= ob_attempts r) (outbox_events T);
  wf_records : Forall record_ok (durable_challenges T);
  wf_readable : Forall event_ok (outbox_events T);
}.

(** Every change leaves the columns the constraints are about alone. *)
Lemma map_if_column {B C} (f : B -> C) (p : B -> bool) g (l : list B) :
  (forall r, f (g r) = f r) -> map f (map (fun r => if p r then g r else r) l) = map f l.
Proof. intros Hg. rewrite map_map. apply map_ext. intros r. by destruct (p r). Qed.

Lemma Forall_map_if {B} (Q : B -> Prop) (p : B -> bool) g (l : list B) :
  (forall r, Q r -> Q (g r)) -> Forall Q l -> Forall Q (map (fun r => if p r then g r else r) l).
Proof. intros Hg Hl. apply Forall_map. eapply Forall_impl; [exact Hl|]. intros r Hr. cbn. destruct (p r); auto. Qed.

Lemma NoDup_snoc {B} (l : list B) x : NoDup l -> (x ∉ l) -> NoDup (l ++ [x]).
Proof. intros. apply NoDup_app. split_and!; [done| |apply NoDup_singleton]. intros y Hy ->%list_elem_of_singleton. done. Qed.

Lemma wf_step P c T :
  changes_of P c -> enabled c T -> wf T -> wf (effect c T).
Proof.
  intros (cl & _ & Hc) He [W1 W2 W3 W4 W5 W6 W7 W8].
  destruct c; cbn [effect enabled change_of] in *;
    split; cbn [durable_challenges idempotency_records outbox_events set_challenges set_idempotency set_outbox];
    rewrite ?map_app, ?map_if_column by done; try done.
  - apply NoDup_snoc; [done|apply He].
  - apply Forall_app. split; [done|]. repeat constructor. by destruct He as [_ ->].
  - apply Forall_app. split; [done|]. constructor; [|constructor]. by destruct cl.
  - apply Forall_map_if; [|done]. cbn. lia.
  - apply Forall_map_if; [|done]. intros r _.
    lazymatch goal with |- record_ok (swap_row ?ns ?tx ?at_ _) => assert (Hs : swap_ok ns tx at_) end.
    { destruct cl; try done. by destruct Hc as (_ & _ & _ & _ & ?). }
    destruct Hs as (Hn & Ht & Ha). split_and!; cbn; [by rewrite bind_plain|done|by rewrite bind_plain].
  - by apply NoDup_snoc.
  - apply NoDup_snoc; [done|apply He].
  - apply NoDup_snoc; [done|apply He].
  - apply Forall_app. split; [done|]. repeat constructor. by destruct He as (_ & _ & _ & _ & _ & ->).
  - apply Forall_app. split; [done|]. constructor; [|constructor]. by destruct cl.
  - apply Forall_map_if; [|done]. cbn. lia.
  - apply Forall_map_if; [|done]. by intros r [].
  - by apply Forall_map_if.
  - by apply Forall_map_if.
  - by apply Forall_map_if.
  - by apply Forall_map_if.
Qed.

Lemma history_wf P s s' : history P s s' -> ready s -> wf (tables s) -> wf (tables s').
Proof.
  intros Hh Hr. destruct (history_steps P s s' Hh Hr) as [Hs _]. revert Hs. apply steps_keep. apply wf_step.
Qed.

Lemma wf_empty : wf empty_tables.
Proof. split; constructor. Qed.

Lemma opened_fresh e s :
  constructor e {| f_migrations := []; f_tables := None |} = Ok s -> ready s /\ tables s = empty_tables.
Proof.
  unfold constructor, migrate, MIGRATIONS. cbn [sfor]. cbv [mbind St_bind]. unfold migrate1.
  cbv [mbind St_bind sget lift mret St_ret smodify]. cbn.
  destruct (env_clock e 0); cbn; [|done]. intros [= <-]. split; [|done]. split; [done|].
  repeat constructor. eexists. by split; [apply list_elem_of_here|].
Qed.

(** ** All or nothing *)

Lemma key_unique {B} (key : B -> list N) l x y :
  NoDup (map key l) -> x ∈ l -> y ∈ l -> key x = key y -> x = y.
Proof.
  induction l as [|r l IH]; [by intros _ ?%elem_of_nil|]. cbn. intros [Hr Hnd]%NoDup_cons Hx Hy E.
  assert (Hk : forall z, z ∈ l -> key z = key r -> False).
  { intros z Hz Ez. apply Hr. rewrite <-Ez. by apply list_elem_of_fmap_2. }
  apply elem_of_cons in Hx as [->|Hx], Hy as [->|Hy]; [done|destruct (Hk y); congruence|destruct (Hk x); congruence|by apply IH].
Qed.

Lemma text_eqb_refl a : text_eqb a a = true.
Proof. by apply bool_decide_true. Qed.

(** Over rows with distinct keys, at most one row has a given key. *)
Lemma filter_key_unique {B} (key : B -> list N) (p : B -> bool) k l :
  NoDup (map key l) -> (forall r, p r = true -> key r = k) -> (length (List.filter p l) <= 1)%nat.
Proof.
  intros Hnd Hp. induction l as [|r l IH]; [cbn; lia|]. cbn in *. apply NoDup_cons in Hnd as [Hr Hnd].
  destruct (p r) eqn:E; [|by apply IH]. cbn.
  assert (E' : List.filter p l = []); [|by rewrite E'; cbn; lia].
  apply Hp in E. clear IH Hnd. induction l as [|q l IH]; [done|]. cbn in *. apply not_elem_of_cons in Hr as [Hq Hr].
  destruct (p q) eqn:Eq; [|by apply IH]. apply Hp in Eq. congruence.
Qed.

Lemma filter_none_id {B} (p : B -> bool) g (l : list B) :
  length (List.filter p l) = 0%nat -> map (fun r => if p r then g r else r) l = l.
Proof.
  induction l as [|r l IH]; [done|]. cbn. destruct (p r); [done|]. intros. f_equal. by apply IH.
Qed.

Lemma update_conflict {B} (key : B -> list N) (p : B -> bool) k g l :
  NoDup (map key l) -> (forall r, p r = true -> key r = k) ->
  (length (List.filter p l) =? 1)%nat = false -> map (fun r => if p r then g r else r) l = l.
Proof.
  intros Hnd Hp Hn. apply filter_none_id. pose proof (filter_key_unique key p k l Hnd Hp).
  apply Nat.eqb_neq in Hn. lia.
Qed.

(** Whether the call threw. *)
Definition threw (c : call) (s : t) : bool :=
  match c with
  | CallCreate i st v now e => negb (is_ok (create i st v now e s).1)
  | CallSwap i ev es ns v now e => negb (is_ok (compareAndSwap i ev es ns v now e s).1)
  | CallRun sc k h op now e => negb (is_ok (runIdempotent sc k h op now e s).1)
  | CallEnqueue k tp a p now e => negb (is_ok (enqueue k tp a p now e s).1)
  | CallClaim w l m now e => negb (is_ok (claimOutbox w l m now e s).1)
  | CallAcknowledge ev w now e => negb (is_ok (acknowledgeOutbox ev w now e s).1)
  | CallRelease ev w r now e => negb (is_ok (releaseOutbox ev w r now e s).1)
  | CallReopen e => negb (is_ok (constructor e (close s)))
  end.

(** A call at [s] either returns or leaves [s] as it is. *)
Definition whole {B} (s : t) (out : result B * t) : Prop := is_ok out.1 = false -> out.2 = s.

Lemma whole_lift {B C} (r : result B) (k : B -> St t C) s :
  (forall a, r = Ok a -> whole s (k a s)) -> whole s ((lift r ≫= k) s).
Proof. intros Hk. cbv [mbind St_bind lift]. destruct r; [by apply Hk|done]. Qed.

Lemma set_same_outbox s : set_tables (set_outbox (outbox_events (tables s)) (tables s)) s = s.
Proof. by destruct s as [[]]. Qed.
Lemma set_same_challenges s : set_tables (set_challenges (durable_challenges (tables s)) (tables s)) s = s.
Proof. by destruct s as [[]]. Qed.

Lemma whole_transaction {B} (work : St t B) s : inTransaction s = false -> whole s (transaction work s).
Proof. intros Hb. unfold whole, transaction. rewrite Hb. by destruct (work _) as [[a|e] s']. Qed.

Ltac as_whole := lazymatch goal with |- is_ok ?out.1 = false -> ?out.2 = ?s => change (whole s out) end.
Ltac whole_lifts := repeat (apply whole_lift; intros).

Lemma whole_update {B C} (key : C -> list N) (p : C -> bool) k g l msg (ret : St t B) s (put : list C -> t -> t) :
  NoDup (map key l) -> (forall r, p r = true -> key r = k) -> put l s = s -> (forall s', is_ok (ret s').1 = true) ->
  whole s ((smodify (put (update_where p g l).1) ≫= fun _ =>
    lift (throw_if (negb ((update_where p g l).2 =? 1)%nat) msg) ≫= fun _ => ret) s).
Proof.
  intros Hnd Hp Hput Hret. cbv [mbind St_bind smodify lift]. cbn [update_where fst snd].
  destruct (Nat.eqb _ 1) eqn:E; cbn [negb throw_if].
  - intros Hr. by rewrite Hret in Hr.
  - intros _. cbn. by rewrite (update_conflict key p k).
Qed.

Lemma swap_whole i ev es ns v now e s : wf (tables s) -> whole s (compareAndSwap i ev es ns v now e s).
Proof.
  intros W. unfold compareAndSwap. whole_lifts.
  apply (whole_update ch_challenge_id _ (bind_text i) _ _ _ _ s
    (fun rows s => set_tables (set_challenges rows (tables s)) s)); [apply W| |apply set_same_challenges|done].
  intros r. unfold swap_where. rewrite !andb_true_iff. intros [[E _] _]. by apply text_eqb_true in E.
Qed.

Lemma lease_held_id ev w n r : lease_held ev w n r = true -> ob_event_id r = bind_text ev.
Proof. unfold lease_held. rewrite !andb_true_iff. intros [[[E _] _] _]. by apply text_eqb_true in E. Qed.

Lemma conflict_whole ev w n g msg s :
  wf (tables s) ->
  whole s ((smodify (fun s => set_tables (set_outbox (update_where (lease_held ev w n) g
      (outbox_events (tables s))).1 (tables s)) s) ≫= fun _ =>
    lift (throw_if (negb ((update_where (lease_held ev w n) g (outbox_events (tables s))).2 =? 1)%nat) msg)) s).
Proof.
  intros W. cbv [mbind St_bind smodify lift whole]. cbn [update_where fst snd].
  destruct (Nat.eqb _ 1) eqn:E; [done|]. intros _. cbn.
  rewrite (update_conflict ob_event_id _ (bind_text ev)); [apply set_same_outbox|apply W| |done].
  apply lease_held_id.
Qed.

(** All or nothing: a call of the store that throws leaves the file exactly
    as it was: a failed mutation undoes every write and every enqueued event of
    its operation, a failed claim every lease, and a version or lease conflict
    changes no row. *)
Theorem failed_call_changes_nothing c s :
  ready s -> wf (tables s) -> threw c s = true -> run_call c s = s.
Proof.
  intros [Hb Hm] W. destruct c; cbn [threw run_call]; intros Ht%negb_true_iff; revert Ht.
  - as_whole. unfold create. whole_lifts.
    cbv [mbind St_bind sget]. destruct (challenge_row _ _); [done|by intros ?].
  - by apply swap_whole.
  - by apply whole_transaction.
  - as_whole. unfold enqueue. whole_lifts.
    destruct (json_stringify _); [|done]. whole_lifts. cbv [mbind St_bind sget].
    unfold lift. by do 2 (destruct (throw_if _ _); [|done]).
  - as_whole. unfold claimOutbox. whole_lifts.
    do 2 (destruct (safe_between _ _ _); [|done]). by apply whole_transaction.
  - as_whole. unfold acknowledgeOutbox. whole_lifts.
    by apply conflict_whole.
  - as_whole. unfold releaseOutbox. whole_lifts.
    by apply conflict_whole.
  - by rewrite reopened.
Qed.

(** ** Versioned records *)

Lemma find_same {B} (p : B -> bool) l r : List.find p l = Some r -> p r = true /\ r ∈ l.
Proof. intros [Hin Hp]%find_some. by rewrite list_elem_of_In. Qed.

(** A row update that keeps what the search looks at. *)
Lemma find_map_if {B} (p q : B -> bool) g (l : list B) :
  (forall r, p (g r) = p r) ->
  List.find p (map (fun r => if q r then g r else r) l) =
    (fun r => if q r then g r else r) <$> List.find p l.
Proof.
  intros Hg. induction l as [|r l IH]; [done|]. cbn.
  assert (E : p (if q r then g r else r) = p r) by (destruct (q r); auto). rewrite E.
  by destruct (p r).
Qed.

Lemma rowToRecord_Ok row r :
  rowToRecord row = Ok r ->
  status r = column_text (ch_status row) /\ version r = ch_version row /\ Z.abs (ch_version row) <= MAX_SAFE_INTEGER.
Proof.
  unfold rowToRecord, column_int. destruct (safe_int (ch_version row)) eqn:E; [|done]. cbn.
  destruct (parse _); [|done]. intros [= <-]. split_and!; [done..|]. by apply Z.leb_le.
Qed.

Lemma unique_match (p : ChallengeRow -> bool) i s row :
  wf (tables s) -> challenge_row i s = Some row -> (forall r, p r = true -> ch_challenge_id r = bind_text i) ->
  length (List.filter p (durable_challenges (tables s))) = if p row then 1%nat else 0%nat.
Proof.
  intros W Hf Hp. destruct W as [Hnd _ _ _ _ _ _ _]. unfold challenge_row in Hf.
  induction (durable_challenges (tables s)) as [|q l IH]; [done|]. cbn in *.
  apply NoDup_cons in Hnd as [Hq Hnd].
  assert (Hnone : ch_challenge_id q = bind_text i -> List.filter p l = []).
  { intros Eq. clear -Hq Hp Eq. induction l as [|q' l IH]; [done|]. cbn in *. apply not_elem_of_cons in Hq as [Hq' Hq].
    destruct (p q') eqn:E; [|by apply IH]. apply Hp in E. congruence. }
  destruct (text_eqb _ _) eqn:Eq.
  - apply text_eqb_true in Eq. injection Hf as ->. rewrite (Hnone Eq). by destruct (p row).
  - destruct (p q) eqn:Ep; [|by apply IH]. apply Hp in Ep. rewrite Ep, text_eqb_refl in Eq. done.
Qed.

Lemma challenge_row_swap i (q : ChallengeRow -> bool) ns text at_ (s : t) :
  challenge_row i (set_tables (set_challenges (map (fun r : ChallengeRow => if q r then swap_row ns text at_ r else r)
    (durable_challenges (tables s))) (tables s)) s) =
  (fun r : ChallengeRow => if q r then swap_row ns text at_ r else r) <$> challenge_row i s.
Proof. unfold challenge_row. by apply (find_map_if _ q (swap_row ns text at_)). Qed.

Lemma swap_where_id i ev es r : swap_where i ev es r = true -> ch_challenge_id r = bind_text i.
Proof. unfold swap_where. rewrite !andb_true_iff. intros [[E _] _]. by apply text_eqb_true in E. Qed.

(** The record a swap leaves behind. *)
Definition swapped (r : VersionedRecord) (ns : jstr) (v : jsval) (at_ms : Z) : VersionedRecord :=
  {| value := v; status := ns; version := version r + 1; updatedAt := iso_string at_ms |}.

Definition swap_matches (r : VersionedRecord) (ev : jsnum) (es : jstr) : bool :=
  bool_decide (ev = NInt (version r)) && (status r =s? es).

Lemma json_of v : json_clean v -> exists text, json_stringify v = Some text.
Proof. intros Hv. pose proof (clean_text v Hv) as E. by eexists. Qed.

(** The version and status guard, on the record as it reads. *)
Lemma swap_guard i ev es s row r :
  wf (tables s) -> challenge_row i s = Some row -> rowToRecord row = Ok r -> plain es ->
  swap_where i ev es row = swap_matches r ev es.
Proof.
  intros W Hf Hr Hes. apply rowToRecord_Ok in Hr as (Est & Ev & _).
  apply find_same in Hf as [Hi Hin]. pose proof (wf_records _ W) as Hok.
  eapply Forall_forall in Hok as (Hst & _); [|exact Hin]. rewrite (column_plain _ Hst) in Est.
  unfold swap_where, swap_matches. cbn in Hi. by rewrite Hi, Ev, Est, (bind_plain es Hes).
Qed.

(** Compare-and-swap: against a stored record the swap succeeds exactly
    when the expected version is the stored one and the expected status is the
    stored one; it then reads back as the new value and status with the
    version one higher, and every other record is as before; in every other
    case the call throws and the file is unchanged. *)
Theorem compareAndSwap_spec i ev es ns v at_ms e s r :
  wf (tables s) -> get i s = Ok (Some r) -> plain es -> plain ns -> json_clean v ->
  version r < MAX_SAFE_INTEGER ->
  let '(out, s') := compareAndSwap i ev es ns v (Some (Some at_ms)) e s in
  if swap_matches r ev es
  then out = Ok (swapped r ns v at_ms) /\ get i s' = Ok (Some (swapped r ns v at_ms)) /\
       (forall j, bind_text j <> bind_text i -> get j s' = get j s)
  else out = Throw "compare-and-swap conflict" /\ s' = s.
Proof.
  intros W Hget Hes Hns Hv Hmax. unfold get in Hget.
  destruct (challenge_row i s) as [row|] eqn:Erow; [|done].
  destruct (rowToRecord row) as [r0|] eqn:Er; [injection Hget as ->|done].
  pose proof (swap_guard i ev es s row r W Erow Er Hes) as Hguard.
  pose proof (unique_match (swap_where i ev es) i s row W Erow (swap_where_id i ev es)) as Hlen.
  pose proof (swap_whole i ev es ns v (Some (Some at_ms)) e s W) as Hwhole.
  destruct (json_of v Hv) as [text Htext]. revert Hwhole. unfold compareAndSwap, whole.
  change (or_now (Some (Some at_ms)) e 0) with (Some at_ms).
  cbv [mbind St_bind lift sget smodify mret St_ret]. cbn [toISOString]. rewrite Htext. cbn [bind_json update_where]. rewrite Hlen, Hguard.
  destruct (swap_matches r ev es) eqn:Em; cbn [Nat.eqb negb throw_if is_ok fst snd];
    [intros _|intros E; by rewrite E].
  pose proof Em as [Eev%bool_decide_eq_true _]%andb_true_iff.
  pose proof (rowToRecord_Ok _ _ Er) as (_ & Ever & Hsafe).
  pose proof (wf_versions _ W) as Hnn. apply find_same in Erow as Hin. destruct Hin as [_ Hin].
  eapply Forall_forall in Hnn; [|exact Hin]. cbn in Hnn.
  assert (Enext : next_version ev = version r + 1).
  { rewrite Eev. cbn. apply num_add_exact. rewrite <-Ever in *. lia. }
  split_and!.
  - unfold swapped. by rewrite Enext.
  - unfold get. rewrite challenge_row_swap, Erow. cbn [fmap option_fmap option_map]. rewrite Hguard. unfold rowToRecord, swap_row, column_int.
    cbn [ch_version ch_record_json ch_status ch_updated_at]. unfold safe_int. rewrite <-Ever in *.
    rewrite (proj2 (Z.leb_le _ _)) by lia. cbn [mbind result_bind]. rewrite (parse_json v text Hv Htext). cbn.
    rewrite !bind_plain, !column_plain by (done || apply iso_string_plain). done.
  - intros j Hj. unfold get. rewrite challenge_row_swap.
    destruct (challenge_row j s) as [rj|] eqn:Ej; [|done]. cbn [fmap option_fmap option_map].
    destruct (swap_where i ev es rj) eqn:Esw; [|done]. apply swap_where_id in Esw.
    apply find_same in Ej as [Ej _]. apply text_eqb_true in Ej. congruence.
Qed.

(** Once a version has been swapped away, every row of the record has passed it. *)
Definition passed (i : jstr) (v : Z) (T : Tables) : Prop :=
  bind_text i ∈ map ch_challenge_id (durable_challenges T) /\
  Forall (fun r => ch_challenge_id r = bind_text i -> v < ch_version r) (durable_challenges T).

Lemma passed_step P i v c T : changes_of P c -> enabled c T -> passed i v T -> passed i v (effect c T).
Proof.
  intros _ He [Hin Hv]. destruct c; cbn [effect enabled] in *; split;
    cbn [durable_challenges set_challenges set_idempotency set_outbox];
    rewrite ?map_app, ?map_if_column by done; try done.
  - apply elem_of_app. by left.
  - apply Forall_app. split; [done|]. constructor; [|constructor]. intros E. destruct He as [He _]. by rewrite E in He.
  - apply Forall_map_if; [|done]. cbn. intros r Hr Hi. specialize (Hr Hi). lia.
Qed.

(** Optimistic concurrency: once one caller has swapped a record away from
    a version, no caller, on any connection and after any further calls, can
    swap it from that version or an earlier one. *)
Theorem version_swapped_once P i v es ns x now e r s s1 s2 v' es' ns' x' now' e' :
  ready s -> wf (tables s) -> plain ns -> json_clean x ->
  compareAndSwap i (NInt v) es ns x now e s = (Ok r, s1) ->
  history P s1 s2 -> v' <= v ->
  is_ok (compareAndSwap i (NInt v') es' ns' x' now' e' s2).1 = false.
Proof.
  intros Hready W Hns Hx Hswap Hh Hle.
  assert (Hready1 : ready s1).
  { pose proof (call_steps (CallSwap i (NInt v) es ns x now e) s (conj Hns Hx) Hready) as [_ Hr].
    cbn [run_call] in Hr. by rewrite Hswap in Hr. }
  assert (Hpassed : passed i v (tables s1)).
  { revert Hswap. unfold compareAndSwap. intros (at_ & ? & [_ ->]%lift_inv & Hc)%bind_Ok_inv.
    apply bind_Ok_inv in Hc as (text & ? & [_ ->]%lift_inv & Hc).
    revert Hc. cbv [mbind St_bind lift sget smodify mret St_ret]. cbn [update_where].
    destruct (length _ =? 1)%nat eqn:E1; [|done]. intros [= _ <-]. apply Nat.eqb_eq in E1.
    destruct (List.filter _ _) as [|row l] eqn:Ef; [done|].
    assert (Hrow : In row (List.filter (swap_where i (NInt v) es) (durable_challenges (tables s)))) by (rewrite Ef; by left).
    apply filter_In in Hrow as [Hrow%list_elem_of_In Hsw]. pose proof (swap_where_id _ _ _ _ Hsw) as Hid.
    unfold passed. cbn [tables set_tables durable_challenges set_challenges]. rewrite map_if_column by done. split.
    - rewrite <-Hid. by apply list_elem_of_fmap_2.
    - apply Forall_map, Forall_forall. intros q Hq. cbn. destruct (swap_where i (NInt v) es q) eqn:Eq.
      + unfold swap_where in Eq. rewrite !andb_true_iff in Eq. destruct Eq as [[_ [= ->]%bool_decide_eq_true] _]. cbn. lia.
      + intros Eid. assert (q = row) as -> by (apply (key_unique ch_challenge_id (durable_challenges (tables s))); [apply W|done..|congruence]).
        congruence. }
  destruct (history_steps P s1 s2 Hh Hready1) as [Hs _].
  apply (steps_keep (passed i v)) in Hs as [_ Hv]; [|by apply passed_step|done].
  unfold compareAndSwap. destruct (toISOString _); [|done]. destruct (bind_json _); [|done].
  cbv [mbind St_bind lift sget smodify mret St_ret]. cbn [update_where].
  assert (En : List.filter (swap_where i (NInt v') es') (durable_challenges (tables s2)) = []).
  { clear -Hv Hle. induction Hv as [|q l Hq _ IH]; [done|]. cbn. destruct (swap_where _ _ _ q) eqn:Eq; [|done].
    pose proof (swap_where_id _ _ _ _ Eq) as Hi. unfold swap_where in Eq. rewrite !andb_true_iff in Eq.
    destruct Eq as [[_ [= ->]%bool_decide_eq_true] _]. specialize (Hq Hi). lia. }
  by rewrite En.
Qed.

(** ** Idempotent mutations *)

Lemma find_snoc {B} (p : B -> bool) l x :
  List.find p (l ++ [x]) = match List.find p l with Some r => Some r | None => if p x then Some x else None end.
Proof. induction l as [|r l IH]; [done|]. cbn. by destruct (p r). Qed.

(** An answer recorded for a scope and key. *)
Definition answered (scope key hash : jstr) (v : jsval) (row : IdempotencyRow) (T : Tables) : Prop :=
  List.find (fun r => text_eqb (id_scope r) (bind_text scope) && text_eqb (id_idempotency_key r) (bind_text key))
    (idempotency_records T) = Some row /\
  column_text (id_request_hash row) = hash /\ parse (id_response_json row) = Ok v.

Lemma answered_step P sc k h v row c T :
  changes_of P c -> enabled c T -> answered sc k h v row T -> answered sc k h v row (effect c T).
Proof.
  intros _ _ (Hf & Hh & Hv). split_and!; [|done..].
  destruct c; cbn [effect idempotency_records set_challenges set_idempotency set_outbox]; try done.
  rewrite find_snoc. by rewrite Hf.
Qed.

Lemma run_answers sc k h op now e v s s1 :
  inTransaction s = false -> plain h -> json_clean v ->
  runIdempotent sc k h op now e s = (Ok (false, v), s1) -> exists row, answered sc k h v row (tables s1).
Proof.
  intros Hb Hh Hv. unfold runIdempotent, transaction. rewrite Hb.
  set (s0 := set_inTransaction true s). cbv [mbind St_bind]. unfold sget at 1.
  destruct (prior_response sc k s0) as [prior|] eqn:Ep.
  { unfold lift. destruct (throw_if _ _); [|done]. by destruct (parse _). }
  pose proof (runTx_answers (idempotency_records (tables s0)) op s0 eq_refl) as Hl.
  destruct (runTx op s0) as [[x|err] s2]; [|done]. unfold lift.
  destruct (toISOString _) as [at_|]; [|done]. destruct (json_stringify x) as [text|] eqn:Et; [|done].
  unfold smodify, mret, St_ret. cbn [bind_json]. intros [= -> <-].
  eexists. split_and!; cbn [tables set_inTransaction set_tables set_idempotency idempotency_records].
  - rewrite find_snoc, (Hl : idempotency_records (tables s2) = _). unfold prior_response in Ep. rewrite Ep.
    cbn [id_scope id_idempotency_key]. by rewrite !text_eqb_refl.
  - cbn. by rewrite bind_plain, column_plain.
  - cbn. by apply parse_json.
Qed.

Lemma answered_run sc k h v row op now e s :
  inTransaction s = false -> answered sc k h v row (tables s) ->
  forall h', runIdempotent sc k h' op now e s =
    (if h' =s? h then Ok (true, v) else Throw REQUEST_REUSED, s).
Proof.
  intros Hb (Hf & Hh & Hv) h'. unfold runIdempotent, transaction. rewrite Hb.
  assert (Es : set_inTransaction false (set_inTransaction true s) = s) by (destruct s; cbn in *; by subst).
  cbv [mbind St_bind]. unfold sget. unfold prior_response.
  change (tables (set_inTransaction true s)) with (tables s). rewrite Hf, Hh. unfold lift, jeqb.
  destruct (decide (h' = h)) as [->|Hne].
  - rewrite !bool_decide_true by done. cbn [negb throw_if]. rewrite Hv. unfold mret, St_ret. by rewrite Es.
  - by rewrite !bool_decide_false by done.
Qed.

(** C35: Exactly once: once an operation has committed under a scope and key, with a
    request hash of printable ASCII and an answer that JSON keeps as it is, every
    later call under them, whatever operation it carries, on any connection and
    after any further calls, runs nothing and changes nothing: it repeats the
    recorded answer when it presents the same request hash, and throws for any
    other hash. *)
Theorem idempotent_exactly_once P sc k h op now e v s s1 s2 :
  ready s -> good_tx op -> plain h -> json_clean v ->
  runIdempotent sc k h op now e s = (Ok (false, v), s1) -> history P s1 s2 ->
  (forall op' now' e', runIdempotent sc k h op' now' e' s2 = (Ok (true, v), s2)) /\
  (forall h' op' now' e', h' <> h -> runIdempotent sc k h' op' now' e' s2 = (Throw REQUEST_REUSED, s2)) /\
  getIdempotent sc k h s2 = Ok (Some v).
Proof.
  intros Hready Hg Hh Hv Hrun Hhist.
  assert (Hready1 : ready s1).
  { pose proof (call_steps (CallRun sc k h op now e) s Hg Hready) as [_ Hr]. cbn [run_call] in Hr. by rewrite Hrun in Hr. }
  apply run_answers in Hrun as [row Hrow]; [|apply Hready|done..].
  destruct (history_steps P s1 s2 Hhist Hready1) as [Hs [Hb _]].
  apply (steps_keep (answered sc k h v row)) in Hs; [|by apply answered_step|done].
  split_and!.
  - intros op' now' e'. rewrite (answered_run _ _ _ _ _ _ _ _ _ Hb Hs). by rewrite (jeqb_of_eq h h).
  - intros h' op' now' e' Hne. rewrite (answered_run _ _ _ _ _ _ _ _ _ Hb Hs).
    by rewrite (proj2 (jeqb_false h' h)).
  - destruct Hs as (Hf & Hh' & Hv'). unfold getIdempotent, prior_response.
    rewrite Hf, Hh', Hv'. by rewrite (jeqb_of_eq h h).
Qed.

(** Restart: a file this code created, after any calls, is reopened as it
    was left: the migration is not run again and no row is lost, and its
    tables satisfy their constraints with every row readable. *)
Theorem reopening_keeps_everything P e s s' e' :
  constructor e {| f_migrations := []; f_tables := None |} = Ok s -> history P s s' ->
  constructor e' (close s') = Ok s' /\ schemaVersion s' = 1 /\ wf (tables s').
Proof.
  intros Ho Hh. pose proof (opened_fresh e s Ho) as [Hr Ht].
  assert (Hm : schema_migrations s' = schema_migrations s /\ ready s').
  { clear Ho Ht. induction Hh as [s|c s s' _ Hg _ IH]; [done|].
    destruct (call_steps c s Hg Hr) as [_ Hr1]. destruct (IH Hr1) as [-> Hr']. split; [|done].
    by apply call_migrations. }
  destruct Hm as [Hm Hr']. split_and!.
  - rewrite reopened by apply Hr'. destruct Hr' as [Hb _]. destruct s'; cbn in *; by subst.
  - unfold schemaVersion. rewrite Hm. clear -Ho. revert Ho.
    unfold constructor, migrate, MIGRATIONS. cbn [sfor]. cbv [mbind St_bind]. unfold migrate1.
    cbv [mbind St_bind sget lift mret St_ret smodify]. cbn. destruct (env_clock e 0); cbn; [|done]. by intros [= <-].
  - apply (history_wf P s s' Hh Hr). rewrite Ht. apply wf_empty.
Qed.
End records.
