(* ===== verification/DurableOutbox.v ===== *)
(** DurableOutbox: what the outbox promises: a claim takes the oldest
    claimable events, a lease excludes every other worker until it lapses, a
    delivered event is never handed out again. *)
From stdpp Require Import relations sorting.
From S2P Require Import Prelude JsString JsMap Host TestHost JsTime IsoOrder JsJson JsParse.
From S2P Require Import DurableStore DurableSteps DurableRecords.
Import DurableStore.
#[local] Open Scope string_scope.
#[local] Open Scope list_scope.
#[local] Open Scope Z_scope.
#[local] Open Scope js_scope.

(** ** The order of the query *)

Lemma row_le_total a b : row_le a b = true \/ row_le b a = true.
Proof.
  unfold row_le. destruct (text_eqb (ob_created_at a) (ob_created_at b)) eqn:E.
  - apply text_eqb_true in E as ->. rewrite text_eqb_refl.
    destruct (jstr_le (ob_event_id a) (ob_event_id b)) eqn:El; [by left|right; by apply jstr_le_total].
  - assert (E' : text_eqb (ob_created_at b) (ob_created_at a) = false).
    { apply bool_decide_eq_false. apply bool_decide_eq_false in E. congruence. }
    rewrite E'. destruct (jstr_le (ob_created_at a) (ob_created_at b)) eqn:El; [by left|right; by apply jstr_le_total].
Qed.

Lemma row_le_trans a b c : row_le a b = true -> row_le b c = true -> row_le a c = true.
Proof.
  unfold row_le. destruct (text_eqb (ob_created_at a) (ob_created_at b)) eqn:Eab.
  - apply text_eqb_true in Eab as ->. destruct (text_eqb _ _); [apply jstr_le_trans|done].
  - destruct (text_eqb (ob_created_at b) (ob_created_at c)) eqn:Ebc.
    + apply text_eqb_true in Ebc as <-. by rewrite Eab.
    + intros H1 H2. destruct (text_eqb (ob_created_at a) (ob_created_at c)) eqn:Eac.
      * apply text_eqb_true in Eac. rewrite <-Eac in H2. apply bool_decide_eq_false in Eab.
        destruct Eab. by apply jstr_le_antisym.
      * by eapply jstr_le_trans.
Qed.

Lemma insert_row_perm r l : insert_row r l ≡ₚ r :: l.
Proof.
  induction l as [|q l IH]; [done|]. cbn. destruct (row_le r q); [done|]. rewrite IH. apply Permutation_swap.
Qed.

Lemma sort_rows_perm l : sort_rows l ≡ₚ l.
Proof. induction l as [|r l IH]; [done|]. cbn. by rewrite insert_row_perm, IH. Qed.

Lemma insert_row_sorted r l :
  StronglySorted (fun a b => row_le a b = true) l -> StronglySorted (fun a b => row_le a b = true) (insert_row r l).
Proof.
  induction 1 as [|q l Hl IH Hq]; [by repeat constructor|]. cbn. destruct (row_le r q) eqn:E.
  - repeat constructor; try done. eapply Forall_impl; [exact Hq|]. intros x Hx. by apply (row_le_trans r q x).
  - constructor; [done|]. rewrite insert_row_perm. constructor; [|done].
    by destruct (row_le_total r q) as [?|?]; [congruence|].
Qed.

Lemma sort_rows_sorted l : StronglySorted (fun a b => row_le a b = true) (sort_rows l).
Proof. induction l as [|r l IH]; [constructor|]. by apply insert_row_sorted. Qed.

(** A row that at most [n] rows precede, itself included, is among the first [n]. *)
Lemma sorted_take n r l :
  StronglySorted (fun a b => row_le a b = true) l -> r ∈ l ->
  (length (List.filter (fun q => row_le q r) l) <= n)%nat -> r ∈ take n l.
Proof.
  intros Hl. revert n. induction Hl as [|q l Hl IH Hq]; intros n Hr Hn; [by apply elem_of_nil in Hr|].
  apply elem_of_cons in Hr as [->|Hr].
  - cbn in Hn. assert (E : row_le q q = true) by (by destruct (row_le_total q q)). rewrite E in Hn.
    destruct n; [cbn in Hn; lia|apply list_elem_of_here].
  - assert (E : row_le q r = true) by (by eapply (proj1 (Forall_forall _ _)) in Hq).
    cbn in Hn. rewrite E in Hn. destruct n; [cbn in Hn; lia|]. cbn. apply list_elem_of_further, IH; [done|].
    cbn in Hn. lia.
Qed.

Lemma filter_length_perm {B} (p : B -> bool) l k : l ≡ₚ k -> length (List.filter p l) = length (List.filter p k).
Proof.
  induction 1 as [|x l k _ IH|x y l|l k m _ IH1 _ IH2]; cbn; [done| | |congruence].
  - destruct (p x); cbn; congruence.
  - by destruct (p x), (p y).
Qed.

Lemma filter_filter_and {B} (p q : B -> bool) l :
  List.filter q (List.filter p l) = List.filter (fun x => p x && q x) l.
Proof. induction l as [|x l IH]; [done|]. cbn. destruct (p x); cbn; [destruct (q x)|]; congruence. Qed.

Lemma Forall2_left {B C} (R : B -> C -> Prop) l k x : Forall2 R l k -> x ∈ l -> exists y, y ∈ k /\ R x y.
Proof.
  induction 1 as [|a b l k Hab _ IH]; [by intros ?%elem_of_nil|]. intros [->|Hx]%elem_of_cons.
  - exists b. split; [apply list_elem_of_here|done].
  - destruct (IH Hx) as (y & Hy & Hxy). exists y. split; [by apply list_elem_of_further|done].
Qed.

Lemma Forall2_right {B C} (R : B -> C -> Prop) l k y : Forall2 R l k -> y ∈ k -> exists x, x ∈ l /\ R x y.
Proof. intros Hl Hy. apply Forall2_flip in Hl. by destruct (Forall2_left _ _ _ _ Hl Hy) as (x & ? & ?); exists x. Qed.

Section outbox.
Context `{Host, Sqlite, !SqliteLaws _}.

(** ** The loop of a claim *)

Definition leases_left (T : Tables) : Prop := Forall (fun r => ob_attempts r < MAX_SAFE_INTEGER) (outbox_events T).

(** The rows with the given identifiers, leased. *)
Definition leased_rows (w u : jstr) (ids : list (list N)) (rows : list OutboxRow) : list OutboxRow :=
  map (fun r => if bool_decide (ob_event_id r ∈ ids) then claim_row w u r else r) rows.

Lemma readable r : event_ok r -> 0 <= ob_attempts r <= MAX_SAFE_INTEGER -> exists ev, rowToEvent r = Ok ev /\ eventId ev = ob_event_id r.
Proof.
  intros [Hid Hp] Ha. unfold rowToEvent, column_int, safe_int. rewrite (proj2 (Z.leb_le _ _)) by lia.
  cbn. destruct (parse _) as [v|]; [|done]. cbn. eexists. split; [done|]. by apply column_plain.
Qed.

Lemma find_key (l : list OutboxRow) r :
  NoDup (map ob_event_id l) -> r ∈ l -> List.find (fun q => text_eqb (ob_event_id q) (ob_event_id r)) l = Some r.
Proof.
  intros Hnd Hr. destruct (List.find _ l) as [q|] eqn:E.
  - apply find_same in E as [Eq%text_eqb_true Hq]. f_equal. by apply (key_unique ob_event_id l).
  - apply list_elem_of_In in Hr. pose proof (find_none _ _ E r Hr) as Hn. cbn in Hn. by rewrite text_eqb_refl in Hn.
Qed.

Lemma claim_once w u n r rows :
  NoDup (map ob_event_id rows) -> r ∈ rows -> claim_where n (ob_event_id r) r = true ->
  map (fun q => if claim_where n (ob_event_id r) q then claim_row w u q else q) rows =
    leased_rows w u [ob_event_id r] rows /\
  length (List.filter (claim_where n (ob_event_id r)) rows) = 1%nat.
Proof.
  intros Hnd Hr Hc. split.
  - apply map_ext_in. intros q Hq%list_elem_of_In. destruct (claim_where n (ob_event_id r) q) eqn:E.
    + unfold claim_where in E. rewrite !andb_true_iff in E. destruct E as [[E%text_eqb_true _] _].
      rewrite bool_decide_true; [done|]. by apply list_elem_of_singleton.
    + rewrite bool_decide_false; [done|]. intros E'%list_elem_of_singleton.
      assert (q = r) as -> by (by apply (key_unique ob_event_id rows)). congruence.
  - pose proof (filter_key_unique ob_event_id (claim_where n (ob_event_id r)) (ob_event_id r) rows Hnd) as Hl.
    specialize (Hl ltac:(intros q Eq; unfold claim_where in Eq; rewrite !andb_true_iff in Eq;
      destruct Eq as [[Eq%text_eqb_true _] _]; exact Eq)).
    assert (Hin : In r (List.filter (claim_where n (ob_event_id r)) rows))
      by (apply filter_In; split; [by apply list_elem_of_In|done]).
    destruct (List.filter _ rows) as [|q [|? ?]]; cbn in *; [done|done|lia].
Qed.

Lemma leased_ids w u ids rows : map ob_event_id (leased_rows w u ids rows) = map ob_event_id rows.
Proof. unfold leased_rows. rewrite map_map. apply map_ext. intros r. by destruct (bool_decide _). Qed.

Lemma leased_cons w u i ids rows :
  (i ∉ ids) -> leased_rows w u ids (leased_rows w u [i] rows) = leased_rows w u (i :: ids) rows.
Proof.
  intros Hi. unfold leased_rows. rewrite map_map. apply map_ext. intros r.
  destruct (decide (ob_event_id r = i)) as [E|E].
  - rewrite (bool_decide_true (ob_event_id r ∈ [i])) by (by apply list_elem_of_singleton).
    change (ob_event_id (claim_row w u r)) with (ob_event_id r).
    rewrite bool_decide_false by (by rewrite E). rewrite bool_decide_true; [done|]. rewrite E. apply list_elem_of_here.
  - rewrite (bool_decide_false (ob_event_id r ∈ [i])) by (by rewrite list_elem_of_singleton).
    destruct (decide (ob_event_id r ∈ ids)) as [Hd|Hd].
    + rewrite !bool_decide_true; [done| |done]. by apply list_elem_of_further.
    + rewrite !bool_decide_false; [done| |done]. by intros [?|?]%elem_of_cons.
Qed.

(** The loop leases every selected row, whatever the update re-checks. *)
Lemma claim_rows_spec w u n rows s :
  NoDup (map ob_event_id (outbox_events (tables s))) -> NoDup (map ob_event_id rows) ->
  Forall (fun r => r ∈ outbox_events (tables s) /\ claim_where n (ob_event_id r) r = true /\ event_ok r /\
    0 <= ob_attempts r < MAX_SAFE_INTEGER) rows ->
  exists evs, claim_rows w u n (map ob_event_id rows) s =
    (Ok evs, set_tables (set_outbox (leased_rows w u (map ob_event_id rows) (outbox_events (tables s))) (tables s)) s) /\
    Forall2 (fun r ev => rowToEvent (claim_row w u r) = Ok ev /\ eventId ev = ob_event_id r) rows evs.
Proof.
  revert s. induction rows as [|r rows IH]; intros s Hnd Hndr Hrows.
  { exists []. split; [|constructor]. cbn. unfold mret, St_ret. do 2 f_equal.
    assert (E : leased_rows w u [] (outbox_events (tables s)) = outbox_events (tables s))
      by (etrans; [|apply map_id]; apply map_ext; done).
    by rewrite E, set_same_outbox. }
  cbn [map] in *. apply NoDup_cons in Hndr as [Hr Hndr]. apply Forall_cons in Hrows as [(Hin & Hc & Hok & Ha) Hrows].
  destruct (claim_once w u n r _ Hnd Hin Hc) as [Eupd Elen].
  destruct (readable (claim_row w u r)) as (ev & Eev & Eid); [done|cbn; lia|].
  set (s1 := set_tables (set_outbox (leased_rows w u [ob_event_id r] (outbox_events (tables s))) (tables s)) s).
  destruct (IH s1) as (evs & Erun & Hevs).
  { cbn. by rewrite leased_ids. } { done. }
  { apply Forall_forall. intros q Hq. eapply Forall_forall in Hrows as (Hqin & Hqc & Hqok & Hqa); [|exact Hq].
    split_and!; [|done|done|lia..]. cbn. apply list_elem_of_fmap. exists q. split; [|done].
    rewrite bool_decide_false; [done|]. intros E%list_elem_of_singleton. apply Hr. rewrite <-E. by apply list_elem_of_fmap_2. }
  exists (ev :: evs). split; [|by constructor].
  cbn [claim_rows]. cbv [mbind St_bind]. unfold sget. cbn [update_where].
  unfold claim_where in Eupd, Elen. rewrite Eupd, Elen. unfold smodify. cbn [Nat.eqb negb]. fold s1.
  assert (Efind : outbox_row (ob_event_id r) s1 = Some (claim_row w u r)).
  { unfold outbox_row, s1. cbn [tables set_tables outbox_events set_outbox].
    apply (find_key (leased_rows w u [ob_event_id r] (outbox_events (tables s))) (claim_row w u r)); [by rewrite leased_ids|].
    apply list_elem_of_fmap. exists r. split; [|done]. rewrite bool_decide_true; [done|]. by apply list_elem_of_singleton. }
  rewrite Efind. unfold lift. rewrite Eev, Erun. unfold mret, St_ret, s1.
  cbn [tables set_tables outbox_events set_outbox]. by rewrite leased_cons.
Qed.

(** ** What a claim takes *)

(** The rows the query selects. *)
Definition selection (limit : Z) (nowIso : jstr) (T : Tables) : list OutboxRow :=
  take (Z.to_nat limit) (sort_rows (List.filter (claimable nowIso) (outbox_events T))).

Lemma selection_in limit n T r :
  r ∈ selection limit n T -> r ∈ outbox_events T /\ claimable n r = true.
Proof.
  unfold selection. intros Hr. apply elem_of_take in Hr as (k & Hk & _). apply list_elem_of_lookup_2 in Hk.
  rewrite sort_rows_perm in Hk. apply list_elem_of_In, filter_In in Hk as [Hin Hc]. by apply list_elem_of_In in Hin.
Qed.

Lemma selection_nodup limit n T : NoDup (map ob_event_id (outbox_events T)) -> NoDup (map ob_event_id (selection limit n T)).
Proof.
  intros Hnd. unfold selection. rewrite <-firstn_map.
  assert (Hs : NoDup (map ob_event_id (sort_rows (List.filter (claimable n) (outbox_events T))))).
  { rewrite sort_rows_perm. clear limit. induction (outbox_events T) as [|r l IH]; [constructor|].
    cbn in *. apply NoDup_cons in Hnd as [Hr Hnd]. destruct (claimable n r); [|by apply IH].
    cbn. constructor; [|by apply IH]. intros Hr'. apply Hr. apply list_elem_of_fmap in Hr' as (q & Eq & Hq).
    apply list_elem_of_In, filter_In in Hq as [Hq _]. rewrite Eq. by apply list_elem_of_fmap_2, list_elem_of_In. }
  rewrite <-(take_drop (Z.to_nat limit)) in Hs. by apply NoDup_app in Hs as [? _].
Qed.

Lemma claim_spec w limit ms at_ms e s :
  ready s -> wf (tables s) -> leases_left (tables s) ->
  is_ok (assertBoundedOutboxIdentifier w "worker id" OUTBOX_LIMITS_workerId) = true -> 1 <= limit <= 1000 -> 1000 <= ms ->
  Z.abs (at_ms + ms) <= MAX_TIME -> Z.abs ms <= MAX_SAFE_INTEGER ->
  exists evs s', claimOutbox w (NInt limit) (NInt ms) (Some (Some at_ms)) e s = (Ok evs, s') /\
    tables s' = set_outbox (leased_rows w (iso_string (at_ms + ms))
      (map ob_event_id (selection limit (iso_string at_ms) (tables s))) (outbox_events (tables s))) (tables s) /\
    Forall2 (fun r ev => rowToEvent (claim_row w (iso_string (at_ms + ms)) r) = Ok ev /\ eventId ev = ob_event_id r)
      (selection limit (iso_string at_ms) (tables s)) evs.
Proof.
  intros [Hb _] W Hl Hw Hlim Hms Hend Hsafe. unfold claimOutbox. cbv [mbind St_bind].
  destruct (assertBoundedOutboxIdentifier _ _ _) as [[]|]; [|done]. unfold lift at 1.
  change (or_now (Some (Some at_ms)) e 0) with (Some at_ms). cbn [assertValidDate]. unfold lift at 1.
  rewrite (proj2 (safe_between_Some (NInt limit) 1 1000 limit)) by (unfold MAX_SAFE_INTEGER; split_and!; done || lia).
  rewrite (proj2 (safe_between_Some (NInt ms) 1000 MAX_SAFE_INTEGER ms)) by (split_and!; done || lia).
  unfold transaction. rewrite Hb. unfold num_add. rewrite round53_small by (unfold MAX_TIME in Hend; lia).
  unfold new_date. rewrite (proj2 (Z.leb_le _ _)) by done. cbn [toISOString]. unfold lift, sget.
  set (s0 := set_inTransaction true s). change (tables s0) with (tables s).
  rewrite (bind_plain (iso_string at_ms)) by apply iso_string_plain.
  destruct (claim_rows_spec w (iso_string (at_ms + ms)) (iso_string at_ms) (selection limit (iso_string at_ms) (tables s)) s0)
    as (evs & Erun & Hevs); [apply W|by apply selection_nodup, W| |].
  - apply Forall_forall. intros r Hr. apply selection_in in Hr as [Hin Hc]. split_and!; [done| | | |].
    + unfold claimable in Hc. unfold claim_where. rewrite !andb_true_iff in *. destruct Hc as [[Hu _] Ho].
      rewrite text_eqb_refl, (bind_plain (iso_string at_ms)) by apply iso_string_plain. done.
    + pose proof (wf_readable _ W) as Hok. by eapply Forall_forall in Hok.
    + pose proof (wf_attempts _ W) as Hok. by eapply Forall_forall in Hok.
    + unfold leases_left in Hl. by eapply Forall_forall in Hl.
  - unfold selection in Erun at 1. rewrite Erun. eexists _, _. split; [done|]. split; [done|exact Hevs].
Qed.

(** C36: A claim takes the oldest claimable events: it returns at most the
    requested number, each undelivered, due and free of a live lease before
    the call; and every claimable event with fewer than that many older
    claimable events is among them, so that an event whose worker died is
    handed out again once its lease has lapsed. *)
Theorem claim_takes_oldest w limit ms at_ms e s :
  ready s -> wf (tables s) -> leases_left (tables s) ->
  is_ok (assertBoundedOutboxIdentifier w "worker id" OUTBOX_LIMITS_workerId) = true -> 1 <= limit <= 1000 -> 1000 <= ms ->
  Z.abs (at_ms + ms) <= MAX_TIME -> Z.abs ms <= MAX_SAFE_INTEGER ->
  exists evs s', claimOutbox w (NInt limit) (NInt ms) (Some (Some at_ms)) e s = (Ok evs, s') /\
    Z.of_nat (length evs) <= limit /\
    Forall (fun ev => exists r, r ∈ outbox_events (tables s) /\ claimable (iso_string at_ms) r = true /\
      eventId ev = ob_event_id r /\ attempts ev = ob_attempts r + 1) evs /\
    (forall r, r ∈ outbox_events (tables s) -> claimable (iso_string at_ms) r = true ->
      Z.of_nat (length (List.filter (fun q => claimable (iso_string at_ms) q && row_le q r) (outbox_events (tables s)))) <= limit ->
      ob_event_id r ∈ map eventId evs).
Proof.
  intros Hr W Hl Hw Hlim Hms Hend Hsafe.
  destruct (claim_spec w limit ms at_ms e s) as (evs & s' & E & _ & Hevs); try done. exists evs, s'. split; [done|].
  split_and!.
  - apply Forall2_length in Hevs. rewrite <-Hevs. unfold selection. rewrite length_take. lia.
  - apply Forall_forall. intros ev Hev. apply (Forall2_right _ _ _ _ Hevs) in Hev as (r & Hr' & Eev & Eid).
    apply selection_in in Hr' as [Hin Hc]. exists r. split_and!; try done.
    revert Eev. unfold rowToEvent, column_int. destruct (safe_int _); [|done]. cbn. destruct (parse _); [|done]. by intros [= <-].
  - intros r Hin Hc Hn.
    assert (Hsel : r ∈ selection limit (iso_string at_ms) (tables s)).
    { apply sorted_take; [apply sort_rows_sorted| |].
      - rewrite sort_rows_perm. apply list_elem_of_In, filter_In. split; [by apply list_elem_of_In|done].
      - etrans; [|apply Z2Nat.inj_le in Hn; [exact Hn|lia..]]. rewrite Nat2Z.id. apply Nat.eq_le_incl.
        rewrite (filter_length_perm (fun q => row_le q r) _ _ (sort_rows_perm _)). by rewrite filter_filter_and. }
    apply (Forall2_left _ _ _ _ Hevs) in Hsel as (ev & Hev & _ & <-). by apply list_elem_of_fmap_2.
Qed.

(** ** Leases *)

(** The event [ev] is under lease to [w] until [u] and not delivered. *)
Definition leased (ev : list N) (w : jstr) (u : Z) (T : Tables) : Prop :=
  NoDup (map ob_event_id (outbox_events T)) /\
  exists r, r ∈ outbox_events T /\ ob_event_id r = ev /\ ob_claimed_by r = Some (bind_text w) /\
    ob_claimed_until r = Some (iso_string u) /\ ob_delivered_at r = None.

(** The calls that respect a lease of [w] on [ev] until [u]: claims are made
    before [u], and it is not [w] who settles the event. *)
Definition respects (ev : list N) (w : jstr) (u : Z) (c : call) : Prop :=
  match c with
  | CallClaim _ _ _ now e => forall at_ms, or_now now e 0 = Some at_ms -> four_digit at_ms /\ at_ms < u
  | CallAcknowledge ev' w' _ _ | CallRelease ev' w' _ _ _ => ~ (bind_text ev' = ev /\ bind_text w' = bind_text w)
  | _ => True
  end.

(** An update that passes over the row of a lease keeps it. *)
Lemma leased_update ev w u (p : OutboxRow -> bool) g T :
  (forall r, ob_event_id (g r) = ob_event_id r) ->
  (forall r, ob_event_id r = ev -> ob_claimed_by r = Some (bind_text w) -> ob_claimed_until r = Some (iso_string u) -> p r = false) ->
  leased ev w u T -> leased ev w u (set_outbox (map (fun r => if p r then g r else r) (outbox_events T)) T).
Proof.
  intros Hg Hp (Hnd & r & Hr & Hid & Hw & Hu & Hd). split; cbn [outbox_events set_outbox].
  - by rewrite map_if_column.
  - exists r. split_and!; try done. apply list_elem_of_fmap. exists r. split; [|done]. by rewrite Hp.
Qed.

Lemma leased_step ev w u c T :
  four_digit u -> changes_of (respects ev w u) c -> enabled c T -> leased ev w u T -> leased ev w u (effect c T).
Proof.
  intros Hu (cl & HP & Hc) He HL.
  destruct c as [| | |row|w' u' n ev'|ev' w' n|ev' w' n retry]; cbn [effect enabled change_of] in *; try done.
  - destruct HL as (Hnd & r & Hr & Hl). split; cbn [outbox_events set_outbox].
    + rewrite map_app. apply NoDup_snoc; [done|apply He].
    + exists r. split; [apply elem_of_app; by left|done].
  - apply leased_update; [done| |done]. intros r Hid Hw Hru. destruct cl; try done.
    destruct Hc as (_ & at_ms & ms & Hat & _ & _ & -> & _). destruct (HP at_ms Hat) as [Hf Hlt].
    unfold claim_where, lease_over. rewrite Hru, (bind_plain (iso_string at_ms)) by apply iso_string_plain.
    rewrite iso_string_le, (proj2 (Z.leb_gt _ _)), andb_false_r by (done || lia). done.
  - apply leased_update; [done| |done]. intros r Hid Hw _. destruct cl; try done. destruct Hc as (-> & -> & _).
    apply not_true_is_false. unfold lease_held. rewrite !andb_true_iff. intros [[[E%text_eqb_true Ew%bool_decide_eq_true] _] _].
    apply HP. split; congruence.
  - apply leased_update; [done| |done]. intros r Hid Hw _. destruct cl; try done. destruct Hc as (-> & -> & _).
    apply not_true_is_false. unfold lease_held. rewrite !andb_true_iff. intros [[[E%text_eqb_true Ew%bool_decide_eq_true] _] _].
    apply HP. split; congruence.
Qed.

(** A claim leases what it returns. *)
Lemma claim_leases w limit ms at_ms e s evs s1 ev :
  ready s -> wf (tables s) -> leases_left (tables s) ->
  claimOutbox w (NInt limit) (NInt ms) (Some (Some at_ms)) e s = (Ok evs, s1) -> four_digit (at_ms + ms) ->
  ev ∈ evs -> ready s1 /\ leased (eventId ev) w (at_ms + ms) (tables s1) /\ plain (eventId ev).
Proof.
  intros Hr W Hl Hclaim Hu Hev.
  assert (Hargs : is_ok (assertBoundedOutboxIdentifier w "worker id" OUTBOX_LIMITS_workerId) = true /\
    1 <= limit <= 1000 /\ 1000 <= ms /\ Z.abs ms <= MAX_SAFE_INTEGER).
  { revert Hclaim. unfold claimOutbox. intros (? & ? & [Hw _]%lift_inv & Hc)%bind_Ok_inv.
    apply bind_Ok_inv in Hc as (? & ? & _ & Hc). rewrite Hw.
    destruct (safe_between (NInt limit) _ _) as [l|] eqn:El; [|done].
    destruct (safe_between (NInt ms) _ _) as [m|] eqn:Em; [|done].
    apply safe_between_Some in El as ([= ->] & _ & ?). apply safe_between_Some in Em as ([= ->] & ? & ?). split_and!; done || lia. }
  destruct Hargs as (Hw & Hlim & Hms & Hsafe).
  destruct (claim_spec w limit ms at_ms e s Hr W Hl Hw Hlim Hms (four_digit_valid _ Hu) Hsafe) as (evs' & s' & E & HT & Hevs).
  rewrite E in Hclaim. injection Hclaim as -> ->. split.
  { pose proof (call_steps (CallClaim w (NInt limit) (NInt ms) (Some (Some at_ms)) e) s I Hr) as [_ Hr'].
    cbn [run_call] in Hr'. by rewrite E in Hr'. }
  destruct (Forall2_right _ _ _ _ Hevs Hev) as (r & Hsel & _ & Hid). pose proof (selection_in _ _ _ _ Hsel) as [Hin Hc].
  split; [|rewrite Hid; pose proof (wf_readable _ W) as Hok; eapply Forall_forall in Hok; [apply Hok|done]].
  rewrite HT, Hid. split; cbn [outbox_events set_outbox].
  - rewrite leased_ids. apply W.
  - exists (claim_row w (iso_string (at_ms + ms)) r). split.
    + apply list_elem_of_fmap. exists r. split; [|done]. rewrite bool_decide_true; [done|]. by apply list_elem_of_fmap_2.
    + split_and!; [done|done|change (Some (bind_text (iso_string (at_ms + ms))) = Some (iso_string (at_ms + ms)));
        by rewrite (bind_plain _ (iso_string_plain _))|change (ob_delivered_at r = None)].
      unfold claimable, undelivered in Hc. rewrite !andb_true_iff in Hc. by destruct Hc as [[E' _] _]; apply bool_decide_eq_true in E'.
Qed.

(** Every row of the leased event is the leased row. *)
Lemma leased_row ev w u T r :
  leased ev w u T -> r ∈ outbox_events T -> ob_event_id r = ev ->
  ob_claimed_by r = Some (bind_text w) /\ ob_claimed_until r = Some (iso_string u) /\ ob_delivered_at r = None.
Proof.
  intros (Hnd & r0 & Hr0 & Hid0 & Hl) Hr Hid.
  assert (r = r0) as -> by (apply (key_unique ob_event_id (outbox_events T)); [done..|congruence]). done.
Qed.

(** The event holds what the store reads of a row: its identifier, key and
    aggregate, and its payload. *)
Definition reads (r : OutboxRow) (ev : OutboxEvent) : Prop :=
  eventId ev = column_text (ob_event_id r) /\ eventKey ev = column_text (ob_event_key r) /\
  aggregateId ev = column_text (ob_aggregate_id r) /\ parse (ob_payload_json r) = Ok (payload ev).

Lemma rowToEvent_reads r ev : rowToEvent r = Ok ev -> reads r ev.
Proof. unfold rowToEvent. destruct (column_int _); [|done]. cbn. destruct (parse _) eqn:E; [|done]. intros [= <-]. by split_and!. Qed.

(** What a returned claim hands out are rows of the table. *)
Lemma claim_rows_from w u n ids s evs s' : claim_rows w u n ids s = (Ok evs, s') ->
  Forall (fun ev => exists r, r ∈ outbox_events (tables s) /\ ob_event_id r ∈ ids /\ reads r ev) evs.
Proof.
  revert s evs s'. induction ids as [|i ids IH]; intros s evs s'; cbn [claim_rows]; [by intros [= <- _]|].
  cbv [mbind St_bind]. unfold sget. cbn [update_where]. unfold smodify. set (s1 := set_tables _ s). intros Hrun.
  assert (Hback : forall q ev, q ∈ outbox_events (tables s1) -> reads q ev ->
    exists r, r ∈ outbox_events (tables s) /\ ob_event_id r = ob_event_id q /\ reads r ev).
  { intros q ev (r & -> & Hr)%list_elem_of_fmap Hq. exists r. revert Hq. cbv beta. destruct (_ && _); intros Hq; (split; [done|split; [done|exact Hq]]). }
  assert (Hsub : forall l, Forall (fun ev => exists r, r ∈ outbox_events (tables s1) /\ ob_event_id r ∈ ids /\ reads r ev) l ->
    Forall (fun ev => exists r, r ∈ outbox_events (tables s) /\ ob_event_id r ∈ i :: ids /\ reads r ev) l).
  { intros l Hl. eapply Forall_impl; [exact Hl|]. intros ev (q & Hq & Hid & Hrd).
    destruct (Hback q ev Hq Hrd) as (r & Hr & E & Hrd'). exists r. rewrite E. split_and!; [done|by apply list_elem_of_further|done]. }
  destruct (negb _); [by eapply Hsub, IH|].
  destruct (outbox_row i s1) as [row|] eqn:Er; [|done]. unfold lift in Hrun.
  destruct (rowToEvent row) as [ev|] eqn:Eev; [|done].
  destruct (claim_rows w u n ids s1) as [[evs'|] s2] eqn:Erest; [|done]. injection Hrun as <- _.
  constructor; [|by eapply Hsub, IH]. apply find_same in Er as [Ei%text_eqb_true Hin].
  destruct (Hback row ev Hin (rowToEvent_reads _ _ Eev)) as (r & Hr & E & Hrd). exists r. rewrite E, Ei.
  split_and!; [done|apply list_elem_of_here|done].
Qed.

Lemma transaction_Ok {B} (work : St t B) s a s' :
  transaction work s = (Ok a, s') -> exists s0 s2, tables s0 = tables s /\ work s0 = (Ok a, s2).
Proof.
  unfold transaction. destruct (inTransaction s); [by eexists _, _|].
  destruct (work _) as [[a'|] s2] eqn:E; [|done]. intros [= -> _]. by exists (set_inTransaction true s), s2.
Qed.

(** A claimed event is that of a row that was claimable. *)
Lemma claim_from w limit ms at_ms e s evs s' ev :
  wf (tables s) -> claimOutbox w limit ms (Some (Some at_ms)) e s = (Ok evs, s') -> ev ∈ evs ->
  exists r, r ∈ outbox_events (tables s) /\ ob_event_id r = eventId ev /\ claimable (iso_string at_ms) r = true /\ reads r ev.
Proof.
  intros W Hc Hev. revert Hc. unfold claimOutbox. intros (? & ? & [_ ->]%lift_inv & Hc)%bind_Ok_inv.
  apply bind_Ok_inv in Hc as (at' & ? & [[= <-] ->]%lift_inv & Hc).
  destruct (safe_between limit _ _) as [l|]; [|done]. destruct (safe_between ms _ _) as [m|]; [|done].
  apply transaction_Ok in Hc as (s0 & s2 & Et & Hc). apply bind_Ok_inv in Hc as (u & ? & [_ ->]%lift_inv & Hrun).
  cbv [mbind St_bind sget] in Hrun. rewrite (bind_plain (iso_string at_ms)), Et in Hrun by apply iso_string_plain.
  change (take _ _) with (selection l (iso_string at_ms) (tables s)) in Hrun.
  apply claim_rows_from in Hrun. rewrite Et in Hrun.
  eapply Forall_forall in Hrun as (r & Hr & Hid & Hrd); [|exact Hev]. apply list_elem_of_fmap in Hid as (q & Eq & Hq).
  apply selection_in in Hq as [Hin Hcl]. assert (r = q) as -> by (apply (key_unique ob_event_id (outbox_events (tables s))); [apply W|done..]).
  exists q. split_and!; try done. destruct Hrd as [-> _]. rewrite column_plain; [done|].
  pose proof (wf_readable _ W) as Hok. eapply Forall_forall in Hok; [apply Hok|done].
Qed.

(** The conflict of an acknowledgement or a release that matches no row. *)
Lemma no_lease_held ev w n T :
  (forall r, r ∈ outbox_events T -> ob_event_id r = bind_text ev -> lease_held ev w n r = false) ->
  List.filter (lease_held ev w n) (outbox_events T) = [].
Proof.
  intros Hn. induction (outbox_events T) as [|r l IH]; [done|]. cbn. destruct (lease_held ev w n r) eqn:E.
  - rewrite Hn in E; [done|apply list_elem_of_here|by eapply lease_held_id].
  - apply IH. intros q Hq. apply Hn. by apply list_elem_of_further.
Qed.

Lemma settle_conflict ev w now e retry s :
  wf (tables s) ->
  (forall n r, r ∈ outbox_events (tables s) -> ob_event_id r = bind_text ev -> lease_held ev w n r = false) ->
  (exists err, acknowledgeOutbox ev w now e s = (Throw err, s)) /\
  (exists err, releaseOutbox ev w retry now e s = (Throw err, s)).
Proof.
  intros W Hn. split.
  - pose proof (conflict_whole ev w) as Hwhole. unfold acknowledgeOutbox. cbv [mbind St_bind].
    unfold lift at 1. destruct (assertBoundedOutboxIdentifier _ _ _); [|by eexists]. unfold lift at 1.
    destruct (assertValidDate _ _) as [at_ms|]; [|by eexists]. unfold sget. cbn [update_where].
    specialize (Hwhole (iso_string at_ms) (fun r => unclaim (Some (bind_text (iso_string at_ms))) (ob_available_at r) r)
      "outbox acknowledgement conflict" s W).
    unfold whole in Hwhole. cbv [mbind St_bind smodify lift] in Hwhole |- *. cbn [update_where fst snd] in Hwhole.
    rewrite (no_lease_held _ _ _ _ (Hn (iso_string at_ms))) in *. cbn in Hwhole |- *. eexists. by rewrite Hwhole.
  - pose proof (conflict_whole ev w) as Hwhole. unfold releaseOutbox. cbv [mbind St_bind].
    unfold lift at 1. destruct (assertBoundedOutboxIdentifier _ _ _); [|by eexists]. unfold lift at 1.
    destruct (assertValidDate retry _) as [retry_ms|]; [|by eexists]. unfold lift at 1.
    destruct (assertValidDate _ _) as [at_ms|]; [|by eexists]. unfold sget. cbn [update_where].
    specialize (Hwhole (iso_string at_ms) (fun r => unclaim (ob_delivered_at r) (bind_text (iso_string retry_ms)) r)
      "outbox release conflict" s W).
    unfold whole in Hwhole. cbv [mbind St_bind smodify lift] in Hwhole |- *. cbn [update_where fst snd] in Hwhole.
    rewrite (no_lease_held _ _ _ _ (Hn (iso_string at_ms))) in *. cbn in Hwhole |- *. eexists. by rewrite Hwhole.
Qed.

(** Exclusive leases: from a claim until its lease runs out, whatever other
    calls are made from any connection, no claim returns the event again, no
    other worker can acknowledge or release it, and its own worker can. *)
Theorem lease_exclusive w limit ms at_ms e s evs s1 ev s2 :
  ready s -> wf (tables s) -> leases_left (tables s) ->
  claimOutbox w (NInt limit) (NInt ms) (Some (Some at_ms)) e s = (Ok evs, s1) -> four_digit (at_ms + ms) ->
  ev ∈ evs -> history (respects (eventId ev) w (at_ms + ms)) s1 s2 ->
  (forall w' limit' ms' t' e' evs' s3, four_digit t' -> t' < at_ms + ms ->
     claimOutbox w' limit' ms' (Some (Some t')) e' s2 = (Ok evs', s3) -> eventId ev ∉ map eventId evs') /\
  (forall w' retry now' e', bind_text w' <> bind_text w ->
     (exists err, acknowledgeOutbox (eventId ev) w' now' e' s2 = (Throw err, s2)) /\
     (exists err, releaseOutbox (eventId ev) w' retry now' e' s2 = (Throw err, s2))) /\
  (forall t' e', four_digit t' -> t' < at_ms + ms ->
     is_ok (assertBoundedOutboxIdentifier w "worker id" OUTBOX_LIMITS_workerId) = true ->
     is_ok (acknowledgeOutbox (eventId ev) w (Some (Some t')) e' s2).1 = true).
Proof.
  intros Hr W Hl Hclaim Hu Hev Hh.
  destruct (claim_leases _ _ _ _ _ _ _ _ _ Hr W Hl Hclaim Hu Hev) as (Hr1 & Hleased & Hplain).
  assert (W2 : wf (tables s2)).
  { apply (history_wf _ s1 s2 Hh Hr1).
    destruct (call_steps (CallClaim w (NInt limit) (NInt ms) (Some (Some at_ms)) e) s I Hr) as [Hs _].
    cbn [run_call] in Hs. rewrite Hclaim in Hs. revert Hs W. apply steps_keep. intros c T Hc.
    apply (wf_step (fun _ => True)). by eexists. }
  destruct (history_steps _ s1 s2 Hh Hr1) as [Hs _].
  apply (steps_keep (leased (eventId ev) w (at_ms + ms))) in Hs; [|intros c T; by apply leased_step|done].
  split_and!.
  - intros w' limit' ms' t' e' evs' s3 Hf Hlt Hc' (ev' & Eid & Hev')%list_elem_of_fmap.
    destruct (claim_from _ _ _ _ _ _ _ _ _ W2 Hc' Hev') as (r & Hin & Hid & Hcl & _).
    destruct (leased_row _ _ _ _ r Hs Hin) as (_ & Hun & _); [congruence|].
    unfold claimable, lease_over in Hcl. rewrite Hun, iso_string_le, (proj2 (Z.leb_gt _ _)), andb_false_r in Hcl
      by (done || lia). done.
  - intros w' retry now' e' Hw'. apply settle_conflict; [done|]. intros n r Hin Hid.
    rewrite (bind_plain _ Hplain) in Hid. destruct (leased_row _ _ _ _ r Hs Hin Hid) as (Hby & _ & _).
    unfold lease_held. rewrite Hby, (bool_decide_false (Some _ = _)) by congruence. by rewrite andb_false_r.
  - intros t' e' Hf Hlt Hw. unfold acknowledgeOutbox. cbv [mbind St_bind]. unfold lift at 1.
    destruct (assertBoundedOutboxIdentifier _ _ _); [|done]. unfold lift at 1.
    change (assertValidDate _ _) with (Ok t'). unfold sget. cbn [update_where]. cbv [smodify lift].
    destruct Hs as (Hnd & r & Hin & Hid & Hby & Hun & Hd).
    assert (Hheld : lease_held (eventId ev) w (iso_string t') r = true).
    { unfold lease_held, undelivered. rewrite Hid, (bind_plain _ Hplain), text_eqb_refl, Hby, Hun, Hd.
      rewrite !bool_decide_true by done. rewrite (bind_plain (iso_string t')) by apply iso_string_plain.
      by rewrite iso_string_le, (proj2 (Z.leb_gt _ _)) by (done || lia). }
    pose proof (filter_key_unique ob_event_id _ (bind_text (eventId ev)) _ Hnd (fun r => lease_held_id (eventId ev) w (iso_string t') r)) as Hlen.
    assert (Hf' : In r (List.filter (lease_held (eventId ev) w (iso_string t')) (outbox_events (tables s2))))
      by (apply filter_In; split; [by apply list_elem_of_In|done]).
    destruct (List.filter _ _) as [|q [|? ?]]; cbn in Hlen, Hf' |- *; [done|done|lia].
Qed.

(** The event [ev] is delivered. *)
Definition delivered (ev : jstr) (T : Tables) : Prop :=
  bind_text ev ∈ map ob_event_id (outbox_events T) /\
  Forall (fun r => ob_event_id r = bind_text ev -> undelivered r = false) (outbox_events T).

Lemma delivered_update ev (p : OutboxRow -> bool) g T :
  (forall r, ob_event_id (g r) = ob_event_id r) -> (forall r, p r = true -> undelivered r = true) ->
  delivered ev T -> delivered ev (set_outbox (map (fun r => if p r then g r else r) (outbox_events T)) T).
Proof.
  intros Hg Hp [Hin Hd]. split; cbn [outbox_events set_outbox]; [by rewrite map_if_column|].
  apply Forall_map. eapply Forall_impl; [exact Hd|]. intros r Hr. cbn. destruct (p r) eqn:E; [|done].
  rewrite Hg. intros Hid. specialize (Hr Hid). apply Hp in E. congruence.
Qed.

Lemma delivered_step P ev c T : changes_of P c -> enabled c T -> delivered ev T -> delivered ev (effect c T).
Proof.
  intros _ He HD. destruct c; cbn [effect enabled] in *; try done.
  - destruct HD as [Hin Hd]. split; cbn [outbox_events set_outbox]; [rewrite map_app; apply elem_of_app; by left|].
    apply Forall_app. split; [done|]. constructor; [|constructor]. intros E. destruct He as [He _]. by rewrite E in He.
  - apply delivered_update; [done| |done]. intros r. unfold claim_where. rewrite !andb_true_iff. tauto.
  - apply delivered_update; [done| |done]. intros r. unfold lease_held. rewrite !andb_true_iff. tauto.
  - apply delivered_update; [done| |done]. intros r. unfold lease_held. rewrite !andb_true_iff. tauto.
Qed.

Lemma acknowledge_delivers ev w now e s s1 :
  wf (tables s) -> acknowledgeOutbox ev w now e s = (Ok tt, s1) -> delivered ev (tables s1).
Proof.
  intros W. unfold acknowledgeOutbox. intros (? & ? & [_ ->]%lift_inv & Hc)%bind_Ok_inv.
  apply bind_Ok_inv in Hc as (at_ms & ? & [_ ->]%lift_inv & Hc).
  cbv [mbind St_bind] in Hc. unfold sget in Hc. cbn [update_where] in Hc. cbv [smodify lift] in Hc.
  destruct (List.filter _ _) as [|r [|]] eqn:Ef; try done. injection Hc as <-.
  assert (Hin : In r (List.filter (lease_held ev w (iso_string at_ms)) (outbox_events (tables s)))) by (rewrite Ef; by left).
  apply filter_In in Hin as [Hin%list_elem_of_In Hheld]. pose proof (lease_held_id _ _ _ _ Hheld) as Hid.
  split; cbn [tables set_tables outbox_events set_outbox].
  - rewrite map_if_column by done. rewrite <-Hid. by apply list_elem_of_fmap_2.
  - apply Forall_map, Forall_forall. intros q Hq. cbv beta. destruct (lease_held ev w _ q) eqn:Eq; [done|].
    intros Hqid. assert (q = r) as -> by (apply (key_unique ob_event_id (outbox_events (tables s))); [apply W|done..|congruence]).
    congruence.
Qed.

Lemma delivered_unclaimed ev w limit ms now e s evs s' :
  wf (tables s) -> (plain ev -> delivered ev (tables s)) ->
  claimOutbox w limit ms (Some now) e s = (Ok evs, s') -> ev ∈ map eventId evs -> False.
Proof.
  intros W Hd Hc (ev' & Hid & Hev')%list_elem_of_fmap.
  destruct now as [t|]; [|by revert Hc; unfold claimOutbox; intros (? & ? & [_ ->]%lift_inv & Hc)%bind_Ok_inv].
  destruct (claim_from _ _ _ _ _ _ _ _ _ W Hc Hev') as (r & Hin & Eid & Hcl & _).
  pose proof (wf_readable _ W) as Hok. eapply Forall_forall in Hok as [Hplain _]; [|exact Hin].
  assert (Hev : plain ev) by congruence. destruct (Hd Hev) as [_ Hdel].
  eapply Forall_forall in Hdel; [|exact Hin]. cbn in Hdel. unfold claimable in Hcl.
  rewrite Hdel in Hcl by (rewrite (bind_plain ev Hev); congruence). done.
Qed.

(** Delivery is final: once an event has been acknowledged, no later claim
    returns it, at any clock and after any calls, and every further
    acknowledgement or release of it throws. *)
Theorem delivered_final P ev w now e s s1 s2 :
  ready s -> wf (tables s) -> plain ev ->
  acknowledgeOutbox ev w now e s = (Ok tt, s1) -> history P s1 s2 ->
  (forall w' limit' ms' t' e' evs' s3, claimOutbox w' limit' ms' (Some (Some t')) e' s2 = (Ok evs', s3) ->
     ev ∉ map eventId evs') /\
  (forall w' retry now' e',
     (exists err, acknowledgeOutbox ev w' now' e' s2 = (Throw err, s2)) /\
     (exists err, releaseOutbox ev w' retry now' e' s2 = (Throw err, s2))).
Proof.
  intros Hr W Hplain Hack Hh.
  pose proof (call_steps (CallAcknowledge ev w now e) s I Hr) as [Hs1 Hr1]. cbn [run_call] in Hs1, Hr1.
  rewrite Hack in Hs1, Hr1. cbn [snd] in Hs1, Hr1.
  assert (W2 : wf (tables s2)).
  { apply (history_wf _ s1 s2 Hh Hr1). revert Hs1 W. apply steps_keep. intros c T Hc.
    apply (wf_step (fun _ => True)). by eexists. }
  pose proof (acknowledge_delivers _ _ _ _ _ _ W Hack) as Hd.
  destruct (history_steps _ s1 s2 Hh Hr1) as [Hs _].
  apply (steps_keep (delivered ev)) in Hs as Hd2; [|by apply delivered_step|done].
  split.
  - intros w' limit' ms' t' e' evs' s3 Hc Hin. by eapply delivered_unclaimed.
  - intros w' retry now' e'. apply settle_conflict; [done|]. intros n r Hin Hid. destruct Hd2 as [_ Hd2].
    eapply Forall_forall in Hd2; [|exact Hin]. unfold lease_held. cbn in Hd2. rewrite Hd2 by done. by rewrite andb_false_r.
Qed.
End outbox.
