(* ===== verification/DurableRuns.v ===== *)
(** DurableRuns: the store at concrete calls: a driver that stores text as
    UTF-8, a file created, written, leased and settled, and the theorems on
    the store applied there. *)
From S2P Require Import Prelude JsString JsMap Host TestHost JsTime IsoOrder JsJson JsParse.
From S2P Require Import DurableStore DurableSteps DurableRecords DurableOutbox.
Import DurableStore.
#[local] Open Scope string_scope.
#[local] Open Scope list_scope.
#[local] Open Scope Z_scope.
#[local] Open Scope js_scope.

Definition test_sqlite : Sqlite := {| bind_text := utf8_encode; column_text := utf8_decode |}.

Lemma utf8_encode_ascii s : ascii_text s -> utf8_encode s = s.
Proof.
  induction 1 as [|c s Hc _ IH]; [done|]. cbn [utf8_encode].
  assert (Eh : is_high_surrogate c = false) by (apply in_range_false; lia).
  assert (El : is_low_surrogate c = false) by (apply in_range_false; lia).
  rewrite Eh, El. unfold utf8_code_point. rewrite (proj2 (N.ltb_lt c 128)) by lia. cbn. by rewrite IH.
Qed.

Lemma test_sqlite_laws : SqliteLaws test_sqlite.
Proof. split; [intros s [Hu Hw] _; by apply utf8_decode_encode|exact utf8_encode_ascii]. Qed.

#[local] Existing Instances test_host test_sqlite test_sqlite_laws.

(** ** A file and its first calls *)

Definition run_env : Env :=
  {| env_uuid := fun _ => "0d6cf3c5-6f3a-4e0a-9b1e-1f2a3b4c5d6e"; env_challengeId := []; env_clock := fun _ => Some noon |}.
Definition new_file : File := {| f_migrations := []; f_tables := None |}.
Definition no_store : t := {| tables := empty_tables; schema_migrations := []; inTransaction := false |}.
Definition opened : t := match constructor run_env new_file with Ok s => s | Throw _ => no_store end.

Lemma opened_made : constructor run_env new_file = Ok opened.
Proof. by vm_compute. Qed.
Lemma opened_ready : ready opened /\ wf (tables opened).
Proof. destruct (opened_fresh _ _ opened_made) as [Hr ->]. split; [done|apply wf_empty]. Qed.

Definition sample_value : jsval := JObj [(js "amount", JNum (NInt 1))].
Lemma sample_clean : json_clean sample_value.
Proof. apply json_clean_obj. split; [apply (bool_decide_unpack _); by vm_compute|]. constructor; [|constructor]. split; [by apply good_text_small; repeat constructor|done]. Qed.

Lemma plain_check s : forallb (fun c => (32 <=? c)%N && (c <? 128)%N) s = true -> plain s.
Proof.
  intros Hs%forallb_Forall. eapply Forall_impl; [exact Hs|]. intros c. cbv beta.
  rewrite andb_true_iff, N.leb_le, N.ltb_lt. done.
Qed.

Definition at_noon : option Date := Some (Some noon).
Definition call_create : call := CallCreate "challenge-1" "created" sample_value at_noon run_env.
Definition call_enqueue : call := CallEnqueue "event-1" "topic" "aggregate-1" sample_value at_noon run_env.
Definition recorded : t := run_call call_create opened.
Definition queued : t := run_call call_enqueue recorded.

Lemma call_keeps c s : good_call c -> ready s /\ wf (tables s) -> ready (run_call c s) /\ wf (tables (run_call c s)).
Proof.
  intros Hg [Hr W]. split; [by apply call_steps|].
  apply (history_wf (fun _ => True) s _); [|done..]. eapply history_call; [done|exact Hg|constructor].
Qed.

Lemma recorded_ready : ready recorded /\ wf (tables recorded).
Proof. apply call_keeps; [|apply opened_ready]. split; [by apply plain_check|exact sample_clean]. Qed.
Lemma queued_ready : ready queued /\ wf (tables queued).
Proof. apply call_keeps; [|apply recorded_ready]. split; [by apply plain_check|exact sample_clean]. Qed.

(** ** The theorems at these states *)

Lemma failed_call_changes_nothing_witness :
  run_call (CallAcknowledge "event-1" "worker-1" at_noon run_env) queued = queued.
Proof. apply failed_call_changes_nothing; [apply queued_ready..|by vm_compute]. Defined.

Lemma compareAndSwap_spec_witness :
  let '(out, s') := compareAndSwap "challenge-1" (NInt 0) "created" "confirmed" JNull at_noon run_env recorded in
  let r := {| value := sample_value; status := "created"; version := 0; updatedAt := iso_string noon |} in
  out = Ok (swapped r "confirmed" JNull noon) /\ get "challenge-1" s' = Ok (Some (swapped r "confirmed" JNull noon)) /\
  (forall j, bind_text j <> bind_text "challenge-1" -> get j s' = get j recorded).
Proof.
  apply (compareAndSwap_spec "challenge-1" (NInt 0) "created" "confirmed" JNull noon run_env recorded
    {| value := sample_value; status := "created"; version := 0; updatedAt := iso_string noon |});
    [apply recorded_ready|by vm_compute|by apply plain_check|by apply plain_check|done|done].
Defined.

Definition confirmed : t := (compareAndSwap "challenge-1" (NInt 0) "created" "confirmed" JNull at_noon run_env recorded).2.

Lemma version_swapped_once_witness :
  is_ok (compareAndSwap "challenge-1" (NInt 0) "created" "cancelled" JNull at_noon run_env confirmed).1 = false.
Proof.
  apply (version_swapped_once (fun _ => True) "challenge-1" 0 "created" "confirmed" JNull at_noon run_env
    {| value := JNull; status := "confirmed"; version := 1; updatedAt := iso_string noon |} recorded confirmed confirmed);
    [apply recorded_ready..|by apply plain_check|done|apply pair_eq; by vm_compute|constructor|done].
Defined.

(** An operation that records a challenge and enqueues its event. *)
Definition sample_operation : Tx :=
  TxCreate "challenge-2" "created" sample_value at_noon run_env (fun r =>
  match r with
  | Throw e => TxReturn (Throw e)
  | Ok _ => TxEnqueue "event-2" "topic" "challenge-2" sample_value at_noon run_env (fun r =>
      match r with Throw e => TxReturn (Throw e) | Ok _ => TxReturn (Ok sample_value) end)
  end).
Definition answered_once : t := (runIdempotent "issuer" "request-1" "hash-1" sample_operation at_noon run_env recorded).2.

Lemma sample_operation_good : good_tx sample_operation.
Proof.
  split_and!; [by apply plain_check|exact sample_clean|]. intros [r|e]; [|done].
  split_and!; [by apply plain_check|exact sample_clean|]. by intros [r'|e].
Qed.

Lemma idempotent_exactly_once_witness :
  (forall op' now' e', runIdempotent "issuer" "request-1" "hash-1" op' now' e' answered_once = (Ok (true, sample_value), answered_once)) /\
  (forall h' op' now' e', h' <> js "hash-1" ->
     runIdempotent "issuer" "request-1" h' op' now' e' answered_once = (Throw REQUEST_REUSED, answered_once)) /\
  getIdempotent "issuer" "request-1" "hash-1" answered_once = Ok (Some sample_value).
Proof.
  apply (idempotent_exactly_once (fun _ => True) "issuer" "request-1" "hash-1" sample_operation at_noon run_env
    sample_value recorded answered_once answered_once);
    [apply recorded_ready|exact sample_operation_good|by apply plain_check|exact sample_clean
    |apply pair_eq; by vm_compute|constructor].
Defined.

Lemma reopening_keeps_everything_witness :
  constructor run_env (close recorded) = Ok recorded /\ schemaVersion recorded = 1 /\ wf (tables recorded).
Proof.
  apply (reopening_keeps_everything (fun _ => True) run_env opened); [exact opened_made|].
  eapply history_call; [done| |constructor]. split; [by apply plain_check|exact sample_clean].
Defined.

Lemma queued_leases : leases_left (tables queued).
Proof.
  assert (Hb : forallb (fun r => ob_attempts r <? MAX_SAFE_INTEGER) (outbox_events (tables queued)) = true) by (by vm_compute).
  apply forallb_Forall in Hb. eapply Forall_impl; [exact Hb|]. intros r. apply Z.ltb_lt.
Qed.

Definition lease_ms : Z := 30000.
Definition claim_out := claimOutbox "worker-1" (NInt 10) (NInt lease_ms) at_noon run_env queued.
Definition claimed_events : list OutboxEvent := match claim_out.1 with Ok evs => evs | Throw _ => [] end.
Definition claimed : t := claim_out.2.
Definition claimed_event : OutboxEvent :=
  {| eventId := env_uuid run_env 0; eventKey := "event-1"; topic := "topic"; aggregateId := "aggregate-1";
     payload := sample_value; createdAt := iso_string noon; availableAt := iso_string noon; attempts := 1;
     claimedBy := Some (js "worker-1"); claimedUntil := Some (iso_string (noon + lease_ms)); deliveredAt := None |}.

Lemma claim_out_made : claim_out = (Ok [claimed_event], claimed).
Proof. apply pair_eq; by vm_compute. Qed.

Lemma claim_takes_oldest_witness :
  exists evs s', claimOutbox "worker-1" (NInt 10) (NInt lease_ms) at_noon run_env queued = (Ok evs, s') /\
    Z.of_nat (length evs) <= 10 /\
    Forall (fun ev => exists r, r ∈ outbox_events (tables queued) /\ claimable (iso_string noon) r = true /\
      eventId ev = ob_event_id r /\ attempts ev = ob_attempts r + 1) evs /\
    (forall r, r ∈ outbox_events (tables queued) -> claimable (iso_string noon) r = true ->
      Z.of_nat (length (List.filter (fun q => claimable (iso_string noon) q && row_le q r) (outbox_events (tables queued)))) <= 10 ->
      ob_event_id r ∈ map eventId evs).
Proof.
  apply (claim_takes_oldest "worker-1" 10 lease_ms noon run_env queued);
    [apply queued_ready|apply queued_ready|exact queued_leases|by vm_compute|done..].
Defined.

Lemma lease_exclusive_witness :
  (forall w' limit' ms' t' e' evs' s3, four_digit t' -> t' < noon + lease_ms ->
     claimOutbox w' limit' ms' (Some (Some t')) e' claimed = (Ok evs', s3) -> eventId claimed_event ∉ map eventId evs') /\
  (forall w' retry now' e', bind_text w' <> bind_text "worker-1" ->
     (exists err, acknowledgeOutbox (eventId claimed_event) w' now' e' claimed = (Throw err, claimed)) /\
     (exists err, releaseOutbox (eventId claimed_event) w' retry now' e' claimed = (Throw err, claimed))) /\
  (forall t' e', four_digit t' -> t' < noon + lease_ms ->
     is_ok (assertBoundedOutboxIdentifier "worker-1" "worker id" OUTBOX_LIMITS_workerId) = true ->
     is_ok (acknowledgeOutbox (eventId claimed_event) "worker-1" (Some (Some t')) e' claimed).1 = true).
Proof.
  apply (lease_exclusive "worker-1" 10 lease_ms noon run_env queued [claimed_event] claimed claimed_event claimed);
    [apply queued_ready..|exact queued_leases|exact claim_out_made|by vm_compute|apply list_elem_of_here|constructor].
Defined.

Definition delivered_store : t := (acknowledgeOutbox (eventId claimed_event) "worker-1" at_noon run_env claimed).2.

Lemma claimed_ready : ready claimed /\ wf (tables claimed).
Proof.
  apply (call_keeps (CallClaim "worker-1" (NInt 10) (NInt lease_ms) at_noon run_env) queued I), queued_ready.
Qed.

Lemma delivered_final_witness :
  (forall w' limit' ms' t' e' evs' s3,
     claimOutbox w' limit' ms' (Some (Some t')) e' delivered_store = (Ok evs', s3) -> eventId claimed_event ∉ map eventId evs') /\
  (forall w' retry now' e',
     (exists err, acknowledgeOutbox (eventId claimed_event) w' now' e' delivered_store = (Throw err, delivered_store)) /\
     (exists err, releaseOutbox (eventId claimed_event) w' retry now' e' delivered_store = (Throw err, delivered_store))).
Proof.
  apply (delivered_final (fun _ => True) (eventId claimed_event) "worker-1" at_noon run_env claimed delivered_store delivered_store);
    [apply claimed_ready..|by apply plain_check|apply pair_eq; by vm_compute|constructor].
Defined.
