(* ===== verification/PartnerDispatch.v ===== *)
(** PartnerDispatch: packages/partner-transport/dispatcher.ts and
    operations.ts, the outbox dispatcher: signed sending with a retry budget,
    a circuit breaker and a dead-letter sink, over any lease source.  What the
    dispatcher does not decide, the clock, the nonces, the adapter's answers,
    the sink's outcomes and what other connections do to the source while it
    waits, is a record of functions numbered by the order of the readings. *)
From stdpp Require Import relations.
From S2P Require Import Prelude JsString JsMap Host JsTime JsJson JsParse PartnerContract DurableStore.
#[local] Open Scope string_scope.
#[local] Open Scope list_scope.
#[local] Open Scope Z_scope.
#[local] Open Scope js_scope.

(** [interface OutboxLeaseSource] *)
Class OutboxLeaseSource (S : Type) := {
  claimOutbox : jstr -> jsnum -> jsnum -> Date -> St S (list OutboxEvent);
  acknowledgeOutbox : jstr -> jstr -> Date -> St S unit;
  releaseOutbox : jstr -> jstr -> Date -> Date -> St S unit;
}.

(** What the dispatcher relies on: an acknowledged event is never claimed
    again, whatever is claimed, acknowledged or released meanwhile. *)
Class OutboxLeaseLaws (S : Type) `{OutboxLeaseSource S} := {
  sound : S -> Prop;
  settled : jstr -> S -> Prop;
  sound_claim w l m now : keeps sound (claimOutbox w l m now);
  sound_acknowledge ev w now : keeps sound (acknowledgeOutbox ev w now);
  sound_release ev w r now : keeps sound (releaseOutbox ev w r now);
  settled_claim ev w l m now : keeps (fun s => sound s /\ settled ev s) (claimOutbox w l m now);
  settled_acknowledge ev ev' w now : keeps (fun s => sound s /\ settled ev s) (acknowledgeOutbox ev' w now);
  settled_release ev ev' w r now : keeps (fun s => sound s /\ settled ev s) (releaseOutbox ev' w r now);
  acknowledge_settles ev w now s s' : sound s -> acknowledgeOutbox ev w now s = (Ok tt, s') -> settled ev s';
  settled_unclaimed ev w l m now s evs s' :
    sound s -> settled ev s -> claimOutbox w l m now s = (Ok evs, s') -> ev ∉ map eventId evs;
}.

(** ** Data *)

Record PartnerWebhookRequest : Type := { rq_body : list N; rq_headers : Headers }.

Inductive OutcomeKind : Type := Delivered | RetryScheduled | DeadLettered.

Record DispatchOutcome : Type := {
  do_eventId : jstr; outcome : OutcomeKind; do_status : option Z; error : option jstr;
}.

Record Options : Type := {
  workerId : jstr;
  leaseMs : option jsnum;
  batchSize : option jsnum;
  retryDelayMs : option jsnum;
  requestTimeoutMs : option jsnum;
  maximumAttempts : option jsnum;
  circuitFailureThreshold : option jsnum;
  circuitCooldownMs : option jsnum;
}.

Record DeadLetter : Type := {
  dl_event : OutboxEvent; dl_reason : jstr; dl_status : option Z; dl_failedAt : jstr;
}.

(** What happens outside: a request sent, a response read, a dead letter
    recorded, an acknowledgement or a release the source accepted. *)
Inductive effect : Type :=
| Sent (eventId : jstr) (request : PartnerWebhookRequest)
| Answered (eventId : jstr) (status : Z)
| Recorded (letter : DeadLetter)
| Acknowledged (eventId : jstr)
| Released (eventId : jstr).

Section dispatcher.
Context `{Host} {S : Type} `{OutboxLeaseSource S}.

(** The environment: the [n]-th reading of the clock, the [n]-th nonce, the
    response to the [n]-th request (an exception for a rejection or a
    timeout), the outcome of the [n]-th dead letter, and what others do to the
    source during the [n]-th wait. *)
Record World : Type := {
  w_clock : nat -> Date;
  w_nonce : nat -> jstr;
  w_send : nat -> PartnerWebhookRequest -> result Z;
  w_sink : nat -> DeadLetter -> result unit;
  w_others : nat -> S -> S;
}.

Record Dispatcher : Type := {
  source : S;
  consecutiveFailures : Z;
  circuitOpenUntil : option Z;
  readings : nat;
  effects : list effect;
}.

Definition set_source x (d : Dispatcher) : Dispatcher :=
  {| source := x; consecutiveFailures := consecutiveFailures d; circuitOpenUntil := circuitOpenUntil d;
     readings := readings d; effects := effects d |}.
Definition set_failures x (d : Dispatcher) : Dispatcher :=
  {| source := source d; consecutiveFailures := x; circuitOpenUntil := circuitOpenUntil d;
     readings := readings d; effects := effects d |}.
Definition set_circuit x (d : Dispatcher) : Dispatcher :=
  {| source := source d; consecutiveFailures := consecutiveFailures d; circuitOpenUntil := x;
     readings := readings d; effects := effects d |}.
Definition set_readings x (d : Dispatcher) : Dispatcher :=
  {| source := source d; consecutiveFailures := consecutiveFailures d; circuitOpenUntil := circuitOpenUntil d;
     readings := x; effects := effects d |}.
Definition set_effects x (d : Dispatcher) : Dispatcher :=
  {| source := source d; consecutiveFailures := consecutiveFailures d; circuitOpenUntil := circuitOpenUntil d;
     readings := readings d; effects := x |}.

Variables (w : World) (options : Options) (key : PartnerSigningKey).

(** ** Reading the environment *)

Definition next_reading : St Dispatcher nat :=
  sget ≫= fun d => smodify (set_readings (1 + readings d)) ≫= fun _ => mret (readings d).

Definition clock : St Dispatcher Date := next_reading ≫= fun n => mret (w_clock w n).
Definition nonce : St Dispatcher jstr := next_reading ≫= fun n => mret (w_nonce w n).

Definition emit (x : effect) : St Dispatcher unit := smodify (fun d => set_effects (effects d ++ [x]) d).

(** [await]: the other connections run. *)
Definition yield (n : nat) : St Dispatcher unit := smodify (fun d => set_source (w_others w n (source d)) d).

(** [try { m } catch (error) { h(error.message) }] *)
Definition try_catch {A} (m : St Dispatcher A) (h : jstr -> St Dispatcher A) : St Dispatcher A := fun d =>
  match m d with
  | (Ok a, d') => (Ok a, d')
  | (Throw e, d') => h e d'
  end.

(** ** Sending *)

Definition sendBounded (eventId : jstr) (request : PartnerWebhookRequest) : St Dispatcher Z :=
  match safe_between (default (NInt 10000) (requestTimeoutMs options)) 1 60000 with
  | None => lift (Throw "invalid partner request timeout")
  | Some _ =>
      emit (Sent eventId request) ≫= fun _ =>
      next_reading ≫= fun n =>
      yield n ≫= fun _ =>
      lift (w_send w n request) ≫= fun status =>
      emit (Answered eventId status) ≫= fun _ => mret status
  end.

(** [at.getTime() + ms], a NaN operand giving NaN. *)
Definition plus_ms (d : Date) (ms : jsnum) : option Z :=
  match d, ms with Some t, NInt m => Some (num_add t m) | _, _ => None end.

Definition date_of (t : option Z) : Date := match t with Some t => new_date t | None => None end.

Definition recordFailure (at_ : Date) : St Dispatcher unit :=
  smodify (fun d => set_failures (num_add (consecutiveFailures d) 1) d) ≫= fun _ =>
  match safe_between (default (NInt 5) (circuitFailureThreshold options)) 1 100 with
  | None => lift (Throw "invalid partner circuit threshold")
  | Some threshold =>
      sget ≫= fun d =>
      if threshold <=? consecutiveFailures d
      then smodify (set_circuit (plus_ms at_ (default (NInt 30000) (circuitCooldownMs options))))
      else mret tt
  end.

Definition ack (eventId : jstr) (now : Date) : St Dispatcher unit :=
  zoom source set_source (acknowledgeOutbox eventId (workerId options) now) ≫= fun _ => emit (Acknowledged eventId).
Definition release (eventId : jstr) (retryAt now : Date) : St Dispatcher unit :=
  zoom source set_source (releaseOutbox eventId (workerId options) retryAt now) ≫= fun _ => emit (Released eventId).

Definition deadLetter (event : OutboxEvent) (reason : jstr) (failedAt : Date) (status : option Z)
    : St Dispatcher DispatchOutcome :=
  lift (toISOString failedAt) ≫= fun at_ =>
  let letter := {| dl_event := event; dl_reason := reason; dl_status := status; dl_failedAt := at_ |} in
  next_reading ≫= fun n =>
  yield n ≫= fun _ =>
  lift (w_sink w n letter) ≫= fun _ =>
  emit (Recorded letter) ≫= fun _ =>
  ack (eventId event) failedAt ≫= fun _ =>
  mret {| do_eventId := eventId event; outcome := DeadLettered; do_status := status; error := Some reason |}.

(** The retry time of a failed event. *)
Definition retry_at (completed : Date) : Date :=
  date_of (plus_ms completed (default (NInt 5000) (retryDelayMs options))).

Definition scheduled (event : OutboxEvent) (status : option Z) (error : option jstr) : DispatchOutcome :=
  {| do_eventId := eventId event; outcome := RetryScheduled; do_status := status; error := error |}.

(** [Math.floor(now.getTime() / 1_000)] *)
Definition epoch_seconds (now : Date) : jsnum :=
  match now with Some t => NInt (t / 1000) | None => NNaN end.

(** The request for an event, from its payload. *)
Definition request_of (event : OutboxEvent) (now : Date) : St Dispatcher PartnerWebhookRequest :=
  lift (assertPartnerEnvelope (payload event)) ≫= fun _ =>
  lift (throw_if (negb (same_text (field_of "aggregateId" (payload event)) (JStr (aggregateId event))))
    "outbox metadata does not match partner envelope") ≫= fun _ =>
  lift (encodePartnerEnvelope (payload event)) ≫= fun body =>
  nonce ≫= fun nonce =>
  lift (signPartnerWebhook body (eventKey event) nonce (epoch_seconds now) key) ≫= fun headers =>
  mret {| rq_body := body; rq_headers := headers |}.

(** The [try] block of one event. *)
Definition attempt (maximum : Z) (event : OutboxEvent) : St Dispatcher DispatchOutcome :=
  clock ≫= fun beforeSend =>
  sget ≫= fun d =>
  if num_lt beforeSend (circuitOpenUntil d) then
    release (eventId event) (date_of (circuitOpenUntil d)) beforeSend ≫= fun _ =>
    mret (scheduled event None (Some (js "partner circuit breaker is open")))
  else
    request_of event beforeSend ≫= fun request =>
    sendBounded (eventId event) request ≫= fun status =>
    clock ≫= fun completed =>
    if (200 <=? status) && (status <? 300) then
      smodify (set_failures 0) ≫= fun _ =>
      smodify (set_circuit (Some 0)) ≫= fun _ =>
      ack (eventId event) completed ≫= fun _ =>
      mret {| do_eventId := eventId event; outcome := Delivered; do_status := Some status; error := None |}
    else if (status =? 429) || (500 <=? status) then
      recordFailure completed ≫= fun _ =>
      if maximum <=? attempts event then
        deadLetter event "partner retry budget exhausted" completed (Some status)
      else
        release (eventId event) (retry_at completed) completed ≫= fun _ =>
        mret (scheduled event (Some status) None)
    else deadLetter event "partner returned a permanent response" completed (Some status).

(** The [catch] block. *)
Definition recover (maximum : Z) (event : OutboxEvent) (message : jstr) : St Dispatcher DispatchOutcome :=
  clock ≫= fun completed =>
  recordFailure completed ≫= fun _ =>
  let reschedule : St Dispatcher DispatchOutcome :=
    try_catch (release (eventId event) (retry_at completed) completed) (fun _ => mret tt) ≫= fun _ =>
    mret (scheduled event None (Some message)) in
  if maximum <=? attempts event
  then try_catch (deadLetter event message completed None) (fun _ => reschedule)
  else reschedule.

Definition dispatch_event (maximum : Z) (event : OutboxEvent) : St Dispatcher DispatchOutcome :=
  try_catch (attempt maximum event) (recover maximum event).

Fixpoint dispatch_events (maximum : Z) (events : list OutboxEvent) : St Dispatcher (list DispatchOutcome) :=
  match events with
  | [] => mret []
  | event :: events =>
      dispatch_event maximum event ≫= fun out =>
      dispatch_events maximum events ≫= fun outs => mret (out :: outs)
  end.

(** The policy check; the lease, the maximum of attempts. *)
Definition policy : result (Z * Z) :=
  match safe_between (default (NInt 30000) (leaseMs options)) (- MAX_SAFE_INTEGER) MAX_SAFE_INTEGER,
        safe_between (default (NInt 10000) (requestTimeoutMs options)) 1 MAX_SAFE_INTEGER,
        safe_between (default (NInt 8) (maximumAttempts options)) 1 1000,
        safe_between (default (NInt 5) (circuitFailureThreshold options)) 1 100,
        safe_between (default (NInt 5000) (retryDelayMs options)) 1 3600000,
        safe_between (default (NInt 30000) (circuitCooldownMs options)) 1 3600000 with
  | Some lease, Some timeout, Some maximum, Some _, Some _, Some _ =>
      if timeout <? lease then Ok (lease, maximum) else Throw "invalid partner dispatcher policy"
  | _, _, _, _, _, _ => Throw "invalid partner dispatcher policy"
  end.

Definition dispatchOnce : St Dispatcher (list DispatchOutcome) :=
  clock ≫= fun started =>
  lift policy ≫= fun p : Z * Z =>
  zoom source set_source
    (claimOutbox (workerId options) (default (NInt 10) (batchSize options)) (NInt p.1) started) ≫= fun events =>
  dispatch_events p.2 events.

(** ** Never throws past the claim *)

(** A call that returns at every state. *)
Definition total {A} (m : St Dispatcher A) : Prop := forall d, is_ok (m d).1 = true.

Lemma total_bind {A B} (m : St Dispatcher A) (k : A -> St Dispatcher B) :
  total m -> (forall a, total (k a)) -> total (m ≫= k).
Proof. intros Hm Hk d. cbv [mbind St_bind]. specialize (Hm d). destruct (m d) as [[a|e] d']; [apply Hk|done]. Qed.

Lemma total_try {A} (m : St Dispatcher A) h : (forall e, total (h e)) -> total (try_catch m h).
Proof. intros Hh d. unfold try_catch. destruct (m d) as [[a|e] d']; [done|apply Hh]. Qed.

Lemma policy_threshold p :
  policy = Ok p -> exists n, safe_between (default (NInt 5) (circuitFailureThreshold options)) 1 100 = Some n.
Proof.
  unfold policy. intros Hp. destruct (safe_between (default (NInt 5) _) 1 100) as [n|]; [by exists n|].
  by repeat case_match.
Qed.

Lemma recordFailure_total p at_ : policy = Ok p -> total (recordFailure at_).
Proof.
  intros (n & Hn)%policy_threshold d. unfold recordFailure. rewrite Hn.
  cbv [mbind St_bind smodify sget]. by destruct (n <=? _).
Qed.

Lemma dispatch_event_total p maximum event : policy = Ok p -> total (dispatch_event maximum event).
Proof.
  intros Hp. apply total_try. intros e. unfold recover.
  apply total_bind; [by intros d|]. intros completed. apply total_bind; [by eapply recordFailure_total|]. intros _.
  assert (Hr : total (try_catch (release (eventId event) (retry_at completed) completed) (fun _ => mret tt) ≫= fun _ =>
    mret (scheduled event None (Some e)))) by (apply total_bind; [apply total_try; by intros e' d|by intros _ d]).
  cbv zeta. destruct (maximum <=? _); [|exact Hr]. apply total_try. by intros _.
Qed.

(** What a call returns. *)
Definition returns {A} (Q : A -> Prop) (m : St Dispatcher A) : Prop := forall d a d', m d = (Ok a, d') -> Q a.

Lemma returns_bind {A B} (Q : B -> Prop) (m : St Dispatcher A) (k : A -> St Dispatcher B) :
  (forall a, returns Q (k a)) -> returns Q (m ≫= k).
Proof. intros Hk d b d' (a & d1 & _ & Ha)%bind_Ok_inv. by eapply Hk. Qed.

Lemma returns_ret {A} (Q : A -> Prop) a : Q a -> returns Q (mret a).
Proof. by intros Ha d a' d' [= <- _]. Qed.
Lemma returns_throw {A} (Q : A -> Prop) e : returns Q (lift (Throw e)).
Proof. by intros d a d'. Qed.
Lemma returns_try {A} (Q : A -> Prop) m h : returns Q m -> (forall e, returns Q (h e)) -> returns Q (try_catch m h).
Proof. intros Hm Hh d a d'. unfold try_catch. destruct (m d) as [[a'|e] d1] eqn:E; [intros [= <- _]; by eapply Hm|by apply Hh]. Qed.

Ltac returns_step :=
  lazymatch goal with
  | |- returns _ (mret _) => apply returns_ret
  | |- returns _ (lift (Throw _)) => apply returns_throw
  | |- returns _ (_ ≫= _) => apply returns_bind; intros
  | |- returns _ (try_catch _ _) => apply returns_try; [|intros]
  | |- returns _ (if ?b then _ else _) => destruct b
  end.

(** The outcome reports the event it is about. *)
Lemma dispatch_event_about maximum event : returns (fun out => do_eventId out = eventId event) (dispatch_event maximum event).
Proof.
  unfold dispatch_event, attempt, recover, deadLetter. repeat (cbv beta zeta; returns_step); done.
Qed.

Lemma dispatch_events_report p maximum events d :
  policy = Ok p ->
  exists outs d', dispatch_events maximum events d = (Ok outs, d') /\ map do_eventId outs = map eventId events.
Proof.
  intros Hp. revert d. induction events as [|event events IH]; intros d; [by eexists _, _|]. cbn [dispatch_events].
  cbv [mbind St_bind]. pose proof (dispatch_event_total p maximum event Hp d) as Ht.
  pose proof (dispatch_event_about maximum event d) as Ha.
  destruct (dispatch_event maximum event d) as [[out|e] d1]; [|done].
  destruct (IH d1) as (outs & d2 & E & Houts). rewrite E. eexists _, _. split; [done|].
  cbn. by rewrite (Ha out d1 eq_refl), Houts.
Qed.

(** A dispatch always finishes with a report: under an admitted policy, once
    the claim has returned, no clock reading, response, rejection, timeout,
    refused dead letter or lost lease makes the dispatch throw, and it reports
    one outcome for each claimed event, in their order. *)
Theorem dispatch_reports_every_event p d events s1 :
  policy = Ok p ->
  claimOutbox (workerId options) (default (NInt 10) (batchSize options)) (NInt p.1) (w_clock w (readings d)) (source d) = (Ok events, s1) ->
  exists outs d', dispatchOnce d = (Ok outs, d') /\ map do_eventId outs = map eventId events.
Proof.
  intros Hp Hc. unfold dispatchOnce, clock, next_reading. cbv [mbind St_bind sget smodify mret St_ret lift].
  rewrite Hp. unfold zoom. cbn [source set_readings readings]. rewrite Hc. by eapply dispatch_events_report.
Qed.

(** ** What a dispatch does outside *)

Lemma keeps_bind_ok {A B} (I : Dispatcher -> Prop) (m : St Dispatcher A) (k : A -> St Dispatcher B) :
  keeps I m -> (forall d a d', m d = (Ok a, d') -> keeps I (k a)) -> keeps I (m ≫= k).
Proof.
  intros Hm Hk d Hd. specialize (Hm d Hd). specialize (Hk d). cbv [mbind St_bind].
  destruct (m d) as [[a|e] d']; [by eapply Hk|done].
Qed.

Lemma keeps_try {A} (I : Dispatcher -> Prop) (m : St Dispatcher A) h :
  keeps I m -> (forall e, keeps I (h e)) -> keeps I (try_catch m h).
Proof. intros Hm Hh d Hd. unfold try_catch. specialize (Hm d Hd). destruct (m d) as [[a|e] d']; [done|by apply Hh]. Qed.

(** Only requests satisfying [Q] were sent since [old]. *)
Definition sends (Q : jstr -> PartnerWebhookRequest -> Prop) (old : list effect) (d : Dispatcher) : Prop :=
  exists new, effects d = old ++ new /\ forall id rq, Sent id rq ∈ new -> Q id rq.

Lemma sends_emit Q old x :
  (forall id rq, x = Sent id rq -> Q id rq) -> keeps (sends Q old) (emit x).
Proof.
  intros Hx d (new & E & Hnew). exists (new ++ [x]). cbn. rewrite E, app_assoc. split; [done|].
  intros id rq [Hin|<-%list_elem_of_singleton]%elem_of_app; [by apply Hnew|by apply Hx].
Qed.

Lemma sends_source Q old f : keeps (sends Q old) (smodify (fun d => set_source (f (source d)) d)).
Proof. by apply keeps_modify. Qed.

(** Calls that send nothing. *)
Ltac quiet_step :=
  lazymatch goal with
  | |- keeps (sends _ _) (emit _) => apply sends_emit; intros ? ? [=]
  | |- keeps (sends _ _) (zoom _ _ _) => apply keeps_zoom; intros
  | |- keeps _ (try_catch _ _) => apply keeps_try; [|intros]
  | |- _ => keeps_step
  end.
Ltac quiet := repeat (cbv beta zeta; quiet_step); try done.

Lemma clock_sends Q old : keeps (sends Q old) clock.
Proof. unfold clock, next_reading. quiet. Qed.

Lemma recordFailure_sends Q old at_ : keeps (sends Q old) (recordFailure at_).
Proof. unfold recordFailure. quiet. Qed.

Lemma release_sends Q old id r now : keeps (sends Q old) (release id r now).
Proof. unfold release. quiet. Qed.

Lemma ack_sends Q old id now : keeps (sends Q old) (ack id now).
Proof. unfold ack. quiet. Qed.

Lemma deadLetter_sends Q old event reason at_ st : keeps (sends Q old) (deadLetter event reason at_ st).
Proof. unfold deadLetter, next_reading, yield. quiet. apply ack_sends. Qed.

Lemma recover_sends Q old maximum event e : keeps (sends Q old) (recover maximum event e).
Proof.
  unfold recover. apply keeps_bind; [apply clock_sends|intros completed]. apply keeps_bind; [apply recordFailure_sends|intros _].
  cbv zeta. quiet; first [apply deadLetter_sends|apply release_sends].
Qed.

Lemma sendBounded_sends (Q : jstr -> PartnerWebhookRequest -> Prop) old id rq :
  (is_Some (safe_between (default (NInt 10000) (requestTimeoutMs options)) 1 60000) -> Q id rq) ->
  keeps (sends Q old) (sendBounded id rq).
Proof.
  intros HQ. unfold sendBounded, next_reading, yield. destruct (safe_between _ 1 60000) as [t|]; [|apply keeps_lift].
  apply keeps_bind; [apply sends_emit; intros ? ? [= -> ->]; by apply HQ|]. intros. quiet.
Qed.

Lemma request_of_sends Q old event now : keeps (sends Q old) (request_of event now).
Proof. unfold request_of, nonce, next_reading. quiet. Qed.

(** What is sent for an event is the request built from it. *)
Lemma dispatch_event_sends Q old maximum event :
  (forall now d rq d', request_of event now d = (Ok rq, d') ->
     is_Some (safe_between (default (NInt 10000) (requestTimeoutMs options)) 1 60000) -> Q (eventId event) rq) ->
  keeps (sends Q old) (dispatch_event maximum event).
Proof.
  intros HQ. apply keeps_try; [|intros; apply recover_sends]. unfold attempt.
  apply keeps_bind; [apply clock_sends|intros now]. apply keeps_bind; [apply keeps_get|intros d].
  destruct (num_lt _ _); [quiet; apply release_sends|].
  apply keeps_bind_ok; [apply request_of_sends|]. intros d0 rq d1 Hrq.
  apply keeps_bind; [apply sendBounded_sends; by eapply HQ|intros status].
  apply keeps_bind; [apply clock_sends|intros completed].
  quiet; first [apply ack_sends|apply deadLetter_sends|apply release_sends|apply recordFailure_sends].
Qed.

Lemma dispatch_events_sends Q old maximum events :
  (forall event, event ∈ events -> forall now d rq d', request_of event now d = (Ok rq, d') ->
     is_Some (safe_between (default (NInt 10000) (requestTimeoutMs options)) 1 60000) -> Q (eventId event) rq) ->
  keeps (sends Q old) (dispatch_events maximum events).
Proof.
  induction events as [|event events IH]; intros HQ; [apply keeps_ret|]. cbn [dispatch_events].
  apply keeps_bind; [apply dispatch_event_sends, HQ, list_elem_of_here|intros out].
  apply keeps_bind; [apply IH; intros ev Hev; apply HQ; by apply list_elem_of_further|intros; apply keeps_ret].
Qed.

(** A request timeout above a minute disables delivery: the policy check
    admits any timeout shorter than the lease, but sending refuses one above
    60 seconds, so the dispatcher claims events and sends nothing. *)
Theorem oversized_timeout_never_sends p ms d :
  requestTimeoutMs options = Some (NInt ms) -> 60000 < ms -> policy = Ok p ->
  exists new, effects (dispatchOnce d).2 = effects d ++ new /\ forall id rq, Sent id rq ∉ new.
Proof.
  intros Hms Hlt Hp.
  assert (Hk : keeps (sends (fun _ _ => False) (effects d)) dispatchOnce).
  { unfold dispatchOnce. apply keeps_bind; [apply clock_sends|intros started].
    apply keeps_lift_bind. intros q _. apply keeps_bind; [by apply keeps_zoom|intros events].
    apply dispatch_events_sends. intros event _ now d0 rq d1 _ [t Ht]. rewrite Hms in Ht.
    apply safe_between_Some in Ht as ([= ->] & _ & ?). lia. }
  destruct (Hk d) as (new & E & Hnew); [exists []; by rewrite app_nil_r; split; [|intros ? ? ?%elem_of_nil]|].
  by exists new.
Qed.

(** ** Acknowledgements are earned *)

(** Why an event may be acknowledged: its receiver accepted it, or it is in
    the dead-letter sink. *)
Definition reason (id : jstr) (tr : list effect) : Prop :=
  (exists st, Answered id st ∈ tr /\ 200 <= st < 300) \/ (exists l, Recorded l ∈ tr /\ eventId (dl_event l) = id).

Definition earned (tr : list effect) : Prop :=
  forall pre id post, tr = pre ++ Acknowledged id :: post -> reason id pre.

Lemma reason_snoc id tr x : reason id tr -> reason id (tr ++ [x]).
Proof. intros [(st & Hin & Hst)|(l & Hin & Hl)]; [left; exists st|right; exists l]; split; try done; apply elem_of_app; by left. Qed.

Lemma earned_snoc tr x :
  earned tr -> (forall id, x = Acknowledged id -> reason id tr) -> earned (tr ++ [x]).
Proof.
  intros He Hx pre id post E. destruct post as [|y post _] using rev_ind.
  - apply app_inj_tail in E as [-> ->]. by apply Hx.
  - rewrite app_comm_cons, app_assoc in E. apply app_inj_tail in E as [-> _]. by eapply He.
Qed.

Definition earnest (d : Dispatcher) : Prop := earned (effects d).
Definition earnest_for (id : jstr) (d : Dispatcher) : Prop := earned (effects d) /\ reason id (effects d).

Lemma earnest_emit x : (forall id, x <> Acknowledged id) -> keeps earnest (emit x).
Proof. intros Hx d Hd. apply earned_snoc; [done|]. intros id ->. by destruct (Hx id). Qed.

(** An earned acknowledgement. *)
Lemma ack_earned id now : keeps (earnest_for id) (ack id now).
Proof.
  unfold ack. apply keeps_bind; [by apply keeps_zoom|]. intros _ d [He Hr]. split; cbn.
  - apply earned_snoc; [done|]. by intros id' [= <-].
  - by apply reason_snoc.
Qed.

Ltac earn_step :=
  lazymatch goal with
  | |- keeps earnest (emit _) => apply earnest_emit; intros ? [=]
  | |- keeps earnest (zoom _ _ _) => apply keeps_zoom; intros
  | |- keeps _ (try_catch _ _) => apply keeps_try; [|intros]
  | |- _ => keeps_step
  end.
Ltac earn := repeat (cbv beta zeta; earn_step); try done.

Lemma keeps_weaken {A} (I J : Dispatcher -> Prop) (m : St Dispatcher A) d :
  keeps J m -> J d -> (forall d', J d' -> I d') -> I (m d).2.
Proof. intros Hm Hd HI. by apply HI, Hm. Qed.

(** After the event that earns it, an acknowledgement and what follows. *)
Lemma emit_then_ack {B} x id now (k : unit -> St Dispatcher B) d :
  earnest d -> (forall id', x <> Acknowledged id') -> reason id (effects d ++ [x]) ->
  (forall u, keeps (earnest_for id) (k u)) -> earnest ((emit x ≫= fun _ => ack id now ≫= k) d).2.
Proof.
  intros Hd Hx Hr Hk. cbv [mbind St_bind]. unfold emit at 1, smodify at 1.
  refine (keeps_weaken earnest (earnest_for id) (ack id now ≫= k) (set_effects (effects d ++ [x]) d) _ _ _);
    [|split|by intros ? [? _]].
  - apply keeps_bind; [apply ack_earned|done].
  - apply earned_snoc; [done|]. intros id' ->. by destruct (Hx id').
  - done.
Qed.

Lemma deadLetter_earned event rs at_ st : keeps earnest (deadLetter event rs at_ st).
Proof.
  unfold deadLetter, next_reading, yield. apply keeps_lift_bind. intros t _. cbv zeta.
  apply keeps_bind; [earn|intros n]. apply keeps_bind; [earn|intros _]. apply keeps_lift_bind. intros _ _ d Hd.
  apply emit_then_ack; [done|by intros ? [=]| |intros _; apply keeps_ret].
  right. eexists. split; [apply elem_of_app; right; apply list_elem_of_here|done].
Qed.

(** The response to an event has been read. *)
Definition answered (id : jstr) (st : Z) (d : Dispatcher) : Prop := earnest d /\ Answered id st ∈ effects d.

Lemma answered_emit id st x : (forall id', x <> Acknowledged id') -> keeps (answered id st) (emit x).
Proof. intros Hx d [He Hin]. split; [by apply earnest_emit|]. cbn. apply elem_of_app. by left. Qed.

Lemma sendBounded_answered id rq d st d' :
  earnest d -> sendBounded id rq d = (Ok st, d') -> answered id st d'.
Proof.
  unfold sendBounded, next_reading, yield. intros Hd. destruct (safe_between _ 1 60000); [|done].
  cbv [mbind St_bind emit smodify sget mret St_ret lift]. destruct (w_send _ _ _) as [st'|e]; [|done].
  intros [= -> <-]. split; cbn.
  - apply earned_snoc; [|done]. by apply earned_snoc.
  - apply elem_of_app. right. apply list_elem_of_here.
Qed.

Ltac answer_step :=
  lazymatch goal with
  | |- keeps (answered _ _) (emit _) => apply answered_emit; intros ? [=]
  | |- keeps (answered _ _) (zoom _ _ _) => apply keeps_zoom; intros
  | |- _ => keeps_step
  end.

(** The branches that follow a response. *)
Lemma settle_earned maximum event st d :
  answered (eventId event) st d ->
  earnest ((clock ≫= fun completed =>
    if (200 <=? st) && (st <? 300) then
      smodify (set_failures 0) ≫= fun _ =>
      smodify (set_circuit (Some 0)) ≫= fun _ =>
      ack (eventId event) completed ≫= fun _ =>
      mret {| do_eventId := eventId event; outcome := Delivered; do_status := Some st; error := None |}
    else if (st =? 429) || (500 <=? st) then
      recordFailure completed ≫= fun _ =>
      if maximum <=? attempts event then
        deadLetter event "partner retry budget exhausted" completed (Some st)
      else
        release (eventId event) (retry_at completed) completed ≫= fun _ =>
        mret (scheduled event (Some st) None)
    else deadLetter event "partner returned a permanent response" completed (Some st)) d).2.
Proof.
  intros [Hd Hin]. destruct (_ && _) eqn:E2.
  - rewrite andb_true_iff, Z.leb_le, Z.ltb_lt in E2.
    assert (Hr : earnest_for (eventId event) d) by (split; [done|left; by exists st]).
    refine (keeps_weaken earnest (earnest_for (eventId event)) _ d _ Hr _); [|by intros ? [? _]].
    unfold clock, next_reading. repeat (cbv beta zeta; keeps_step); try done. apply ack_earned.
  - assert (Hk : forall m : St Dispatcher DispatchOutcome, keeps earnest m -> earnest (m d).2) by (intros m Hm; by apply Hm).
    apply Hk. unfold clock, next_reading, recordFailure, release. earn; apply deadLetter_earned.
Qed.

Lemma dispatch_event_earned maximum event : keeps earnest (dispatch_event maximum event).
Proof.
  apply keeps_try.
  - unfold attempt. apply keeps_bind; [unfold clock, next_reading; earn|intros now]. apply keeps_bind; [apply keeps_get|intros d0].
    destruct (num_lt _ _); [unfold release; earn|].
    apply keeps_bind; [unfold request_of, nonce, next_reading; earn|intros rq d Hd].
    assert (Hs : keeps earnest (sendBounded (eventId event) rq)) by (unfold sendBounded, next_reading, yield; earn).
    pose proof (sendBounded_answered (eventId event) rq d) as Ha. specialize (Hs d Hd).
    unfold mbind at 1, St_bind at 1. destruct (sendBounded _ _ d) as [[st|e] d1]; [|done].
    apply settle_earned. by apply Ha.
  - intros e. unfold recover, clock, next_reading, recordFailure, release. earn; apply deadLetter_earned.
Qed.

(** C37: Nothing is dropped: the dispatcher acknowledges an event only after its
    partner answered that very event with a success status, or after the event
    was recorded in the dead-letter sink; a timeout, a rejection or a failing
    dead-letter write never leads to an acknowledgement. *)
Theorem acknowledged_only_when_earned d :
  effects d = [] ->
  forall pre id post, effects (dispatchOnce d).2 = pre ++ Acknowledged id :: post -> reason id pre.
Proof.
  intros Hd. assert (Hk : keeps earnest dispatchOnce).
  { unfold dispatchOnce, clock, next_reading. apply keeps_bind; [earn|intros now]. apply keeps_lift_bind. intros p _.
    apply keeps_bind; [earn|intros events]. induction events as [|event events IH]; [apply keeps_ret|]. cbn [dispatch_events].
    apply keeps_bind; [apply dispatch_event_earned|intros out]. apply keeps_bind; [exact IH|intros; apply keeps_ret]. }
  apply Hk. unfold earnest. rewrite Hd. by intros [|? ?].
Qed.

(** ** The circuit breaker *)

Definition is_sent (x : effect) : bool := match x with Sent _ _ => true | _ => false end.
Definition sent_count (tr : list effect) : Z := Z.of_nat (length (List.filter is_sent tr)).

Lemma sent_count_snoc tr x : sent_count (tr ++ [x]) = sent_count tr + (if is_sent x then 1 else 0).
Proof. unfold sent_count. rewrite List.filter_app, length_app. cbn. destruct (is_sent x); cbn; lia. Qed.

Section breaker.
Variables (start threshold cooldown : Z).
Hypothesis Hthreshold : circuitFailureThreshold options = Some (NInt threshold).
Hypothesis Hcooldown : circuitCooldownMs options = Some (NInt cooldown).
Hypothesis Hranges : 1 <= threshold <= 100 /\ 1 <= cooldown <= 3600000.
(** The partner is down, and the batch is over within the cooldown. *)
Hypothesis Hclock : forall n, exists t, w_clock w n = Some t /\ start <= t < start + cooldown /\ 0 <= t <= MAX_TIME.
Hypothesis Hdown : forall n rq st, w_send w n rq = Ok st -> st = 429 \/ 500 <= st.

Definition shut (d : Dispatcher) : Prop :=
  threshold <= consecutiveFailures d /\ sent_count (effects d) <= threshold /\
  exists u, circuitOpenUntil d = Some u /\ start + cooldown <= u.

(** So far, with at most [k] requests not yet counted as failures. *)
Definition within (k : Z) (d : Dispatcher) : Prop :=
  0 <= consecutiveFailures d < threshold /\ sent_count (effects d) <= consecutiveFailures d + k \/ shut d.

Lemma within_le k d : 0 <= k -> within 0 d -> within k d.
Proof. intros Hk [[? ?]|?]; [left; lia|by right]. Qed.

Lemma within_emit k x : is_sent x = false -> keeps (within k) (emit x).
Proof.
  intros Hx d Hd. unfold within, shut in *. cbn. rewrite sent_count_snoc, Hx, Z.add_0_r. exact Hd.
Qed.

Ltac within_step :=
  lazymatch goal with
  | |- keeps (within _) (emit _) => by apply within_emit
  | |- keeps (within _) (zoom _ _ _) => apply keeps_zoom; intros
  | |- keeps _ (try_catch _ _) => apply keeps_try; [|intros]
  | |- _ => keeps_step
  end.
Ltac within_steps := repeat (cbv beta zeta; within_step); try done.

Lemma clock_within k : keeps (within k) clock.
Proof. unfold clock, next_reading. within_steps. Qed.
Lemma release_within k id r now : keeps (within k) (release id r now).
Proof. unfold release. within_steps. Qed.
Lemma deadLetter_within k event rs at_ st : keeps (within k) (deadLetter event rs at_ st).
Proof. unfold deadLetter, next_reading, yield, ack. within_steps. Qed.

(** A recorded failure accounts for the last request. *)
Lemma recordFailure_counts at_ t d :
  at_ = Some t -> start <= t < start + cooldown -> 0 <= t <= MAX_TIME -> within 1 d -> within 0 (recordFailure at_ d).2.
Proof.
  intros -> Ht Hmax Hd. unfold recordFailure. rewrite Hthreshold. cbn [default from_option]; unfold id.
  rewrite (proj2 (safe_between_Some (NInt threshold) 1 100 threshold)) by (unfold MAX_SAFE_INTEGER; split_and!; done || lia).
  cbv [mbind St_bind smodify sget mret St_ret]. cbn [consecutiveFailures set_failures].
  assert (Ef : consecutiveFailures d < 2 ^ 53 -> num_add (consecutiveFailures d) 1 = consecutiveFailures d + 1 \/ consecutiveFailures d < 0).
  { intros. destruct (Z.lt_ge_cases (consecutiveFailures d) 0); [by right|left]. apply round53_small. lia. }
  assert (Eg : 2 ^ 53 <= consecutiveFailures d -> 2 ^ 53 <= num_add (consecutiveFailures d) 1) by (intros; apply round53_big; lia).
  assert (Eu : num_add t cooldown = t + cooldown) by (apply round53_small; unfold MAX_TIME in *; lia).
  destruct (threshold <=? num_add (consecutiveFailures d) 1) eqn:E; rewrite ?Z.leb_le, ?Z.leb_gt in E;
    destruct Hd as [[Hf Hn]|(Hf & Hn & u & Hu & Hlt)].
  - right. split_and!; cbn; [done|lia|]. rewrite Hcooldown. cbn. rewrite Eu. eexists. split; [done|lia].
  - right. split_and!; cbn; [done|done|]. rewrite Hcooldown. cbn. rewrite Eu. eexists. split; [done|lia].
  - left. cbn. lia.
  - right. lia.
Qed.

(** The clock as the hypotheses give it. *)
Lemma clock_reads d : exists t, start <= t < start + cooldown /\ 0 <= t <= MAX_TIME /\
  clock d = (Ok (Some t), set_readings (1 + readings d) d).
Proof. destruct (Hclock (readings d)) as (t & E & Ht & Hm). exists t. split_and!; try lia. unfold clock, next_reading. cbv [mbind St_bind sget smodify mret St_ret]. by rewrite E. Qed.

(** The breaker has not tripped. *)
Definition up (d : Dispatcher) : Prop :=
  0 <= consecutiveFailures d < threshold /\ sent_count (effects d) <= consecutiveFailures d.

(** A request to the partner fails, and is the only one not yet counted. *)
Lemma sendBounded_fails id rq d :
  up d ->
  match sendBounded id rq d with
  | (Ok st, d') => (st = 429 \/ 500 <= st) /\ within 1 d'
  | (Throw _, d') => within 1 d'
  end.
Proof.
  intros [Hf Hn]. unfold sendBounded, next_reading, yield.
  destruct (safe_between _ 1 60000); [|left; cbn; lia].
  cbv [mbind St_bind emit smodify sget mret St_ret lift]. destruct (w_send _ _ _) as [st|e] eqn:E.
  - split; [by eapply Hdown|]. left. cbn. rewrite !sent_count_snoc. cbn. lia.
  - left. cbn. rewrite !sent_count_snoc. cbn. lia.
Qed.

(** The branches after a failing response leave nothing uncounted; an
    exception on the way leaves at most the one request. *)
Lemma attempt_within maximum event d :
  within 0 d ->
  match attempt maximum event d with (Ok _, d') => within 0 d' | (Throw _, d') => within 1 d' end.
Proof.
  intros Hd. unfold attempt. cbv [mbind St_bind]. destruct (clock_reads d) as (t & Ht & Hm & ->).
  set (d1 := set_readings _ d). assert (Hd1 : within 0 d1) by exact Hd. unfold sget. clearbody d1. clear Hd d.
  assert (Hrel : within 0 (release (eventId event) (date_of (circuitOpenUntil d1)) (Some t) d1).2) by (by apply release_within).
  destruct (num_lt (Some t) (circuitOpenUntil d1)) eqn:Eopen.
  { destruct (release _ _ _ d1) as [[u|e] d2]; [exact Hrel|by apply within_le]. }
  assert (Hup : up d1).
  { destruct Hd1 as [[? ?]|(_ & _ & u & Eu & Hu)]; [split; lia|]. rewrite Eu in Eopen. cbn in Eopen. apply Z.ltb_ge in Eopen. lia. }
  assert (Hreq : keeps up (request_of event (Some t))) by (unfold request_of, nonce, next_reading; keeps_steps; done).
  specialize (Hreq d1 Hup).
  destruct (request_of event (Some t) d1) as [[rq|e] d2]; cbn [snd] in Hreq; [|destruct Hreq; left; lia].
  pose proof (sendBounded_fails (eventId event) rq d2 Hreq) as Hsend.
  destruct (sendBounded _ _ d2) as [[st|e] d3]; [|done]. destruct Hsend as [Hst Hd3].
  destruct (clock_reads d3) as (t' & Ht' & Hm' & ->). set (d4 := set_readings _ d3).
  assert (Hd4 : within 1 d4) by exact Hd3. clearbody d4.
  rewrite (proj2 (andb_false_iff _ _)) by (rewrite Z.leb_gt, Z.ltb_ge; lia).
  assert (Ebad : (st =? 429) || (500 <=? st) = true) by (rewrite orb_true_iff, Z.eqb_eq, Z.leb_le; lia). rewrite Ebad.
  pose proof (recordFailure_counts (Some t') t' d4 eq_refl Ht' Hm' Hd4) as Hrec.
  destruct (recordFailure (Some t') d4) as [[u|e] d5]; [|by apply within_le]. cbn [snd] in Hrec.
  destruct (maximum <=? attempts event).
  - pose proof (deadLetter_within 0 event "partner retry budget exhausted" (Some t') (Some st) d5 Hrec) as Hdl.
    destruct (deadLetter _ _ _ _ d5) as [[o|e] d6]; [done|by apply within_le].
  - pose proof (release_within 0 (eventId event) (retry_at (Some t')) (Some t') d5 Hrec) as Hrel'.
    destruct (release _ _ _ d5) as [[o|e] d6]; [done|by apply within_le].
Qed.

Lemma bind_eq {A B} (m : St Dispatcher A) (k : A -> St Dispatcher B) d :
  (m ≫= k) d = match m d with (Ok a, d') => k a d' | (Throw e, d') => (Throw e, d') end.
Proof. done. Qed.

Lemma recover_within maximum event e d : within 1 d -> within 0 (recover maximum event e d).2.
Proof.
  intros Hd. unfold recover. rewrite bind_eq. destruct (clock_reads d) as (t & Ht & Hm & ->). rewrite bind_eq.
  set (d1 := set_readings _ d). assert (Hd1 : within 1 d1) by exact Hd. clearbody d1.
  pose proof (recordFailure_counts (Some t) t d1 eq_refl Ht Hm Hd1) as Hrec.
  destruct (recordFailure (Some t) d1) as [[u|er] d2]; [|exact Hrec]. cbn [snd] in Hrec. revert d2 Hrec.
  match goal with |- forall d2, _ -> within 0 (?m d2).2 => change (keeps (within 0) m) end.
  cbv zeta. within_steps; first [apply release_within|apply deadLetter_within].
Qed.

Lemma dispatch_event_within maximum event : keeps (within 0) (dispatch_event maximum event).
Proof.
  intros d Hd. unfold dispatch_event, try_catch. pose proof (attempt_within maximum event d Hd) as Ha.
  destruct (attempt _ _ d) as [[o|e] d1]; [done|by apply recover_within].
Qed.

(** The circuit breaker: while the partner answers nothing but failures, a
    dispatch that ends within the cooldown sends at most as many requests as
    the failure threshold, however many events it claimed. *)
Theorem breaker_limits_sends d :
  effects d = [] -> consecutiveFailures d = 0 -> sent_count (effects (dispatchOnce d).2) <= threshold.
Proof.
  intros He Hf. assert (Hk : keeps (within 0) dispatchOnce).
  { unfold dispatchOnce. apply keeps_bind; [apply clock_within|intros now]. apply keeps_lift_bind. intros p _.
    apply keeps_bind; [within_steps|intros events]. induction events as [|event events IH]; [apply keeps_ret|]. cbn [dispatch_events].
    apply keeps_bind; [apply dispatch_event_within|intros out]. apply keeps_bind; [exact IH|intros; apply keeps_ret]. }
  assert (H0d : within 0 d) by (left; rewrite He, Hf; unfold sent_count; cbn; lia).
  destruct (Hk d H0d) as [[? ?]|(_ & ? & _)]; lia.
Qed.
End breaker.

(** ** Over a source that keeps its promise *)

Section settled.
Context `{!OutboxLeaseLaws S}.

(** What other connections do to the source respects it. *)
Definition lawful : Prop :=
  (forall n s, sound s -> sound (w_others w n s)) /\
  (forall n id s, sound s -> settled id s -> settled id (w_others w n s)).

Hypothesis Hothers : lawful.

(** Everything acknowledged so far is settled, and so is [id] if it was. *)
Definition on_record (id : jstr) (old : bool) (d : Dispatcher) : Prop :=
  sound (source d) /\ (old = true -> settled id (source d)) /\
  (Acknowledged id ∈ effects d -> settled id (source d)).

Lemma on_record_same id old (d d' : Dispatcher) :
  source d' = source d -> effects d' = effects d -> on_record id old d -> on_record id old d'.
Proof. unfold on_record. by intros -> ->. Qed.

Lemma on_record_emit id old x : (forall id', x <> Acknowledged id') -> keeps (on_record id old) (emit x).
Proof.
  intros Hx d (Hs & Ho & Ha). split_and!; try done. cbn.
  intros [Hin|E%list_elem_of_singleton]%elem_of_app; [by apply Ha|by destruct (Hx id)].
Qed.

(** An operation of the source keeps what is settled. *)
Lemma on_record_zoom {A} id old (m : St S A) :
  keeps sound m -> keeps (fun s => sound s /\ settled id s) m -> keeps (on_record id old) (zoom source set_source m).
Proof.
  intros Hm Hk d (Hs & Ho & Ha). unfold zoom. specialize (Hm _ Hs). specialize (Hk (source d)).
  destruct (m (source d)) as [r s']. split_and!; cbn in *; [done| |]; intros E; apply Hk; split; auto.
Qed.

Lemma on_record_yield id old n : keeps (on_record id old) (yield n).
Proof.
  intros d (Hs & Ho & Ha). destruct Hothers as [H1 H2]. split_and!; cbn; [by apply H1| |]; intros E; apply H2; auto.
Qed.

Lemma ack_on_record id old id' now : keeps (on_record id old) (ack id' now).
Proof.
  intros d Hd. unfold ack. pose proof (on_record_zoom id old (acknowledgeOutbox id' (workerId options) now)
    (sound_acknowledge _ _ _) (settled_acknowledge _ _ _ _) d Hd) as Hz.
  pose proof (acknowledge_settles id' (workerId options) now (source d)) as Hack.
  rewrite bind_eq.
  unfold zoom in *. destruct (acknowledgeOutbox _ _ _ (source d)) as [[[]|e] s']; [|exact Hz].
  destruct Hz as (Hs' & Ho' & Ha'). split_and!; cbn in *; [done|done|].
  intros [Hin|E%list_elem_of_singleton]%elem_of_app; [by apply Ha'|].
  injection E as ->. eapply Hack; [apply Hd|done].
Qed.

Ltac record_step :=
  lazymatch goal with
  | |- keeps (on_record _ _) (emit _) => apply on_record_emit; intros ? [=]
  | |- keeps (on_record _ _) (yield _) => apply on_record_yield
  | |- keeps (on_record _ _) (ack _ _) => apply ack_on_record
  | |- keeps (on_record _ _) (zoom _ _ (claimOutbox _ _ _ _)) =>
      apply on_record_zoom; [apply sound_claim|apply settled_claim]
  | |- keeps (on_record _ _) (zoom _ _ (releaseOutbox _ _ _ _)) =>
      apply on_record_zoom; [apply sound_release|apply settled_release]
  | |- keeps (on_record _ _) (smodify _) =>
      apply keeps_modify; intros; by eapply on_record_same; [| |eassumption]
  | |- keeps _ (try_catch _ _) => apply keeps_try; [|intros]
  | |- _ => keeps_step
  end.
Ltac records := repeat (cbv beta zeta; record_step).

Lemma dispatch_event_on_record id old maximum event : keeps (on_record id old) (dispatch_event maximum event).
Proof.
  unfold dispatch_event, attempt, recover, deadLetter, release, sendBounded, request_of, recordFailure, clock, nonce, next_reading.
  records.
Qed.

Lemma dispatchOnce_on_record id old : keeps (on_record id old) dispatchOnce.
Proof.
  unfold dispatchOnce, clock, next_reading. do 2 (apply keeps_bind; [records|intros]). apply keeps_bind; [records|intros events].
  induction events as [|event events IH]; [apply keeps_ret|]. cbn [dispatch_events].
  apply keeps_bind; [apply dispatch_event_on_record|intros out]. apply keeps_bind; [exact IH|intros; apply keeps_ret].
Qed.

(** Nothing is sent for an event that was settled before the dispatch. *)
Lemma settled_unsent id d :
  sound (source d) -> settled id (source d) ->
  exists new, effects (dispatchOnce d).2 = effects d ++ new /\ forall rq, Sent id rq ∉ new.
Proof.
  intros Hs Hd. unfold dispatchOnce, clock, next_reading. cbv [mbind St_bind sget smodify mret St_ret lift].
  destruct policy as [p|e]; [|by exists []; rewrite app_nil_r; split; [|intros ? ?%elem_of_nil]].
  unfold zoom. cbn [source set_readings readings].
  pose proof (settled_unclaimed id (workerId options) (default (NInt 10) (batchSize options)) (NInt p.1)
    (w_clock w (readings d)) (source d)) as Hun.
  destruct (claimOutbox _ _ _ _ (source d)) as [[events|e] s1];
    [|by exists []; rewrite app_nil_r; split; [|intros ? ?%elem_of_nil]].
  specialize (Hun events s1 Hs Hd eq_refl).
  set (d1 := set_source s1 _). assert (E1 : effects d1 = effects d) by done. clearbody d1. rewrite <-E1.
  pose proof (dispatch_events_sends (fun id' _ => id' <> id) (effects d1) p.2 events) as Hsends.
  destruct (Hsends ltac:(intros ev Hev now d0 rq d2 _ _ <-; apply Hun; by apply list_elem_of_fmap_2) d1) as (new & E & Hnew).
  { exists []. rewrite app_nil_r. split; [done|]. by intros ? ? ?%elem_of_nil. }
  exists new. split; [done|]. intros rq Hin. by apply (Hnew id rq).
Qed.
End settled.
End dispatcher.

(** ** Any number of dispatchers *)

Section passes.
Context `{Host} {S : Type} `{OutboxLeaseSource S} `{!OutboxLeaseLaws S}.

(** One dispatch of any dispatcher, with whatever breaker state, policy, key
    and environment, from the source [s], doing [tr] and leaving [s']. *)
Definition pass (s : S) (tr : list effect) (s' : S) : Prop :=
  exists (w : World) (options : Options) (key : PartnerSigningKey) (d : Dispatcher),
    lawful w /\ source d = s /\ effects d = [] /\
    effects (dispatchOnce w options key d).2 = tr /\ source (dispatchOnce w options key d).2 = s'.

Lemma pass_keeps id s tr s' :
  pass s tr s' -> sound s -> sound s' /\ (settled id s -> settled id s') /\ (Acknowledged id ∈ tr -> settled id s').
Proof.
  intros (w & options & key & d & Hw & <- & He & <- & <-) Hs.
  assert (H1 : on_record id false d) by (split_and!; [done|done|by rewrite He; intros ?%elem_of_nil]).
  pose proof (dispatchOnce_on_record w options key Hw id false d H1) as (Hs' & _ & Ha). split_and!; [done| |done].
  intros Hd. assert (H2 : on_record id true d) by (split_and!; [done|done|by rewrite He; intros ?%elem_of_nil]).
  pose proof (dispatchOnce_on_record w options key Hw id true d H2) as (_ & Ho & _). by apply Ho.
Qed.

(** Settled once: once any dispatcher has acknowledged an event, no later
    dispatch by any dispatcher, with any policy, clock and breaker state, and
    with any lawful connections in between, sends it again. *)
Theorem acknowledged_never_resent id s tr s1 s2 tr' s3 :
  sound s -> pass s tr s1 -> Acknowledged id ∈ tr ->
  rtc (fun a b => exists tr, pass a tr b) s1 s2 -> pass s2 tr' s3 -> forall rq, Sent id rq ∉ tr'.
Proof.
  intros Hs H1 Hack Hruns H3 rq. destruct (pass_keeps id _ _ _ H1 Hs) as (Hs1 & _ & Hd1). specialize (Hd1 Hack).
  assert (Hd2 : sound s2 /\ settled id s2).
  { clear -Hruns Hs1 Hd1. induction Hruns as [a|a b c [t Hab] _ IH]; [done|].
    destruct (pass_keeps id _ _ _ Hab Hs1) as (Hb & Hk & _). auto. }
  destruct Hd2 as [Hs2 Hd2]. destruct H3 as (w & options & key & d & Hw & <- & He & <- & _).
  destruct (settled_unsent w options key id d Hs2 Hd2) as (new & E & Hnew). rewrite E, He. apply Hnew.
Qed.
End passes.

(** ** operations.ts *)

Module TransportOperations.

Record ReadinessChecks : Type := {
  signingKeyConfigured : bool; replayStoreReachable : bool; outboxReachable : bool; partnerAdapterConfigured : bool;
}.
Record PartnerTransportReadiness : Type := { ready : bool; checks : ReadinessChecks }.

(** [Object.values(checks).every(Boolean)] *)
Definition partnerTransportReadiness (c : ReadinessChecks) : PartnerTransportReadiness :=
  {| ready := signingKeyConfigured c && replayStoreReachable c && outboxReachable c && partnerAdapterConfigured c;
     checks := c |}.

Record PartnerTransportMetrics : Type := {
  generatedAt : jstr; claimedTotal : Z; deliveredTotal : Z; retryScheduledTotal : Z; rejectedTotal : Z;
  signatureRejectedTotal : Z; replayRejectedTotal : Z; inFlight : Z; oldestPendingAgeSeconds : Z;
}.

Definition emptyPartnerTransportMetrics (now : Date) : result PartnerTransportMetrics :=
  match now with
  | None => Throw "invalid metrics time"
  | Some t => Ok {| generatedAt := iso_string t; claimedTotal := 0; deliveredTotal := 0; retryScheduledTotal := 0;
      rejectedTotal := 0; signatureRejectedTotal := 0; replayRejectedTotal := 0; inFlight := 0;
      oldestPendingAgeSeconds := 0 |}
  end.
End TransportOperations.
