(* ===== verification/PartnerEndToEnd.v ===== *)
(** PartnerEndToEnd: the durable outbox as the dispatcher's lease source, and
    the composition of store, dispatcher, wire format and receiver. *)
From stdpp Require Import relations.
From S2P Require Import Prelude JsString JsMap Host TestHost JsTime IsoOrder JsJson JsParse PartnerContract PartnerReceiver.
From S2P Require Import DurableStore DurableSteps DurableRecords DurableOutbox DurableRuns PartnerDispatch.
#[local] Open Scope string_scope.
#[local] Open Scope list_scope.
#[local] Open Scope Z_scope.
#[local] Open Scope js_scope.

(** ** The store implements the interface *)

Section durable_source.
Context `{Host, Sqlite}.

(** The dispatcher passes its own clock readings, so that the store reads none. *)
Definition unread : Env := {| env_uuid := fun _ => []; env_challengeId := []; env_clock := fun _ => None |}.

#[export] Instance durable_outbox : OutboxLeaseSource DurableStore.t :=
  {| claimOutbox w l m now := DurableStore.claimOutbox w l m (Some now) unread;
     acknowledgeOutbox ev w now := DurableStore.acknowledgeOutbox ev w (Some now) unread;
     releaseOutbox ev w r now := DurableStore.releaseOutbox ev w r (Some now) unread |}.

Context `{!SqliteLaws _}.

Definition sound_store (s : DurableStore.t) : Prop := ready s /\ wf (DurableStore.tables s).
Definition settled_store (ev : jstr) (s : DurableStore.t) : Prop := plain ev -> delivered ev (DurableStore.tables s).

Lemma call_sound c s : good_call c -> sound_store s -> sound_store (run_call c s).
Proof.
  intros Hg [Hr W]. split; [by apply call_steps|].
  apply (history_wf (fun _ => True) s _); [|done..]. eapply history_call; [done|exact Hg|constructor].
Qed.

Lemma call_settled ev c s :
  good_call c -> sound_store s /\ settled_store ev s -> sound_store (run_call c s) /\ settled_store ev (run_call c s).
Proof.
  intros Hg [Hs Hd]. split; [by apply call_sound|]. intros Hp. destruct Hs as [Hr _].
  destruct (call_steps c s Hg Hr) as [Hsteps _]. specialize (Hd Hp). revert Hsteps Hd. apply steps_keep.
  intros ch T Hch. apply (delivered_step (fun _ => True)). by exists c.
Qed.

Lemma acknowledged_delivered ev w now e s s' :
  sound_store s -> DurableStore.acknowledgeOutbox ev w now e s = (Ok tt, s') -> delivered ev (DurableStore.tables s').
Proof. intros [_ W]. by apply acknowledge_delivers. Qed.

#[export] Instance durable_outbox_laws : OutboxLeaseLaws DurableStore.t.
Proof.
  refine {| sound := sound_store; settled := settled_store |}; cbn.
  - intros w l m now s. apply (call_sound (CallClaim w l m (Some now) unread) s I).
  - intros ev w now s. apply (call_sound (CallAcknowledge ev w (Some now) unread) s I).
  - intros ev w r now s. apply (call_sound (CallRelease ev w r (Some now) unread) s I).
  - intros ev w l m now s. apply (call_settled ev (CallClaim w l m (Some now) unread) s I).
  - intros ev ev' w now s. apply (call_settled ev (CallAcknowledge ev' w (Some now) unread) s I).
  - intros ev ev' w r now s. apply (call_settled ev (CallRelease ev' w r (Some now) unread) s I).
  - intros ev w now s s' Hs Ha Hp. by eapply acknowledged_delivered.
  - intros ev w l m now s evs s' [_ W] Hd Hc Hin. by eapply (delivered_unclaimed ev).
Defined.
End durable_source.

(** ** From the outbox to the application *)

Section end_to_end.
Context `{Host} {S : Type} `{OutboxLeaseSource S}.
Variables (w : @World S) (options : Options) (key : PartnerSigningKey).

(** [rq] is the request for [event], signed under some nonce at some second. *)
Definition built_from (event : OutboxEvent) (nonce : jstr) (t : Z) (rq : PartnerWebhookRequest) : Prop :=
  encodePartnerEnvelope (payload event) = Ok (rq_body rq) /\
  same_text (field_of "aggregateId" (payload event)) (JStr (aggregateId event)) = true /\
  signPartnerWebhook (rq_body rq) (eventKey event) nonce (NInt t) key = Ok (rq_headers rq).

Lemma request_built event now d rq d' :
  request_of w key event now d = (Ok rq, d') -> exists nonce t, built_from event nonce t rq.
Proof.
  unfold request_of. intros (? & ? & _ & Hr)%bind_Ok_inv.
  apply bind_Ok_inv in Hr as (? & ? & [Hagg%throw_unless_Ok _]%lift_inv & Hr).
  apply bind_Ok_inv in Hr as (body & ? & [Hbody _]%lift_inv & Hr). apply bind_Ok_inv in Hr as (n & ? & _ & Hr).
  apply bind_Ok_inv in Hr as (headers & ? & [Hsign _]%lift_inv & [= <- _]).
  unfold epoch_seconds in Hsign. destruct now as [t|].
  - exists n, (t / 1000). by split_and!.
  - unfold signPartnerWebhook in Hsign. by do 3 apply result_bind_Ok in Hsign as (? & _ & Hsign).
Qed.

(** Every request a dispatch sends is built from an event it claimed. *)
Lemma requests_built d id rq :
  effects d = [] -> Sent id rq ∈ effects (dispatchOnce w options key d).2 ->
  exists events s1 event nonce t,
    claimOutbox (workerId options) (default (NInt 10) (batchSize options)) (NInt (match policy options with Ok p => p.1 | _ => 0 end))
      (w_clock w (readings d)) (source d) = (Ok events, s1) /\
    event ∈ events /\ id = eventId event /\ built_from event nonce t rq.
Proof.
  intros He. unfold dispatchOnce, clock, next_reading. cbv [mbind St_bind sget smodify mret St_ret lift].
  destruct (policy options) as [p|e]; [|cbn; rewrite He; by intros ?%elem_of_nil].
  unfold zoom. cbn [source set_readings readings].
  destruct (claimOutbox _ _ _ _ (source d)) as [[events|e] s1]; [|cbn; rewrite He; by intros ?%elem_of_nil].
  set (d1 := set_source s1 _). assert (E1 : effects d1 = []) by done. clearbody d1.
  pose proof (dispatch_events_sends w options key (fun id rq => exists event nonce t, event ∈ events /\ id = eventId event /\
    built_from event nonce t rq) (effects d1) p.2 events) as Hsends.
  destruct (Hsends ltac:(intros ev Hev now d0 rq0 d2 Hrq _; destruct (request_built _ _ _ _ _ Hrq) as (n & t & Hb);
    by exists ev, n, t) d1) as (new & E & Hnew).
  { exists []. rewrite app_nil_r. split; [done|]. by intros ? ? ?%elem_of_nil. }
  rewrite E, E1. intros Hin. destruct (Hnew id rq Hin) as (event & n & t & Hev & Hid & Hb).
  by exists events, s1, event, n, t.
Qed.

(** The headers the receiver keys its record on. *)
Lemma built_headers event nonce t rq :
  built_from event nonce t rq ->
  header "x-airlock-key-id" (rq_headers rq) = Some (sk_keyId key) /\
  header "idempotency-key" (rq_headers rq) = Some (eventKey event).
Proof.
  intros (_ & _ & Hs). unfold signPartnerWebhook in Hs. do 3 apply result_bind_Ok in Hs as (? & _ & Hs).
  destruct (safe_between _ _ _); [|done]. by apply result_bind_Ok in Hs as (? & _ & [= <-]).
Qed.

Context {R I A : Type} `{ReplayStore R, PartnerIdempotencyStore I, !ReplayStoreLaws R, !PartnerIdempotencyLaws I}.
Variables (resolveKey : jstr -> option (list N)) (apply_event : jsval -> St A unit).

(** The partner's side of a request. *)
Definition delivery_of (rq : PartnerWebhookRequest) (now : jsnum) : Delivery :=
  {| dl_body := rq_body rq; dl_headers := rq_headers rq; dl_now := now |}.

(** A request built from an event is accepted, and no later one of the same key
    and event key changes the application again. *)
Lemma built_applied_once event nonce t rq now (s : Receiver) a :
  built_from event nonce t rq -> resolveKey (sk_keyId key) = Some (secret key) ->
  distinct_keys (payload event) -> Z.abs now <= MAX_SAFE_INTEGER -> Z.abs (now - t) <= DEFAULT_REPLAY_WINDOW_SECONDS ->
  unused (sk_keyId key +:+ ":" +:+ nonce) (replays s) -> unanswered (sk_keyId key +:+ ":" +:+ eventKey event) (PartnerReceiver.answered s) ->
  apply_event (payload event) (application s) = (Ok tt, a) ->
  exists s1,
    receivePartnerWebhook resolveKey apply_event (delivery_of rq (NInt now)) s =
      (Ok {| rc_status := 202; rc_code := "ACCEPTED"; rc_eventId := event_id (payload event) |}, s1) /\
    application s1 = a /\
    forall s2 event' nonce' t' rq' now', deliveries resolveKey apply_event (fun _ => True) s1 s2 ->
      built_from event' nonce' t' rq' -> eventKey event' = eventKey event ->
      application (receivePartnerWebhook resolveKey apply_event (delivery_of rq' now') s2).2 = application s2.
Proof.
  intros Hb Hkey Hd Hnow Hwin Hun Han Happ. pose proof Hb as (Henc & Hagg & Hsign).
  destruct (delivery_accepted resolveKey apply_event (payload event) (rq_body rq) (eventKey event) nonce t key (rq_headers rq)
    now s a Henc Hd Hsign Hkey Hnow Hwin Hun Han Happ) as (s' & Hr & Ha).
  exists s'. split_and!; [exact Hr|done|]. intros s2 event' nonce' t' rq' now' Hds Hb' Hek.
  destruct (built_headers _ _ _ _ Hb) as [Hk1 Hi1]. destruct (built_headers _ _ _ _ Hb') as [Hk2 Hi2].
  destruct (receivePartnerWebhook _ _ (delivery_of rq' now') s2) as [res s3] eqn:E.
  eapply (applied_once resolveKey apply_event (delivery_of rq (NInt now)) s _ s' s2 (delivery_of rq' now') res s3);
    [exact Hr|exact Hds| |exact E].
  unfold same_headers, delivery_of. cbn [dl_headers].
  repeat (apply Forall_cons; split; [congruence|]). constructor.
Qed.
End end_to_end.

Section durable_end_to_end.
Context `{Host, Sqlite, !SqliteLaws _}.
Context {R I A : Type} `{ReplayStore R, PartnerIdempotencyStore I, !ReplayStoreLaws R, !PartnerIdempotencyLaws I}.
Variables (w : World (S := DurableStore.t)) (options : Options) (key : PartnerSigningKey).
Variables (resolveKey : jstr -> option (list N)) (apply_event : jsval -> St A unit).

(** C34: From the outbox to the partner's application: a request the dispatcher
    sends is built from an event that its claim returned, which holds what the
    store reads of an undelivered, due row without a live lease.  A partner that
    knows the signing key and receives the request within the window, under a
    nonce and an event key new to it, with a payload that names no member twice
    and that its application takes, accepts it and applies exactly the payload of
    that row; and no later delivery of any request the same signing key built for
    an event of the same event key, such as a retry, changes the application
    again. *)
Theorem outbox_event_applied_once d id rq :
  sound_store (source d) -> effects d = [] -> Sent id rq ∈ effects (dispatchOnce w options key d).2 ->
  resolveKey (sk_keyId key) = Some (secret key) ->
  exists at_ms events s' r event nonce t,
    w_clock w (readings d) = Some at_ms /\
    claimOutbox (workerId options) (default (NInt 10) (batchSize options)) (NInt (match policy options with Ok p => p.1 | _ => 0 end))
      (Some at_ms) (source d) = (Ok events, s') /\ event ∈ events /\
    r ∈ DurableStore.outbox_events (DurableStore.tables (source d)) /\ DurableStore.claimable (iso_string at_ms) r = true /\ reads r event /\
    id = eventId event /\ built_from key event nonce t rq /\
    forall now (s : Receiver) a,
      distinct_keys (payload event) -> Z.abs now <= MAX_SAFE_INTEGER -> Z.abs (now - t) <= DEFAULT_REPLAY_WINDOW_SECONDS ->
      unused (sk_keyId key +:+ ":" +:+ nonce) (replays s) -> unanswered (sk_keyId key +:+ ":" +:+ eventKey event) (PartnerReceiver.answered s) ->
      apply_event (payload event) (application s) = (Ok tt, a) ->
      exists s1,
        receivePartnerWebhook resolveKey apply_event (delivery_of rq (NInt now)) s =
          (Ok {| rc_status := 202; rc_code := "ACCEPTED"; rc_eventId := event_id (payload event) |}, s1) /\
        application s1 = a /\
        forall s2 event' nonce' t' rq' now', deliveries resolveKey apply_event (fun _ => True) s1 s2 ->
          built_from key event' nonce' t' rq' -> eventKey event' = eventKey event ->
          application (receivePartnerWebhook resolveKey apply_event (delivery_of rq' now') s2).2 = application s2.
Proof.
  intros [Hr W] He Hin Hkey. destruct (requests_built w options key d id rq He Hin) as (events & s1 & event & nonce & t & Hclaim & Hev & Hid & Hb).
  destruct (w_clock w (readings d)) as [at_ms|] eqn:Ec.
  2:{ cbn in Hclaim. unfold DurableStore.claimOutbox in Hclaim. by destruct (bind_Ok_inv _ _ _ _ _ Hclaim) as (? & ? & [_ ->]%lift_inv & ?). }
  destruct (claim_from _ _ _ _ _ _ _ _ _ W Hclaim Hev) as (r & Hrow & _ & Hcl & Hrd).
  exists at_ms, events, s1, r, event, nonce, t. split_and!; try done.
  intros now s a Hd Hnow Hwin Hun Han Happ. by eapply built_applied_once.
Qed.
End durable_end_to_end.
