(* ===== verification/PartnerRuns.v ===== *)
(** PartnerRuns: a concrete event carried from the durable outbox to the
    partner, and the theorems on the dispatcher and on the composition applied
    there. *)
From stdpp Require Import relations.
From S2P Require Import Prelude JsString JsMap Host TestHost JsTime IsoOrder JsJson JsParse PartnerContract PartnerReceiver.
From S2P Require Import DurableStore DurableSteps DurableRecords DurableOutbox DurableRuns PartnerDispatch PartnerEndToEnd.
#[local] Open Scope string_scope.
#[local] Open Scope list_scope.
#[local] Open Scope Z_scope.
#[local] Open Scope js_scope.
#[local] Existing Instances test_host test_sqlite test_sqlite_laws.

Lemma sample_distinct : distinct_keys sample_envelope.
Proof.
  cbn. split; [apply (bool_decide_unpack _); by vm_compute|]. repeat split.
  apply (bool_decide_unpack _); by vm_compute.
Qed.
Lemma sample_envelope_valid : assertPartnerEnvelope sample_envelope = Ok tt.
Proof. by vm_compute. Qed.
Lemma sample_envelope_clean : json_clean sample_envelope.
Proof. exact (envelope_clean _ _ sample_envelope_valid sample_distinct). Qed.

(** One due event in the outbox. *)
Definition partner_enqueue : call :=
  CallEnqueue "idempotency-1" "authorization" "authorization-1" sample_envelope at_noon run_env.
Definition outbox_store : DurableStore.t := run_call partner_enqueue opened.
Lemma outbox_sound : sound (S := DurableStore.t) outbox_store.
Proof. apply (call_keeps partner_enqueue opened); [|apply opened_ready]. split; [by apply plain_check|exact sample_envelope_clean]. Qed.

Definition world (answer : result Z) : World (S := DurableStore.t) := {|
  w_clock := fun _ => Some noon; w_nonce := fun _ => "nonce-1"; w_send := fun _ _ => answer;
  w_sink := fun _ _ => Ok tt; w_others := fun _ s => s |}.
Definition options (timeout : option jsnum) : Options := {|
  workerId := "worker-1"; leaseMs := Some (NInt 100000); batchSize := None; retryDelayMs := None; requestTimeoutMs := timeout;
  maximumAttempts := None; circuitFailureThreshold := Some (NInt 3); circuitCooldownMs := Some (NInt 30000) |}.
Definition idle (s : DurableStore.t) : Dispatcher (S := DurableStore.t) :=
  {| source := s; consecutiveFailures := 0; circuitOpenUntil := Some 0; readings := 0; effects := [] |}.
#[local] Abbreviation dispatch answer timeout s := (dispatchOnce (world answer) (options timeout) sample_key (idle s)).

Definition claim_at_noon := PartnerDispatch.claimOutbox "worker-1" (NInt 10) (NInt 100000) (Some noon) outbox_store.
Definition noon_events : list OutboxEvent := match claim_at_noon.1 with Ok evs => evs | Throw _ => [] end.
Lemma claim_at_noon_made : claim_at_noon = (Ok noon_events, claim_at_noon.2).
Proof. by apply pair_eq; vm_compute. Qed.

Lemma dispatch_reports_every_event_witness :
  exists outs d', dispatch (Throw "partner request timed out") None outbox_store = (Ok outs, d') /\
    map do_eventId outs = map eventId noon_events.
Proof.
  apply (dispatch_reports_every_event _ _ _ (100000, 8) (idle outbox_store) noon_events claim_at_noon.2);
    [by vm_compute|exact claim_at_noon_made].
Defined.

Lemma oversized_timeout_never_sends_witness :
  exists new, effects (dispatch (Ok 200) (Some (NInt 60001)) outbox_store).2 = [] ++ new /\
    forall id rq, Sent id rq ∉ new.
Proof.
  apply (oversized_timeout_never_sends _ _ _ (100000, 8) 60001 (idle outbox_store)); [done|done|by vm_compute].
Defined.

Lemma breaker_limits_sends_witness : sent_count (effects (dispatch (Ok 503) None outbox_store).2) <= 3.
Proof.
  apply (breaker_limits_sends (world (Ok 503)) (options None) sample_key noon 3 30000); try done.
  - intros n. exists noon. split_and!; done || (unfold noon, MAX_TIME; lia).
  - intros n rq st [= <-]. lia.
Defined.

Lemma world_lawful answer : lawful (world answer).
Proof. split; done. Qed.

Definition sent_id : jstr := env_uuid run_env 0.
Definition delivered_run : Dispatcher := (dispatch (Ok 200) None outbox_store).2.
Definition sent_request : PartnerWebhookRequest :=
  match effects delivered_run with Sent _ rq :: _ => rq | _ => {| rq_body := []; rq_headers := [] |} end.

Lemma delivered_effects : effects delivered_run = [Sent sent_id sent_request; Answered sent_id 200; Acknowledged sent_id].
Proof. by vm_compute. Qed.

Lemma acknowledged_only_when_earned_witness : reason sent_id [Sent sent_id sent_request; Answered sent_id 200].
Proof.
  apply (acknowledged_only_when_earned (world (Ok 200)) (options None) sample_key (idle outbox_store) eq_refl _ _ []).
  by vm_compute.
Defined.

Lemma delivered_pass : pass outbox_store (effects delivered_run) (source delivered_run).
Proof. exists (world (Ok 200)), (options None), sample_key, (idle outbox_store). refine (conj (world_lawful _) (conj eq_refl (conj eq_refl (conj eq_refl eq_refl)))). Qed.

Lemma later_pass : pass (source delivered_run) (effects (dispatch (Ok 200) None (source delivered_run)).2)
  (source (dispatch (Ok 200) None (source delivered_run)).2).
Proof. exists (world (Ok 200)), (options None), sample_key, (idle (source delivered_run)). refine (conj (world_lawful _) (conj eq_refl (conj eq_refl (conj eq_refl eq_refl)))). Qed.

Lemma acknowledged_never_resent_witness :
  Sent sent_id sent_request ∉ effects (dispatch (Ok 200) None (source delivered_run)).2.
Proof.
  apply (acknowledged_never_resent sent_id outbox_store (effects delivered_run) (source delivered_run) (source delivered_run)
    _ (source (dispatch (Ok 200) None (source delivered_run)).2) outbox_sound delivered_pass);
    [rewrite delivered_effects; do 2 apply list_elem_of_further; apply list_elem_of_here|constructor|exact later_pass].
Defined.

Lemma sent_in : Sent sent_id sent_request ∈ effects (dispatch (Ok 200) None outbox_store).2.
Proof.
  assert (E : effects (dispatch (Ok 200) None outbox_store).2 =
    [Sent sent_id sent_request; Answered sent_id 200; Acknowledged sent_id]) by (by vm_compute).
  rewrite E. apply list_elem_of_here.
Qed.
Lemma sample_resolved : sample_resolve (sk_keyId sample_key) = Some (secret sample_key).
Proof. by vm_compute. Qed.

Lemma outbox_event_applied_once_witness :
  exists at_ms events s' r event nonce t,
    Some noon = Some at_ms /\
    PartnerDispatch.claimOutbox "worker-1" (NInt 10) (NInt 100000) (Some at_ms) outbox_store = (Ok events, s') /\ event ∈ events /\
    r ∈ DurableStore.outbox_events (DurableStore.tables outbox_store) /\
    DurableStore.claimable (iso_string at_ms) r = true /\ reads r event /\
    sent_id = eventId event /\ built_from sample_key event nonce t sent_request /\
    forall now (s : Receiver (R := MemoryReplayStore.t) (I := MemoryPartnerIdempotencyStore.t)) a,
      distinct_keys (payload event) -> Z.abs now <= MAX_SAFE_INTEGER -> Z.abs (now - t) <= DEFAULT_REPLAY_WINDOW_SECONDS ->
      unused (sk_keyId sample_key +:+ ":" +:+ nonce) (replays s) ->
      unanswered (sk_keyId sample_key +:+ ":" +:+ eventKey event) (PartnerReceiver.answered s) ->
      sample_apply (payload event) (application s) = (Ok tt, a) ->
      exists s1,
        receivePartnerWebhook sample_resolve sample_apply (delivery_of sent_request (NInt now)) s =
          (Ok {| rc_status := 202; rc_code := "ACCEPTED"; rc_eventId := event_id (payload event) |}, s1) /\
        application s1 = a /\
        forall s2 event' nonce' t' rq' now', deliveries sample_resolve sample_apply (fun _ => True) s1 s2 ->
          built_from sample_key event' nonce' t' rq' -> eventKey event' = eventKey event ->
          application (receivePartnerWebhook sample_resolve sample_apply (delivery_of rq' now') s2).2 = application s2.
Proof.
  apply (outbox_event_applied_once (world (Ok 200)) (options None) sample_key sample_resolve sample_apply
    (idle outbox_store) sent_id sent_request outbox_sound eq_refl sent_in sample_resolved).
Defined.
