(* ===== verification/SessionBoundary.v ===== *)
(** SessionBoundary: packages/security/sessionBoundary.ts, bearer credentials
    and the bounded table of sessions with an absolute and an idle lifetime.
    The clock readings of a call and the tokens it draws are arguments. *)
From S2P Require Import Prelude JsString JsMap Host TestHost.
#[local] Open Scope string_scope.
#[local] Open Scope list_scope.
#[local] Open Scope Z_scope.
#[local] Open Scope js_scope.

(** ** Data *)

Record AuthenticatedPrincipal : Type := { principalId : jstr; tenantId : jstr; roles : list jstr }.

Record BootstrapCredential : Type := { bc_principal : AuthenticatedPrincipal; token : jstr }.

Record SessionBoundaryOptions : Type := {
  opt_credentials : list BootstrapCredential;
  opt_absoluteTtlMs : option jsnum;
  opt_idleTtlMs : option jsnum;
  opt_maxSessions : option jsnum;
  opt_maxSessionsPerPrincipal : option jsnum;
}.

Record AuthenticatedSession : Type := {
  sessionId : jstr;
  csrfToken : jstr;
  principal : AuthenticatedPrincipal;
  createdAt : Z;
  lastSeenAt : Z;
  expiresAt : jsnum;
}.

Record Credential : Type := { cr_digest : list N; cr_principal : AuthenticatedPrincipal }.

Record SessionBoundary : Type := {
  credentials : list Credential;
  sessions : list (jstr * AuthenticatedSession);
  absoluteTtlMs : Z;
  idleTtlMs : Z;
  maxSessions : Z;
  maxSessionsPerPrincipal : Z;
}.

Definition set_sessions x (s : SessionBoundary) : SessionBoundary :=
  {| credentials := credentials s; sessions := x; absoluteTtlMs := absoluteTtlMs s; idleTtlMs := idleTtlMs s;
     maxSessions := maxSessions s; maxSessionsPerPrincipal := maxSessionsPerPrincipal s |}.

Definition ALLOWED_ROLES : list jstr := [js "operator"; js "viewer"].

(** [Math.min(z, n)] *)
Definition math_min (z : Z) (n : jsnum) : jsnum :=
  match n with
  | NInt m => NInt (Z.min z m)
  | NFrac p q => if p <? z * Z.pos q then n else NInt z
  | NInf false => NInt z
  | NInf true | NNaN => n
  end.

Definition is_finite (n : jsnum) : bool := match n with NInt _ | NFrac _ _ => true | _ => false end.

(** [n <= now] *)
Definition reached (n : jsnum) (now : Z) : bool :=
  match n with
  | NInt z => z <=? now
  | NFrac p q => p <=? now * Z.pos q
  | NInf negative => negative
  | NNaN => false
  end.

Section boundary.
Context `{Host}.

Definition digest (value : jstr) : list N := sha256 (utf8_encode value).

Definition bad_principal (p : AuthenticatedPrincipal) : bool :=
  negb (id_pattern (principalId p)) || negb (id_pattern (tenantId p)) ||
  (length (roles p) =? 0)%nat || existsb (fun role => negb (includes ALLOWED_ROLES role)) (roles p).

(** The credentials, refusing a digest seen before. *)
Fixpoint add_credentials (l : list BootstrapCredential) (seen : list jstr) : result (list Credential) :=
  match l with
  | [] => Ok []
  | c :: l =>
      throw_if ((length (token c) <? 32)%nat || bad_principal (bc_principal c)) "invalid authentication credential" ≫= fun _ =>
      let key := hexEncode (digest (token c)) in
      throw_if (includes seen key) "duplicate authentication credential" ≫= fun _ =>
      add_credentials l (key :: seen) ≫= fun rest =>
      Ok ({| cr_digest := digest (token c); cr_principal := bc_principal c |} :: rest)
  end.

Definition positive (n : option jsnum) (default_ : Z) : result Z :=
  match safe_between (default (NInt default_) n) 1 MAX_SAFE_INTEGER with
  | Some z => Ok z
  | None => Throw "session bounds must be positive safe integers"
  end.

Definition constructor (options : SessionBoundaryOptions) : result SessionBoundary :=
  positive (opt_absoluteTtlMs options) (8 * 60 * 60000) ≫= fun absolute =>
  positive (opt_idleTtlMs options) (30 * 60000) ≫= fun idle =>
  positive (opt_maxSessions options) 1000 ≫= fun maximum =>
  positive (opt_maxSessionsPerPrincipal options) 5 ≫= fun per =>
  add_credentials (opt_credentials options) [] ≫= fun creds =>
  Ok {| credentials := creds; sessions := []; absoluteTtlMs := absolute; idleTtlMs := idle;
        maxSessions := maximum; maxSessionsPerPrincipal := per |}.

(** A session past its absolute or its idle lifetime. *)
Definition stale (s : SessionBoundary) (now : Z) (session : AuthenticatedSession) : bool :=
  reached (expiresAt session) now || (idleTtlMs s <=? num_sub now (lastSeenAt session)).

Definition prune (now : Z) : St SessionBoundary unit :=
  smodify (fun s => set_sessions (List.filter (fun p => negb (stale s now p.2)) (sessions s)) s).

Definition same_principal (p q : AuthenticatedPrincipal) : bool :=
  (principalId p =s? principalId q) && (tenantId p =s? tenantId q).

Definition principal_sessions (p : AuthenticatedPrincipal) (l : list (jstr * AuthenticatedSession)) : Z :=
  Z.of_nat (length (List.filter (fun x => same_principal (principal x.2) p) l)).

(** The readings of the clock and the random tokens of a call. *)
Record Draw : Type := { dr_prune : Z; dr_now : Z; dr_sessionId : jstr; dr_csrfToken : jstr }.

Definition issue (p : AuthenticatedPrincipal) (maximumExpiresAt : option jsnum) (d : Draw)
    : St SessionBoundary AuthenticatedSession :=
  lift (throw_if (bad_principal p) "invalid authenticated principal") ≫= fun _ =>
  prune (dr_prune d) ≫= fun _ =>
  sget ≫= fun s =>
  lift (throw_if ((maxSessions s <=? Z.of_nat (length (sessions s))) ||
                  (maxSessionsPerPrincipal s <=? principal_sessions p (sessions s)))
    "session limit reached") ≫= fun _ =>
  let now := dr_now d in
  let expiresAt := math_min (num_add now (absoluteTtlMs s)) (default (NInf false) maximumExpiresAt) in
  lift (throw_if (negb (is_finite expiresAt) || reached expiresAt now) "identity already expired") ≫= fun _ =>
  let session := {| sessionId := dr_sessionId d; csrfToken := dr_csrfToken d; principal := p;
                    createdAt := now; lastSeenAt := now; expiresAt := expiresAt |} in
  smodify (fun s => set_sessions (map_set (dr_sessionId d) session (sessions s)) s) ≫= fun _ =>
  mret session.

(** The last credential whose digest is the candidate's. *)
Definition find_credential (candidate : list N) (l : list Credential) : option AuthenticatedPrincipal :=
  fold_left (fun acc c => if bool_decide (candidate = cr_digest c) then Some (cr_principal c) else acc) l None.

Definition login (bearerToken : jstr) (d : Draw) : St SessionBoundary (option AuthenticatedSession) :=
  sget ≫= fun s =>
  match find_credential (digest bearerToken) (credentials s) with
  | None => mret None
  | Some p => issue p None d ≫= fun session => mret (Some session)
  end.

Definition seen_at (now : Z) (session : AuthenticatedSession) : AuthenticatedSession :=
  {| sessionId := sessionId session; csrfToken := csrfToken session; principal := principal session;
     createdAt := createdAt session; lastSeenAt := now; expiresAt := expiresAt session |}.

Definition authenticate (id : jstr) (now : Z) : St SessionBoundary (option AuthenticatedSession) :=
  sget ≫= fun s =>
  match map_get id (sessions s) with
  | None => mret None
  | Some session =>
      if stale s now session then
        smodify (fun s => set_sessions (map_delete id (sessions s)) s) ≫= fun _ => mret None
      else
        smodify (fun s => set_sessions (map_set id (seen_at now session) (sessions s)) s) ≫= fun _ =>
        mret (Some (seen_at now session))
  end.

(** A missing or empty value is refused before the comparison. *)
Definition verifyCsrf (session : AuthenticatedSession) (value : option jstr) : bool :=
  match value with
  | None | Some [] => false
  | Some v => bool_decide (utf8_encode (csrfToken session) = utf8_encode v)
  end.

Definition revoke (id : jstr) : St SessionBoundary bool :=
  sget ≫= fun s =>
  smodify (fun s => set_sessions (map_delete id (sessions s)) s) ≫= fun _ =>
  mret (map_has id (sessions s)).

(** ** Calls *)

Inductive session_op : Type :=
| OpLogin (bearerToken : jstr) (d : Draw)
| OpIssue (p : AuthenticatedPrincipal) (maximumExpiresAt : option jsnum) (d : Draw)
| OpAuthenticate (id : jstr) (now : Z)
| OpRevoke (id : jstr).

Definition run_op (o : session_op) (s : SessionBoundary) : SessionBoundary :=
  match o with
  | OpLogin b d => (login b d s).2
  | OpIssue p m d => (issue p m d s).2
  | OpAuthenticate id now => (authenticate id now s).2
  | OpRevoke id => (revoke id s).2
  end.

Definition run_ops (l : list session_op) (s : SessionBoundary) : SessionBoundary :=
  fold_left (fun s o => run_op o s) l s.

(** A property every call keeps is kept by any calls. *)
Lemma run_ops_keep (J : SessionBoundary -> Prop) (P : session_op -> Prop) l s :
  (forall o s, P o -> J s -> J (run_op o s)) -> Forall P l -> J s -> J (run_ops l s).
Proof.
  intros Hk Hl. revert s. induction Hl as [|o l Ho _ IH]; intros s Hs; [done|]. apply IH. by apply Hk.
Qed.

(** ** The table is bounded *)

Lemma filter_length_le {A} (f : A -> bool) l : (length (List.filter f l) <= length l)%nat.
Proof. induction l as [|x l IH]; cbn; [lia|]. destruct (f x); cbn; lia. Qed.

Lemma filter_filter_le {A} (f g : A -> bool) l :
  (length (List.filter f (List.filter g l)) <= length (List.filter f l))%nat.
Proof. induction l as [|x l IH]; cbn; [lia|]. destruct (g x); cbn; destruct (f x); cbn; lia. Qed.

Lemma filter_set_le {V} (f : jstr * V -> bool) k v (m : list (jstr * V)) :
  (length (List.filter f (map_set k v m)) <= length (List.filter f m) + (if f (k, v) then 1 else 0))%nat.
Proof.
  induction m as [|[k' v'] m IH]; cbn; [destruct (f (k, v)); cbn; lia|]. case_bool_decide as E.
  - subst. cbn. destruct (f (k', v)), (f (k', v')); cbn; lia.
  - cbn. destruct (f (k', v')); cbn; lia.
Qed.

Lemma filter_delete_le {V} (f : jstr * V -> bool) k (m : list (jstr * V)) :
  (length (List.filter f (map_delete k m)) <= length (List.filter f m))%nat.
Proof.
  induction m as [|[k' v'] m IH]; cbn; [lia|]. case_bool_decide; cbn; destruct (f (k', v')); cbn; lia.
Qed.

(** Replacing the value of a key by one the predicate does not tell apart. *)
Lemma filter_set_same {V} (f : jstr * V -> bool) k v v' (m : list (jstr * V)) :
  map_get k m = Some v' -> f (k, v) = f (k, v') -> length (List.filter f (map_set k v m)) = length (List.filter f m).
Proof.
  induction m as [|[k1 v1] m IH]; [done|]. cbn. case_bool_decide as E.
  - intros [= ->] Hf. subst. cbn. rewrite Hf. by destruct (f (k1, v')).
  - intros Hg Hf. cbn. destruct (f (k1, v1)); cbn; by rewrite IH.
Qed.

Definition everything (_ : jstr * AuthenticatedSession) : bool := true.
Lemma filter_everything l : List.filter everything l = l.
Proof. induction l as [|x l IH]; [done|]. cbn. by rewrite IH. Qed.

Definition about (p : AuthenticatedPrincipal) (x : jstr * AuthenticatedSession) : bool := same_principal (principal x.2) p.

Lemma same_principal_iff p q : same_principal p q = true <-> principalId p = principalId q /\ tenantId p = tenantId q.
Proof. unfold same_principal. by rewrite andb_true_iff, !jeqb_true. Qed.

(** The limits, and what each session promises about itself. *)
Definition session_ok (ttl : Z) (x : jstr * AuthenticatedSession) : Prop :=
  sessionId x.2 = x.1 /\ bad_principal (principal x.2) = false /\ is_finite (expiresAt x.2) = true /\
  reached (expiresAt x.2) (num_add (createdAt x.2) ttl) = true.

Record bounded (s : SessionBoundary) : Prop := {
  b_keys : map_wf (sessions s);
  b_total : Z.of_nat (length (List.filter everything (sessions s))) <= maxSessions s;
  b_each p : Z.of_nat (length (List.filter (about p) (sessions s))) <= maxSessionsPerPrincipal s;
  b_sessions : Forall (session_ok (absoluteTtlMs s)) (sessions s);
}.

Lemma filter_wf {V} (f : jstr * V -> bool) (m : list (jstr * V)) : map_wf m -> map_wf (List.filter f m).
Proof.
  unfold map_wf. induction m as [|x m IH]; [done|]. cbn. intros [Hx Hm]%NoDup_cons. destruct (f x); [|by apply IH].
  cbn. constructor; [|by apply IH]. intros Hin. apply Hx. apply list_elem_of_fmap in Hin as (y & E & Hy).
  apply list_elem_of_In, filter_In in Hy as [Hy _]. apply list_elem_of_fmap. exists y. split; [done|]. by apply list_elem_of_In.
Qed.

Lemma Forall_filter {A} (P : A -> Prop) (f : A -> bool) l : Forall P l -> Forall P (List.filter f l).
Proof. induction 1 as [|x l Hx _ IH]; [constructor|]. cbn. destruct (f x); [by constructor|done]. Qed.

Lemma Forall_set {V} (P : jstr * V -> Prop) k v (m : list (jstr * V)) : P (k, v) -> Forall P m -> Forall P (map_set k v m).
Proof.
  intros Hv. induction 1 as [|[k' v'] m Hx Hm IH]; cbn; [by repeat constructor|].
  case_bool_decide; [subst; by constructor|by constructor].
Qed.

Lemma Forall_delete {V} (P : jstr * V -> Prop) k (m : list (jstr * V)) : Forall P m -> Forall P (map_delete k m).
Proof. induction 1 as [|[k' v'] m Hx Hm IH]; cbn; [constructor|]. case_bool_decide; [done|by constructor]. Qed.

(** Dropping sessions keeps the limits. *)
Lemma bounded_filter f s : bounded s -> bounded (set_sessions (List.filter f (sessions s)) s).
Proof.
  intros [H1 H2 H3 H4]. split; cbn.
  - by apply filter_wf.
  - etrans; [|exact H2]. apply inj_le, filter_filter_le.
  - intros p. etrans; [|exact (H3 p)]. apply inj_le, filter_filter_le.
  - by apply Forall_filter.
Qed.

Lemma bounded_delete id s : bounded s -> bounded (set_sessions (map_delete id (sessions s)) s).
Proof.
  intros [H1 H2 H3 H4]. split; cbn.
  - by apply map_delete_wf.
  - etrans; [|exact H2]. apply inj_le, filter_delete_le.
  - intros p. etrans; [|exact (H3 p)]. apply inj_le, filter_delete_le.
  - by apply Forall_delete.
Qed.

Lemma bounded_touch id now session s :
  map_get id (sessions s) = Some session -> bounded s -> bounded (set_sessions (map_set id (seen_at now session) (sessions s)) s).
Proof.
  intros Hg [H1 H2 H3 H4]. split; cbn.
  - by apply map_set_wf.
  - by rewrite (filter_set_same _ _ _ session).
  - intros p. by rewrite (filter_set_same _ _ _ session).
  - apply Forall_set; [|done]. apply map_get_in in Hg. eapply Forall_forall in H4; [|exact Hg]. done.
Qed.

Lemma reached_min now ttl n : is_finite (math_min (num_add now ttl) n) = true -> reached (math_min (num_add now ttl) n) (num_add now ttl) = true.
Proof.
  destruct n as [m|p q| |[]]; cbn; try done; intros _.
  - apply Z.leb_le. lia.
  - destruct (p <? num_add now ttl * Z.pos q) eqn:E; cbn; apply Z.leb_le; [apply Z.ltb_lt in E; lia|lia].
  - apply Z.leb_le. lia.
Qed.

Lemma bounded_issue p m d : keeps bounded (issue p m d).
Proof.
  unfold issue. apply keeps_lift_bind. intros ? Hp%throw_if_Ok.
  apply keeps_bind; [apply keeps_modify; intros; by apply bounded_filter|]. intros ?. apply keeps_read. intros s Hs.
  apply at_lift_bind; [done|]. intros ? [Htotal Heach]%throw_if_Ok%orb_false_iff. cbv zeta.
  apply at_lift_bind; [done|]. intros ? [Hfin%negb_false_iff Hexp]%throw_if_Ok%orb_false_iff.
  apply at_modify_bind, at_ret. apply Z.leb_gt in Htotal, Heach. destruct Hs as [H1 H2 H3 H4]. split; cbn.
  - by apply map_set_wf.
  - pose proof (filter_set_le everything (dr_sessionId d) {| sessionId := dr_sessionId d; csrfToken := dr_csrfToken d;
      principal := p; createdAt := dr_now d; lastSeenAt := dr_now d;
      expiresAt := math_min (num_add (dr_now d) (absoluteTtlMs s)) (default (NInf false) m) |} (sessions s)) as Hle.
    rewrite (filter_everything (sessions s)) in Hle. cbn [everything] in Hle. lia.
  - intros q. pose proof (filter_set_le (about q) (dr_sessionId d) {| sessionId := dr_sessionId d; csrfToken := dr_csrfToken d;
      principal := p; createdAt := dr_now d; lastSeenAt := dr_now d;
      expiresAt := math_min (num_add (dr_now d) (absoluteTtlMs s)) (default (NInf false) m) |} (sessions s)) as Hle.
    specialize (H3 q). destruct (about q (_, _)) eqn:Eq; [|lia].
    assert (Eabout : principal_sessions p (sessions s) = Z.of_nat (length (List.filter (about q) (sessions s)))).
    { unfold principal_sessions. f_equal. f_equal. apply List.filter_ext. intros x. unfold about in *. cbn in Eq.
      apply same_principal_iff in Eq as [E1 E2]. unfold same_principal. by rewrite E1, E2. }
    lia.
  - apply Forall_set; [|done]. split_and!; [done|done|done|]. by apply reached_min.
Qed.

Lemma bounded_step o s : bounded s -> bounded (run_op o s).
Proof.
  intros Hs. destruct o as [b d|p m d|id now|id]; cbn [run_op].
  - unfold login. apply at_get_bind. destruct (find_credential _ _); [|done].
    apply (at_keeps bounded bounded); [|done|done]. apply keeps_bind; [apply bounded_issue|intros; apply keeps_ret].
  - by apply bounded_issue.
  - unfold authenticate. apply at_get_bind. destruct (map_get id (sessions s)) as [session|] eqn:E; [|done].
    destruct (stale s now session); apply at_modify_bind, at_ret; [by apply bounded_delete|by apply bounded_touch].
  - unfold revoke. apply at_get_bind, at_modify_bind, at_ret. by apply bounded_delete.
Qed.

Lemma positive_ok n d z : positive n d = Ok z -> 1 <= z.
Proof. unfold positive. destruct (safe_between _ _ _) eqn:E; [|done]. intros [= ->]. by apply safe_between_Some in E as (_ & _ & ? & _). Qed.

(** The session table is bounded: whatever is called on a new boundary, and
    whatever identifiers the random source draws, it never holds more sessions
    than the configured total nor more of one principal than the configured
    share, its keys are distinct and its sessions', every principal in it is
    well formed and no session outlives the absolute lifetime. *)
Theorem session_table_bounded options s l :
  constructor options = Ok s -> bounded (run_ops l s).
Proof.
  intros Hc. apply (run_ops_keep bounded (fun _ => True)); [by intros o s' _; apply bounded_step|by apply Forall_true|].
  unfold constructor in Hc. apply result_bind_Ok in Hc as (a & _ & Hc). apply result_bind_Ok in Hc as (i & _ & Hc).
  apply result_bind_Ok in Hc as (mx & Hmx%positive_ok & Hc). apply result_bind_Ok in Hc as (per & Hper%positive_ok & Hc).
  apply result_bind_Ok in Hc as (cr & _ & [= <-]). split; cbn; [constructor|lia|lia|constructor].
Qed.

(** ** A session's life *)

(** The call draws another identifier. *)
Definition other_id (id : jstr) (o : session_op) : Prop :=
  match o with OpLogin _ d | OpIssue _ _ d => dr_sessionId d <> id | _ => True end.

Lemma map_get_filter_sub {V} (f : jstr * V -> bool) k (m : list (jstr * V)) v :
  map_wf m -> map_get k (List.filter f m) = Some v -> map_get k m = Some v.
Proof.
  intros Hw Hg. apply map_get_in, list_elem_of_In, filter_In in Hg as [Hg _].
  apply map_in_get; [done|by apply list_elem_of_In].
Qed.

(** What holds of the entry under one identifier, if there is one. *)
Record entry_is (id : jstr) (idle : Z) (P : AuthenticatedSession -> Prop) (s : SessionBoundary) : Prop := {
  ei_wf : map_wf (sessions s);
  ei_idle : idleTtlMs s = idle;
  ei_entry x : map_get id (sessions s) = Some x -> P x;
}.

Lemma entry_weaken id idle (P Q : AuthenticatedSession -> Prop) s : (forall x, P x -> Q x) -> entry_is id idle P s -> entry_is id idle Q s.
Proof. intros HPQ [Hw Hi HP]. split; [done..|]. intros x Hx. by apply HPQ, HP. Qed.

Lemma entry_gone id idle P s : map_wf (sessions s) -> idleTtlMs s = idle -> entry_is id idle P (set_sessions (map_delete id (sessions s)) s).
Proof. intros Hw Hi. split; cbn; [by apply map_delete_wf|done|]. intros x. by rewrite map_get_delete, bool_decide_true. Qed.

Lemma entry_other id idle P id' x s : id' <> id -> entry_is id idle P s -> entry_is id idle P (set_sessions (map_set id' x (sessions s)) s).
Proof. intros Hne [Hw Hi HP]. split; cbn; [by apply map_set_wf|done|]. intros y. rewrite map_get_set_ne by congruence. apply HP. Qed.

Lemma entry_issue id idle P p m d : dr_sessionId d <> id -> keeps (entry_is id idle P) (issue p m d).
Proof.
  intros Hid. unfold issue. apply keeps_lift_bind. intros _ _. apply keeps_bind.
  - apply keeps_modify. intros s [Hw Hi HP]. split; cbn; [by apply filter_wf|done|].
    intros x Hx. by apply HP, (map_get_filter_sub _ _ _ _ Hw Hx).
  - intros _. apply keeps_read. intros s Hs. apply at_lift_bind; [done|]. intros _ _. cbv zeta.
    apply at_lift_bind; [done|]. intros _ _. apply at_modify_bind, at_ret. by apply entry_other.
Qed.

(** A call leaves the entry as it is, brings its last use up to date, or
    removes it. *)
Lemma entry_step id idle (P Q : AuthenticatedSession -> Prop) o s :
  other_id id o ->
  (forall x, o <> OpRevoke id -> (forall now, o <> OpAuthenticate id now) -> P x -> Q x) ->
  (forall x now, o = OpAuthenticate id now -> reached (expiresAt x) now = false -> num_sub now (lastSeenAt x) < idle -> P x -> Q (seen_at now x)) ->
  entry_is id idle P s -> entry_is id idle Q (run_op o s).
Proof.
  intros Ho Hkeep Huse Hs. destruct o as [b d|p m d|id' now|id']; cbn [run_op other_id] in *.
  - apply (entry_weaken _ _ P); [by intros x; apply Hkeep|]. unfold login. apply at_get_bind. destruct (find_credential _ _); [|done].
    apply (at_keeps _ (entry_is id idle P)); [|done|done]. apply keeps_bind; [by apply entry_issue|intros; apply keeps_ret].
  - apply (entry_weaken _ _ P); [by intros x; apply Hkeep|]. by apply entry_issue.
  - unfold authenticate. apply at_get_bind. destruct (decide (id' = id)) as [->|Hne].
    + destruct Hs as [Hw Hi HP]. destruct (map_get id (sessions s)) as [x|] eqn:E; [|split; [done|done|cbn; congruence]].
      destruct (stale s now x) eqn:Es; apply at_modify_bind, at_ret; [by apply entry_gone|].
      apply orb_false_iff in Es as [Er Ei%Z.leb_gt]. rewrite Hi in Ei. split; cbn; [by apply map_set_wf|done|].
      intros y. rewrite map_get_set_eq. intros [= <-]. by eapply Huse; [..|apply HP].
    + apply (entry_weaken _ _ P); [intros x; apply Hkeep; congruence|]. destruct (map_get id' (sessions s)) as [x|]; [|done].
      destruct (stale s now x); apply at_modify_bind, at_ret; [|by apply entry_other].
      destruct Hs as [Hw Hi HP]. split; cbn; [by apply map_delete_wf|done|]. intros y. rewrite map_get_delete, bool_decide_false by congruence. apply HP.
  - unfold revoke. apply at_get_bind, at_modify_bind, at_ret. destruct (decide (id' = id)) as [->|Hne]; [apply entry_gone; by destruct Hs|].
    apply (entry_weaken _ _ P); [intros x; apply Hkeep; congruence|].
    destruct Hs as [Hw Hi HP]. split; cbn; [by apply map_delete_wf|done|]. intros y. rewrite map_get_delete, bool_decide_false by congruence. apply HP.
Qed.

(** When a session issued at [issued] was last used. *)
Definition last_use (id : jstr) (issued : Z) (l : list session_op) : Z :=
  fold_left (fun seen o => match o with OpAuthenticate i now => if i =s? id then now else seen | _ => seen end) l issued.

Lemma last_use_snoc id issued l o :
  last_use id issued (l ++ [o]) = match o with OpAuthenticate i now => if i =s? id then now else last_use id issued l | _ => last_use id issued l end.
Proof. unfold last_use. by rewrite fold_left_app. Qed.

(** The calls neither revoke the session nor use it out of time. *)
Definition used_well (id : jstr) (expiry : jsnum) (idle issued : Z) (l : list session_op) : Prop :=
  (OpRevoke id ∉ l) /\
  forall before t after, l = before ++ OpAuthenticate id t :: after ->
    reached expiry t = false /\ num_sub t (last_use id issued before) < idle.

Lemma used_well_snoc id expiry idle issued l o : used_well id expiry idle issued l -> o <> OpRevoke id ->
  (forall t, o = OpAuthenticate id t -> reached expiry t = false /\ num_sub t (last_use id issued l) < idle) ->
  used_well id expiry idle issued (l ++ [o]).
Proof.
  intros [Hr Hu] Ho Ht. split; [by intros [?|?%list_elem_of_singleton]%elem_of_app|].
  intros before t after E. destruct after as [|o' after _] using rev_ind.
  - apply app_inj_tail in E as [-> E]. by apply Ht.
  - rewrite app_comm_cons, app_assoc in E. apply app_inj_tail in E as [E _]. by eapply Hu.
Qed.

(** The entry of a session after any calls: it was used well, and tells its
    last use. *)
Lemma entry_traced session idle l s1 : Forall (other_id (sessionId session)) l ->
  entry_is (sessionId session) idle (eq session) s1 ->
  entry_is (sessionId session) idle (fun x => x = seen_at (last_use (sessionId session) (lastSeenAt session) l) session /\
    used_well (sessionId session) (expiresAt session) idle (lastSeenAt session) l) (run_ops l s1).
Proof.
  intros Hl Hs. induction l as [|o l IH] using rev_ind.
  - revert Hs. apply entry_weaken. intros x <-. split; [by destruct session|]. split; [by intros ?%elem_of_nil|]. by intros [].
  - apply Forall_app in Hl as [Hl [Ho _]%Forall_cons]. unfold run_ops. rewrite fold_left_app. cbn [fold_left].
    refine (entry_step _ _ _ _ o _ Ho _ _ (IH Hl)).
    + intros x Hr Ha [-> Hu]. rewrite last_use_snoc. split.
      * destruct o as [| |i now|]; try done. destruct (jeqb i (sessionId session)) eqn:Ei; [|done]. apply jeqb_true in Ei as ->. by destruct (Ha now).
      * apply used_well_snoc; [done..|]. intros t ->. by destruct (Ha t).
    + intros x now -> He Hi [-> Hu]. rewrite last_use_snoc, jeqb_of_eq by done. split; [done|].
      apply used_well_snoc; [done..|]. by intros t [= <-].
Qed.

Lemma issue_entry p m d s session s1 :
  map_wf (sessions s) -> issue p m d s = (Ok session, s1) ->
  entry_is (sessionId session) (idleTtlMs s) (eq session) s1 /\ principal session = p /\
  createdAt session = dr_now d /\ lastSeenAt session = dr_now d /\
  expiresAt session = math_min (num_add (dr_now d) (absoluteTtlMs s)) (default (NInf false) m).
Proof.
  intros Hw. unfold issue. intros (? & ? & [_ ->]%lift_inv & Hc)%bind_Ok_inv.
  apply bind_Ok_inv in Hc as (? & s0 & [= _ <-] & Hc). apply bind_Ok_inv in Hc as (? & ? & [= <- <-] & Hc).
  apply bind_Ok_inv in Hc as (? & ? & [_ ->]%lift_inv & Hc). cbv zeta in Hc.
  apply bind_Ok_inv in Hc as (? & ? & [_ ->]%lift_inv & Hc). apply bind_Ok_inv in Hc as (? & ? & [= _ <-] & [= <- <-]).
  split_and!; [|done..]. split; cbn; [by apply map_set_wf, filter_wf|done|]. intros y. rewrite map_get_set_eq. by intros [= <-].
Qed.

(** C38: A session dies once: an identifier drawn at issue and not drawn again
    authenticates only the principal it was issued to, only before the
    absolute lifetime and the caller's own maximum have passed and less than the
    idle lifetime after its last use, or after its issue if it was not used,
    and only if it was not revoked and every earlier attempt to use it came
    within both. *)
Theorem session_dies_once p m d s session s1 l now x s2 :
  map_wf (sessions s) -> issue p m d s = (Ok session, s1) -> Forall (other_id (sessionId session)) l ->
  authenticate (sessionId session) now (run_ops l s1) = (Ok (Some x), s2) ->
  let expiry := math_min (num_add (dr_now d) (absoluteTtlMs s)) (default (NInf false) m) in
  let last_use := last_use (sessionId session) (dr_now d) in
  principal x = p /\ csrfToken x = csrfToken session /\ createdAt x = dr_now d /\
  reached expiry now = false /\ num_sub now (last_use l) < idleTtlMs s /\
  (OpRevoke (sessionId session) ∉ l) /\
  (forall before t after, l = before ++ OpAuthenticate (sessionId session) t :: after ->
     reached expiry t = false /\ num_sub t (last_use before) < idleTtlMs s).
Proof.
  intros Hw Hissue Hl Hauth. destruct (issue_entry _ _ _ _ _ _ Hw Hissue) as (He & Hp & Hc & Hs & Hx). cbn zeta. rewrite <- Hx, <- Hs.
  destruct (entry_traced _ _ l _ Hl He) as [_ Hi Ht]. revert Hauth. unfold authenticate. cbv [mbind St_bind sget].
  destruct (map_get _ _) as [y|] eqn:E; [|done]. destruct (Ht _ eq_refl) as [-> [Hr Hu]].
  destruct (stale _ now _) eqn:Es; [done|]. apply orb_false_iff in Es as [Es Ei%Z.leb_gt]. rewrite Hi in Ei. intros [= <- _].
  split_and!; try done. cbn. congruence.
Qed.
End boundary.

(** ** A concrete boundary *)

#[local] Existing Instance test_host.

Definition operator : AuthenticatedPrincipal := {| principalId := "alice"; tenantId := "bank-1"; roles := [js "operator"] |}.
Definition sample_options : SessionBoundaryOptions :=
  {| opt_credentials := []; opt_absoluteTtlMs := Some (NInt 10000); opt_idleTtlMs := Some (NInt 5000); opt_maxSessions := Some (NInt 2);
     opt_maxSessionsPerPrincipal := Some (NInt 1) |}.
Definition sample_draw : Draw := {| dr_prune := noon; dr_now := noon; dr_sessionId := "session-1"; dr_csrfToken := "csrf-1" |}.
Definition no_boundary : SessionBoundary :=
  {| credentials := []; sessions := []; absoluteTtlMs := 10000; idleTtlMs := 5000; maxSessions := 2; maxSessionsPerPrincipal := 1 |}.

Lemma session_table_bounded_witness : bounded (run_ops [OpIssue operator None sample_draw; OpIssue operator None sample_draw] no_boundary).
Proof. by apply (session_table_bounded sample_options). Defined.

Definition sample_session : AuthenticatedSession :=
  {| sessionId := "session-1"; csrfToken := "csrf-1"; principal := operator; createdAt := noon; lastSeenAt := noon;
     expiresAt := NInt (noon + 10000) |}.
Definition issued_boundary : SessionBoundary := set_sessions [(js "session-1", sample_session)] no_boundary.

Lemma session_dies_once_witness :
  let l := [OpAuthenticate "session-1" (noon + 1000)] in
  principal (seen_at (noon + 4000) sample_session) = operator /\ num_sub (noon + 4000) (last_use "session-1" noon l) < 5000 /\
  (OpRevoke "session-1" ∉ l) /\
  (forall before t after, l = before ++ OpAuthenticate "session-1" t :: after ->
     reached (NInt (noon + 10000)) t = false /\ num_sub t (last_use "session-1" noon before) < 5000).
Proof.
  destruct (session_dies_once operator None sample_draw no_boundary sample_session issued_boundary
    [OpAuthenticate "session-1" (noon + 1000)] (noon + 4000) (seen_at (noon + 4000) sample_session)
    (set_sessions [(js "session-1", seen_at (noon + 4000) sample_session)] no_boundary)) as (H1 & _ & _ & _ & H2 & H3 & H4);
    [constructor|by vm_compute|by repeat constructor|by vm_compute|]. by split_and!.
Defined.
