(* ===== verification/LaunchPolicy.v ===== *)
(** LaunchPolicy: packages/operations/launchPolicy.ts, the validated launch
    policy and the gate that compares a measurement with it. *)
From S2P Require Import Prelude JsString JsMap Host TestHost JsJson.
#[local] Open Scope string_scope.
#[local] Open Scope list_scope.
#[local] Open Scope Z_scope.
#[local] Open Scope js_scope.

Definition LAUNCH_POLICY_SCHEMA_VERSION : jstr := "airlock.launch-policy.v1".

(** ** Data *)

Record Scope : Type := {
  syntheticDataOnly : bool; realPaymentTrafficAllowed : bool; publicInternetAllowed : bool; maximumTenants : Z;
}.
Record Traffic : Type := {
  sustainedRequestsPerSecond : Z; burstRequestsPerSecond : Z; maximumConcurrentRequests : Z;
  maximumConcurrentSseStreams : Z; overloadStatus : Z; retryAfterSeconds : Z;
}.
Record Latency : Type := { readP95 : Z; mutationP95 : Z; completeSyntheticCycleP95 : Z }.
Record Reliability : Type := { minimumSuccessRatio : jsnum; measurementWindowSeconds : Z; minimumRequestsPerWindow : Z }.
Record Timeouts : Type := { database : Z; partnerApi : Z; webhookConsumer : Z }.

Record LaunchPolicy : Type := {
  profile : jstr;
  scope : Scope;
  traffic : Traffic;
  latencyMilliseconds : Latency;
  reliability : Reliability;
  dependencyTimeoutMilliseconds : Timeouts;
}.

(** ** Helpers *)

Definition isRecord (v : jsval) : option (list (jstr * jsval)) :=
  match v with JObj props => Some props | _ => None end.

(** [value === s] and [value === z] *)
Definition is_text (s : jstr) (v : jsval) : bool := match v with JStr t => t =s? s | _ => false end.
Definition is_integer (z : Z) (v : jsval) : bool := match v with JNum (NInt n) => n =? z | _ => false end.

Fixpoint insert_string (s : jstr) (l : list jstr) : list jstr :=
  match l with
  | [] => [s]
  | t :: l => if jstr_le s t then s :: t :: l else t :: insert_string s l
  end.
(** [list.sort()] *)
Definition sort_strings (l : list jstr) : list jstr := foldr insert_string [] l.

Definition exactKeys (value : list (jstr * jsval)) (expected : list jstr) (location : jstr) : result unit :=
  let actual := sort_strings value.*1 in
  let wanted := sort_strings expected in
  throw_if (negb (length actual =? length wanted)%nat ||
            existsb (fun p => negb (p.1 =s? p.2)) (zip actual wanted))
    (location +:+ " has unknown or missing fields").

Definition MAXIMUM : Z := 1000000.

Definition positiveInteger (value : jsval) (location : jstr) (maximum : Z) : result Z :=
  match (match value with JNum n => safe_between n 1 maximum | _ => None end) with
  | Some z => Ok z
  | None => Throw (location +:+ " must be a positive safe integer <= " +:+ decimal_Z maximum)
  end.

Definition boolean (value : jsval) (location : jstr) : result bool :=
  match value with JBool b => Ok b | _ => Throw (location +:+ " must be boolean") end.

(** [/^[a-z0-9-]+$/] within 64 units *)
Definition profile_pattern (s : jstr) : bool :=
  (1 <=? length s)%nat && (length s <=? 64)%nat &&
  forallb (fun c => is_lower c || is_digit c || (c =? 45)%N) s.

(** A finite number in (0, 1]. *)
Definition ratio_ok (v : jsval) : option jsnum :=
  match v with
  | JNum (NInt z) => if (0 <? z) && (z <=? 1) then Some (NInt z) else None
  | JNum (NFrac p q) => if (0 <? p) && (p <=? Z.pos q) then Some (NFrac p q) else None
  | _ => None
  end.

(** ** Parsing *)

Definition POLICY_KEYS : list jstr :=
  [js "schemaVersion"; js "profile"; js "scope"; js "traffic"; js "latencyMilliseconds"; js "reliability";
   js "dependencyTimeoutMilliseconds"].
Definition SCOPE_KEYS : list jstr :=
  [js "syntheticDataOnly"; js "realPaymentTrafficAllowed"; js "publicInternetAllowed"; js "maximumTenants"].
Definition TRAFFIC_KEYS : list jstr :=
  [js "sustainedRequestsPerSecond"; js "burstRequestsPerSecond"; js "maximumConcurrentRequests";
   js "maximumConcurrentSseStreams"; js "overloadStatus"; js "retryAfterSeconds"].
Definition LATENCY_KEYS : list jstr := [js "readP95"; js "mutationP95"; js "completeSyntheticCycleP95"].
Definition RELIABILITY_KEYS : list jstr :=
  [js "minimumSuccessRatio"; js "measurementWindowSeconds"; js "minimumRequestsPerWindow"].
Definition TIMEOUT_KEYS : list jstr := [js "database"; js "partnerApi"; js "webhookConsumer"].

Definition parse_scope (p : list (jstr * jsval)) : result Scope :=
  boolean (prop "syntheticDataOnly" p) "scope.syntheticDataOnly" ≫= fun a =>
  boolean (prop "realPaymentTrafficAllowed" p) "scope.realPaymentTrafficAllowed" ≫= fun b =>
  boolean (prop "publicInternetAllowed" p) "scope.publicInternetAllowed" ≫= fun c =>
  positiveInteger (prop "maximumTenants" p) "scope.maximumTenants" 10000 ≫= fun d =>
  Ok {| syntheticDataOnly := a; realPaymentTrafficAllowed := b; publicInternetAllowed := c; maximumTenants := d |}.

Definition parse_traffic (p : list (jstr * jsval)) : result Traffic :=
  positiveInteger (prop "sustainedRequestsPerSecond" p) "traffic.sustainedRequestsPerSecond" MAXIMUM ≫= fun a =>
  positiveInteger (prop "burstRequestsPerSecond" p) "traffic.burstRequestsPerSecond" MAXIMUM ≫= fun b =>
  positiveInteger (prop "maximumConcurrentRequests" p) "traffic.maximumConcurrentRequests" MAXIMUM ≫= fun c =>
  positiveInteger (prop "maximumConcurrentSseStreams" p) "traffic.maximumConcurrentSseStreams" MAXIMUM ≫= fun d =>
  positiveInteger (prop "retryAfterSeconds" p) "traffic.retryAfterSeconds" 3600 ≫= fun e =>
  Ok {| sustainedRequestsPerSecond := a; burstRequestsPerSecond := b; maximumConcurrentRequests := c;
        maximumConcurrentSseStreams := d; overloadStatus := 503; retryAfterSeconds := e |}.

Definition parse_latency (p : list (jstr * jsval)) : result Latency :=
  positiveInteger (prop "readP95" p) "latencyMilliseconds.readP95" MAXIMUM ≫= fun a =>
  positiveInteger (prop "mutationP95" p) "latencyMilliseconds.mutationP95" MAXIMUM ≫= fun b =>
  positiveInteger (prop "completeSyntheticCycleP95" p) "latencyMilliseconds.completeSyntheticCycleP95" MAXIMUM ≫= fun c =>
  Ok {| readP95 := a; mutationP95 := b; completeSyntheticCycleP95 := c |}.

Definition parse_reliability (ratio : jsnum) (p : list (jstr * jsval)) : result Reliability :=
  positiveInteger (prop "measurementWindowSeconds" p) "reliability.measurementWindowSeconds" 86400 ≫= fun a =>
  positiveInteger (prop "minimumRequestsPerWindow" p) "reliability.minimumRequestsPerWindow" MAXIMUM ≫= fun b =>
  Ok {| minimumSuccessRatio := ratio; measurementWindowSeconds := a; minimumRequestsPerWindow := b |}.

Definition parse_timeouts (p : list (jstr * jsval)) : result Timeouts :=
  positiveInteger (prop "database" p) "dependencyTimeoutMilliseconds.database" 60000 ≫= fun a =>
  positiveInteger (prop "partnerApi" p) "dependencyTimeoutMilliseconds.partnerApi" 60000 ≫= fun b =>
  positiveInteger (prop "webhookConsumer" p) "dependencyTimeoutMilliseconds.webhookConsumer" 60000 ≫= fun c =>
  Ok {| database := a; partnerApi := b; webhookConsumer := c |}.

(** The relations between the fields, and the scope the repository may grant. *)
Definition check_policy (p : LaunchPolicy) : result LaunchPolicy :=
  throw_if (burstRequestsPerSecond (traffic p) <? sustainedRequestsPerSecond (traffic p))
    "burstRequestsPerSecond must be >= sustainedRequestsPerSecond" ≫= fun _ =>
  throw_if (mutationP95 (latencyMilliseconds p) <? readP95 (latencyMilliseconds p)) "mutationP95 must be >= readP95" ≫= fun _ =>
  throw_if (completeSyntheticCycleP95 (latencyMilliseconds p) <? mutationP95 (latencyMilliseconds p))
    "completeSyntheticCycleP95 must be >= mutationP95" ≫= fun _ =>
  throw_if (realPaymentTrafficAllowed (scope p) || publicInternetAllowed (scope p) || negb (syntheticDataOnly (scope p)))
    "the repository-controlled launch policy may authorize only synthetic, non-public traffic" ≫= fun _ =>
  Ok p.

Definition parseLaunchPolicy (input : jsval) : result LaunchPolicy :=
  match isRecord input with
  | None => Throw "launch policy must be an object"
  | Some props =>
      exactKeys props POLICY_KEYS "launch policy" ≫= fun _ =>
      throw_if (negb (is_text LAUNCH_POLICY_SCHEMA_VERSION (prop "schemaVersion" props)))
        "unsupported launch-policy schemaVersion" ≫= fun _ =>
      match prop "profile" props with
      | JStr name =>
          throw_if (negb (profile_pattern name)) "profile must be a bounded lowercase identifier" ≫= fun _ =>
          match isRecord (prop "scope" props), isRecord (prop "traffic" props), isRecord (prop "latencyMilliseconds" props),
                isRecord (prop "reliability" props), isRecord (prop "dependencyTimeoutMilliseconds" props) with
          | Some sc, Some tr, Some la, Some re, Some ti =>
              exactKeys sc SCOPE_KEYS "scope" ≫= fun _ =>
              exactKeys tr TRAFFIC_KEYS "traffic" ≫= fun _ =>
              exactKeys la LATENCY_KEYS "latencyMilliseconds" ≫= fun _ =>
              exactKeys re RELIABILITY_KEYS "reliability" ≫= fun _ =>
              exactKeys ti TIMEOUT_KEYS "dependencyTimeoutMilliseconds" ≫= fun _ =>
              match ratio_ok (prop "minimumSuccessRatio" re) with
              | None => Throw "reliability.minimumSuccessRatio must be > 0 and <= 1"
              | Some ratio =>
                  throw_if (negb (is_integer 503 (prop "overloadStatus" tr)))
                    "traffic.overloadStatus must fail closed with HTTP 503" ≫= fun _ =>
                  parse_scope sc ≫= fun scope =>
                  parse_traffic tr ≫= fun traffic =>
                  parse_latency la ≫= fun latency =>
                  parse_reliability ratio re ≫= fun reliability =>
                  parse_timeouts ti ≫= fun timeouts =>
                  check_policy {| profile := name; scope := scope; traffic := traffic; latencyMilliseconds := latency;
                                  reliability := reliability; dependencyTimeoutMilliseconds := timeouts |}
              end
          | _, _, _, _, _ => Throw "launch policy sections must be objects"
          end
      | _ => Throw "profile must be a bounded lowercase identifier"
      end
  end.

(** ** The gate *)

Record Measurement : Type := {
  totalRequests : jsnum; successfulRequests : jsnum; readP95Milliseconds : jsnum; mutationP95Milliseconds : jsnum;
  completeSyntheticCycleP95Milliseconds : jsnum; peakConcurrentRequests : jsnum; peakConcurrentSseStreams : jsnum;
}.
Record LaunchEvaluation : Type := { passed : bool; failures : list jstr }.

(** [n > z]; false for a NaN. *)
Definition num_gt (n : jsnum) (z : Z) : bool :=
  match n with
  | NInt a => z <? a
  | NFrac p q => z * Z.pos q <? p
  | NInf negative => negb negative
  | NNaN => false
  end.

(** The quotient of two integers [0 <= a < 2^52 * b] as the double nearest to
    it, ties to even: the pair [(n, k)] stands for [n / 2^k]. *)
Definition num_div (a b : Z) : Z * Z :=
  if a =? 0 then (0, 0)
  else
    let k := 53 + Z.log2 b - Z.log2 a in
    let k := if 2 ^ 53 <=? a * 2 ^ k / b then k - 1 else k in
    let q := a * 2 ^ k / b in
    let r := 2 * (a * 2 ^ k mod b) in
    ((if r <? b then q else if b <? r then q + 1 else if Z.even q then q else q + 1), k).

(** [a / b < ratio] *)
Definition quotient_below (a b : Z) (ratio : jsnum) : bool :=
  let '(n, k) := num_div a b in
  match ratio with
  | NInt m => n <? m * 2 ^ k
  | NFrac p q => n * Z.pos q <? p * 2 ^ k
  | _ => false
  end.

Definition failure (b : bool) (message : jstr) : list jstr := if b then [message] else [].

Definition evaluateMeasurement (policy : LaunchPolicy) (m : Measurement) : result LaunchEvaluation :=
  positiveInteger (JNum (totalRequests m)) "measurement.totalRequests" MAXIMUM ≫= fun total =>
  match safe_between (successfulRequests m) 0 total with
  | None => Throw "measurement.successfulRequests is invalid"
  | Some successful =>
      let failures :=
        failure (total <? minimumRequestsPerWindow (reliability policy))
          "insufficient request count for the declared measurement window" ++
        failure (quotient_below successful total (minimumSuccessRatio (reliability policy)))
          "success ratio is below the declared minimum" ++
        failure (num_gt (readP95Milliseconds m) (readP95 (latencyMilliseconds policy))) "read p95 exceeds the declared SLO" ++
        failure (num_gt (mutationP95Milliseconds m) (mutationP95 (latencyMilliseconds policy)))
          "mutation p95 exceeds the declared SLO" ++
        failure (num_gt (completeSyntheticCycleP95Milliseconds m) (completeSyntheticCycleP95 (latencyMilliseconds policy)))
          "complete synthetic cycle p95 exceeds the declared SLO" ++
        failure (num_gt (peakConcurrentRequests m) (maximumConcurrentRequests (traffic policy)))
          "peak request concurrency exceeds the approved profile" ++
        failure (num_gt (peakConcurrentSseStreams m) (maximumConcurrentSseStreams (traffic policy)))
          "peak SSE concurrency exceeds the approved profile" in
      Ok {| passed := (length failures =? 0)%nat; failures := failures |}
  end.

(** ** What a parsed policy promises *)

Definition bounded_by (hi z : Z) : Prop := 1 <= z <= hi.

(** A success ratio: a number in (0, 1]. *)
Definition ratio_valid (n : jsnum) : Prop :=
  match n with NInt z => z = 1 | NFrac p q => 0 < p <= Z.pos q | _ => False end.

Record well_formed (p : LaunchPolicy) : Prop := {
  wf_profile : profile_pattern (profile p) = true;
  wf_scope : syntheticDataOnly (scope p) = true /\ realPaymentTrafficAllowed (scope p) = false /\
    publicInternetAllowed (scope p) = false /\ bounded_by 10000 (maximumTenants (scope p));
  wf_traffic : bounded_by MAXIMUM (sustainedRequestsPerSecond (traffic p)) /\
    sustainedRequestsPerSecond (traffic p) <= burstRequestsPerSecond (traffic p) <= MAXIMUM /\
    bounded_by MAXIMUM (maximumConcurrentRequests (traffic p)) /\ bounded_by MAXIMUM (maximumConcurrentSseStreams (traffic p)) /\
    overloadStatus (traffic p) = 503 /\ bounded_by 3600 (retryAfterSeconds (traffic p));
  wf_latency : 1 <= readP95 (latencyMilliseconds p) /\
    readP95 (latencyMilliseconds p) <= mutationP95 (latencyMilliseconds p) <= completeSyntheticCycleP95 (latencyMilliseconds p) /\
    completeSyntheticCycleP95 (latencyMilliseconds p) <= MAXIMUM;
  wf_reliability : ratio_valid (minimumSuccessRatio (reliability p)) /\
    bounded_by 86400 (measurementWindowSeconds (reliability p)) /\ bounded_by MAXIMUM (minimumRequestsPerWindow (reliability p));
  wf_timeouts : bounded_by 60000 (database (dependencyTimeoutMilliseconds p)) /\
    bounded_by 60000 (partnerApi (dependencyTimeoutMilliseconds p)) /\ bounded_by 60000 (webhookConsumer (dependencyTimeoutMilliseconds p));
}.

(** The policy as the object it is read from. *)
Definition num (z : Z) : jsval := JNum (NInt z).
Definition scope_json (c : Scope) : list (jstr * jsval) :=
  [(js "syntheticDataOnly", JBool (syntheticDataOnly c));
   (js "realPaymentTrafficAllowed", JBool (realPaymentTrafficAllowed c));
   (js "publicInternetAllowed", JBool (publicInternetAllowed c)); (js "maximumTenants", num (maximumTenants c))].
Definition traffic_json (c : Traffic) : list (jstr * jsval) :=
  [(js "sustainedRequestsPerSecond", num (sustainedRequestsPerSecond c));
   (js "burstRequestsPerSecond", num (burstRequestsPerSecond c));
   (js "maximumConcurrentRequests", num (maximumConcurrentRequests c));
   (js "maximumConcurrentSseStreams", num (maximumConcurrentSseStreams c));
   (js "overloadStatus", num (overloadStatus c)); (js "retryAfterSeconds", num (retryAfterSeconds c))].
Definition latency_json (c : Latency) : list (jstr * jsval) :=
  [(js "readP95", num (readP95 c)); (js "mutationP95", num (mutationP95 c));
   (js "completeSyntheticCycleP95", num (completeSyntheticCycleP95 c))].
Definition reliability_json (c : Reliability) : list (jstr * jsval) :=
  [(js "minimumSuccessRatio", JNum (minimumSuccessRatio c));
   (js "measurementWindowSeconds", num (measurementWindowSeconds c));
   (js "minimumRequestsPerWindow", num (minimumRequestsPerWindow c))].
Definition timeouts_json (c : Timeouts) : list (jstr * jsval) :=
  [(js "database", num (database c)); (js "partnerApi", num (partnerApi c)); (js "webhookConsumer", num (webhookConsumer c))].

Definition policy_json (p : LaunchPolicy) : jsval :=
  JObj [
    (js "schemaVersion", JStr LAUNCH_POLICY_SCHEMA_VERSION); (js "profile", JStr (profile p));
    (js "scope", JObj (scope_json (scope p))); (js "traffic", JObj (traffic_json (traffic p)));
    (js "latencyMilliseconds", JObj (latency_json (latencyMilliseconds p)));
    (js "reliability", JObj (reliability_json (reliability p)));
    (js "dependencyTimeoutMilliseconds", JObj (timeouts_json (dependencyTimeoutMilliseconds p)))].

Lemma positiveInteger_ok v l hi z : positiveInteger v l hi = Ok z -> bounded_by hi z.
Proof.
  unfold positiveInteger. destruct v as [| | |n| | |]; try done. destruct (safe_between n 1 hi) as [z'|] eqn:E; [|done].
  intros [= ->]. by apply safe_between_Some in E as (_ & _ & ?).
Qed.

Lemma positiveInteger_num z l hi : bounded_by hi z -> hi <= MAX_SAFE_INTEGER -> positiveInteger (num z) l hi = Ok z.
Proof.
  intros Hz Hhi. unfold bounded_by in Hz. unfold positiveInteger, num.
  by rewrite (proj2 (safe_between_Some (NInt z) 1 hi z)) by (split_and!; done || lia).
Qed.

(** The fields of a parsed section. *)
Ltac fields H :=
  repeat (apply result_bind_Ok in H as (? & ?%positiveInteger_ok & H)); injection H as <-.

Lemma parse_traffic_ok p t :
  parse_traffic p = Ok t -> bounded_by MAXIMUM (sustainedRequestsPerSecond t) /\ bounded_by MAXIMUM (burstRequestsPerSecond t) /\
    bounded_by MAXIMUM (maximumConcurrentRequests t) /\ bounded_by MAXIMUM (maximumConcurrentSseStreams t) /\
    overloadStatus t = 503 /\ bounded_by 3600 (retryAfterSeconds t).
Proof. intros Hp. unfold parse_traffic in Hp. fields Hp. by split_and!. Qed.

Lemma parse_latency_ok p t :
  parse_latency p = Ok t -> bounded_by MAXIMUM (readP95 t) /\ bounded_by MAXIMUM (mutationP95 t) /\
    bounded_by MAXIMUM (completeSyntheticCycleP95 t).
Proof. intros Hp. unfold parse_latency in Hp. fields Hp. by split_and!. Qed.

Lemma parse_reliability_ok r p t :
  parse_reliability r p = Ok t -> minimumSuccessRatio t = r /\ bounded_by 86400 (measurementWindowSeconds t) /\
    bounded_by MAXIMUM (minimumRequestsPerWindow t).
Proof. intros Hp. unfold parse_reliability in Hp. fields Hp. by split_and!. Qed.

Lemma parse_timeouts_ok p t :
  parse_timeouts p = Ok t -> bounded_by 60000 (database t) /\ bounded_by 60000 (partnerApi t) /\ bounded_by 60000 (webhookConsumer t).
Proof. intros Hp. unfold parse_timeouts in Hp. fields Hp. by split_and!. Qed.

Lemma parse_scope_ok p t : parse_scope p = Ok t -> bounded_by 10000 (maximumTenants t).
Proof.
  intros Hp. unfold parse_scope in Hp. do 3 apply result_bind_Ok in Hp as (? & _ & Hp).
  apply result_bind_Ok in Hp as (? & ?%positiveInteger_ok & [= <-]). done.
Qed.

Lemma ratio_ok_valid v r : ratio_ok v = Some r -> ratio_valid r.
Proof.
  unfold ratio_ok. destruct v as [| | |[z|p q| |]| | |]; try done; destruct (_ && _) eqn:E; try done; intros [= <-];
    rewrite andb_true_iff, Z.ltb_lt, Z.leb_le in E; cbn; lia.
Qed.

Lemma parsed_well_formed input p : parseLaunchPolicy input = Ok p -> well_formed p.
Proof.
  unfold parseLaunchPolicy. destruct (isRecord input) as [props|]; [|done]. intros Hp.
  apply result_bind_Ok in Hp as (? & _ & Hp). apply result_bind_Ok in Hp as (? & _ & Hp).
  destruct (prop "profile" props) as [| | | |name| |]; try done. apply result_bind_Ok in Hp as (? & Hname%throw_unless_Ok & Hp).
  repeat (destruct (isRecord _); [|done]). do 5 apply result_bind_Ok in Hp as (? & _ & Hp).
  destruct (ratio_ok _) as [r|] eqn:Er; [|done]. apply ratio_ok_valid in Er. apply result_bind_Ok in Hp as (? & _ & Hp).
  apply result_bind_Ok in Hp as (sc & Hsc%parse_scope_ok & Hp). apply result_bind_Ok in Hp as (tr & Htr%parse_traffic_ok & Hp).
  apply result_bind_Ok in Hp as (la & Hla%parse_latency_ok & Hp). apply result_bind_Ok in Hp as (re & Hre%parse_reliability_ok & Hp).
  apply result_bind_Ok in Hp as (ti & Hti%parse_timeouts_ok & Hp). unfold check_policy in Hp. cbn in Hp.
  apply result_bind_Ok in Hp as (? & H1%throw_if_Ok & Hp). apply result_bind_Ok in Hp as (? & H2%throw_if_Ok & Hp).
  apply result_bind_Ok in Hp as (? & H3%throw_if_Ok & Hp). apply result_bind_Ok in Hp as (? & H4%throw_if_Ok & [= <-]).
  apply Z.ltb_ge in H1, H2, H3. apply orb_false_iff in H4 as [[H4 H5]%orb_false_iff H6%negb_false_iff].
  destruct Hre as (Hratio & ? & ?). rewrite <- Hratio in Er. unfold bounded_by in *.
  split; cbn [profile scope traffic latencyMilliseconds reliability dependencyTimeoutMilliseconds]; unfold bounded_by;
    repeat match goal with |- _ /\ _ => split end; try done; try lia; tauto.
Qed.

(** Reading back a policy that is well formed. *)
Ltac read_field :=
  match goal with
  | |- context [positiveInteger ?v ?l ?hi] =>
      let v' := eval vm_compute in v in change v with v';
      lazymatch v' with JNum (NInt ?z) => change v' with (num z) end;
      rewrite (positiveInteger_num _ l hi) by (cbn; done || (unfold MAX_SAFE_INTEGER, MAXIMUM; lia))
  end.

Ltac read_section c := destruct c; intros; cbn in *; subst; cbn; repeat read_field; reflexivity.

Lemma parse_scope_json c : bounded_by 10000 (maximumTenants c) -> parse_scope (scope_json c) = Ok c.
Proof. unfold parse_scope. read_section c. Qed.

Lemma parse_traffic_json c :
  bounded_by MAXIMUM (sustainedRequestsPerSecond c) -> bounded_by MAXIMUM (burstRequestsPerSecond c) ->
  bounded_by MAXIMUM (maximumConcurrentRequests c) -> bounded_by MAXIMUM (maximumConcurrentSseStreams c) ->
  overloadStatus c = 503 -> bounded_by 3600 (retryAfterSeconds c) -> parse_traffic (traffic_json c) = Ok c.
Proof. unfold parse_traffic. read_section c. Qed.

Lemma parse_latency_json c :
  bounded_by MAXIMUM (readP95 c) -> bounded_by MAXIMUM (mutationP95 c) ->
  bounded_by MAXIMUM (completeSyntheticCycleP95 c) -> parse_latency (latency_json c) = Ok c.
Proof. unfold parse_latency. read_section c. Qed.

Lemma parse_reliability_json c :
  bounded_by 86400 (measurementWindowSeconds c) -> bounded_by MAXIMUM (minimumRequestsPerWindow c) ->
  parse_reliability (minimumSuccessRatio c) (reliability_json c) = Ok c.
Proof. unfold parse_reliability. read_section c. Qed.

Lemma parse_timeouts_json c :
  bounded_by 60000 (database c) -> bounded_by 60000 (partnerApi c) -> bounded_by 60000 (webhookConsumer c) ->
  parse_timeouts (timeouts_json c) = Ok c.
Proof. unfold parse_timeouts. read_section c. Qed.

Lemma ratio_valid_ok n : ratio_valid n -> ratio_ok (JNum n) = Some n.
Proof. destruct n as [z|p q| |]; cbn; try done; [by intros ->|]. intros [? ?]. by rewrite (proj2 (Z.ltb_lt _ _)), (proj2 (Z.leb_le _ _)) by lia. Qed.

Lemma section_keys p :
  exactKeys (scope_json (scope p)) SCOPE_KEYS "scope" = Ok tt /\ exactKeys (traffic_json (traffic p)) TRAFFIC_KEYS "traffic" = Ok tt /\
  exactKeys (latency_json (latencyMilliseconds p)) LATENCY_KEYS "latencyMilliseconds" = Ok tt /\
  exactKeys (reliability_json (reliability p)) RELIABILITY_KEYS "reliability" = Ok tt /\
  exactKeys (timeouts_json (dependencyTimeoutMilliseconds p)) TIMEOUT_KEYS "dependencyTimeoutMilliseconds" = Ok tt.
Proof. split_and!; vm_compute; reflexivity. Qed.

Lemma check_policy_ok p : well_formed p -> check_policy p = Ok p.
Proof.
  intros [_ (Hs & Hr & Hi & _) (_ & Ht & _) (_ & Hl & _) _ _]. unfold check_policy.
  rewrite Hs, Hr, Hi, !(proj2 (Z.ltb_ge _ _)) by lia. reflexivity.
Qed.

Lemma well_formed_parses p : well_formed p -> parseLaunchPolicy (policy_json p) = Ok p.
Proof.
  intros Hp. pose proof (check_policy_ok p Hp) as Hc. destruct (section_keys p) as (K1 & K2 & K3 & K4 & K5).
  destruct Hp as [Hname Hs Ht Hl Hr Hd]. unfold bounded_by in *.
  unfold policy_json, parseLaunchPolicy. cbn [isRecord].
  set (props := [(js "schemaVersion", _); _; _; _; _; _; _]).
  change (exactKeys props POLICY_KEYS "launch policy") with (Ok tt). 
  change (prop "schemaVersion" props) with (JStr LAUNCH_POLICY_SCHEMA_VERSION).
  change (prop "profile" props) with (JStr (profile p)). change (prop "scope" props) with (JObj (scope_json (scope p))).
  change (prop "traffic" props) with (JObj (traffic_json (traffic p))).
  change (prop "latencyMilliseconds" props) with (JObj (latency_json (latencyMilliseconds p))).
  change (prop "reliability" props) with (JObj (reliability_json (reliability p))).
  change (prop "dependencyTimeoutMilliseconds" props) with (JObj (timeouts_json (dependencyTimeoutMilliseconds p))).
  cbn [isRecord]. rewrite K1, K2, K3, K4, K5, Hname. cbn [mbind result_bind throw_if negb].
  change (is_text _ _) with true. cbn [negb throw_if mbind result_bind].
  change (prop "minimumSuccessRatio" (reliability_json (reliability p))) with (JNum (minimumSuccessRatio (reliability p))).
  change (prop "overloadStatus" (traffic_json (traffic p))) with (num (overloadStatus (traffic p))).
  rewrite (ratio_valid_ok _ (proj1 Hr)). destruct Ht as (? & ? & ? & ? & E503 & ?). rewrite E503. cbn [is_integer num].
  change (503 =? 503) with true. cbn [negb throw_if mbind result_bind].
  rewrite parse_scope_json, parse_traffic_json, parse_latency_json, parse_reliability_json, parse_timeouts_json
    by (unfold bounded_by; lia). cbn [mbind result_bind].
  rewrite <- Hc. by destruct p.
Qed.

(** C40: A policy is well formed (a profile name of the pattern, only synthetic,
    non-public traffic, every limit a positive integer within its maximum, bursts
    at least the sustained rate, the latency objectives ordered, a success ratio
    in (0, 1], an overload status of 503) exactly when the parser reads it back
    from its object; and a policy the parser returns, from whatever input, is
    well formed. *)
Theorem parsed_policy_well_formed p :
  (well_formed p <-> parseLaunchPolicy (policy_json p) = Ok p) /\
  forall input, parseLaunchPolicy input = Ok p -> well_formed p.
Proof.
  split; [split; [apply well_formed_parses|apply parsed_well_formed]|]. intros input. apply parsed_well_formed.
Qed.

(** ** The repository's own policy *)

(** config/controlled-demo-slo.v1.json; the ratio is the double nearest to 0.999. *)
Definition controlled_demo : LaunchPolicy := {|
  profile := "controlled-single-user-demo";
  scope := {| syntheticDataOnly := true; realPaymentTrafficAllowed := false; publicInternetAllowed := false; maximumTenants := 1 |};
  traffic := {| sustainedRequestsPerSecond := 100; burstRequestsPerSecond := 250; maximumConcurrentRequests := 128;
                maximumConcurrentSseStreams := 64; overloadStatus := 503; retryAfterSeconds := 1 |};
  latencyMilliseconds := {| readP95 := 100; mutationP95 := 250; completeSyntheticCycleP95 := 500 |};
  reliability := {| minimumSuccessRatio := NFrac 8998192055486251 9007199254740992;
                    measurementWindowSeconds := 300; minimumRequestsPerWindow := 1000 |};
  dependencyTimeoutMilliseconds := {| database := 2000; partnerApi := 3000; webhookConsumer := 3000 |};
|}.

Lemma parsed_policy_well_formed_witness : well_formed controlled_demo.
Proof. apply (proj2 (parsed_policy_well_formed controlled_demo) (policy_json controlled_demo)). vm_compute. reflexivity. Defined.

(** A measurement whose latencies are NaN passes the gate: no comparison with
    a NaN holds. *)
Definition unmeasured : Measurement := {|
  totalRequests := NInt 1000; successfulRequests := NInt 999; readP95Milliseconds := NNaN; mutationP95Milliseconds := NNaN;
  completeSyntheticCycleP95Milliseconds := NNaN; peakConcurrentRequests := NNaN; peakConcurrentSseStreams := NNaN;
|}.

Example nan_latency_passes :
  evaluateMeasurement controlled_demo unmeasured = Ok {| passed := true; failures := [] |}.
Proof. vm_compute. reflexivity. Qed.
