(* ===== verification/RemoteAudit.v ===== *)
(** RemoteAudit: packages/audit/remoteAudit.ts, the audit log whose keys live in
    a remote service and whose trust anchor is published to an independent one.
    An append prepares a journal entry, publishes the new anchor and commits;
    opening the log completes or aborts what a crash left behind. *)
From stdpp Require Import relations.
From S2P Require Import Prelude JsString JsMap Host TestHost JsTime JsJson Protocol AuditLog.
#[local] Open Scope string_scope.
#[local] Open Scope list_scope.
#[local] Open Scope Z_scope.
#[local] Open Scope js_scope.

(** ** The three services *)

Record RemoteAuditKeyMetadata : Type := { md_keyId : jstr; md_keyVersion : Z; md_status : jstr }.

Record PublishedAuditAnchor : Type := { anchor : AuditTrustAnchor; pu_revision : jstr }.

Record PendingRemoteAuditCommit : Type := {
  commitId : jstr; pd_snapshot : AuditLogSnapshot; pd_anchor : AuditTrustAnchor;
}.

Record RemoteAuditState : Type := {
  revision : Z; st_snapshot : AuditLogSnapshot; pending : option PendingRemoteAuditCommit;
}.

#[global] Instance AuditAuthentication_eq_dec : EqDecision AuditAuthentication.
Proof. solve_decision. Defined.
#[global] Instance AuditTrustAnchor_eq_dec : EqDecision AuditTrustAnchor.
Proof. solve_decision. Defined.

(** Each method is a call on the state of its service. *)
Class RemoteAuditMacProvider (P : Type) := {
  kms_activeKey : St P RemoteAuditKeyMetadata;
  kms_keyMetadata : jstr -> St P (option RemoteAuditKeyMetadata);
  kms_createMac : list N -> RemoteAuditKeyMetadata -> St P jstr;
  kms_verifyMac : list N -> jstr -> RemoteAuditKeyMetadata -> St P bool;
}.

Class AuditTrustAnchorPublisher (B : Type) := {
  publisher_load : jstr -> St B (option PublishedAuditAnchor);
  publisher_publish : jstr -> option jstr -> AuditTrustAnchor -> St B PublishedAuditAnchor;
}.

Class RemoteAuditStateStore (J : Type) := {
  store_load : jstr -> St J RemoteAuditState;
  store_prepare : jstr -> Z -> PendingRemoteAuditCommit -> St J unit;
  store_commit : jstr -> jstr -> St J unit;
  store_abort : jstr -> jstr -> St J unit;
}.

(** The adapters that ship unconfigured. *)
Definition UnconfiguredRemoteAuditMacProvider : RemoteAuditMacProvider unit := {|
  kms_activeKey := lift (Throw "remote audit MAC provider is not configured");
  kms_keyMetadata := fun _ => lift (Throw "remote audit MAC provider is not configured");
  kms_createMac := fun _ _ => lift (Throw "remote audit MAC provider is not configured");
  kms_verifyMac := fun _ _ _ => lift (Throw "remote audit MAC provider is not configured");
|}.
Definition UnconfiguredAuditTrustAnchorPublisher : AuditTrustAnchorPublisher unit := {|
  publisher_load := fun _ => lift (Throw "audit trust-anchor publisher is not configured");
  publisher_publish := fun _ _ _ => lift (Throw "audit trust-anchor publisher is not configured");
|}.

(** The private fields of a log object; the services are those of the [World]. *)
Record AsyncRemoteAuditLog : Type := {
  logId : jstr; state : RemoteAuditState; published : PublishedAuditAnchor;
}.

(** What becomes of one service call: answered; the request lost; the request
    served and its answer lost. *)
Inductive fate : Type := Answered | Lost | Late.

Section remote.
Context `{Host} {P B J : Type} `{!RemoteAuditMacProvider P, !AuditTrustAnchorPublisher B, !RemoteAuditStateStore J}.

(** The services, the object whose method runs, and the number of service calls
    made so far. *)
Record World : Type := {
  provider : P; publisher : B; store : J; this : option AsyncRemoteAuditLog; calls : nat;
}.
Definition set_provider x (w : World) : World :=
  {| provider := x; publisher := publisher w; store := store w; this := this w; calls := calls w |}.
Definition set_publisher x (w : World) : World :=
  {| provider := provider w; publisher := x; store := store w; this := this w; calls := calls w |}.
Definition set_store x (w : World) : World :=
  {| provider := provider w; publisher := publisher w; store := x; this := this w; calls := calls w |}.
Definition set_this x (w : World) : World :=
  {| provider := provider w; publisher := publisher w; store := store w; this := x; calls := calls w |}.
Definition set_calls x (w : World) : World :=
  {| provider := provider w; publisher := publisher w; store := store w; this := this w; calls := x |}.

(** The network: the fate of the n-th service call, and what anybody else does
    to services and object while the code awaits it. *)
Record Network : Type := { fate_of : nat -> fate; others : nat -> World -> World }.
Variable net : Network.

Definition OUTAGE : jstr := "service unavailable".

Definition await {A} (m : St World A) : St World A := fun w =>
  let w1 := others net (calls w) (set_calls (S (calls w)) w) in
  match fate_of net (calls w) with
  | Answered => m w1
  | Lost => (Throw OUTAGE, w1)
  | Late => (Throw OUTAGE, (m w1).2)
  end.
Definition ask_provider {A} (m : St P A) : St World A := await (zoom provider set_provider m).
Definition ask_publisher {A} (m : St B A) : St World A := await (zoom publisher set_publisher m).
Definition ask_store {A} (m : St J A) : St World A := await (zoom store set_store m).

(** ** Helpers *)

(** [["airlock-audit-hmac-v1", ...].join("\n")] *)
Definition macInput (sequence : Z) (hash : jstr) (key : RemoteAuditKeyMetadata) (previousTag : jstr) : list N :=
  utf8_encode (join [10%N] [js "airlock-audit-hmac-v1"; number_string (NInt sequence); hash; md_keyId key;
    number_string (NInt (md_keyVersion key)); previousTag]).

Definition anchorsEqual (left right : AuditTrustAnchor) : bool :=
  (an_schemaVersion left =? an_schemaVersion right) && (eventCount left =? eventCount right) &&
  (tipHash left =s? tipHash right) && (tipAuthenticationTag left =s? tipAuthenticationTag right) &&
  bool_decide (tipKeyId left = tipKeyId right) && bool_decide (tipKeyVersion left = tipKeyVersion right) &&
  (activeKeyId left =s? activeKeyId right) && (activeKeyVersion left =? activeKeyVersion right).

Definition KEY_STATUSES : list jstr := [js "active"; js "retired"].

Definition validateMetadata (key : RemoteAuditKeyMetadata) : result unit :=
  throw_if (negb (id_pattern (md_keyId key)) || negb (safe_int (md_keyVersion key)) || (md_keyVersion key <? 1) ||
            negb (includes KEY_STATUSES (md_status key)))
    "invalid remote audit key metadata".

Definition anchorFor (events : list AuditEvent) (active : RemoteAuditKeyMetadata) : AuditTrustAnchor :=
  let tip := last events ≫= authentication in
  {| an_schemaVersion := 1; eventCount := Z.of_nat (length events); tipHash := tip_hash events;
     tipAuthenticationTag := tip_tag events;
     tipKeyId := match tip with Some a => if (length (keyId a) =? 0)%nat then None else Some (keyId a) | None => None end;
     tipKeyVersion := match tip with Some a => if keyVersion a =? 0 then None else Some (keyVersion a) | None => None end;
     activeKeyId := md_keyId active; activeKeyVersion := md_keyVersion active |}.

(** The tests on an event's own fields. *)
Definition well_shaped (index : nat) (e : AuditEvent) : bool :=
  (sequence e =? Z.of_nat index + 1) && negb (length (eventId e) =? 0)%nat && negb (length (type e) =? 0)%nat &&
  negb (length (correlationId e) =? 0)%nat && bool_decide (is_Some (date_parse (occurredAt e))) && is_object (payload e) &&
  hex_of_length 64 (hash e) &&
  match authentication e with Some a => validateAuthentication a | None => false end.

(** The version of the next key against the last one used. *)
Definition version_rollback (version : Z) (id : jstr) (c : Cursor) : bool :=
  (version <? cu_version c) ||
  (version =? cu_version c) && negb (bool_decide (cu_keyId c = None)) && negb (bool_decide (cu_keyId c = Some id)).

(** One iteration of the loop of [verifySnapshot]; [None] is [return false]. *)
Definition verify_remote_event (c : Cursor) (index : nat) (e : AuditEvent) : St World (option Cursor) :=
  match authentication e with
  | Some a =>
      if negb (well_shaped index e) || negb (previousHash e =s? cu_hash c) || negb (digest (event_body e) =s? hash e) ||
         negb (previousAuthenticationTag a =s? cu_tag c)
      then mret None
      else
        ask_provider (kms_keyMetadata (keyId a)) ≫= fun found =>
        match found with
        | None => mret None
        | Some key =>
            lift (validateMetadata key) ≫= fun _ =>
            if negb (md_keyVersion key =? keyVersion a) || version_rollback (md_keyVersion key) (md_keyId key) c then mret None
            else
              ask_provider (kms_verifyMac (macInput (sequence e) (hash e) key (cu_tag c)) (tag a) key) ≫= fun ok : bool =>
              mret (if ok then Some {| cu_hash := hash e; cu_tag := tag a; cu_version := md_keyVersion key;
                                       cu_keyId := Some (md_keyId key) |} else None)
        end
  | None => mret None
  end.

Fixpoint verify_events (c : Cursor) (index : nat) (l : list AuditEvent) : St World bool :=
  match l with
  | [] => mret true
  | e :: l => verify_remote_event c index e ≫= fun next =>
              match next with None => mret false | Some c => verify_events c (S index) l end
  end.

Definition verifySnapshot (snapshot : AuditLogSnapshot) : St World bool :=
  if negb (as_schemaVersion snapshot =? 2) then mret false else verify_events genesis 0 (as_events snapshot).

(** ** Opening *)

Definition matches_pending (found : option PublishedAuditAnchor) (p : PendingRemoteAuditCommit) : bool :=
  match found with Some q => anchorsEqual (anchor q) (pd_anchor p) | None => false end.

(** [if (state.pending) ...] *)
Definition settle_pending (id : jstr) (state : RemoteAuditState) (found : option PublishedAuditAnchor)
    : St World (RemoteAuditState * option PublishedAuditAnchor) :=
  match pending state with
  | None => mret (state, found)
  | Some p =>
      (if matches_pending found p then ask_store (store_commit id (commitId p)) else ask_store (store_abort id (commitId p)))
        ≫= fun _ =>
      ask_store (store_load id) ≫= fun state =>
      ask_publisher (publisher_load id) ≫= fun found =>
      mret (state, found)
  end.

Definition must_be_active (active : RemoteAuditKeyMetadata) : result unit :=
  validateMetadata active ≫= fun _ =>
  throw_if (negb (md_status active =s? "active")) "remote active audit key is not active".

(** [if (!published) ...] *)
Definition first_anchor (id : jstr) (events : list AuditEvent) (active : RemoteAuditKeyMetadata)
    (found : option PublishedAuditAnchor) : St World PublishedAuditAnchor :=
  match found with
  | Some q => mret q
  | None =>
      lift (throw_if (negb (length events =? 0)%nat) "non-empty remote audit log has no external trust anchor") ≫= fun _ =>
      ask_publisher (publisher_publish id None (anchorFor events active))
  end.

Definition anchored_key (q : PublishedAuditAnchor) (active : RemoteAuditKeyMetadata) : RemoteAuditKeyMetadata :=
  {| md_keyId := activeKeyId (anchor q); md_keyVersion := activeKeyVersion (anchor q);
     md_status := if activeKeyId (anchor q) =s? md_keyId active then "active" else "retired" |}.

Definition anchor_refused (events : list AuditEvent) (q : PublishedAuditAnchor) (active : RemoteAuditKeyMetadata) : bool :=
  negb (anchorsEqual (anchor q) (anchorFor events (anchored_key q active))) ||
  (md_keyVersion active <? activeKeyVersion (anchor q)) ||
  (md_keyVersion active =? activeKeyVersion (anchor q)) && negb (md_keyId active =s? activeKeyId (anchor q)).

Definition open (id : jstr) : St World AsyncRemoteAuditLog :=
  lift (throw_if (negb (id_pattern id)) "invalid remote audit log id") ≫= fun _ =>
  ask_store (store_load id) ≫= fun state =>
  ask_publisher (publisher_load id) ≫= fun found =>
  settle_pending id state found ≫= fun '(state, found) =>
  ask_provider kms_activeKey ≫= fun active =>
  lift (must_be_active active) ≫= fun _ =>
  first_anchor id (as_events (st_snapshot state)) active found ≫= fun published =>
  lift (validateMetadata (anchored_key published active)) ≫= fun _ =>
  (if anchor_refused (as_events (st_snapshot state)) published active then mret false
   else verifySnapshot (st_snapshot state)) ≫= fun ok : bool =>
  lift (throw_if (negb ok) "remote audit state or external trust anchor verification failed") ≫= fun _ =>
  mret {| logId := id; state := state; published := published |}.

(** ** Appending *)

Definition self : St World AsyncRemoteAuditLog :=
  sget ≫= fun w => lift (match this w with Some o => Ok o | None => Throw "TypeError" end).

Definition rollback_against (previous : option AuditEvent) (active : RemoteAuditKeyMetadata) : bool :=
  match previous ≫= authentication with
  | Some a => (md_keyVersion active <? keyVersion a) ||
              (md_keyVersion active =? keyVersion a) && negb (md_keyId active =s? keyId a)
  | None => false
  end.

(** [try { publish } catch { abort; throw }] *)
Definition publish_or_abort (id cid : jstr) (expected : option jstr) (a : AuditTrustAnchor) : St World PublishedAuditAnchor :=
  fun w => match ask_publisher (publisher_publish id expected a) w with
           | (Ok q, w) => (Ok q, w)
           | (Throw e, w) => (ask_store (store_abort id cid) ≫= fun _ => lift (Throw e)) w
           end.

Definition authenticated (e : AuditEvent) (active : RemoteAuditKeyMetadata) (previousTag t : jstr) : AuditEvent :=
  {| sequence := sequence e; eventId := eventId e; type := type e; correlationId := correlationId e;
     causationId := causationId e; occurredAt := occurredAt e; payload := payload e; previousHash := previousHash e;
     hash := hash e;
     authentication := Some {| algorithm := "hmac-sha256"; keyId := md_keyId active; keyVersion := md_keyVersion active;
                               previousAuthenticationTag := previousTag; tag := t |} |}.

(** The unauthenticated event, built from the log as it is when the key is known. *)
Definition base_event (events : list AuditEvent) (type correlationId : jstr) (payload : jsval) (occurredAt : jstr)
    (causationId : option jstr) (uuid : jstr) : AuditEvent :=
  let body := {|
    sequence := Z.of_nat (length events) + 1; eventId := uuid; type := type; correlationId := correlationId;
    causationId := causationId; occurredAt := occurredAt; payload := payload; previousHash := tip_hash events;
    hash := []; authentication := None |} in
  with_hash body (digest (event_body body)).

Definition append (type correlationId : jstr) (payload : list (jstr * jsval)) (nowArg : option Date)
    (causationId : option jstr) (e : Env) : St World AuditEvent :=
  let now := or_now nowArg e 0 in
  lift (throw_if ((length type =? 0)%nat || (length correlationId =? 0)%nat || bool_decide (now = None))
    "invalid remote audit event") ≫= fun _ =>
  ask_provider kms_activeKey ≫= fun active =>
  lift (must_be_active active) ≫= fun _ =>
  self ≫= fun log =>
  let events := as_events (st_snapshot (state log)) in
  lift (throw_if (rollback_against (last events) active) "remote audit key version rollback detected") ≫= fun _ =>
  lift (toISOString now) ≫= fun at_ =>
  let base := base_event events type correlationId (JObj payload) at_ causationId (env_uuid e 0) in
  let previousTag := tip_tag events in
  ask_provider (kms_createMac (macInput (sequence base) (hash base) active previousTag) active) ≫= fun t =>
  lift (throw_if (negb (base64url_of_length 43 t)) "remote audit MAC provider returned an invalid tag") ≫= fun _ =>
  let event := authenticated base active previousTag t in
  self ≫= fun log =>
  let snapshot := {| as_schemaVersion := 2; as_events := as_events (st_snapshot (state log)) ++ [event] |} in
  let anchor := anchorFor (as_events snapshot) active in
  let pending := {| commitId := env_uuid e 1; pd_snapshot := snapshot; pd_anchor := anchor |} in
  ask_store (store_prepare (logId log) (revision (state log)) pending) ≫= fun _ =>
  self ≫= fun log =>
  publish_or_abort (logId log) (commitId pending) (Some (pu_revision (published log))) anchor ≫= fun published =>
  ask_store (store_commit (logId log) (commitId pending)) ≫= fun _ =>
  ask_store (store_load (logId log)) ≫= fun state =>
  smodify (set_this (Some {| logId := logId log; state := state; published := published |})) ≫= fun _ =>
  mret event.

Definition snapshot (log : AsyncRemoteAuditLog) : AuditLogSnapshot := st_snapshot (state log).
Definition trustAnchor (log : AsyncRemoteAuditLog) : AuditTrustAnchor := anchor (published log).
End remote.
