(* ===== verification/RemoteAuditRecovery.v ===== *)
(** RemoteAuditRecovery: what the remote audit log promises across crashes.
    The services are taken by their contracts; the journal, the published
    anchor and the keys form an abstract state with an invariant, from which
    opening always recovers. *)
From stdpp Require Import relations.
From S2P Require Import Prelude JsString JsMap Host TestHost JsTime JsJson Protocol AuditLog RemoteAudit.
#[local] Open Scope string_scope.
#[local] Open Scope list_scope.
#[local] Open Scope Z_scope.
#[local] Open Scope js_scope.

(** ** The contracts of the services *)

(** A key service keeps its keys: it answers without changing, knows its active
    key, and accepts the tags it makes. *)
Class MacProviderLaws (P : Type) `{RemoteAuditMacProvider P} := {
  active_key : P -> RemoteAuditKeyMetadata;
  metadata : P -> jstr -> option RemoteAuditKeyMetadata;
  accepts : P -> jstr -> list N -> jstr -> bool;
  activeKey_reads p : kms_activeKey p = (Ok (active_key p), p);
  keyMetadata_reads id p : kms_keyMetadata id p = (Ok (metadata p id), p);
  verifyMac_reads m t k p : kms_verifyMac m t k p = (Ok (accepts p (md_keyId k) m t), p);
  createMac_tags m p : exists t, kms_createMac m (active_key p) p = (Ok t, p) /\
    base64url_of_length 43 t = true /\ accepts p (md_keyId (active_key p)) m t = true;
  active_usable p : must_be_active (active_key p) = Ok tt;
  active_known p : metadata p (md_keyId (active_key p)) = Some (active_key p);
  known_valid p id k : metadata p id = Some k -> md_keyId k = id /\ validateMetadata k = Ok tt;
}.

(** "publish is compare-and-swap: expectedRevision undefined means create-only." *)
Class AnchorPublisherLaws (B : Type) `{AuditTrustAnchorPublisher B} := {
  published_at : B -> jstr -> option PublishedAuditAnchor;
  anchor_reads id b : publisher_load id b = (Ok (published_at b id), b);
  publish_swaps id a b : exists rev b',
    publisher_publish id (pu_revision <$> published_at b id) a b = (Ok {| anchor := a; pu_revision := rev |}, b') /\
    published_at b' id = Some {| anchor := a; pu_revision := rev |};
}.

(** "prepare/commit/abort must each be atomic and use the supplied
    revision/commit identity as a compare-and-swap guard." *)
Class StateStoreLaws (J : Type) `{RemoteAuditStateStore J} := {
  journal : J -> jstr -> RemoteAuditState;
  state_reads id j : store_load id j = (Ok (journal j id), j);
  prepare_stores id pd j : pending (journal j id) = None -> exists j',
    store_prepare id (revision (journal j id)) pd j = (Ok tt, j') /\
    journal j' id = {| revision := revision (journal j id); st_snapshot := st_snapshot (journal j id); pending := Some pd |};
  prepare_conflict id rev pd j : revision (journal j id) <> rev \/ pending (journal j id) <> None ->
    exists e, store_prepare id rev pd j = (Throw e, j);
  commit_moves id pd j : pending (journal j id) = Some pd -> exists rev j',
    store_commit id (commitId pd) j = (Ok tt, j') /\ revision (journal j id) < rev /\
    journal j' id = {| revision := rev; st_snapshot := pd_snapshot pd; pending := None |};
  abort_drops id pd j : pending (journal j id) = Some pd -> exists j',
    store_abort id (commitId pd) j = (Ok tt, j') /\
    journal j' id = {| revision := revision (journal j id); st_snapshot := st_snapshot (journal j id); pending := None |};
}.

(** ** Anchors *)

Lemma anchorsEqual_iff a b : anchorsEqual a b = true <-> a = b.
Proof.
  unfold anchorsEqual. rewrite !andb_true_iff, !Z.eqb_eq, !jeqb_true, !bool_decide_eq_true. destruct a, b; cbn. split.
  - by intros [[[[[[[-> ->] ->] ->] ->] ->] ->] ->].
  - by intros [= -> -> -> -> -> -> -> ->].
Qed.

Lemma anchorsEqual_refl a : anchorsEqual a a = true.
Proof. by apply anchorsEqual_iff. Qed.

Lemma validateMetadata_Ok k :
  validateMetadata k = Ok tt <-> id_pattern (md_keyId k) = true /\ safe_int (md_keyVersion k) = true /\
    1 <= md_keyVersion k /\ includes KEY_STATUSES (md_status k) = true.
Proof.
  unfold validateMetadata. rewrite throw_if_Ok, !orb_false_iff, !negb_false_iff, Z.ltb_ge. tauto.
Qed.

Lemma must_be_active_Ok k : must_be_active k = Ok tt -> validateMetadata k = Ok tt.
Proof. unfold must_be_active. by intros (? & ? & _)%result_bind_Ok; destruct x. Qed.

Section recovery.
Context `{HostLaws} {P B J : Type} `{MP : RemoteAuditMacProvider P, AP : AuditTrustAnchorPublisher B, SS : RemoteAuditStateStore J}.
Context `{!MacProviderLaws P, !AnchorPublisherLaws B, !StateStoreLaws J}.
Implicit Types (p : P) (l : list AuditEvent) (c : Cursor).

(** ** The chain of a log, as the key service accepts it *)

Definition chain_event p c (index : nat) (e : AuditEvent) : option Cursor :=
  match authentication e with
  | Some a =>
      if negb (well_shaped index e) || negb (previousHash e =s? cu_hash c) || negb (digest (event_body e) =s? hash e) ||
         negb (previousAuthenticationTag a =s? cu_tag c)
      then None
      else match metadata p (keyId a) with
           | Some key =>
               if negb (md_keyVersion key =? keyVersion a) || version_rollback (md_keyVersion key) (md_keyId key) c ||
                  negb (accepts p (md_keyId key) (macInput (sequence e) (hash e) key (cu_tag c)) (tag a))
               then None
               else Some {| cu_hash := hash e; cu_tag := tag a; cu_version := md_keyVersion key; cu_keyId := Some (md_keyId key) |}
           | None => None
           end
  | None => None
  end.

Fixpoint chain p c (index : nat) l : option Cursor :=
  match l with
  | [] => Some c
  | e :: l => c ← chain_event p c index e; chain p c (S index) l
  end.

Lemma chain_snoc p c n l e : chain p c n (l ++ [e]) = (c1 ← chain p c n l; chain_event p c1 (n + length l) e).
Proof.
  revert c n. induction l as [|x l IH]; intros c n; cbn; [rewrite Nat.add_0_r; by destruct (chain_event _ _ _ _)|].
  destruct (chain_event p c n x) as [c1|]; [cbn|done]. by rewrite IH, <- plus_n_Sm.
Qed.

Lemma chain_event_inv p c n e c' : chain_event p c n e = Some c' ->
  exists a k, authentication e = Some a /\ well_shaped n e = true /\ metadata p (keyId a) = Some k /\
    md_keyVersion k = keyVersion a /\ md_keyId k = keyId a /\
    c' = {| cu_hash := hash e; cu_tag := tag a; cu_version := keyVersion a; cu_keyId := Some (keyId a) |}.
Proof.
  unfold chain_event. destruct (authentication e) as [a|]; [|done]. destruct (negb _ || _ || _ || _) eqn:G; [done|].
  destruct (metadata p (keyId a)) as [k|] eqn:Ek; [|done]. destruct (negb (_ =? _) || _ || _) eqn:G2; [done|]. intros [= <-].
  rewrite !orb_false_iff, !negb_false_iff in G. rewrite !orb_false_iff, !negb_false_iff in G2. destruct G as [[[G _] _] _]. destruct G2 as [[Hv%Z.eqb_eq _] _].
  destruct (known_valid _ _ _ Ek) as [E _]. exists a, k. by rewrite Hv, E.
Qed.

(** The key service after a rotation: what it knew it still knows, under the
    same versions, and the active key has moved forward if at all. *)
Record rotated p p' : Prop := {
  rot_known id k : metadata p id = Some k -> exists k', metadata p' id = Some k' /\ md_keyVersion k' = md_keyVersion k;
  rot_accepts id m t : accepts p id m t = true -> accepts p' id m t = true;
  rot_active : active_key p' = active_key p \/ md_keyVersion (active_key p) < md_keyVersion (active_key p');
}.

Lemma chain_rotated p p' c n l c1 : rotated p p' -> chain p c n l = Some c1 -> chain p' c n l = Some c1.
Proof.
  intros Hr. revert c n. induction l as [|e l IH]; intros c n; [done|]. cbn.
  destruct (chain_event p c n e) as [c2|] eqn:E; [cbn; intros Hc|done].
  assert (E' : chain_event p' c n e = Some c2); [|rewrite E'; cbn; by apply IH].
  revert E. unfold chain_event. destruct (authentication e) as [a|]; [|done]. destruct (negb _ || _ || _ || _); [done|].
  destruct (metadata p (keyId a)) as [k|] eqn:Ek; [|done]. destruct (rot_known _ _ Hr _ _ Ek) as (k' & Ek' & Ev). rewrite Ek'.
  destruct (known_valid _ _ _ Ek) as [Ei _]. destruct (known_valid _ _ _ Ek') as [Ei' _]. rewrite Ev, Ei, Ei'.
  assert (Em : macInput (sequence e) (hash e) k' (cu_tag c) = macInput (sequence e) (hash e) k (cu_tag c))
    by (unfold macInput; by rewrite Ev, Ei, Ei').
  rewrite Em. destruct (accepts p (keyId a) _ _) eqn:Ea.
  - by rewrite (rot_accepts _ _ Hr _ _ _ Ea).
  - rewrite !orb_true_r. done.
Qed.

(** A key no newer than [k]. *)
Definition key_le (id : jstr) (v : Z) (k : RemoteAuditKeyMetadata) : Prop :=
  v < md_keyVersion k \/ v = md_keyVersion k /\ id = md_keyId k.

Lemma key_le_rotated p p' id v : rotated p p' -> key_le id v (active_key p) -> key_le id v (active_key p').
Proof. unfold key_le. intros Hr. destruct (rot_active _ _ Hr) as [->|?]; [done|]. lia. Qed.

(** A log that verifies and whose last key is no newer than the active one. *)
Definition log_ok p l : Prop :=
  exists c, chain p genesis 0 l = Some c /\
    match cu_keyId c with
    | None => l = []
    | Some id => key_le id (cu_version c) (active_key p)
    end.

(** An anchor made for the log under a key no newer than the active one. *)
Definition anchor_ok p l (a : AuditTrustAnchor) : Prop :=
  exists k, a = anchorFor l k /\ key_le (md_keyId k) (md_keyVersion k) (active_key p) /\ validateMetadata k = Ok tt.

Lemma log_ok_empty p : log_ok p [].
Proof. exists genesis. by split. Qed.

Lemma log_ok_rotated p p' l : rotated p p' -> log_ok p l -> log_ok p' l.
Proof.
  intros Hr (c & Hc & Hk). exists c. split; [by eapply chain_rotated|]. destruct (cu_keyId c); [|done]. by eapply key_le_rotated.
Qed.

Lemma anchor_ok_rotated p p' l a : rotated p p' -> anchor_ok p l a -> anchor_ok p' l a.
Proof. intros Hr (k & E & Hk & Hv). exists k. split_and!; [done| |done]. by eapply key_le_rotated. Qed.

Lemma active_valid p : validateMetadata (active_key p) = Ok tt.
Proof. apply must_be_active_Ok, active_usable. Qed.

Lemma anchor_ok_active p l : anchor_ok p l (anchorFor l (active_key p)).
Proof. exists (active_key p). split_and!; [done|by right|apply active_valid]. Qed.

Lemma anchor_ok_accepted p l q : anchor_ok p l (anchor q) ->
  validateMetadata (anchored_key q (active_key p)) = Ok tt /\ anchor_refused l q (active_key p) = false.
Proof.
  intros (k & E & Hk & (Hi & Hs & Hv & _)%validateMetadata_Ok). split.
  - apply validateMetadata_Ok. cbn. rewrite E. cbn. split_and!; try done. by destruct (_ =s? _).
  - unfold anchor_refused. rewrite !orb_false_iff, negb_false_iff, Z.ltb_ge, andb_false_iff, Z.eqb_neq, negb_false_iff, anchorsEqual_iff, jeqb_true.
    unfold anchored_key. rewrite E. cbn. split; [split; [done|destruct Hk as [?|[? ?]]; lia]|]. destruct Hk as [?|[_ ->]]; [left; lia|by right].
Qed.

Lemma anchors_differ p l e a b : anchor_ok p l a -> anchor_ok p (l ++ [e]) b -> a <> b.
Proof.
  intros (k & -> & _) (k' & -> & _) E%(f_equal eventCount). cbn in E. rewrite length_app in E. cbn in E. lia.
Qed.

(** The event [append] builds extends the chain. *)
Lemma chain_tip p l c : chain p genesis 0 l = Some c ->
  tip_hash l = cu_hash c /\ tip_tag l = cu_tag c /\
  (cu_tag c =s? AUTHENTICATION_GENESIS) || base64url_of_length 43 (cu_tag c) = true /\
  match last l ≫= authentication with
  | Some a => keyVersion a = cu_version c /\ cu_keyId c = Some (keyId a)
  | None => c = genesis
  end.
Proof.
  destruct l as [|e l _] using rev_ind; [by intros [= <-]|]. rewrite chain_snoc.
  destruct (chain p genesis 0 l) as [c1|]; [cbn|done]. intros (a & k & Ea & Hs & _ & _ & _ & ->)%chain_event_inv.
  unfold tip_hash, tip_tag. rewrite last_snoc. cbn. rewrite Ea. cbn. split_and!; try done.
  unfold well_shaped in Hs. rewrite Ea in Hs. apply andb_true_iff in Hs as [_ Hs]. unfold validateAuthentication in Hs.
  rewrite !andb_true_iff in Hs. apply orb_true_iff. right. tauto.
Qed.

Lemma log_ok_rollback p l : log_ok p l -> rollback_against (last l) (active_key p) = false.
Proof.
  intros (c & Hc & Hk). apply chain_tip in Hc as (_ & _ & _ & Ht). unfold rollback_against.
  destruct (last l ≫= authentication) as [a|]; [|done]. destruct Ht as [-> E]. rewrite E in Hk.
  rewrite orb_false_iff, Z.ltb_ge, andb_false_iff, Z.eqb_neq, negb_false_iff, jeqb_true.
  destruct Hk as [?|[? ?]]; (split; [lia|]); [left; lia|by right].
Qed.

(** An event made by the active key over the tip. *)
Lemma chain_event_made p c n base t :
  well_shaped n (authenticated base (active_key p) (cu_tag c) t) = true -> previousHash base = cu_hash c ->
  digest (event_body base) = hash base ->
  accepts p (md_keyId (active_key p)) (macInput (sequence base) (hash base) (active_key p) (cu_tag c)) t = true ->
  version_rollback (md_keyVersion (active_key p)) (md_keyId (active_key p)) c = false ->
  chain_event p c n (authenticated base (active_key p) (cu_tag c) t) =
    Some {| cu_hash := hash base; cu_tag := t; cu_version := md_keyVersion (active_key p);
            cu_keyId := Some (md_keyId (active_key p)) |}.
Proof.
  intros Hs Hp Hd Ha Hr. unfold chain_event. rewrite Hs. cbn [authenticated authentication keyId keyVersion previousAuthenticationTag
    previousHash hash sequence AuditLog.tag]. change (event_body (authenticated _ _ _ _)) with (event_body base).
  by rewrite Hp, Hd, !jeqb_refl, active_known, Z.eqb_refl, Hr, Ha.
Qed.

Lemma log_ok_version p l c : chain p genesis 0 l = Some c ->
  match cu_keyId c with None => l = [] | Some id => key_le id (cu_version c) (active_key p) end ->
  version_rollback (md_keyVersion (active_key p)) (md_keyId (active_key p)) c = false.
Proof.
  intros Hc Hk. pose proof (active_valid p) as (_ & _ & Hpos & _)%validateMetadata_Ok. unfold version_rollback.
  destruct (cu_keyId c) as [id|] eqn:E; cbn.
  - destruct Hk as [?|[-> ->]]; [rewrite (proj2 (Z.ltb_ge _ _)), (proj2 (Z.eqb_neq _ _)) by lia; done|].
    rewrite Z.ltb_irrefl, bool_decide_true by done. by rewrite andb_false_r.
  - subst l. injection Hc as <-. cbn. rewrite (proj2 (Z.ltb_ge _ _)) by lia. by rewrite andb_false_r.
Qed.

Lemma base_event_hash l ty corr pl at_ cause uuid :
  digest (event_body (base_event l ty corr pl at_ cause uuid)) = hash (base_event l ty corr pl at_ cause uuid).
Proof. reflexivity. Qed.

Lemma base_event_shape k l ty corr props t cause uuid prev tag :
  ty <> [] -> corr <> [] -> uuid <> [] -> Z.abs t <= MAX_TIME -> base64url_of_length 43 tag = true ->
  validateMetadata k = Ok tt -> (prev =s? AUTHENTICATION_GENESIS) || base64url_of_length 43 prev = true ->
  well_shaped (length l) (authenticated (base_event l ty corr (JObj props) (iso_string t) cause uuid) k prev tag) = true.
Proof.
  intros Hty Hcorr Hu Ht Htag (Hi & Hs & Hpos & _)%validateMetadata_Ok Hprev.
  unfold well_shaped, authenticated, base_event, with_hash.
  cbn [sequence eventId type correlationId occurredAt payload hash authentication is_object].
  rewrite Z.eqb_refl, date_parse_iso_string by done. unfold digest. rewrite sha256Hex_pattern.
  unfold validateAuthentication. cbn [algorithm keyId keyVersion previousAuthenticationTag AuditLog.tag].
  unfold KEY_ID_PATTERN. rewrite Hi, Hs, Hprev, Htag, (proj2 (Z.ltb_lt _ _)) by lia. by destruct uuid, ty, corr.
Qed.

(** What [append] adds to a good log keeps it good. *)
Lemma new_event_ok p l ty corr props t cause uuid tag :
  let base := base_event l ty corr (JObj props) (iso_string t) cause uuid in
  log_ok p l -> ty <> [] -> corr <> [] -> uuid <> [] -> Z.abs t <= MAX_TIME -> base64url_of_length 43 tag = true ->
  accepts p (md_keyId (active_key p)) (macInput (sequence base) (hash base) (active_key p) (tip_tag l)) tag = true ->
  log_ok p (l ++ [authenticated base (active_key p) (tip_tag l) tag]).
Proof.
  intros base (c & Hc & Hk) Hty Hcorr Hu Ht Htag Hacc. destruct (chain_tip _ _ _ Hc) as (Eh & Et & Hgt & _).
  eexists. rewrite chain_snoc, Hc. rewrite Et in *. cbn [mbind option_bind]. rewrite chain_event_made.
  - split; [reflexivity|]. cbn. by right.
  - rewrite Nat.add_0_l. apply base_event_shape; try done. apply active_valid.
  - exact Eh.
  - apply base_event_hash.
  - exact Hacc.
  - by eapply log_ok_version.
Qed.
End recovery.
