(* ===== verification/RemoteAuditCrash.v ===== *)
(** RemoteAuditCrash: appends and reopenings of the remote audit log over a
    network that loses requests and answers.  Every exit of every call keeps
    the invariant from which opening recovers the log. *)
From stdpp Require Import relations.
From S2P Require Import Prelude JsString JsMap Host TestHost JsTime JsJson Protocol AuditLog RemoteAudit RemoteAuditRecovery.
#[local] Open Scope string_scope.
#[local] Open Scope list_scope.
#[local] Open Scope Z_scope.
#[local] Open Scope js_scope.

Section crash.
Context `{HostLaws} {P B J : Type} `{MP : RemoteAuditMacProvider P, AP : AuditTrustAnchorPublisher B, SS : RemoteAuditStateStore J}.
Context `{!MacProviderLaws P, !AnchorPublisherLaws B, !StateStoreLaws J}.
(** The log. *)
Context (id : jstr) (Hid : id_pattern id = true).

(** ** What the services hold for the log *)

Record View : Type := {
  v_provider : P; v_journal : RemoteAuditState; v_anchor : option PublishedAuditAnchor; v_object : option AsyncRemoteAuditLog;
}.
Definition view (w : World (P := P) (B := B) (J := J)) : View :=
  {| v_provider := provider w; v_journal := journal (store w) id; v_anchor := published_at (publisher w) id; v_object := this w |}.
Definition with_journal x (v : View) : View :=
  {| v_provider := v_provider v; v_journal := x; v_anchor := v_anchor v; v_object := v_object v |}.
Definition with_anchor x (v : View) : View :=
  {| v_provider := v_provider v; v_journal := v_journal v; v_anchor := x; v_object := v_object v |}.
Definition with_object x (v : View) : View :=
  {| v_provider := v_provider v; v_journal := v_journal v; v_anchor := v_anchor v; v_object := x |}.

Definition logged (v : View) : list AuditEvent := as_events (st_snapshot (v_journal v)).

(** The log as the next opening will have it: a prepared event counts once its
    anchor is out. *)
Definition recovered (v : View) : list AuditEvent :=
  match pending (v_journal v) with
  | Some pd => if matches_pending (v_anchor v) pd then as_events (pd_snapshot pd) else logged v
  | None => logged v
  end.

(** A prepared commit extends the log by one event under an anchor of its own. *)
Definition pending_ok (v : View) (pd : PendingRemoteAuditCommit) : Prop :=
  is_Some (v_anchor v) /\ as_schemaVersion (pd_snapshot pd) = 2 /\ log_ok (v_provider v) (as_events (pd_snapshot pd)) /\
  (exists e, as_events (pd_snapshot pd) = logged v ++ [e]) /\
  anchor_ok (v_provider v) (as_events (pd_snapshot pd)) (pd_anchor pd).

Record durable (v : View) : Prop := {
  d_version : as_schemaVersion (st_snapshot (v_journal v)) = 2;
  d_log : log_ok (v_provider v) (logged v);
  d_anchor : match v_anchor v with
             | None => logged v = []
             | Some q => anchor_ok (v_provider v) (recovered v) (anchor q)
             end;
  d_pending : match pending (v_journal v) with None => True | Some pd => pending_ok v pd end;
}.

(** What an object believes, if the journal has not moved on. *)
Definition object_ok (v : View) : Prop :=
  match v_object v with
  | None => True
  | Some o =>
      logId o = id /\ is_Some (v_anchor v) /\ revision (state o) <= revision (v_journal v) /\
      (revision (state o) = revision (v_journal v) ->
         st_snapshot (state o) = st_snapshot (v_journal v) /\ (recovered v = logged v -> v_anchor v = Some (published o)))
  end.

Definition inv (v : View) : Prop := durable v /\ object_ok v.

(** ** The moves of the protocol *)

Definition prepared pd (v : View) : View :=
  with_journal {| revision := revision (v_journal v); st_snapshot := st_snapshot (v_journal v); pending := Some pd |} v.
Definition aborted (v : View) : View :=
  with_journal {| revision := revision (v_journal v); st_snapshot := st_snapshot (v_journal v); pending := None |} v.
Definition committed rev pd (v : View) : View :=
  with_journal {| revision := rev; st_snapshot := pd_snapshot pd; pending := None |} v.

Lemma app_one_ne {A} (l : list A) e : l ++ [e] <> l.
Proof. intros E%(f_equal length). rewrite length_app in E. cbn in E. lia. Qed.

Lemma prepared_unmatched v pd : durable v -> pending (v_journal v) = None -> pending_ok v pd ->
  matches_pending (v_anchor v) pd = false.
Proof.
  intros Hd Hn (_ & _ & _ & [e He] & Ha). pose proof (d_anchor _ Hd) as Hq. unfold recovered in Hq. rewrite Hn in Hq.
  unfold matches_pending. destruct (v_anchor v) as [q|]; [|done]. apply not_true_is_false. rewrite anchorsEqual_iff.
  rewrite He in Ha. exact (anchors_differ _ _ _ _ _ Hq Ha).
Qed.

Lemma prepared_recovered v pd : durable v -> pending (v_journal v) = None -> pending_ok v pd ->
  recovered (prepared pd v) = recovered v.
Proof.
  intros Hd Hn Hp. unfold recovered at 1. cbn. rewrite (prepared_unmatched _ _ Hd Hn Hp). unfold recovered. by rewrite Hn.
Qed.

Lemma object_ok_same v v' : v_object v' = v_object v -> v_anchor v' = v_anchor v ->
  revision (v_journal v') = revision (v_journal v) -> st_snapshot (v_journal v') = st_snapshot (v_journal v) ->
  recovered v' = recovered v -> object_ok v -> object_ok v'.
Proof. unfold object_ok, logged. by intros -> -> -> -> ->. Qed.

Lemma prepared_inv v pd : inv v -> pending (v_journal v) = None -> pending_ok v pd -> inv (prepared pd v).
Proof.
  intros [Hd Ho] Hn Hp. pose proof (prepared_recovered _ _ Hd Hn Hp) as Er. split.
  - split; [apply (d_version _ Hd)|apply (d_log _ Hd)|rewrite Er; apply (d_anchor _ Hd)|exact Hp].
  - by apply (object_ok_same v).
Qed.

Lemma aborted_inv v pd : inv v -> pending (v_journal v) = Some pd -> matches_pending (v_anchor v) pd = false ->
  inv (aborted v) /\ recovered (aborted v) = recovered v.
Proof.
  intros [Hd Ho] Hn Hm. assert (Er : recovered v = logged v) by (unfold recovered; by rewrite Hn, Hm).
  assert (Er' : recovered (aborted v) = recovered v) by (by rewrite Er). split; [split|done].
  - split; [apply (d_version _ Hd)|apply (d_log _ Hd)|rewrite Er'; apply (d_anchor _ Hd)|done].
  - by apply (object_ok_same v).
Qed.

Lemma published_inv v pd rev : inv v -> pending (v_journal v) = Some pd ->
  let v' := with_anchor (Some {| anchor := pd_anchor pd; pu_revision := rev |}) v in
  inv v' /\ recovered v' = as_events (pd_snapshot pd) /\ matches_pending (v_anchor v') pd = true.
Proof.
  intros [Hd Ho] Hn v'. pose proof (d_pending _ Hd) as Hp. rewrite Hn in Hp. destruct Hp as (_ & Hv & Hl & [e He] & Ha).
  assert (Hm : matches_pending (v_anchor v') pd = true) by apply anchorsEqual_refl.
  assert (Er : recovered v' = as_events (pd_snapshot pd)) by (unfold recovered; cbn [v' with_anchor v_journal]; by rewrite Hn, Hm).
  split_and!; [|done..]. split; [split|].
  - apply (d_version _ Hd).
  - apply (d_log _ Hd).
  - rewrite Er. exact Ha.
  - cbn. rewrite Hn. split_and!; try done. by exists e.
  - unfold object_ok in *. change (v_object v') with (v_object v). destruct (v_object v) as [o|]; [|done].
    destruct Ho as (? & _ & ? & Ho). split_and!; try done.
    intros E. destruct (Ho E) as [? _]. split; [done|]. rewrite Er, He. intros E'. by apply app_one_ne in E'.
Qed.

Lemma committed_inv v pd rev : inv v -> pending (v_journal v) = Some pd -> matches_pending (v_anchor v) pd = true ->
  revision (v_journal v) < rev -> inv (committed rev pd v) /\ recovered (committed rev pd v) = recovered v.
Proof.
  intros [Hd Ho] Hn Hm Hrev. pose proof (d_pending _ Hd) as Hp. rewrite Hn in Hp. destruct Hp as (Hs & Hv & Hl & _ & Ha).
  assert (Er : recovered v = as_events (pd_snapshot pd)) by (unfold recovered; by rewrite Hn, Hm).
  split; [|by rewrite Er]. split; [split|].
  - exact Hv.
  - exact Hl.
  - pose proof (d_anchor _ Hd) as Hq. rewrite Er in Hq. cbn. destruct (v_anchor v); [exact Hq|by destruct Hs].
  - done.
  - unfold object_ok in *. change (v_object (committed rev pd v)) with (v_object v). destruct (v_object v) as [o|]; [|done].
    destruct Ho as (? & ? & ? & _). split_and!; try done; cbn [committed with_journal v_journal revision]; lia.
Qed.

(** ** One service call over the network *)

Section network.
Context (net : Network (P := P) (B := B) (J := J)).
(** Nobody else works on the log during a call, and a lost answer is the last
    thing that happens to it. *)
Context (Halone : forall n w, others net n w = w).
Context (Hcrash : forall n m, fate_of net n = Late -> (n < m)%nat -> fate_of net m = Lost).

Definition gone (w : World (P := P) (B := B) (J := J)) : Prop := forall m, (calls w <= m)%nat -> fate_of net m = Lost.

Lemma wp_await {A} (m : St World A) (Q : result A -> World -> Prop) w :
  (fate_of net (calls w) <> Answered -> forall w', view w' = view w -> Q (Throw OUTAGE) w') ->
  (forall w', view w' = view (m (set_calls (S (calls w)) w)).2 -> calls w' = calls (m (set_calls (S (calls w)) w)).2 ->
     fate_of net (calls w) = Late -> Q (Throw OUTAGE) w') ->
  wp m Q (set_calls (S (calls w)) w) -> wp (await net m) Q w.
Proof.
  intros Hlost Hlate Hm. unfold wp, await. rewrite Halone. destruct (fate_of net (calls w)) eqn:E; [exact Hm|by apply Hlost|by apply Hlate].
Qed.

(** A call that only reads. *)
Lemma wp_reads {A} (m : St World A) (Q : result A -> World -> Prop) w r :
  m (set_calls (S (calls w)) w) = (r, set_calls (S (calls w)) w) ->
  (fate_of net (calls w) <> Answered -> forall w', view w' = view w -> Q (Throw OUTAGE) w') ->
  (forall w', view w' = view w -> Q r w') -> wp (await net m) Q w.
Proof.
  intros Hm Hlost HQ. apply wp_await; [done| |].
  - intros w' Hv _ Hl. rewrite Hm in Hv. apply Hlost; [by rewrite Hl|done].
  - unfold wp. rewrite Hm. by apply HQ.
Qed.

Lemma wp_ask_provider {A} (m : St P A) r (Q : result A -> World -> Prop) w : m (provider w) = (r, provider w) ->
  (fate_of net (calls w) <> Answered -> forall w', view w' = view w -> Q (Throw OUTAGE) w') ->
  (forall w', view w' = view w -> Q r w') -> wp (ask_provider net m) Q w.
Proof.
  intros Hm. apply wp_reads. unfold zoom. cbn [set_calls provider]. rewrite Hm. by destruct w.
Qed.

Lemma wp_load (Q : result RemoteAuditState -> World -> Prop) w :
  (fate_of net (calls w) <> Answered -> forall w', view w' = view w -> Q (Throw OUTAGE) w') ->
  (forall w', view w' = view w -> Q (Ok (v_journal (view w))) w') -> wp (ask_store net (store_load id)) Q w.
Proof. apply wp_reads. unfold zoom. cbn [set_calls store]. rewrite state_reads. by destruct w. Qed.

Lemma wp_load_anchor (Q : result (option PublishedAuditAnchor) -> World -> Prop) w :
  (fate_of net (calls w) <> Answered -> forall w', view w' = view w -> Q (Throw OUTAGE) w') ->
  (forall w', view w' = view w -> Q (Ok (v_anchor (view w))) w') -> wp (ask_publisher net (publisher_load id)) Q w.
Proof. apply wp_reads. unfold zoom. cbn [set_calls publisher]. rewrite anchor_reads. by destruct w. Qed.

(** A call that writes the journal, to [v']. *)
Lemma wp_writes {A} (m : St J A) a v' (Q : result A -> World -> Prop) w :
  (exists j', m (store w) = (Ok a, j') /\ v' = with_journal (journal j' id) (view w)) ->
  (fate_of net (calls w) <> Answered -> forall w', view w' = view w -> Q (Throw OUTAGE) w') ->
  (forall w', view w' = v' -> gone w' -> Q (Throw OUTAGE) w') ->
  (forall w', view w' = v' -> Q (Ok a) w') -> wp (ask_store net m) Q w.
Proof.
  intros (j' & Hm & ->) Hlost Hlate HQ. apply wp_await; [done| |]; unfold wp, zoom; cbn [set_calls store calls]; rewrite Hm.
  - intros w' Hv Hc Hl. apply Hlate; [exact Hv|]. intros n Hn. apply (Hcrash (calls w)); [done|]. rewrite Hc in Hn. cbn in Hn. lia.
  - by apply HQ.
Qed.

Lemma wp_store_refuses {A} (m : St J A) e (Q : result A -> World -> Prop) w : m (store w) = (Throw e, store w) ->
  (forall e w', view w' = view w -> Q (Throw e) w') -> wp (ask_store net m) Q w.
Proof.
  intros Hm HQ. apply (wp_reads _ _ _ (Throw e)); [|intros _; apply HQ|apply HQ]. unfold zoom. cbn [set_calls store]. rewrite Hm.
  by destruct w.
Qed.

Lemma wp_prepare pd (Q : result unit -> World -> Prop) w : pending (v_journal (view w)) = None ->
  (fate_of net (calls w) <> Answered -> forall w', view w' = view w -> Q (Throw OUTAGE) w') ->
  (forall w', view w' = prepared pd (view w) -> gone w' -> Q (Throw OUTAGE) w') ->
  (forall w', view w' = prepared pd (view w) -> Q (Ok tt) w') ->
  wp (ask_store net (store_prepare id (revision (v_journal (view w))) pd)) Q w.
Proof.
  intros Hn. apply wp_writes. destruct (prepare_stores id pd (store w) Hn) as (j' & Hm & Hj). exists j'. split; [exact Hm|]. by rewrite Hj.
Qed.

Lemma wp_abort pd (Q : result unit -> World -> Prop) w : pending (v_journal (view w)) = Some pd ->
  (fate_of net (calls w) <> Answered -> forall w', view w' = view w -> Q (Throw OUTAGE) w') ->
  (forall w', view w' = aborted (view w) -> gone w' -> Q (Throw OUTAGE) w') ->
  (forall w', view w' = aborted (view w) -> Q (Ok tt) w') -> wp (ask_store net (store_abort id (commitId pd))) Q w.
Proof.
  intros Hn. apply wp_writes. destruct (abort_drops id pd (store w) Hn) as (j' & Hm & Hj). exists j'. split; [exact Hm|]. by rewrite Hj.
Qed.

Lemma wp_commit pd (Q : result unit -> World -> Prop) w : pending (v_journal (view w)) = Some pd ->
  (fate_of net (calls w) <> Answered -> forall w', view w' = view w -> Q (Throw OUTAGE) w') ->
  (forall rev w', revision (v_journal (view w)) < rev -> view w' = committed rev pd (view w) -> gone w' -> Q (Throw OUTAGE) w') ->
  (forall rev w', revision (v_journal (view w)) < rev -> view w' = committed rev pd (view w) -> Q (Ok tt) w') ->
  wp (ask_store net (store_commit id (commitId pd))) Q w.
Proof.
  intros Hn Hlost Hlate HQ. destruct (commit_moves id pd (store w) Hn) as (rev & j' & Hm & Hrev & Hj).
  apply (wp_writes _ tt (committed rev pd (view w))); [|done|intros w'; by apply Hlate|intros w'; by apply HQ].
  exists j'. split; [exact Hm|]. by rewrite Hj.
Qed.

Lemma wp_publish a (Q : result PublishedAuditAnchor -> World -> Prop) w :
  (fate_of net (calls w) <> Answered -> forall w', view w' = view w -> Q (Throw OUTAGE) w') ->
  (forall rev w', view w' = with_anchor (Some {| anchor := a; pu_revision := rev |}) (view w) -> gone w' -> Q (Throw OUTAGE) w') ->
  (forall rev w', view w' = with_anchor (Some {| anchor := a; pu_revision := rev |}) (view w) ->
     Q (Ok {| anchor := a; pu_revision := rev |}) w') ->
  wp (ask_publisher net (publisher_publish id (pu_revision <$> v_anchor (view w)) a)) Q w.
Proof.
  intros Hlost Hlate HQ. destruct (publish_swaps id a (publisher w)) as (rev & b' & Hm & Hb).
  apply wp_await; [done| |]; unfold wp, zoom; cbn [set_calls publisher calls view v_anchor]; rewrite Hm.
  - intros w' Hv Hc Hl. apply (Hlate rev); [rewrite Hv; unfold view; cbn; by rewrite Hb|].
    intros n Hn. apply (Hcrash (calls w)); [done|]. rewrite Hc in Hn. cbn in Hn. lia.
  - apply (HQ rev). unfold view. cbn. by rewrite Hb.
Qed.

(** Nothing reaches a service once the network is gone. *)
Lemma wp_gone {A} (m : St J A) (Q : result A -> World -> Prop) w : gone w ->
  (forall w', view w' = view w -> Q (Throw OUTAGE) w') -> wp (ask_store net m) Q w.
Proof.
  intros Hg HQ. unfold wp, ask_store, await. rewrite Halone, (Hg (calls w)) by done. by apply HQ.
Qed.

(** ** Opening *)

Definition smooth : Prop := forall n, fate_of net n = Answered.

Lemma not_smooth n : fate_of net n <> Answered -> ~ smooth.
Proof. intros Hn Hs. by apply Hn. Qed.

Lemma wp_verify_events c n l c' (Q : result bool -> World -> Prop) w : chain (provider w) c n l = Some c' ->
  (~ smooth -> forall w', view w' = view w -> Q (Throw OUTAGE) w') ->
  (forall w', view w' = view w -> Q (Ok true) w') -> wp (verify_events net c n l) Q w.
Proof.
  revert c n w. induction l as [|e l IH]; intros c n w Hc Hlost HQ; cbn [verify_events]; [by apply wp_mret, HQ|]. cbn [chain] in Hc.
  destruct (chain_event (provider w) c n e) as [c1|] eqn:E; [cbn in Hc|done]. apply wp_bind. unfold chain_event in E.
  unfold verify_remote_event. destruct (authentication e) as [a|]; [|done]. destruct (negb _ || _ || _ || _); [done|].
  apply wp_bind. apply (wp_ask_provider _ (Ok (metadata (provider w) (keyId a)))); [apply keyMetadata_reads|by intros ?%not_smooth; apply Hlost|].
  intros w1 Hw1. destruct (metadata (provider w) (keyId a)) as [k|] eqn:Ek; [|done]. destruct (known_valid _ _ _ Ek) as [_ Hv].
  apply wp_bind, wp_lift. rewrite Hv. destruct (negb (md_keyVersion k =? keyVersion a) || version_rollback _ _ _); [done|].
  apply wp_bind. apply (wp_ask_provider _ (Ok (accepts (provider w1) (md_keyId k) (macInput (sequence e) (hash e) k (cu_tag c)) (tag a))));
    [apply verifyMac_reads|intros ?%not_smooth w2 Hw2; apply Hlost; [done|by rewrite Hw2]|].
  intros w2 Hw2. apply wp_mret. assert (Ep : provider w1 = provider w) by (by injection Hw1). rewrite Ep.
  destruct (accepts _ _ _ _); [|done]. injection E as ->. assert (Ep2 : provider w2 = provider w) by (injection Hw2; congruence).
  apply IH; [by rewrite Ep2|intros Hs w3 Hw3; apply Hlost; [done|]|intros w3 Hw3; apply HQ]; by rewrite Hw3, Hw2.
Qed.

Ltac four := split; [|split; [|split]].

(** The log is left as it was found. *)
Definition kept (v v' : View) : Prop :=
  inv v' /\ v_provider v' = v_provider v /\ v_object v' = v_object v /\ recovered v' = recovered v.

Lemma kept_refl v : inv v -> kept v v.
Proof. intros Hi. by four. Qed.
Lemma kept_trans v1 v2 v3 : kept v1 v2 -> kept v2 v3 -> kept v1 v3.
Proof. intros (_ & E1 & E2 & E3) (? & ? & ? & ?). four; [done|congruence..]. Qed.

Lemma aborted_kept v pd : inv v -> pending (v_journal v) = Some pd -> matches_pending (v_anchor v) pd = false -> kept v (aborted v).
Proof. intros Hi Hn Hm. destruct (aborted_inv _ _ Hi Hn Hm). by four. Qed.
Lemma committed_kept v pd rev : inv v -> pending (v_journal v) = Some pd -> matches_pending (v_anchor v) pd = true ->
  revision (v_journal v) < rev -> kept v (committed rev pd v).
Proof. intros Hi Hn Hm Hr. destruct (committed_inv _ _ _ Hi Hn Hm Hr). by four. Qed.

(** A pending commit is settled one way or the other. *)
Definition quiet (v : View) (r : RemoteAuditState * option PublishedAuditAnchor) : Prop :=
  r = (v_journal v, v_anchor v) /\ pending (v_journal v) = None.

Definition settles {A} (w : World) (Q : A -> View -> Prop) (r : result A) (w' : World) : Prop :=
  kept (view w) (view w') /\ match r with Ok a => Q a (view w') | Throw _ => ~ smooth end.

Lemma wp_reload w w0 : kept (view w0) (view w) -> pending (v_journal (view w)) = None ->
  wp (ask_store net (store_load id) ≫= fun state => ask_publisher net (publisher_load id) ≫= fun found => mret (state, found))
    (settles w0 (fun r v => quiet v r)) w.
Proof.
  intros Hk Hn. assert (Hthrow : ~ smooth -> forall w', view w' = view w -> settles w0 (fun r v => quiet v r) (Throw OUTAGE) w')
    by (intros Hs w' E; split; [by rewrite E|done]).
  apply wp_bind, wp_load; [intros ?%not_smooth; by apply Hthrow|]. intros w1 E1.
  apply wp_bind, wp_load_anchor; [intros ?%not_smooth w2 E2; apply Hthrow; [done|by rewrite E2]|]. intros w2 E2.
  apply wp_mret. split; [by rewrite E2, E1|]. rewrite E2, E1. by split.
Qed.

Lemma wp_settle w : inv (view w) ->
  wp (settle_pending net id (v_journal (view w)) (v_anchor (view w))) (settles w (fun r v => quiet v r)) w.
Proof.
  intros Hi. unfold settle_pending. destruct (pending (v_journal (view w))) as [pd|] eqn:Hn; [|by apply wp_mret].
  assert (Hthrow : forall A (Q : A -> View -> Prop), ~ smooth -> forall w', kept (view w) (view w') -> settles w Q (Throw OUTAGE) w')
    by (intros A Q ? w' ?; by split).
  assert (Hsame : forall w', view w' = view w -> kept (view w) (view w')) by (intros w' ->; by apply kept_refl).
  assert (Hg : forall w', gone w' -> ~ smooth) by (intros w' Hg; apply (not_smooth (calls w')); by rewrite (Hg (calls w'))).
  apply wp_bind. destruct (matches_pending (v_anchor (view w)) pd) eqn:Hm.
  - apply wp_commit; [done|intros ?%not_smooth w' ?; auto|intros rev w' Hr E ?%Hg|intros rev w' Hr E].
    + apply Hthrow; [done|]. rewrite E. by apply committed_kept.
    + apply wp_reload; [rewrite E; by apply committed_kept|by rewrite E].
  - apply wp_abort; [done|intros ?%not_smooth w' ?; auto|intros w' E ?%Hg|intros w' E].
    + apply Hthrow; [done|]. rewrite E. by apply (aborted_kept _ pd).
    + apply wp_reload; [rewrite E; by apply (aborted_kept _ pd)|by rewrite E].
Qed.

(** The first anchor of an empty log. *)
Lemma anchored_kept v q : inv v -> v_anchor v = None -> pending (v_journal v) = None -> anchor_ok (v_provider v) [] (anchor q) ->
  kept v (with_anchor (Some q) v).
Proof.
  intros [Hd Ho] Hn Hp Hq. pose proof (d_anchor _ Hd) as Hl. rewrite Hn in Hl.
  assert (Er : recovered (with_anchor (Some q) v) = recovered v) by (unfold recovered; cbn [with_anchor v_journal]; by rewrite Hp).
  assert (El : recovered v = []) by (unfold recovered; by rewrite Hp).
  four; try done. split; [split|].
  - apply (d_version _ Hd).
  - apply (d_log _ Hd).
  - rewrite Er, El. exact Hq.
  - cbn. by rewrite Hp.
  - unfold object_ok in *. change (v_object (with_anchor (Some q) v)) with (v_object v). destruct (v_object v) as [o|]; [|done].
    destruct Ho as (_ & [? Hs] & _). congruence.
Qed.

Lemma wp_first_anchor w : inv (view w) -> pending (v_journal (view w)) = None ->
  wp (first_anchor net id (logged (view w)) (active_key (v_provider (view w))) (v_anchor (view w)))
    (settles w (fun q v => v_anchor v = Some q /\ v_journal v = v_journal (view w))) w.
Proof.
  intros Hi Hn. unfold first_anchor. destruct (v_anchor (view w)) as [q|] eqn:Ha; [by apply wp_mret|].
  pose proof (d_anchor _ (proj1 Hi)) as Hl. rewrite Ha in Hl. rewrite Hl. apply wp_bind, wp_lift. cbn [length negb throw_if Nat.eqb].
  set (a := anchorFor [] _). assert (Hq : forall rev w', view w' = with_anchor (Some {| anchor := a; pu_revision := rev |}) (view w) -> kept (view w) (view w')).
  { intros rev w' ->. apply anchored_kept; try done. apply anchor_ok_active. }
  assert (E : None = pu_revision <$> v_anchor (view w)) by (by rewrite Ha). rewrite E. apply wp_publish.
  - intros ?%not_smooth w' E'. split; [|done]. rewrite E'. by apply kept_refl.
  - intros rev w' E' Hg. split; [by eapply Hq|]. apply (not_smooth (calls w')). by rewrite Hg.
  - intros rev w' E'. split; [by eapply Hq|]. by rewrite E'.
Qed.

(** What opening delivers. *)
Definition opened (o : AsyncRemoteAuditLog) (v : View) : Prop :=
  logId o = id /\ state o = v_journal v /\ pending (v_journal v) = None /\ v_anchor v = Some (published o).

(** The last steps of [open]: the anchor matches and the log verifies. *)
Lemma wp_checked w w0 q state : kept (view w0) (view w) -> v_anchor (view w) = Some q -> pending (v_journal (view w)) = None ->
  state = v_journal (view w) ->
  wp (lift (validateMetadata (anchored_key q (active_key (v_provider (view w))))) ≫= fun _ =>
      (if anchor_refused (as_events (st_snapshot state)) q (active_key (v_provider (view w))) then mret false
       else verifySnapshot net (st_snapshot state)) ≫= fun ok : bool =>
      lift (throw_if (negb ok) "remote audit state or external trust anchor verification failed") ≫= fun _ =>
      mret {| logId := id; state := state; published := q |}) (settles w0 opened) w.
Proof.
  intros Hk Ha Hn ->. destruct Hk as [[Hd Ho] Hk]. pose proof (d_anchor _ Hd) as Hq. rewrite Ha in Hq.
  assert (Er : recovered (view w) = logged (view w)) by (unfold recovered; by rewrite Hn). rewrite Er in Hq.
  destruct (anchor_ok_accepted _ _ _ Hq) as [Hv Hr]. apply wp_bind, wp_lift. rewrite Hv. apply wp_bind.
  fold (logged (view w)). rewrite Hr. unfold verifySnapshot. rewrite (d_version _ Hd), Z.eqb_refl. cbn [negb].
  destruct (d_log _ Hd) as (c & Hc & _). apply (wp_verify_events _ _ _ c); [exact Hc|intros Hs w' E|intros w' E].
  - split; [rewrite E; by split|done].
  - apply wp_bind, wp_lift. cbn [negb throw_if]. apply wp_mret. split; [rewrite E; by split|]. rewrite E. by four.
Qed.

Lemma open_spec w : inv (view w) -> wp (open net id) (settles w opened) w.
Proof.
  intros Hi. unfold open.
  assert (Hthrow : forall A (Q : A -> View -> Prop) n w', fate_of net n <> Answered -> kept (view w) (view w') -> settles w Q (Throw OUTAGE) w')
    by (intros A Q n w' ?%not_smooth ?; by split).
  assert (Hsame : forall w', view w' = view w -> kept (view w) (view w')) by (intros w' ->; by apply kept_refl).
  apply wp_bind, wp_lift. rewrite Hid. cbn [negb throw_if].
  apply wp_bind, wp_load; [intros Hl w1 E1; apply (Hthrow _ _ _ _ Hl), Hsame, E1|]. intros w1 E1.
  apply wp_bind, wp_load_anchor; [intros Hl w2 E2; apply (Hthrow _ _ _ _ Hl), Hsame; by rewrite E2|]. intros w2 E2.
  apply wp_bind. rewrite <- E1, <- E2.
  eapply wp_mono; [|apply wp_settle; rewrite E2, E1; exact Hi].
  intros r w3 [Hk3 H3]. assert (Hk : kept (view w) (view w3)) by (apply (kept_trans _ (view w2)); [apply Hsame; by rewrite E2|done]).
  destruct r as [sf|e]; [destruct H3 as [-> Hn3]|by split].
  apply wp_bind, (wp_ask_provider _ (Ok (active_key (provider w3)))); [apply activeKey_reads|intros Hl w4 E4; apply (Hthrow _ _ _ _ Hl); by rewrite E4|].
  intros w4 E4. apply wp_bind, wp_lift. rewrite active_usable. apply wp_bind.
  assert (Hi4 : inv (view w4)) by (rewrite E4; apply Hk).
  replace (as_events (st_snapshot (v_journal (view w3)))) with (logged (view w4)) by (by rewrite E4).
  change (provider w3) with (v_provider (view w3)). rewrite <- E4.
  eapply wp_mono; [|apply wp_first_anchor; [done|by rewrite E4]].
  intros [q|e] w5 [Hk5 H5]; [|split; [eapply kept_trans; [exact Hk|rewrite <- E4; done]|done]]. destruct H5 as [Ha5 Hj5].
  assert (Hk' : kept (view w) (view w5)) by (eapply kept_trans; [exact Hk|rewrite <- E4; exact Hk5]).
  assert (Ep : v_provider (view w5) = v_provider (view w4)) by (apply Hk5). rewrite <- Ep.
  apply wp_checked; [done|done|by rewrite Hj5, E4|by rewrite Hj5].
Qed.

(** ** Appending *)

(** An append leaves the log as it was or with one event more, whatever it
    answers; when it returns an event, that event is the last. *)
Definition grown (v0 : View) (r : result AuditEvent) (v : View) : Prop :=
  inv v /\ v_provider v = v_provider v0 /\
  match r with
  | Ok e => recovered v = recovered v0 ++ [e]
  | Throw _ => recovered v = recovered v0 \/ exists e, recovered v = recovered v0 ++ [e]
  end.

Lemma kept_grown v0 v e : kept v0 v -> grown v0 (Throw e) v.
Proof. intros (Hi & Hp & _ & Hr). split; [done|]. split; [done|by left]. Qed.

Lemma wp_self (Q : result AsyncRemoteAuditLog -> World -> Prop) w :
  Q (match v_object (view w) with Some o => Ok o | None => Throw "TypeError" end) w -> wp self Q w.
Proof. done. Qed.

Lemma wp_publish_or_abort cid expected a (Q : result PublishedAuditAnchor -> World -> Prop) w :
  wp (ask_publisher net (publisher_publish id expected a)) (fun r w' =>
    match r with
    | Ok q => Q (Ok q) w'
    | Throw e => wp (ask_store net (store_abort id cid) ≫= fun _ => lift (Throw e)) Q w'
    end) w ->
  wp (publish_or_abort net id cid expected a) Q w.
Proof. unfold wp, publish_or_abort. by destruct (ask_publisher net _ w) as [[q|e] w']. Qed.

(** An object that has just read the journal and knows the anchor. *)
Lemma fresh_object_inv v o : inv v -> logId o = id -> state o = v_journal v -> v_anchor v = Some (published o) ->
  inv (with_object (Some o) v).
Proof.
  intros [[? ? Hd4 ?] _] Hlog Hs Ha. split; [by split|]. unfold object_ok. cbn [with_object v_object v_anchor v_journal].
  rewrite Hs, Ha. four; [done|done|lia|by intros _].
Qed.

(** The part of [append] after the journal entry is prepared. *)
Lemma wp_publish_commit v0 w log pd event :
  inv (view w) -> v_provider (view w) = v_provider v0 -> v_object (view w) = Some log -> logId log = id ->
  pending (v_journal (view w)) = Some pd -> matches_pending (v_anchor (view w)) pd = false ->
  v_anchor (view w) = Some (published log) -> recovered (view w) = recovered v0 ->
  as_events (pd_snapshot pd) = recovered v0 ++ [event] ->
  wp (self ≫= fun log =>
      publish_or_abort net (logId log) (commitId pd) (Some (pu_revision (published log))) (pd_anchor pd) ≫= fun published =>
      ask_store net (store_commit (logId log) (commitId pd)) ≫= fun _ =>
      ask_store net (store_load (logId log)) ≫= fun state =>
      smodify (set_this (Some {| logId := logId log; state := state; published := published |})) ≫= fun _ =>
      mret event) (fun r w' => grown v0 r (view w')) w.
Proof.
  intros Hi Hp Ho Hlog Hn Hm Ha Hr He.
  assert (Hsame : forall e w', kept (view w) (view w') -> grown v0 (Throw e) (view w')).
  { intros e w' (? & Hp' & _ & Hr'). split; [done|]. split; [congruence|left; congruence]. }
  assert (Hmore : forall e v w', inv v -> v_provider v = v_provider v0 -> recovered v = as_events (pd_snapshot pd) ->
    view w' = v -> grown v0 (Throw e) (view w')).
  { intros e v w' Hv Hpv Hrv ->. split; [done|]. split; [done|right]. exists event. congruence. }
  apply wp_bind, wp_self. rewrite Ho, Hlog. apply wp_bind, wp_publish_or_abort.
  replace (Some (pu_revision (published log))) with (pu_revision <$> v_anchor (view w)) by (by rewrite Ha). apply wp_publish.
  - intros _ w1 E1. apply wp_bind. rewrite <- E1 in Hn. apply wp_abort; [done|intros _ w2 E2|intros w2 E2 _|intros w2 E2].
    + apply Hsame. rewrite E2, E1. by apply kept_refl.
    + apply Hsame. rewrite E2, E1. rewrite E1 in Hn. by apply (aborted_kept _ pd).
    + apply wp_lift, Hsame. rewrite E2, E1. rewrite E1 in Hn. by apply (aborted_kept _ pd).
  - intros rev w1 E1 Hg. destruct (published_inv _ _ rev Hi Hn) as (Hi1 & Hr1 & _). rewrite <- E1 in Hi1, Hr1.
    apply wp_bind, wp_gone; [done|]. intros w2 E2. apply (Hmore _ (view w1)); try done. by rewrite E1.
  - intros rev w1 E1. destruct (published_inv _ _ rev Hi Hn) as (Hi1 & Hr1 & Hm1). rewrite <- E1 in Hi1, Hr1, Hm1.
    assert (Hn1 : pending (v_journal (view w1)) = Some pd) by (by rewrite E1).
    assert (Hp1 : v_provider (view w1) = v_provider v0) by (by rewrite E1).
    assert (Hc : forall rev', revision (v_journal (view w1)) < rev' ->
      inv (committed rev' pd (view w1)) /\ recovered (committed rev' pd (view w1)) = as_events (pd_snapshot pd)).
    { intros rev' Hv. destruct (committed_inv _ _ _ Hi1 Hn1 Hm1 Hv) as [? ->]. done. }
    apply wp_bind, wp_commit; [done|intros _ w2 E2|intros rev' w2 Hv E2 _|intros rev' w2 Hv E2].
    + by apply (Hmore _ (view w1)).
    + destruct (Hc _ Hv). by eapply Hmore.
    + destruct (Hc _ Hv) as [Hi2 Hr2]. rewrite <- E2 in Hi2, Hr2. apply wp_bind, wp_load; intros; [apply (Hmore _ (view w2)); try done; by rewrite E2|].
      apply wp_bind, wp_smodify, wp_mret. rename select (view w' = view w2) into E3.
      match goal with |- grown _ _ (view (set_this ?o w')) => change (view (set_this o w')) with (with_object o (view w')) end.
      rewrite E3. split; [apply fresh_object_inv; first [done|by rewrite E2, E1]|]. split; [by rewrite E2|].
      change (recovered (view w2) = recovered v0 ++ [event]). congruence.
Qed.

(** Preparing an entry from a current object, and publishing it; a stale object
    is refused by the journal. *)
Lemma wp_prepare_publish v0 w log pd event :
  view w = v0 -> inv v0 -> v_object v0 = Some log ->
  (st_snapshot (state log) = st_snapshot (v_journal v0) -> as_events (pd_snapshot pd) = logged v0 ++ [event] /\
     (is_Some (v_anchor v0) -> pending_ok v0 pd)) ->
  wp (ask_store net (store_prepare (logId log) (revision (state log)) pd) ≫= fun _ =>
      self ≫= fun log =>
      publish_or_abort net (logId log) (commitId pd) (Some (pu_revision (published log))) (pd_anchor pd) ≫= fun published =>
      ask_store net (store_commit (logId log) (commitId pd)) ≫= fun _ =>
      ask_store net (store_load (logId log)) ≫= fun state =>
      smodify (set_this (Some {| logId := logId log; state := state; published := published |})) ≫= fun _ =>
      mret event) (fun r w' => grown v0 r (view w')) w.
Proof.
  intros Ev Hi Ho Hpd. assert (Hthrow : forall e w', view w' = v0 -> grown v0 (Throw e) (view w'))
    by (intros e w' ->; by apply kept_grown, kept_refl).
  assert (Hobj : object_ok v0) by apply Hi. unfold object_ok in Hobj. rewrite Ho in Hobj. destruct Hobj as (Hlog & Hsome & _ & Hobj).
  rewrite Hlog. apply wp_bind.
  destruct (decide (revision (v_journal v0) = revision (state log) /\ pending (v_journal v0) = None)) as [[Hrev Hn]|Hno].
  2:{ destruct (prepare_conflict id (revision (state log)) pd (store w)) as [e He].
      { change (journal (store w) id) with (v_journal (view w)). rewrite Ev.
        destruct (decide (revision (v_journal v0) = revision (state log))); [right|by left]. intros ?. by apply Hno. }
      eapply wp_store_refuses; [exact He|]. intros e' w' E. apply Hthrow. congruence. }
  destruct (Hobj (eq_sym Hrev)) as [Hsnap Hpub]. destruct (Hpd Hsnap) as [He Hok]. specialize (Hok Hsome).
  assert (Er : recovered v0 = logged v0) by (unfold recovered; by rewrite Hn). specialize (Hpub Er).
  pose proof (prepared_inv _ _ Hi Hn Hok) as Hi1. pose proof (prepared_recovered _ _ (proj1 Hi) Hn Hok) as Hr1.
  rewrite <- Hrev. replace (revision (v_journal v0)) with (revision (v_journal (view w))) by (by rewrite Ev). apply wp_prepare.
  - by rewrite Ev.
  - intros _ w1 E1. apply Hthrow. congruence.
  - intros w1 E1 _. rewrite Ev in E1. rewrite E1. split; [done|]. split; [done|by left].
  - intros w1 E1. rewrite Ev in E1. eapply (wp_publish_commit v0 w1 log pd event); rewrite ?E1; try done.
    + apply (prepared_unmatched v0); [apply Hi|done|done].
    + by rewrite He, Er.
Qed.

Lemma append_spec ty corr props now cause e w :
  inv (view w) -> env_uuid e 0 <> [] -> (forall t, or_now now e 0 = Some t -> Z.abs t <= MAX_TIME) ->
  wp (append net ty corr props now cause e) (fun r w' => grown (view w) r (view w')) w.
Proof.
  intros Hi Hu Hdate.
  assert (Hsame : forall e w', view w' = view w -> grown (view w) (Throw e) (view w')).
  { intros e' w' ->. by apply kept_grown, kept_refl. }
  unfold append. apply wp_bind, wp_lift. destruct (throw_if _ _) as [[]|] eqn:Eg; [|by apply Hsame].
  apply throw_if_Ok in Eg. rewrite !orb_false_iff, !Nat.eqb_neq, bool_decide_eq_false in Eg. destruct Eg as [[Hty Hcorr] Hnow].
  destruct (or_now now e 0) as [t|]; [|done]. specialize (Hdate t eq_refl).
  apply wp_bind, (wp_ask_provider _ (Ok (active_key (provider w)))); [apply activeKey_reads|intros _; apply Hsame|]. intros w1 E1.
  apply wp_bind, wp_lift. rewrite active_usable. apply wp_bind, wp_self. rewrite E1.
  destruct (v_object (view w)) as [log|] eqn:Ho; [|by apply Hsame].
  apply wp_bind, wp_lift. destruct (throw_if _ _) as [[]|]; [|by apply Hsame]. cbn [toISOString].
  apply wp_bind, wp_lift. set (l := as_events (st_snapshot (state log))). set (base := base_event l _ _ _ _ _ _).
  assert (Ep : provider w1 = provider w) by (by injection E1).
  destruct (createMac_tags (macInput (sequence base) (hash base) (active_key (provider w)) (tip_tag l)) (provider w)) as (tag & Htag & Hshape & Hacc).
  apply wp_bind, (wp_ask_provider _ (Ok tag)); [rewrite Ep; exact Htag|intros _ w2 E2; apply Hsame; congruence|]. intros w2 E2.
  apply wp_bind, wp_lift. rewrite Hshape. cbn [negb throw_if]. apply wp_bind, wp_self. rewrite E2, E1, Ho.
  set (event := authenticated base _ _ _). set (pd := {| commitId := _; pd_snapshot := _; pd_anchor := _ |}).
  apply (wp_prepare_publish (view w) w2 log pd event); [congruence|done|done|]. intros Hsnap.
  assert (El : l = logged (view w)) by (unfold l; by rewrite Hsnap). fold l in pd. clearbody l. subst l.
  split; [reflexivity|]. intros Hs. split; [done|]. split; [reflexivity|]. split; [|split; [by exists event|apply anchor_ok_active]].
  apply (new_event_ok (v_provider (view w)) (logged (view w)) ty corr props t cause (env_uuid e 0) tag).
  - apply (d_log _ (proj1 Hi)).
  - intros ->. by apply Hty.
  - intros ->. by apply Hcorr.
  - exact Hu.
  - exact Hdate.
  - exact Hshape.
  - exact Hacc.
Qed.
End network.

(** ** Runs *)

(** One caller at a time over a network that may fail a call and, when an
    answer is lost, is gone for the rest of it: the caller has crashed. *)
Definition lone (net : Network (P := P) (B := B) (J := J)) : Prop :=
  (forall n w, others net n w = w) /\
  (forall n m, fate_of net n = Late -> (n < m)%nat -> fate_of net m = Lost).

Definition acknowledged (r : result AuditEvent) : list AuditEvent := match r with Ok event => [event] | Throw _ => [] end.

(** A step of a run and the events it acknowledged. *)
Inductive remote_step (w : World (P := P) (B := B) (J := J)) : list AuditEvent -> World (P := P) (B := B) (J := J) -> Prop :=
| step_open net : lone net ->
    remote_step w [] (match open net id w with (Ok o, w1) => set_this (Some o) w1 | (Throw _, w1) => w1 end)
| step_append net ty corr props now cause e : lone net -> env_uuid e 0 <> [] ->
    (forall t, or_now now e 0 = Some t -> Z.abs t <= MAX_TIME) ->
    remote_step w (acknowledged (append net ty corr props now cause e w).1) (append net ty corr props now cause e w).2
| step_rotate p : rotated (provider w) p -> remote_step w [] (set_provider p w).

Inductive remote_run (w0 : World (P := P) (B := B) (J := J)) : list AuditEvent -> World (P := P) (B := B) (J := J) -> Prop :=
| run_start : remote_run w0 [] w0
| run_step acks w more w' : remote_run w0 acks w -> remote_step w more w' -> remote_run w0 (acks ++ more) w'.

Lemma step_appends net ty corr props now cause e w r w' : lone net -> env_uuid e 0 <> [] ->
  (forall t, or_now now e 0 = Some t -> Z.abs t <= MAX_TIME) -> append net ty corr props now cause e w = (r, w') ->
  remote_step w (acknowledged r) w'.
Proof. intros Hl Hu Hd E. pose proof (step_append w net ty corr props now cause e Hl Hu Hd) as Hs. by rewrite E in Hs. Qed.

Lemma step_opens net w o w1 : lone net -> open net id w = (Ok o, w1) -> remote_step w [] (set_this (Some o) w1).
Proof. intros Hl E. pose proof (step_open w net Hl) as Hs. by rewrite E in Hs. Qed.

(** Services nobody has used for this log, and no object yet. *)
Definition fresh_world (w : World (P := P) (B := B) (J := J)) : Prop :=
  st_snapshot (journal (store w) id) = {| as_schemaVersion := 2; as_events := [] |} /\ pending (journal (store w) id) = None /\
  published_at (publisher w) id = None /\ this w = None.

Lemma fresh_inv w : fresh_world w -> inv (view w) /\ recovered (view w) = [].
Proof.
  intros (Hs & Hn & Ha & Ht). unfold inv, recovered, logged, view, object_ok. cbn. rewrite Hn, Hs, Ht. split; [split|]; try done. split; cbn.
  - by rewrite Hs.
  - unfold logged. cbn. rewrite Hs. apply log_ok_empty.
  - rewrite Ha. unfold logged. cbn. by rewrite Hs.
  - by rewrite Hn.
Qed.

Lemma rotated_inv w p : inv (view w) -> rotated (provider w) p ->
  inv (view (set_provider p w)) /\ recovered (view (set_provider p w)) = recovered (view w).
Proof.
  intros [Hd Ho] Hr. split; [|done]. split; [|exact Ho]. destruct Hd as [Hv Hl Ha Hp]. split.
  - exact Hv.
  - exact (log_ok_rotated _ _ _ Hr Hl).
  - change (recovered (view (set_provider p w))) with (recovered (view w)). cbn in *.
    destruct (published_at (publisher w) id); [by eapply anchor_ok_rotated|exact Ha].
  - cbn in *. destruct (pending (journal (store w) id)) as [pd|]; [|done].
    destruct Hp as (? & ? & ? & ? & ?). split; [done|]. split; [done|]. split; [by eapply log_ok_rotated|]. split; [done|by eapply anchor_ok_rotated].
Qed.

Lemma step_inv w acks w' : inv (view w) -> remote_step w acks w' ->
  inv (view w') /\ exists more, recovered (view w') = recovered (view w) ++ more /\ acks `sublist_of` more.
Proof.
  intros Hi [net [Ha Hc]|net ty corr props now cause e [Ha Hc] Hu Hd|p Hr].
  - pose proof (open_spec net Ha Hc w Hi) as [Hk Ho]. destruct (open net id w) as [[o|e] w1]; cbn [fst snd] in *; destruct Hk as (Hi1 & _ & _ & Hr1).
    + destruct Ho as (Hlog & Hs & _ & Hq). split; [by apply (fresh_object_inv (view w1) o)|]. exists []. by rewrite app_nil_r.
    + split; [done|]. exists []. by rewrite app_nil_r.
  - pose proof (append_spec net Ha Hc ty corr props now cause e w Hi Hu Hd) as (Hi1 & _ & Hr). split; [done|].
    destruct (append _ _ _ _ _ _ _ _).1 as [ev|m]; cbn [acknowledged]; [by exists [ev]|]. destruct Hr as [->|[ev ->]]; [exists []|exists [ev]].
    + by rewrite app_nil_r.
    + split; [done|apply sublist_nil_l].
  - destruct (rotated_inv w p Hi Hr) as [? E]. split; [done|]. exists []. by rewrite app_nil_r.
Qed.

Lemma run_inv w0 acks w : fresh_world w0 -> remote_run w0 acks w -> inv (view w) /\ acks `sublist_of` recovered (view w).
Proof.
  intros Hf Hrun. induction Hrun as [|acks w more w' _ [Hi Hs] Hstep].
  - destruct (fresh_inv _ Hf) as [? ->]. done.
  - destruct (step_inv _ _ _ Hi Hstep) as [? (news & -> & ?)]. split; [done|by apply sublist_app].
Qed.

(** A network that answers every call. *)
Definition answering : Network (P := P) (B := B) (J := J) := {| fate_of := fun _ => Answered; others := fun _ w => w |}.

Lemma reopens w : inv (view w) -> exists o w', open answering id w = (Ok o, w') /\
  as_events (snapshot o) = recovered (view w) /\ state o = journal (store w') id /\ pending (state o) = None /\
  published_at (publisher w') id = Some (published o).
Proof.
  intros Hi. pose proof (open_spec answering (fun _ _ => eq_refl) ltac:(done) w Hi) as [(_ & _ & _ & Hr) Ho].
  destruct (open answering id w) as [[o|e] w']; cbn [fst snd] in *; [|by destruct Ho].
  destruct Ho as (_ & Hs & Hn & Hq). exists o, w'. split; [done|]. split; [|split; [exact Hs|split; [by rewrite Hs|exact Hq]]].
  unfold snapshot. rewrite Hs, <- Hr. unfold recovered, logged. by rewrite Hn.
Qed.

(** C8: Acknowledged events survive: whatever sequence of openings, appends and
    key rotations has run, whatever requests were lost and wherever callers
    crashed, with the answer they awaited, the log opens again once the services answer,
    nothing pending, and it holds every acknowledged event, in order. *)
Theorem acknowledged_events_survive w0 acks w :
  fresh_world w0 -> remote_run w0 acks w ->
  exists o w', open answering id w = (Ok o, w') /\ acks `sublist_of` as_events (snapshot o) /\
    state o = journal (store w') id /\ pending (state o) = None /\ published_at (publisher w') id = Some (published o).
Proof.
  intros Hf Hrun. destruct (run_inv _ _ _ Hf Hrun) as [Hi Hs]. destruct (reopens w Hi) as (o & w' & Eo & Er & Hj & Hn & Hq).
  exists o, w'. by rewrite Er.
Qed.

(** C9: An append is all or nothing, for one caller at a time over a network that
    may fail any call and that loses an answer only together with its caller: the
    log that opens after it is the log that would have opened before it, or that
    log with one event more; when the append returned its event, it is there.
    Both provisos are needed: see [lost_publication_answer_loses_log] and
    [concurrent_appends_lose_log] of [RemoteAuditRuns]. *)
Theorem remote_append_all_or_nothing w0 acks w net ty corr props now cause e r w1 :
  fresh_world w0 -> remote_run w0 acks w -> lone net -> env_uuid e 0 <> [] ->
  (forall t, or_now now e 0 = Some t -> Z.abs t <= MAX_TIME) -> append net ty corr props now cause e w = (r, w1) ->
  exists o o1, (open answering id w).1 = Ok o /\ (open answering id w1).1 = Ok o1 /\
    match r with
    | Ok event => as_events (snapshot o1) = as_events (snapshot o) ++ [event]
    | Throw _ => as_events (snapshot o1) = as_events (snapshot o) \/ exists event, as_events (snapshot o1) = as_events (snapshot o) ++ [event]
    end.
Proof.
  intros Hf Hrun [Ha Hc] Hu Hd E. destruct (run_inv _ _ _ Hf Hrun) as [Hi _].
  pose proof (append_spec net Ha Hc ty corr props now cause e w Hi Hu Hd) as (Hi1 & _ & Hr). rewrite E in Hi1, Hr. cbn [fst snd] in *.
  destruct (reopens w Hi) as (o & w2 & -> & Eo & _). destruct (reopens w1 Hi1) as (o1 & w3 & -> & Eo1 & _).
  exists o, o1. split; [done|]. split; [done|]. by rewrite Eo, Eo1.
Qed.
End crash.
