(* ===== verification/RemoteAuditRuns.v ===== *)
(** RemoteAuditRuns: services kept in memory, as the repository's tests keep
    them, the theorems on the remote audit log at a run with a crash in it, and
    the runs that lose the log: a lost answer of the publisher, a reopening
    during an append, two appends at once. *)
From stdpp Require Import relations.
From S2P Require Import Prelude JsString JsMap Host TestHost JsTime JsJson Protocol AuditLog RemoteAudit RemoteAuditRecovery RemoteAuditCrash.
#[local] Open Scope string_scope.
#[local] Open Scope list_scope.
#[local] Open Scope Z_scope.
#[local] Open Scope js_scope.

#[local] Existing Instance test_host.
#[local] Existing Instance test_host_laws.

(** ** Services in memory *)

(** Two keys; the state says whether the second has become active. *)
Definition memory_key (second : bool) : RemoteAuditKeyMetadata :=
  {| md_keyId := if second then "kms-audit-v2" else "kms-audit-v1"; md_keyVersion := if second then 2 else 1; md_status := "active" |}.
Definition memory_metadata (second : bool) (id : jstr) : option RemoteAuditKeyMetadata :=
  if id =s? "kms-audit-v1" then
    Some {| md_keyId := id; md_keyVersion := 1; md_status := if second then "retired" else "active" |}
  else if (id =s? "kms-audit-v2") && second then Some (memory_key true) else None.
Definition memory_mac (id : jstr) (m : list N) : jstr := base64urlEncode (hmacSha256 (utf8_encode id) m).

#[export] Instance memory_provider : RemoteAuditMacProvider bool := {|
  kms_activeKey := fun p => (Ok (memory_key p), p);
  kms_keyMetadata := fun id p => (Ok (memory_metadata p id), p);
  kms_createMac := fun m k p =>
    (if md_keyId k =s? md_keyId (memory_key p) then Ok (memory_mac (md_keyId k) m) else Throw "KMS key is not active", p);
  kms_verifyMac := fun m t k p => (Ok (t =s? memory_mac (md_keyId k) m), p);
|}.

(** The anchor and the number of its publication. *)
Definition memory_anchor (b : option (AuditTrustAnchor * Z)) : option PublishedAuditAnchor :=
  (fun x => {| anchor := x.1; pu_revision := decimal_Z x.2 |}) <$> b.
#[export] Instance memory_publisher : AuditTrustAnchorPublisher (option (AuditTrustAnchor * Z)) := {|
  publisher_load := fun _ b => (Ok (memory_anchor b), b);
  publisher_publish := fun _ expected a b =>
    if bool_decide (pu_revision <$> memory_anchor b = expected) then
      let n := match b with Some x => x.2 + 1 | None => 1 end in (Ok {| anchor := a; pu_revision := decimal_Z n |}, Some (a, n))
    else (Throw "anchor compare-and-swap conflict", b);
|}.

#[export] Instance memory_store : RemoteAuditStateStore RemoteAuditState := {|
  store_load := fun _ j => (Ok j, j);
  store_prepare := fun _ rev pd j =>
    match pending j with
    | None => if revision j =? rev
              then (Ok tt, {| revision := revision j; st_snapshot := st_snapshot j; pending := Some pd |})
              else (Throw "state compare-and-swap conflict", j)
    | Some _ => (Throw "state compare-and-swap conflict", j)
    end;
  store_commit := fun _ cid j =>
    match pending j with
    | Some pd => if commitId pd =s? cid
                 then (Ok tt, {| revision := revision j + 1; st_snapshot := pd_snapshot pd; pending := None |})
                 else (Throw "pending audit commit mismatch", j)
    | None => (Throw "pending audit commit mismatch", j)
    end;
  store_abort := fun _ cid j =>
    match pending j with
    | Some pd => (Ok tt, if commitId pd =s? cid then {| revision := revision j; st_snapshot := st_snapshot j; pending := None |} else j)
    | None => (Ok tt, j)
    end;
|}.

Lemma memory_mac_shape id m : base64url_of_length 43 (memory_mac id m) = true.
Proof. apply base64url_32; [apply hmacSha256_bytes|apply hmacSha256_length]. Qed.

#[export] Instance memory_provider_laws : MacProviderLaws bool.
Proof.
  refine {| active_key := memory_key; metadata := memory_metadata; accepts := fun _ id m t => t =s? memory_mac id m |}; try done.
  - intros m p. exists (memory_mac (md_keyId (memory_key p)) m). cbn [kms_createMac memory_provider]. rewrite !jeqb_refl.
    split; [reflexivity|]. split; [apply memory_mac_shape|reflexivity].
  - by intros [].
  - by intros [].
  - intros p id k. unfold memory_metadata. destruct (id =s? "kms-audit-v1") eqn:E1.
    + apply jeqb_true in E1 as ->. intros [= <-]. by destruct p.
    + destruct (id =s? "kms-audit-v2") eqn:E2, p; cbn; try done. apply jeqb_true in E2 as ->. by intros [= <-].
Defined.

#[export] Instance memory_publisher_laws : AnchorPublisherLaws (option (AuditTrustAnchor * Z)).
Proof.
  refine {| published_at := fun b _ => memory_anchor b |}; [done|].
  intros id a b. cbn. rewrite bool_decide_true by done. do 2 eexists. split; reflexivity.
Defined.

#[export] Instance memory_store_laws : StateStoreLaws RemoteAuditState.
Proof.
  refine {| journal := fun j _ => j |}; cbn.
  - done.
  - intros _ pd j Hn. rewrite Hn, Z.eqb_refl. eexists. split; reflexivity.
  - intros _ rev pd j Hno. destruct (pending j); [by eexists|]. destruct (Z.eqb_spec (revision j) rev); [by destruct Hno|by eexists].
  - intros _ pd j Hn. rewrite Hn, jeqb_refl. do 2 eexists. split; [reflexivity|]. split; [|reflexivity]. lia.
  - intros _ pd j Hn. rewrite Hn, jeqb_refl. eexists. split; reflexivity.
Defined.

(** ** A run with a crash *)

Definition log_id : jstr := "issuer-audit".
Definition memory_world : World (P := bool) (B := option (AuditTrustAnchor * Z)) (J := RemoteAuditState) :=
  {| provider := false; publisher := None;
     store := {| revision := 0; st_snapshot := {| as_schemaVersion := 2; as_events := [] |}; pending := None |};
     this := None; calls := 0 |}.
#[local] Abbreviation Net := (Network (P := bool) (B := option (AuditTrustAnchor * Z)) (J := RemoteAuditState)).
#[local] Abbreviation Mem := (World (P := bool) (B := option (AuditTrustAnchor * Z)) (J := RemoteAuditState)).

(** The calls up to number [n] get through; the answer of the [n]-th is lost
    and with it the network. *)
Definition crash_at (n : nat) : Net :=
  {| fate_of := fun m => if (m <? n)%nat then Answered else if (m =? n)%nat then Late else Lost; others := fun _ w => w |}.

Definition audit_env (name : jstr) : Env :=
  {| env_uuid := fun n => if (n =? 0)%nat then name else name +:+ "-commit"; env_challengeId := []; env_clock := fun _ => Some noon |}.

Definition opened_world (net : Net) (w : Mem) : Mem :=
  match open net log_id w with (Ok o, w1) => set_this (Some o) w1 | (Throw _, w1) => w1 end.
Definition appended_world (net : Net) (name : jstr) (w : Mem) : Mem :=
  (append net "authorization.received" name [] None None (audit_env name) w).2.
Definition append_result (net : Net) (name : jstr) (w : Mem) : result AuditEvent :=
  (append net "authorization.received" name [] None None (audit_env name) w).1.
Definition log_of (w : Mem) : result (list jstr) :=
  match (open answering log_id w).1 with Ok o => Ok (map eventId (as_events (snapshot o))) | Throw e => Throw e end.

(** Opening takes calls 0 to 3 and publishes the first anchor; an append takes
    six: key, MAC, prepare, publish, commit, load. *)
Definition world_1 : Mem := Eval vm_compute in opened_world answering memory_world.
Definition world_2 : Mem := Eval vm_compute in appended_world answering "event-1" world_1.
(** The caller of a second append crashes when the publisher has its anchor. *)
Definition world_3 : Mem := Eval vm_compute in appended_world (crash_at 13) "event-2" world_2.

Lemma answering_lone : lone (answering : Net).
Proof. by split. Qed.
Lemma crash_at_lone n : lone (crash_at n).
Proof.
  split; [done|]. cbn [fate_of crash_at]. intros k m.
  destruct (Nat.ltb_spec k n); [discriminate|]. destruct (Nat.eqb_spec k n) as [->|]; [|discriminate]. intros _ Hm.
  destruct (Nat.ltb_spec m n); [lia|]. destruct (Nat.eqb_spec m n); [lia|done].
Qed.
Lemma audit_env_named c (s : jstr) : env_uuid (audit_env (c :: s)) 0 <> [].
Proof. done. Qed.
Lemma audit_env_dated name t : or_now None (audit_env name) 0 = Some t -> Z.abs t <= MAX_TIME.
Proof. intros [= <-]. unfold noon, MAX_TIME. lia. Qed.

Lemma memory_world_fresh : fresh_world log_id memory_world.
Proof. repeat split. Qed.

Definition event_1 : result AuditEvent := Eval vm_compute in append_result answering "event-1" world_1.
Definition event_2 : result AuditEvent := Eval vm_compute in append_result (crash_at 13) "event-2" world_2.
Definition opened_0 : AsyncRemoteAuditLog * Mem := Eval vm_compute in
  match open answering log_id memory_world with (Ok o, w) => (o, w) | (Throw _, w) => ({| logId := []; state := store w; published := {| anchor := anchorFor [] (memory_key false); pu_revision := [] |} |}, w) end.

Lemma audit_opened_made : open answering log_id memory_world = (Ok opened_0.1, opened_0.2).
Proof. vm_compute. reflexivity. Qed.
Lemma event_1_made : append answering "authorization.received" "event-1" [] None None (audit_env "event-1") world_1 = (event_1, world_2).
Proof. vm_compute. reflexivity. Qed.
Lemma event_2_made : append (crash_at 13) "authorization.received" "event-2" [] None None (audit_env "event-2") world_2 = (event_2, world_3).
Proof. vm_compute. reflexivity. Qed.

Lemma world_1_run : remote_run log_id memory_world ([] ++ []) world_1.
Proof. exact (run_step _ _ [] memory_world [] world_1 (run_start _ _) (step_opens _ _ _ _ _ answering_lone audit_opened_made)). Qed.
Lemma world_2_run : remote_run log_id memory_world (([] ++ []) ++ acknowledged event_1) world_2.
Proof.
  exact (run_step _ _ _ _ _ _ world_1_run
    (step_appends _ _ _ _ _ _ _ _ _ _ _ answering_lone (audit_env_named _ _) (audit_env_dated _) event_1_made)).
Qed.
Lemma world_3_run : remote_run log_id memory_world ((([] ++ []) ++ acknowledged event_1) ++ acknowledged event_2) world_3.
Proof.
  exact (run_step _ _ _ _ _ _ world_2_run
    (step_appends _ _ _ _ _ _ _ _ _ _ _ (crash_at_lone 13) (audit_env_named _ _) (audit_env_dated _) event_2_made)).
Qed.

Lemma acknowledged_events_survive_witness :
  exists o w', open answering log_id world_3 = (Ok o, w') /\
    (([] ++ []) ++ acknowledged event_1) ++ acknowledged event_2 `sublist_of` as_events (snapshot o) /\
    state o = journal (store w') log_id /\ pending (state o) = None /\ published_at (publisher w') log_id = Some (published o).
Proof. exact (acknowledged_events_survive log_id eq_refl memory_world _ world_3 memory_world_fresh world_3_run). Defined.

Lemma remote_append_all_or_nothing_witness :
  exists o o1, (open answering log_id world_2).1 = Ok o /\ (open answering log_id world_3).1 = Ok o1 /\
    match event_2 with
    | Ok event => as_events (snapshot o1) = as_events (snapshot o) ++ [event]
    | Throw _ => as_events (snapshot o1) = as_events (snapshot o) \/ exists event, as_events (snapshot o1) = as_events (snapshot o) ++ [event]
    end.
Proof.
  exact (remote_append_all_or_nothing log_id eq_refl memory_world _ world_2 (crash_at 13) "authorization.received" "event-2" [] None None
    (audit_env "event-2") event_2 world_3 memory_world_fresh world_2_run (crash_at_lone 13) (audit_env_named _ _) (audit_env_dated _) event_2_made).
Defined.

(** The crash after publication is completed by the next opening. *)
Example crash_completed : log_of world_3 = Ok [js "event-1"; js "event-2"].
Proof. vm_compute. reflexivity. Qed.

(** ** Runs that lose the log *)

(** The publisher takes the anchor and only its answer is lost: the append
    aborts its entry, the published anchor is ahead of the journal, and no
    later opening succeeds. *)
Definition answer_lost (n : nat) : Net := {| fate_of := fun m => if (m =? n)%nat then Late else Answered; others := fun _ w => w |}.

Theorem lost_publication_answer_loses_log :
  log_of (appended_world (answer_lost 13) "event-2" world_2) =
    Throw "remote audit state or external trust anchor verification failed".
Proof. vm_compute. reflexivity. Qed.

(** Somebody opens the log between the preparation and the publication of an
    append: the entry is aborted under the append, which then publishes. *)
Definition meanwhile (n : nat) (f : Mem -> Mem) : Net :=
  {| fate_of := fun _ => Answered; others := fun m w => if (m =? n)%nat then f w else w |}.

Theorem opening_during_append_loses_log :
  log_of (appended_world (meanwhile 13 (fun w => set_this (this w) (opened_world answering w))) "event-2" world_2) =
    Throw "remote audit state or external trust anchor verification failed".
Proof. vm_compute. reflexivity. Qed.

(** Two appends at once on one object, the second served while the first waits
    for its MAC: both are acknowledged, the first under a sequence number and a
    previous hash that the second has taken. *)
Theorem concurrent_appends_lose_log :
  let net := meanwhile 11 (appended_world answering "event-3") in
  is_ok (append_result net "event-2" world_2) = true /\
  log_of (appended_world net "event-2" world_2) = Throw "remote audit state or external trust anchor verification failed".
Proof. vm_compute. split; reflexivity. Qed.
