(* ===== verification/ServiceTelemetry.v ===== *)
(** ServiceTelemetry: packages/operations/serviceTelemetry.ts and
    capacityEvidence.ts, admission under the launch policy, the request
    counters and latency windows, the alerts drawn from them, and the evidence
    of a capacity run. *)
From stdpp Require Import relations.
From S2P Require Import Prelude JsString JsMap Host TestHost JsTime LaunchPolicy.
#[local] Open Scope string_scope.
#[local] Open Scope list_scope.
#[local] Open Scope Z_scope.
#[local] Open Scope js_scope.

(** ** Numbers *)

(** [a < b]; false with a NaN operand. *)
Definition num_less (a b : jsnum) : bool :=
  match a, b with
  | NNaN, _ | _, NNaN => false
  | NInf n, NInf m => n && negb m
  | NInf n, _ => n
  | _, NInf m => negb m
  | NInt x, NInt y => x <? y
  | NInt x, NFrac p q => x * Z.pos q <? p
  | NFrac p q, NInt y => p <? y * Z.pos q
  | NFrac p q, NFrac r s => p * Z.pos s <? r * Z.pos q
  end.
Definition finite (n : jsnum) : bool := match n with NInt _ | NFrac _ _ => true | _ => false end.
Definition safe_count (n : jsnum) : bool := match n with NInt z => safe_int z && (0 <=? z) | _ => false end.

(** A duration that may be recorded: finite, and within an hour. *)
Definition hour_bounded (n : jsnum) : bool := finite n && negb (num_less n (NInt 0)) && negb (num_less (NInt 3600000) n).

(** ** capacityEvidence.ts *)

Fixpoint insert_num (n : jsnum) (l : list jsnum) : list jsnum :=
  match l with
  | [] => [n]
  | m :: l => if num_less m n then m :: insert_num n l else n :: m :: l
  end.
(** [samples.sort((left, right) => left - right)] *)
Definition sort_nums (l : list jsnum) : list jsnum := foldr insert_num [] l.

(** [Math.ceil(n * 0.95)]: the double nearest to 0.95 is 8556839292003942 / 2^53
    and the product is rounded to a double in turn. *)
Definition rank95 (n : Z) : Z :=
  let '(q, k) := num_div (n * 8556839292003942) (2 ^ 53) in - (- q / 2 ^ k).

Definition percentile95 (samples : list jsnum) : result jsnum :=
  throw_if (length samples =? 0)%nat "p95 requires at least one sample" ≫= fun _ =>
  throw_if (existsb (fun n => negb (finite n) || num_less n (NInt 0)) samples)
    "p95 samples must be finite non-negative milliseconds" ≫= fun _ =>
  Ok (nth (Z.to_nat (rank95 (Z.of_nat (length samples)) - 1)) (sort_nums samples) NNaN).

(** ** The telemetry object *)

Definition SERVICE_METRICS_VERSION : jstr := "airlock.service-metrics.v1".
Definition MAX_SAMPLES : nat := 2048.

Inductive RequestClass : Type := read | mutation | static | sse.
Inductive RequestOutcome : Type := success | client_error | server_error | overload.

Record Readiness : Type := { r_database : bool; r_identityProvider : bool; r_auditCustody : bool; r_partnerTransport : bool }.
Definition all_ready (r : Readiness) : bool :=
  r_database r && r_identityProvider r && r_auditCustody r && r_partnerTransport r.

(** The slots of one kind: the admissions in progress, the highest number seen,
    and for every admission whether its [release] has run. *)
Record Slots : Type := { current : Z; peak : Z; released : list bool }.

Record ServiceTelemetry : Type := {
  t_policy : LaunchPolicy; t_windowStartedAt : Z;
  readLatencies : list jsnum; mutationLatencies : list jsnum;
  requestsTotal : Z; successfulRequestsTotal : Z; clientErrorsTotal : Z; serverErrorsTotal : Z;
  overloadRejectionsTotal : Z; dependencyFailuresTotal : Z;
  requests : Slots; sseStreams : Slots; t_readiness : Readiness;
}.

(** The counters, as one group, and the other fields by name. *)
Definition set_counters (total ok client server overloads failures : Z) (t : ServiceTelemetry) : ServiceTelemetry :=
  {| t_policy := t_policy t; t_windowStartedAt := t_windowStartedAt t; readLatencies := readLatencies t;
     mutationLatencies := mutationLatencies t; requestsTotal := total; successfulRequestsTotal := ok;
     clientErrorsTotal := client; serverErrorsTotal := server; overloadRejectionsTotal := overloads;
     dependencyFailuresTotal := failures; requests := requests t; sseStreams := sseStreams t; t_readiness := t_readiness t |}.
Definition set_slots (r s : Slots) (t : ServiceTelemetry) : ServiceTelemetry :=
  {| t_policy := t_policy t; t_windowStartedAt := t_windowStartedAt t; readLatencies := readLatencies t;
     mutationLatencies := mutationLatencies t; requestsTotal := requestsTotal t;
     successfulRequestsTotal := successfulRequestsTotal t; clientErrorsTotal := clientErrorsTotal t;
     serverErrorsTotal := serverErrorsTotal t; overloadRejectionsTotal := overloadRejectionsTotal t;
     dependencyFailuresTotal := dependencyFailuresTotal t; requests := r; sseStreams := s; t_readiness := t_readiness t |}.
Definition set_samples (reads mutations : list jsnum) (t : ServiceTelemetry) : ServiceTelemetry :=
  {| t_policy := t_policy t; t_windowStartedAt := t_windowStartedAt t; readLatencies := reads;
     mutationLatencies := mutations; requestsTotal := requestsTotal t;
     successfulRequestsTotal := successfulRequestsTotal t; clientErrorsTotal := clientErrorsTotal t;
     serverErrorsTotal := serverErrorsTotal t; overloadRejectionsTotal := overloadRejectionsTotal t;
     dependencyFailuresTotal := dependencyFailuresTotal t; requests := requests t; sseStreams := sseStreams t;
     t_readiness := t_readiness t |}.
Definition set_readiness (r : Readiness) (t : ServiceTelemetry) : ServiceTelemetry :=
  {| t_policy := t_policy t; t_windowStartedAt := t_windowStartedAt t; readLatencies := readLatencies t;
     mutationLatencies := mutationLatencies t; requestsTotal := requestsTotal t;
     successfulRequestsTotal := successfulRequestsTotal t; clientErrorsTotal := clientErrorsTotal t;
     serverErrorsTotal := serverErrorsTotal t; overloadRejectionsTotal := overloadRejectionsTotal t;
     dependencyFailuresTotal := dependencyFailuresTotal t; requests := requests t; sseStreams := sseStreams t; t_readiness := r |}.

Definition boundedCounter (value : Z) : result Z :=
  throw_if (negb (safe_int value) || (value <? 0)) "invalid service metric counter" ≫= fun _ =>
  Ok (if value =? MAX_SAFE_INTEGER then value else value + 1).

Definition empty_slots : Slots := {| current := 0; peak := 0; released := [] |}.

Definition constructor (policy : LaunchPolicy) (startedAt : Date) : result ServiceTelemetry :=
  match startedAt with
  | None => Throw "invalid service metrics time"
  | Some t => Ok {|
      t_policy := policy; t_windowStartedAt := t; readLatencies := []; mutationLatencies := []; requestsTotal := 0;
      successfulRequestsTotal := 0; clientErrorsTotal := 0; serverErrorsTotal := 0; overloadRejectionsTotal := 0;
      dependencyFailuresTotal := 0; requests := empty_slots; sseStreams := empty_slots;
      t_readiness := {| r_database := false; r_identityProvider := false; r_auditCustody := false; r_partnerTransport := false |} |}
  end.

(** The four flags are booleans by type. *)
Definition setReadiness (r : Readiness) : St ServiceTelemetry unit := smodify (set_readiness r).

(** An admitted caller holds the number of its [release]. *)
Inductive AdmissionDecision : Type :=
| admitted (slot : nat)
| rejected (status retryAfterSeconds : Z).

Definition take_slot (s : Slots) : Slots :=
  {| current := current s + 1; peak := Z.max (peak s) (current s + 1); released := released s ++ [false] |}.

(** [release()] of the admission [n]: the first call frees its slot. *)
Definition free_slot (n : nat) (s : Slots) : Slots :=
  match released s !! n with
  | Some false => {| current := Z.max 0 (current s - 1); peak := peak s; released := <[n := true]> (released s) |}
  | _ => s
  end.

Definition reject : St ServiceTelemetry AdmissionDecision :=
  sget ≫= fun t =>
  lift (boundedCounter (overloadRejectionsTotal t)) ≫= fun overloads =>
  smodify (fun t => set_counters (requestsTotal t) (successfulRequestsTotal t) (clientErrorsTotal t) (serverErrorsTotal t)
    overloads (dependencyFailuresTotal t) t) ≫= fun _ =>
  lift (boundedCounter (requestsTotal t)) ≫= fun total =>
  smodify (fun t => set_counters total (successfulRequestsTotal t) (clientErrorsTotal t) (serverErrorsTotal t)
    (overloadRejectionsTotal t) (dependencyFailuresTotal t) t) ≫= fun _ =>
  mret (rejected 503 (retryAfterSeconds (traffic (t_policy t)))).

Definition enterRequest : St ServiceTelemetry AdmissionDecision :=
  sget ≫= fun t =>
  if maximumConcurrentRequests (traffic (t_policy t)) <=? current (requests t) then reject
  else
    smodify (fun t => set_slots (take_slot (requests t)) (sseStreams t) t) ≫= fun _ =>
    mret (admitted (length (released (requests t)))).
Definition releaseRequest (n : nat) : St ServiceTelemetry unit :=
  smodify (fun t => set_slots (free_slot n (requests t)) (sseStreams t) t).

Definition enterSse : St ServiceTelemetry AdmissionDecision :=
  sget ≫= fun t =>
  if maximumConcurrentSseStreams (traffic (t_policy t)) <=? current (sseStreams t) then reject
  else
    smodify (fun t => set_slots (requests t) (take_slot (sseStreams t)) t) ≫= fun _ =>
    mret (admitted (length (released (sseStreams t)))).
Definition releaseSse (n : nat) : St ServiceTelemetry unit :=
  smodify (fun t => set_slots (requests t) (free_slot n (sseStreams t)) t).

(** [if (samples.length === MAX_SAMPLES) samples.shift(); samples.push(d)] *)
Definition push_sample (d : jsnum) (l : list jsnum) : list jsnum :=
  (if (length l =? MAX_SAMPLES)%nat then tail l else l) ++ [d].

(** Class and outcome are members of their enumerations by type. *)
Definition recordRequest (requestClass : RequestClass) (outcome : RequestOutcome) (duration : jsnum) : St ServiceTelemetry unit :=
  lift (throw_if (negb (hour_bounded duration)) "invalid service metric observation") ≫= fun _ =>
  sget ≫= fun t =>
  lift (boundedCounter (requestsTotal t)) ≫= fun total =>
  smodify (fun t => set_counters total (successfulRequestsTotal t) (clientErrorsTotal t) (serverErrorsTotal t)
    (overloadRejectionsTotal t) (dependencyFailuresTotal t) t) ≫= fun _ =>
  (match outcome with
   | success | client_error =>
       lift (boundedCounter (successfulRequestsTotal t)) ≫= fun ok =>
       smodify (fun t => set_counters (requestsTotal t) ok (clientErrorsTotal t) (serverErrorsTotal t)
         (overloadRejectionsTotal t) (dependencyFailuresTotal t) t)
   | _ => mret tt
   end) ≫= fun _ =>
  (match outcome with
   | client_error =>
       lift (boundedCounter (clientErrorsTotal t)) ≫= fun n =>
       smodify (fun t => set_counters (requestsTotal t) (successfulRequestsTotal t) n (serverErrorsTotal t)
         (overloadRejectionsTotal t) (dependencyFailuresTotal t) t)
   | server_error =>
       lift (boundedCounter (serverErrorsTotal t)) ≫= fun n =>
       smodify (fun t => set_counters (requestsTotal t) (successfulRequestsTotal t) (clientErrorsTotal t) n
         (overloadRejectionsTotal t) (dependencyFailuresTotal t) t)
   | overload =>
       lift (boundedCounter (overloadRejectionsTotal t)) ≫= fun n =>
       smodify (fun t => set_counters (requestsTotal t) (successfulRequestsTotal t) (clientErrorsTotal t) (serverErrorsTotal t)
         n (dependencyFailuresTotal t) t)
   | success => mret tt
   end) ≫= fun _ =>
  smodify (fun t => match requestClass with
    | mutation => set_samples (readLatencies t) (push_sample duration (mutationLatencies t)) t
    | read => set_samples (push_sample duration (readLatencies t)) (mutationLatencies t) t
    | _ => t
    end).

Definition recordDependencyFailure : St ServiceTelemetry unit :=
  sget ≫= fun t =>
  lift (boundedCounter (dependencyFailuresTotal t)) ≫= fun n =>
  smodify (fun t => set_counters (requestsTotal t) (successfulRequestsTotal t) (clientErrorsTotal t) (serverErrorsTotal t)
    (overloadRejectionsTotal t) n t).

(** ** Snapshots *)

Record ServiceMetricsSnapshot : Type := {
  s_schemaVersion : jstr; s_windowStartedAt : jstr; s_generatedAt : jstr;
  s_requestsTotal : jsnum; s_successfulRequestsTotal : jsnum; s_clientErrorsTotal : jsnum; s_serverErrorsTotal : jsnum;
  s_overloadRejectionsTotal : jsnum; s_dependencyFailuresTotal : jsnum;
  s_readP95 : jsnum; s_mutationP95 : jsnum;
  s_currentRequests : jsnum; s_peakRequests : jsnum; s_currentSseStreams : jsnum; s_peakSseStreams : jsnum;
  s_ready : bool; s_readiness : Readiness;
  s_readLatency : jsnum; s_mutationLatency : jsnum;
}.

(** [samples.length ? percentile95(samples) : 0] *)
Definition p95_of (samples : list jsnum) : result jsnum :=
  if (length samples =? 0)%nat then Ok (NInt 0) else percentile95 samples.

Definition snapshot (now : Date) (t : ServiceTelemetry) : result ServiceMetricsSnapshot :=
  throw_if (bool_decide (now = None)) "invalid service metrics time" ≫= fun _ =>
  toISOString (Some (t_windowStartedAt t)) ≫= fun started =>
  toISOString now ≫= fun generated =>
  p95_of (readLatencies t) ≫= fun r95 =>
  p95_of (mutationLatencies t) ≫= fun m95 =>
  Ok {| s_schemaVersion := SERVICE_METRICS_VERSION; s_windowStartedAt := started; s_generatedAt := generated;
        s_requestsTotal := NInt (requestsTotal t); s_successfulRequestsTotal := NInt (successfulRequestsTotal t);
        s_clientErrorsTotal := NInt (clientErrorsTotal t); s_serverErrorsTotal := NInt (serverErrorsTotal t);
        s_overloadRejectionsTotal := NInt (overloadRejectionsTotal t);
        s_dependencyFailuresTotal := NInt (dependencyFailuresTotal t);
        s_readP95 := r95; s_mutationP95 := m95;
        s_currentRequests := NInt (current (requests t)); s_peakRequests := NInt (peak (requests t));
        s_currentSseStreams := NInt (current (sseStreams t)); s_peakSseStreams := NInt (peak (sseStreams t));
        s_ready := all_ready (t_readiness t); s_readiness := t_readiness t;
        s_readLatency := NInt (Z.of_nat (length (readLatencies t)));
        s_mutationLatency := NInt (Z.of_nat (length (mutationLatencies t))) |}.

(** ** Alerts *)

Inductive AlertCode : Type :=
| SERVICE_NOT_READY | SUCCESS_RATIO_BREACH | READ_LATENCY_BREACH | MUTATION_LATENCY_BREACH
| REQUEST_SATURATION | SSE_SATURATION | OVERLOAD_REJECTIONS | INSUFFICIENT_WINDOW.

Record ServiceAlert : Type := {
  code : AlertCode; critical : bool; value : jsnum; threshold : jsnum; summary : jstr;
}.

Definition alert (b : bool) (c : AlertCode) (crit : bool) (v th : jsnum) (text : jstr) : list ServiceAlert :=
  if b then [{| code := c; critical := crit; value := v; threshold := th; summary := text |}] else [].

(** [a / b] for safe integers, [b] positive. *)
Definition quotient (a b : Z) : jsnum :=
  if a mod b =? 0 then NInt (a / b) else let '(n, k) := num_div a b in NFrac n (Z.to_pos (2 ^ k)).

Section alerts.
Context `{Host}.

(** The times of a snapshot, if it is one that may be evaluated. *)
Definition metrics_valid (m : ServiceMetricsSnapshot) : option (Z * Z) :=
  match date_parse (s_windowStartedAt m), date_parse (s_generatedAt m) with
  | Some started, Some generated =>
      if (generated <? started) ||
         negb (forallb safe_count
           [s_requestsTotal m; s_successfulRequestsTotal m; s_clientErrorsTotal m; s_serverErrorsTotal m;
            s_overloadRejectionsTotal m; s_dependencyFailuresTotal m; s_currentRequests m; s_peakRequests m;
            s_currentSseStreams m; s_peakSseStreams m; s_readLatency m; s_mutationLatency m]) ||
         num_less (s_requestsTotal m) (s_successfulRequestsTotal m) ||
         existsb (num_less (NInt (Z.of_nat MAX_SAMPLES))) [s_readLatency m; s_mutationLatency m] ||
         negb (forallb hour_bounded [s_readP95 m; s_mutationP95 m]) ||
         negb (Bool.eqb (s_ready m) (all_ready (s_readiness m)))
      then None else Some (started, generated)
  | _, _ => None
  end.

Definition num_value (n : jsnum) : Z := match n with NInt z => z | _ => 0 end.

Definition window_alerts (policy : LaunchPolicy) (m : ServiceMetricsSnapshot) (elapsed : Z) : list ServiceAlert :=
  let r := reliability policy in
  let total := num_value (s_requestsTotal m) in
  if quotient_below elapsed 1000 (NInt (measurementWindowSeconds r)) || (total <? minimumRequestsPerWindow r) then
    alert true INSUFFICIENT_WINDOW false (s_requestsTotal m) (NInt (minimumRequestsPerWindow r))
      "The metrics window is not yet sufficient for an SLO decision."
  else
    let ratio := if total =? 0 then NInt 0 else quotient (num_value (s_successfulRequestsTotal m)) total in
    alert (num_less ratio (minimumSuccessRatio r)) SUCCESS_RATIO_BREACH true ratio (minimumSuccessRatio r)
      "Service success ratio is below the repository policy.".

Definition evaluateServiceAlerts (policy : LaunchPolicy) (m : ServiceMetricsSnapshot) : result (list ServiceAlert) :=
  throw_if (negb (s_schemaVersion m =s? SERVICE_METRICS_VERSION)) "unsupported service metrics version" ≫= fun _ =>
  match metrics_valid m with
  | None => Throw "invalid service metrics snapshot"
  | Some (started, generated) =>
      let lat := latencyMilliseconds policy in
      let tr := traffic policy in
      Ok (alert (negb (s_ready m)) SERVICE_NOT_READY true (NInt 0) (NInt 1)
            "One or more required service dependencies are not ready." ++
          window_alerts policy m (generated - started) ++
          alert (num_less (NInt 0) (s_readLatency m) && num_less (NInt (readP95 lat)) (s_readP95 m))
            READ_LATENCY_BREACH false (s_readP95 m) (NInt (readP95 lat)) "Read p95 exceeds the repository policy." ++
          alert (num_less (NInt 0) (s_mutationLatency m) && num_less (NInt (mutationP95 lat)) (s_mutationP95 m))
            MUTATION_LATENCY_BREACH true (s_mutationP95 m) (NInt (mutationP95 lat)) "Mutation p95 exceeds the repository policy." ++
          alert (negb (num_less (s_currentRequests m) (NInt (maximumConcurrentRequests tr))))
            REQUEST_SATURATION true (s_currentRequests m) (NInt (maximumConcurrentRequests tr)) "HTTP request admission is saturated." ++
          alert (negb (num_less (s_currentSseStreams m) (NInt (maximumConcurrentSseStreams tr))))
            SSE_SATURATION false (s_currentSseStreams m) (NInt (maximumConcurrentSseStreams tr)) "SSE admission is saturated." ++
          alert (num_less (NInt 0) (s_overloadRejectionsTotal m)) OVERLOAD_REJECTIONS false (s_overloadRejectionsTotal m) (NInt 0)
            "The service has rejected work under its fail-closed overload policy.")
  end.

(** ** Capacity evidence *)

Record CapacityRunMetadata : Type := {
  commit : jstr; buildId : jstr; hardware : jstr; processCount : jsnum; concurrency : jsnum; warm : bool;
  durationSeconds : jsnum; targetUrl : jstr;
}.
Record CapacityEvidence : Type := {
  generatedAt : jstr; policyProfile : jstr; metadata : CapacityRunMetadata; measurement : Measurement; evaluation : LaunchEvaluation;
}.

(** [new URL(text)]: protocol, host name and origin; it throws on other text. *)
Variable parse_url : jstr -> result (jstr * jstr * jstr).

Definition is_hex_any (c : N) : bool := is_digit c || in_range 97 102 c || in_range 65 70 c.
(** [/^[a-f0-9]{7,64}$/i] *)
Definition commit_pattern (s : jstr) : bool := (7 <=? length s)%nat && (length s <=? 64)%nat && forallb is_hex_any s.
(** [/^[A-Za-z0-9][A-Za-z0-9._-]{0,63}$/] *)
Definition build_pattern (s : jstr) : bool :=
  match s with
  | [] => false
  | c :: r => is_alnum c && (length r <=? 63)%nat && forallb (fun c => is_alnum c || (c =? 46)%N || (c =? 95)%N || (c =? 45)%N) r
  end.

Definition LOOPBACK : list jstr := [js "127.0.0.1"; js "localhost"; js "::1"].

Definition positive_count (name : jstr) (n : jsnum) : result Z :=
  match safe_between n 1 MAX_SAFE_INTEGER with
  | Some z => Ok z
  | None => Throw ("capacity evidence " +:+ name +:+ " must be a positive integer")
  end.

(** The checked concurrency and duration, and the metadata with the target's origin. *)
Definition boundedMetadata (m : CapacityRunMetadata) : result (Z * Z * CapacityRunMetadata) :=
  throw_if (negb (commit_pattern (commit m))) "capacity evidence requires an explicit commit hash" ≫= fun _ =>
  throw_if (negb (build_pattern (buildId m))) "capacity evidence buildId is invalid" ≫= fun _ =>
  throw_if ((length (hardware m) <? 1)%nat || (256 <? length (hardware m))%nat)
    "capacity evidence hardware must be 1-256 characters" ≫= fun _ =>
  positive_count "processCount" (processCount m) ≫= fun _ =>
  positive_count "concurrency" (concurrency m) ≫= fun c =>
  positive_count "durationSeconds" (durationSeconds m) ≫= fun d =>
  parse_url (targetUrl m) ≫= fun '(protocol, hostname, origin) =>
  throw_if (negb (protocol =s? "http:") || negb (includes LOOPBACK hostname)) "capacity gate target must be loopback HTTP" ≫= fun _ =>
  Ok (c, d, {| commit := commit m; buildId := buildId m; hardware := hardware m; processCount := processCount m;
               concurrency := concurrency m; warm := warm m; durationSeconds := durationSeconds m; targetUrl := origin |}).

Definition buildCapacityEvidence (policy : LaunchPolicy) (m : CapacityRunMetadata) (measured : Measurement)
    (generatedAt : option jstr) (clock : Date) : result CapacityEvidence :=
  boundedMetadata m ≫= fun '(c, d, metadata) =>
  throw_if (maximumConcurrentRequests (traffic policy) <? c) "declared concurrency exceeds the controlled-demo policy" ≫= fun _ =>
  throw_if (d <? measurementWindowSeconds (reliability policy)) "capacity run is shorter than the policy measurement window" ≫= fun _ =>
  (match generatedAt with Some s => Ok s | None => toISOString clock end) ≫= fun at_ =>
  evaluateMeasurement policy measured ≫= fun verdict =>
  Ok {| generatedAt := at_; policyProfile := profile policy; metadata := metadata; measurement := measured; evaluation := verdict |}.
End alerts.

(** ** Runs *)

Inductive telemetry_op : Type :=
| OpReadiness (r : Readiness) | OpEnter | OpRelease (n : nat) | OpEnterSse | OpReleaseSse (n : nat)
| OpRecord (c : RequestClass) (o : RequestOutcome) (d : jsnum) | OpFailure.

Definition run_op (o : telemetry_op) (t : ServiceTelemetry) : ServiceTelemetry :=
  match o with
  | OpReadiness r => (setReadiness r t).2
  | OpEnter => (enterRequest t).2
  | OpRelease n => (releaseRequest n t).2
  | OpEnterSse => (enterSse t).2
  | OpReleaseSse n => (releaseSse n t).2
  | OpRecord c o d => (recordRequest c o d t).2
  | OpFailure => (recordDependencyFailure t).2
  end.
Definition run_ops (l : list telemetry_op) (t : ServiceTelemetry) : ServiceTelemetry := foldl (fun t o => run_op o t) t l.

(** The admissions whose [release] has not run. *)
Definition outstanding (l : list bool) : Z := Z.of_nat (length (List.filter negb l)).

Record slots_ok (maximum : Z) (s : Slots) : Prop := {
  so_current : current s = outstanding (released s);
  so_peak : current s <= peak s <= maximum;
}.

Definition counter_ok (z : Z) : Prop := 0 <= z <= MAX_SAFE_INTEGER.
Definition samples_ok (l : list jsnum) : Prop := (length l <= MAX_SAMPLES)%nat /\ Forall (fun n => hour_bounded n = true) l.

Record telemetry_ok (policy : LaunchPolicy) (start : Z) (t : ServiceTelemetry) : Prop := {
  to_policy : t_policy t = policy /\ t_windowStartedAt t = start;
  to_counters : Forall counter_ok [requestsTotal t; successfulRequestsTotal t; clientErrorsTotal t; serverErrorsTotal t;
    overloadRejectionsTotal t; dependencyFailuresTotal t];
  to_success : successfulRequestsTotal t <= requestsTotal t;
  to_samples : samples_ok (readLatencies t) /\ samples_ok (mutationLatencies t);
  to_requests : slots_ok (maximumConcurrentRequests (traffic policy)) (requests t);
  to_sse : slots_ok (maximumConcurrentSseStreams (traffic policy)) (sseStreams t);
}.

Lemma boundedCounter_ok z : counter_ok z -> boundedCounter z = Ok (Z.min (z + 1) MAX_SAFE_INTEGER).
Proof.
  unfold counter_ok, boundedCounter, safe_int. intros Hz. rewrite (proj2 (Z.leb_le _ _)), (proj2 (Z.ltb_ge _ _)) by lia. cbn.
  destruct (Z.eqb_spec z MAX_SAFE_INTEGER); f_equal; lia.
Qed.
Lemma counter_next z : counter_ok z -> counter_ok (Z.min (z + 1) MAX_SAFE_INTEGER).
Proof. unfold counter_ok. lia. Qed.

Lemma outstanding_app l b : outstanding (l ++ [b]) = outstanding l + (if b then 0 else 1).
Proof. unfold outstanding. rewrite List.filter_app, length_app. destruct b; cbn [List.filter negb length]; lia. Qed.

Lemma outstanding_free l n : l !! n = Some false -> outstanding (<[n := true]> l) = outstanding l - 1 /\ 1 <= outstanding l.
Proof.
  unfold outstanding. revert n. induction l as [|b l IH]; intros [|n]; try done.
  - intros [= ->]. change (<[0%nat := true]> (false :: l)) with (true :: l). cbn [List.filter negb length]. lia.
  - intros [E1 E2]%IH. change (<[S n := true]> (b :: l)) with (b :: <[n := true]> l).
    destruct b; cbn [List.filter negb length]; [done|]. split; lia.
Qed.

Lemma take_slot_ok maximum s : slots_ok maximum s -> current s < maximum -> slots_ok maximum (take_slot s).
Proof. intros [Hc Hp] Hlt. split; cbn; [rewrite outstanding_app, Hc|]; lia. Qed.

Lemma free_slot_ok maximum n s : slots_ok maximum s -> slots_ok maximum (free_slot n s).
Proof.
  intros [Hc Hp]. unfold free_slot. destruct (released s !! n) as [[]|] eqn:E; [by split| |by split].
  destruct (outstanding_free _ _ E) as [E1 E2]. split; cbn; [rewrite E1|]; lia.
Qed.

Lemma push_sample_ok d l : hour_bounded d = true -> samples_ok l -> samples_ok (push_sample d l).
Proof.
  intros Hd [Hl Hf]. unfold push_sample, samples_ok. rewrite length_app, Forall_app. cbn [length].
  destruct (Nat.eqb_spec (length l) MAX_SAMPLES) as [E|E].
  - destruct l as [|x l]; cbn in *; [done|]. apply Forall_cons in Hf as [_ Hf]. split; [lia|]. by repeat constructor.
  - split; [lia|]. by repeat constructor.
Qed.

Lemma empty_slots_ok maximum : 0 <= maximum -> slots_ok maximum empty_slots.
Proof. intros H. split; cbn; [done|lia]. Qed.

Lemma reject_ok policy start : keeps (telemetry_ok policy start) reject.
Proof.
  intros t [Hp Hc Hs Hl Hr He]. pose proof Hc as Hall. rewrite !Forall_cons in Hall. destruct Hall as (H1 & H2 & H3 & H4 & H5 & H6 & _).
  unfold reject. cbv [mbind St_bind sget lift smodify mret St_ret]. rewrite !boundedCounter_ok by done. cbn.
  split; cbn; try done; [|unfold counter_ok in *; lia]. repeat apply Forall_cons_2; try apply Forall_nil_2; try done; by apply counter_next.
Qed.

Lemma admitted_ok policy start t r s :
  telemetry_ok policy start t -> slots_ok (maximumConcurrentRequests (traffic policy)) r ->
  slots_ok (maximumConcurrentSseStreams (traffic policy)) s -> telemetry_ok policy start (set_slots r s t).
Proof. intros [Hp Hc Hs Hl _ _] Hr He. by split. Qed.

Lemma record_ok policy start c o d : keeps (telemetry_ok policy start) (recordRequest c o d).
Proof.
  intros t Ht. unfold recordRequest. cbv [mbind St_bind sget lift smodify mret St_ret throw_if].
  destruct (hour_bounded d) eqn:Hd; cbn [negb]; [|exact Ht]. destruct Ht as [Hp Hc Hs [Hl Hm] Hr He].
  pose proof Hc as Hall. rewrite !Forall_cons in Hall. destruct Hall as (H1 & H2 & H3 & H4 & H5 & H6 & _).
  rewrite !boundedCounter_ok by done.
  destruct o; cbn; destruct c; (split; cbn; [done| | | |done|done]);
    try (by repeat (apply Forall_cons_2; [first [done|by apply counter_next]|]); apply Forall_nil_2);
    try (unfold counter_ok in *; lia); split; try done; by apply push_sample_ok.
Qed.

Lemma failure_ok policy start : keeps (telemetry_ok policy start) recordDependencyFailure.
Proof.
  intros t [Hp Hc Hs Hl Hr He]. pose proof Hc as Hall. rewrite !Forall_cons in Hall. destruct Hall as (H1 & H2 & H3 & H4 & H5 & H6 & _).
  unfold recordDependencyFailure. cbv [mbind St_bind sget lift smodify mret St_ret]. rewrite boundedCounter_ok by done. cbn.
  split; cbn; try done. repeat (apply Forall_cons_2; [first [done|by apply counter_next]|]). apply Forall_nil_2.
Qed.

Lemma run_op_ok policy start o t : telemetry_ok policy start t -> telemetry_ok policy start (run_op o t).
Proof.
  intros Ht. destruct (to_policy _ _ _ Ht) as [Ep _]. destruct o as [r| |n| |n|c out d|]; cbn [run_op].
  - by destruct Ht; split.
  - unfold enterRequest. cbv [mbind St_bind sget]. rewrite Ep. case_match eqn:E; [by apply reject_ok|]. apply Z.leb_gt in E.
    apply admitted_ok; [done|apply take_slot_ok; [apply Ht|done]|apply Ht].
  - apply admitted_ok; [done|apply free_slot_ok, Ht|apply Ht].
  - unfold enterSse. cbv [mbind St_bind sget]. rewrite Ep. case_match eqn:E; [by apply reject_ok|]. apply Z.leb_gt in E.
    apply admitted_ok; [done|apply Ht|apply take_slot_ok; [apply Ht|done]].
  - apply admitted_ok; [done|apply Ht|apply free_slot_ok, Ht].
  - by apply record_ok.
  - by apply failure_ok.
Qed.

Lemma run_ops_ok policy start l t : telemetry_ok policy start t -> telemetry_ok policy start (run_ops l t).
Proof. revert t. induction l as [|o l IH]; intros t Ht; [done|]. apply IH. by apply run_op_ok. Qed.

Lemma telemetry_constructor_ok policy start t : well_formed policy -> constructor policy (Some start) = Ok t -> telemetry_ok policy start t.
Proof.
  intros Hw [= <-]. destruct (wf_traffic _ Hw) as (_ & _ & H1 & H2 & _). unfold bounded_by in *.
  split; cbn; try done; try (apply empty_slots_ok; lia).
  - repeat (apply Forall_cons_2; [by split|]). apply Forall_nil_2.
  - split; split; cbn; try apply Forall_nil_2; unfold MAX_SAMPLES; lia.
Qed.

(** ** The percentile *)

Lemma insert_num_perm n l : insert_num n l ≡ₚ n :: l.
Proof. induction l as [|m l IH]; cbn; [done|]. destruct (num_less m n); [|done]. rewrite IH. by apply Permutation_swap. Qed.
Lemma sort_nums_perm l : sort_nums l ≡ₚ l.
Proof. induction l as [|n l IH]; cbn; [done|]. by rewrite insert_num_perm, IH. Qed.

(** Up to a full window the rank computed in doubles is ⌈19 n / 20⌉. *)
Lemma rank95_exact n : 1 <= n <= Z.of_nat MAX_SAMPLES -> rank95 n = (19 * n + 19) / 20.
Proof.
  intros Hn. assert (Hall : forallb (fun n => rank95 (Z.of_nat n) =? (19 * Z.of_nat n + 19) / 20) (seq 1 MAX_SAMPLES) = true)
    by (vm_compute; reflexivity).
  rewrite forallb_forall in Hall. specialize (Hall (Z.to_nat n)). rewrite Z2Nat.id in Hall by lia. apply Z.eqb_eq, Hall, in_seq. lia.
Qed.

Lemma percentile95_member l : l <> [] -> samples_ok l ->
  exists p, percentile95 l = Ok p /\ hour_bounded p = true.
Proof.
  intros Hne [Hlen Hf]. unfold percentile95. destruct l as [|x l']; [done|]. set (l := x :: l') in *. cbn [length Nat.eqb throw_if mbind result_bind].
  assert (Hok : existsb (fun n => negb (finite n) || num_less n (NInt 0)) l = false).
  { apply existsb_false_Forall. eapply Forall_impl; [exact Hf|]. cbn. intros n Hn. unfold hour_bounded in Hn.
    rewrite !andb_true_iff, negb_true_iff in Hn. destruct Hn as [[-> ->] _]. done. }
  change (length l =? 0)%nat with false. cbn [throw_if mbind result_bind]. rewrite Hok. cbn [throw_if mbind result_bind]. eexists. split; [reflexivity|].
  assert (Hpos : 1 <= Z.of_nat (length l) <= Z.of_nat MAX_SAMPLES) by (cbn [l length] in *; lia).
  rewrite (rank95_exact _ Hpos). set (i := Z.to_nat _).
  assert (Hi : (i < length (sort_nums l))%nat).
  { rewrite (Permutation_length (sort_nums_perm l)). subst i. assert ((19 * Z.of_nat (length l) + 19) / 20 <= Z.of_nat (length l)) by div_lia. lia. }
  assert (Hs : Forall (fun n => hour_bounded n = true) (sort_nums l)) by (by rewrite sort_nums_perm).
  rewrite Forall_forall in Hs. apply Hs. apply list_elem_of_In, nth_In. exact Hi.
Qed.

Lemma p95_ok l : samples_ok l -> exists p, p95_of l = Ok p /\ hour_bounded p = true.
Proof.
  intros Hl. unfold p95_of. destruct (Nat.eqb_spec (length l) 0) as [E|E]; [by exists (NInt 0)|].
  apply percentile95_member; [|done]. intros ->. done.
Qed.

Lemma counter_count z : counter_ok z -> safe_count (NInt z) = true.
Proof. unfold counter_ok, safe_count, safe_int. intros Hz. rewrite !(proj2 (Z.leb_le _ _)) by lia. done. Qed.

Lemma outstanding_nonneg l : 0 <= outstanding l.
Proof. unfold outstanding. lia. Qed.

(** ** The snapshot of any run is one the alerts accept *)

(** A decision that turns the caller away. *)
Definition refused (r : result AdmissionDecision) : Prop :=
  match r with Ok (rejected _ _) => True | _ => False end.

Section accepted.
Context `{Host}.

Definition raised (c : AlertCode) (l : list ServiceAlert) : Prop := In c (map code l).

Lemma raised_app c l1 l2 : raised c (l1 ++ l2) <-> raised c l1 \/ raised c l2.
Proof. unfold raised. rewrite map_app. apply in_app_iff. Qed.
Lemma raised_alert c b c' crit v th text : raised c (alert b c' crit v th text) <-> b = true /\ c' = c.
Proof. unfold raised, alert. destruct b; cbn; naive_solver. Qed.

Lemma window_raises c policy m elapsed :
  c <> INSUFFICIENT_WINDOW -> c <> SUCCESS_RATIO_BREACH -> ~ raised c (window_alerts policy m elapsed).
Proof. intros H1 H2. unfold window_alerts. case_match; rewrite raised_alert; naive_solver. Qed.

Lemma evaluates policy m started generated :
  s_schemaVersion m = SERVICE_METRICS_VERSION -> metrics_valid m = Some (started, generated) ->
  exists alerts, evaluateServiceAlerts policy m = Ok alerts /\
    (raised REQUEST_SATURATION alerts <-> num_less (s_currentRequests m) (NInt (maximumConcurrentRequests (traffic policy))) = false) /\
    (raised SSE_SATURATION alerts <-> num_less (s_currentSseStreams m) (NInt (maximumConcurrentSseStreams (traffic policy))) = false).
Proof.
  intros E1 E2. unfold evaluateServiceAlerts. rewrite E1, jeqb_of_eq, E2 by done. cbn [negb throw_if mbind result_bind].
  eexists. split; [reflexivity|]. split.
  all: assert (Hwin := fun c => window_raises c policy m (generated - started)).
  all: repeat setoid_rewrite raised_app; rewrite !raised_alert, !negb_true_iff.
  - split; [|intros E; repeat first [by left|right]]. intros [[_ ?]|[?|[[_ ?]|[[_ ?]|[[? _]|[[_ ?]|[_ ?]]]]]]]; try done. by apply Hwin in H0.
  - split; [|intros E; repeat first [by left|right]]. intros [[_ ?]|[?|[[_ ?]|[[_ ?]|[[_ ?]|[[? _]|[_ ?]]]]]]]; try done. by apply Hwin in H0.
Qed.

Lemma snapshot_valid policy start now t :
  well_formed policy -> telemetry_ok policy start t -> Z.abs start <= MAX_TIME -> Z.abs now <= MAX_TIME -> start <= now ->
  exists m, snapshot (Some now) t = Ok m /\ s_schemaVersion m = SERVICE_METRICS_VERSION /\ metrics_valid m = Some (start, now) /\
    s_currentRequests m = NInt (current (requests t)) /\ s_currentSseStreams m = NInt (current (sseStreams t)).
Proof.
  intros Hw [[Hp Hst] Hc Hs [Hrl Hml] [Hr1 Hr2] [He1 He2]] Hs1 Hn Hle.
  destruct (p95_ok _ Hrl) as (rp & Er & Hrp), (p95_ok _ Hml) as (mp & Em & Hmp).
  rewrite !Forall_cons in Hc. destruct Hc as (H1 & H2 & H3 & H4 & H5 & H6 & _).
  destruct (wf_traffic _ Hw) as (_ & _ & B1 & B2 & _). unfold bounded_by, MAXIMUM in B1, B2.
  pose proof (outstanding_nonneg (released (requests t))). pose proof (outstanding_nonneg (released (sseStreams t))).
  unfold snapshot. rewrite Hst. cbn [toISOString bool_decide decide decide_rel throw_if mbind result_bind].
  rewrite Er, Em. cbn [mbind result_bind]. eexists. split; [reflexivity|]. split; [done|]. split; [|done].
  unfold metrics_valid. cbn [s_windowStartedAt s_generatedAt]. rewrite !date_parse_iso_string by done.
  rewrite (proj2 (Z.ltb_ge _ _)) by done. cbn [orb].
  cbn [s_requestsTotal s_successfulRequestsTotal s_clientErrorsTotal s_serverErrorsTotal s_overloadRejectionsTotal
       s_dependencyFailuresTotal s_currentRequests s_peakRequests s_currentSseStreams s_peakSseStreams s_readLatency
       s_mutationLatency s_readP95 s_mutationP95 s_ready s_readiness forallb existsb].
  rewrite (counter_count _ H1), (counter_count _ H2), (counter_count _ H3), (counter_count _ H4), (counter_count _ H5), (counter_count _ H6).
  rewrite !counter_count by (unfold counter_ok, MAX_SAFE_INTEGER, samples_ok, MAX_SAMPLES in *; lia).
  rewrite Hrp, Hmp, Bool.eqb_reflx. cbn [num_less negb andb orb].
  rewrite !(proj2 (Z.ltb_ge _ _)) by (unfold samples_ok in *; lia). reflexivity.
Qed.

Lemma next_refused policy start t : telemetry_ok policy start t ->
  (refused (enterRequest t).1 <-> maximumConcurrentRequests (traffic policy) <= current (requests t)) /\
  (refused (enterSse t).1 <-> maximumConcurrentSseStreams (traffic policy) <= current (sseStreams t)).
Proof.
  intros Ht. destruct (to_policy _ _ _ Ht) as [Ep _]. pose proof (to_counters _ _ _ Ht) as Hc.
  rewrite !Forall_cons in Hc. destruct Hc as (H1 & _ & _ & _ & H5 & _ & _).
  unfold enterRequest, enterSse. cbv [mbind St_bind sget]. rewrite Ep.
  assert (Hrej : refused (reject t).1).
  { unfold reject. cbv [mbind St_bind sget lift smodify mret St_ret]. rewrite !boundedCounter_ok by done. done. }
  split; destruct (Z.leb_spec (maximumConcurrentRequests (traffic policy)) (current (requests t)));
    destruct (Z.leb_spec (maximumConcurrentSseStreams (traffic policy)) (current (sseStreams t)));
    split; intros Hx; try done; cbn in Hx; try done; lia.
Qed.

(** C39: whatever requests, streams, releases (repeated ones included), samples
    and failures a service records, at most the policy's number of requests
    and of streams is admitted at once and counted, exactly the admissions
    whose release has not run; the snapshot taken at any later time is
    produced, the alert evaluation accepts it, and it raises the saturation
    alert of a kind exactly when the next caller of that kind is turned away. *)
Theorem telemetry_metrics_accepted policy start now t0 ops :
  well_formed policy -> constructor policy (Some start) = Ok t0 ->
  Z.abs start <= MAX_TIME -> Z.abs now <= MAX_TIME -> start <= now ->
  let t := run_ops ops t0 in
  current (requests t) = outstanding (released (requests t)) /\
  current (sseStreams t) = outstanding (released (sseStreams t)) /\
  current (requests t) <= peak (requests t) <= maximumConcurrentRequests (traffic policy) /\
  current (sseStreams t) <= peak (sseStreams t) <= maximumConcurrentSseStreams (traffic policy) /\
  exists m alerts, snapshot (Some now) t = Ok m /\ evaluateServiceAlerts policy m = Ok alerts /\
    (raised REQUEST_SATURATION alerts <-> refused (enterRequest t).1) /\
    (raised SSE_SATURATION alerts <-> refused (enterSse t).1).
Proof.
  intros Hw Hc Hs Hn Hle t. pose proof (run_ops_ok policy start ops t0 (telemetry_constructor_ok _ _ _ Hw Hc)) as Ht. fold t in Ht.
  destruct (snapshot_valid _ _ _ _ Hw Ht Hs Hn Hle) as (m & Em & Ev & Emv & Ec & Ecs).
  destruct (evaluates policy m _ _ Ev Emv) as (alerts & Ea & Hr & Hss). destruct (next_refused _ _ _ Ht) as [Nr Ns].
  split; [apply Ht|]. split; [apply Ht|]. split; [apply Ht|]. split; [apply Ht|].
  exists m, alerts. split; [done|]. split; [done|]. rewrite Hr, Hss, Nr, Ns, Ec, Ecs. cbn [num_less]. by rewrite !Z.ltb_ge.
Qed.
End accepted.

(** ** A run that fills and releases the slots *)

Definition small_policy : LaunchPolicy := {|
  profile := profile controlled_demo; scope := scope controlled_demo;
  traffic := {| sustainedRequestsPerSecond := 1; burstRequestsPerSecond := 2; maximumConcurrentRequests := 2;
                maximumConcurrentSseStreams := 1; overloadStatus := 503; retryAfterSeconds := 5 |};
  latencyMilliseconds := latencyMilliseconds controlled_demo; reliability := reliability controlled_demo;
  dependencyTimeoutMilliseconds := dependencyTimeoutMilliseconds controlled_demo;
|}.
Definition busy_run : list telemetry_op :=
  [OpEnter; OpEnter; OpEnter; OpEnterSse; OpRelease 0; OpRelease 0; OpEnter; OpRecord read success (NInt 12);
   OpRecord mutation server_error (NFrac 25 2); OpRecord read overload NNaN; OpFailure].

Definition opened_window : ServiceTelemetry := {|
  t_policy := small_policy; t_windowStartedAt := 1000; readLatencies := []; mutationLatencies := []; requestsTotal := 0;
  successfulRequestsTotal := 0; clientErrorsTotal := 0; serverErrorsTotal := 0; overloadRejectionsTotal := 0;
  dependencyFailuresTotal := 0; requests := empty_slots; sseStreams := empty_slots;
  t_readiness := {| r_database := false; r_identityProvider := false; r_auditCustody := false; r_partnerTransport := false |};
|}.
Definition busy : ServiceTelemetry := Eval vm_compute in run_ops busy_run opened_window.

Lemma telemetry_metrics_accepted_witness :
  constructor small_policy (Some 1000) = Ok opened_window /\
  current (requests busy) = 2 /\ overloadRejectionsTotal busy = 1 /\
  exists m alerts, snapshot (Some 61000) (run_ops busy_run opened_window) = Ok m /\
    @evaluateServiceAlerts test_host small_policy m = Ok alerts /\
    (raised REQUEST_SATURATION alerts <-> refused (enterRequest (run_ops busy_run opened_window)).1).
Proof.
  split; [reflexivity|]. split; [reflexivity|]. split; [reflexivity|].
  destruct (@telemetry_metrics_accepted test_host small_policy 1000 61000 opened_window busy_run) as (_ & _ & _ & _ & m & alerts & H1 & H2 & H3 & _).
  - apply (parsed_well_formed (policy_json small_policy)). vm_compute. reflexivity.
  - reflexivity.
  - vm_compute. discriminate.
  - vm_compute. discriminate.
  - lia.
  - exists m, alerts. exact (conj H1 (conj H2 H3)).
Defined.
