(* ===== verification/PostgresStore.v ===== *)
(** PostgresStore: packages/storage/postgresStore.ts and postgresMigrations.ts.
    A call is the sequence of SQL statements it sends; a statement answers,
    fails or waits for a row another transaction has locked.  The statements of
    concurrent transactions interleave, each seeing the committed rows and its
    own writes (READ COMMITTED).  Everything said about a single statement is
    SQL of the source; how the server stores parameters is a parameter. *)
From stdpp Require Import relations gmap.
From S2P Require Import Prelude JsString JsMap Host JsTime JsJson JsParse DurableStore.
#[local] Open Scope string_scope.
#[local] Open Scope list_scope.
#[local] Open Scope Z_scope.
#[local] Open Scope js_scope.

(** ** Rows *)

Record StateRow : Type := { sr_status : jstr; sr_version : Z; sr_record : jsval; sr_updated : Z }.

Record IdemRow : Type := { ir_hash : jstr; ir_response : jsval; ir_created : Z }.

Record EventRow : Type := {
  er_tenant : jstr; er_id : jstr; er_key : jstr; er_topic : jstr; er_aggregate : jstr; er_payload : jsval;
  er_created : Z; er_available : Z; er_attempts : Z;
  er_claimed_by : option jstr; er_claimed_until : option Z; er_delivered : option Z;
}.

Record CapRow : Type := { cr_cap : Z; cr_reserved : Z }.

Record ReservationRow : Type := {
  rr_token : jstr; rr_date : jstr; rr_amount : Z; rr_released : bool; rr_created : Z; rr_released_at : option Z;
}.

(** Rows under their primary keys. *)
Abbreviation Key := (list jstr).
Record Database : Type := {
  tenant_state : gmap Key StateRow;
  idempotency : gmap Key IdemRow;
  outbox : gmap Key EventRow;
  daily_caps : gmap Key CapRow;
  cap_reservations : gmap Key ReservationRow;
  migrations : gmap Key Z;
}.
Definition empty_database : Database :=
  {| tenant_state := ∅; idempotency := ∅; outbox := ∅; daily_caps := ∅; cap_reservations := ∅; migrations := ∅ |}.

(** The rows of [w] over those of [d]. *)
Definition over (w d : Database) : Database :=
  {| tenant_state := tenant_state w ∪ tenant_state d; idempotency := idempotency w ∪ idempotency d;
     outbox := outbox w ∪ outbox d; daily_caps := daily_caps w ∪ daily_caps d;
     cap_reservations := cap_reservations w ∪ cap_reservations d; migrations := migrations w ∪ migrations d |}.

Definition put_state k r (d : Database) : Database :=
  {| tenant_state := <[k := r]> (tenant_state d); idempotency := idempotency d; outbox := outbox d;
     daily_caps := daily_caps d; cap_reservations := cap_reservations d; migrations := migrations d |}.
Definition put_idem k r (d : Database) : Database :=
  {| tenant_state := tenant_state d; idempotency := <[k := r]> (idempotency d); outbox := outbox d;
     daily_caps := daily_caps d; cap_reservations := cap_reservations d; migrations := migrations d |}.
Definition put_outbox rows (d : Database) : Database :=
  {| tenant_state := tenant_state d; idempotency := idempotency d; outbox := rows ∪ outbox d;
     daily_caps := daily_caps d; cap_reservations := cap_reservations d; migrations := migrations d |}.
Definition put_cap k r (d : Database) : Database :=
  {| tenant_state := tenant_state d; idempotency := idempotency d; outbox := outbox d;
     daily_caps := <[k := r]> (daily_caps d); cap_reservations := cap_reservations d; migrations := migrations d |}.
Definition put_reservation k r (d : Database) : Database :=
  {| tenant_state := tenant_state d; idempotency := idempotency d; outbox := outbox d;
     daily_caps := daily_caps d; cap_reservations := <[k := r]> (cap_reservations d); migrations := migrations d |}.
Definition put_migration k r (d : Database) : Database :=
  {| tenant_state := tenant_state d; idempotency := idempotency d; outbox := outbox d;
     daily_caps := daily_caps d; cap_reservations := cap_reservations d; migrations := <[k := r]> (migrations d) |}.

(** A lock names a table, or the advisory locks, and a key. *)
Definition Lock : Type := N * Key.
Definition lock_advisory (s : jstr) : Lock := (0%N, [s]).
Definition lock_state (k : Key) : Lock := (1%N, k).
Definition lock_idem (k : Key) : Lock := (2%N, k).
Definition lock_event (k : Key) : Lock := (3%N, k).
Definition lock_event_key (k : Key) : Lock := (4%N, k).
Definition lock_cap (k : Key) : Lock := (5%N, k).
Definition lock_reservation (k : Key) : Lock := (6%N, k).
Definition lock_migration (k : Key) : Lock := (7%N, k).

(** A transaction: its writes, the locks it holds until it ends, and whether a
    statement of it has failed. *)
Record Session : Type := { writes : Database; locks : gset Lock; failed : bool }.
Definition new_session : Session := {| writes := empty_database; locks := ∅; failed := false |}.

(** ** The server and its driver *)

(** What a parameter becomes in a column of each type, as it is read back; and
    the order in which an [UPDATE ... FROM ... RETURNING] lists its rows. *)
Class Postgres := {
  text : jstr -> result jstr;
  jsonb : jstr -> result jsval;
  timestamptz : Date -> result Z;
  date : jstr -> result jstr;
  uuid : jstr -> result jstr;
  returning : list EventRow -> list EventRow;
}.

(** A value read from a column is stored unchanged, only a valid date is stored
    in a timestamp, to the millisecond, and the rows returned are those updated. *)
Class PostgresLaws (Q : Postgres) := {
  text_again s t : text s = Ok t -> text t = Ok t;
  date_again s t : date s = Ok t -> date t = Ok t;
  timestamptz_exact d z : timestamptz d = Ok z -> d = Some z;
  returning_all l : returning l ≡ₚ l;
}.

Definition INT8_MAX : Z := 9223372036854775807.
Definition INT4_MAX : Z := 2147483647.
Definition int8 (z : Z) : result Z := if z <=? INT8_MAX then Ok z else Throw "bigint out of range".
Definition int4 (z : Z) : result Z := if z <=? INT4_MAX then Ok z else Throw "integer out of range".

(** ** Statements *)

(** The SQL statements of the source, each with its parameters. *)
Inductive stmt : Type -> Type :=
| AdvisoryLock (key : jstr) : stmt unit
| CreateMigrations : stmt unit
| SelectMigration (version : Z) : stmt bool
| ApplyMigration (version : Z) : stmt unit
| InsertMigration (version : Z) (applied : Date) : stmt unit
| SelectState (tenantId aggregateId : jstr) : stmt (option StateRow)
| InsertState (tenantId aggregateId status : jstr) (json : option jstr) (now : Date) : stmt StateRow
| UpdateState (nextStatus : jstr) (json : option jstr) (now : Date) (tenantId aggregateId : jstr)
    (expectedVersion : Z) (expectedStatus : jstr) : stmt (option StateRow)
| SelectIdempotency (tenantId scope key : jstr) : stmt (option IdemRow)
| InsertIdempotency (tenantId scope key requestHash : jstr) (json : option jstr) (now : Date) : stmt unit
| InsertEvent (tenantId eventId eventKey topic aggregateId payload : jstr) (now : Date) : stmt EventRow
| ClaimEvents (tenantId : jstr) (now : Date) (limit : Z) (workerId : jstr) (claimedUntil : Date) : stmt (list EventRow)
| DeliverEvent (now : Date) (tenantId eventId workerId : jstr) : stmt Z
| SelectReservation (tenantId reservationId : jstr) (forUpdate : bool) : stmt (option ReservationRow)
| UpsertCap (tenantId tokenId spendDate : jstr) (cap amount : Z) : stmt (option CapRow)
| InsertReservation (tenantId reservationId tokenId spendDate : jstr) (amount : Z) (now : Date) : stmt unit
| SubtractCap (amount : Z) (tenantId tokenId spendDate : jstr) : stmt unit
| ReleaseReservation (now : Date) (tenantId reservationId : jstr) : stmt unit
| SelectCap (tenantId tokenId spendDate : jstr) : stmt (option CapRow).

(** What a statement does: it waits for a lock of another transaction, fails,
    or answers with further writes and locks. *)
Inductive outcome (B : Type) : Type :=
| Waits
| Fails (msg : jstr)
| Answers (b : B) (w : Database) (ls : list Lock).
Arguments Waits {B}.
Arguments Fails {B} msg.
Arguments Answers {B} b w ls.

Definition bound {A B : Type} (r : result A) (k : A -> outcome B) : outcome B :=
  match r with Ok a => k a | Throw e => Fails e end.
(** A lock must not be another's. *)
Definition acquire {B : Type} (others : gset Lock) (l : Lock) (next : outcome B) : outcome B :=
  if decide (l ∈ others) then Waits else next.
Definition constraint {B : Type} (b : bool) (name : jstr) (next : outcome B) : outcome B :=
  if b then next else Fails name.

Definition has {V : Type} (m : gmap Key V) (k : Key) : bool := bool_decide (is_Some (m !! k)).

Definition swapped_row (status : jstr) (record : jsval) (at_ : Z) (r : StateRow) : StateRow :=
  {| sr_status := status; sr_version := sr_version r + 1; sr_record := record; sr_updated := at_ |}.

(** [delivered_at IS NULL AND available_at <= $2 AND (claimed_until IS NULL OR claimed_until <= $2)] *)
Definition claimable (tenant : jstr) (now : Z) (r : EventRow) : bool :=
  bool_decide (er_tenant r = tenant) && bool_decide (er_delivered r = None) && (er_available r <=? now) &&
  match er_claimed_until r with None => true | Some u => u <=? now end.

(** [ORDER BY created_at, event_id]; canonical UUID texts order as UUIDs do. *)
Definition event_le (a b : EventRow) : bool :=
  if er_created a =? er_created b then jstr_le (er_id a) (er_id b) else er_created a <? er_created b.
Fixpoint insert_event (r : EventRow) (l : list EventRow) : list EventRow :=
  match l with
  | [] => [r]
  | q :: l => if event_le r q then r :: q :: l else q :: insert_event r l
  end.
Definition sort_events (l : list EventRow) : list EventRow := foldr insert_event [] l.

Definition event_key (r : EventRow) : Key := [er_tenant r; er_id r].

Definition claim_event (worker : jstr) (until : Z) (r : EventRow) : EventRow :=
  {| er_tenant := er_tenant r; er_id := er_id r; er_key := er_key r; er_topic := er_topic r; er_aggregate := er_aggregate r;
     er_payload := er_payload r; er_created := er_created r; er_available := er_available r;
     er_attempts := er_attempts r + 1; er_claimed_by := Some worker; er_claimed_until := Some until;
     er_delivered := er_delivered r |}.
Definition deliver_event (now : Z) (r : EventRow) : EventRow :=
  {| er_tenant := er_tenant r; er_id := er_id r; er_key := er_key r; er_topic := er_topic r; er_aggregate := er_aggregate r;
     er_payload := er_payload r; er_created := er_created r; er_available := er_available r;
     er_attempts := er_attempts r; er_claimed_by := None; er_claimed_until := None; er_delivered := Some now |}.

(** [... ORDER BY ... FOR UPDATE SKIP LOCKED LIMIT $3] *)
Definition candidates (others : gset Lock) (tenant : jstr) (now : Z) (limit : nat) (rows : gmap Key EventRow) : list EventRow :=
  firstn limit (sort_events (List.filter (fun r => claimable tenant now r && bool_decide (lock_event (event_key r) ∉ others))
    (map_to_list rows).*2)).

Definition events_map (l : list EventRow) : gmap Key EventRow := list_to_map (map (fun r => (event_key r, r)) l).

Definition held_by (worker : jstr) (now : Z) (r : EventRow) : bool :=
  bool_decide (er_claimed_by r = Some worker) &&
  match er_claimed_until r with Some u => now <? u | None => false end && bool_decide (er_delivered r = None).

Definition set_reserved (n : Z) (r : CapRow) : CapRow := {| cr_cap := cr_cap r; cr_reserved := n |}.
Definition cap_check (r : CapRow) : bool := (0 <? cr_cap r) && (0 <=? cr_reserved r) && (cr_reserved r <=? cr_cap r).
Definition set_released (at_ : Z) (r : ReservationRow) : ReservationRow :=
  {| rr_token := rr_token r; rr_date := rr_date r; rr_amount := rr_amount r; rr_released := true;
     rr_created := rr_created r; rr_released_at := Some at_ |}.

Definition json_of (json : option jstr) : result jstr :=
  match json with Some s => Ok s | None => Throw "null value violates not-null constraint" end.

Section postgres.
Context `{Host, !Postgres}.

Definition MIGRATION_NAMES : list (Z * jstr) := [(1, js "tenant_state_idempotency_outbox_caps")].

(** One statement of a transaction that has written [w], over the committed
    rows [d], while other transactions hold the locks [others]. *)
Definition exec {B} (s : stmt B) (others : gset Lock) (d w : Database) : outcome B :=
  let v := over w d in
  match s in stmt B return outcome B with
  | AdvisoryLock key => bound (text key) (fun key => acquire others (lock_advisory key) (Answers tt w [lock_advisory key]))
  | CreateMigrations => Answers tt w []
  | SelectMigration version => Answers (has (migrations v) [decimal_Z version]) w []
  | ApplyMigration _ => Answers tt w []
  | InsertMigration version applied =>
      let k := [decimal_Z version] in
      bound (timestamptz applied) (fun at_ =>
      acquire others (lock_migration k) (
      constraint (negb (has (migrations v) k)) "duplicate key value violates unique constraint" (
      Answers tt (put_migration k at_ w) [lock_migration k])))
  | SelectState tenantId aggregateId =>
      bound (text tenantId) (fun t => bound (text aggregateId) (fun a => Answers (tenant_state v !! [t; a]) w []))
  | InsertState tenantId aggregateId status json now =>
      bound (text tenantId) (fun t => bound (text aggregateId) (fun a => bound (text status) (fun st =>
      bound (json_of json) (fun json => bound (jsonb json) (fun record => bound (timestamptz now) (fun at_ =>
      let k := [t; a] in
      let r := {| sr_status := st; sr_version := 0; sr_record := record; sr_updated := at_ |} in
      acquire others (lock_state k) (
      constraint (negb (has (tenant_state v) k)) "duplicate key value violates unique constraint" (
      Answers r (put_state k r w) [lock_state k]))))))))
  | UpdateState nextStatus json now tenantId aggregateId expectedVersion expectedStatus =>
      bound (text nextStatus) (fun ns => bound (json_of json) (fun json => bound (jsonb json) (fun record =>
      bound (timestamptz now) (fun at_ => bound (text tenantId) (fun t => bound (text aggregateId) (fun a =>
      bound (text expectedStatus) (fun es =>
      let k := [t; a] in
      match tenant_state v !! k with
      | Some r =>
          if (sr_version r =? expectedVersion) && (sr_status r =s? es) then
            acquire others (lock_state k) (
            bound (int8 (sr_version r + 1)) (fun _ =>
            Answers (Some (swapped_row ns record at_ r)) (put_state k (swapped_row ns record at_ r) w) [lock_state k]))
          else Answers None w []
      | None => Answers None w []
      end)))))))
  | SelectIdempotency tenantId scope key =>
      bound (text tenantId) (fun t => bound (text scope) (fun s => bound (text key) (fun k =>
      Answers (idempotency v !! [t; s; k]) w [])))
  | InsertIdempotency tenantId scope key requestHash json now =>
      bound (text tenantId) (fun t => bound (text scope) (fun s => bound (text key) (fun k => bound (text requestHash) (fun h =>
      bound (json_of json) (fun json => bound (jsonb json) (fun response => bound (timestamptz now) (fun at_ =>
      let k := [t; s; k] in
      acquire others (lock_idem k) (
      constraint (negb (has (idempotency v) k)) "duplicate key value violates unique constraint" (
      Answers tt (put_idem k {| ir_hash := h; ir_response := response; ir_created := at_ |} w) [lock_idem k])))))))))
  | InsertEvent tenantId eventId eventKey topic aggregateId payload now =>
      bound (text tenantId) (fun t => bound (uuid eventId) (fun id => bound (text eventKey) (fun ek => bound (text topic) (fun tp =>
      bound (text aggregateId) (fun a => bound (jsonb payload) (fun p => bound (timestamptz now) (fun at_ =>
      let r := {| er_tenant := t; er_id := id; er_key := ek; er_topic := tp; er_aggregate := a; er_payload := p;
                  er_created := at_; er_available := at_; er_attempts := 0; er_claimed_by := None;
                  er_claimed_until := None; er_delivered := None |} in
      acquire others (lock_event [t; id]) (acquire others (lock_event_key [t; ek]) (
      constraint (negb (has (outbox v) [t; id])) "duplicate key value violates unique constraint" (
      constraint (negb (existsb (fun q => bool_decide (er_tenant q = t) && bool_decide (er_key q = ek)) (map_to_list (outbox v)).*2))
        "duplicate key value violates unique constraint" (
      Answers r (put_outbox {[ [t; id] := r ]} w) [lock_event [t; id]; lock_event_key [t; ek]]))))))))))) 
  | ClaimEvents tenantId now limit workerId claimedUntil =>
      bound (text tenantId) (fun t => bound (timestamptz now) (fun at_ => bound (text workerId) (fun worker =>
      bound (timestamptz claimedUntil) (fun until =>
      let rows := candidates others t at_ (Z.to_nat limit) (outbox v) in
      bound (int4 (foldr Z.max 0 (map (fun r => er_attempts r + 1) rows))) (fun _ =>
      let claimed := map (claim_event worker until) rows in
      Answers (returning claimed) (put_outbox (events_map claimed) w) (map (fun r => lock_event (event_key r)) rows))))))
  | DeliverEvent now tenantId eventId workerId =>
      bound (timestamptz now) (fun at_ => bound (text tenantId) (fun t => bound (uuid eventId) (fun id => bound (text workerId) (fun worker =>
      let k := [t; id] in
      match outbox v !! k with
      | Some r =>
          if held_by worker at_ r then
            acquire others (lock_event k) (Answers 1 (put_outbox {[ k := deliver_event at_ r ]} w) [lock_event k])
          else Answers 0 w []
      | None => Answers 0 w []
      end))))
  | SelectReservation tenantId reservationId forUpdate =>
      bound (text tenantId) (fun t => bound (text reservationId) (fun id =>
      let k := [t; id] in
      match cap_reservations v !! k with
      | Some r =>
          if forUpdate then acquire others (lock_reservation k) (Answers (Some r) w [lock_reservation k]) else Answers (Some r) w []
      | None => Answers None w []
      end))
  | UpsertCap tenantId tokenId spendDate cap amount =>
      bound (text tenantId) (fun t => bound (text tokenId) (fun tk => bound (date spendDate) (fun d =>
      let k := [t; tk; d] in
      acquire others (lock_cap k) (
      match daily_caps v !! k with
      | Some r =>
          bound (int8 (cr_reserved r + amount)) (fun sum =>
          if (cr_cap r =? cap) && (sum <=? cr_cap r) then
            constraint (cap_check (set_reserved sum r)) "new row violates check constraint" (
            Answers (Some (set_reserved sum r)) (put_cap k (set_reserved sum r) w) [lock_cap k])
          else Answers None w [lock_cap k])
      | None =>
          let r := {| cr_cap := cap; cr_reserved := amount |} in
          constraint (cap_check r) "new row violates check constraint" (Answers (Some r) (put_cap k r w) [lock_cap k])
      end))))
  | InsertReservation tenantId reservationId tokenId spendDate amount now =>
      bound (text tenantId) (fun t => bound (text reservationId) (fun id => bound (text tokenId) (fun tk =>
      bound (date spendDate) (fun d => bound (timestamptz now) (fun at_ =>
      let k := [t; id] in
      acquire others (lock_reservation k) (
      constraint (negb (has (cap_reservations v) k)) "duplicate key value violates unique constraint" (
      constraint (has (daily_caps v) [t; tk; d]) "insert violates foreign key constraint" (
      constraint (0 <? amount) "new row violates check constraint" (
      Answers tt (put_reservation k {| rr_token := tk; rr_date := d; rr_amount := amount; rr_released := false;
                                       rr_created := at_; rr_released_at := None |} w) [lock_reservation k])))))))))
  | SubtractCap amount tenantId tokenId spendDate =>
      bound (text tenantId) (fun t => bound (text tokenId) (fun tk => bound (date spendDate) (fun d =>
      let k := [t; tk; d] in
      match daily_caps v !! k with
      | Some r =>
          acquire others (lock_cap k) (
          let r := set_reserved (cr_reserved r - amount) r in
          constraint (cap_check r) "new row violates check constraint" (Answers tt (put_cap k r w) [lock_cap k]))
      | None => Answers tt w []
      end)))
  | ReleaseReservation now tenantId reservationId =>
      bound (timestamptz now) (fun at_ => bound (text tenantId) (fun t => bound (text reservationId) (fun id =>
      let k := [t; id] in
      match cap_reservations v !! k with
      | Some r => acquire others (lock_reservation k) (Answers tt (put_reservation k (set_released at_ r) w) [lock_reservation k])
      | None => Answers tt w []
      end)))
  | SelectCap tenantId tokenId spendDate =>
      bound (text tenantId) (fun t => bound (text tokenId) (fun tk => bound (date spendDate) (fun d =>
      Answers (daily_caps v !! [t; tk; d]) w [])))
  end.

(** Outside of a failed transaction, which answers nothing but its end. *)
Definition answer {B} (s : stmt B) (others : gset Lock) (d : Database) (x : Session) : option (result B * Session) :=
  if failed x then Some (Throw "current transaction is aborted, commands ignored until end of transaction block", x)
  else match exec s others d (writes x) with
       | Waits => None
       | Fails e => Some (Throw e, {| writes := writes x; locks := locks x; failed := true |})
       | Answers b w ls => Some (Ok b, {| writes := w; locks := list_to_set ls ∪ locks x; failed := false |})
       end.

(** ** Asynchronous calls *)

(** A call between its statements: finished, or awaiting one. *)
Inductive prog (A : Type) : Type :=
| Done (r : result A)
| Query {B : Type} (s : stmt B) (k : result B -> prog A).
#[global] Arguments Done {A} r.
#[global] Arguments Query {A B} s k.

(** [try { ... }] around a call: the rest sees its exception. *)
Fixpoint attempt {A B} (p : prog A) (k : result A -> prog B) : prog B :=
  match p with
  | Done r => k r
  | Query s c => Query s (fun r => attempt (c r) k)
  end.
#[global] Instance prog_ret : MRet prog := fun A a => Done (Ok a).
#[global] Instance prog_bind : MBind prog := fun A B k p =>
  attempt p (fun r => match r with Ok a => k a | Throw e => Done (Throw e) end).
Definition query {B} (s : stmt B) : prog B := Query s Done.
Definition check {A} (r : result A) : prog A := Done r.

(** ** Helpers *)

Definition IDENTIFIER_LIMIT : nat := 256.

Definition assertIdentifier (value field : jstr) (maximum : nat) : result unit :=
  throw_if ((length (trim value) =? 0)%nat || (maximum <? length value)%nat) ("invalid PostgreSQL " +:+ field).
Definition assertDate (value : Date) (field : jstr) : result unit :=
  throw_if (bool_decide (value = None)) ("invalid PostgreSQL " +:+ field).
Definition safeInteger (value : Z) (field : jstr) : result Z :=
  if safe_int value then Ok value else Throw ("PostgreSQL " +:+ field +:+ " exceeds JavaScript safe integer range").
Definition iso (value : Z) : result jstr := toISOString (Some value).
Definition iso_opt (value : option Z) : result (option jstr) :=
  match value with Some t => iso t ≫= fun s => Ok (Some s) | None => Ok None end.

Definition record (row : StateRow) : result VersionedRecord :=
  safeInteger (sr_version row) "state version" ≫= fun v =>
  iso (sr_updated row) ≫= fun u =>
  Ok {| value := sr_record row; status := sr_status row; version := v; updatedAt := u |}.

Definition outbox_event (row : EventRow) : result OutboxEvent :=
  iso (er_created row) ≫= fun created =>
  iso (er_available row) ≫= fun available =>
  safeInteger (er_attempts row) "outbox attempts" ≫= fun n =>
  iso_opt (er_claimed_until row) ≫= fun until =>
  iso_opt (er_delivered row) ≫= fun delivered =>
  Ok {| eventId := er_id row; eventKey := er_key row; topic := er_topic row; aggregateId := er_aggregate row;
        payload := er_payload row; createdAt := created; availableAt := available; attempts := n;
        claimedBy := er_claimed_by row; claimedUntil := until; deliveredAt := delivered |}.

Record CapReservationResult : Type := {
  replayed : bool; cp_tenantId : jstr; reservationId : jstr; cp_tokenId : jstr; spendDate : jstr;
  cp_amountMinor : Z; reservedMinor : Z; capMinor : Z; cp_active : bool;
}.

(** ** Calls *)

(** [migrate]; the migrations' SQL creates the tables of [Database]. *)
Fixpoint apply_migrations (l : list (Z * jstr)) (e : Env) : prog unit :=
  match l with
  | [] => mret tt
  | (version, _) :: l =>
      query (SelectMigration version) ≫= fun exists_ : bool =>
      (if exists_ then mret tt
       else query (ApplyMigration version) ≫= fun _ => query (InsertMigration version (env_clock e (Z.to_nat version))) : prog unit) ≫= fun _ =>
      apply_migrations l e
  end.
Definition migrate (e : Env) : prog unit :=
  query (AdvisoryLock "contactless-airlock:postgres-migrations") ≫= fun _ =>
  query CreateMigrations ≫= fun _ =>
  apply_migrations MIGRATION_NAMES e.

Definition get (tenantId aggregateId : jstr) : prog (option VersionedRecord) :=
  check (assertIdentifier tenantId "tenant id" IDENTIFIER_LIMIT) ≫= fun _ =>
  check (assertIdentifier aggregateId "aggregate id" IDENTIFIER_LIMIT) ≫= fun _ =>
  query (SelectState tenantId aggregateId) ≫= fun row =>
  match row with
  | Some row => check (record row) ≫= fun r => mret (Some r)
  | None => mret None
  end.

Definition create (tenantId aggregateId status : jstr) (value : jsval) (nowArg : option Date) (e : Env) : prog VersionedRecord :=
  let now := or_now nowArg e 0 in
  check (assertIdentifier tenantId "tenant id" IDENTIFIER_LIMIT) ≫= fun _ =>
  check (assertIdentifier aggregateId "aggregate id" IDENTIFIER_LIMIT) ≫= fun _ =>
  check (assertIdentifier status "state status" 128) ≫= fun _ =>
  check (assertDate now "state timestamp") ≫= fun _ =>
  query (InsertState tenantId aggregateId status (json_stringify value) now) ≫= fun row =>
  check (record row).

Definition compareAndSwap (tenantId aggregateId : jstr) (expectedVersion : jsnum) (expectedStatus nextStatus : jstr)
    (nextValue : jsval) (nowArg : option Date) (e : Env) : prog VersionedRecord :=
  let now := or_now nowArg e 0 in
  check (assertIdentifier tenantId "tenant id" IDENTIFIER_LIMIT) ≫= fun _ =>
  check (assertIdentifier aggregateId "aggregate id" IDENTIFIER_LIMIT) ≫= fun _ =>
  check (assertIdentifier expectedStatus "expected status" 128) ≫= fun _ =>
  check (assertIdentifier nextStatus "next status" 128) ≫= fun _ =>
  match safe_between expectedVersion 0 MAX_SAFE_INTEGER with
  | None => check (Throw "invalid PostgreSQL expected version")
  | Some expected =>
      check (assertDate now "state timestamp") ≫= fun _ =>
      query (UpdateState nextStatus (json_stringify nextValue) now tenantId aggregateId expected expectedStatus) ≫= fun row =>
      match row with
      | None => check (Throw "compare-and-swap conflict")
      | Some row => check (record row)
      end
  end.

Definition enqueue (tenantId eventKey topic aggregateId : jstr) (payload : jsval) (nowArg : option Date) (e : Env) : prog OutboxEvent :=
  let now := or_now nowArg e 0 in
  check (assertIdentifier tenantId "tenant id" IDENTIFIER_LIMIT) ≫= fun _ =>
  check (assertIdentifier eventKey "outbox event key" OUTBOX_LIMITS_eventKey) ≫= fun _ =>
  check (assertIdentifier topic "outbox topic" OUTBOX_LIMITS_topic) ≫= fun _ =>
  check (assertIdentifier aggregateId "outbox aggregate id" OUTBOX_LIMITS_aggregateId) ≫= fun _ =>
  check (assertDate now "outbox timestamp") ≫= fun _ =>
  match json_stringify payload with
  | None => check (Throw "invalid PostgreSQL outbox payload")
  | Some payloadJson =>
      check (throw_if (OUTBOX_LIMITS_payloadBytes <? length (utf8_encode payloadJson))%nat "invalid PostgreSQL outbox payload") ≫= fun _ =>
      query (InsertEvent tenantId (env_uuid e 0) eventKey topic aggregateId payloadJson now) ≫= fun row =>
      check (outbox_event row)
  end.

(** What an operation does through [PostgresMutation]: any sequence of calls,
    each chosen by the results and exceptions of those before it. *)
Inductive Mutation : Type :=
| MuReturn (r : result jsval)
| MuGet (tenantId aggregateId : jstr) (k : result (option VersionedRecord) -> Mutation)
| MuCreate (tenantId aggregateId status : jstr) (value : jsval) (now : option Date) (e : Env)
    (k : result VersionedRecord -> Mutation)
| MuSwap (tenantId aggregateId : jstr) (expectedVersion : jsnum) (expectedStatus nextStatus : jstr) (nextValue : jsval)
    (now : option Date) (e : Env) (k : result VersionedRecord -> Mutation)
| MuEnqueue (tenantId eventKey topic aggregateId : jstr) (payload : jsval) (now : option Date) (e : Env)
    (k : result OutboxEvent -> Mutation).

Fixpoint mutate (m : Mutation) : prog jsval :=
  match m with
  | MuReturn r => Done r
  | MuGet t a k => attempt (get t a) (fun r => mutate (k r))
  | MuCreate t a st v now e k => attempt (create t a st v now e) (fun r => mutate (k r))
  | MuSwap t a ev es ns v now e k => attempt (compareAndSwap t a ev es ns v now e) (fun r => mutate (k r))
  | MuEnqueue t ek tp a p now e k => attempt (enqueue t ek tp a p now e) (fun r => mutate (k r))
  end.

Definition runIdempotent (tenantId scope key requestHash : jstr) (operation : Mutation) (nowArg : option Date) (e : Env)
    : prog (bool * jsval) :=
  let now := or_now nowArg e 0 in
  check (assertIdentifier tenantId "tenant id" IDENTIFIER_LIMIT) ≫= fun _ =>
  check (assertIdentifier scope "idempotency scope" IDENTIFIER_LIMIT) ≫= fun _ =>
  check (assertIdentifier key "idempotency key" IDENTIFIER_LIMIT) ≫= fun _ =>
  check (assertIdentifier requestHash "request hash" IDENTIFIER_LIMIT) ≫= fun _ =>
  check (assertDate now "idempotency timestamp") ≫= fun _ =>
  query (AdvisoryLock (tenantId +:+ [10%N] +:+ scope +:+ [10%N] +:+ key)) ≫= fun _ =>
  query (SelectIdempotency tenantId scope key) ≫= fun prior =>
  match prior with
  | Some row =>
      check (throw_if (negb (ir_hash row =s? requestHash)) DurableStore.REQUEST_REUSED) ≫= fun _ =>
      mret (true, ir_response row)
  | None =>
      mutate operation ≫= fun value =>
      query (InsertIdempotency tenantId scope key requestHash (json_stringify value) now) ≫= fun _ =>
      mret (false, value)
  end.

Fixpoint map_result {A B} (f : A -> result B) (l : list A) : result (list B) :=
  match l with
  | [] => Ok []
  | x :: l => f x ≫= fun y => map_result f l ≫= fun ys => Ok (y :: ys)
  end.

(** [new Date(now.getTime() + leaseMs)] *)
Definition lease_end (now : Date) (leaseMs : Z) : Date :=
  match now with Some t => new_date (t + leaseMs) | None => None end.

Definition claimOutbox (tenantId workerId : jstr) (limit leaseMs : jsnum) (nowArg : option Date) (e : Env) : prog (list OutboxEvent) :=
  let now := or_now nowArg e 0 in
  check (assertIdentifier tenantId "tenant id" IDENTIFIER_LIMIT) ≫= fun _ =>
  check (assertIdentifier workerId "outbox worker id" OUTBOX_LIMITS_workerId) ≫= fun _ =>
  match safe_between limit 1 1000 with
  | None => check (Throw "invalid PostgreSQL outbox claim")
  | Some limit =>
      match safe_between leaseMs 1000 MAX_SAFE_INTEGER with
      | None => check (Throw "invalid PostgreSQL outbox lease")
      | Some lease =>
          check (assertDate now "outbox claim timestamp") ≫= fun _ =>
          query (ClaimEvents tenantId now limit workerId (lease_end now lease)) ≫= fun rows =>
          check (map_result outbox_event rows)
      end
  end.

(** One statement outside a transaction, which commits by itself: it changes
    one row or none. *)
Definition acknowledgeOutbox (tenantId eventId workerId : jstr) (nowArg : option Date) (e : Env) : prog unit :=
  let now := or_now nowArg e 0 in
  check (assertIdentifier tenantId "tenant id" IDENTIFIER_LIMIT) ≫= fun _ =>
  check (assertIdentifier eventId "outbox event id" IDENTIFIER_LIMIT) ≫= fun _ =>
  check (assertIdentifier workerId "outbox worker id" OUTBOX_LIMITS_workerId) ≫= fun _ =>
  check (assertDate now "outbox acknowledgement timestamp") ≫= fun _ =>
  query (DeliverEvent now tenantId eventId workerId) ≫= fun n =>
  check (throw_if (negb (n =? 1)) "outbox acknowledgement conflict").

(** [#capUsage] *)
Definition usage_of (tenantId tokenId spendDate : jstr) : prog (Z * Z) :=
  query (SelectCap tenantId tokenId spendDate) ≫= fun row =>
  match row with
  | None => check (Throw "unknown daily cap")
  | Some row =>
      check (safeInteger (cr_reserved row) "reserved cap") ≫= fun reserved =>
      check (safeInteger (cr_cap row) "daily cap") ≫= fun cap =>
      mret (reserved, cap)
  end.

(** [/^\d{4}-\d{2}-\d{2}$/] *)
Definition day_text (s : jstr) : bool :=
  match s with
  | [a; b; c; d; h1; e; f; h2; g; h] =>
      forallb is_digit [a; b; c; d; e; f; g; h] && (h1 =? 45)%N && (h2 =? 45)%N
  | _ => false
  end.

Record ReserveInput : Type := {
  i_tenantId : jstr; i_reservationId : jstr; i_tokenId : jstr; i_spendDate : jstr; i_amountMinor : jsnum; i_capMinor : jsnum;
  i_now : option Date;
}.

(** The row of an earlier reservation under the same identifier. *)
Definition replay_reservation (i : ReserveInput) (amount : Z) (row : ReservationRow) : prog CapReservationResult :=
  (if negb (rr_token row =s? i_tokenId i) || negb (rr_date row =s? i_spendDate i)
   then check (Throw "cap reservation id reused with different input")
   else
     check (safeInteger (rr_amount row) "cap amount") ≫= fun stored =>
     check (throw_if (negb (stored =? amount)) "cap reservation id reused with different input")) ≫= fun _ =>
  usage_of (i_tenantId i) (i_tokenId i) (i_spendDate i) ≫= fun '(reserved, cap) =>
  mret {| replayed := true; cp_tenantId := i_tenantId i; reservationId := i_reservationId i; cp_tokenId := i_tokenId i;
          spendDate := i_spendDate i; cp_amountMinor := amount; reservedMinor := reserved; capMinor := cap;
          cp_active := negb (rr_released row) |}.

Definition fresh_reservation (i : ReserveInput) (amount cap : Z) (now : Date) : prog CapReservationResult :=
  query (UpsertCap (i_tenantId i) (i_tokenId i) (i_spendDate i) cap amount) ≫= fun updated =>
  match updated with
  | None => check (Throw "transaction exceeds token daily cap")
  | Some row =>
      query (InsertReservation (i_tenantId i) (i_reservationId i) (i_tokenId i) (i_spendDate i) amount now) ≫= fun _ =>
      check (safeInteger (cr_reserved row) "reserved cap") ≫= fun reserved =>
      check (safeInteger (cr_cap row) "daily cap") ≫= fun cap =>
      mret {| replayed := false; cp_tenantId := i_tenantId i; reservationId := i_reservationId i; cp_tokenId := i_tokenId i;
              spendDate := i_spendDate i; cp_amountMinor := amount; reservedMinor := reserved; capMinor := cap; cp_active := true |}
  end.

Definition reserveCap (i : ReserveInput) (e : Env) : prog CapReservationResult :=
  let now := or_now (i_now i) e 0 in
  check (assertIdentifier (i_tenantId i) "tenant id" IDENTIFIER_LIMIT) ≫= fun _ =>
  check (assertIdentifier (i_reservationId i) "reservation id" IDENTIFIER_LIMIT) ≫= fun _ =>
  check (assertIdentifier (i_tokenId i) "token id" IDENTIFIER_LIMIT) ≫= fun _ =>
  check (throw_if (negb (day_text (i_spendDate i))) "invalid PostgreSQL cap spend date") ≫= fun _ =>
  match safe_between (i_amountMinor i) 1 MAX_SAFE_INTEGER, safe_between (i_capMinor i) 1 MAX_SAFE_INTEGER with
  | Some amount, Some cap =>
      check (throw_if (cap <? amount) "invalid PostgreSQL cap amount") ≫= fun _ =>
      check (assertDate now "cap timestamp") ≫= fun _ =>
      query (AdvisoryLock (i_tenantId i +:+ [10%N] +:+ "cap" +:+ [10%N] +:+ i_reservationId i)) ≫= fun _ =>
      query (SelectReservation (i_tenantId i) (i_reservationId i) false) ≫= fun prior =>
      match prior with
      | Some row => replay_reservation i amount row
      | None => fresh_reservation i amount cap now
      end
  | _, _ => check (Throw "invalid PostgreSQL cap amount")
  end.

Definition release_active (tenantId reservationId : jstr) (now : Date) (row : ReservationRow) : prog unit :=
  if rr_released row then mret tt
  else
    query (SubtractCap (rr_amount row) tenantId (rr_token row) (rr_date row)) ≫= fun _ =>
    query (ReleaseReservation now tenantId reservationId).

Definition releaseCap (tenantId reservationId : jstr) (nowArg : option Date) (e : Env) : prog CapReservationResult :=
  let now := or_now nowArg e 0 in
  check (assertIdentifier tenantId "tenant id" IDENTIFIER_LIMIT) ≫= fun _ =>
  check (assertIdentifier reservationId "reservation id" IDENTIFIER_LIMIT) ≫= fun _ =>
  check (assertDate now "cap release timestamp") ≫= fun _ =>
  query (SelectReservation tenantId reservationId true) ≫= fun found =>
  match found with
  | None => check (Throw "unknown cap reservation")
  | Some row =>
      release_active tenantId reservationId now row ≫= fun _ =>
      usage_of tenantId (rr_token row) (rr_date row) ≫= fun '(reserved, cap) =>
      check (safeInteger (rr_amount row) "cap amount") ≫= fun amount =>
      mret {| replayed := rr_released row; cp_tenantId := tenantId; reservationId := reservationId; cp_tokenId := rr_token row;
              spendDate := rr_date row; cp_amountMinor := amount; reservedMinor := reserved; capMinor := cap; cp_active := false |}
  end.

Definition capUsage (tenantId tokenId spendDate : jstr) : prog (Z * Z) := usage_of tenantId tokenId spendDate.
End postgres.
