(* ===== verification/PostgresServer.v ===== *)
(** PostgresServer: the calls of packages/storage/postgresStore.ts as threads
    of one database.  Statements of different transactions interleave in any
    order, a transaction ends by COMMIT or ROLLBACK, and connections are lost;
    a rely-guarantee rule for single calls carries over to every interleaving. *)
From stdpp Require Import relations gmap.
From S2P Require Import Prelude JsString JsMap Host JsTime JsJson JsParse DurableStore PostgresStore.
#[local] Open Scope string_scope.
#[local] Open Scope list_scope.
#[local] Open Scope Z_scope.
#[local] Open Scope js_scope.

(** ** Threads *)

Inductive call : Type :=
| CMigrate (e : Env)
| CGet (tenantId aggregateId : jstr)
| CCreate (tenantId aggregateId status : jstr) (value : jsval) (now : option Date) (e : Env)
| CSwap (tenantId aggregateId : jstr) (expectedVersion : jsnum) (expectedStatus nextStatus : jstr) (nextValue : jsval)
    (now : option Date) (e : Env)
| CRun (tenantId scope key requestHash : jstr) (operation : Mutation) (now : option Date) (e : Env)
| CEnqueue (tenantId eventKey topic aggregateId : jstr) (payload : jsval) (now : option Date) (e : Env)
| CClaim (tenantId workerId : jstr) (limit leaseMs : jsnum) (now : option Date) (e : Env)
| CAcknowledge (tenantId eventId workerId : jstr) (now : option Date) (e : Env)
| CReserve (input : ReserveInput) (e : Env)
| CRelease (tenantId reservationId : jstr) (now : option Date) (e : Env)
| CUsage (tenantId tokenId spendDate : jstr).

Inductive Answer : Type :=
| AUnit
| AFound (r : option VersionedRecord)
| ARecord (r : VersionedRecord)
| AIdempotent (replayed : bool) (value : jsval)
| AEvent (event : OutboxEvent)
| AEvents (events : list OutboxEvent)
| ACap (r : CapReservationResult)
| AUsage (reserved cap : Z).

Section server.
Context `{Host, !Postgres}.

Definition body (c : call) : prog Answer :=
  match c with
  | CMigrate e => migrate e ≫= fun _ => mret AUnit
  | CGet t a => get t a ≫= fun r => mret (AFound r)
  | CCreate t a st v now e => create t a st v now e ≫= fun r => mret (ARecord r)
  | CSwap t a ev es ns v now e => compareAndSwap t a ev es ns v now e ≫= fun r => mret (ARecord r)
  | CRun t s k h op now e => runIdempotent t s k h op now e ≫= fun r => mret (AIdempotent r.1 r.2)
  | CEnqueue t ek tp a p now e => enqueue t ek tp a p now e ≫= fun r => mret (AEvent r)
  | CClaim t wk n lease now e => claimOutbox t wk n lease now e ≫= fun l => mret (AEvents l)
  | CAcknowledge t id wk now e => acknowledgeOutbox t id wk now e ≫= fun _ => mret AUnit
  | CReserve i e => reserveCap i e ≫= fun r => mret (ACap r)
  | CRelease t id now e => releaseCap t id now e ≫= fun r => mret (ACap r)
  | CUsage t tk d => capUsage t tk d ≫= fun r => mret (AUsage r.1 r.2)
  end.

Record Thread : Type := { th_call : call; th_prog : prog Answer; th_session : Session }.

(** The committed rows, the calls in progress, and the calls that returned, in
    the order of their commits. *)
Record Server : Type := { db : Database; threads : gmap nat Thread; returned : list (call * Answer) }.

(** The locks of the transactions but one. *)
Definition others (i : nat) (ts : gmap nat Thread) : gset Lock :=
  ⋃ ((fun t => locks (th_session t)) <$> (map_to_list (delete i ts)).*2).

(** COMMIT; of a failed transaction it is a ROLLBACK. *)
Definition commit (x : Session) (d : Database) : Database := if failed x then d else over (writes x) d.

(** A new call; the next statement of a call, or its COMMIT; a COMMIT whose
    answer is lost; a ROLLBACK, by the call or by a lost connection. *)
Inductive action : Type := Begin (i : nat) (c : call) | Next (i : nat) | CommitUnheard (i : nat) | Rollback (i : nat).

Definition act (a : action) (g : Server) : option Server :=
  match a with
  | Begin i c =>
      match threads g !! i with
      | Some _ => None
      | None => Some {| db := db g; threads := <[i := {| th_call := c; th_prog := body c; th_session := new_session |}]> (threads g);
                        returned := returned g |}
      end
  | Next i =>
      t ← threads g !! i;
      match th_prog t with
      | Query s k =>
          '(r, x) ← answer s (others i (threads g)) (db g) (th_session t);
          Some {| db := db g; threads := <[i := {| th_call := th_call t; th_prog := k r; th_session := x |}]> (threads g);
                  returned := returned g |}
      | Done (Ok a) =>
          Some {| db := commit (th_session t) (db g); threads := delete i (threads g); returned := returned g ++ [(th_call t, a)] |}
      | Done (Throw _) => Some {| db := db g; threads := delete i (threads g); returned := returned g |}
      end
  | CommitUnheard i =>
      t ← threads g !! i;
      match th_prog t with
      | Done (Ok _) => Some {| db := commit (th_session t) (db g); threads := delete i (threads g); returned := returned g |}
      | _ => None
      end
  | Rollback i => t ← threads g !! i; Some {| db := db g; threads := delete i (threads g); returned := returned g |}
  end.

Fixpoint acts (l : list action) (g : Server) : option Server :=
  match l with
  | [] => Some g
  | a :: l => g ← act a g; acts l g
  end.

Definition new_server : Server := {| db := empty_database; threads := ∅; returned := [] |}.

(** ** What a transaction may rely on *)

(** The locked rows stay as they are. *)
Record same_locked (ls : gset Lock) (d d' : Database) : Prop := {
  same_state k : lock_state k ∈ ls -> tenant_state d' !! k = tenant_state d !! k;
  same_idem k : lock_idem k ∈ ls -> idempotency d' !! k = idempotency d !! k;
  same_event k : lock_event k ∈ ls -> outbox d' !! k = outbox d !! k;
  same_cap k : lock_cap k ∈ ls -> daily_caps d' !! k = daily_caps d !! k;
  same_reservation k : lock_reservation k ∈ ls -> cap_reservations d' !! k = cap_reservations d !! k;
}.

(** An outbox row some time later: its event, leased no less long or delivered. *)
Record event_later (r r' : EventRow) : Prop := {
  el_event : er_tenant r' = er_tenant r /\ er_id r' = er_id r /\ er_key r' = er_key r /\ er_payload r' = er_payload r;
  el_delivered : is_Some (er_delivered r) -> is_Some (er_delivered r');
  el_lease u : er_claimed_until r = Some u -> is_Some (er_delivered r') \/ exists u', er_claimed_until r' = Some u' /\ u <= u';
}.

Record reservation_later (r r' : ReservationRow) : Prop := {
  rl_same : rr_token r' = rr_token r /\ rr_date r' = rr_date r /\ rr_amount r' = rr_amount r;
  rl_released : rr_released r = true -> rr_released r' = true;
}.

(** Nothing recorded is lost. *)
Record grows (d d' : Database) : Prop := {
  gr_state k r : tenant_state d !! k = Some r -> exists r', tenant_state d' !! k = Some r' /\ sr_version r <= sr_version r';
  gr_idem k r : idempotency d !! k = Some r -> idempotency d' !! k = Some r;
  gr_event k r : outbox d !! k = Some r -> exists r', outbox d' !! k = Some r' /\ event_later r r';
  gr_cap k r : daily_caps d !! k = Some r -> exists r', daily_caps d' !! k = Some r' /\ cr_cap r' = cr_cap r;
  gr_reservation k r : cap_reservations d !! k = Some r -> exists r', cap_reservations d' !! k = Some r' /\ reservation_later r r';
}.

(** ** Consistent rows *)

(** The daily cap a reservation counts against. *)
Definition cap_key (k : Key) (r : ReservationRow) : Key := match k with t :: _ => [t; rr_token r; rr_date r] | [] => [] end.
Definition counted (key k : Key) (r : ReservationRow) : Z :=
  if negb (rr_released r) && bool_decide (cap_key k r = key) then rr_amount r else 0.
(** The active reservations against a daily cap. *)
Definition active_total (key : Key) (m : gmap Key ReservationRow) : Z := map_fold (fun k r n => counted key k r + n) 0 m.

Record consistent (d : Database) : Prop := {
  co_cap k c : daily_caps d !! k = Some c ->
    0 < cr_cap c /\ 0 <= cr_reserved c <= cr_cap c /\ cr_reserved c = active_total k (cap_reservations d);
  co_reservation k r : cap_reservations d !! k = Some r ->
    is_Some (daily_caps d !! cap_key k r) /\ 0 < rr_amount r /\ text (rr_token r) = Ok (rr_token r) /\ date (rr_date r) = Ok (rr_date r) /\
    exists t id, k = [t; id];
  co_event k r : outbox d !! k = Some r -> event_key r = k;
}.

Definition rely (ls : gset Lock) (d d' : Database) : Prop := same_locked ls d d' /\ grows d d' /\ consistent d'.

(** ** Rules for calls *)

(** Whatever the others do between its statements, the call ends with [post]. *)
Fixpoint ok {A} (post : result A -> Database -> Session -> Prop) (p : prog A) (d : Database) (x : Session) : Prop :=
  match p with
  | Done r => forall d', rely (locks x) d d' -> post r d' x
  | Query s k => forall d' os r x', rely (locks x) d d' -> locks x ## os -> answer s os d' x = Some (r, x') -> ok post (k r) d' x'
  end.

(** ** Properties of the relations *)

Lemma event_later_refl r : event_later r r.
Proof. split; [done|done|]. intros u ->. right. exists u. split; [done|lia]. Qed.
Lemma event_later_trans r1 r2 r3 : event_later r1 r2 -> event_later r2 r3 -> event_later r1 r3.
Proof.
  intros [(E1 & E2 & E3 & E4) D1 L1] [(F1 & F2 & F3 & F4) D2 L2]. split; [by rewrite F1, F2, F3, F4|auto|].
  intros u [Hd|(u' & Hu & Hle)]%L1; [by left; apply D2|].
  destruct (L2 _ Hu) as [?|(u'' & ? & ?)]; [by left|]. right. exists u''. split; [done|lia].
Qed.
Lemma reservation_later_refl r : reservation_later r r.
Proof. by split. Qed.
Lemma reservation_later_trans r1 r2 r3 : reservation_later r1 r2 -> reservation_later r2 r3 -> reservation_later r1 r3.
Proof. intros [(E1 & E2 & E3) D1] [(F1 & F2 & F3) D2]. split; [by rewrite F1, F2, F3|auto]. Qed.

Lemma grows_refl d : grows d d.
Proof. split; intros k r E; eauto using event_later_refl, reservation_later_refl, Z.le_refl. Qed.
Lemma grows_trans d1 d2 d3 : grows d1 d2 -> grows d2 d3 -> grows d1 d3.
Proof.
  intros G1 G2. split; intros k r E.
  - apply G1 in E as (r' & E & ?). apply G2 in E as (r'' & E & ?). exists r''. split; [done|lia].
  - by apply G2, G1.
  - apply G1 in E as (r' & E & ?). apply G2 in E as (r'' & E & ?). eauto using event_later_trans.
  - apply G1 in E as (r' & E & ?). apply G2 in E as (r'' & E & ?). exists r''. split; [done|congruence].
  - apply G1 in E as (r' & E & ?). apply G2 in E as (r'' & E & ?). eauto using reservation_later_trans.
Qed.

Lemma same_locked_refl ls d : same_locked ls d d.
Proof. by split. Qed.
Lemma same_locked_trans ls d1 d2 d3 : same_locked ls d1 d2 -> same_locked ls d2 d3 -> same_locked ls d1 d3.
Proof. intros S1 S2. split; intros k Hk; (etrans; [by apply S2|by apply S1]). Qed.
Lemma same_locked_mono ls ls' d d' : ls ⊆ ls' -> same_locked ls' d d' -> same_locked ls d d'.
Proof. intros Hs []. split; auto. Qed.

Lemma rely_refl ls d : consistent d -> rely ls d d.
Proof. split; [apply same_locked_refl|]. split; [apply grows_refl|done]. Qed.
Lemma rely_trans ls d1 d2 d3 : rely ls d1 d2 -> rely ls d2 d3 -> rely ls d1 d3.
Proof. intros (S1 & G1 & _) (S2 & G2 & C). split; [by eapply same_locked_trans|]. split; [by eapply grows_trans|done]. Qed.

Section rules.
Context {A B : Type}.
Implicit Types (x : Session) (d : Database).

Lemma ok_rely (post : result A -> Database -> Session -> Prop) p d d' x :
ok post p d x -> rely (locks x) d d' -> ok post p d' x.
Proof.
  destruct p as [r|B' s k]; cbn [ok]; intros Hp Hd.
  - intros d2 H2. by apply Hp, (rely_trans _ _ _ _ Hd).
  - intros d2 os r x' H2. by apply Hp, (rely_trans _ _ _ _ Hd).
Qed.

Lemma ok_mono (post post' : result A -> Database -> Session -> Prop) p d x :
(forall r d x, post r d x -> post' r d x) -> ok post p d x -> ok post' p d x.
Proof.
  intros Hp. revert d x. induction p as [r|B' s k IH]; cbn [ok]; intros d x Hok; [auto|].
  intros d' os r x' Hd Ho Ha. apply IH. by apply (Hok d' os).
Qed.

Lemma ok_attempt (post : result B -> Database -> Session -> Prop) (p : prog A) (k : result A -> prog B) d x :
ok (fun r d x => ok post (k r) d x) p d x -> consistent d -> ok post (attempt p k) d x.
Proof.
  revert d x. induction p as [r|B' s c IH]; cbn [ok attempt]; intros d x Hok Hc.
  - by apply Hok, rely_refl.
  - intros d' os r x' Hd Ho Ha. apply IH; [by apply (Hok d' os)|apply Hd].
Qed.
End rules.

Lemma ok_bind {A B} (post : result B -> Database -> Session -> Prop) (p : prog A) (k : A -> prog B) d x :
ok (fun r d x => match r with Ok a => ok post (k a) d x | Throw e => forall d', rely (locks x) d d' -> post (Throw e) d' x end) p d x ->
consistent d -> ok post (p ≫= k) d x.
Proof.
  intros Hok Hc. apply ok_attempt; [|done]. eapply ok_mono; [|exact Hok]. intros [a|e] d1 x1; [done|]. cbn [ok]. auto.
Qed.

(** A postcondition of the calls that return. *)
Definition on_ok {A} (Q : A -> Database -> Session -> Prop) (r : result A) (d : Database) (x : Session) : Prop :=
  match r with Ok a => Q a d x | Throw _ => True end.

Lemma ok_seq {A B} (Q : B -> Database -> Session -> Prop) (p : prog A) (k : A -> prog B) d x :
  ok (on_ok (fun a d x => ok (on_ok Q) (k a) d x)) p d x -> consistent d -> ok (on_ok Q) (p ≫= k) d x.
Proof. intros Hp Hc. apply ok_bind; [|done]. eapply ok_mono; [|exact Hp]. by intros [a|e] d1 x1. Qed.

Section returning.
Context {A B : Type}.
Implicit Types (x : Session) (d : Database).

(** The end of a call may come later. *)
Lemma ok_closed (post : result A -> Database -> Session -> Prop) p d x :
ok post p d x -> ok (fun r d x => forall d', rely (locks x) d d' -> post r d' x) p d x.
Proof.
  revert d x. induction p as [r|B' s k IH]; cbn [ok]; intros d x Hok.
  - intros d1 H1 d2 H2. by apply Hok, (rely_trans _ _ _ _ H1).
  - intros d' os r x' Hd Ho Ha. apply IH. by apply (Hok d' os).
Qed.

Lemma ok_ret (Q : A -> Database -> Session -> Prop) a d x :
(forall d', rely (locks x) d d' -> Q a d' x) -> ok (on_ok Q) (mret a) d x.
Proof. done. Qed.
Lemma ok_check (Q : B -> Database -> Session -> Prop) (r : result A) (k : A -> prog B) d x :
(forall a, r = Ok a -> ok (on_ok Q) (k a) d x) -> ok (on_ok Q) (check r ≫= k) d x.
Proof. destruct r as [a|e]; intros Hk; [by apply Hk|done]. Qed.
Lemma ok_last (Q : A -> Database -> Session -> Prop) (r : result A) d x :
(forall a d', r = Ok a -> rely (locks x) d d' -> Q a d' x) -> ok (on_ok Q) (check r) d x.
Proof. intros Hk d' Hd. destruct r as [a|e]; [by apply Hk|done]. Qed.

Lemma ok_query (Q : B -> Database -> Session -> Prop) (s : stmt A) (k : A -> prog B) d x :
(forall d' os, failed x = false -> rely (locks x) d d' -> locks x ## os ->
  match exec s os d' (writes x) with
  | Answers a w ls => ok (on_ok Q) (k a) d' {| writes := w; locks := list_to_set ls ∪ locks x; failed := false |}
  | _ => True
  end) -> ok (on_ok Q) (query s ≫= k) d x.
Proof.
  intros Hk d' os r x' Hd Ho. unfold answer. destruct (failed x) eqn:Hf; [intros [= <- <-]; cbn; done|].
  specialize (Hk d' os eq_refl Hd Ho).
  destruct (exec s os d' (writes x)); [done|intros [= <- <-]; cbn; done|intros [= <- <-]; exact Hk].
Qed.

Lemma ok_returns (Q : B -> Database -> Session -> Prop) (m : prog A) (f : A -> B) d x :
consistent d -> ok (on_ok (fun a => Q (f a))) m d x -> ok (on_ok Q) (m ≫= fun a => mret (f a)) d x.
Proof.
  intros Hc Hm. apply ok_bind; [|done]. eapply ok_mono; [|apply ok_closed, Hm]. cbn beta. intros [a|e] d1 x1 Hp; [exact Hp|done].
Qed.
End returning.

(** ** Locks and writes of a transaction *)

Record within (w : Database) (ls : gset Lock) : Prop := {
  wi_state k : is_Some (tenant_state w !! k) -> lock_state k ∈ ls;
  wi_idem k : is_Some (idempotency w !! k) -> lock_idem k ∈ ls;
  wi_event k : is_Some (outbox w !! k) -> lock_event k ∈ ls;
  wi_cap k : is_Some (daily_caps w !! k) -> lock_cap k ∈ ls;
  wi_reservation k : is_Some (cap_reservations w !! k) -> lock_reservation k ∈ ls;
}.

Lemma within_empty : within empty_database ∅.
Proof. split; intros k [r Hr]; cbn in Hr; by rewrite lookup_empty in Hr. Qed.
Lemma within_mono w ls ls' : within w ls -> ls ⊆ ls' -> within w ls'.
Proof. intros [] Hs. split; auto. Qed.

(** The invariant of one statement: its writes stay locked, and what it locks
    nobody else has. *)
Definition extends (os : gset Lock) (x x' : Session) : Prop :=
  locks x ⊆ locks x' /\ (forall l, l ∈ locks x' -> l ∈ locks x \/ l ∉ os) /\ (within (writes x) (locks x) -> within (writes x') (locks x')).

Definition extends_by {B : Type} (os : gset Lock) (x : Session) (o : outcome B) : Prop :=
  match o with
  | Answers _ w ls => (forall l, l ∈ ls -> l ∉ os) /\
      (forall ls', within (writes x) ls' -> list_to_set ls ⊆ ls' -> within w ls')
  | _ => True
  end.

Lemma by_bound {A B : Type} os x (r : result A) (k : A -> outcome B) :
  (forall a, r = Ok a -> extends_by os x (k a)) -> extends_by os x (bound r k).
Proof. destruct r; cbn; auto. Qed.
Lemma by_acquire {B : Type} os x l (o : outcome B) : (l ∉ os -> extends_by os x o) -> extends_by os x (acquire os l o).
Proof. intros Ho. unfold acquire. destruct (decide _); [done|auto]. Qed.
Lemma by_constraint {B : Type} os x b name (o : outcome B) : (b = true -> extends_by os x o) -> extends_by os x (constraint b name o).
Proof. intros Ho. unfold constraint. destruct b; [auto|done]. Qed.
Lemma by_read {B : Type} os x (b : B) : extends_by os x (Answers b (writes x) []).
Proof. split; [intros l Hl; by apply elem_of_nil in Hl|done]. Qed.

Lemma insert_some {V : Type} (m : gmap Key V) k k' v : is_Some (<[k := v]> m !! k') -> k' = k \/ is_Some (m !! k').
Proof. destruct (decide (k' = k)) as [->|Hne]; [by left|]. rewrite lookup_insert_ne by done. by right. Qed.
Lemma union_some {V : Type} (m1 m2 : gmap Key V) k : is_Some ((m1 ∪ m2) !! k) -> is_Some (m1 !! k) \/ is_Some (m2 !! k).
Proof. rewrite lookup_union_is_Some. done. Qed.
Lemma events_map_some l k : is_Some (events_map l !! k) -> exists r, r ∈ l /\ event_key r = k.
Proof.
  intros [r Hr]. apply elem_of_list_to_map_2 in Hr. apply list_elem_of_fmap in Hr as (r' & [= -> ->] & Hr). eauto.
Qed.

Lemma by_write {B : Type} os x (b : B) w ls :
  (forall l, l ∈ ls -> l ∉ os) ->
  (forall k, is_Some (tenant_state w !! k) -> lock_state k ∈ ls \/ is_Some (tenant_state (writes x) !! k)) ->
  (forall k, is_Some (idempotency w !! k) -> lock_idem k ∈ ls \/ is_Some (idempotency (writes x) !! k)) ->
  (forall k, is_Some (outbox w !! k) -> lock_event k ∈ ls \/ is_Some (outbox (writes x) !! k)) ->
  (forall k, is_Some (daily_caps w !! k) -> lock_cap k ∈ ls \/ is_Some (daily_caps (writes x) !! k)) ->
  (forall k, is_Some (cap_reservations w !! k) -> lock_reservation k ∈ ls \/ is_Some (cap_reservations (writes x) !! k)) ->
  extends_by os x (Answers b w ls).
Proof.
  intros Hl H1 H2 H3 H4 H5. split; [done|]. intros ls' [] Hls.
  assert (Hin : forall l, l ∈ ls -> l ∈ ls') by (intros l ?; apply Hls; by apply elem_of_list_to_set).
  split; intros k Hk; [apply H1 in Hk|apply H2 in Hk|apply H3 in Hk|apply H4 in Hk|apply H5 in Hk]; destruct Hk; auto.
Qed.

Lemma by_one {B : Type} os x (b : B) w l :
  l ∉ os ->
  (forall k, is_Some (tenant_state w !! k) -> lock_state k = l \/ is_Some (tenant_state (writes x) !! k)) ->
  (forall k, is_Some (idempotency w !! k) -> lock_idem k = l \/ is_Some (idempotency (writes x) !! k)) ->
  (forall k, is_Some (outbox w !! k) -> lock_event k = l \/ is_Some (outbox (writes x) !! k)) ->
  (forall k, is_Some (daily_caps w !! k) -> lock_cap k = l \/ is_Some (daily_caps (writes x) !! k)) ->
  (forall k, is_Some (cap_reservations w !! k) -> lock_reservation k = l \/ is_Some (cap_reservations (writes x) !! k)) ->
  extends_by os x (Answers b w [l]).
Proof.
  intros Hl H1 H2 H3 H4 H5. apply by_write; [by intros l' ->%list_elem_of_singleton|..]; intros k Hk;
    rewrite list_elem_of_singleton; auto.
Qed.

Lemma insert_event_perm r l : Permutation (insert_event r l) (r :: l).
Proof. induction l as [|q l IH]; cbn; [done|]. destruct (event_le r q); [done|]. rewrite IH. apply Permutation_swap. Qed.
Lemma sort_events_perm l : sort_events l ≡ₚ l.
Proof. induction l as [|r l IH]; cbn; [done|]. by rewrite insert_event_perm, IH. Qed.

Lemma candidates_spec os t now n rows r : r ∈ candidates os t now n rows ->
  claimable t now r = true /\ (lock_event (event_key r) ∉ os) /\ exists k, rows !! k = Some r.
Proof.
  unfold candidates. intros (i & Hr%list_elem_of_lookup_2 & _)%elem_of_take. rewrite sort_events_perm in Hr. apply list_elem_of_In, filter_In in Hr as [Hr Hc].
  apply andb_true_iff in Hc as [Hc Hl%bool_decide_eq_true]. split; [done|]. split; [done|].
  apply list_elem_of_In, list_elem_of_fmap in Hr as ([k r'] & -> & Hr%elem_of_map_to_list). by exists k.
Qed.
Lemma candidates_free os t now n rows r : r ∈ candidates os t now n rows -> lock_event (event_key r) ∉ os.
Proof. by intros (_ & ? & _)%candidates_spec. Qed.

Lemma exec_extends {B} (s : stmt B) os d x : extends_by os x (exec s os d (writes x)).
Proof.
  destruct s; cbn [exec];
    repeat first
      [ apply by_bound; intros ? ? | apply by_acquire; intros ? | apply by_constraint; intros _ | apply by_read
      | match goal with |- extends_by _ _ (match ?o with _ => _ end) => destruct o eqn:? end
      | match goal with |- extends_by _ _ (if ?b then _ else _) => destruct b eqn:? end ];
    try solve [apply by_one; [done|intros k; cbn; auto..]; intros [->|?]%insert_some; auto
              |apply by_one; [done|intros k; cbn; auto..]; intros [[? [-> _]%lookup_singleton_Some]|?]%union_some; auto].
  - apply by_write; cbn; [|auto..].
    + intros l [->| ->%list_elem_of_singleton]%elem_of_cons; done.
    + intros k [[r [-> _]%lookup_singleton_Some]|?]%union_some; [left; by left|by right].
  - apply by_write; cbn; [|auto..].
    + intros l (r & -> & Hr)%list_elem_of_fmap. by apply candidates_free in Hr.
    + intros k [(r & Hr & <-)%events_map_some|?]%union_some; [|by right]. left.
      apply list_elem_of_fmap in Hr as (r' & -> & Hr). apply list_elem_of_fmap. by exists r'.
Qed.

Lemma answer_extends {B} (s : stmt B) os d x r x' : answer s os d x = Some (r, x') -> extends os x x'.
Proof.
  unfold answer. intros E. destruct (failed x); [injection E as <- <-; split; [done|split; [by left|done]]|].
  pose proof (exec_extends s os d x) as He. destruct (exec s os d (writes x)); [done|injection E as <- <-|injection E as <- <-].
  - split; [done|]. split; [by left|done].
  - destruct He as [H1 H2]. unfold extends. cbn [locks writes]. split; [set_solver|]. split; [intros l; rewrite elem_of_union, elem_of_list_to_set; naive_solver|].
    intros Hw. apply H2; [|set_solver]. eapply within_mono; [exact Hw|set_solver].
Qed.

(** ** Every interleaving *)

Lemma elem_of_others l i ts : l ∈ others i ts <-> exists j t, j <> i /\ ts !! j = Some t /\ l ∈ locks (th_session t).
Proof.
  unfold others. rewrite elem_of_union_list. split.
  - intros (ls & (t & -> & Ht)%list_elem_of_fmap & Hl). apply list_elem_of_fmap in Ht as ([j t'] & -> & Ht).
    apply elem_of_map_to_list in Ht. apply lookup_delete_Some in Ht as [? ?]. exists j, t'. done.
  - intros (j & t & Hj & Ht & Hl). exists (locks (th_session t)). split; [|done]. apply list_elem_of_fmap. exists t.
    split; [done|]. apply list_elem_of_fmap. exists (j, t). split; [done|]. apply elem_of_map_to_list, lookup_delete_Some. done.
Qed.

Lemma union_untouched {V : Type} (w d : gmap Key V) k : ~ is_Some (w !! k) -> (w ∪ d) !! k = d !! k.
Proof. intros Hn. apply lookup_union_r. by apply eq_None_not_Some. Qed.

Lemma over_same w ls ls' d : within w ls -> ls ## ls' -> same_locked ls' d (over w d).
Proof. intros [] Hd. split; intros k Hk; apply union_untouched; intros Hs; eapply Hd; eauto. Qed.

Section interleavings.
Variable post : call -> result Answer -> Database -> Session -> Prop.
Hypothesis body_ok : forall c d, consistent d -> ok (post c) (body c) d new_session.
Hypothesis post_commit : forall c a d x, post c (Ok a) d x -> consistent d -> consistent (commit x d) /\ grows d (commit x d).

(** What holds of a returned call from its commit on, and between two calls,
    the one returned before the other. *)
Variable recorded : call -> Answer -> Database -> Prop.
Variable ordered : call -> Answer -> call -> Answer -> Prop.
Hypothesis recorded_grows : forall c a d d', recorded c a d -> grows d d' -> consistent d -> recorded c a d'.
Hypothesis post_recorded : forall c a d x, post c (Ok a) d x -> consistent d -> recorded c a (commit x d).
Hypothesis post_ordered : forall c a d x c0 a0, post c (Ok a) d x -> consistent d -> recorded c0 a0 d -> ordered c0 a0 c a.

Record sound (g : Server) : Prop := {
  sd_db : consistent (db g);
  sd_thread i t : threads g !! i = Some t -> within (writes (th_session t)) (locks (th_session t)) /\
    ok (post (th_call t)) (th_prog t) (db g) (th_session t);
  sd_locks i j t u : i <> j -> threads g !! i = Some t -> threads g !! j = Some u -> locks (th_session t) ## locks (th_session u);
  sd_recorded c a : (c, a) ∈ returned g -> recorded c a (db g);
  sd_ordered i j c a c0 a0 : (i < j)%nat -> returned g !! i = Some (c0, a0) -> returned g !! j = Some (c, a) -> ordered c0 a0 c a;
}.

Lemma sound_new : sound new_server.
Proof.
  split; cbn; [| |intros i j t u Hij Ht; by rewrite lookup_empty in Ht|intros c a Hc; by apply elem_of_nil in Hc|done].
  - split; intros k r Hr; cbn in Hr; by rewrite lookup_empty in Hr.
  - intros i t Ht. by rewrite lookup_empty in Ht.
Qed.

(** A thread ends, its transaction's writes [d'] in place. *)
Lemma sound_end g i t d' log' :
  sound g -> threads g !! i = Some t ->
  d' = db g \/ (exists a, th_prog t = Done (Ok a) /\ d' = commit (th_session t) (db g)) ->
  log' = returned g \/ (exists a, th_prog t = Done (Ok a) /\ d' = commit (th_session t) (db g) /\ log' = returned g ++ [(th_call t, a)]) ->
  sound {| db := d'; threads := delete i (threads g); returned := log' |}.
Proof.
  intros [Hd Ht Hl Hr Ho] Hi Hd' Hlog. destruct (Ht _ _ Hi) as [Hw Hok].
  assert (Hpost : forall a, th_prog t = Done (Ok a) -> post (th_call t) (Ok a) (db g) (th_session t)).
  { intros a Ea. rewrite Ea in Hok. cbn [ok] in Hok. by apply Hok, rely_refl. }
  assert (Hgr : consistent d' /\ grows (db g) d').
  { destruct Hd' as [->|(a & Ea & ->)]; [split; [done|apply grows_refl]|]. by eapply post_commit; [apply Hpost|]. }
  destruct Hgr as [Hc Hg].
  assert (Hrec : forall c a, (c, a) ∈ returned g -> recorded c a d') by (intros c a Hin; eapply recorded_grows; eauto).
  split; cbn [db threads returned].
  - done.
  - intros j u Hj%lookup_delete_Some. destruct Hj as [Hne Hj]. destruct (Ht _ _ Hj) as [Hwu Hou]. split; [done|].
    eapply ok_rely; [exact Hou|]. split; [|done]. destruct Hd' as [->|(a & Ea & ->)]; [apply same_locked_refl|].
    unfold commit. destruct (failed _); [apply same_locked_refl|]. apply (over_same _ (locks (th_session t))); [done|]. by eapply Hl.
  - intros j k u v Hjk [_ Hj]%lookup_delete_Some [_ Hk]%lookup_delete_Some. by eapply (Hl j k).
  - intros c a Hin. destruct Hlog as [->|(b & Eb & -> & ->)]; [by apply Hrec|].
    apply elem_of_app in Hin as [Hin|Hin%list_elem_of_singleton]; [by apply Hrec|]. injection Hin as -> ->. by eapply post_recorded; [apply Hpost|].
  - intros j k c a c0 a0 Hjk Hj Hk. destruct Hlog as [->|(b & Eb & -> & ->)]; [by eapply Ho|].
    apply lookup_app_Some in Hk as [Hk|[Hge Hk]].
    + rewrite lookup_app_l in Hj by (apply lookup_lt_Some in Hk; lia). by eapply Ho.
    + assert (k = length (returned g)) as -> by (apply lookup_lt_Some in Hk; cbn in Hk; lia).
      rewrite Nat.sub_diag in Hk. injection Hk as <- <-. rewrite lookup_app_l in Hj by lia.
      eapply post_ordered; [by apply Hpost|done|]. apply Hr. by eapply list_elem_of_lookup_2.
Qed.

Lemma sound_act a g g' : sound g -> act a g = Some g' -> sound g'.
Proof.
  intros Hs. destruct a as [i c|i|i|i]; cbn [act].
  - destruct (threads g !! i) as [t|] eqn:Ei; [done|]. intros [= <-]. destruct Hs as [Hd Ht Hl Hr Ho].
    split; cbn [db threads returned]; [done| | |done|done].
    + intros j t [[<- <-]|[Hne Hj]]%lookup_insert_Some; [|by eapply Ht]. split; [apply within_empty|by apply body_ok].
    + intros j k t u Hjk [[<- <-]|[Hne Hj]]%lookup_insert_Some [[<- <-]|[Hne' Hk]]%lookup_insert_Some; cbn; first [set_solver|by eapply (Hl j k)].
  - destruct (threads g !! i) as [t|] eqn:Ei; [|done]. cbn [mbind option_bind]. destruct (th_prog t) as [[a|e]|B s k] eqn:Ep.
    + intros [= <-]. eapply sound_end; [done|done|right; by exists a|right; by exists a].
    + intros [= <-]. eapply sound_end; [done|done|by left|by left].
    + destruct (answer s _ _ _) as [[r x]|] eqn:Ea; [|done]. cbn [mbind option_bind]. intros [= <-]. destruct Hs as [Hd Ht Hl Hr Ho].
      destruct (answer_extends _ _ _ _ _ _ Ea) as (Hx1 & Hx2 & Hx3). destruct (Ht _ _ Ei) as [Hw Hok]. rewrite Ep in Hok. cbn [ok] in Hok.
      assert (Hfree : locks (th_session t) ## others i (threads g)).
      { intros l Hlt (j & u & Hj & Hu & Hlu)%elem_of_others. by eapply (Hl j i); eauto. }
      split; cbn [db threads returned]; [done| | |done|done].
      * intros j u [[<- <-]|[Hne Hj]]%lookup_insert_Some; [|by eapply Ht]. cbn. split; [auto|].
        eapply Hok; [by apply rely_refl|exact Hfree|exact Ea].
      * intros j l u v Hjl [[<- <-]|[Hne Hj]]%lookup_insert_Some [[<- <-]|[Hne' Hk]]%lookup_insert_Some; cbn; [congruence| | |by eapply (Hl j l)];
          intros q Hq1 Hq2; [apply Hx2 in Hq1|apply Hx2 in Hq2].
        -- destruct Hq1 as [Hq1|Hq1]; [by eapply (Hl i l); eauto|]. apply Hq1, elem_of_others. exists l, v. by split_and!.
        -- destruct Hq2 as [Hq2|Hq2]; [by eapply (Hl j i); eauto|]. apply Hq2, elem_of_others. exists j, u. by split_and!.
  - destruct (threads g !! i) as [t|] eqn:Ei; [|done]. cbn [mbind option_bind]. destruct (th_prog t) as [[a|e]|] eqn:Ep; [|done..].
    intros [= <-]. eapply sound_end; [done|done|right; by exists a|by left].
  - destruct (threads g !! i) as [t|] eqn:Ei; [|done]. cbn [mbind option_bind]. intros [= <-]. eapply sound_end; [done|done|by left|by left].
Qed.

Lemma sound_acts l g g' : sound g -> acts l g = Some g' -> sound g'.
Proof.
  revert g. induction l as [|a l IH]; intros g Hs; cbn [acts]; [by intros [= <-]|].
  destruct (act a g) as [g1|] eqn:Ea; [|done]. cbn. apply IH. by eapply sound_act.
Qed.
End interleavings.
End server.
