(* ===== verification/PostgresCaps.v ===== *)
(** PostgresCaps: what the calls of packages/storage/postgresStore.ts write,
    whatever runs between their statements: the daily caps stay consistent with
    the reservations, and nothing recorded is lost. *)
From stdpp Require Import relations gmap.
From S2P Require Import Prelude JsString JsMap Host JsTime JsJson JsParse DurableStore PostgresStore PostgresServer.
#[local] Open Scope string_scope.
#[local] Open Scope list_scope.
#[local] Open Scope Z_scope.
#[local] Open Scope js_scope.

Section totals.

Lemma active_total_new key m k r : m !! k = None -> active_total key (<[k := r]> m) = counted key k r + active_total key m.
Proof. intros Hk. unfold active_total. rewrite map_fold_insert_L; [done|intros; lia|done]. Qed.

Lemma active_total_replace key m k r r0 : m !! k = Some r0 ->
  active_total key (<[k := r]> m) = counted key k r - counted key k r0 + active_total key m.
Proof.
  intros Hk. assert (E : m = <[k := r0]> (delete k m)) by (symmetry; by apply insert_delete_id).
  rewrite E, insert_insert_eq, !active_total_new by apply lookup_delete_eq. lia.
Qed.

Lemma active_total_zero key m : (forall k r, m !! k = Some r -> cap_key k r <> key) -> active_total key m = 0.
Proof.
  unfold active_total. induction m as [|k r m Hk IH] using map_ind; intros Hm; [by rewrite map_fold_empty|].
  rewrite map_fold_insert_L; [|intros; lia|done]. rewrite IH.
  - unfold counted. rewrite bool_decide_eq_false_2; [by rewrite andb_false_r|]. apply (Hm k). by rewrite lookup_insert_eq.
  - intros k' r' Hk'. apply Hm. rewrite lookup_insert_ne; [done|]. intros ->. congruence.
Qed.
End totals.

Section calls.
Context `{Host, !Postgres, !PostgresLaws _}.

(** ** Transactions without daily caps *)

(** Writes of the other tables that lose nothing recorded in [d]. *)
Record plain (w d : Database) : Prop := {
  pl_caps : daily_caps w = ∅ /\ cap_reservations w = ∅;
  pl_state k r : tenant_state w !! k = Some r -> forall r0, tenant_state d !! k = Some r0 -> sr_version r0 <= sr_version r;
  pl_idem k r : idempotency w !! k = Some r -> idempotency d !! k = None;
  pl_event k r : outbox w !! k = Some r -> event_key r = k /\ forall r0, outbox d !! k = Some r0 -> event_later r0 r;
}.

Lemma plain_empty d : plain empty_database d.
Proof. split; [done|..]; intros k r Hr; cbn in Hr; by rewrite lookup_empty in Hr. Qed.

Lemma plain_rely w d d' ls : plain w d -> within w ls -> rely ls d d' -> plain w d'.
Proof.
  intros [Hc Hst Hi He] Hw (Hs & _). split; [done|..]; intros k r Hr.
  - rewrite (same_state _ _ _ Hs) by (apply (wi_state _ _ Hw); eauto). by apply Hst.
  - rewrite (same_idem _ _ _ Hs) by (apply (wi_idem _ _ Hw); eauto). by eapply Hi.
  - rewrite (same_event _ _ _ Hs) by (apply (wi_event _ _ Hw); eauto). by apply He.
Qed.

Lemma plain_commit w d : plain w d -> consistent d -> consistent (over w d) /\ grows d (over w d).
Proof.
  intros [[Hc Hr] Hst Hi He] [C1 C2 C3]. split; split; intros k r; cbn; rewrite ?Hc, ?Hr, ?(left_id_L ∅ (∪)).
  - apply C1.
  - apply C2.
  - intros [Hk|[_ Hk]]%lookup_union_Some_raw; [by apply He|by apply C3].
  - intros Hk. destruct (tenant_state w !! k) as [r'|] eqn:E.
    + exists r'. split; [by apply lookup_union_Some_raw; left|]. by apply (Hst _ _ E).
    + exists r. split; [by apply lookup_union_Some_raw; right|done].
  - intros Hk. apply lookup_union_Some_raw. right. split; [|done]. apply eq_None_not_Some. intros [r' Hr']. apply Hi in Hr'. congruence.
  - intros Hk. destruct (outbox w !! k) as [r'|] eqn:E.
    + exists r'. split; [by apply lookup_union_Some_raw; left|]. by apply (He _ _ E).
    + exists r. split; [by apply lookup_union_Some_raw; right|apply event_later_refl].
  - eauto.
  - eauto using reservation_later_refl.
Qed.

Definition plainly (d : Database) (x : Session) : Prop := within (writes x) (locks x) /\ (failed x = false -> plain (writes x) d).

Lemma plainly_new d : plainly d new_session.
Proof. split; [apply within_empty|intros _; apply plain_empty]. Qed.

Lemma plainly_rely d d' x : plainly d x -> rely (locks x) d d' -> plainly d' x.
Proof. intros [Hw Hp] Hd. split; [done|]. intros Hf. by eapply plain_rely; [apply Hp| |]. Qed.

Definition plain_stmt {B} (s : stmt B) : bool :=
  match s with UpsertCap _ _ _ _ _ | InsertReservation _ _ _ _ _ _ | SubtractCap _ _ _ _ | ReleaseReservation _ _ _
  | ClaimEvents _ _ _ _ _ => false | _ => true end.

Definition plain_outcome {B : Type} (d : Database) (o : outcome B) : Prop :=
  match o with Answers _ w _ => plain w d | _ => True end.
Lemma plain_bound {A B : Type} d (r : result A) (k : A -> outcome B) :
  (forall a, r = Ok a -> plain_outcome d (k a)) -> plain_outcome d (bound r k).
Proof. destruct r; cbn; auto. Qed.
Lemma plain_acquire {B : Type} d os l (o : outcome B) : plain_outcome d o -> plain_outcome d (acquire os l o).
Proof. unfold acquire. by destruct (decide _). Qed.
Lemma plain_constraint {B : Type} d b name (o : outcome B) : (b = true -> plain_outcome d o) -> plain_outcome d (constraint b name o).
Proof. unfold constraint. destruct b; cbn; auto. Qed.

Lemma has_false {V : Type} (m : gmap Key V) k : negb (has m k) = true -> m !! k = None.
Proof. unfold has. rewrite negb_true_iff, bool_decide_eq_false. apply eq_None_not_Some. Qed.

Lemma put_outbox_plain w d rows : plain w d ->
  (forall k r, rows !! k = Some r -> event_key r = k /\ forall r0, outbox d !! k = Some r0 -> event_later r0 r) -> plain (put_outbox rows w) d.
Proof.
  intros [Hc Hst Hi He] Hr. split; [done..|]. cbn. intros k r [Hk|[_ Hk]]%lookup_union_Some_raw; [by apply Hr|by apply He].
Qed.

Lemma put_state_plain w d k r : plain w d -> (forall r0, tenant_state d !! k = Some r0 -> sr_version r0 <= sr_version r) ->
  plain (put_state k r w) d.
Proof.
  intros [Hc Hst Hi He] Hr. split; [done| |done..]. cbn. intros k' r' [[<- <-]|[_ Hk]]%lookup_insert_Some; [done|by apply Hst].
Qed.
Lemma state_view w d k r r0 : plain w d -> (tenant_state w ∪ tenant_state d) !! k = Some r -> tenant_state d !! k = Some r0 ->
  sr_version r0 <= sr_version r.
Proof.
  intros Hp [Hk|[_ Hk]]%lookup_union_Some_raw E0; [by eapply (pl_state _ _ Hp)|]. assert (r0 = r) as -> by congruence. done.
Qed.

(** A row of the view, seen from the committed one. *)
Lemma view_later w d k r r0 : plain w d -> (outbox w ∪ outbox d) !! k = Some r -> outbox d !! k = Some r0 -> event_later r0 r.
Proof.
  intros Hp [Hk|[_ Hk]]%lookup_union_Some_raw E0; [by eapply (pl_event _ _ Hp)|].
  assert (r0 = r) as -> by congruence. apply event_later_refl.
Qed.
Lemma view_key w d k r : plain w d -> consistent d -> (outbox w ∪ outbox d) !! k = Some r -> event_key r = k.
Proof. intros Hp Hc [Hk|[_ Hk]]%lookup_union_Some_raw; [by eapply (pl_event _ _ Hp)|by apply Hc]. Qed.

Lemma claim_later worker until now t r r0 : event_later r0 r -> claimable t now r = true -> now <= until ->
  event_later r0 (claim_event worker until r).
Proof.
  intros [He Hd Hl] Hc Hu. unfold claimable in Hc. rewrite !andb_true_iff in Hc.
  destruct Hc as [[[_ Hdel%bool_decide_eq_true] _] Hun]. split; [done| |].
  - cbn. done.
  - intros u Hu0. right. exists until. split; [done|]. apply Hl in Hu0 as [Hs|(u' & E & Hle)].
    + rewrite Hdel in Hs. by destruct Hs.
    + rewrite E in Hun. apply Z.leb_le in Hun. lia.
Qed.
Lemma deliver_later now r r0 : event_later r0 r -> event_later r0 (deliver_event now r).
Proof. intros [He _ _]. split; [done|by eexists|]. intros u _. left. by eexists. Qed.

Lemma exec_plain {B} (s : stmt B) os d w : plain_stmt s = true -> plain w d -> consistent d -> plain_outcome d (exec s os d w).
Proof.
  intros Hs Hp Hc. destruct s; try done; cbn [exec];
    repeat first
      [ apply plain_bound; intros ? ? | apply plain_acquire | apply plain_constraint; intros ?
      | match goal with |- plain_outcome _ (match ?o with _ => _ end) => destruct o eqn:? end
      | match goal with |- plain_outcome _ (if ?b then _ else _) => destruct b eqn:? end ];
    try exact Hp; try solve [by destruct Hp].
  - apply put_state_plain; [done|]. intros r0 E0.
    match goal with E : negb (has _ _) = true |- _ => apply has_false in E as [_ E]%lookup_union_None; cbn in E; congruence end.
  - apply put_state_plain; [done|]. intros r0 E0. cbn [swapped_row sr_version].
    match goal with E : _ !! _ = Some ?r |- _ => pose proof (state_view _ _ _ _ _ Hp E E0) end. lia.
  - destruct Hp as [Hcap Hst Hi He]. split; [done|done| |done]. cbn. intros k r [[<- <-]|[Hne Hk]]%lookup_insert_Some; [|by eapply Hi].
    match goal with E : negb (has _ _) = true |- _ => apply has_false in E as [_ E]%lookup_union_None; exact E end.
  - apply put_outbox_plain; [done|]. intros k r [<- <-]%lookup_singleton_Some. split; [done|]. intros r0 E0.
    match goal with E : negb (has _ _) = true |- _ => apply has_false in E as [_ E]%lookup_union_None; cbn in E; congruence end.
  - apply put_outbox_plain; [done|]. intros k r [<- <-]%lookup_singleton_Some.
    match goal with E : _ !! _ = Some ?r |- _ => pose proof (view_key _ _ _ _ Hp Hc E); pose proof (fun r0 => view_later _ _ _ _ r0 Hp E) end.
    split; [done|]. intros r0 E0. apply deliver_later. auto.
Qed.

(** A statement answered to a plain transaction. *)
Lemma answer_plain {B} (s : stmt B) os d x r x' :
  plain_stmt s = true -> plainly d x -> consistent d -> answer s os d x = Some (r, x') -> plainly d x'.
Proof.
  intros Hs [Hw Hp] Hc Ha. pose proof (answer_extends _ _ _ _ _ _ Ha) as (_ & _ & Hw'). split; [auto|].
  unfold answer in Ha. destruct (failed x) eqn:Hf; [injection Ha as <- <-; intros E; congruence|].
  pose proof (exec_plain s os d (writes x) Hs (Hp eq_refl) Hc) as He.
  destruct (exec s os d (writes x)); [done|injection Ha as <- <-; done|injection Ha as <- <-; done].
Qed.

(** Calls of plain statements only. *)
Fixpoint plain_prog {A} (p : prog A) : Prop :=
  match p with
  | Done _ => True
  | Query s k => plain_stmt s = true /\ forall r, plain_prog (k r)
  end.

Lemma plain_attempt {A B} (p : prog A) (k : result A -> prog B) :
  plain_prog p -> (forall r, plain_prog (k r)) -> plain_prog (attempt p k).
Proof. induction p as [r|B' s c IH]; cbn; [auto|]. intros [Hs Hp] Hk. split; [done|auto]. Qed.
Lemma plain_bind {A B} (p : prog A) (k : A -> prog B) : plain_prog p -> (forall a, plain_prog (k a)) -> plain_prog (p ≫= k).
Proof. intros Hp Hk. apply plain_attempt; [done|]. by intros [a|e]; [apply Hk|]. Qed.
Lemma plain_query {B} (s : stmt B) : plain_stmt s = true -> plain_prog (query s).
Proof. done. Qed.

Lemma plain_ok {A} (p : prog A) d x : plain_prog p -> plainly d x -> ok (fun _ d x => plainly d x /\ consistent d) p d x.
Proof.
  revert d x. induction p as [r|B s k IH]; cbn [ok plain_prog]; intros d x Hp Hx.
  - intros d' Hd. split; [by eapply plainly_rely|apply Hd].
  - destruct Hp as [Hs Hp]. intros d' os r x' Hd _ Ha. apply IH; [done|].
    eapply answer_plain; [done|by eapply plainly_rely|apply Hd|exact Ha].
Qed.

(** Calls that end with the first exception. *)
Fixpoint straight {A} (p : prog A) : Prop :=
  match p with
  | Done _ => True
  | Query s k => (forall e, exists e', k (Throw e) = Done (Throw e')) /\ forall b, straight (k (Ok b))
  end.

Lemma straight_bind {A B} (p : prog A) (k : A -> prog B) : straight p -> (forall a, straight (k a)) -> straight (p ≫= k).
Proof.
  intros Hp Hk. induction p as [[a|e]|B' s c IH]; cbn; [apply Hk|done|]. destruct Hp as [Hs Hp]. split; [|intros b; apply IH, Hp].
  intros e. destruct (Hs e) as [e' ->]. by exists e'.
Qed.
Lemma straight_query {B} (s : stmt B) : straight (query s).
Proof. cbn. split; [intros e; by exists e|done]. Qed.

Lemma straight_ok {A} (p : prog A) d x : plain_prog p -> straight p -> consistent d -> plainly d x -> failed x = false ->
  ok (on_ok (fun _ d x => failed x = false /\ plainly d x /\ consistent d)) p d x.
Proof.
  revert d x. induction p as [r|B s k IH]; cbn [ok plain_prog straight]; intros d x Hp Hs Hc Hx Hf.
  - intros d' Hd. destruct r; [|done]. split; [done|]. split; [by eapply plainly_rely|apply Hd].
  - destruct Hp as [Hps Hp], Hs as [Ht Hs]. intros d' os r x' Hd _ Ha.
    pose proof (answer_plain s os d' x r x' Hps (plainly_rely _ _ _ Hx Hd) (proj2 (proj2 Hd)) Ha) as Hx'.
    unfold answer in Ha. rewrite Hf in Ha. destruct (exec s os d' (writes x)); [done| |]; injection Ha as <- <-.
    + destruct (Ht msg) as [e' ->]. done.
    + apply IH; [apply Hp|apply Hs|apply Hd|exact Hx'|done].
Qed.

Ltac straight_calls :=
  repeat first
    [ done
    | apply straight_bind; [|intros ?] | apply straight_query
    | match goal with |- straight (match ?o with _ => _ end) => destruct o end
    | match goal with |- straight (if ?b then _ else _) => destruct b end
    | progress cbv zeta ].

Ltac plain_calls :=
  repeat first
    [ done
    | apply plain_bind; [|intros ?] | apply plain_query
    | match goal with |- plain_prog (match ?o with _ => _ end) => destruct o end
    | match goal with |- plain_prog (if ?b then _ else _) => destruct b end
    | progress cbv zeta ].

Lemma migrate_plain e : plain_prog (migrate e).
Proof. unfold migrate, apply_migrations, MIGRATION_NAMES. plain_calls. Qed.
Lemma get_plain t a : plain_prog (get t a).
Proof. unfold get. plain_calls. Qed.
Lemma create_plain t a st v now e : plain_prog (create t a st v now e).
Proof. unfold create. plain_calls. Qed.
Lemma swap_plain t a ev es ns v now e : plain_prog (compareAndSwap t a ev es ns v now e).
Proof. unfold compareAndSwap. plain_calls. Qed.
Lemma enqueue_plain t ek tp a p now e : plain_prog (enqueue t ek tp a p now e).
Proof. unfold enqueue. plain_calls. Qed.
Lemma mutate_plain m : plain_prog (mutate m).
Proof.
  induction m; cbn [mutate]; [done|..]; apply plain_attempt; auto using get_plain, create_plain, swap_plain, enqueue_plain.
Qed.
Lemma acknowledge_plain t id wk now e : plain_prog (acknowledgeOutbox t id wk now e).
Proof. unfold acknowledgeOutbox. plain_calls. Qed.
Lemma usage_plain t tk dd : plain_prog (usage_of t tk dd).
Proof. unfold usage_of. plain_calls. Qed.
Lemma migrate_straight e : straight (migrate e).
Proof. unfold migrate, apply_migrations, MIGRATION_NAMES. straight_calls. Qed.
Lemma get_straight t a : straight (get t a).
Proof. unfold get. straight_calls. Qed.
Lemma enqueue_straight t ek tp a p now e : straight (enqueue t ek tp a p now e).
Proof. unfold enqueue. straight_calls. Qed.
Lemma acknowledge_straight t id wk now e : straight (acknowledgeOutbox t id wk now e).
Proof. unfold acknowledgeOutbox. straight_calls. Qed.
Lemma usage_straight t tk dd : straight (usage_of t tk dd).
Proof. unfold usage_of. straight_calls. Qed.

(** ** Reserving and releasing *)

Lemma over_empty d : over empty_database d = d.
Proof. destruct d. unfold over. cbn. by rewrite !(left_id_L ∅ (∪)). Qed.
Lemma over_reservation k r w d : over (put_reservation k r w) d = put_reservation k r (over w d).
Proof. unfold over, put_reservation. cbn. by rewrite insert_union_l. Qed.
Lemma over_cap k r w d : over (put_cap k r w) d = put_cap k r (over w d).
Proof. unfold over, put_cap. cbn. by rewrite insert_union_l. Qed.

Lemma cap_check_true c : cap_check c = true <-> 0 < cr_cap c /\ 0 <= cr_reserved c <= cr_cap c.
Proof. unfold cap_check. rewrite !andb_true_iff, Z.ltb_lt, !Z.leb_le. tauto. Qed.

Lemma caps_commit d ck c rk r :
  consistent d -> cap_check c = true ->
  (forall c0, daily_caps d !! ck = Some c0 -> cr_cap c = cr_cap c0) ->
  (cr_reserved c = active_total ck (<[rk := r]> (cap_reservations d))) ->
  cap_key rk r = ck -> 0 < rr_amount r -> text (rr_token r) = Ok (rr_token r) -> date (rr_date r) = Ok (rr_date r) ->
  (exists t id, rk = [t; id]) -> (forall r0, cap_reservations d !! rk = Some r0 -> reservation_later r0 r) ->
  let d' := put_reservation rk r (put_cap ck c d) in consistent d' /\ grows d d'.
Proof.
  intros [C1 C2 C3] Hch%cap_check_true Hcap Htot Hk Ha Htx Hdt Hrk Hl d'. subst ck. split; split; cbn [daily_caps cap_reservations outbox idempotency put_reservation put_cap d'].
  - intros k c' [[<- <-]|[Hne Hc]]%lookup_insert_Some; [tauto|]. destruct (C1 _ _ Hc) as (? & ? & E). split; [done|]. split; [done|]. rewrite E.
    destruct (cap_reservations d !! rk) as [r0|] eqn:Er.
    + rewrite (active_total_replace _ _ _ _ _ Er). destruct (Hl _ eq_refl) as [(E1 & E2 & _) _].
      assert (Hkk : cap_key rk r0 = cap_key rk r) by (destruct Hrk as (t & id & ->); cbn; by rewrite E1, E2).
      unfold counted. rewrite Hkk, bool_decide_eq_false_2, !andb_false_r by done. lia.
    + rewrite active_total_new by done. unfold counted. rewrite bool_decide_eq_false_2, andb_false_r by done. lia.
  - intros k r' [[<- <-]|[Hne Hr]]%lookup_insert_Some.
    + split; [rewrite lookup_insert_eq; by eexists|done].
    + destruct (C2 _ _ Hr) as ([c0 Hc0] & H2). split; [|done]. destruct (decide (cap_key rk r = cap_key k r')) as [->|Hn];
        [rewrite lookup_insert_eq; by eexists|rewrite lookup_insert_ne by done; by eexists].
  - exact C3.
  - intros k r0 E. by exists r0.
  - done.
  - intros k r0 E. exists r0. split; [done|apply event_later_refl].
  - intros k c0 E. destruct (decide (cap_key rk r = k)) as [<-|Hn].
    + exists c. rewrite lookup_insert_eq. split; [done|]. by apply Hcap.
    + exists c0. by rewrite lookup_insert_ne.
  - intros k r0 E. destruct (decide (rk = k)) as [<-|Hn].
    + exists r. rewrite lookup_insert_eq. split; [done|]. by apply Hl.
    + exists r0. rewrite lookup_insert_ne by done. split; [done|apply reservation_later_refl].
Qed.

(** The row of a cap after a reservation of [amount] was counted. *)
Definition counted_cap (d : Database) (ck : Key) (cap amount : Z) (c : CapRow) : Prop :=
  (exists c0, daily_caps d !! ck = Some c0 /\ c = set_reserved (cr_reserved c0 + amount) c0) \/
  (daily_caps d !! ck = None /\ c = {| cr_cap := cap; cr_reserved := amount |}).

Definition new_reservation (tk dd : jstr) (amount at_ : Z) : ReservationRow :=
  {| rr_token := tk; rr_date := dd; rr_amount := amount; rr_released := false; rr_created := at_; rr_released_at := None |}.

Lemma reserve_commit d t id tk dd cap amount at_ c :
  consistent d -> 0 < amount -> counted_cap d [t; tk; dd] cap amount c -> cap_check c = true ->
  cap_reservations d !! [t; id] = None -> text tk = Ok tk -> date dd = Ok dd ->
  let d' := put_reservation [t; id] (new_reservation tk dd amount at_) (put_cap [t; tk; dd] c d) in consistent d' /\ grows d d'.
Proof.
  intros Hc Ha Hcc Hch Hn Htx Hdt d'. apply caps_commit; try done.
  - destruct Hcc as [(c0 & -> & ->)|[-> _]]; [by intros ? [= <-]|done].
  - rewrite active_total_new by done. unfold counted. cbn [cap_key new_reservation rr_token rr_date rr_released rr_amount negb andb].
    rewrite bool_decide_eq_true_2 by done. destruct Hcc as [(c0 & E & ->)|[E ->]]; cbn [set_reserved cr_reserved].
    + destruct (co_cap _ Hc _ _ E) as (_ & _ & ->). lia.
    + rewrite active_total_zero; [lia|]. intros k r Hr Hk. apply (co_reservation _ Hc) in Hr as ([c0 E0] & _). rewrite Hk in E0. congruence.
  - by exists t, id.
  - intros r0 Hr. pose proof (eq_trans (eq_sym Hn) Hr) as E. done.
Qed.

Lemma release_commit d t id r c at_ :
  consistent d -> cap_reservations d !! [t; id] = Some r -> rr_released r = false ->
  daily_caps d !! [t; rr_token r; rr_date r] = Some c -> cap_check (set_reserved (cr_reserved c - rr_amount r) c) = true ->
  let d' := put_reservation [t; id] (set_released at_ r) (put_cap [t; rr_token r; rr_date r] (set_reserved (cr_reserved c - rr_amount r) c) d) in
  consistent d' /\ grows d d'.
Proof.
  intros Hc Hr Hrel Hcap Hch d'. destruct (co_reservation _ Hc _ _ Hr) as (_ & Ha & Htx & Hdt & _). apply caps_commit; try done.
  - rewrite Hcap. by intros ? [= <-].
  - rewrite (active_total_replace _ _ _ _ _ Hr). unfold counted. cbn [cap_key set_released rr_token rr_date rr_released rr_amount negb andb].
    rewrite Hrel, bool_decide_eq_true_2 by done. cbn [negb andb set_reserved cr_reserved]. destruct (co_cap _ Hc _ _ Hcap) as (_ & _ & ->). lia.
  - by exists t, id.
  - intros r0 E. pose proof (eq_trans (eq_sym Hr) E) as [= <-]. by split.
Qed.
End calls.
