(* ===== verification/PostgresCalls.v ===== *)
(** PostgresCalls: what each call of packages/storage/postgresStore.ts has done
    when it returns, in any interleaving, and what two returned calls have to do
    with each other. *)
From stdpp Require Import relations gmap.
From S2P Require Import Prelude JsString JsMap Host JsTime JsJson JsParse DurableStore PostgresStore PostgresServer PostgresCaps.
#[local] Open Scope string_scope.
#[local] Open Scope list_scope.
#[local] Open Scope Z_scope.
#[local] Open Scope js_scope.

Section facts.
Context `{Host, !Postgres}.

(** A bound text. *)
Definition texts (l : list jstr) : result Key := map_result text l.

(** The expiry a claim writes. *)
Definition claim_until (leaseMs : jsnum) (now : Date) : result Z :=
  match safe_between leaseMs 1000 MAX_SAFE_INTEGER with
  | Some lease => timestamptz (lease_end now lease)
  | None => Throw "invalid PostgreSQL outbox lease"
  end.

(** The stored response [v] of an operation that returned [value]. *)
Definition stored_value (value v : jsval) : Prop := exists s, json_stringify value = Some s /\ jsonb s = Ok v.

(** The answer of an idempotent call and the row under its key. *)
Definition answers_row (requestHash : jstr) (replayed : bool) (value : jsval) (row : IdemRow) : Prop :=
  if replayed then value = ir_response row /\ requestHash = ir_hash row
  else stored_value value (ir_response row) /\ text requestHash = Ok (ir_hash row).

Definition recorded (c : call) (a : Answer) (d : Database) : Prop :=
  match c, a with
  | CCreate t ag _ _ _ _, ARecord _ => exists key row, texts [t; ag] = Ok key /\ tenant_state d !! key = Some row
  | CSwap t ag _ _ _ _ _ _, ARecord r =>
      exists key row, texts [t; ag] = Ok key /\ tenant_state d !! key = Some row /\ version r <= sr_version row
  | CRun t s k h _ _ _, AIdempotent replayed value =>
      exists key row, texts [t; s; k] = Ok key /\ idempotency d !! key = Some row /\ answers_row h replayed value row
  | CReserve i _, ACap r =>
      exists key row, texts [i_tenantId i; i_reservationId i] = Ok key /\ cap_reservations d !! key = Some row /\
        rr_amount row = cp_amountMinor r
  | CClaim t _ _ lease now e, AEvents events =>
      forall ev, ev ∈ events -> exists t' until row, text t = Ok t' /\ claim_until lease (or_now now e 0) = Ok until /\
        outbox d !! [t'; eventId ev] = Some row /\
        (is_Some (er_delivered row) \/ exists u, er_claimed_until row = Some u /\ until <= u)
  | _, _ => True
  end.

(** Between a call and one that returned after it. *)
Definition ordered (c0 : call) (a0 : Answer) (c : call) (a : Answer) : Prop :=
  match c0, a0, c, a with
  | CCreate t0 ag0 _ _ _ _, ARecord _, CCreate t ag _ _ _ _, ARecord _ => texts [t0; ag0] <> texts [t; ag]
  | CSwap t0 ag0 _ _ _ _ _ _, ARecord r0, CSwap t ag ev _ _ _ _ _, ARecord r =>
      texts [t0; ag0] = texts [t; ag] -> version r0 < version r /\ safe_between ev 0 MAX_SAFE_INTEGER = Some (version r - 1)
  | CRun t0 s0 k0 h0 _ _ _, AIdempotent replayed0 value0, CRun t s k h _ _ _, AIdempotent replayed value =>
      texts [t0; s0; k0] = texts [t; s; k] ->
      replayed = true /\ (if replayed0 then value = value0 /\ h = h0 else stored_value value0 value /\ text h0 = Ok h)
  | CReserve i0 _, ACap r0, CReserve i _, ACap r =>
      texts [i_tenantId i0; i_reservationId i0] = texts [i_tenantId i; i_reservationId i] ->
      replayed r = true /\ cp_amountMinor r = cp_amountMinor r0
  | CClaim t0 _ _ lease0 now0 e0, AEvents events0, CClaim t _ _ _ now e, AEvents events =>
      forall ev0 ev until0 at_, text t0 = text t -> ev0 ∈ events0 -> ev ∈ events -> eventId ev0 = eventId ev ->
        claim_until lease0 (or_now now0 e0 0) = Ok until0 -> or_now now e 0 = Some at_ -> until0 <= at_
  | _, _, _, _ => True
  end.

(** What a call found before its writes [w], and writes. *)
Definition did (c : call) (a : Answer) (d w : Database) : Prop :=
  match c, a with
  | CCreate t ag _ _ _ _, ARecord _ =>
      exists key row, texts [t; ag] = Ok key /\ tenant_state d !! key = None /\ tenant_state w !! key = Some row
  | CSwap t ag ev _ _ _ _ _, ARecord r =>
      exists key row0 row, texts [t; ag] = Ok key /\ safe_between ev 0 MAX_SAFE_INTEGER = Some (sr_version row0) /\
        tenant_state d !! key = Some row0 /\ tenant_state w !! key = Some row /\
        version r = sr_version row /\ sr_version row = sr_version row0 + 1
  | CRun t s k h _ _ _, AIdempotent replayed value =>
      exists key row, texts [t; s; k] = Ok key /\ answers_row h replayed value row /\
        (if replayed then idempotency d !! key = Some row else idempotency d !! key = None /\ idempotency w !! key = Some row)
  | CReserve i _, ACap r =>
      exists key row, texts [i_tenantId i; i_reservationId i] = Ok key /\ rr_amount row = cp_amountMinor r /\
        (if replayed r then cap_reservations d !! key = Some row /\ cap_reservations w !! key = None
         else cap_reservations d !! key = None /\ cap_reservations w !! key = Some row)
  | CClaim t _ _ lease now e, AEvents events =>
      forall ev, ev ∈ events -> exists t' at_ until row row', text t = Ok t' /\ or_now now e 0 = Some at_ /\
        claim_until lease (or_now now e 0) = Ok until /\ outbox d !! [t'; eventId ev] = Some row /\ claimable t' at_ row = true /\
        outbox w !! [t'; eventId ev] = Some row' /\ er_claimed_until row' = Some until
  | _, _ => True
  end.

Definition finished (c : call) (a : Answer) (d : Database) (x : Session) : Prop :=
  failed x = false /\ (consistent (over (writes x) d) /\ grows d (over (writes x) d)) /\ did c a d (writes x).
End facts.

Section posts.
Context `{Host, !Postgres, !PostgresLaws _}.

Lemma over_left {V : Type} (w d : gmap Key V) k r : w !! k = Some r -> (w ∪ d) !! k = Some r.
Proof. intros Hk. by apply lookup_union_Some_raw; left. Qed.
Lemma over_right {V : Type} (w d : gmap Key V) k : w !! k = None -> (w ∪ d) !! k = d !! k.
Proof. apply lookup_union_r. Qed.

Lemma finished_commit c a d x : finished c a d x -> consistent (commit x d) /\ grows d (commit x d).
Proof. intros (Hf & Hc & _). unfold commit. by rewrite Hf. Qed.

Lemma finished_recorded c a d x : finished c a d x -> recorded c a (commit x d).
Proof.
  intros (Hf & [_ Hg] & Hd). unfold commit. rewrite Hf. destruct c; try done; destruct a; try done; cbn [recorded did] in *.
  - destruct Hd as (k & row & Hk & _ & Hw). exists k, row. split; [done|]. by apply over_left.
  - destruct Hd as (k & row0 & row & Hk & _ & _ & Hw & -> & _). exists k, row. split; [done|]. split; [by apply over_left|done].
  - destruct Hd as (k & row & Hk & Ha & Hr). exists k, row. split; [done|]. split; [|done]. destruct replayed.
    + by apply (gr_idem _ _ Hg).
    + destruct Hr as [_ Hr]. by apply over_left.
  - intros ev Hev. destruct (Hd ev Hev) as (t' & at_ & until & row & row' & ? & ? & ? & ? & ? & Hw & Hu).
    exists t', until, row'. split; [done|]. split; [done|]. split; [by apply over_left|]. right. exists until. by split.
  - destruct Hd as (k & row & Hk & Ha & Hr). exists k, row. split; [done|]. split; [|done]. cbn. destruct (replayed r).
    + destruct Hr as [Hr Hw]. by rewrite over_right.
    + destruct Hr as [_ Hr]. by apply over_left.
Qed.

Lemma recorded_grows c a d d' : recorded c a d -> grows d d' -> recorded c a d'.
Proof.
  intros Hr Hg. destruct c; try done; destruct a; try done; cbn [recorded] in *.
  - destruct Hr as (k & row & Hk & Hd). destruct (gr_state _ _ Hg _ _ Hd) as (row' & Hd' & _). by exists k, row'.
  - destruct Hr as (k & row & Hk & Hd & Hv). destruct (gr_state _ _ Hg _ _ Hd) as (row' & Hd' & ?). exists k, row'. do 2 (split; [done|]). lia.
  - destruct Hr as (k & row & Hk & Hd & Ha). exists k, row. split; [done|]. split; [by apply Hg|done].
  - intros ev Hev. destruct (Hr ev Hev) as (t' & until & row & Ht & Hu & Hd & Hl).
    destruct (gr_event _ _ Hg _ _ Hd) as (row' & Hd' & [_ E1 E2]). exists t', until, row'. split; [done|]. split; [done|]. split; [done|].
    destruct Hl as [Hs|(u & Eu & Hle)]; [left; auto|]. destruct (E2 _ Eu) as [?|(u' & ? & ?)]; [by left|]. right. exists u'. split; [done|lia].
  - destruct Hr as (k & row & Hk & Hd & Ha). destruct (gr_reservation _ _ Hg _ _ Hd) as (row' & Hd' & [(_ & _ & E) _]).
    exists k, row'. split; [done|]. split; [done|]. congruence.
Qed.

Lemma finished_ordered c a d x c0 a0 : finished c a d x -> recorded c0 a0 d -> ordered c0 a0 c a.
Proof.
  intros (_ & _ & Hd) Hrec. destruct c0; try done; destruct a0; try done; destruct c; try done; destruct a; try done;
    cbn [recorded did ordered] in *.
  - intros Hk. destruct Hrec as (k0 & row0 & E0 & Hr0), Hd as (k1 & row1 & E1 & Hn & _). assert (k0 = k1) as -> by congruence. congruence.
  - intros Hk. destruct Hrec as (k0 & row & E0 & Hr0 & Hv), Hd as (k1 & row0 & row1 & E1 & Hev & Hr1 & _ & Hr & Hr').
    assert (k0 = k1) as -> by congruence. assert (row0 = row) as -> by congruence. split; [lia|]. rewrite Hev. f_equal. lia.
  - intros Hk. destruct Hrec as (k0 & row0 & E0 & Hr0 & Ha0), Hd as (k1 & row1 & E1 & Ha1 & Hr1).
    assert (k0 = k1) as -> by congruence. destruct replayed0; [|destruct Hr1 as [Hn _]; congruence].
    assert (row0 = row1) as -> by congruence. split; [done|]. cbn in Ha1. destruct Ha1 as [-> ->].
    destruct replayed; cbn in Ha0; destruct Ha0 as [Hv Hh]; [by subst|done].
  - intros ev0 ev until0 at_ Ht Hin0 Hin Eid Eu Eat. destruct (Hrec ev0 Hin0) as (t1 & u1 & row1 & Ht1 & Hu1 & Hr1 & Hl).
    destruct (Hd ev Hin) as (t2 & at2 & u2 & row2 & row2' & Ht2 & Hat2 & Hu2 & Hr2 & Hcl & _).
    assert (t1 = t2) as -> by congruence. rewrite Eid in Hr1. assert (row1 = row2) as -> by congruence.
    assert (u1 = until0) as -> by congruence. assert (at2 = at_) as -> by congruence.
    unfold claimable in Hcl. rewrite !andb_true_iff in Hcl. destruct Hcl as [[[_ Hdel%bool_decide_eq_true] _] Hun].
    destruct Hl as [Hs|(u & Hu & Hle)]; [rewrite Hdel in Hs; by destruct Hs|]. rewrite Hu in Hun. apply Z.leb_le in Hun. lia.
  - intros Hk. destruct Hrec as (k0 & row0 & E0 & Hr0 & Ha0), Hd as (k1 & row1 & E1 & Ha1 & Hr1).
    assert (k0 = k1) as -> by congruence. destruct (replayed r0); [|destruct Hr1 as [Hn _]; congruence].
    split; [done|]. destruct Hr1 as [Hr1 _]. congruence.
Qed.

(** ** The calls *)

Lemma plain_done c a d x : failed x = false -> plainly d x -> consistent d -> did c a d (writes x) -> finished c a d x.
Proof. intros Hf [_ Hp] Hc Hd. split; [done|]. split; [|done]. by apply plain_commit; [apply Hp|]. Qed.

(** A call that only does plain work, and nothing that is remembered. *)
Lemma plain_finished c (p : prog Answer) d :
  plain_prog p -> straight p -> consistent d -> (forall a d w, did c a d w) -> ok (on_ok (finished c)) p d new_session.
Proof.
  intros Hp Hs Hc Hd. eapply ok_mono; [|apply (straight_ok p d new_session Hp Hs Hc); [apply plainly_new|done]].
  intros [a|e] d1 x1; [|done]. intros (Hf & Hx & Hc1). by apply plain_done.
Qed.

(** ** What a statement did, from its answer *)

Lemma texts_ok t s k t' s' k' : text t = Ok t' -> text s = Ok s' -> text k = Ok k' -> texts [t; s; k] = Ok [t'; s'; k'].
Proof. intros E1 E2 E3. unfold texts, map_result, mbind, result_bind. by rewrite E1, E2, E3. Qed.
Lemma texts_pair t s t' s' : text t = Ok t' -> text s = Ok s' -> texts [t; s] = Ok [t'; s'].
Proof. intros E1 E2. unfold texts, map_result, mbind, result_bind. by rewrite E1, E2. Qed.

Lemma bound_answers {A B : Type} (r : result A) (k : A -> outcome B) b w ls :
  bound r k = Answers b w ls -> exists a, r = Ok a /\ k a = Answers b w ls.
Proof. destruct r as [a|e]; [by exists a|done]. Qed.
Lemma acquire_answers {B : Type} os l (o : outcome B) b w ls : acquire os l o = Answers b w ls -> o = Answers b w ls.
Proof. unfold acquire. by destruct (decide _). Qed.
Lemma constraint_answers {B : Type} c name (o : outcome B) b w ls :
  constraint c name o = Answers b w ls -> c = true /\ o = Answers b w ls.
Proof. by destruct c. Qed.

(** The next statement of a straight call. *)
Lemma ok_next {A B : Type} (Q : B -> Database -> Session -> Prop) (s : stmt A) (k : A -> prog B) d x :
  (forall d' os a w ls, failed x = false -> rely (locks x) d d' -> exec s os d' (writes x) = Answers a w ls ->
    ok (on_ok Q) (k a) d' {| writes := w; locks := list_to_set ls ∪ locks x; failed := false |}) ->
  ok (on_ok Q) (query s ≫= k) d x.
Proof. intros Hk. apply ok_query. intros d' os Hf Hd _. destruct (exec s os d' (writes x)) eqn:E; [done..|by apply (Hk d' os)]. Qed.

Ltac answered H :=
  repeat first
    [ apply bound_answers in H as (? & ? & H) | apply acquire_answers in H | apply constraint_answers in H as [? H] ].

Lemma advisory_answers key os d w b w' ls : exec (AdvisoryLock key) os d w = Answers b w' ls -> w' = w.
Proof. cbn [exec]. intros E. answered E. by injection E as <- <-. Qed.

Lemma select_idempotency_answers t s k os d w row w' ls :
  exec (SelectIdempotency t s k) os d w = Answers row w' ls ->
  exists key, texts [t; s; k] = Ok key /\ row = idempotency (over w d) !! key /\ w' = w /\ ls = [].
Proof.
  cbn [exec]. intros E. answered E. injection E as <- <- <-. eexists. split; [by eapply texts_ok|done].
Qed.

Lemma insert_idempotency_answers t s k h json now os d w b w' ls :
  exec (InsertIdempotency t s k h json now) os d w = Answers b w' ls ->
  exists key row js, texts [t; s; k] = Ok key /\ json = Some js /\ jsonb js = Ok (ir_response row) /\ text h = Ok (ir_hash row) /\
    idempotency (over w d) !! key = None /\ w' = put_idem key row w /\ ls = [lock_idem key].
Proof.
  cbn [exec]. intros E. answered E. injection E as <- <- <-.
  match goal with Ej : json_of json = _, En : negb (has _ _) = true |- _ => apply has_false in En; destruct json as [js|]; [|done]; injection Ej as <- end.
  eexists _, {| ir_hash := _ |}, js. split; [by eapply texts_ok|]. done.
Qed.

Lemma plainly_next {B} (s : stmt B) os d x b w ls :
  plain_stmt s = true -> plainly d x -> consistent d -> failed x = false -> exec s os d (writes x) = Answers b w ls ->
  plainly d {| writes := w; locks := list_to_set ls ∪ locks x; failed := false |}.
Proof.
  intros Hs Hx Hc Hf He. eapply (answer_plain s os d x (Ok b)); [done..|]. unfold answer. by rewrite Hf, He.
Qed.

Lemma insert_state_answers t a st json now os d w r w' ls :
  exec (InsertState t a st json now) os d w = Answers r w' ls ->
  exists key, texts [t; a] = Ok key /\ tenant_state (over w d) !! key = None /\ w' = put_state key r w /\ ls = [lock_state key] /\ sr_version r = 0.
Proof.
  cbn [exec]. intros E. answered E. injection E as <- <- <-. eexists. split; [by eapply texts_pair|].
  match goal with En : negb (has _ _) = true |- _ => apply has_false in En end. done.
Qed.

Lemma update_state_answers ns json now t a ev es os d w r w' ls :
  exec (UpdateState ns json now t a ev es) os d w = Answers (Some r) w' ls ->
  exists key r0, texts [t; a] = Ok key /\ tenant_state (over w d) !! key = Some r0 /\ sr_version r0 = ev /\ w' = put_state key r w /\
    ls = [lock_state key] /\ sr_version r = sr_version r0 + 1.
Proof.
  cbn [exec]. intros E. answered E. destruct (tenant_state _ !! _) as [r0|] eqn:E0; [|done].
  destruct (_ && _) eqn:Eg; [|done]. answered E. injection E as <- <- <-. apply andb_true_iff in Eg as [Ev%Z.eqb_eq _].
  eexists _, r0. split; [by eapply texts_pair|]. done.
Qed.

Lemma record_version row r : record row = Ok r -> version r = sr_version row.
Proof.
  unfold record, safeInteger. destruct (safe_int _); [|done]. cbv [mbind result_bind]. destruct (iso _); [|done]. by intros [= <-].
Qed.

Lemma create_finished t a st v now e d : consistent d ->
  ok (on_ok (fun r => finished (CCreate t a st v now e) (ARecord r))) (create t a st v now e) d new_session.
Proof.
  intros Hc. unfold create. cbv zeta. do 4 (apply ok_check; intros _ _).
  apply ok_next. intros d1 os1 row w1 ls1 _ R1 He. pose proof (plainly_next (InsertState t a st (json_stringify v) (or_now now e 0)) os1 d1 new_session _ _ _ eq_refl
    (plainly_new _) (proj2 (proj2 R1)) eq_refl He) as Hp.
  apply insert_state_answers in He as (key & Hk & Hn & -> & -> & _). cbn [writes new_session] in *. rewrite over_empty in Hn.
  apply ok_last. intros r d2 _ R2. apply plain_done; [done|by eapply plainly_rely|apply R2|]. exists key, row. split; [done|]. split.
  - rewrite (same_state _ _ _ (proj1 R2)); [done|]. cbn [locks list_to_set]. set_solver.
  - apply lookup_insert_eq.
Qed.

Lemma swap_finished t a ev es ns v now e d : consistent d ->
  ok (on_ok (fun r => finished (CSwap t a ev es ns v now e) (ARecord r))) (compareAndSwap t a ev es ns v now e) d new_session.
Proof.
  intros Hc. unfold compareAndSwap. cbv zeta. do 4 (apply ok_check; intros _ _).
  destruct (safe_between ev 0 MAX_SAFE_INTEGER) as [n|] eqn:Eev; [|done]. apply ok_check; intros _ _.
  apply ok_next. intros d1 os1 found w1 ls1 _ R1 He. pose proof (plainly_next (UpdateState ns (json_stringify v) (or_now now e 0) t a n es) os1 d1 new_session _ _ _ eq_refl
    (plainly_new _) (proj2 (proj2 R1)) eq_refl He) as Hp.
  destruct found as [row|]; [|done]. apply update_state_answers in He as (key & row0 & Hk & H0' & Hv & -> & -> & Hv').
  cbn [writes new_session] in *. rewrite over_empty in H0'.
  apply ok_last. intros r d2 Hr%record_version R2. apply plain_done; [done|by eapply plainly_rely|apply R2|].
  exists key, row0, row. split; [done|]. split; [by rewrite Hv|]. split; [|split; [apply lookup_insert_eq|done]].
  rewrite (same_state _ _ _ (proj1 R2)); [done|]. cbn [locks list_to_set]. set_solver.
Qed.

Lemma fresh_finished t s k h op now e value key row d x :
  texts [t; s; k] = Ok key -> answers_row h false value row -> plainly d x -> failed x = false -> consistent d ->
  idempotency d !! key = None -> idempotency (writes x) !! key = Some row ->
  finished (CRun t s k h op now e) (AIdempotent false value) d x.
Proof. intros Hk Ha Hx Hf Hc Hn Hw. apply plain_done; [done..|]. exists key, row. done. Qed.

Lemma mutation_finished t s k h op now e d : consistent d ->
  ok (on_ok (fun r => finished (CRun t s k h op now e) (AIdempotent r.1 r.2))) (runIdempotent t s k h op now e) d new_session.
Proof.
  intros Hc. unfold runIdempotent. cbv zeta. do 5 (apply ok_check; intros _ _).
  apply ok_next. intros d1 os1 a1 w1 ls1 _ R1 ->%advisory_answers.
  apply ok_next. intros d2 os2 prior w2 ls2 _ R2 (key & Hkey & -> & -> & ->)%select_idempotency_answers.
  cbn [writes new_session] in *. rewrite over_empty. set (x2 := Build_Session _ _ _).
  assert (Hx2 : forall d, plainly d x2) by (intros d'; split; [eapply within_mono; [apply within_empty|set_solver]|intros _; apply plain_empty]).
  destruct (idempotency d2 !! key) as [row|] eqn:Erow.
  - apply ok_check. intros [] Hh. apply ok_ret. intros d3 R3. apply plain_done; [done|done|apply R3|].
    exists key, row. split; [done|]. split; [|by apply (gr_idem _ _ (proj1 (proj2 R3)))].
    split; [done|]. unfold throw_if in Hh. destruct (negb (ir_hash row =s? h)) eqn:En; [done|].
    apply negb_false_iff, jeqb_true in En. done.
  - apply ok_bind; [|apply R2]. eapply ok_mono; [|apply plain_ok; [apply mutate_plain|done]].
    intros [value|e'] d3 x3; [|done]. intros [Hx3 Hc3]. apply ok_next. intros d4 os4 a4 w4 ls4 Hf R4 He.
    pose proof (plainly_next (InsertIdempotency _ _ _ _ _ _) _ _ _ _ _ _ eq_refl (plainly_rely _ _ _ Hx3 R4) (proj2 (proj2 R4)) Hf He) as Hx4.
    apply insert_idempotency_answers in He as (key' & row & js & Hkey' & Hjs & Hv & Hh & Hn & -> & ->).
    assert (key' = key) as -> by congruence. apply lookup_union_None in Hn as [Hw Hn].
    apply ok_ret. intros d5 R5. apply (fresh_finished _ _ _ _ _ _ _ _ key row); cbn [fst snd writes failed].
    + done.
    + split; [by exists js|done].
    + by eapply plainly_rely.
    + done.
    + apply R5.
    + rewrite (same_idem _ _ _ (proj1 R5)); [done|]. cbn [locks]. set_solver.
    + cbn. apply lookup_insert_eq.
Qed.

Lemma claim_answers t now limit wk until os d w rows w' ls :
  exec (ClaimEvents t now limit wk until) os d w = Answers rows w' ls ->
  exists t' at_ worker u, text t = Ok t' /\ timestamptz now = Ok at_ /\ timestamptz until = Ok u /\
    let cands := candidates os t' at_ (Z.to_nat limit) (outbox (over w d)) in
    rows = returning (map (claim_event worker u) cands) /\ w' = put_outbox (events_map (map (claim_event worker u) cands)) w /\
    ls = map (fun r => lock_event (event_key r)) cands.
Proof.
  cbn [exec]. intros E. answered E. injection E as <- <- <-. eexists _, _, _, _. done.
Qed.

(** The rows of a claim: each was claimable, and is written with its lease. *)
Lemma claimed_row worker u cands k r :
  events_map (map (claim_event worker u) cands) !! k = Some r -> exists q, q ∈ cands /\ event_key q = k /\ r = claim_event worker u q.
Proof.
  intros Hk. apply elem_of_list_to_map_2, list_elem_of_fmap in Hk as (r' & [= -> ->] & Hr).
  apply list_elem_of_fmap in Hr as (q & -> & Hq). by exists q.
Qed.
Lemma claimed_some worker u cands q : q ∈ cands -> exists r, events_map (map (claim_event worker u) cands) !! event_key q = Some r.
Proof.
  intros Hq. destruct (events_map _ !! _) as [r|] eqn:E; [by exists r|]. apply not_elem_of_list_to_map_2 in E. destruct E.
  apply list_elem_of_fmap. exists (event_key (claim_event worker u q), claim_event worker u q). split; [done|].
  apply list_elem_of_fmap. exists (claim_event worker u q). split; [done|]. apply list_elem_of_fmap. by exists q.
Qed.

Lemma candidate_row os t now n d q : consistent d -> q ∈ candidates os t now n (outbox d) ->
  claimable t now q = true /\ outbox d !! event_key q = Some q /\ event_key q = [t; er_id q].
Proof.
  intros Hc (Hcl & _ & k & Hk)%candidates_spec. split; [done|]. split; [by rewrite (co_event _ Hc _ _ Hk)|].
  unfold claimable in Hcl. rewrite !andb_true_iff, !bool_decide_eq_true in Hcl. unfold event_key. by destruct Hcl as [[[-> _] _] _].
Qed.

Lemma map_result_in {A B} (f : A -> result B) l ys y : map_result f l = Ok ys -> y ∈ ys -> exists x, x ∈ l /\ f x = Ok y.
Proof.
  revert ys. induction l as [|x l IH]; intros ys; cbn [map_result mbind result_bind]; [intros [= <-] Hy; by apply elem_of_nil in Hy|].
  destruct (f x) as [z|] eqn:Ef; [|done]. destruct (map_result f l) as [zs|]; [|done]. intros [= <-] [->|Hy]%elem_of_cons.
  - exists x. split; [by left|done].
  - destruct (IH _ eq_refl Hy) as (x' & ? & ?). exists x'. split; [by right|done].
Qed.
Lemma outbox_event_id r ev : outbox_event r = Ok ev -> eventId ev = er_id r.
Proof.
  unfold outbox_event. cbv [mbind result_bind]. destruct (iso (er_created r)); [|done]. destruct (iso (er_available r)); [|done].
  destruct (safeInteger _ _); [|done]. destruct (iso_opt (er_claimed_until r)); [|done]. destruct (iso_opt (er_delivered r)); [|done]. by intros [= <-].
Qed.

Lemma lease_until lease now at_ u until :
  safe_between lease 1000 MAX_SAFE_INTEGER = Some u -> timestamptz now = Ok at_ -> timestamptz (lease_end now u) = Ok until ->
  now = Some at_ /\ at_ <= until.
Proof.
  intros (_ & _ & Hu)%safe_between_Some Ha%timestamptz_exact Hb%timestamptz_exact. rewrite Ha in Hb |- *. split; [done|].
  cbn [lease_end] in Hb. unfold new_date in Hb. case_match; [|done]. injection Hb as <-. lia.
Qed.

Lemma claim_finished t wk n lease now e d : consistent d ->
  ok (on_ok (fun l => finished (CClaim t wk n lease now e) (AEvents l))) (claimOutbox t wk n lease now e) d new_session.
Proof.
  intros Hc. unfold claimOutbox. cbv zeta. do 2 (apply ok_check; intros _ _).
  destruct (safe_between n 1 1000) as [limit|]; [|done]. destruct (safe_between lease 1000 MAX_SAFE_INTEGER) as [l|] eqn:El; [|done].
  apply ok_check; intros _ _. apply ok_next. intros d1 os1 rows w1 ls1 _ R1 He.
  pose proof (exec_extends (ClaimEvents t (or_now now e 0) limit wk (lease_end (or_now now e 0) l)) os1 d1 new_session) as Hext. rewrite He in Hext.
  apply claim_answers in He as (t' & at_ & worker & u & Et & Ea & Eu & -> & -> & ->). destruct (lease_until _ _ _ _ _ El Ea Eu) as [Enow Hle].
  cbn [writes new_session] in *. rewrite over_empty in *. set (cands := candidates os1 t' at_ (Z.to_nat limit) (outbox d1)) in *.
  apply ok_last. intros events d2 Hev R2.
  assert (Hcand : forall q, q ∈ cands -> claimable t' at_ q = true /\ event_key q = [t'; er_id q] /\ outbox d2 !! event_key q = Some q).
  { intros q Hq. destruct (candidate_row _ _ _ _ _ _ (proj2 (proj2 R1)) Hq) as (Hcl & Hrow & Hk). split; [done|]. split; [done|].
    rewrite (same_event _ _ _ (proj1 R2)); [done|]. cbn [locks]. apply elem_of_union_l, elem_of_list_to_set, list_elem_of_fmap. by exists q. }
  apply plain_done; [done| |apply R2|].
  - split; cbn [writes locks failed]; [apply (proj2 Hext); [eapply within_mono; [apply within_empty|]; set_solver|set_solver]|]. intros _. apply put_outbox_plain; [apply plain_empty|].
    intros k r (q & Hq & <- & ->)%claimed_row. split; [done|]. destruct (Hcand q Hq) as (Hcl & _ & Hrow). rewrite Hrow. intros r0 [= <-].
    by eapply claim_later; [apply event_later_refl|exact Hcl|].
  - intros ev Hin. destruct (map_result_in _ _ _ _ Hev Hin) as (r & Hr & Er). rewrite returning_all in Hr.
    apply list_elem_of_fmap in Hr as (q & -> & Hq). destruct (Hcand q Hq) as (Hcl & Hk & Hrow). destruct (claimed_some worker u cands q Hq) as [r' Hr'].
    pose proof (claimed_row _ _ _ _ _ Hr') as (q' & _ & _ & ->). rewrite (outbox_event_id _ _ Er). cbn [er_id claim_event].
    exists t', at_, u, q, (claim_event worker u q'). rewrite <- Hk. split; [done|]. split; [done|].
    split; [unfold claim_until; rewrite El; done|]. split; [done|]. split; [done|]. split; [|done]. cbn. by apply over_left.
Qed.

(** ** Daily caps *)

Lemma select_reservation_answers t id b os d w row w' ls :
  exec (SelectReservation t id b) os d w = Answers row w' ls ->
  exists t' id', text t = Ok t' /\ text id = Ok id' /\ row = cap_reservations (over w d) !! [t'; id'] /\ w' = w /\
    (row <> None -> b = true -> ls = [lock_reservation [t'; id']]).
Proof.
  cbn [exec]. intros E. answered E. eexists _, _. split; [done|]. split; [done|].
  destruct (cap_reservations _ !! _) eqn:Er; [destruct b|]; answered E; injection E as <- <- <-; done.
Qed.

Lemma int8_ok z n : int8 z = Ok n -> n = z.
Proof. unfold int8. destruct (z <=? INT8_MAX); [by intros [= <-]|done]. Qed.

Lemma upsert_answers t tk dd cap amount os d w row w' ls :
  exec (UpsertCap t tk dd cap amount) os d w = Answers row w' ls ->
  exists t' tk' dd', text t = Ok t' /\ text tk = Ok tk' /\ date dd = Ok dd' /\
    (forall c, row = Some c -> w' = put_cap [t'; tk'; dd'] c w /\ ls = [lock_cap [t'; tk'; dd']] /\
      counted_cap (over w d) [t'; tk'; dd'] cap amount c /\ cap_check c = true).
Proof.
  cbn [exec]. intros E. answered E. eexists _, _, _. split; [done|]. split; [done|]. split; [done|]. intros c ->.
  destruct (daily_caps _ !! _) as [c0|] eqn:Ec; answered E.
  - match goal with Hs : int8 _ = Ok _ |- _ => apply int8_ok in Hs as -> end.
    destruct (_ && _) eqn:Eg; [|done]. answered E. injection E as <- <- <-. split; [done|]. split; [done|]. split; [|done]. left. by exists c0.
  - injection E as <- <- <-. split; [done|]. split; [done|]. split; [|done]. by right.
Qed.

Lemma insert_reservation_answers t id tk dd amount now os d w b w' ls :
  exec (InsertReservation t id tk dd amount now) os d w = Answers b w' ls ->
  exists t' id' tk' dd' at_, text t = Ok t' /\ text id = Ok id' /\ text tk = Ok tk' /\ date dd = Ok dd' /\
    w' = put_reservation [t'; id'] (new_reservation tk' dd' amount at_) w /\ ls = [lock_reservation [t'; id']] /\
    cap_reservations (over w d) !! [t'; id'] = None /\ 0 < amount.
Proof.
  cbn [exec]. intros E. answered E. injection E as <- <- <-. eexists _, _, _, _, _. do 6 (split; [done|]).
  match goal with En : negb (has _ _) = true, Ea : (0 <? amount) = true |- _ => apply has_false in En; apply Z.ltb_lt in Ea end. done.
Qed.

Lemma subtract_answers n t tk dd os d w b w' ls :
  exec (SubtractCap n t tk dd) os d w = Answers b w' ls ->
  exists t' tk' dd', text t = Ok t' /\ text tk = Ok tk' /\ date dd = Ok dd' /\
    forall c, daily_caps (over w d) !! [t'; tk'; dd'] = Some c ->
      let c' := set_reserved (cr_reserved c - n) c in
      w' = put_cap [t'; tk'; dd'] c' w /\ ls = [lock_cap [t'; tk'; dd']] /\ cap_check c' = true.
Proof.
  cbn [exec]. intros E. answered E. eexists _, _, _. split; [done|]. split; [done|]. split; [done|]. intros c Ec; cbv zeta. rewrite Ec in E.
  answered E. by injection E as <- <- <-.
Qed.

Lemma release_answers now t id os d w b w' ls :
  exec (ReleaseReservation now t id) os d w = Answers b w' ls ->
  exists t' id' at_, text t = Ok t' /\ text id = Ok id' /\
    forall r, cap_reservations (over w d) !! [t'; id'] = Some r ->
      w' = put_reservation [t'; id'] (set_released at_ r) w /\ ls = [lock_reservation [t'; id']].
Proof.
  cbn [exec]. intros E. answered E. eexists _, _, _. split; [done|]. split; [done|]. intros r Er. rewrite Er in E.
  answered E. by injection E as <- <- <-.
Qed.

Lemma select_cap_answers t tk dd os d w row w' ls : exec (SelectCap t tk dd) os d w = Answers row w' ls -> w' = w.
Proof. cbn [exec]. intros E. answered E. by injection E as <- <- <-. Qed.

(** The final reads of a call change nothing. *)
Lemma usage_last {B} (Q : B -> Database -> Session -> Prop) t tk dd (k : Z * Z -> prog B) d x :
  (forall r d' ls, rely (locks x) d d' -> ok (on_ok Q) (k r) d' {| writes := writes x; locks := ls ∪ locks x; failed := false |}) ->
  consistent d -> ok (on_ok Q) (usage_of t tk dd ≫= k) d x.
Proof.
  intros Hk Hc. apply ok_seq; [|done]. unfold usage_of. apply ok_next.
  intros d1 os1 row w1 ls1 _ R1 ->%select_cap_answers. destruct row as [c|]; [|done].
  apply ok_check. intros n1 _. apply ok_check. intros n2 _. intros d2 R2. apply Hk. eapply rely_trans; [exact R1|].
  destruct R2 as (S2 & ?). split; [|done]. eapply same_locked_mono; [|exact S2]. set_solver.
Qed.

Lemma replay_finished i e t id row amount d x :
  text (i_tenantId i) = Ok t -> text (i_reservationId i) = Ok id -> cap_reservations d !! [t; id] = Some row ->
  writes x = empty_database -> failed x = false -> consistent d ->
  ok (on_ok (fun r => finished (CReserve i e) (ACap r))) (replay_reservation i amount row) d x.
Proof.
  intros Et Eid Hrow Hw Hf Hc. unfold replay_reservation.
  destruct (negb (rr_token row =s? i_tokenId i) || negb (rr_date row =s? i_spendDate i)); [done|].
  apply ok_seq; [|done]. apply ok_check. intros stored Hst. apply ok_last. intros [] d1 Eeq R1.
  apply usage_last; [|apply R1]. intros [reserved cap] d2 ls R2. apply ok_ret. intros d3 R3. rewrite Hw in *.
  assert (Hg : grows d d3) by (eapply grows_trans; [apply R1|eapply grows_trans; [apply R2|apply R3]]).
  destruct (gr_reservation _ _ Hg _ _ Hrow) as (row' & Hrow' & [(_ & _ & Ea) _]).
  apply plain_done; cbn [writes failed].
  - done.
  - apply plainly_rely with (d := d2); [|done]. split; [|intros _; apply plain_empty]. eapply within_mono; [apply within_empty|set_solver].
  - apply R3.
  - exists [t; id], row'. split; [by apply texts_pair|]. cbn [cp_amountMinor replayed]. split; [|split; [done|apply lookup_empty]].
    rewrite Ea. unfold throw_if in Eeq. destruct (Z.eqb_spec stored amount) as [->|]; [|done]. unfold safeInteger in Hst. destruct (safe_int (rr_amount row)); [by injection Hst|done].
Qed.

Lemma reserve_finished i e d : consistent d ->
  ok (on_ok (fun r => finished (CReserve i e) (ACap r))) (reserveCap i e) d new_session.
Proof.
  intros Hc. unfold reserveCap. cbv zeta. do 4 (apply ok_check; intros _ _).
  destruct (safe_between (i_amountMinor i) 1 MAX_SAFE_INTEGER) as [amount|] eqn:Eam; [|done].
  destruct (safe_between (i_capMinor i) 1 MAX_SAFE_INTEGER) as [cap|] eqn:Ecap; [|done].
  do 2 (apply ok_check; intros _ _).
  apply ok_next. intros d1 os1 a1 w1 ls1 _ R1 ->%advisory_answers.
  apply ok_next. intros d2 os2 prior w2 ls2 _ R2 (t & id & Et & Eid & -> & -> & _)%select_reservation_answers.
  cbn [writes new_session] in *. rewrite over_empty. set (x2 := Build_Session _ _ _).
  destruct (cap_reservations d2 !! [t; id]) as [row|] eqn:Erow; [apply (replay_finished i e t id); try done; apply R2|].
  unfold fresh_reservation. apply ok_next. intros d3 os3 c w3 ls3 _ R3 (t3 & tk & dd & Et3 & Etk & Edd & Hup)%upsert_answers.
  assert (t3 = t) as -> by congruence. destruct c as [c|]; [|done]. destruct (Hup c eq_refl) as (-> & -> & Hcc & Hch). clear Hup.
  cbn [writes x2] in *. rewrite over_empty in Hcc.
  apply ok_next. intros d4 os4 a4 w4 ls4 _ R4 (t4 & id4 & tk4 & dd4 & at_ & Et4 & Eid4 & Etk4 & Edd4 & -> & -> & Hn & Ha)%insert_reservation_answers.
  assert (t4 = t) as -> by congruence. assert (id4 = id) as -> by congruence.
  assert (tk4 = tk) as -> by congruence. assert (dd4 = dd) as -> by congruence.
  cbn [writes x2] in *. rewrite over_cap, over_empty in Hn. cbn [cap_reservations put_cap] in Hn.
  apply ok_check. intros n1 _. apply ok_check. intros n2 _. apply ok_ret. intros d5 R5.
  assert (Hcap : daily_caps d5 !! [t; tk; dd] = daily_caps d3 !! [t; tk; dd]).
  { rewrite (same_cap _ _ _ (proj1 R5)) by (cbn [locks]; set_solver). apply (same_cap _ _ _ (proj1 R4)). cbn [locks]. set_solver. }
  assert (Hres : cap_reservations d5 !! [t; id] = None) by (rewrite (same_reservation _ _ _ (proj1 R5)); [done|cbn [locks]; set_solver]).
  split; [done|]. cbn [writes]. rewrite over_reservation, over_cap, over_empty. split.
  - eapply reserve_commit; [apply R5|done| |done|done|by eapply text_again|by eapply date_again]. unfold counted_cap in *. by rewrite Hcap.
  - exists [t; id], (new_reservation tk dd amount at_). split; [by apply texts_pair|]. cbn [cp_amountMinor replayed].
    split; [done|]. split; [done|]. cbn. apply lookup_insert_eq.
Qed.

(** The end of [releaseCap]. *)
Definition release_answer (t id : jstr) (b : bool) (row : ReservationRow) : prog CapReservationResult :=
  usage_of t (rr_token row) (rr_date row) ≫= fun '(reserved, cap) =>
  check (safeInteger (rr_amount row) "cap amount") ≫= fun amount =>
  mret {| replayed := b; cp_tenantId := t; reservationId := id; cp_tokenId := rr_token row;
          spendDate := rr_date row; cp_amountMinor := amount; reservedMinor := reserved; capMinor := cap; cp_active := false |}.

Lemma release_end t id b now e row d x :
  failed x = false -> within (writes x) (locks x) ->
  (forall d', rely (locks x) d d' -> consistent (over (writes x) d') /\ grows d' (over (writes x) d')) -> consistent d ->
  ok (on_ok (fun r => finished (CRelease t id now e) (ACap r)))
    (release_answer t id b row) d x.
Proof.
  intros Hf Hw Hend Hc. unfold release_answer. apply usage_last; [|done]. intros [reserved cap] d' ls R. apply ok_check. intros amount _. apply ok_ret. intros d2 R2.
  split; [done|]. split; [|done]. apply Hend. eapply rely_trans; [exact R|]. destruct R2 as (S2 & ?). split; [|done].
  eapply same_locked_mono; [|exact S2]. cbn [locks]. set_solver.
Qed.

Lemma released_finished t id b t' id' row at_ now e c d d1 x :
  text t = Ok t' -> consistent d1 -> cap_reservations d1 !! [t'; id'] = Some row -> rr_released row = false ->
  daily_caps d1 !! [t'; rr_token row; rr_date row] = Some c -> cap_check (set_reserved (cr_reserved c - rr_amount row) c) = true ->
  x = {| writes := put_reservation [t'; id'] (set_released at_ row)
           (put_cap [t'; rr_token row; rr_date row] (set_reserved (cr_reserved c - rr_amount row) c) empty_database);
         locks := locks x; failed := false |} ->
  lock_reservation [t'; id'] ∈ locks x -> lock_cap [t'; rr_token row; rr_date row] ∈ locks x -> rely (locks x) d1 d ->
  ok (on_ok (fun r => finished (CRelease t id now e) (ACap r)))
    (release_answer t id b row) d x.
Proof.
  intros Et Hc Hrow Hrel Hcap Hch Hx L1 L2 R. apply release_end; [by rewrite Hx| | |apply R].
  - assert (Hwx : writes x = put_reservation [t'; id'] (set_released at_ row)
      (put_cap [t'; rr_token row; rr_date row] (set_reserved (cr_reserved c - rr_amount row) c) empty_database)) by (by rewrite Hx).
    rewrite Hwx. split; intros k; cbn; rewrite ?lookup_empty; try (by intros [? ?]); intros [->|Hk]%insert_some; try done;
      rewrite lookup_empty in Hk; by destruct Hk.
  - intros d' R'. pose proof (rely_trans _ _ _ _ R R') as R2. assert (Hwx : writes x = put_reservation [t'; id'] (set_released at_ row)
      (put_cap [t'; rr_token row; rr_date row] (set_reserved (cr_reserved c - rr_amount row) c) empty_database)) by (by rewrite Hx).
    rewrite Hwx, over_reservation, over_cap, over_empty. apply release_commit; [apply R2| |done| |done].
    + rewrite (same_reservation _ _ _ (proj1 R2)); [done|exact L1].
    + rewrite (same_cap _ _ _ (proj1 R2)); [done|exact L2].
Qed.

Lemma release_finished t id now e d : consistent d ->
  ok (on_ok (fun r => finished (CRelease t id now e) (ACap r))) (releaseCap t id now e) d new_session.
Proof.
  intros Hc. unfold releaseCap. cbv zeta. do 3 (apply ok_check; intros _ _).
  apply ok_next. intros d1 os1 found w1 ls1 _ R1 (t' & id' & Et & Eid & -> & -> & Hlock)%select_reservation_answers.
  cbn [writes new_session] in *. rewrite over_empty in *.
  destruct (cap_reservations d1 !! [t'; id']) as [row|] eqn:Erow; [|done]. rewrite (Hlock ltac:(done) eq_refl). clear Hlock ls1.
  destruct (co_reservation _ (proj2 (proj2 R1)) _ _ Erow) as ([c0 Hc0] & Hamt & Htok & Hday & _). cbn [cap_key] in Hc0.
  unfold release_active. apply ok_seq; [|apply R1]. destruct (rr_released row) eqn:Erel.
  - apply ok_ret. intros d2 R2. apply (release_end t id true); [done| | |apply R2].
    + cbn [writes locks]. eapply within_mono; [apply within_empty|set_solver].
    + intros d3 R3. cbn [writes]. rewrite over_empty. split; [apply R3|apply grows_refl].
  - apply ok_next. intros d2 os2 a2 w2 ls2 _ R2 (t2 & tk & dd & Et2 & Etk & Edd & Hsub)%subtract_answers.
    assert (t2 = t') as -> by congruence. assert (tk = rr_token row) as -> by congruence. assert (dd = rr_date row) as -> by congruence.
    cbn [writes] in *. rewrite over_empty in Hsub.
    assert (Hr2 : cap_reservations d2 !! [t'; id'] = Some row)
      by (rewrite (same_reservation _ _ _ (proj1 R2)); [done|cbn [locks list_to_set]; set_solver]).
    destruct (co_reservation _ (proj2 (proj2 R2)) _ _ Hr2) as ([c2 Hc2] & _). cbn [cap_key] in Hc2.
    destruct (Hsub _ Hc2) as (-> & -> & Hch). clear Hsub.
    intros d3 os3 r x3 R3 Ho3 Ha. unfold answer in Ha. cbn [failed] in Ha.
    destruct (exec _ os3 d3 _) as [| |b w3 ls3] eqn:He; [done|by injection Ha as <- <-|]. injection Ha as <- <-.
    apply release_answers in He as (t3 & id3 & at_ & Et3 & Eid3 & Hrr). assert (t3 = t') as -> by congruence. assert (id3 = id') as -> by congruence.
    cbn [writes] in Hrr. rewrite over_cap, over_empty in Hrr. cbn [cap_reservations put_cap] in Hrr.
    assert (Hr3 : cap_reservations d3 !! [t'; id'] = Some row)
      by (rewrite (same_reservation _ _ _ (proj1 R3)); [done|cbn [locks list_to_set]; set_solver]).
    destruct (Hrr _ Hr3) as (-> & ->). intros d4 R4. cbn [on_ok].
    eapply (released_finished t id false t' id' row at_ now e c2 d4 d2); try done; try (cbn [locks list_to_set]; set_solver); [apply R2|].
    eapply rely_trans; [|exact R4]. destruct R3 as (S3 & R3). split; [|done]. eapply same_locked_mono; [|exact S3].
  set_solver.
Qed.

Lemma body_finished c d : consistent d -> ok (on_ok (finished c)) (body c) d new_session.
Proof.
  intros Hc. assert (Hret : forall A B (m : prog A) (f : A -> B), straight m -> straight (m ≫= fun a => mret (f a)))
    by (intros; by apply straight_bind).
  assert (Hpl : forall A B (m : prog A) (f : A -> B), plain_prog m -> plain_prog (m ≫= fun a => mret (f a))) by (intros; by apply plain_bind).
  destruct c; cbn [body];
    [ apply plain_finished; [apply Hpl, migrate_plain|apply Hret, migrate_straight|done|done]
    | apply plain_finished; [apply Hpl, get_plain|apply Hret, get_straight|done|done]
    | apply ok_returns, create_finished; done
    | apply ok_returns, swap_finished; done
    | apply ok_returns, mutation_finished; done
    | apply plain_finished; [apply Hpl, enqueue_plain|apply Hret, enqueue_straight|done|done]
    | apply ok_returns, claim_finished; done
    | apply plain_finished; [apply Hpl, acknowledge_plain|apply Hret, acknowledge_straight|done|done]
    | apply ok_returns, reserve_finished; done
    | apply ok_returns, release_finished; done
    | apply plain_finished; [apply Hpl, usage_plain|apply Hret, usage_straight|done|done] ].
Qed.

(** Every interleaving from an empty database. *)
Lemma runs_sound l g : acts l new_server = Some g -> sound (fun c => on_ok (finished c)) recorded ordered g.
Proof.
  apply sound_acts; [apply body_finished|..|apply sound_new].
  - intros c a d x Hf _. by eapply finished_commit.
  - intros c a d d' Hr Hg _. by eapply recorded_grows.
  - intros c a d x Hf _. by apply finished_recorded.
  - intros c a d x c0 a0 Hf _. by eapply finished_ordered.
Qed.
End posts.
