(* ===== verification/PostgresAlone.v ===== *)
(** PostgresAlone: calls of packages/storage/postgresStore.ts begun while no
    other transaction is open: they never wait, send finitely many statements
    and end; and what becomes of a reservation is decided by the rows alone. *)
From stdpp Require Import relations gmap.
From S2P Require Import Prelude JsString JsMap Host JsTime JsJson JsParse DurableStore PostgresStore PostgresServer PostgresCaps PostgresCalls.
#[local] Open Scope string_scope.
#[local] Open Scope list_scope.
#[local] Open Scope Z_scope.
#[local] Open Scope js_scope.

(** What a reservation of [amount] makes of the row of its cap; [None] where it
    is refused. *)
Definition granted (cap amount : Z) (row : option CapRow) : option CapRow :=
  match row with
  | None => Some {| cr_cap := cap; cr_reserved := amount |}
  | Some c => if (cr_cap c =? cap) && (cr_reserved c + amount <=? cap) then Some (set_reserved (cr_reserved c + amount) c) else None
  end.

Section alone.
Context `{Host, !Postgres, !PostgresLaws _}.

(** ** A call by itself *)

(** The statements a call sends, what it comes to and its transaction, with no
    other transaction open. *)
Fixpoint run_alone {A} (p : prog A) (d : Database) (x : Session) : nat * result A * Session :=
  match p with
  | Done r => (0%nat, r, x)
  | Query s k =>
      match answer s ∅ d x with
      | Some (r, x) => let '(n, q, x) := run_alone (k r) d x in (S n, q, x)
      | None => (0%nat, Throw [], x)
      end
  end.

Lemma exec_alone {B} (s : stmt B) d w : exec s ∅ d w <> Waits.
Proof.
  assert (Hb : forall A C (r : result A) (k : A -> outcome C), (forall a, k a <> Waits) -> bound r k <> Waits) by (intros ? ? [a|e] ? Hk; [apply Hk|done]).
  assert (Ha : forall C l (o : outcome C), o <> Waits -> acquire ∅ l o <> Waits) by (intros C l o Ho; unfold acquire; destruct (decide _); [set_solver|done]).
  assert (Hc : forall C b n (o : outcome C), o <> Waits -> constraint b n o <> Waits) by (intros C [] n o Ho; [done|done]).
  destruct s; cbn [exec];
    repeat first
      [ done | apply Hb; intros ? | apply Ha | apply Hc
      | match goal with |- match ?o with _ => _ end <> _ => destruct o end
      | match goal with |- (if ?b then _ else _) <> _ => destruct b end ].
Qed.

Lemma answer_alone {B} (s : stmt B) d x : exists r x', answer s ∅ d x = Some (r, x').
Proof.
  unfold answer. destruct (failed x); [by eexists _, _|]. pose proof (exec_alone s d (writes x)) as He.
  destruct (exec s ∅ d (writes x)); [done|by eexists _, _|by eexists _, _].
Qed.

Lemma others_alone i t : others i {[i := t]} = ∅.
Proof. unfold others. by rewrite delete_singleton_eq, map_to_list_empty. Qed.

(** Where the call by itself leaves the server. *)
Definition settled (c : call) (r : result Answer) (x : Session) (d : Database) (rs : list (call * Answer)) : Server :=
  match r with
  | Ok a => {| db := commit x d; threads := ∅; returned := rs ++ [(c, a)] |}
  | Throw _ => {| db := d; threads := ∅; returned := rs |}
  end.

Lemma thread_alone i c p d x rs n r x' : run_alone p d x = (n, r, x') ->
  acts (replicate (S n) (Next i)) {| db := d; threads := {[i := {| th_call := c; th_prog := p; th_session := x |}]}; returned := rs |} =
  Some (settled c r x' d rs).
Proof.
  revert n x. induction p as [q|B s k IH]; intros n x; cbn [run_alone].
  - intros [= <- <- <-]. cbn [replicate acts act threads]. rewrite lookup_singleton_eq. destruct q as [a|e]; cbn; by rewrite delete_singleton_eq.
  - destruct (answer_alone s d x) as (b & y & Ha). rewrite Ha. destruct (run_alone (k b) d y) as [[m q] z] eqn:E. intros [= <- <- <-].
    change (replicate (S (S m)) (Next i)) with (Next i :: replicate (S m) (Next i)). cbn [acts act threads]. rewrite lookup_singleton_eq.
    cbn [mbind option_bind th_prog th_session th_call db]. rewrite others_alone, Ha. cbn [mbind option_bind]. rewrite insert_singleton_eq.
    by apply IH.
Qed.

(** Begun with no other transaction open, a call ends after its statements. *)
Lemma call_alone i c g n r x : threads g = ∅ -> run_alone (body c) (db g) new_session = (n, r, x) ->
  acts (Begin i c :: replicate (S n) (Next i)) g = Some (settled c r x (db g) (returned g)).
Proof.
  intros Hn Hr. cbn [acts act]. rewrite Hn, lookup_empty. cbn [mbind option_bind]. rewrite insert_empty. by apply thread_alone.
Qed.

Lemma run_alone_attempt {A B} (p : prog A) (k : result A -> prog B) d x :
  run_alone (attempt p k) d x =
    let '(n, r, y) := run_alone p d x in let '(m, q, z) := run_alone (k r) d y in ((n + m)%nat, q, z).
Proof.
  revert x. induction p as [r|C s c IH]; intros x; cbn [attempt run_alone]; [by destruct (run_alone (k r) d x) as [[m q] z]|].
  destruct (answer s ∅ d x) as [[b y]|] eqn:Ea; [|by destruct (answer_alone s d x) as (? & ? & ?); congruence].
  rewrite IH. destruct (run_alone (c b) d y) as [[n r] z]. by destruct (run_alone (k r) d z) as [[m q] z'].
Qed.

Lemma run_alone_bind {A B} (p : prog A) (k : A -> prog B) d x :
  run_alone (p ≫= k) d x =
    let '(n, r, y) := run_alone p d x in
    match r with Ok a => let '(m, q, z) := run_alone (k a) d y in ((n + m)%nat, q, z) | Throw e => (n, Throw e, y) end.
Proof.
  unfold mbind, prog_bind. rewrite run_alone_attempt. destruct (run_alone p d x) as [[n [a|e]] y]; [done|]. cbn [run_alone]. by rewrite Nat.add_0_r.
Qed.

Lemma run_alone_check {A B} (r : result A) (k : A -> prog B) d x :
  run_alone (check r ≫= k) d x = match r with Ok a => run_alone (k a) d x | Throw e => (0%nat, Throw e, x) end.
Proof. by destruct r. Qed.

(** A statement that answers, or fails, in a transaction that has not failed. *)
Lemma run_alone_answers {B} (s : stmt B) d x b w ls : failed x = false -> exec s ∅ d (writes x) = Answers b w ls ->
  run_alone (query s) d x = (1%nat, Ok b, {| writes := w; locks := list_to_set ls ∪ locks x; failed := false |}).
Proof. intros Hf He. cbn. unfold answer. by rewrite Hf, He. Qed.

Lemma run_alone_fails {B} (s : stmt B) d x e : failed x = false -> exec s ∅ d (writes x) = Fails e ->
  run_alone (query s) d x = (1%nat, Throw e, {| writes := writes x; locks := locks x; failed := true |}).
Proof. intros Hf He. cbn. unfold answer. by rewrite Hf, He. Qed.

Lemma free {B : Type} l (o : outcome B) : acquire ∅ l o = o.
Proof. unfold acquire. by rewrite decide_False by set_solver. Qed.

(** ** A reservation by itself *)

(** A request the call does not refuse before its first statement, with what the
    server stores of its texts. *)
Record reserve_request (i : ReserveInput) (e : Env) (t id tk day : jstr) (amount cap at_ : Z) : Prop := {
  rq_ids : assertIdentifier (i_tenantId i) "tenant id" IDENTIFIER_LIMIT = Ok tt /\
    assertIdentifier (i_reservationId i) "reservation id" IDENTIFIER_LIMIT = Ok tt /\
    assertIdentifier (i_tokenId i) "token id" IDENTIFIER_LIMIT = Ok tt;
  rq_day : day_text (i_spendDate i) = true;
  rq_amount : safe_between (i_amountMinor i) 1 MAX_SAFE_INTEGER = Some amount;
  rq_cap : safe_between (i_capMinor i) 1 MAX_SAFE_INTEGER = Some cap;
  rq_fits : amount <= cap;
  rq_now : or_now (i_now i) e 0 = Some at_ /\ timestamptz (Some at_) = Ok at_;
  rq_lock : exists lock, text (i_tenantId i +:+ [10%N] +:+ "cap" +:+ [10%N] +:+ i_reservationId i) = Ok lock;
  rq_texts : text (i_tenantId i) = Ok t /\ text (i_reservationId i) = Ok id /\ text (i_tokenId i) = Ok tk /\ date (i_spendDate i) = Ok day;
}.

Section reserve.
Context (i : ReserveInput) (e : Env) (t id tk day : jstr) (amount cap at_ : Z).
Hypothesis rq : reserve_request i e t id tk day amount cap at_.

Lemma amounts : 1 <= amount <= cap /\ cap <= MAX_SAFE_INTEGER.
Proof.
  pose proof (rq_fits _ _ _ _ _ _ _ _ _ rq). pose proof (rq_amount _ _ _ _ _ _ _ _ _ rq) as Ha%safe_between_Some.
  pose proof (rq_cap _ _ _ _ _ _ _ _ _ rq) as Hc%safe_between_Some. lia.
Qed.

(** The transaction before its first write. *)
Definition clean (x : Session) : Prop := writes x = empty_database /\ failed x = false.

Lemma reserve_opens d : exists x, clean x /\
  run_alone (reserveCap i e) d new_session =
    let '(n, r, y) := run_alone (match cap_reservations d !! [t; id] with
                                 | Some row => replay_reservation i amount row
                                 | None => fresh_reservation i amount cap (Some at_)
                                 end) d x in (S (S n), r, y).
Proof.
  destruct rq as [(Ei1 & Ei2 & Ei3) Ed Ea Ec Hf [En _] [lock El] (Et & Eid & _)]. unfold reserveCap.
  rewrite run_alone_check, Ei1, run_alone_check, Ei2, run_alone_check, Ei3, run_alone_check, Ed. cbn [negb throw_if].
  rewrite Ea, Ec, run_alone_check, (proj2 (Z.ltb_ge cap amount)) by lia. cbn [throw_if]. rewrite run_alone_check, En. change (assertDate (Some at_) _) with (Ok tt). cbv iota beta.
  rewrite run_alone_bind. erewrite run_alone_answers; [|done|by cbn [exec]; rewrite El; cbn [bound]; rewrite free].
  rewrite run_alone_bind. rewrite (run_alone_answers _ _ _ (cap_reservations d !! [t; id]) empty_database []);
    [|done|cbn [exec writes]; rewrite over_empty, Et, Eid; cbn [bound]; by destruct (_ !! _)].
  match goal with |- context [run_alone ?p d ?x] => exists x; split; [done|]; by destruct (run_alone p d x) as [[n q] y] end.
Qed.

(** The answers of the two ways a reservation is made. *)
Definition made (c : CapRow) : CapReservationResult :=
  {| replayed := false; cp_tenantId := i_tenantId i; reservationId := i_reservationId i; cp_tokenId := i_tokenId i;
     spendDate := i_spendDate i; cp_amountMinor := amount; reservedMinor := cr_reserved c; capMinor := cr_cap c; cp_active := true |}.
Definition again (row : ReservationRow) (c : CapRow) : CapReservationResult :=
  {| replayed := true; cp_tenantId := i_tenantId i; reservationId := i_reservationId i; cp_tokenId := i_tokenId i;
     spendDate := i_spendDate i; cp_amountMinor := amount; reservedMinor := cr_reserved c; capMinor := cr_cap c;
     cp_active := negb (rr_released row) |}.
(** The row is that of this very request. *)
Definition same_request (row : ReservationRow) : bool :=
  bool_decide (rr_token row = i_tokenId i) && bool_decide (rr_date row = i_spendDate i) && bool_decide (rr_amount row = amount).

Lemma upsert_alone d : consistent d ->
  exec (UpsertCap (i_tenantId i) (i_tokenId i) (i_spendDate i) cap amount) ∅ d empty_database =
    match granted cap amount (daily_caps d !! [t; tk; day]) with
    | Some c => Answers (Some c) (put_cap [t; tk; day] c empty_database) [lock_cap [t; tk; day]]
    | None => Answers None empty_database [lock_cap [t; tk; day]]
    end \/
  granted cap amount (daily_caps d !! [t; tk; day]) = None /\
    exec (UpsertCap (i_tenantId i) (i_tokenId i) (i_spendDate i) cap amount) ∅ d empty_database = Fails "bigint out of range".
Proof.
  intros Hd. destruct rq as [_ _ _ _ _ _ _ (Et & _ & Etk & Eday)]. pose proof amounts as Ha.
  cbn [exec]. rewrite over_empty, Et, Etk, Eday. cbn [bound]. rewrite free. destruct (daily_caps d !! [t; tk; day]) as [c|] eqn:Ec; cbn [granted].
  - destruct (co_cap _ Hd _ _ Ec) as (_ & Hr & _). unfold int8. destruct (Z.leb_spec (cr_reserved c + amount) INT8_MAX) as [Hb|Hb]; cbn [bound].
    + left. destruct (Z.eqb_spec (cr_cap c) cap) as [Ecap|]; [|done]. rewrite Ecap. cbn [andb].
      destruct (Z.leb_spec (cr_reserved c + amount) cap); [|done]. unfold cap_check, set_reserved. cbn [cr_cap cr_reserved]. rewrite Ecap.
      rewrite (proj2 (Z.ltb_lt 0 cap)), (proj2 (Z.leb_le 0 _)), (proj2 (Z.leb_le _ cap)) by lia. done.
    + right. split; [|done]. destruct (Z.eqb_spec (cr_cap c) cap); [|done]. cbn [andb].
      rewrite (proj2 (Z.leb_gt _ cap)); [done|]. unfold INT8_MAX in Hb. unfold MAX_SAFE_INTEGER in Ha. lia.
  - left. unfold cap_check. cbn [cr_cap cr_reserved].
    rewrite (proj2 (Z.ltb_lt 0 cap)), (proj2 (Z.leb_le 0 amount)), (proj2 (Z.leb_le amount cap)) by lia. done.
Qed.

Lemma granted_safe d c : consistent d -> granted cap amount (daily_caps d !! [t; tk; day]) = Some c ->
  safeInteger (cr_reserved c) "reserved cap" = Ok (cr_reserved c) /\ safeInteger (cr_cap c) "daily cap" = Ok (cr_cap c).
Proof.
  intros Hd. pose proof amounts as Ha. assert (Hs : forall z f, 0 <= z <= cap -> safeInteger z f = Ok z).
  { intros z f Hz. unfold safeInteger, safe_int. by rewrite (proj2 (Z.leb_le _ _)) by lia. }
  destruct (daily_caps d !! [t; tk; day]) as [c0|] eqn:Ec; cbn [granted].
  - destruct (co_cap _ Hd _ _ Ec) as (_ & Hr & _). destruct (_ && _) eqn:E; [|done]. apply andb_true_iff in E as [E1%Z.eqb_eq E2%Z.leb_le].
    intros [= <-]. cbn [set_reserved cr_cap cr_reserved]. split; apply Hs; lia.
  - intros [= <-]. cbn [cr_cap cr_reserved]. split; apply Hs; lia.
Qed.

Lemma fresh_alone d x : consistent d -> clean x -> cap_reservations d !! [t; id] = None ->
  exists n r y, run_alone (fresh_reservation i amount cap (Some at_)) d x = (n, r, y) /\ (n <= 2)%nat /\
    match granted cap amount (daily_caps d !! [t; tk; day]) with
    | Some c => r = Ok (made c) /\ failed y = false /\
        writes y = put_reservation [t; id] (new_reservation tk day amount at_) (put_cap [t; tk; day] c empty_database)
    | None => exists e, r = Throw e
    end.
Proof.
  intros Hd [Hw Hx] Hn. pose proof amounts as Ha. unfold fresh_reservation. rewrite run_alone_bind.
  destruct (upsert_alone d Hd) as [Hu|[Hg Hu]]; rewrite <- Hw in Hu.
  2:{ rewrite (run_alone_fails _ _ _ _ Hx Hu), Hg. eexists _, _, _. split; [done|]. split; [lia|]. by eexists. }
  destruct (granted _ _ _) as [c|] eqn:Hg.
  2:{ rewrite (run_alone_answers _ _ _ _ _ _ Hx Hu). eexists _, _, _. split; [done|]. split; [lia|]. by eexists. }
  destruct (granted_safe d c Hd Hg) as [Es1 Es2].
  rewrite (run_alone_answers _ _ _ _ _ _ Hx Hu), run_alone_bind.
  destruct rq as [_ _ _ _ _ [_ Eat] _ (Et & Eid & Etk & Eday)].
  erewrite run_alone_answers; [|done|]; cycle 1.
  { cbn [exec writes]. rewrite Et, Eid, Etk, Eday, Eat. cbn [bound]. rewrite free. unfold has.
    cbn [over put_cap empty_database cap_reservations daily_caps]. rewrite Hw. cbn [cap_reservations empty_database daily_caps].
    rewrite !(left_id_L ∅ (∪)), Hn, bool_decide_eq_false_2 by (by intros [? ?]). cbn [negb constraint].
    rewrite bool_decide_eq_true_2 by (eexists; apply lookup_union_Some_l, lookup_insert_eq). cbn [constraint].
    rewrite (proj2 (Z.ltb_lt 0 amount)) by lia. reflexivity. }
  rewrite run_alone_check, Es1, run_alone_check, Es2. eexists _, _, _. split; [reflexivity|]. split; [cbn; lia|]. split_and!; done || by rewrite Hw.
Qed.

Lemma usage_alone d x : clean x ->
  exists y, clean y /\ run_alone (usage_of (i_tenantId i) (i_tokenId i) (i_spendDate i)) d x =
    (1%nat, match daily_caps d !! [t; tk; day] with
            | Some c => safeInteger (cr_reserved c) "reserved cap" ≫= fun reserved => safeInteger (cr_cap c) "daily cap" ≫= fun cap => Ok (reserved, cap)
            | None => Throw "unknown daily cap"
            end, y).
Proof.
  intros [Hw Hx]. destruct rq as [_ _ _ _ _ _ _ (Et & _ & Etk & Eday)]. unfold usage_of. rewrite run_alone_bind.
  rewrite (run_alone_answers _ _ _ (daily_caps d !! [t; tk; day]) empty_database [] Hx)
    by (cbn [exec]; rewrite Hw, over_empty, Et, Etk, Eday; done).
  match goal with |- context [run_alone _ d ?y] => exists y end. split; [done|].
  destruct (daily_caps d !! _) as [c|]; [|done]. rewrite run_alone_check.
  destruct (safeInteger (cr_reserved c) _); [|done]. rewrite run_alone_check. by destruct (safeInteger (cr_cap c) _).
Qed.

Lemma replay_alone d x row : consistent d -> clean x -> cap_reservations d !! [t; id] = Some row ->
  exists n r y, run_alone (replay_reservation i amount row) d x = (n, r, y) /\ (n <= 1)%nat /\ clean y /\
    if same_request row then exists c, daily_caps d !! [t; tk; day] = Some c /\ (cr_cap c <= MAX_SAFE_INTEGER -> r = Ok (again row c))
    else exists e, r = Throw e.
Proof.
  intros Hd Hx Hrow. pose proof amounts as Ha. destruct (co_reservation _ Hd _ _ Hrow) as ([c Ec] & _ & Htk & Hday & _).
  unfold replay_reservation, same_request, jeqb. do 2 case_bool_decide; cbn [negb andb orb];
    try (rewrite run_alone_bind; eexists _, _, _; split; [reflexivity|]; split; [lia|]; split; [done|by eexists]).
  rewrite run_alone_bind, run_alone_check. destruct (usage_alone d x Hx) as (y & Hy & Eu).
  destruct (bool_decide_reflect (rr_amount row = amount)) as [Eam|Hne].
  - unfold safeInteger at 1, safe_int. rewrite Eam, (proj2 (Z.leb_le _ _)) by lia. rewrite Z.eqb_refl. cbn [negb throw_if run_alone check].
    rewrite run_alone_bind, Eu. assert (daily_caps d !! [t; tk; day] = Some c) as E.
    { destruct rq as [_ _ _ _ _ _ _ (_ & _ & Etk & Eday)]. rewrite <- Ec. cbn [cap_key]. congruence. }
    rewrite E. destruct (co_cap _ Hd _ _ E) as (_ & Hr & _). destruct (Z.le_gt_cases (cr_cap c) MAX_SAFE_INTEGER) as [Hs|Hs].
    + unfold safeInteger, safe_int. rewrite !(proj2 (Z.leb_le _ _)) by lia. eexists _, _, _. split; [reflexivity|]. split; [lia|]. split; [done|]. by exists c.
    + destruct (safeInteger (cr_reserved c) _); cbn [mbind result_bind]; [destruct (safeInteger (cr_cap c) _)|];
        (eexists _, _, _; split; [reflexivity|]; split; [lia|]; split; [done|]; exists c; split; [done|lia]).
  - destruct (safeInteger (rr_amount row) _) as [z|] eqn:Es.
    + assert (z = rr_amount row) as -> by (revert Es; unfold safeInteger; destruct (safe_int _); by intros [= ->]).
      rewrite (proj2 (Z.eqb_neq _ _) Hne). cbn [negb throw_if run_alone check]. eexists _, _, _. split; [reflexivity|]. split; [lia|]. split; [done|by eexists].
    + eexists _, _, _. split; [reflexivity|]. split; [lia|]. split; [done|by eexists].
Qed.

(** C14: A reservation left alone is decided: after any run of the store, begun with
    no other transaction open, with input the call does not refuse at once and
    texts the server stores, reserveCap waits for nothing and ends within four
    statements and its COMMIT.  Under an identifier that is free it is made
    exactly when there is no cap row for the token and day yet, or that row has
    the same limit and room for the amount; then the rows are those before with
    the cap counted up and the reservation added, and the answer tells both.
    Otherwise it throws and no row is changed.  Under a used identifier nothing is
    changed: the same request gets the answer of the reservation that stands, if
    the limit of its cap is a safe integer, and another request an exception. *)
Theorem reservation_alone_decided l g k : acts l new_server = Some g -> threads g = ∅ ->
  exists n g', (n <= 5)%nat /\ acts (Begin k (CReserve i e) :: replicate n (Next k)) g = Some g' /\ threads g' = ∅ /\
    match cap_reservations (db g) !! [t; id] with
    | None =>
        match granted cap amount (daily_caps (db g) !! [t; tk; day]) with
        | Some c =>
            db g' = put_reservation [t; id] (new_reservation tk day amount at_) (put_cap [t; tk; day] c (db g)) /\
            returned g' = returned g ++ [(CReserve i e, ACap (made c))]
        | None => db g' = db g /\ returned g' = returned g
        end
    | Some row =>
        db g' = db g /\
        if same_request row
        then exists c, daily_caps (db g) !! [t; tk; day] = Some c /\
               (cr_cap c <= MAX_SAFE_INTEGER -> returned g' = returned g ++ [(CReserve i e, ACap (again row c))])
        else returned g' = returned g
    end.
Proof.
  intros Hl Hn. pose proof (sd_db _ _ _ _ (runs_sound _ _ Hl)) as Hd. destruct (reserve_opens (db g)) as (x & Hx & Ho).
  assert (Hrun : forall n r y, run_alone (reserveCap i e) (db g) new_session = (n, r, y) ->
    acts (Begin k (CReserve i e) :: replicate (S n) (Next k)) g =
      Some (settled (CReserve i e) (match r with Ok a => Ok (ACap a) | Throw e => Throw e end) y (db g) (returned g))).
  { intros n r y Er. apply call_alone; [done|]. cbn [body]. rewrite run_alone_bind, Er. destruct r; [cbn; by rewrite Nat.add_0_r|done]. }
  destruct (cap_reservations (db g) !! [t; id]) as [row|] eqn:Er.
  - destruct (replay_alone (db g) x row Hd Hx Er) as (n & r & y & E & Hle & [Hw Hf] & Hr). rewrite E in Ho.
    eexists (S (S (S n))), _. split; [lia|]. split; [exact (Hrun _ _ _ Ho)|].
    assert (Hc : commit y (db g) = db g) by (unfold commit; rewrite Hf, Hw; apply over_empty).
    destruct (same_request row).
    + destruct Hr as (c & Ec & Hr). destruct r as [a|err]; cbn; rewrite ?Hc; (split_and!; [done..|]; exists c; split; [done|]; intros Hs; specialize (Hr Hs); by inversion Hr).
    + destruct Hr as [err ->]. by cbn.
  - destruct (fresh_alone (db g) x Hd Hx Er) as (n & r & y & E & Hle & Hr). rewrite E in Ho.
    eexists (S (S (S n))), _. split; [lia|]. split; [exact (Hrun _ _ _ Ho)|]. destruct (granted _ _ _) as [c|].
    + destruct Hr as (-> & Hf & Hw). cbn. split; [done|]. split; [|done]. unfold commit. by rewrite Hf, Hw, over_reservation, over_cap, over_empty.
    + destruct Hr as [err ->]. by cbn.
Qed.
End reserve.
End alone.
