(* ===== verification/PostgresRuns.v ===== *)
(** PostgresRuns: what holds of packages/storage/postgresStore.ts however the
    statements of its clients interleave, whichever commits go unheard and
    whichever connections are lost: daily caps, optimistic concurrency,
    idempotency, leases. *)
From stdpp Require Import relations gmap.
From S2P Require Import Prelude JsString JsMap Host TestHost JsTime JsJson JsParse DurableStore PostgresStore PostgresServer PostgresCaps PostgresCalls.
#[local] Open Scope string_scope.
#[local] Open Scope list_scope.
#[local] Open Scope Z_scope.
#[local] Open Scope js_scope.

Section runs.
Context `{Host, !Postgres, !PostgresLaws _}.

(** The calls returned, [j] after [i]. *)
Lemma runs_ordered l g i j c0 a0 c a : acts l new_server = Some g -> (i < j)%nat ->
  returned g !! i = Some (c0, a0) -> returned g !! j = Some (c, a) -> ordered c0 a0 c a.
Proof. intros Hl%runs_sound Hij Hi Hj. by eapply sd_ordered. Qed.

(** C10: Daily caps under concurrency: whatever transactions interleave, fail or
    lose their connection, every daily cap row holds exactly the sum of its
    active reservations, never more than its limit, and every reservation has
    its cap row. *)
Theorem daily_caps_exact l g : acts l new_server = Some g ->
  (forall k c, daily_caps (db g) !! k = Some c ->
    0 <= cr_reserved c <= cr_cap c /\ cr_reserved c = active_total k (cap_reservations (db g))) /\
  (forall k r, cap_reservations (db g) !! k = Some r -> 0 < rr_amount r /\ is_Some (daily_caps (db g) !! cap_key k r)).
Proof.
  intros Hl%runs_sound%sd_db. split.
  - intros k c (_ & ? & ?)%(co_cap _ Hl). done.
  - intros k r (? & ? & _)%(co_reservation _ Hl). done.
Qed.

(** Reserved once: of the calls that returned a reservation under one
    identifier, in the order of their commits, all but the first are replays
    with the amount of the first, which is the amount of its one row. *)
Theorem reservation_counted_once l g i j i0 e0 r0 i1 e1 r1 : acts l new_server = Some g -> (i < j)%nat ->
  returned g !! i = Some (CReserve i0 e0, ACap r0) -> returned g !! j = Some (CReserve i1 e1, ACap r1) ->
  texts [i_tenantId i0; i_reservationId i0] = texts [i_tenantId i1; i_reservationId i1] ->
  replayed r1 = true /\ cp_amountMinor r1 = cp_amountMinor r0 /\
  exists key row, texts [i_tenantId i0; i_reservationId i0] = Ok key /\ cap_reservations (db g) !! key = Some row /\ rr_amount row = cp_amountMinor r0.
Proof.
  intros Hl Hij Hi Hj Hk. destruct (runs_ordered _ _ _ _ _ _ _ _ Hl Hij Hi Hj Hk) as [? ?]. split; [done|]. split; [done|].
  apply (sd_recorded _ _ _ _ (runs_sound _ _ Hl) (CReserve i0 e0) (ACap r0)). by eapply list_elem_of_lookup_2.
Qed.

(** C12: Optimistic concurrency: of two returned creations of one aggregate there
    is no second, and of two swaps of it that returned, the later started from
    a version no lower than the one the earlier wrote: no update is lost. *)
Theorem no_lost_update l g i j c0 r0 c1 r1 : acts l new_server = Some g -> (i < j)%nat ->
  returned g !! i = Some (c0, ARecord r0) -> returned g !! j = Some (c1, ARecord r1) ->
  match c0, c1 with
  | CCreate t0 a0 _ _ _ _, CCreate t1 a1 _ _ _ _ => texts [t0; a0] <> texts [t1; a1]
  | CSwap t0 a0 _ _ _ _ _ _, CSwap t1 a1 ev1 _ _ _ _ _ =>
      texts [t0; a0] = texts [t1; a1] ->
      exists from, safe_between ev1 0 MAX_SAFE_INTEGER = Some from /\ version r0 <= from /\ version r1 = from + 1
  | _, _ => True
  end.
Proof.
  intros Hl Hij Hi Hj. pose proof (runs_ordered _ _ _ _ _ _ _ _ Hl Hij Hi Hj) as Ho. destruct c0; try done; destruct c1; try done.
  intros Hk. destruct (Ho Hk) as [Hlt Hev]. exists (version r1 - 1). split; [done|lia].
Qed.

(** C11: Exactly once under concurrency: of the idempotent mutations that
    returned under one key, every later one is a replay, of the same request
    hash, and returns the stored response of the first. *)
Theorem mutation_committed_once l g i j t0 s0 k0 h0 o0 n0 e0 b0 v0 t1 s1 k1 h1 o1 n1 e1 b1 v1 : acts l new_server = Some g -> (i < j)%nat ->
  returned g !! i = Some (CRun t0 s0 k0 h0 o0 n0 e0, AIdempotent b0 v0) ->
  returned g !! j = Some (CRun t1 s1 k1 h1 o1 n1 e1, AIdempotent b1 v1) ->
  texts [t0; s0; k0] = texts [t1; s1; k1] ->
  b1 = true /\ (if b0 then v1 = v0 /\ h1 = h0 else stored_value v0 v1 /\ text h0 = Ok h1).
Proof. intros Hl Hij Hi Hj Hk. exact (runs_ordered _ _ _ _ _ _ _ _ Hl Hij Hi Hj Hk). Qed.

(** C13: Exclusive leases under concurrency: when two claims returned the same
    event, the later claim's clock had passed the lease of the earlier. *)
Theorem outbox_lease_exclusive l g i j t0 w0 n0 lease0 now0 e0 evs0 t1 w1 n1 lease1 now1 e1 evs1 ev0 ev1 until at_ :
  acts l new_server = Some g -> (i < j)%nat ->
  returned g !! i = Some (CClaim t0 w0 n0 lease0 now0 e0, AEvents evs0) ->
  returned g !! j = Some (CClaim t1 w1 n1 lease1 now1 e1, AEvents evs1) ->
  text t0 = text t1 -> ev0 ∈ evs0 -> ev1 ∈ evs1 -> eventId ev0 = eventId ev1 ->
  claim_until lease0 (or_now now0 e0 0) = Ok until -> or_now now1 e1 0 = Some at_ -> until <= at_.
Proof. intros Hl Hij Hi Hj. pose proof (runs_ordered _ _ _ _ _ _ _ _ Hl Hij Hi Hj) as Ho. exact (Ho ev0 ev1 until at_). Qed.
End runs.
