(* ===== verification/PostgresExamples.v ===== *)
(** PostgresExamples: the theorems on packages/storage/postgresStore.ts at one
    concrete run: two reservations of one daily cap interleave, one is retried,
    one released, a connection is lost, mutations, swaps and claims overlap. *)
From stdpp Require Import relations gmap.
From S2P Require Import Prelude JsString JsMap Host TestHost JsTime JsJson JsParse DurableStore PostgresStore PostgresServer PostgresCaps PostgresCalls PostgresAlone PostgresRuns.
#[local] Open Scope string_scope.
#[local] Open Scope list_scope.
#[local] Open Scope Z_scope.
#[local] Open Scope js_scope.

#[local] Existing Instance test_host.

(** A server that stores texts without a NUL, dates of the form YYYY-MM-DD and
    canonical UUIDs. *)
Definition test_text (s : jstr) : result jstr := if existsb (N.eqb 0) s then Throw "invalid byte sequence" else Ok s.
#[local] Instance test_postgres : Postgres := {|
  text := test_text;
  jsonb := json_parse;
  timestamptz := fun d => match d with Some z => Ok z | None => Throw "invalid timestamp" end;
  date := fun s => if day_text s then Ok s else Throw "invalid date";
  uuid := test_text;
  returning := fun l => l;
|}.

#[local] Instance test_postgres_laws : PostgresLaws test_postgres.
Proof.
  split; cbn.
  - intros s t. unfold test_text. destruct (existsb _ s) eqn:E; [done|]. intros [= <-]. by rewrite E.
  - intros s t. destruct (day_text s) eqn:E; [|done]. intros [= <-]. by rewrite E.
  - by intros [z|] z' [= <-].
  - done.
Qed.

Definition pg_env (n : Z) : Env :=
  {| env_uuid := fun _ => "0d6cf3c5-6f3a-4e0a-9b1e-1f2a3b4c5d6e"; env_challengeId := []; env_clock := fun _ => Some (noon + n) |}.

Definition reserve_input (id : jstr) (amount : Z) : ReserveInput :=
  {| i_tenantId := "tenant"; i_reservationId := id; i_tokenId := "token"; i_spendDate := "2026-01-01";
     i_amountMinor := NInt amount; i_capMinor := NInt 1000; i_now := None |}.
Definition reserve_call (id : jstr) (amount : Z) : call := CReserve (reserve_input id amount) (pg_env 0).
Definition pg_value : jsval := JObj [(js "amount", JNum (NInt 1))].
Definition swap_call (from : Z) : call := CSwap "tenant" "aggregate" (NInt from) "open" "open" pg_value None (pg_env 0).
Definition run_call (n : Z) : call :=
  CRun "tenant" "scope" "key" "hash" (MuCreate "tenant" "aggregate" "open" pg_value None (pg_env n)
    (fun r => MuReturn (match r with Ok _ => Ok pg_value | Throw e => Throw e end))) None (pg_env n).
Definition claim_call (n : Z) : call := CClaim "tenant" "worker" (NInt 10) (NInt 1000) None (pg_env n).

Definition steps (i n : nat) : list action := replicate n (Next i).
(** The statements of threads 0 and 1 alternate until the upsert of thread 0
    locks the cap row; thread 2 loses its connection before its COMMIT. *)
Definition run_caps : list action :=
  [Begin 0 (reserve_call "first" 600); Begin 1 (reserve_call "second" 300); Next 0; Next 1; Next 0; Next 1] ++ steps 0 3 ++
  Begin 2 (reserve_call "third" 100) :: steps 1 3 ++ steps 2 4 ++ [Rollback 2; Begin 3 (reserve_call "first" 600)] ++ steps 3 4 ++
  Begin 4 (CRelease "tenant" "second" None (pg_env 1)) :: steps 4 5.
Definition run_records : list action :=
  [Begin 0 (run_call 0); Next 0; Next 0; Begin 1 (CEnqueue "tenant" "event" "topic" "aggregate" pg_value None (pg_env 0)); Next 0; Next 1; Next 0; Next 1; Next 0;
   Begin 2 (swap_call 0); Begin 3 (run_call 1); Next 2; Next 3; Next 3; Next 2; Next 3; Begin 4 (swap_call 1); Next 4; Next 4] ++
  [Begin 5 (claim_call 0); Next 5; Begin 6 (claim_call 500); Next 5; Next 6; Next 6; Begin 7 (claim_call 1000); Next 7; Next 7].

Definition after_caps : Server := default new_server (acts run_caps new_server).
Definition after_records : Server := default new_server (acts run_records new_server).

Lemma acts_some l : bool_decide (is_Some (acts l new_server)) = true -> acts l new_server = Some (default new_server (acts l new_server)).
Proof. intros [g ->]%bool_decide_eq_true. done. Qed.
Lemma caps_made : acts run_caps new_server = Some after_caps.
Proof. apply acts_some. by vm_compute. Qed.
Lemma records_made : acts run_records new_server = Some after_records.
Proof. apply acts_some. by vm_compute. Qed.

Example caps_row : daily_caps (db after_caps) !! ["tenant" : jstr; "token" : jstr; "2026-01-01" : jstr] = Some {| cr_cap := 1000; cr_reserved := 600 |}.
Proof. by vm_compute. Qed.
(** While thread 0 holds the cap row, thread 1 waits. *)
Example upsert_waits : acts (firstn 7 run_caps ++ [Next 1]) new_server = None.
Proof. by vm_compute. Qed.

(** ** The theorems at these runs *)

Lemma daily_caps_exact_witness :
  0 <= 600 <= 1000 /\ 600 = active_total ["tenant" : jstr; "token" : jstr; "2026-01-01" : jstr] (cap_reservations (db after_caps)).
Proof.
  exact (proj1 (daily_caps_exact run_caps after_caps caps_made) _ {| cr_cap := 1000; cr_reserved := 600 |} caps_row).
Defined.

(** The [n]th reservation returned. *)
Definition cap_answer (n : nat) : CapReservationResult :=
  match returned after_caps !! n with
  | Some (_, ACap r) => r
  | _ => Build_CapReservationResult false [] [] [] [] 0 0 0 false
  end.
Lemma reservation_counted_once_witness :
  replayed (cap_answer 2) = true /\ cp_amountMinor (cap_answer 2) = cp_amountMinor (cap_answer 0) /\
  exists key row, texts ["tenant" : jstr; "first" : jstr] = Ok key /\ cap_reservations (db after_caps) !! key = Some row /\
    rr_amount row = cp_amountMinor (cap_answer 0).
Proof.
  refine (reservation_counted_once run_caps after_caps 0 2 (reserve_input "first" 600) (pg_env 0) (cap_answer 0)
    (reserve_input "first" 600) (pg_env 0) (cap_answer 2) caps_made _ _ _ _); [lia|vm_compute; reflexivity..].
Defined.

Definition record_answer (n : nat) : VersionedRecord :=
  match returned after_records !! n with
  | Some (_, ARecord r) => r
  | _ => {| value := JNull; status := []; version := -1; updatedAt := [] |}
  end.
Lemma no_lost_update_witness :
  exists from, safe_between (NInt 1) 0 MAX_SAFE_INTEGER = Some from /\ version (record_answer 2) <= from /\ version (record_answer 4) = from + 1.
Proof.
  refine (no_lost_update run_records after_records 2 4 (swap_call 0) (record_answer 2) (swap_call 1) (record_answer 4) records_made _ _ _ _);
    [lia|vm_compute; reflexivity|vm_compute; reflexivity|vm_compute; reflexivity].
Defined.

Lemma mutation_committed_once_witness : true = true /\ stored_value pg_value pg_value /\ text "hash" = Ok (js "hash").
Proof.
  refine (mutation_committed_once run_records after_records 1 3 _ _ _ _ _ _ _ false pg_value _ _ _ _ _ _ _ true pg_value records_made _ _ _ _);
    [lia|vm_compute; reflexivity..].
Defined.

Definition no_event : OutboxEvent :=
  {| eventId := []; eventKey := []; topic := []; aggregateId := []; payload := JNull; createdAt := []; availableAt := [];
     attempts := 0; claimedBy := None; claimedUntil := None; deliveredAt := None |}.
Definition events_answer (n : nat) : list OutboxEvent :=
  match returned after_records !! n with Some (_, AEvents l) => l | _ => [] end.
Definition claimed_event (n : nat) : OutboxEvent := match events_answer n with ev :: _ => ev | [] => no_event end.
Lemma outbox_lease_exclusive_witness : noon + 1000 <= noon + 1000.
Proof.
  refine (outbox_lease_exclusive run_records after_records 5 7 "tenant" "worker" (NInt 10) (NInt 1000) None (pg_env 0) (events_answer 5)
    "tenant" "worker" (NInt 10) (NInt 1000) None (pg_env 1000) (events_answer 7) (claimed_event 5) (claimed_event 7)
    (noon + 1000) (noon + 1000) records_made _ _ _ _ _ _ _ _ _);
    [lia|vm_compute; reflexivity|vm_compute; reflexivity|reflexivity|vm_compute; left|vm_compute; left|vm_compute; reflexivity..].
Defined.

(** A fourth reservation, once the others have ended. *)
Lemma fourth_request : reserve_request (reserve_input "fourth" 300) (pg_env 0) "tenant" "fourth" "token" "2026-01-01" 300 1000 noon.
Proof. split; [by vm_compute..|eexists; by vm_compute|by vm_compute]. Qed.
Lemma caps_ended : threads after_caps = ∅.
Proof. by vm_compute. Qed.
Lemma fourth_free : cap_reservations (db after_caps) !! ["tenant" : jstr; "fourth" : jstr] = None.
Proof. by vm_compute. Qed.

Lemma reservation_alone_decided_witness :
  exists n g', (n <= 5)%nat /\ acts (Begin 9 (reserve_call "fourth" 300) :: steps 9 n) after_caps = Some g' /\ threads g' = ∅ /\
    db g' = put_reservation ["tenant" : jstr; "fourth" : jstr] (new_reservation "token" "2026-01-01" 300 noon)
      (put_cap ["tenant" : jstr; "token" : jstr; "2026-01-01" : jstr] {| cr_cap := 1000; cr_reserved := 900 |} (db after_caps)) /\
    returned g' = returned after_caps ++ [(reserve_call "fourth" 300, ACap (made (reserve_input "fourth" 300) 300 {| cr_cap := 1000; cr_reserved := 900 |}))].
Proof.
  destruct (reservation_alone_decided (reserve_input "fourth" 300) (pg_env 0) "tenant" "fourth" "token" "2026-01-01" 300 1000 noon
    fourth_request run_caps after_caps 9 caps_made caps_ended) as (n & g' & Hn & Ha & Ht & Hm).
  exists n, g'. split; [exact Hn|]. split; [exact Ha|]. split; [exact Ht|]. rewrite fourth_free, caps_row in Hm. exact Hm.
Defined.
