(* ===== verification/PostgresCleanup.v ===== *)
(** PostgresCleanup: deleteTenantForTest of packages/storage/postgresStore.ts,
    which deletes the rows of a tenant between tests: one transaction over five
    tables, run while no other transaction is open.  It refuses outside of
    tests, removes exactly the tenant's rows, keeps the database consistent, and
    is all or nothing wherever a statement fails. *)
From stdpp Require Import relations gmap.
From S2P Require Import Prelude JsString JsMap Host JsTime JsJson JsParse DurableStore PostgresStore PostgresServer PostgresCaps PostgresExamples.
#[local] Open Scope string_scope.
#[local] Open Scope list_scope.
#[local] Open Scope Z_scope.
#[local] Open Scope js_scope.

(** ** The statements *)

Inductive Table : Type := CapReservations | DailyCaps | Outbox | Idempotency | TenantState.
(** The tables in the order of the source: the rows that refer to others first. *)
Definition CLEANED : list Table := [CapReservations; DailyCaps; Outbox; Idempotency; TenantState].

Definition of_tenant (tenant : jstr) (k : Key) : bool := bool_decide (head k = Some tenant).
Definition without_tenant {V : Type} (tenant : jstr) (m : gmap Key V) : gmap Key V :=
  filter (fun '(k, _) => of_tenant tenant k = false) m.

(** The foreign key of airlock_cap_reservations. *)
Definition references (d : Database) : bool :=
  forallb (fun '(k, r) => has (daily_caps d) (cap_key k r)) (map_to_list (cap_reservations d)).
Lemma references_true d : (forall k r, cap_reservations d !! k = Some r -> is_Some (daily_caps d !! cap_key k r)) -> references d = true.
Proof. intros Hd. apply forallb_forall. intros [k r] Hk%list_elem_of_In%elem_of_map_to_list. by apply bool_decide_eq_true, Hd. Qed.

Definition emptied (table : Table) (t : jstr) (d : Database) : Database :=
  {| tenant_state := if table is TenantState then without_tenant t (tenant_state d) else tenant_state d;
     idempotency := if table is Idempotency then without_tenant t (idempotency d) else idempotency d;
     outbox := if table is Outbox then without_tenant t (outbox d) else outbox d;
     daily_caps := if table is DailyCaps then without_tenant t (daily_caps d) else daily_caps d;
     cap_reservations := if table is CapReservations then without_tenant t (cap_reservations d) else cap_reservations d;
     migrations := migrations d |}.

(** The statements of the transaction that may fail, the outcome of its COMMIT,
    which may be carried out and its answer lost, and of its ROLLBACK. *)
Inductive Commit : Type := Committed | Refused (e : jstr) | Unheard (e : jstr).
Record Faults : Type := {
  on_begin : option jstr; on_delete : Table -> option jstr; on_commit : Commit; on_rollback : option jstr;
}.

Section cleanup.
Context `{!Postgres}.

(** [DELETE FROM table WHERE tenant_id = $1] *)
Definition delete_from (io : Faults) (tenantId : jstr) (table : Table) (d : Database) : result Database :=
  match on_delete io table with
  | Some e => Throw e
  | None =>
      text tenantId ≫= fun t =>
      let d' := emptied table t d in
      if references d' then Ok d' else Throw "update or delete violates foreign key constraint"
  end.

Fixpoint delete_all (io : Faults) (tenantId : jstr) (tables : list Table) (d : Database) : result Database :=
  match tables with
  | [] => Ok d
  | table :: tables => delete_from io tenantId table d ≫= delete_all io tenantId tables
  end.

(** [#transaction]: an exception rolls back and is thrown on, unless the
    ROLLBACK itself throws; the server drops a transaction not committed. *)
Definition transaction (io : Faults) (work : Database -> result Database) (d : Database) : result unit * Database :=
  let rolled_back e := Throw (default e (on_rollback io)) in
  match on_begin io with
  | Some e => (rolled_back e, d)
  | None =>
      match work d with
      | Throw e => (rolled_back e, d)
      | Ok d' =>
          match on_commit io with
          | Committed => (Ok tt, d')
          | Refused e => (rolled_back e, d)
          | Unheard e => (rolled_back e, d')
          end
      end
  end.

Definition deleteTenantForTest (nodeEnv : option jstr) (tenantId : jstr) (io : Faults) (d : Database) : result unit * Database :=
  if negb (bool_decide (nodeEnv = Some (js "test"))) then (Throw "tenant cleanup is test-only", d)
  else
    match assertIdentifier tenantId "tenant id" IDENTIFIER_LIMIT with
    | Throw e => (Throw e, d)
    | Ok _ => transaction io (delete_all io tenantId CLEANED) d
    end.

(** ** The rows left *)

Definition cleaned (t : jstr) (d : Database) : Database :=
  {| tenant_state := without_tenant t (tenant_state d); idempotency := without_tenant t (idempotency d);
     outbox := without_tenant t (outbox d); daily_caps := without_tenant t (daily_caps d);
     cap_reservations := without_tenant t (cap_reservations d); migrations := migrations d |}.

Lemma cleaned_emptied t d : fold_left (fun d table => emptied table t d) CLEANED d = cleaned t d.
Proof. done. Qed.

Lemma without_some {V : Type} (t : jstr) (m : gmap Key V) k r : without_tenant t m !! k = Some r <-> m !! k = Some r /\ of_tenant t k = false.
Proof. apply map_lookup_filter_Some. Qed.

Lemma delete_all_inv io tenantId tables d d' : delete_all io tenantId tables d = Ok d' ->
  tables = [] \/ exists t, text tenantId = Ok t /\ d' = fold_left (fun d table => emptied table t d) tables d.
Proof.
  revert d. induction tables as [|table tables IH]; intros d; cbn; [by left|]. unfold delete_from at 1. right.
  destruct (on_delete io table); [done|]. destruct (text tenantId) as [t|] eqn:Et; [|done].
  cbn [mbind result_bind] in *. destruct (references _); [|done]. destruct (IH _ ltac:(eassumption)) as [->|(t' & E & ->)].
  - exists t. split; [done|]. cbn in *. congruence.
  - exists t. split; [done|]. by injection E as <-.
Qed.

(** Each deletion keeps the references: the reservations go before the caps. *)
Lemma references_reservations t d : consistent d -> references (emptied CapReservations t d) = true.
Proof. intros Hc. apply references_true. intros k r [Hk _]%without_some. apply (co_reservation _ Hc _ _ Hk). Qed.

Lemma references_caps t d : consistent d -> references (emptied DailyCaps t (emptied CapReservations t d)) = true.
Proof.
  intros Hc. apply references_true. intros k r [Hk Ht]%without_some. destruct (co_reservation _ Hc _ _ Hk) as ([c E] & _ & _ & _ & t' & id & ->).
  exists c. apply without_some. by split.
Qed.

Lemma delete_from_ok io tenantId t table d : text tenantId = Ok t -> on_delete io table = None -> references (emptied table t d) = true ->
  delete_from io tenantId table d = Ok (emptied table t d).
Proof. intros Ht Hio Hr. unfold delete_from. rewrite Hio, Ht. cbn. by rewrite Hr. Qed.

Lemma delete_all_complete io tenantId t d : consistent d -> text tenantId = Ok t -> (forall table, on_delete io table = None) ->
  delete_all io tenantId CLEANED d = Ok (cleaned t d).
Proof.
  intros Hc Ht Hio. pose proof (references_reservations t d Hc) as H1.
  pose proof (references_caps t d Hc) as H2. unfold CLEANED.
  repeat (cbn [delete_all]; erewrite delete_from_ok by (done || apply Hio); cbn [mbind result_bind]). done.
Qed.

(** ** Consistency *)

Lemma active_total_filter key t m :
  (forall k r, m !! k = Some r -> cap_key k r = key -> of_tenant t k = false) ->
  active_total key (without_tenant t m) = active_total key m.
Proof.
  unfold without_tenant. induction m as [|k r m Hk IH] using map_ind; intros Hm; [by rewrite map_filter_empty|].
  rewrite active_total_new by done. rewrite <- IH.
  2:{ intros k' r' Hk'. apply Hm. rewrite lookup_insert_ne; [done|]. intros ->. congruence. }
  destruct (of_tenant t k) eqn:Et.
  - rewrite map_filter_insert_False by (rewrite Et; done). rewrite delete_id by done.
    unfold counted. rewrite bool_decide_eq_false_2, andb_false_r; [lia|]. intros E. specialize (Hm k r). rewrite lookup_insert_eq in Hm.
    rewrite Hm in Et by done. done.
  - rewrite map_filter_insert_True by done. rewrite active_total_new; [done|]. apply map_lookup_filter_None. by left.
Qed.

Lemma cleaned_consistent t d : consistent d -> consistent (cleaned t d).
Proof.
  intros Hc. split; intros k r [Hk Ht]%without_some.
  - destruct (co_cap _ Hc _ _ Hk) as (? & ? & E). split; [done|]. split; [done|]. rewrite E. symmetry. apply active_total_filter.
    intros k' r' Hk' Hkey. destruct (co_reservation _ Hc _ _ Hk') as (_ & _ & _ & _ & t' & id & ->).
    cbn in Hkey. subst k. exact Ht.
  - destruct (co_reservation _ Hc _ _ Hk) as ([c E] & ? & ? & ? & t' & id & ->).
    repeat split; try done; [|by eexists _, _]. exists c. apply without_some. by split.
  - by apply (co_event _ Hc).
Qed.

(** ** The call *)

(** The cleanup of a consistent database: refused outside of tests; what is
    left is the database as it was or all of it but the tenant's rows, and
    consistent; it is the latter when the call returns, and it returns when no
    statement fails. *)
Theorem tenant_cleanup nodeEnv tenantId io d : consistent d ->
  let '(r, d') := deleteTenantForTest nodeEnv tenantId io d in
  consistent d' /\
  (d' = d \/ exists t, text tenantId = Ok t /\ d' = cleaned t d) /\
  (r = Ok tt -> nodeEnv = Some (js "test") /\ exists t, text tenantId = Ok t /\ d' = cleaned t d) /\
  (nodeEnv = Some (js "test") -> assertIdentifier tenantId "tenant id" IDENTIFIER_LIMIT = Ok tt -> (exists t, text tenantId = Ok t) ->
    on_begin io = None -> (forall table, on_delete io table = None) -> on_commit io = Committed -> r = Ok tt).
Proof.
  intros Hc. unfold deleteTenantForTest. case_bool_decide as He; cbn [negb]; [|naive_solver].
  destruct (assertIdentifier _ _ _) as [[]|e] eqn:Ea; [|naive_solver]. unfold transaction.
  destruct (on_begin io) eqn:Eb; [naive_solver|].
  destruct (delete_all io tenantId CLEANED d) as [d'|e] eqn:Ed.
  - destruct (delete_all_inv _ _ _ _ _ Ed) as [|(t & Et & Hd)]; [done|]. rewrite cleaned_emptied in Hd. subst d'.
    pose proof (cleaned_consistent t d Hc). destruct (on_commit io) eqn:Ec; naive_solver.
  - split; [done|]. split; [by left|]. split; [done|]. intros _ _ [t Et] _ Hio _. exfalso.
    rewrite (delete_all_complete io tenantId t d) in Ed; done.
Qed.

(** No row of the tenant is left, and no other row is touched. *)
Lemma cleaned_rows t d k :
  cap_reservations (cleaned t d) !! k = (if of_tenant t k then None else cap_reservations d !! k) /\
  daily_caps (cleaned t d) !! k = (if of_tenant t k then None else daily_caps d !! k) /\
  outbox (cleaned t d) !! k = (if of_tenant t k then None else outbox d !! k) /\
  idempotency (cleaned t d) !! k = (if of_tenant t k then None else idempotency d !! k) /\
  tenant_state (cleaned t d) !! k = (if of_tenant t k then None else tenant_state d !! k) /\
  migrations (cleaned t d) = migrations d.
Proof.
  assert (E : forall (V : Type) (m : gmap Key V), without_tenant t m !! k = if of_tenant t k then None else m !! k).
  { intros V m. unfold without_tenant. rewrite map_lookup_filter. destruct (m !! k) as [r|]; cbn; destruct (of_tenant t k); done. }
  cbn. by rewrite !E.
Qed.
End cleanup.

(** ** Runs *)

#[local] Existing Instance test_postgres.

Definition calm : Faults := {| on_begin := None; on_delete := fun _ => None; on_commit := Committed; on_rollback := None |}.
(** A database with one reservation of each of two tenants. *)
Definition cap_row : CapRow := {| cr_cap := 1000; cr_reserved := 600 |}.
Definition reservation_row : ReservationRow :=
  {| rr_token := "token"; rr_date := "2026-01-01"; rr_amount := 600; rr_released := false; rr_created := 0; rr_released_at := None |}.
Definition two_tenants : Database :=
  let reserve t := put_reservation [js t; js "first"] reservation_row in
  let cap t := put_cap [js t; js "token"; js "2026-01-01"] cap_row in
  cap "one" (reserve "one" (cap "other" (reserve "other" empty_database))).

Example cleans_one_tenant :
  map (fun '(k, _) => head k) (map_to_list (daily_caps (deleteTenantForTest (Some (js "test")) "one" calm two_tenants).2)) = [Some (js "other")].
Proof. by vm_compute. Qed.
(** A cap cannot go before its reservation. *)
Example caps_go_second : exists e, delete_all calm "one" [DailyCaps; CapReservations] two_tenants = Throw e.
Proof. eexists. by vm_compute. Qed.
Example refused_in_production :
  deleteTenantForTest (Some (js "production")) "one" calm two_tenants = (Throw "tenant cleanup is test-only", two_tenants).
Proof. done. Qed.
Example cleanup_lost_answer :
  let '(r, d) := deleteTenantForTest (Some (js "test")) "one"
    {| on_begin := None; on_delete := fun _ => None; on_commit := Unheard "Connection terminated unexpectedly"; on_rollback := None |} two_tenants in
  r = Throw "Connection terminated unexpectedly" /\ map (fun '(k, _) => head k) (map_to_list (cap_reservations d)) = [Some (js "other")].
Proof. vm_compute. by split. Qed.
