(* ===== verification/Url.v ===== *)
(** Url: the URL parser of Node.js, which several components call on
    configured and received addresses. *)
From S2P Require Import Prelude JsString.
#[local] Open Scope list_scope.
#[local] Open Scope js_scope.

(** The properties of [new URL(text)] the program reads. *)
Record URL : Type := {
  href : jstr; origin : jstr; protocol : jstr; username : jstr; password : jstr; hostname : jstr; search : jstr; hash : jstr;
}.

(** [new URL(text)]; [None] where it throws. *)
Class UrlParser := url_parse : jstr -> option URL.

(** A parser for test runs: [https://name/path] and [https://name], with no
    port, user or query. *)
Fixpoint url_split (c : N) (s : jstr) : jstr * jstr :=
  match s with
  | [] => ([], [])
  | d :: r => if (d =? c)%N then ([], s) else let '(a, b) := url_split c r in (d :: a, b)
  end.
Definition test_url_parser : UrlParser := fun text =>
  if (js "https://" =s? take 8 text) && forallb (fun c => is_lower c || is_digit c || (c =? 46)%N || (c =? 45)%N || (c =? 47)%N) (drop 8 text)
  then let '(name, path) := url_split 47 (drop 8 text) in
       Some {| href := js "https://" ++ name ++ match path with [] => [47%N] | _ => path end;
               origin := js "https://" ++ name; protocol := "https:"; username := []; password := [];
               hostname := name; search := []; hash := [] |}
  else None.
