(* ===== verification/JsNumber.v ===== *)
(** JsNumber: IEEE-754 double arithmetic on JavaScript numbers: every result is
    the exact rational result rounded to 53 significant bits, ties to even,
    down to the subnormals and up to the infinities.  The sign of zero, which
    no code here observes, is not kept. *)
From Stdlib Require Import QArith Qpower Qabs Lqa.
From S2P Require Import Prelude.
#[local] Open Scope Z_scope.

(** ** Rounding *)

Definition pow2 (e : Z) : Q := (2 # 1) ^ e.

(** The exponent [k] with [2^k <= n/d < 2^(k+1)]. *)
Definition ratio_log2 (n d : positive) : Z :=
  let k := Z.log2 (Zpos n) - Z.log2 (Zpos d) in
  if (0 <=? k) then (if Zpos d * 2 ^ k <=? Zpos n then k else k - 1)
  else (if Zpos d <=? Zpos n * 2 ^ (- k) then k else k - 1).

(** The exponent of the last place of a double near [n/d]. *)
Definition last_place (n d : positive) : Z := Z.max (-1074) (ratio_log2 n d - 52).

(** [a / b] to the nearest integer, ties to even. *)
Definition nearest (a b : Z) : Z :=
  let q := a / b in let r := a mod b in
  if (2 * r <? b) || ((2 * r =? b) && Z.even q) then q else q + 1.

Definition round_pos (n d : positive) : Q :=
  let e := last_place n d in
  let m := if 0 <=? e then nearest (Zpos n) (Zpos d * 2 ^ e) else nearest (Zpos n * 2 ^ (- e)) (Zpos d) in
  (inject_Z m * pow2 e)%Q.

(** Doubles end before [2^1024]. *)
Definition OVERFLOW : Q := pow2 1024.

Definition round_q (x : Q) : Q :=
  match Qnum x with
  | Z0 => 0%Q
  | Zpos n => round_pos n (Qden x)
  | Zneg n => (- round_pos n (Qden x))%Q
  end.

(** A rational as the double nearest to it. *)
Definition num_of (x : Q) : jsnum :=
  let r := Qred (round_q x) in
  if Qle_bool OVERFLOW (Qabs r) then NInf (Qle_bool r 0)
  else if (Qden r =? 1)%positive then NInt (Qnum r) else NFrac (Qnum r) (Qden r).

(** ** Arithmetic *)

Definition qval (n : jsnum) : Q := match n with NInt z => inject_Z z | NFrac p q => p # q | _ => 0%Q end.
Definition is_num (n : jsnum) : bool := match n with NInt _ | NFrac _ _ => true | _ => false end.
Definition negative (n : jsnum) : bool := match n with NInf b => b | NNaN => false | _ => negb (Qle_bool 0 (qval n)) end.
Definition opposite (n : jsnum) : jsnum :=
  match n with NInt z => NInt (- z) | NFrac p q => NFrac (- p) q | NNaN => NNaN | NInf b => NInf (negb b) end.

Definition num_plus (a b : jsnum) : jsnum :=
  match a, b with
  | NNaN, _ | _, NNaN => NNaN
  | NInf s, NInf t => if Bool.eqb s t then NInf s else NNaN
  | NInf s, _ | _, NInf s => NInf s
  | _, _ => num_of (qval a + qval b)
  end.
Definition num_minus (a b : jsnum) : jsnum := num_plus a (opposite b).
Definition num_times (a b : jsnum) : jsnum :=
  match a, b with
  | NNaN, _ | _, NNaN => NNaN
  | NInf _, _ | _, NInf _ =>
      if (is_num a && Qeq_bool (qval a) 0) || (is_num b && Qeq_bool (qval b) 0) then NNaN else NInf (xorb (negative a) (negative b))
  | _, _ => num_of (qval a * qval b)
  end.
(** Division by a positive or infinite number, or by NaN. *)
Definition num_over (a b : jsnum) : jsnum :=
  match a, b with
  | NNaN, _ | _, NNaN | NInf _, NInf _ => NNaN
  | NInf s, _ => NInf (xorb s (negative b))
  | _, NInf _ => NInt 0
  | _, _ => num_of (qval a / qval b)
  end.

(** [a < b] and [a <= b]; false of NaN. *)
Definition num_less (a b : jsnum) : bool :=
  match a, b with
  | NNaN, _ | _, NNaN => false
  | NInf s, NInf t => s && negb t
  | NInf s, _ => s
  | _, NInf t => negb t
  | _, _ => negb (Qle_bool (qval b) (qval a))
  end.
Definition num_least (a b : jsnum) : bool :=
  match a, b with NNaN, _ | _, NNaN => false | _, _ => negb (num_less b a) end.

(** [Math.max], [Math.min] and [Math.ceil] *)
Definition num_max (a b : jsnum) : jsnum :=
  match a, b with NNaN, _ | _, NNaN => NNaN | _, _ => if num_less a b then b else a end.
Definition num_min (a b : jsnum) : jsnum :=
  match a, b with NNaN, _ | _, NNaN => NNaN | _, _ => if num_less b a then b else a end.
Definition num_ceil (a : jsnum) : jsnum := match a with NFrac p q => NInt (- ((- p) / Zpos q)) | _ => a end.

(** 0.1 + 0.2 *)
Example tenths : num_plus (num_of (1 # 10)) (num_of (2 # 10)) = NFrac 1351079888211149 4503599627370496.
Proof. by vm_compute. Qed.
Example third : num_over (NInt 1) (NInt 3) = NFrac 6004799503160661 18014398509481984.
Proof. by vm_compute. Qed.

(** ** The error of rounding *)

Lemma pow2_pos e : (0 < pow2 e)%Q.
Proof. apply Qpower_0_lt. lra. Qed.
Lemma overflow_pos : (0 < OVERFLOW)%Q.
Proof. apply pow2_pos. Qed.
Lemma pow2_plus a b : (pow2 (a + b) == pow2 a * pow2 b)%Q.
Proof. apply Qpower_plus. lra. Qed.
Lemma pow2_Z e : 0 <= e -> (pow2 e == inject_Z (2 ^ e))%Q.
Proof. intros He. unfold pow2. by rewrite Zpower_Qpower. Qed.

Lemma nearest_error a b : 0 < b -> 2 * Z.abs (nearest a b * b - a) <= b.
Proof.
  intros Hb. unfold nearest. pose proof (Z.div_mod a b ltac:(lia)). pose proof (Z.mod_pos_bound a b Hb).
  destruct (_ || _) eqn:E; [|rewrite orb_false_iff, Z.ltb_ge in E; nia].
  assert (2 * (a mod b) <= b) by (rewrite orb_true_iff, andb_true_iff, Z.ltb_lt, Z.eqb_eq in E; lia). nia.
Qed.

Lemma nearest_nonneg a b : 0 <= a -> 0 < b -> 0 <= nearest a b.
Proof. intros Ha Hb. unfold nearest. pose proof (Z.div_pos a b Ha Hb). destruct (_ || _); lia. Qed.

Lemma make_div n d : (Zpos n # d == inject_Z (Zpos n) / inject_Z (Zpos d))%Q.
Proof. apply Qmake_Qdiv. Qed.
Lemma below_ratio (y : Q) n d : (y * inject_Z (Zpos d) <= inject_Z (Zpos n))%Q -> (y <= Zpos n # d)%Q.
Proof. intros Hy. rewrite make_div. apply Qle_shift_div_l; [|done]. unfold Qlt. cbn. lia. Qed.

Lemma pow2_le_Z e z : 0 <= e -> 2 ^ e <= z -> (pow2 e <= inject_Z z)%Q.
Proof. intros He Hz. rewrite pow2_Z by done. by rewrite <- Zle_Qle. Qed.

Lemma ratio_log2_le n d : (pow2 (ratio_log2 n d) <= Zpos n # d)%Q.
Proof.
  pose proof (Z.log2_spec (Zpos n) ltac:(lia)) as [Hn _]. pose proof (Z.log2_spec (Zpos d) ltac:(lia)) as [_ Hd].
  pose proof (Z.log2_nonneg (Zpos n)). pose proof (Z.log2_nonneg (Zpos d)).
  apply below_ratio. unfold ratio_log2. set (k := Z.log2 (Zpos n) - Z.log2 (Zpos d)).
  assert (Hlow : (pow2 (k - 1) * inject_Z (Zpos d) <= inject_Z (Zpos n))%Q).
  { apply Qle_trans with (pow2 (k - 1) * pow2 (Z.succ (Z.log2 (Zpos d))))%Q.
    - rewrite !(Qmult_comm (pow2 (k - 1))). apply Qmult_le_compat_r; [|apply Qlt_le_weak, pow2_pos].
      rewrite pow2_Z by lia. rewrite <- Zle_Qle. lia.
    - rewrite <- pow2_plus. apply pow2_le_Z; [lia|]. etrans; [|exact Hn]. apply Z.pow_le_mono_r; lia. }
  destruct (0 <=? k) eqn:Ek; [apply Z.leb_le in Ek|apply Z.leb_gt in Ek].
  - destruct (_ <=? _) eqn:E; [apply Z.leb_le in E|done]. rewrite pow2_Z, <- inject_Z_mult, <- Zle_Qle by done. lia.
  - destruct (_ <=? _) eqn:E; [apply Z.leb_le in E|done].
    assert (Hx : (pow2 k * pow2 (- k) == 1)%Q) by (rewrite <- pow2_plus; replace (k + - k) with 0 by lia; reflexivity).
    assert (Hz : (inject_Z (Zpos d) <= inject_Z (Zpos n) * pow2 (- k))%Q) by (rewrite pow2_Z, <- inject_Z_mult, <- Zle_Qle by lia; lia).
    pose proof (Qmult_le_compat_r _ _ (pow2 k) Hz (Qlt_le_weak _ _ (pow2_pos k))) as Hm.
    rewrite <- Qmult_assoc, (Qmult_comm (pow2 (- k))), Hx in Hm. rewrite Qmult_1_r in Hm. by rewrite Qmult_comm.
Qed.

(** A scaled quotient, and its nearest integer scaled back. *)
Lemma scaled_error (x : Q) a b e : 0 < b -> (inject_Z a * pow2 e == x * inject_Z b)%Q ->
  (Qabs (inject_Z (nearest a b) * pow2 e - x) <= pow2 e * (1 # 2))%Q.
Proof.
  intros Hb Hx. pose proof (nearest_error a b Hb) as He. set (m := nearest a b) in *.
  assert (Hb' : (0 < inject_Z b)%Q) by (unfold Qlt; cbn; lia).
  assert (H1 : (- inject_Z b <= 2 * (inject_Z m * inject_Z b - inject_Z a))%Q /\ (2 * (inject_Z m * inject_Z b - inject_Z a) <= inject_Z b)%Q).
  { change 2%Q with (inject_Z 2). unfold Qminus. rewrite <- !inject_Z_opp, <- !inject_Z_mult, <- inject_Z_plus, <- inject_Z_mult, <- !Zle_Qle. lia. }
  pose proof (pow2_pos e) as Hp. destruct H1 as [H1 H2].
  apply (fun H => Qmult_le_compat_r _ _ _ H (Qlt_le_weak _ _ Hp)) in H1, H2.
  assert (E : (inject_Z b * (inject_Z m * pow2 e - x) == inject_Z m * inject_Z b * pow2 e - inject_Z a * pow2 e)%Q) by (rewrite Hx; ring).
  apply Qabs_Qle_condition. split; apply (Qmult_le_l _ _ _ Hb'); rewrite E; lra.
Qed.

Definition HALF_ULP : Q := pow2 (-53).
Definition TINY : Q := pow2 (-1075).
Lemma half_ulp_pos : (0 < HALF_ULP)%Q.
Proof. apply pow2_pos. Qed.
Lemma tiny_pos : (0 < TINY)%Q.
Proof. apply pow2_pos. Qed.

Lemma round_pos_error n d : (Qabs (round_pos n d - (Zpos n # d)) <= (Zpos n # d) * HALF_ULP + TINY)%Q.
Proof.
  unfold round_pos. set (e := last_place n d).
  assert (Hsmall : (pow2 e * (1 # 2) <= (Zpos n # d) * HALF_ULP + TINY)%Q).
  { assert (Ht : (0 < TINY)%Q) by apply pow2_pos. assert (Hh : (0 < HALF_ULP)%Q) by apply pow2_pos.
    unfold e, last_place. pose proof (ratio_log2_le n d) as Hk. set (k := ratio_log2 n d) in *.
    destruct (Z.max_spec (-1074) (k - 52)) as [[_ ->]|[_ ->]].
    - assert (E : (pow2 (k - 52) * (1 # 2) == pow2 k * HALF_ULP)%Q)
        by (unfold HALF_ULP; change (1 # 2)%Q with (pow2 (-1)); rewrite <- !pow2_plus; by replace (k - 52 + -1) with (k + -53) by lia).
      rewrite E. pose proof (Qmult_le_compat_r _ _ HALF_ULP Hk (Qlt_le_weak _ _ Hh)). lra.
    - assert (E : (pow2 (-1074) * (1 # 2) == TINY)%Q) by (unfold TINY; change (1 # 2)%Q with (pow2 (-1)); by rewrite <- pow2_plus).
      rewrite E. assert (0 < Zpos n # d)%Q by (unfold Qlt; cbn; lia). pose proof (Qmult_lt_0_compat _ _ H Hh). lra. }
  eapply Qle_trans; [|exact Hsmall]. destruct (0 <=? e) eqn:Ee; [apply Z.leb_le in Ee|apply Z.leb_gt in Ee]; apply scaled_error.
  - pose proof (Z.pow_pos_nonneg 2 e ltac:(lia) Ee). nia.
  - rewrite make_div, inject_Z_mult, <- pow2_Z by done. field. unfold Qeq. cbn. lia.
  - lia.
  - rewrite make_div, inject_Z_mult, <- pow2_Z by lia.
    assert (Hx : (pow2 (- e) * pow2 e == 1)%Q) by (rewrite <- pow2_plus; replace (- e + e) with 0 by lia; reflexivity).
    rewrite <- Qmult_assoc, Hx. field. unfold Qeq. cbn. lia.
Qed.

#[global] Opaque HALF_ULP TINY OVERFLOW.

Lemma round_error x : (Qabs (round_q x - x) <= Qabs x * HALF_ULP + TINY)%Q.
Proof.
  destruct x as [[|n|n] d]; unfold round_q; cbn [Qnum Qden].
  - assert (E : (0 # d == 0)%Q) by done. pose proof tiny_pos as Ht. rewrite E. change (Qabs (0 - 0)) with 0%Q. change (Qabs 0) with 0%Q. lra.
  - rewrite (Qabs_pos (Zpos n # d)) by done. apply round_pos_error.
  - assert (E : (- round_pos n d - (Zneg n # d) == - (round_pos n d - (Zpos n # d)))%Q) by (change (Zneg n # d)%Q with (- (Zpos n # d))%Q; ring).
    rewrite E, Qabs_opp. change (Zneg n # d)%Q with (- (Zpos n # d))%Q. rewrite Qabs_opp, (Qabs_pos (Zpos n # d)) by done. apply round_pos_error.
Qed.

Lemma round_nonneg x : (0 <= x)%Q -> (0 <= round_q x)%Q.
Proof.
  destruct x as [[|n|n] d]; intros Hx; unfold round_q; cbn [Qnum Qden]; [done| |done].
  unfold round_pos. apply Qmult_le_0_compat; [|apply Qlt_le_weak, pow2_pos]. change 0%Q with (inject_Z 0). rewrite <- Zle_Qle.
  destruct (0 <=? _) eqn:E; [apply Z.leb_le in E|apply Z.leb_gt in E]; apply nearest_nonneg; lia.
Qed.

(** ** Upper bounds through rounded arithmetic *)

(** [n] is not negative, and at most [x]; an infinity stands for a result
    beyond every double. *)
Definition below (n : jsnum) (x : Q) : Prop :=
  match n with
  | NNaN => False
  | NInf s => s = false /\ (OVERFLOW <= x)%Q
  | _ => (0 <= qval n)%Q /\ (qval n <= x)%Q
  end.

(** One rounding up of [x]. *)
Definition up (x : Q) : Q := (x * (1 + HALF_ULP) + TINY)%Q.

Lemma up_mono x y : (x <= y)%Q -> (up x <= up y)%Q.
Proof.
  intros Hxy. unfold up. assert (0 <= 1 + HALF_ULP)%Q by (pose proof half_ulp_pos; lra).
  pose proof (Qmult_le_compat_r _ _ _ Hxy H). lra.
Qed.

Lemma round_up x : (0 <= x)%Q -> (round_q x <= up x)%Q.
Proof.
  intros Hx. pose proof (round_error x) as He. rewrite (Qabs_pos x Hx) in He. apply Qabs_Qle_condition in He. unfold up. lra.
Qed.

Lemma qval_reduced x : (Qden (Qred x) =? 1)%positive = true -> (qval (NInt (Qnum (Qred x))) == x)%Q.
Proof. intros E%Pos.eqb_eq. rewrite <- (Qred_correct x) at 2. cbn [qval]. destruct (Qred x) as [p q]. cbn in *. by subst. Qed.
Lemma qval_fraction x : (qval (NFrac (Qnum (Qred x)) (Qden (Qred x))) == x)%Q.
Proof. rewrite <- (Qred_correct x) at 3. cbn [qval]. by destruct (Qred x). Qed.

(** A rounded non-negative result: finite with the rounded value, or infinite. *)
Lemma num_of_cases x : (0 <= x)%Q ->
  (is_num (num_of x) = true /\ (qval (num_of x) == round_q x)%Q /\ (round_q x < OVERFLOW)%Q) \/
  (num_of x = NInf false /\ (OVERFLOW <= round_q x)%Q).
Proof.
  intros Hx. pose proof (round_nonneg x Hx) as Hr. unfold num_of. destruct (Qle_bool _ _) eqn:E.
  - right. apply Qle_bool_iff in E. rewrite (Qred_correct (round_q x)) in E. rewrite Qabs_pos in E by done. split; [|done]. f_equal.
    destruct (Qle_bool (Qred (round_q x)) 0) eqn:E0; [|done]. apply Qle_bool_iff in E0. rewrite (Qred_correct (round_q x)) in E0.
    pose proof (overflow_pos). lra.
  - left. assert (Hlt : (round_q x < OVERFLOW)%Q).
    { apply Qnot_le_lt. intros Hle. rewrite <- not_true_iff_false in E. apply E, Qle_bool_iff. rewrite (Qred_correct (round_q x)). by rewrite Qabs_pos. }
    destruct (_ =? _)%positive eqn:Ed.
    + split; [done|]. split; [by apply qval_reduced|done].
    + split; [done|]. split; [apply qval_fraction|done].
Qed.

Lemma below_num_of x : (0 <= x)%Q -> below (num_of x) (up x).
Proof.
  intros Hx. pose proof (round_up x Hx) as Hu. pose proof (round_nonneg x Hx).
  destruct (num_of_cases x Hx) as [(Hn & Hv & _)|[-> Hv]].
  - destruct (num_of x) eqn:E; try done; unfold below; rewrite Hv; done.
  - split; [done|]. by eapply Qle_trans.
Qed.

Lemma below_mono n x y : below n x -> (x <= y)%Q -> below n y.
Proof. destruct n; cbn [below]; [intros []; intros; split; [done|by eapply Qle_trans]..|done|intros []; intros; split; [done|by eapply Qle_trans]]. Qed.
Lemma below_nonneg n x : below n x -> (0 <= x)%Q.
Proof.
  pose proof (overflow_pos). destruct n; cbn [below]; [intros []; by eapply Qle_trans|intros []; by eapply Qle_trans|done|intros []; lra].
Qed.

Lemma below_plus a b x y : below a x -> below b y -> below (num_plus a b) (up (x + y)).
Proof.
  intros Ha Hb. pose proof (below_nonneg _ _ Ha). pose proof (below_nonneg _ _ Hb). pose proof half_ulp_pos as Hh. pose proof tiny_pos as Ht.
  assert (Hup : (x + y <= up (x + y))%Q) by (unfold up; pose proof (Qmult_le_0_compat (x + y) HALF_ULP ltac:(lra) ltac:(lra)); lra).
  assert (Hfin : is_num a = true -> is_num b = true -> below (num_of (qval a + qval b)) (up (x + y))).
  { intros Fa Fb. eapply below_mono; [apply below_num_of|apply up_mono]; destruct a, b; try done; cbn [below] in *; lra. }
  destruct a as [za|pa qa| |sa], b as [zb|pb qb| |sb]; try done; try (by apply Hfin); cbn [below num_plus] in *.
  all: repeat match goal with Hs : _ /\ _ |- _ => destruct Hs; subst end; cbn [Bool.eqb]; split; try done; lra.
Qed.

Lemma below_times a b x : below a x -> is_num a = true -> is_num b = true -> (0 < qval b)%Q -> below (num_times a b) (up (x * qval b)).
Proof.
  intros Ha Fa Fb Hp. assert (Hx : below (num_of (qval a * qval b)) (up (x * qval b))).
  { assert (0 <= qval a)%Q by (destruct a; try done; apply Ha). assert (qval a <= x)%Q by (destruct a; try done; apply Ha).
    eapply below_mono; [apply below_num_of, Qmult_le_0_compat; lra|]. apply up_mono, Qmult_le_compat_r; lra. }
  by destruct a, b.
Qed.

Lemma below_over a b x : below a x -> is_num a = true -> is_num b = true -> (0 < qval b)%Q -> below (num_over a b) (up (x / qval b)).
Proof.
  intros Ha Fa Fb Hp. pose proof (Qinv_lt_0_compat _ Hp). assert (Hx : below (num_of (qval a / qval b)) (up (x / qval b))).
  { assert (0 <= qval a)%Q by (destruct a; try done; apply Ha). assert (qval a <= x)%Q by (destruct a; try done; apply Ha).
    eapply below_mono; [apply below_num_of, Qmult_le_0_compat; lra|]. apply up_mono, Qmult_le_compat_r; lra. }
  by destruct a, b.
Qed.

Lemma below_max a x : below a x -> below (num_max (NInt 0) a) x.
Proof. intros Ha. pose proof (below_nonneg _ _ Ha). destruct a; try done; cbn [num_max]; destruct (num_less _ _); done. Qed.

Lemma num_less_qval a b : is_num a = true -> is_num b = true -> num_less a b = true <-> (qval a < qval b)%Q.
Proof.
  intros Fa Fb. assert (E : num_less a b = negb (Qle_bool (qval b) (qval a))) by (by destruct a, b).
  rewrite E, negb_true_iff, <- not_true_iff_false, Qle_bool_iff. split; [apply Qnot_le_lt|apply Qlt_not_le].
Qed.
Lemma num_least_qval a b : is_num a = true -> is_num b = true -> num_least a b = true <-> (qval a <= qval b)%Q.
Proof.
  intros Fa Fb. assert (E : num_least a b = Qle_bool (qval a) (qval b)) by (destruct a, b; try done; cbn [num_least num_less]; apply negb_involutive).
  rewrite E. apply Qle_bool_iff.
Qed.

(** The lesser of a finite bound and any such result is finite. *)
Lemma below_min c a x : is_num c = true -> (0 <= qval c < OVERFLOW)%Q -> below a x ->
  is_num (num_min c a) = true /\ (0 <= qval (num_min c a))%Q /\ (qval (num_min c a) <= qval c)%Q /\ (qval (num_min c a) <= x)%Q.
Proof.
  intros Fc [Hc Ho] Ha. destruct (is_num a) eqn:Fa.
  - assert (E : num_min c a = if num_less a c then a else c) by (by destruct c, a). rewrite E.
    assert (H1 : (0 <= qval a <= x)%Q) by (by destruct a). destruct (num_less a c) eqn:El.
    + apply num_less_qval in El; [|done..]. split; [done|]. split; [lra|]. split; lra.
    + apply not_true_iff_false in El. rewrite num_less_qval in El by done. apply Qnot_lt_le in El. split; [done|]. split; [lra|]. split; lra.
  - destruct a as [| | |sa]; try done. destruct Ha as [-> Hx]. assert (E : num_min c (NInf false) = c) by (by destruct c). rewrite E. split; [done|]. split; [lra|]. split; lra.
Qed.

Lemma below_finite a x : below a x -> (x < OVERFLOW)%Q -> is_num a = true.
Proof. destruct a; try done. intros [_ ?] ?. lra. Qed.
Lemma finite_below a x : is_num a = true -> (0 <= qval a)%Q -> (qval a <= x)%Q -> below a x.
Proof. by destruct a. Qed.
Lemma minus_num a b : is_num a = true -> is_num b = true -> num_minus a b = num_of (qval a - qval b).
Proof. by destruct a, b. Qed.

(** Doubles reach beyond 2^64, and roundings are small. *)
Lemma overflow_large : (18446744073709551616 < OVERFLOW)%Q.
Proof. by vm_compute. Qed.
Lemma half_ulp_small : (HALF_ULP <= 1 # 9007199254740992)%Q.
Proof. by vm_compute. Qed.
Lemma tiny_small : (TINY <= 1 # 1000000)%Q.
Proof. by vm_compute. Qed.
