(* ===== verification/RateLimiter.v ===== *)
(** RateLimiter: the mutation rate limiter of apps/realtime-lab/server.ts:
    token buckets per client in double arithmetic, in a table of bounded size
    whose eviction forgives no client its spent tokens. *)
From Stdlib Require Import QArith Qabs Lqa.
From S2P Require Import Prelude JsString JsMap JsNumber.
#[local] Open Scope string_scope.
#[local] Open Scope list_scope.
#[local] Open Scope Z_scope.
#[local] Open Scope js_scope.

Record RateLimitConfig : Type := { capacity : jsnum; refillPerSecond : jsnum; maxClients : jsnum }.
Definition DEFAULT_RATE_LIMIT : RateLimitConfig := {| capacity := NInt 300; refillPerSecond := NInt 150; maxClients := NInt 10000 |}.

Record Bucket : Type := { tokens : jsnum; updatedMs : jsnum }.
Record RateLimitDecision : Type := { allowed : bool; retryAfterSeconds : jsnum }.

(** The buckets in the order of the [Map]: least recently used first. *)
Record MutationRateLimiter : Type := { config : RateLimitConfig; buckets : list (jstr * Bucket); admissionRejections : Z }.

Definition constructor (c : RateLimitConfig) : result MutationRateLimiter :=
  throw_if (negb (is_num (capacity c)) || num_less (capacity c) (NInt 1) ||
            negb (is_num (refillPerSecond c)) || num_least (refillPerSecond c) (NInt 0) ||
            match maxClients c with NInt n => n <? 1 | _ => true end) "invalid rate-limit configuration" ≫= fun _ =>
  Ok {| config := c; buckets := []; admissionRejections := 0 |}.

Definition elapsed_seconds (now : jsnum) (b : Bucket) : jsnum := num_max (NInt 0) (num_over (num_minus now (updatedMs b)) (NInt 1000)).
(** The tokens of a bucket refilled until [now]. *)
Definition refilled (c : RateLimitConfig) (now : jsnum) (b : Bucket) : jsnum :=
  num_min (capacity c) (num_plus (tokens b) (num_times (elapsed_seconds now b) (refillPerSecond c))).

Definition findEvictableFullBucket (c : RateLimitConfig) (now : jsnum) (l : list (jstr * Bucket)) : option jstr :=
  match List.find (fun p => num_least (capacity c) (refilled c now p.2)) l with Some (key, _) => Some key | None => None end.

(** One token is spent, or none was left. *)
Definition spend (c : RateLimitConfig) (clientKey : jstr) (b : Bucket) (l : list (jstr * Bucket)) : RateLimitDecision * list (jstr * Bucket) :=
  if num_least (NInt 1) (tokens b) then
    ({| allowed := true; retryAfterSeconds := NInt 0 |},
     map_set clientKey {| tokens := num_minus (tokens b) (NInt 1); updatedMs := updatedMs b |} l)
  else
    ({| allowed := false; retryAfterSeconds := num_max (NInt 1) (num_ceil (num_over (num_minus (NInt 1) (tokens b)) (refillPerSecond c))) |},
     map_set clientKey b l).

Definition take (clientKey : jstr) (now : jsnum) (m : MutationRateLimiter) : RateLimitDecision * MutationRateLimiter :=
  let c := config m in
  let existing := map_get clientKey (buckets m) in
  let spend_from (b : Bucket) (l : list (jstr * Bucket)) :=
    let '(d, l) := spend c clientKey {| tokens := refilled c now b; updatedMs := now |} l in
    (d, {| config := c; buckets := l; admissionRejections := admissionRejections m |}) in
  match existing with
  | Some b => spend_from b (map_delete clientKey (buckets m))
  | None =>
      let fresh := {| tokens := capacity c; updatedMs := now |} in
      if num_least (maxClients c) (NInt (Z.of_nat (length (buckets m)))) then
        match findEvictableFullBucket c now (buckets m) with
        | None =>
            ({| allowed := false; retryAfterSeconds := num_max (NInt 1) (num_ceil (num_over (NInt 1) (refillPerSecond c))) |},
             {| config := c; buckets := buckets m; admissionRejections := num_add (admissionRejections m) 1 |})
        | Some evictable => spend_from fresh (map_delete evictable (buckets m))
        end
      else spend_from fresh (buckets m)
  end.

Definition trackedClients (m : MutationRateLimiter) : nat := length (buckets m).

(** The decisions on a sequence of requests. *)
Fixpoint takes (l : list (jstr * Z)) (m : MutationRateLimiter) : list bool * MutationRateLimiter :=
  match l with
  | [] => ([], m)
  | (k, now) :: l =>
      let '(d, m) := take k (NInt now) m in
      let '(ds, m) := takes l m in (allowed d :: ds, m)
  end.
(** The requests of [key] that were allowed. *)
Fixpoint admitted (key : jstr) (l : list (jstr * Z)) (ds : list bool) : Z :=
  match l, ds with
  | (k, _) :: l, d :: ds => (if d && (k =s? key) then 1 else 0) + admitted key l ds
  | _, _ => 0
  end.

(** ** Refilling *)

Lemma scale_le x y z : (0 <= x)%Q -> (y <= z)%Q -> (x * y <= x * z)%Q.
Proof. intros Hx Hyz. rewrite (Qmult_comm x y), (Qmult_comm x z). by apply Qmult_le_compat_r. Qed.

Lemma up_small x : (0 <= x)%Q -> (up x <= 2 * x + 1)%Q.
Proof.
  intros Hx. pose proof half_ulp_small. pose proof half_ulp_pos. pose proof tiny_small. unfold up.
  pose proof (Qmult_le_compat_r HALF_ULP 1 x ltac:(lra) Hx). lra.
Qed.
Lemma up_nonneg x : (0 <= x)%Q -> (0 <= up x)%Q.
Proof. intros Hx. pose proof half_ulp_pos. pose proof tiny_pos. unfold up. pose proof (Qmult_le_0_compat x (1 + HALF_ULP) Hx ltac:(lra)). lra. Qed.

Definition MAX_CLOCK : Z := 8640000000000000.
Definition clock_ok (t : Z) : Prop := Z.abs t <= MAX_CLOCK.

Definition since (upd now : Z) : Q := inject_Z (now - upd).

Lemma elapsed_below upd now tk : clock_ok upd -> clock_ok now -> upd <= now ->
  let e := elapsed_seconds (NInt now) {| tokens := tk; updatedMs := NInt upd |} in
  is_num e = true /\ below e (up (up (since upd now) / 1000)).
Proof.
  intros Hu Hn Hle. unfold elapsed_seconds, clock_ok, MAX_CLOCK in *. cbn [updatedMs].
  assert (H0 : (0 <= since upd now)%Q) by (unfold since; change 0%Q with (inject_Z 0); rewrite <- Zle_Qle; lia).
  assert (H1 : (since upd now <= 36028797018963968)%Q) by (unfold since; change 36028797018963968%Q with (inject_Z (2 ^ 55)); rewrite <- Zle_Qle; lia).
  assert (E : num_minus (NInt now) (NInt upd) = num_of (qval (NInt now) - qval (NInt upd))) by done.
  assert (Eq : (qval (NInt now) - qval (NInt upd) == since upd now)%Q) by (unfold since, Qminus; cbn [qval]; by rewrite <- inject_Z_opp, <- inject_Z_plus).
  assert (Hb : below (num_minus (NInt now) (NInt upd)) (up (since upd now))).
  { rewrite E. eapply below_mono; [apply below_num_of; lra|]. apply up_mono. lra. }
  pose proof (up_small _ H0) as Hs. pose proof overflow_large as Ho.
  assert (Hlt : (up (since upd now) < OVERFLOW)%Q) by lra.
  pose proof (below_finite _ _ Hb Hlt) as Hf.
  pose proof (below_over _ (NInt 1000) _ Hb Hf eq_refl ltac:(done)) as Hov. cbn [qval] in Hov. change (inject_Z 1000) with 1000%Q in Hov.
  pose proof (up_nonneg _ H0) as Hn0.
  assert (Hq : (0 <= up (since upd now) / 1000)%Q) by (apply Qle_shift_div_l; lra).
  assert (Hq' : (up (since upd now) / 1000 <= up (since upd now))%Q) by (apply Qle_shift_div_r; lra).
  pose proof (up_small _ Hq) as Hs2.
  assert (Hlt2 : (up (up (since upd now) / 1000) < OVERFLOW)%Q) by lra.
  apply below_max in Hov. split; [by eapply below_finite|done].
Qed.

Section limiter.
Variable c : RateLimitConfig.
Let cap : Q := qval (capacity c).
Let r : Q := qval (refillPerSecond c).

(** A configuration the constructor accepts, its capacity at most 2^52. *)
Record good_config : Prop := {
  gc_capacity : is_num (capacity c) = true /\ (1 <= cap)%Q /\ (cap <= 4503599627370496)%Q;
  gc_refill : is_num (refillPerSecond c) = true /\ (0 < r)%Q;
  gc_max : exists n, maxClients c = NInt n /\ 1 <= n;
}.
Hypothesis Hc : good_config.

(** Tokens per millisecond, and what rounding may add in a request. *)
Definition RATE : Q := (r / 1000 * (1 + 5 * HALF_ULP))%Q.
Definition SLACK : Q := (2 * cap * HALF_ULP + TINY * (2 * r + 5))%Q.

Definition bucket_ok (last : Z) (b : Bucket) : Prop :=
  is_num (tokens b) = true /\ (0 <= qval (tokens b) <= cap)%Q /\ exists u, updatedMs b = NInt u /\ clock_ok u /\ u <= last.

Lemma refill_linear tok e : (0 <= tok <= cap)%Q -> (0 <= e)%Q ->
  (up (tok + up (up (up e / 1000) * r)) <= tok + RATE * e + (cap * HALF_ULP + TINY * (2 * r + 4)))%Q.
Proof.
  intros [Ht0 Ht1] He. pose proof half_ulp_pos as Hh. pose proof half_ulp_small as Hs. pose proof tiny_pos as Ht. destruct (gc_refill Hc) as [_ Hr].
  unfold RATE, up. set (h := HALF_ULP) in *. set (T := TINY) in *. set (g := (1 + h)%Q). unfold Qdiv. change (/ 1000)%Q with (1 # 1000)%Q.
  assert (H2 : (h * h <= h * (1 # 1000000))%Q) by (apply scale_le; lra).
  assert (Hg2 : (g * g <= 1 + (3 # 1) * h)%Q) by (unfold g; ring_simplify; lra).
  assert (Hg4 : (g * g * (g * g) <= 1 + 5 * h)%Q).
  { assert (Hg : (g * g == 1 + 2 * h + h * h)%Q) by (unfold g; ring). pose proof (Qmult_le_0_compat h h ltac:(lra) ltac:(lra)).
    assert (H3 : (h * h * h <= h * h * (1 # 1000000))%Q) by (apply scale_le; lra).
    assert (H4 : (h * h * (h * h) <= h * h * (1 # 1000000))%Q) by (apply scale_le; lra).
    rewrite Hg. ring_simplify. ring_simplify in H3. ring_simplify in H4. lra. }
  assert (Hg3 : (g * g * g * (1 # 1000) + g * g <= 2)%Q).
  { assert (0 <= g * g)%Q by (apply Qmult_le_0_compat; unfold g; lra). assert (g * g * g <= g * g * 2)%Q by (apply scale_le; [done|unfold g; lra]). 
    assert (g * g * g * (1 # 1000) <= g * g * 2 * (1 # 1000))%Q by (apply Qmult_le_compat_r; [done|by unfold Qle]). lra. }
  assert (Hu : (0 <= e * r)%Q) by (apply Qmult_le_0_compat; lra). assert (Hv : (0 <= T * r)%Q) by (apply Qmult_le_0_compat; lra).
  assert (H5 : (tok * h <= cap * h)%Q) by (apply Qmult_le_compat_r; lra).
  assert (H6 : ((e * r) * (g * g * (g * g) * (1 # 1000)) <= (e * r) * ((1 + 5 * h) * (1 # 1000)))%Q)
    by (apply scale_le; [done|]; apply Qmult_le_compat_r; [done|by unfold Qle]).
  assert (H7 : ((T * r) * (g * g * g * (1 # 1000) + g * g) <= (T * r) * 2)%Q) by (apply scale_le; done).
  assert (H8 : (T * (g + 1) <= T * 4)%Q) by (apply scale_le; [lra|unfold g; lra]).
  unfold g in *. lra.
Qed.

Lemma since_nonneg u v : u <= v -> (0 <= since u v)%Q.
Proof. intros H. unfold since. change 0%Q with (inject_Z 0). rewrite <- Zle_Qle. lia. Qed.

Lemma refilled_below last b now u : bucket_ok last b -> updatedMs b = NInt u -> u <= now -> clock_ok now ->
  let t := refilled c (NInt now) b in
  is_num t = true /\ (0 <= qval t <= cap)%Q /\
  (qval t <= qval (tokens b) + RATE * since u now + (cap * HALF_ULP + TINY * (2 * r + 4)))%Q.
Proof.
  destruct b as [tk upd]. intros (Hf & Ht & u' & Eu & Hcl & _) Eu' Hle Hn t. cbn [tokens updatedMs] in *. assert (u' = u) as -> by congruence. subst upd.
  destruct (gc_capacity Hc) as (Fc & Hc1 & Hc2), (gc_refill Hc) as [Fr Hr]. pose proof overflow_large as Ho.
  destruct (elapsed_below u now tk Hcl Hn Hle) as [Fe He].
  pose proof (below_times _ _ _ He Fe Fr Hr) as Hm. pose proof (below_plus _ _ _ _ (finite_below _ _ Hf (proj1 Ht) (Qle_refl _)) Hm) as Hp.
  destruct (below_min (capacity c) _ _ Fc ltac:(fold cap; lra) Hp) as (Fm & Hm0 & Hm1 & Hm2).
  pose proof (refill_linear (qval tk) (since u now) Ht (since_nonneg u now Hle)) as Hl.
  split; [done|]. split; [split; done|]. eapply Qle_trans; [exact Hm2|exact Hl].
Qed.

(** A refilled bucket after a request. *)
Lemma spend_bucket key now b l d l' :
  is_num (tokens b) = true -> (0 <= qval (tokens b) <= cap)%Q -> updatedMs b = NInt now -> clock_ok now -> spend c key b l = (d, l') ->
  exists b', l' = map_set key b' l /\ bucket_ok now b' /\ updatedMs b' = NInt now /\
    (qval (tokens b') + (if allowed d then 1 else 0) <= qval (tokens b) + (cap * HALF_ULP + TINY))%Q.
Proof.
  intros Hf Ht Hu Hn. destruct (gc_capacity Hc) as (Fc & Hc1 & Hc2). pose proof half_ulp_pos as Hh. pose proof half_ulp_small. pose proof tiny_pos. pose proof tiny_small.
  assert (Hch : (0 <= cap * HALF_ULP)%Q) by (apply Qmult_le_0_compat; lra). unfold spend.
  destruct (num_least (NInt 1) (tokens b)) eqn:E; intros [= <- <-].
  - apply num_least_qval in E; [|done..]. change (qval (NInt 1)) with 1%Q in E. eexists. split; [done|]. cbn [tokens updatedMs allowed].
    rewrite minus_num by done. change (qval (NInt 1)) with 1%Q. set (x := (qval (tokens b) - 1)%Q).
    assert (Hx : (0 <= x)%Q) by (unfold x; lra). pose proof (below_num_of x Hx) as Hb. pose proof (up_small x Hx). pose proof overflow_large.
    assert (Hfin : is_num (num_of x) = true) by (apply (below_finite _ _ Hb); unfold x in *; lra).
    assert (Hv : (0 <= qval (num_of x))%Q /\ (qval (num_of x) <= up x)%Q) by (by destruct (num_of x)).
    assert (Hup : (up x <= x + (cap * HALF_ULP + TINY))%Q).
    { unfold up. assert (x * HALF_ULP <= cap * HALF_ULP)%Q by (apply Qmult_le_compat_r; unfold x; lra). lra. }
    split; [split; [done|]; cbn [tokens]|split; [done|unfold x in *; lra]]. split; [|by exists now; split_and!].
    assert (cap * HALF_ULP <= cap * (1 # 9007199254740992))%Q by (apply scale_le; [lra|apply half_ulp_small]).
    unfold x in *. split; lra.
  - exists b. split; [done|]. split; [split; [done|split; [done|by exists now; split_and!]]|]. split; [done|]. cbn [allowed]. lra.
Qed.

Record table_ok (last : Z) (m : MutationRateLimiter) : Prop := {
  ok_config : config m = c;
  ok_wf : map_wf (buckets m);
  ok_bucket k b : map_get k (buckets m) = Some b -> bucket_ok last b;
  ok_size n : maxClients c = NInt n -> Z.of_nat (length (buckets m)) <= n;
}.

(** [A] requests of [key] were allowed in [n] requests since [t0]. *)
Definition counted (key : jstr) (t0 A n last : Z) (m : MutationRateLimiter) : Prop :=
  match map_get key (buckets m) with
  | Some b => A = 0 \/ exists u, updatedMs b = NInt u /\ t0 <= u <= last /\
      (qval (tokens b) + inject_Z A <= cap + RATE * since t0 u + inject_Z n * SLACK)%Q
  | None => (inject_Z A <= RATE * since t0 last + inject_Z n * SLACK)%Q
  end.

Lemma rate_pos : (0 <= RATE)%Q.
Proof.
  destruct (gc_refill Hc) as [_ Hr]. pose proof half_ulp_pos. unfold RATE. apply Qmult_le_0_compat; [|lra].
  apply Qmult_le_0_compat; [lra|by unfold Qle].
Qed.
Lemma slack_parts : (0 <= cap * HALF_ULP)%Q /\ (0 <= TINY * r)%Q /\ (SLACK == cap * HALF_ULP * 2 + TINY * r * 2 + TINY * 5)%Q.
Proof.
  destruct (gc_refill Hc) as [_ Hr], (gc_capacity Hc) as (_ & Hc1 & _). pose proof half_ulp_pos. pose proof tiny_pos.
  split; [apply Qmult_le_0_compat; lra|]. split; [apply Qmult_le_0_compat; lra|]. unfold SLACK. ring.
Qed.

Lemma since_plus u v w : (since u v + since v w == since u w)%Q.
Proof. unfold since. rewrite <- inject_Z_plus. by replace (v - u + (w - v)) with (w - u) by lia. Qed.
Lemma rate_since u v w : (RATE * since u v + RATE * since v w == RATE * since u w)%Q.
Proof. rewrite <- (since_plus u v w). ring. Qed.

(** The bound moves on with the clock and the requests. *)
Lemma rate_later t0 u v n : u <= v -> (RATE * since t0 u + inject_Z n * SLACK + SLACK <= RATE * since t0 v + inject_Z (n + 1) * SLACK)%Q.
Proof.
  intros Huv. pose proof (Qmult_le_0_compat _ _ rate_pos (since_nonneg u v Huv)). pose proof (rate_since t0 u v).
  rewrite inject_Z_plus. change (inject_Z 1) with 1%Q. lra.
Qed.

Lemma counted_later key t0 A n last now m m' : last <= now -> map_get key (buckets m') = map_get key (buckets m) ->
  counted key t0 A n last m -> counted key t0 A (n + 1) now m'.
Proof.
  intros Hle Hg. unfold counted. rewrite Hg. destruct slack_parts as (H1 & H2 & H3). pose proof tiny_pos.
  destruct (map_get key (buckets m)) as [b|].
  - intros [->|(u & Hu & Hb & Hp)]; [by left|]. right. exists u. split; [done|]. split; [lia|].
    pose proof (rate_later t0 u u n ltac:(lia)). lra.
  - intros Hp. pose proof (rate_later t0 last now n Hle). lra.
Qed.

Lemma slack_nonneg n : 0 <= n -> (0 <= inject_Z n * SLACK)%Q.
Proof.
  intros Hn. destruct slack_parts as (H1 & H2 & H3). pose proof tiny_pos. apply Qmult_le_0_compat; [|lra].
  change 0%Q with (inject_Z 0). by rewrite <- Zle_Qle.
Qed.

Definition one_if (b : bool) : Q := if b then 1%Q else 0%Q.
Lemma inject_one A (b : bool) : (inject_Z (A + (if b then 1 else 0)) == inject_Z A + one_if b)%Q.
Proof. by rewrite inject_Z_plus; destruct b. Qed.

Section spent.
Variables (key : jstr) (t0 A n last now : Z) (m m' : MutationRateLimiter) (ok : bool) (b' : Bucket) (t : Q).
Hypothesis Hcount : counted key t0 A n last m.
Hypothesis Htimes : t0 <= last <= now.
Hypothesis Hn : 0 <= n.
Hypothesis Hget : map_get key (buckets m') = Some b'.
Hypothesis Hupd : updatedMs b' = NInt now.
Hypothesis Hspend : (qval (tokens b') + one_if ok <= t + (cap * HALF_ULP + TINY))%Q.
Hypothesis Hcap : (t <= cap)%Q.

Lemma counted_spent b u :
  map_get key (buckets m) = Some b -> updatedMs b = NInt u -> u <= last ->
  (t <= qval (tokens b) + RATE * since u now + (cap * HALF_ULP + TINY * (2 * r + 4)))%Q ->
  counted key t0 (A + if ok then 1 else 0) (n + 1) now m'.
Proof.
  unfold counted in *. intros E Hu Hul Ht. rewrite E in Hcount. rewrite Hget. right. exists now. split; [done|]. split; [lia|]. rewrite inject_one.
  destruct slack_parts as (H1 & H2 & H3). pose proof tiny_pos. destruct Hcount as [->|(u' & Eu & Hb & Hp)].
  - pose proof (rate_later t0 now now n ltac:(lia)). pose proof (slack_nonneg n Hn).
    pose proof (Qmult_le_0_compat _ _ rate_pos (since_nonneg t0 now ltac:(lia))). change (inject_Z 0) with 0%Q. lra.
  - assert (u' = u) as -> by congruence. pose proof (rate_since t0 u now). pose proof (rate_later t0 now now n ltac:(lia)). lra.
Qed.

Lemma counted_fresh : map_get key (buckets m) = None -> counted key t0 (A + if ok then 1 else 0) (n + 1) now m'.
Proof.
  unfold counted in *. intros E. rewrite E in Hcount. rewrite Hget. right. exists now. split; [done|]. split; [lia|]. rewrite inject_one.
  destruct slack_parts as (H1 & H2 & H3). pose proof tiny_pos. pose proof (rate_later t0 last now n ltac:(lia)). lra.
Qed.
End spent.

(** Evicting a full bucket forgives nothing. *)
Lemma counted_evicted key t0 A n last now m m' b u :
  counted key t0 A n last m -> t0 <= last <= now -> 0 <= n -> map_get key (buckets m) = Some b -> updatedMs b = NInt u -> u <= last ->
  map_get key (buckets m') = None ->
  (cap <= qval (tokens b) + RATE * since u now + (cap * HALF_ULP + TINY * (2 * r + 4)))%Q ->
  counted key t0 A (n + 1) now m'.
Proof.
  unfold counted. intros Hcount Ht Hn E Hu Hul E' Hfull. rewrite E in Hcount. rewrite E'.
  destruct slack_parts as (H1 & H2 & H3). pose proof tiny_pos. destruct Hcount as [->|(u' & Eu & Hb & Hp)].
  - pose proof (slack_nonneg (n + 1) ltac:(lia)). pose proof (Qmult_le_0_compat _ _ rate_pos (since_nonneg t0 now ltac:(lia))).
    change (inject_Z 0) with 0%Q. lra.
  - assert (u' = u) as -> by congruence. pose proof (rate_since t0 u now). pose proof (rate_later t0 now now n ltac:(lia)). lra.
Qed.

Lemma bucket_later last now b : last <= now -> bucket_ok last b -> bucket_ok now b.
Proof. intros Hle (H1 & H2 & u & E & Hu & Hl). split; [done|]. split; [done|]. exists u. split; [done|]. split; [done|lia]. Qed.

Lemma length_delete (k : jstr) (l : list (jstr * Bucket)) : map_wf l -> map_get k l <> None -> S (length (map_delete k l)) = length l.
Proof.
  intros Hw Hk. induction l as [|[k' b] l IH]; [done|]. apply NoDup_cons in Hw as [Hn Hw]. cbn in *. case_bool_decide as E.
  - subst. f_equal. clear -Hn. induction l as [|[k b'] l IH]; [done|]. cbn in *. apply not_elem_of_cons in Hn as [H1 H2].
    rewrite bool_decide_false by done. cbn. by rewrite IH.
  - cbn. by rewrite IH.
Qed.

(** The table after a request, from the other clients' buckets [l]. *)
Lemma spent_table last now k b' l m a :
  table_ok last m -> last <= now -> map_wf l -> map_get k l = None -> (forall k' b, map_get k' l = Some b -> map_get k' (buckets m) = Some b) ->
  (forall M, maxClients c = NInt M -> Z.of_nat (length l) < M) -> bucket_ok now b' ->
  table_ok now {| config := c; buckets := map_set k b' l; admissionRejections := a |}.
Proof.
  intros [Hcf Hw Hb Hs] Hle Hwl Hk Hsub Hlen Hb'. split; cbn [config buckets]; [done|by apply map_set_wf| |].
  - intros k' b. rewrite map_get_set. case_bool_decide; [by intros [= <-]|]. intros E%Hsub%Hb. by eapply bucket_later.
  - intros M EM. rewrite map_set_fresh by done. rewrite length_app. cbn. specialize (Hlen M EM). lia.
Qed.

Lemma fresh_refilled now : clock_ok now ->
  let t := refilled c (NInt now) {| tokens := capacity c; updatedMs := NInt now |} in is_num t = true /\ (0 <= qval t <= cap)%Q.
Proof.
  intros Hn. destruct (gc_capacity Hc) as (Fc & Hc1 & Hc2).
  destruct (refilled_below now {| tokens := capacity c; updatedMs := NInt now |} now now) as (H1 & H2 & _); try done.
  split; [done|]. split; [cbn [tokens]; fold cap; split; lra|by exists now; split_and!].
Qed.

Lemma evictable_full now l k : map_wf l -> findEvictableFullBucket c (NInt now) l = Some k ->
  exists b, map_get k l = Some b /\ num_least (capacity c) (refilled c (NInt now) b) = true.
Proof.
  unfold findEvictableFullBucket. intros Hw. destruct (List.find _ l) as [[k' b]|] eqn:E; [|done]. intros [= ->].
  apply List.find_some in E as [Hin Hfull]. exists b. split; [|done]. apply map_in_get; [done|]. by apply list_elem_of_In.
Qed.

(** The requester's own bucket and the others' after spending. *)
Lemma spend_step last now k b0 l m d m' :
  table_ok last m -> last <= now -> clock_ok now -> map_wf l -> map_get k l = None ->
  (forall k' b, map_get k' l = Some b -> map_get k' (buckets m) = Some b) ->
  (forall M, maxClients c = NInt M -> Z.of_nat (length l) < M) ->
  (let t := refilled c (NInt now) b0 in is_num t = true /\ (0 <= qval t <= cap)%Q) ->
  (let '(d, l) := spend c k {| tokens := refilled c (NInt now) b0; updatedMs := NInt now |} l in
   (d, {| config := c; buckets := l; admissionRejections := admissionRejections m |})) = (d, m') ->
  table_ok now m' /\ (forall key, key <> k -> map_get key (buckets m') = map_get key l) /\
  exists b', map_get k (buckets m') = Some b' /\ updatedMs b' = NInt now /\
    (qval (tokens b') + one_if (allowed d) <= qval (refilled c (NInt now) b0) + (cap * HALF_ULP + TINY))%Q.
Proof.
  intros Hok Hle Hn Hwl Hk Hsub Hlen [Ht1 Ht2]. destruct (spend _ _ _ _) as [d' l'] eqn:E. intros [= -> <-].
  apply (spend_bucket k now) in E as (b' & -> & Hb' & Hu' & Hs); [|done..].
  split; [by eapply spent_table|]. cbn [buckets]. split; [intros key Hne; by rewrite map_get_set_ne|].
  exists b'. rewrite map_get_set_eq. done.
Qed.

Lemma take_step k now m d m' last : table_ok last m -> last <= now -> clock_ok now -> take k (NInt now) m = (d, m') ->
  table_ok now m' /\ forall key t0 A n, t0 <= last -> 0 <= n -> counted key t0 A n last m ->
    counted key t0 (A + (if allowed d && (k =s? key) then 1 else 0)) (n + 1) now m'.
Proof.
  intros Hok Hle Hn. pose proof Hok as [Hcf Hw Hb Hs]. unfold take. rewrite Hcf. destruct (gc_max Hc) as (M & EM & HM).
  assert (Hother : forall key, key <> k -> (allowed d && (k =s? key)) = false)
    by (intros key Hne; rewrite (proj2 (jeqb_false k key)) by congruence; apply andb_false_r).
  assert (Hself : (allowed d && (k =s? k)) = allowed d) by (rewrite jeqb_of_eq by done; apply andb_true_r).
  destruct (map_get k (buckets m)) as [b|] eqn:Ek; [|destruct (num_least _ _) eqn:Efull; [destruct (findEvictableFullBucket _ _ _) as [ev|] eqn:Eev|]].
  - (* an existing client *)
    intros E. pose proof (Hb _ _ Ek) as (Hf & Ht & u & Hu & Hcl & Hul).
    destruct (refilled_below last b now u (Hb _ _ Ek) Hu ltac:(lia) Hn) as (F1 & F2 & F3).
    destruct (spend_step last now k b (map_delete k (buckets m)) m d m') as (Hok' & Hrest & b' & Hg & Hub & Hsp); try done.
    + by apply map_delete_wf.
    + rewrite map_get_delete. by rewrite bool_decide_true.
    + intros k' b1. rewrite map_get_delete. by case_bool_decide.
    + intros M' EM'. specialize (Hs M' EM'). rewrite <- (length_delete k) in Hs by (done || congruence). lia.
    + split; [done|]. intros key t0 A n Ht0 Hn0 Hcnt. destruct (decide (key = k)) as [->|Hne].
      * rewrite Hself. apply (counted_spent k t0 A n last now m m' (allowed d) b' (qval (refilled c (NInt now) b)) Hcnt ltac:(lia) Hn0 Hg Hub Hsp (proj2 F2) b u); done.
      * rewrite Hother, Z.add_0_r by done. eapply counted_later; [exact Hle| |exact Hcnt]. rewrite Hrest, map_get_delete by done. by rewrite bool_decide_false.
  - (* a full bucket is evicted *)
    intros E. destruct (evictable_full _ _ _ Hw Eev) as (be & Ebe & Hfull). pose proof (Hb _ _ Ebe) as (Hf & Ht & u & Hu & Hcl & Hul).
    destruct (refilled_below last be now u (Hb _ _ Ebe) Hu ltac:(lia) Hn) as (F1 & F2 & F3). destruct (gc_capacity Hc) as (Fc & _).
    apply num_least_qval in Hfull; [|done..].
    destruct (spend_step last now k {| tokens := capacity c; updatedMs := NInt now |} (map_delete ev (buckets m)) m d m') as (Hok' & Hrest & b' & Hg & Hub & Hsp); try done.
    + by apply map_delete_wf.
    + rewrite map_get_delete. by case_bool_decide.
    + intros k' b1. rewrite map_get_delete. by case_bool_decide.
    + intros M' EM'. specialize (Hs M' EM'). rewrite <- (length_delete ev) in Hs by (done || congruence). lia.
    + by apply fresh_refilled.
    + split; [done|]. intros key t0 A n Ht0 Hn0 Hcnt. destruct (decide (key = k)) as [->|Hne].
      * rewrite Hself. apply (counted_fresh k t0 A n last now m m' (allowed d) b' _ Hcnt ltac:(lia) Hg Hub Hsp); [|done]. by apply fresh_refilled.
      * rewrite Hother, Z.add_0_r by done. destruct (decide (key = ev)) as [->|Hne'].
        -- apply (counted_evicted ev t0 A n last now m m' be u Hcnt ltac:(lia) Hn0 Ebe Hu Hul).
           ++ rewrite Hrest, map_get_delete by done. by rewrite bool_decide_true.
           ++ unfold cap. eapply Qle_trans; [exact Hfull|exact F3].
        -- eapply counted_later; [exact Hle| |exact Hcnt]. rewrite Hrest, map_get_delete by done. by rewrite bool_decide_false.
  - (* refused: the table is full of penalised clients *)
    intros [= <- <-]. split.
    + split; cbn; [done|done|intros k' b' E'; eapply bucket_later; [exact Hle|by eapply Hb]|done].
    + intros key t0 A n Ht0 Hn0 Hcnt. cbn [allowed andb]. rewrite Z.add_0_r. by eapply counted_later; [exact Hle| |exact Hcnt].
  - (* room for a new client *)
    intros E.
    destruct (spend_step last now k {| tokens := capacity c; updatedMs := NInt now |} (buckets m) m d m') as (Hok' & Hrest & b' & Hg & Hub & Hsp); try done.
    + intros M' EM'. rewrite EM' in Efull. apply not_true_iff_false in Efull. rewrite num_least_qval in Efull by done. cbn [qval] in Efull.
      rewrite <- Zle_Qle in Efull. lia.
    + by apply fresh_refilled.
    + split; [done|]. intros key t0 A n Ht0 Hn0 Hcnt. destruct (decide (key = k)) as [->|Hne].
      * rewrite Hself. apply (counted_fresh k t0 A n last now m m' (allowed d) b' _ Hcnt ltac:(lia) Hg Hub Hsp); [|done]. by apply fresh_refilled.
      * rewrite Hother, Z.add_0_r by done. eapply counted_later; [exact Hle| |exact Hcnt]. by rewrite Hrest.
Qed.

(** Requests from [t] to [t'], on a clock that does not go back. *)
Fixpoint in_order (t : Z) (l : list (jstr * Z)) (t' : Z) : Prop :=
  match l with
  | [] => t = t'
  | (_, now) :: l => t <= now /\ clock_ok now /\ in_order now l t'
  end.

Lemma takes_steps l : forall t t' m ds m', table_ok t m -> in_order t l t' -> takes l m = (ds, m') ->
  table_ok t' m' /\ t <= t' /\ forall key t0 A n, t0 <= t -> 0 <= n -> counted key t0 A n t m ->
    counted key t0 (A + admitted key l ds) (n + Z.of_nat (length l)) t' m'.
Proof.
  induction l as [|[k now] l IH]; intros t t' m ds m' Hok Ho; cbn [takes in_order] in *.
  - intros [= <- <-]. subst. split; [done|]. split; [done|]. intros key t0 A n _ _. cbn. by rewrite !Z.add_0_r.
  - destruct Ho as (Hle & Hcl & Ho). destruct (take k (NInt now) m) as [d m1] eqn:E1. destruct (takes l m1) as [ds1 m2] eqn:E2. intros [= <- <-].
    destruct (take_step _ _ _ _ _ _ Hok Hle Hcl E1) as [Hok1 H1]. destruct (IH _ _ _ _ _ Hok1 Ho E2) as (Hok2 & Hle2 & H2).
    split; [done|]. split; [lia|]. intros key t0 A n Ht Hn Hcnt. cbn [admitted length]. rewrite Z.add_assoc.
    replace (n + Z.of_nat (S (length l))) with (n + 1 + Z.of_nat (length l)) by lia. apply H2; [lia..|]. by apply H1.
Qed.

(** A client without requests in the window yet. *)
Lemma counted_start key t m : counted key t 0 0 t m.
Proof.
  unfold counted. destruct (map_get key (buckets m)); [by left|]. unfold since. rewrite Z.sub_diag. change (inject_Z 0) with 0%Q.
  rewrite Qmult_0_r, Qmult_0_l. done.
Qed.

Lemma counted_bound key t0 A n last m : table_ok last m -> t0 <= last -> 0 <= n -> counted key t0 A n last m ->
  (inject_Z A <= cap + RATE * since t0 last + inject_Z n * SLACK)%Q.
Proof.
  intros Hok Hle Hn. unfold counted. destruct (gc_capacity Hc) as (_ & Hcap & _).
  pose proof (Qmult_le_0_compat _ _ rate_pos (since_nonneg t0 last Hle)). pose proof (slack_nonneg n Hn).
  destruct (map_get key (buckets m)) as [b|] eqn:E; [|lra]. intros [->|(u & Hu & Hb & Hp)]; [change (inject_Z 0) with 0%Q; lra|].
  destruct (ok_bucket _ _ Hok _ _ E) as (_ & [Ht _] & _). pose proof (rate_since t0 u last).
  pose proof (Qmult_le_0_compat _ _ rate_pos (since_nonneg u last ltac:(lia))). lra.
Qed.
End limiter.

Lemma constructor_good c m : constructor c = Ok m -> (qval (capacity c) <= 4503599627370496)%Q ->
  good_config c /\ forall t, table_ok c t m.
Proof.
  unfold constructor, throw_if. destruct (_ || _) eqn:E; [done|]. intros [= <-] Hcap.
  rewrite !orb_false_iff, !negb_false_iff in E. destruct E as [[[[E1 E2] E3] E4] E5].
  apply not_true_iff_false in E2, E4. destruct (maxClients c) as [n| | |] eqn:Em; try done. apply Z.ltb_ge in E5.
  assert (Hc : good_config c).
  { split.
    - split; [done|]. split; [|done]. rewrite num_less_qval in E2 by done. by apply Qnot_lt_le in E2.
    - split; [done|]. rewrite num_least_qval in E4 by done. by apply Qnot_le_lt in E4.
    - by exists n. }
  split; [done|]. intros t. split; cbn; [done|by apply NoDup_nil|done|]. intros n'. rewrite Em. intros [= <-]. lia.
Qed.

(** C25: Mutation rate: whatever the clients do, in any window of requests on a
    clock that does not go back, one client is allowed at most the capacity
    plus the refill of the elapsed time, up to the rounding of doubles; an
    evicted client gains nothing; and never more buckets are held than the
    configured maximum. *)
Theorem mutation_rate_bounded c m0 start before mid m window stop ds m' key :
  constructor c = Ok m0 -> (qval (capacity c) <= 4503599627370496)%Q ->
  in_order start before mid -> (takes before m0).2 = m ->
  in_order mid window stop -> takes window m = (ds, m') ->
  (inject_Z (admitted key window ds) <=
     qval (capacity c) + RATE c * since mid stop + inject_Z (Z.of_nat (length window)) * SLACK c)%Q /\
  num_least (NInt (Z.of_nat (trackedClients m'))) (maxClients c) = true.
Proof.
  intros Hm Hcap Hb Hbefore Hw Hwin. destruct (constructor_good _ _ Hm Hcap) as [Hc H0].
  destruct (takes before m0) as [ds0 m1] eqn:E0. cbn in Hbefore. subst m1.
  destruct (takes_steps c Hc _ _ _ _ _ _ (H0 start) Hb E0) as (Hok & _ & _).
  destruct (takes_steps c Hc _ _ _ _ _ _ Hok Hw Hwin) as (Hok' & Hle & Hcount). split.
  - eapply (counted_bound c Hc key mid _ (Z.of_nat (length window))); [exact Hok'|done|lia|].
    apply (Hcount key mid 0 0); [done..|]. apply counted_start.
  - destruct (gc_max _ Hc) as (n & En & _). rewrite En. apply num_least_qval; [done..|]. cbn [qval]. rewrite <- Zle_Qle. by eapply ok_size.
Qed.

(** ** Sample runs *)

(** Three at once, two a second, two clients at most. *)
Definition sample_limit : RateLimitConfig := {| capacity := NInt 3; refillPerSecond := NInt 2; maxClients := NInt 2 |}.
Definition sample_limiter : MutationRateLimiter := {| config := sample_limit; buckets := []; admissionRejections := 0 |}.
Definition sample_start : list (jstr * Z) := [(js "a", 0); (js "b", 0)].
(** Client [c] comes while both buckets are drained, and again when that of
    [b] is full. *)
Definition sample_window : list (jstr * Z) :=
  [(js "a", 0); (js "a", 10); (js "a", 20); (js "c", 20); (js "a", 520); (js "b", 520); (js "c", 2000); (js "a", 2000)].

Example sample_decisions : (takes sample_window (takes sample_start sample_limiter).2).1 = [true; true; false; false; true; true; true; true].
Proof. by vm_compute. Qed.

Lemma mutation_rate_bounded_witness :
  (inject_Z 4 <= 3 + RATE sample_limit * since 0 2000 + inject_Z 8 * SLACK sample_limit)%Q /\
  num_least (NInt 2) (NInt 2) = true.
Proof.
  refine (mutation_rate_bounded sample_limit sample_limiter 0 sample_start 0 _ sample_window 2000
    [true; true; false; false; true; true; true; true] (takes sample_window (takes sample_start sample_limiter).2).2 "a" _ _ _ eq_refl _ _);
    [vm_compute; reflexivity|vm_compute; discriminate|vm_compute; repeat split; discriminate|vm_compute; repeat split; discriminate|vm_compute; reflexivity].
Defined.

(** A bucket takes the clock's reading even when it went back, so that the same
    time is credited again: of requests at 1000, 0 and 1000 ms all but one
    should find the bucket of one token empty. *)
Definition single_limit : RateLimitConfig := {| capacity := NInt 1; refillPerSecond := NInt 1; maxClients := NInt 10 |}.
Example clock_step_refills :
  (takes [(js "a", 1000); (js "a", 0); (js "a", 1000)] {| config := single_limit; buckets := []; admissionRejections := 0 |}).1 = [true; false; true].
Proof. by vm_compute. Qed.
