(* ===== verification/CredentialVerifier.v ===== *)
(** CredentialVerifier: packages/credentials.  The WebAuthn assertion verifier
    around the library's [verifyAuthenticationResponse], and the deterministic
    test double with the assertions made for it.  Arguments have their
    TypeScript types; what is decoded from them has none. *)
From S2P Require Import Prelude JsString Host TestHost JsTime JsJson JsNumber JsParse Url.
#[local] Open Scope string_scope.
#[local] Open Scope list_scope.
#[local] Open Scope Z_scope.
#[local] Open Scope js_scope.

(** ** types.ts *)

Record CredentialChallenge : Type := {
  protocolVersion : jstr; challengeId : jstr; challenge : jstr; purpose : jstr; ch_subjectId : jstr; ch_trustedDeviceId : jstr;
  ch_relyingPartyId : jstr; allowedOrigins : list jstr; issuedAt : jstr; expiresAt : jstr; userVerification : jstr;
}.

Inductive Trust : Type :=
| lab_unverified
| attested (attestationFormat aaguid trustPathId verifiedAt : jstr).

Record RegisteredCredential : Type := {
  credentialId : jstr; subjectId : jstr; trustedDeviceId : jstr; relyingPartyId : jstr; publicKeyCose : jstr; algorithm : jsnum;
  signCount : jsnum; status : jstr; transports : option (list jstr); trust : Trust;
}.

Record CredentialAssertion : Type := {
  as_credentialId : jstr; clientDataJSON : jstr; authenticatorData : jstr; signature : jstr; userHandle : option jstr;
}.

Record AssertionVerificationRequest : Type := {
  rq_challenge : CredentialChallenge; rq_credential : RegisteredCredential; rq_assertion : CredentialAssertion; rq_now : Date;
}.

Inductive CredentialFailureCode : Type :=
| invalid_challenge | expired_challenge | credential_mismatch | credential_revoked | subject_mismatch | device_mismatch
| rp_id_mismatch | origin_mismatch | signature_invalid | user_presence_required | user_verification_required
| counter_rollback | attestation_policy_failed | malformed_assertion.

Record VerifiedAssertion : Type := {
  va_credentialId : jstr; va_signCount : jsnum; va_userPresent : bool; va_userVerified : bool; va_origin : jstr; va_relyingPartyId : jstr;
}.
Inductive AssertionVerificationResult : Type :=
| verified (v : VerifiedAssertion)
| unverified (code : CredentialFailureCode).

(** ** Values of unknown type *)

(** [value.key] of a value that is neither [null] nor [undefined]. *)
Definition member (key : jstr) (v : jsval) : jsval := match v with JObj props => prop key props | _ => JUndefined end.
Definition is_text (v : jsval) (s : jstr) : bool := match v with JStr t => t =s? s | _ => false end.
Definition truthy (v : jsval) : bool :=
  match v with
  | JUndefined | JNull => false
  | JBool b => b
  | JNum n => match n with NInt z => negb (z =? 0) | NNaN => false | _ => true end
  | JStr s => match s with [] => false | _ => true end
  | _ => true
  end.
Definition is_true (v : jsval) : bool := match v with JBool b => b | _ => false end.
Definition is_object (v : jsval) : bool := match v with JArr _ | JObj _ => true | _ => false end.

(** ** simpleWebAuthnVerifier.ts *)

Definition MAX_ENCODED_FIELD : Z := 16384.
Definition MAX_CREDENTIAL_ID_BYTES : Z := 1024.
Definition MAX_PUBLIC_KEY_BYTES : Z := 2048.
Definition ES256_COSE_ALGORITHM : Z := -7.
Definition UINT32_MAX : Z := 4294967295.

Definition len {A} (l : list A) : Z := Z.of_nat (length l).

(** A step of the verification: [reject] throws an [AssertionRejected], the
    library any other exception. *)
Inductive checked (A : Type) : Type :=
| Passed (a : A)
| Rejected (code : CredentialFailureCode)
| Crashed.
Arguments Passed {A} a.
Arguments Rejected {A} code.
Arguments Crashed {A}.
#[global] Instance checked_ret : MRet checked := fun A a => Passed a.
#[global] Instance checked_bind : MBind checked := fun A B k m =>
  match m with Passed a => k a | Rejected c => Rejected c | Crashed => Crashed end.

Definition is_passed {A} (m : checked A) : bool := match m with Passed _ => true | _ => false end.
Definition reject_if (b : bool) (code : CredentialFailureCode) : checked unit := if b then Rejected code else Passed tt.

(** [/^[A-Za-z0-9_-]+$/] *)
Definition BASE64URL (s : jstr) : bool := negb (len s =? 0) && forallb is_base64url_char s.

Definition decodeBase64Url (value : jstr) (maximumBytes : Z) : checked (list N) :=
  reject_if ((len value =? 0) || (MAX_ENCODED_FIELD <? len value) || negb (BASE64URL value)) malformed_assertion ≫= fun _ =>
  let bytes := base64urlDecode value in
  reject_if ((len bytes =? 0) || (maximumBytes <? len bytes) || negb (base64urlEncode bytes =s? value)) malformed_assertion ≫= fun _ =>
  Passed bytes.

Definition parseDate `{Host} (value : jstr) : checked Z :=
  match date_parse value with Some t => Passed t | None => Rejected invalid_challenge end.

Definition assertSafeCounter (value : jsnum) : checked Z :=
  match safe_between value 0 UINT32_MAX with Some z => Passed z | None => Rejected malformed_assertion end.

Definition secure_origin (u : URL) : bool :=
  (protocol u =s? "https:") || ((protocol u =s? "http:") && ((hostname u =s? "localhost") || (hostname u =s? "127.0.0.1"))).

Definition normalizeOrigin `{UrlParser} (value : jsval) : checked jstr :=
  match value with
  | JStr s =>
      match url_parse s with
      | None => Rejected malformed_assertion
      | Some u => if negb (origin u =s? s) || negb (secure_origin u) then Rejected origin_mismatch else Passed (origin u)
      end
  | _ => Rejected malformed_assertion
  end.

(** [(?:[a-z0-9](?:[a-z0-9-]{0,61}[a-z0-9])?)], ignoring case *)
Definition rp_label (s : jstr) : bool :=
  match s with
  | [] => false
  | c :: r => is_alnum c && (len s <=? 63) && forallb (fun c => is_alnum c || (c =? 45)%N) r && is_alnum (List.last s 0%N)
  end.
(** [s.split(c)] *)
Fixpoint split_at (c : N) (s : jstr) : list jstr :=
  match s with
  | [] => [[]]
  | d :: r =>
      if (d =? c)%N then [] :: split_at c r
      else match split_at c r with l :: ls => (d :: l) :: ls | [] => [[d]] end
  end.
(** Labels joined by dots, at most 253 characters. *)
Definition rp_id_pattern (s : jstr) : bool := (len s <=? 253) && forallb rp_label (split_at 46 s).

(** ** The library *)

Record ExpectedAuthentication : Type := {
  ex_id : jstr; ex_clientDataJSON : jstr; ex_authenticatorData : jstr; ex_signature : jstr; ex_userHandle : option jstr;
  ex_challenge : jstr; ex_origins : list jstr; ex_rpID : jstr; ex_publicKey : list N; ex_counter : jsnum; ex_transports : option (list jstr);
}.
Record AuthenticationInfo : Type := { newCounter : jsnum; credentialID : jstr; info_origin : jstr; rpID : jstr; info_userVerified : bool }.

(** [verifyAuthenticationResponse] of @simplewebauthn/server, with the type
    [webauthn.get] expected and user verification required; [None] where it
    throws, and the flag [verified] with the information otherwise. *)
Class WebAuthnLibrary := verifyAuthenticationResponse : ExpectedAuthentication -> option (bool * AuthenticationInfo).

(** The counter reported for a verified assertion is the one in its
    authenticator data. *)
Class WebAuthnLaws (L : WebAuthnLibrary) := {
  counter_reported e info : verifyAuthenticationResponse e = Some (true, info) ->
    newCounter info = NInt (fold_left (fun n b => n * 256 + Z.of_N b) (take 4 (drop 33 (base64urlDecode (ex_authenticatorData e)))) 0);
}.

Fixpoint check_all {A B} (f : A -> checked B) (l : list A) : checked (list B) :=
  match l with
  | [] => Passed []
  | x :: l => f x ≫= fun y => check_all f l ≫= fun ys => Passed (y :: ys)
  end.

(** [buffer.readUInt32BE(offset)] *)
Definition readUInt32BE (offset : nat) (bs : list N) : Z :=
  fold_left (fun n b => n * 256 + Z.of_N b) (take 4 (drop offset bs)) 0.

Section verifier.
Context `{Host, !UrlParser, !WebAuthnLibrary}.

(** The checks of the stored challenge and the clock. *)
Definition check_challenge (ch : CredentialChallenge) (now : Z) : checked unit :=
  reject_if (negb (protocolVersion ch =s? "airlock-webauthn.v1")) invalid_challenge ≫= fun _ =>
  reject_if (negb (purpose ch =s? "approve-airlock-challenge")) invalid_challenge ≫= fun _ =>
  reject_if (negb (id_pattern (challengeId ch))) invalid_challenge ≫= fun _ =>
  parseDate (issuedAt ch) ≫= fun issued =>
  parseDate (expiresAt ch) ≫= fun expires =>
  reject_if ((expires <=? issued) || (now <? issued)) invalid_challenge ≫= fun _ =>
  reject_if (expires <=? now) expired_challenge ≫= fun _ =>
  reject_if (negb (userVerification ch =s? "required")) invalid_challenge ≫= fun _ =>
  decodeBase64Url (challenge ch) 1024 ≫= fun _ =>
  Passed tt.

(** The checks of the stored credential, giving its key and counter. *)
Definition check_credential (ch : CredentialChallenge) (cr : RegisteredCredential) (a : CredentialAssertion) : checked (list N * Z) :=
  reject_if (negb (status cr =s? "active")) credential_revoked ≫= fun _ =>
  reject_if (negb (as_credentialId a =s? credentialId cr)) credential_mismatch ≫= fun _ =>
  decodeBase64Url (credentialId cr) MAX_CREDENTIAL_ID_BYTES ≫= fun _ =>
  reject_if (negb (subjectId cr =s? ch_subjectId ch)) subject_mismatch ≫= fun _ =>
  reject_if (negb (trustedDeviceId cr =s? ch_trustedDeviceId ch)) device_mismatch ≫= fun _ =>
  reject_if (negb (relyingPartyId cr =s? ch_relyingPartyId ch)) rp_id_mismatch ≫= fun _ =>
  reject_if (negb (rp_id_pattern (ch_relyingPartyId ch))) rp_id_mismatch ≫= fun _ =>
  reject_if (negb (bool_decide (algorithm cr = NInt ES256_COSE_ALGORITHM))) attestation_policy_failed ≫= fun _ =>
  assertSafeCounter (signCount cr) ≫= fun counter =>
  decodeBase64Url (publicKeyCose cr) MAX_PUBLIC_KEY_BYTES ≫= fun publicKey =>
  Passed (publicKey, counter).

Definition check_origins (ch : CredentialChallenge) : checked (list jstr) :=
  reject_if ((length (allowedOrigins ch) =? 0)%nat || (16 <? len (allowedOrigins ch))) invalid_challenge ≫= fun _ =>
  check_all (fun o => normalizeOrigin (JStr o)) (allowedOrigins ch) ≫= fun expectedOrigins =>
  reject_if (negb (bool_decide (NoDup expectedOrigins))) invalid_challenge ≫= fun _ =>
  Passed expectedOrigins.

(** The client data, giving their origin. *)
Definition check_client (ch : CredentialChallenge) (a : CredentialAssertion) (expectedOrigins : list jstr) : checked jstr :=
  decodeBase64Url (clientDataJSON a) 8192 ≫= fun bytes =>
  match json_parse (utf8_decode bytes) with
  | Throw _ => Rejected malformed_assertion
  | Ok client =>
      reject_if (negb (is_object client)) malformed_assertion ≫= fun _ =>
      reject_if (negb (is_text (member "type" client) "webauthn.get")) malformed_assertion ≫= fun _ =>
      reject_if (negb (is_text (member "challenge" client) (challenge ch))) invalid_challenge ≫= fun _ =>
      normalizeOrigin (member "origin" client) ≫= fun actualOrigin =>
      reject_if (negb (includes expectedOrigins actualOrigin)) origin_mismatch ≫= fun _ =>
      reject_if (is_true (member "crossOrigin" client)) origin_mismatch ≫= fun _ =>
      Passed actualOrigin
  end.

(** The authenticator data, giving their counter. *)
Definition check_authenticator (ch : CredentialChallenge) (a : CredentialAssertion) (counter : Z) : checked Z :=
  decodeBase64Url (authenticatorData a) 4096 ≫= fun data =>
  reject_if (len data <? 37) malformed_assertion ≫= fun _ =>
  reject_if (negb (bool_decide (take 32 data = sha256 (utf8_encode (ch_relyingPartyId ch))))) rp_id_mismatch ≫= fun _ =>
  let flags := nth 32 data 0%N in
  reject_if (N.land flags 1 =? 0)%N user_presence_required ≫= fun _ =>
  reject_if (N.land flags 4 =? 0)%N user_verification_required ≫= fun _ =>
  let assertedCounter := readUInt32BE 33 data in
  reject_if ((negb (counter =? 0) || negb (assertedCounter =? 0)) && (assertedCounter <=? counter)) counter_rollback ≫= fun _ =>
  Passed assertedCounter.

Definition check_signature (a : CredentialAssertion) : checked unit :=
  decodeBase64Url (signature a) 1024 ≫= fun _ =>
  match userHandle a with
  | Some h => decodeBase64Url h 1024 ≫= fun _ => Passed tt
  | None => Passed tt
  end.

Definition expected_response (rq : AssertionVerificationRequest) (publicKey : list N) (expectedOrigins : list jstr) : ExpectedAuthentication :=
  let ch := rq_challenge rq in let cr := rq_credential rq in let a := rq_assertion rq in
  {| ex_id := credentialId cr; ex_clientDataJSON := clientDataJSON a; ex_authenticatorData := authenticatorData a;
     ex_signature := signature a; ex_userHandle := userHandle a; ex_challenge := challenge ch; ex_origins := expectedOrigins;
     ex_rpID := ch_relyingPartyId ch; ex_publicKey := publicKey; ex_counter := signCount cr; ex_transports := transports cr |}.

(** What the library verified, checked against the request. *)
Definition check_info (rq : AssertionVerificationRequest) (actualOrigin : jstr) (ok : bool) (info : AuthenticationInfo) : checked VerifiedAssertion :=
  reject_if (negb ok) signature_invalid ≫= fun _ =>
  assertSafeCounter (newCounter info) ≫= fun _ =>
  reject_if (negb (credentialID info =s? credentialId (rq_credential rq)) || negb (info_origin info =s? actualOrigin) ||
             negb (rpID info =s? ch_relyingPartyId (rq_challenge rq))) signature_invalid ≫= fun _ =>
  reject_if (negb (info_userVerified info)) user_verification_required ≫= fun _ =>
  Passed {| va_credentialId := credentialId (rq_credential rq); va_signCount := newCounter info; va_userPresent := true; va_userVerified := true;
            va_origin := info_origin info; va_relyingPartyId := rpID info |}.

Definition check_request (rq : AssertionVerificationRequest) : checked VerifiedAssertion :=
  let ch := rq_challenge rq in let cr := rq_credential rq in let a := rq_assertion rq in
  match rq_now rq with
  | None => Rejected invalid_challenge
  | Some now =>
      check_challenge ch now ≫= fun _ =>
      check_credential ch cr a ≫= fun '(publicKey, counter) =>
      check_origins ch ≫= fun expectedOrigins =>
      check_client ch a expectedOrigins ≫= fun actualOrigin =>
      check_authenticator ch a counter ≫= fun _ =>
      check_signature a ≫= fun _ =>
      match verifyAuthenticationResponse (expected_response rq publicKey expectedOrigins) with
      | None => Crashed
      | Some (ok, info) => check_info rq actualOrigin ok info
      end
  end.

(** [SimpleWebAuthnCredentialVerifier.verifyAssertion] *)
Definition verifyAssertion (rq : AssertionVerificationRequest) : AssertionVerificationResult :=
  match check_request rq with
  | Passed v => verified v
  | Rejected code => unverified code
  | Crashed => unverified signature_invalid
  end.
End verifier.

(** ** deterministicTestVerifier.ts *)

Section double.
Context `{Host}.

(** [Buffer.from(JSON.stringify(value), "utf8").toString("base64url")] *)
Definition encode (value : jsval) : jstr := base64urlEncode (utf8_encode (default [] (json_stringify value))).
Definition decode (value : jstr) : jsval :=
  match json_parse (utf8_decode (base64urlDecode value)) with Ok v => v | Throw _ => JUndefined end.

Definition signatureFor (secret credentialId clientDataJSON authenticatorData : jstr) : jstr :=
  base64urlEncode (hmacSha256 (utf8_encode secret)
    (utf8_encode credentialId ++ utf8_encode "." ++ utf8_encode clientDataJSON ++ utf8_encode "." ++ utf8_encode authenticatorData)).

Definition equalBase64Url (left right : jstr) : bool := bool_decide (base64urlDecode left = base64urlDecode right).

(** The constructor of [DeterministicTestCredentialVerifier]. *)
Definition test_constructor (secret : jstr) : result jstr :=
  if (length secret <? 16)%nat then Throw "test verifier secret is too short" else Ok secret.

(** [DeterministicTestCredentialVerifier.verifyAssertion] *)
Definition test_challenge (ch : CredentialChallenge) (now : Date) : checked unit :=
  match now, date_parse (issuedAt ch), date_parse (expiresAt ch) with
  | Some now, Some issued, Some expires =>
      reject_if (expires <=? issued) invalid_challenge ≫= fun _ =>
      reject_if (expires <=? now) expired_challenge
  | _, _, _ => Rejected invalid_challenge
  end.

Definition test_credential (ch : CredentialChallenge) (cr : RegisteredCredential) (a : CredentialAssertion) : checked unit :=
  reject_if (negb (status cr =s? "active")) credential_revoked ≫= fun _ =>
  reject_if (negb (as_credentialId a =s? credentialId cr)) credential_mismatch ≫= fun _ =>
  reject_if (negb (subjectId cr =s? ch_subjectId ch)) subject_mismatch ≫= fun _ =>
  reject_if (negb (trustedDeviceId cr =s? ch_trustedDeviceId ch)) device_mismatch ≫= fun _ =>
  reject_if (negb (relyingPartyId cr =s? ch_relyingPartyId ch)) rp_id_mismatch.

Definition count_zero (n : jsnum) : bool := bool_decide (n = NInt 0).

Definition test_client (ch : CredentialChallenge) (client : jsval) : checked jstr :=
  reject_if (negb (is_text (member "challenge" client) (challenge ch))) invalid_challenge ≫= fun _ =>
  match member "origin" client with
  | JStr o => reject_if (negb (includes (allowedOrigins ch) o)) origin_mismatch ≫= fun _ => Passed o
  | _ => Rejected origin_mismatch
  end.

Definition test_authenticator (ch : CredentialChallenge) (cr : RegisteredCredential) (authenticator : jsval) (count : Z) : checked unit :=
  reject_if (negb (is_text (member "rpId" authenticator) (ch_relyingPartyId ch))) rp_id_mismatch ≫= fun _ =>
  reject_if (negb (truthy (member "userPresent" authenticator))) user_presence_required ≫= fun _ =>
  reject_if (negb (truthy (member "userVerified" authenticator))) user_verification_required ≫= fun _ =>
  reject_if (negb (count =? 0) && negb (count_zero (signCount cr)) && num_least (NInt count) (signCount cr)) counter_rollback.

Definition authenticator_count (authenticator : jsval) : option Z :=
  match member "signCount" authenticator with JNum n => safe_between n 0 MAX_SAFE_INTEGER | _ => None end.

Definition test_request (secret : jstr) (rq : AssertionVerificationRequest) : checked VerifiedAssertion :=
  let ch := rq_challenge rq in let cr := rq_credential rq in let a := rq_assertion rq in
  test_challenge ch (rq_now rq) ≫= fun _ =>
  test_credential ch cr a ≫= fun _ =>
  let client := decode (clientDataJSON a) in
  let authenticator := decode (authenticatorData a) in
  match authenticator_count authenticator with
  | Some count =>
      reject_if (negb (is_text (member "type" client) "webauthn.get")) malformed_assertion ≫= fun _ =>
      test_client ch client ≫= fun o =>
      test_authenticator ch cr authenticator count ≫= fun _ =>
      reject_if (negb (equalBase64Url (signatureFor secret (as_credentialId a) (clientDataJSON a) (authenticatorData a)) (signature a))) signature_invalid ≫= fun _ =>
      Passed {| va_credentialId := as_credentialId a; va_signCount := NInt count; va_userPresent := true; va_userVerified := true;
                va_origin := o; va_relyingPartyId := ch_relyingPartyId ch |}
  | None => Rejected malformed_assertion
  end.

Definition test_verifyAssertion (secret : jstr) (rq : AssertionVerificationRequest) : AssertionVerificationResult :=
  match test_request secret rq with
  | Passed v => verified v
  | Rejected code => unverified code
  | Crashed => unverified signature_invalid
  end.

Record TestAssertionInput : Type := {
  ti_secret : jstr; ti_challenge : CredentialChallenge; ti_credential : RegisteredCredential; ti_origin : option jstr;
  ti_signCount : option jsnum; ti_userPresent : option bool; ti_userVerified : option bool;
}.

Definition createDeterministicTestAssertion (i : TestAssertionInput) : CredentialAssertion :=
  let ch := ti_challenge i in let cr := ti_credential i in
  let client := encode (JObj [
    (js "type", JStr "webauthn.get"); (js "challenge", JStr (challenge ch));
    (js "origin", match ti_origin i with Some o => JStr o | None => match allowedOrigins ch with o :: _ => JStr o | [] => JUndefined end end)]) in
  let authenticator := encode (JObj [
    (js "rpId", JStr (ch_relyingPartyId ch)); (js "userPresent", JBool (default true (ti_userPresent i)));
    (js "userVerified", JBool (default true (ti_userVerified i)));
    (js "signCount", JNum (default (num_plus (signCount cr) (NInt 1)) (ti_signCount i)))]) in
  {| as_credentialId := credentialId cr; clientDataJSON := client; authenticatorData := authenticator;
     signature := signatureFor (ti_secret i) (credentialId cr) client authenticator; userHandle := None |}.
End double.

(** ** Reading verifications backwards *)

Lemma passed_bind {A B} (m : checked A) (k : A -> checked B) b : (m ≫= k) = Passed b <-> exists a, m = Passed a /\ k a = Passed b.
Proof. destruct m as [a|c|]; cbn; split; [by exists a|by intros (? & [= <-] & ?)|done|by intros (? & ? & _)|done|by intros (? & ? & _)]. Qed.
Lemma reject_if_passed b code u : reject_if b code = Passed u <-> b = false.
Proof. destruct u, b; by cbn. Qed.

(** Splits the hypothesis that a chain of steps passed. *)
Ltac passed H :=
  cbv beta zeta in H;
  repeat match type of H with
  | (_ ≫= _) = Passed _ => apply passed_bind in H as (? & ? & H); cbv beta zeta in H
  end;
  repeat match goal with
  | E : reject_if _ _ = Passed _ |- _ => apply reject_if_passed in E; rewrite ?orb_false_iff, ?negb_false_iff in E
  | E : _ && _ = true |- _ => apply andb_true_iff in E as [? E]
  end.

Lemma is_text_eq v s : is_text v s = true <-> v = JStr s.
Proof. destruct v; cbn; try done. rewrite jeqb_true. split; congruence. Qed.

Section soundness.
Context `{Host, !UrlParser, !WebAuthnLibrary}.

Lemma verified_passed rq v : verifyAssertion rq = verified v -> check_request rq = Passed v.
Proof. unfold verifyAssertion. destruct (check_request rq); [by intros [= ->]|done..]. Qed.

Lemma decode_passed value n bs : decodeBase64Url value n = Passed bs -> bs = base64urlDecode value /\ base64urlEncode bs = value /\ 0 < len bs <= n.
Proof.
  unfold decodeBase64Url. intros E. passed E. injection E as <-.
  repeat match goal with E : _ /\ _ |- _ => destruct E end. split; [done|]. split; [by apply jeqb_true|]. unfold len in *. lia.
Qed.

Lemma counter_passed n z : assertSafeCounter n = Passed z -> n = NInt z /\ 0 <= z <= UINT32_MAX.
Proof. unfold assertSafeCounter. destruct (safe_between _ _ _) eqn:E; [|done]. intros [= <-]. apply safe_between_Some in E. tauto. Qed.

Lemma date_passed s t : parseDate s = Passed t -> date_parse s = Some t.
Proof. unfold parseDate. destruct (date_parse s); [by intros [= <-]|done]. Qed.

Lemma origin_passed v o : normalizeOrigin v = Passed o -> v = JStr o /\ exists u, url_parse o = Some u /\ origin u = o /\ secure_origin u = true.
Proof.
  destruct v; try done. cbn. destruct (url_parse s) as [u|] eqn:E; [|done]. destruct (_ || _) eqn:Eb; [done|]. intros [= <-].
  rewrite orb_false_iff, !negb_false_iff, jeqb_true in Eb. destruct Eb as [Eo Hs]. rewrite Eo. split; [done|]. by exists u.
Qed.

Lemma origins_passed l os : check_all (fun o => normalizeOrigin (JStr o)) l = Passed os -> os = l.
Proof.
  revert os. induction l as [|x l IH]; intros os E; cbn [check_all] in E; [by injection E as <-|].
  apply passed_bind in E as (o & Eo & E). apply passed_bind in E as (ys & Ey & E). injection E as <-.
  apply origin_passed in Eo as [[= ->] _]. by rewrite (IH _ Ey).
Qed.

(** A challenge that is live at [now]. *)
Definition live (ch : CredentialChallenge) (now : Z) : Prop :=
  protocolVersion ch = js "airlock-webauthn.v1" /\ purpose ch = js "approve-airlock-challenge" /\
  exists issued expires, date_parse (issuedAt ch) = Some issued /\ date_parse (expiresAt ch) = Some expires /\ issued <= now < expires.

Lemma challenge_passed ch now u : check_challenge ch now = Passed u -> live ch now.
Proof.
  unfold check_challenge. intros E. passed E. repeat match goal with E : parseDate _ = _ |- _ => apply date_passed in E end.
  repeat match goal with E : (_ =s? _) = true |- _ => apply jeqb_true in E end.
  split; [done|]. split; [done|]. eexists _, _. split; [done|]. split; [done|]. lia.
Qed.

(** The credential of the challenge, whose key may answer it. *)
Definition bound_to (ch : CredentialChallenge) (cr : RegisteredCredential) (a : CredentialAssertion) : Prop :=
  status cr = js "active" /\ as_credentialId a = credentialId cr /\ subjectId cr = ch_subjectId ch /\
  trustedDeviceId cr = ch_trustedDeviceId ch /\ relyingPartyId cr = ch_relyingPartyId ch /\ algorithm cr = NInt ES256_COSE_ALGORITHM.

Lemma credential_passed ch cr a key counter : check_credential ch cr a = Passed (key, counter) ->
  bound_to ch cr a /\ signCount cr = NInt counter /\ 0 <= counter <= UINT32_MAX /\ base64urlEncode key = publicKeyCose cr.
Proof.
  unfold check_credential. intros E. passed E. injection E as <- <-.
  repeat match goal with E : (_ =s? _) = true |- _ => apply jeqb_true in E | E : bool_decide _ = true |- _ => apply bool_decide_eq_true in E end.
  match goal with E : assertSafeCounter _ = _ |- _ => apply counter_passed in E as [? ?] end.
  match goal with E : decodeBase64Url (publicKeyCose _) _ = _ |- _ => apply decode_passed in E as (_ & ? & _) end. done.
Qed.

Lemma client_passed ch a os o : check_client ch a os = Passed o ->
  o ∈ os /\ (exists u, url_parse o = Some u /\ origin u = o /\ secure_origin u = true) /\
  exists client, json_parse (utf8_decode (base64urlDecode (clientDataJSON a))) = Ok client /\
    member "type" client = JStr "webauthn.get" /\ member "challenge" client = JStr (challenge ch) /\ member "origin" client = JStr o.
Proof.
  unfold check_client. intros E. apply passed_bind in E as (bs & Eb & E). apply decode_passed in Eb as (-> & _).
  destruct (json_parse _) as [client|] eqn:Ej; [|done]. passed E. injection E as <-.
  repeat match goal with E : is_text _ _ = true |- _ => apply is_text_eq in E | E : includes _ _ = true |- _ => apply includes_true in E end.
  match goal with E : normalizeOrigin _ = _ |- _ => apply origin_passed in E as [? ?] end. split; [done|]. split; [done|]. by exists client.
Qed.

Definition asserted_data (a : CredentialAssertion) : list N := base64urlDecode (authenticatorData a).
Definition asserted_counter (a : CredentialAssertion) : Z := readUInt32BE 33 (asserted_data a).

Lemma authenticator_passed ch a counter n : check_authenticator ch a counter = Passed n ->
  n = asserted_counter a /\ take 32 (asserted_data a) = sha256 (utf8_encode (ch_relyingPartyId ch)) /\
  N.land (nth 32 (asserted_data a) 0%N) 1 <> 0%N /\ N.land (nth 32 (asserted_data a) 0%N) 4 <> 0%N /\
  (counter = 0 /\ n = 0 \/ counter < n).
Proof.
  unfold check_authenticator. intros E. apply passed_bind in E as (bs & Eb & E). apply decode_passed in Eb as (-> & _). fold (asserted_data a) in E.
  fold (asserted_counter a) in E. passed E. injection E as <-.
  repeat match goal with E : bool_decide _ = true |- _ => apply bool_decide_eq_true in E | E : (_ =? _)%N = false |- _ => apply N.eqb_neq in E end.
  split; [done|]. split; [done|]. split; [done|]. split; [done|].
  match goal with E : _ && _ = false |- _ => rename E into Hc end. apply andb_false_iff in Hc as [Hc|Hc]; [|apply Z.leb_gt in Hc; by right].
  rewrite orb_false_iff, !negb_false_iff, !Z.eqb_eq in Hc. by left.
Qed.

Lemma info_passed rq o ok info v : check_info rq o ok info = Passed v ->
  ok = true /\ info_userVerified info = true /\ info_origin info = o /\
  v = {| va_credentialId := credentialId (rq_credential rq); va_signCount := newCounter info; va_userPresent := true; va_userVerified := true;
         va_origin := o; va_relyingPartyId := ch_relyingPartyId (rq_challenge rq) |}.
Proof.
  unfold check_info. intros E. passed E. injection E as <-.
  repeat match goal with E : _ /\ _ |- _ => destruct E end. repeat match goal with E : (_ =s? _) = true |- _ => apply jeqb_true in E end.
  subst. split; [done|]. split; [done|]. split; [done|]. congruence.
Qed.

(** What a verified assertion went through. *)
Lemma request_passed rq v : check_request rq = Passed v ->
  exists now key counter o info,
    rq_now rq = Some now /\ live (rq_challenge rq) now /\ bound_to (rq_challenge rq) (rq_credential rq) (rq_assertion rq) /\
    base64urlEncode key = publicKeyCose (rq_credential rq) /\ signCount (rq_credential rq) = NInt counter /\
    check_client (rq_challenge rq) (rq_assertion rq) (allowedOrigins (rq_challenge rq)) = Passed o /\
    check_authenticator (rq_challenge rq) (rq_assertion rq) counter = Passed (asserted_counter (rq_assertion rq)) /\
    verifyAuthenticationResponse (expected_response rq key (allowedOrigins (rq_challenge rq))) = Some (true, info) /\
    check_info rq o true info = Passed v.
Proof.
  unfold check_request. cbv zeta. destruct (rq_now rq) as [now|]; [|done]. intros E.
  apply passed_bind in E as (u1 & E1 & E). apply passed_bind in E as ([key counter] & E2 & E).
  apply passed_bind in E as (os & E3 & E). apply passed_bind in E as (o & E4 & E).
  apply passed_bind in E as (n & E5 & E). apply passed_bind in E as (u2 & E6 & E).
  apply credential_passed in E2 as (Hb & Hc & _ & Hk).
  assert (os = allowedOrigins (rq_challenge rq)) as ->.
  { unfold check_origins in E3. passed E3. injection E3 as <-. match goal with E : check_all _ _ = _ |- _ => by apply origins_passed in E end. }
  destruct (verifyAuthenticationResponse _) as [[ok info]|] eqn:Ev; [|done]. pose proof (info_passed _ _ _ _ _ E) as (-> & _).
  pose proof (authenticator_passed _ _ _ _ E5) as (-> & _).
  exists now, key, counter, o, info. split; [done|]. split; [by eapply challenge_passed|]. done.
Qed.

(** C17: What a verified assertion proves: the challenge was live at the time of
    verification and for approvals; the assertion names the challenge's own
    active credential, of the same subject, device and relying party; the
    client data repeat the challenge at one of its allowed, secure origins; the
    authenticator data carry the hash of the relying party, user presence and
    user verification, and a counter above the stored one unless both are zero;
    and the library verified exactly these values under the stored key. *)
Theorem verified_assertion_sound rq v : verifyAssertion rq = verified v ->
  let ch := rq_challenge rq in let cr := rq_credential rq in let a := rq_assertion rq in
  exists now counter key info client,
    rq_now rq = Some now /\ live ch now /\ bound_to ch cr a /\
    va_origin v ∈ allowedOrigins ch /\ (exists u, url_parse (va_origin v) = Some u /\ origin u = va_origin v /\ secure_origin u = true) /\
    json_parse (utf8_decode (base64urlDecode (clientDataJSON a))) = Ok client /\
    member "type" client = JStr "webauthn.get" /\ member "challenge" client = JStr (challenge ch) /\ member "origin" client = JStr (va_origin v) /\
    take 32 (asserted_data a) = sha256 (utf8_encode (ch_relyingPartyId ch)) /\
    N.land (nth 32 (asserted_data a) 0%N) 1 <> 0%N /\ N.land (nth 32 (asserted_data a) 0%N) 4 <> 0%N /\
    signCount cr = NInt counter /\ (counter = 0 /\ asserted_counter a = 0 \/ counter < asserted_counter a) /\
    base64urlEncode key = publicKeyCose cr /\
    verifyAuthenticationResponse (expected_response rq key (allowedOrigins ch)) = Some (true, info) /\ info_userVerified info = true /\
    va_signCount v = newCounter info /\ va_credentialId v = credentialId cr.
Proof.
  intros E%verified_passed ch cr a. apply request_passed in E as (now & key & counter & o & info & Hnow & Hl & Hb & Hk & Hc & Hcl & Hau & Hlib & Hi).
  apply client_passed in Hcl as (Ho & Hsec & client & Hj & C1 & C2 & C3). apply authenticator_passed in Hau as (_ & A1 & A2 & A3 & A4).
  apply info_passed in Hi as (_ & Huv & Hio & ->). exists now, counter, key, info, client. cbn [va_origin va_signCount va_credentialId].
  do 16 (split; [done|]). done.
Qed.

(** ** The counter over a credential's life *)

Definition with_count (n : jsnum) (cr : RegisteredCredential) : RegisteredCredential :=
  {| credentialId := credentialId cr; subjectId := subjectId cr; trustedDeviceId := trustedDeviceId cr; relyingPartyId := relyingPartyId cr;
     publicKeyCose := publicKeyCose cr; algorithm := algorithm cr; signCount := n; status := status cr; transports := transports cr; trust := trust cr |}.

(** The issuer stores the counter of every verified assertion, as it must. *)
Definition presented (cr : RegisteredCredential) (x : CredentialChallenge * CredentialAssertion * Date) : RegisteredCredential :=
  match verifyAssertion {| rq_challenge := x.1.1; rq_credential := cr; rq_assertion := x.1.2; rq_now := x.2 |} with
  | verified v => with_count (va_signCount v) cr
  | unverified _ => cr
  end.

Context `{!WebAuthnLaws _}.

Lemma counter_nonneg a : 0 <= asserted_counter a.
Proof.
  unfold asserted_counter, readUInt32BE. generalize (take 4 (drop 33 (asserted_data a))). intros l.
  assert (Hl : forall n, 0 <= n -> 0 <= fold_left (fun n b => n * 256 + Z.of_N b) l n); [|by apply Hl].
  induction l as [|b l IH]; intros n Hn; cbn; [done|]. apply IH. lia.
Qed.

Lemma verified_counter rq v : verifyAssertion rq = verified v ->
  va_signCount v = NInt (asserted_counter (rq_assertion rq)) /\
  exists counter, signCount (rq_credential rq) = NInt counter /\
    (counter = 0 /\ asserted_counter (rq_assertion rq) = 0 \/ counter < asserted_counter (rq_assertion rq)).
Proof.
  intros E%verified_passed. apply request_passed in E as (now & key & counter & o & info & _ & _ & _ & _ & Hc & _ & Hau & Hlib & Hi).
  apply authenticator_passed in Hau as (_ & _ & _ & _ & A4). apply info_passed in Hi as (_ & _ & _ & ->).
  split; [|by exists counter]. cbn [va_signCount]. by rewrite (counter_reported _ _ Hlib).
Qed.

Lemma presented_counter cr x n : 0 < n -> (exists m, signCount cr = NInt m /\ n <= m) -> exists m, signCount (presented cr x) = NInt m /\ n <= m.
Proof.
  intros Hn (m & Hm & Hle). unfold presented. destruct (verifyAssertion _) as [v|code] eqn:E; [|by exists m].
  apply verified_counter in E as (Hv & counter & Hc & Hlt). cbn [rq_credential rq_assertion] in *. cbn [with_count signCount]. rewrite Hv.
  eexists. split; [done|]. assert (counter = m) as -> by congruence. lia.
Qed.

(** C18: A cloned or replayed authenticator is detected: once an assertion with a
    counter other than zero was verified and its counter stored, no assertion
    with the same or a lower counter verifies for that credential again, for
    any challenge and after any further verifications. *)
Theorem counter_never_reused ch cr a now v later ch' a' now' :
  verifyAssertion {| rq_challenge := ch; rq_credential := cr; rq_assertion := a; rq_now := now |} = verified v ->
  asserted_counter a <> 0 -> asserted_counter a' <= asserted_counter a ->
  let cr' := fold_left presented later (with_count (va_signCount v) cr) in
  exists code, verifyAssertion {| rq_challenge := ch'; rq_credential := cr'; rq_assertion := a'; rq_now := now' |} = unverified code.
Proof.
  intros E Hnz Ha'. apply verified_counter in E as (Hv & counter & Hc & Hlt). cbn [rq_assertion] in *. cbv zeta.
  destruct (verifyAssertion _) as [v'|code] eqn:E'; [|by exists code]. apply verified_counter in E' as (_ & n' & Hn' & Hlt').
  cbn [rq_credential rq_assertion] in *. exfalso.
  pose proof (counter_nonneg a). assert (Hpos : 0 < asserted_counter a) by lia.
  assert (Hinv : exists m, signCount (fold_left presented later (with_count (va_signCount v) cr)) = NInt m /\ asserted_counter a <= m).
  { assert (Hstart : exists m, signCount (with_count (va_signCount v) cr) = NInt m /\ asserted_counter a <= m) by (cbn; rewrite Hv; eexists; split; [done|lia]).
    revert Hstart. generalize (with_count (va_signCount v) cr). clear -Hpos WebAuthnLaws0. induction later as [|x l IH]; intros cr0 H0'; [done|].
    cbn. apply IH. by apply presented_counter. }
  destruct Hinv as (m & Hm & Hle). assert (m = n') as -> by congruence. lia.
Qed.
End soundness.

(** ** The test double *)

Lemma code_point_bytes p : (p < 1114112)%N -> bytes (utf8_code_point p).
Proof. intros Hp. unfold bytes, utf8_code_point. repeat case_match; rewrite ?N.ltb_lt, ?N.ltb_ge in *; repeat constructor; div_lia. Qed.

Lemma utf8_encode_bytes s : code_units s -> bytes (utf8_encode s).
Proof.
  remember (length s) as n eqn:Hn. assert (length s <= n)%nat as Hle by lia. clear Hn.
  revert s Hle. induction n as [|n IH]; intros [|c r] Hle Hs; try (by constructor); cbn in Hle; [lia|].
  apply Forall_cons in Hs as [Hc Hr]. cbn [utf8_encode].
  assert (Hrep : bytes (utf8_code_point 65533)) by (by apply code_point_bytes).
  assert (Hrest : bytes (utf8_encode r)) by (apply IH; [lia|done]).
  destruct (is_high_surrogate c) eqn:Eh; [destruct r as [|l r]; [done|destruct (is_low_surrogate l) eqn:El]|destruct (is_low_surrogate c)].
  - apply Forall_cons in Hr as [Hl Hr]. cbn in Hle. apply Forall_app. split; [|apply IH; [lia|done]]. apply code_point_bytes.
    unfold is_high_surrogate, is_low_surrogate, surrogate_pair, in_range in *. rewrite !andb_true_iff, !N.leb_le in *. lia.
  - by apply Forall_app.
  - by apply Forall_app.
  - apply Forall_app. split; [|done]. apply code_point_bytes. lia.
Qed.

Section double_round_trip.
Context `{Host, !HostLaws _}.

Lemma decode_encode v : json_clean v -> decode (encode v) = v.
Proof.
  intros Hv. unfold decode, encode. rewrite base64url_round_trip.
  - by rewrite json_bytes_round_trip.
  - rewrite (clean_text _ Hv). apply utf8_encode_bytes, clean_text_good, Hv.
Qed.

Lemma signature_equal secret id client auth : equalBase64Url (signatureFor secret id client auth) (signatureFor secret id client auth) = true.
Proof. by apply bool_decide_eq_true. Qed.

(** The origin and the counter an assertion is made with. *)
Definition made_origin (i : TestAssertionInput) : option jstr := match ti_origin i with Some o => Some o | None => head (allowedOrigins (ti_challenge i)) end.
Definition made_count (i : TestAssertionInput) : jsnum := default (num_plus (signCount (ti_credential i)) (NInt 1)) (ti_signCount i).

(** What an assertion is made of. *)
Definition made_client (ch : CredentialChallenge) (o : jstr) : jsval :=
  JObj [(js "type", JStr "webauthn.get"); (js "challenge", JStr (challenge ch)); (js "origin", JStr o)].
Definition made_authenticator (ch : CredentialChallenge) (n : Z) : jsval :=
  JObj [(js "rpId", JStr (ch_relyingPartyId ch)); (js "userPresent", JBool true); (js "userVerified", JBool true); (js "signCount", JNum (NInt n))].

Lemma made_assertion i o n : made_origin i = Some o -> ti_userPresent i <> Some false -> ti_userVerified i <> Some false -> made_count i = NInt n ->
  let client := encode (made_client (ti_challenge i) o) in let auth := encode (made_authenticator (ti_challenge i) n) in
  createDeterministicTestAssertion i =
    {| as_credentialId := credentialId (ti_credential i); clientDataJSON := client; authenticatorData := auth;
       signature := signatureFor (ti_secret i) (credentialId (ti_credential i)) client auth; userHandle := None |}.
Proof.
  unfold made_origin, made_count, createDeterministicTestAssertion. intros Eo Hup Huv En. cbv zeta. rewrite En.
  assert (E1 : default true (ti_userPresent i) = true) by (by destruct (ti_userPresent i) as [[]|]).
  assert (E2 : default true (ti_userVerified i) = true) by (by destruct (ti_userVerified i) as [[]|]). rewrite E1, E2.
  assert (E3 : match ti_origin i with Some o => JStr o | None => match allowedOrigins (ti_challenge i) with o :: _ => JStr o | [] => JUndefined end end = JStr o)
    by (destruct (ti_origin i); [congruence|]; destruct (allowedOrigins (ti_challenge i)); cbn in Eo; congruence).
  by rewrite E3.
Qed.

Lemma made_clean ch o n : good_text (challenge ch) -> good_text o -> good_text (ch_relyingPartyId ch) -> 0 <= n <= MAX_SAFE_INTEGER ->
  json_clean (made_client ch o) /\ json_clean (made_authenticator ch n).
Proof.
  intros Gch Go Grp Hn. unfold MAX_SAFE_INTEGER in Hn.
  assert (Hsmall : forall s : jstr, forallb (fun c => (c <? 128)%N) s = true -> good_text s).
  { intros s Hs%forallb_Forall. apply good_text_small. eapply Forall_impl; [exact Hs|]. cbv beta. intros c Hc%N.ltb_lt. lia. }
  split; apply json_clean_obj; (split; [apply (bool_decide_unpack _); by vm_compute|]);
    repeat (apply Forall_cons; split; [split; [by apply Hsmall|]|]); try done; try (by apply Hsmall). cbn. lia.
Qed.

(** Round trip of the test double: an assertion made under the verifier's
    secret for a live challenge and its own active credential, with an allowed
    origin, presence and verification not denied and a counter that advances or
    is zero, is verified, and the result carries its origin and counter. *)
Theorem test_assertion_round_trip i now issued expires o n :
  let ch := ti_challenge i in let cr := ti_credential i in
  date_parse (issuedAt ch) = Some issued -> date_parse (expiresAt ch) = Some expires -> issued < expires -> now < expires ->
  status cr = js "active" -> subjectId cr = ch_subjectId ch -> trustedDeviceId cr = ch_trustedDeviceId ch -> relyingPartyId cr = ch_relyingPartyId ch ->
  good_text (challenge ch) -> good_text o -> good_text (ch_relyingPartyId ch) ->
  made_origin i = Some o -> o ∈ allowedOrigins ch -> ti_userPresent i <> Some false -> ti_userVerified i <> Some false ->
  made_count i = NInt n -> 0 <= n <= MAX_SAFE_INTEGER ->
  (n = 0 \/ signCount cr = NInt 0 \/ num_less (signCount cr) (NInt n) = true) ->
  test_verifyAssertion (ti_secret i) {| rq_challenge := ch; rq_credential := cr; rq_assertion := createDeterministicTestAssertion i; rq_now := Some now |} =
    verified {| va_credentialId := credentialId cr; va_signCount := NInt n; va_userPresent := true; va_userVerified := true; va_origin := o;
                va_relyingPartyId := ch_relyingPartyId ch |}.
Proof.
  intros ch cr Hi He Hie Hne Hst Hsu Hde Hrp Gch Go Grp Eo Ho Hup Huv En Hn Hcnt.
  destruct (made_clean ch o n Gch Go Grp Hn) as [Cc Ca]. unfold test_verifyAssertion, test_request. cbn [rq_challenge rq_credential rq_assertion rq_now].
  rewrite (made_assertion i o n Eo Hup Huv En). cbn [clientDataJSON authenticatorData signature as_credentialId]. fold ch cr. rewrite !decode_encode by done.
  assert (T1 : test_challenge ch (Some now) = Passed tt).
  { unfold test_challenge. rewrite Hi, He, (proj2 (Z.leb_gt _ _) Hie), (proj2 (Z.leb_gt _ _) Hne). done. }
  assert (T2 : test_credential ch cr (Build_CredentialAssertion (credentialId cr) (encode (made_client ch o)) (encode (made_authenticator ch n))
      (signatureFor (ti_secret i) (credentialId cr) (encode (made_client ch o)) (encode (made_authenticator ch n))) None) = Passed tt).
  { unfold test_credential. cbn [as_credentialId]. rewrite Hst, Hsu, Hde, Hrp, !jeqb_of_eq by done. done. }
  assert (T3 : authenticator_count (made_authenticator ch n) = Some n) by (apply safe_between_Some; unfold MAX_SAFE_INTEGER in *; split; [done|lia]).
  assert (T4 : is_text (member "type" (made_client ch o)) "webauthn.get" = true) by (by apply is_text_eq).
  assert (T5 : test_client ch (made_client ch o) = Passed o).
  { unfold test_client. rewrite (proj2 (is_text_eq (member "challenge" (made_client ch o)) (challenge ch))) by done.
    change (member "origin" (made_client ch o)) with (JStr o). cbn. by rewrite includes_in. }
  assert (T6 : test_authenticator ch cr (made_authenticator ch n) n = Passed tt).
  { unfold test_authenticator. rewrite (proj2 (is_text_eq (member "rpId" (made_authenticator ch n)) (ch_relyingPartyId ch))) by done.
    change (member "userPresent" (made_authenticator ch n)) with (JBool true). change (member "userVerified" (made_authenticator ch n)) with (JBool true).
    assert (E : negb (n =? 0) && negb (count_zero (signCount cr)) && num_least (NInt n) (signCount cr) = false).
    { destruct Hcnt as [->|[E|E]]; [done|unfold count_zero; rewrite E; cbn; by rewrite andb_false_r|].
      assert (num_least (NInt n) (signCount cr) = false) as -> by (destruct (signCount cr); try done; cbn [num_least]; by rewrite E). apply andb_false_r. }
    by rewrite E. }
  rewrite T1, T2, T3, T4, T5, T6, signature_equal. done.
Qed.
End double_round_trip.

(** ** Samples *)

#[local] Existing Instances test_host test_host_laws test_url_parser.

(** A library that signs with a checksum over the key and the signed bytes. *)
Definition sample_signature (key : list N) (authenticatorData clientDataJSON : jstr) : jstr :=
  base64urlEncode (test_digest (key ++ base64urlDecode authenticatorData ++ sha256 (base64urlDecode clientDataJSON))).
#[local] Instance sample_library : WebAuthnLibrary := fun e =>
  Some (ex_signature e =s? sample_signature (ex_publicKey e) (ex_authenticatorData e) (ex_clientDataJSON e),
    {| newCounter := NInt (readUInt32BE 33 (base64urlDecode (ex_authenticatorData e))); credentialID := ex_id e;
       info_origin := match member "origin" (decode (ex_clientDataJSON e)) with JStr o => o | _ => [] end;
       rpID := ex_rpID e; info_userVerified := true |}).
#[local] Instance sample_library_laws : WebAuthnLaws sample_library.
Proof. split. unfold verifyAuthenticationResponse, sample_library. intros e info E. by injection E as _ <-. Qed.

Definition sample_challenge : CredentialChallenge :=
  {| protocolVersion := "airlock-webauthn.v1"; challengeId := "challenge-1"; challenge := base64urlEncode [1; 2; 3]%N;
     purpose := "approve-airlock-challenge"; ch_subjectId := "subject"; ch_trustedDeviceId := "device"; ch_relyingPartyId := "example.com";
     allowedOrigins := [js "https://example.com"]; issuedAt := iso_string noon; expiresAt := iso_string (noon + 60000);
     userVerification := "required" |}.
Definition sample_credential (n : Z) : RegisteredCredential :=
  {| credentialId := base64urlEncode [9; 9]%N; subjectId := "subject"; trustedDeviceId := "device"; relyingPartyId := "example.com";
     publicKeyCose := base64urlEncode [7; 7; 7]%N; algorithm := NInt ES256_COSE_ALGORITHM; signCount := NInt n; status := "active";
     transports := None; trust := lab_unverified |}.
Definition sample_client : jstr := encode (made_client sample_challenge "https://example.com").
(** Present and verified, with counter [n] below 256. *)
Definition sample_authenticator (n : N) : jstr := base64urlEncode (sha256 (utf8_encode "example.com") ++ [5; 0; 0; 0; n]%N).
Definition sample_assertion (n : N) : CredentialAssertion :=
  {| as_credentialId := base64urlEncode [9; 9]%N; clientDataJSON := sample_client; authenticatorData := sample_authenticator n;
     signature := sample_signature [7; 7; 7]%N (sample_authenticator n) sample_client; userHandle := None |}.
Definition sample_request : AssertionVerificationRequest :=
  {| rq_challenge := sample_challenge; rq_credential := sample_credential 40; rq_assertion := sample_assertion 41; rq_now := Some (noon + 1) |}.
Definition sample_verified : VerifiedAssertion :=
  {| va_credentialId := base64urlEncode [9; 9]%N; va_signCount := NInt 41; va_userPresent := true; va_userVerified := true;
     va_origin := "https://example.com"; va_relyingPartyId := "example.com" |}.

Example sample_verifies : verifyAssertion sample_request = verified sample_verified.
Proof. by vm_compute. Qed.

Lemma verified_assertion_sound_witness :
  js "https://example.com" ∈ allowedOrigins sample_challenge /\ exists counter, signCount (sample_credential 40) = NInt counter.
Proof.
  destruct (verified_assertion_sound sample_request sample_verified) as (now & counter & key & info & client & _ & _ & _ & Ho & _ & _ & _ & _ & _ & _ & _ & _ & Hc & _);
    [vm_compute; reflexivity|].
  split; [exact Ho|by exists counter].
Defined.

Lemma counter_never_reused_witness :
  exists code, verifyAssertion {| rq_challenge := sample_challenge; rq_credential := sample_credential 41; rq_assertion := sample_assertion 41; rq_now := Some (noon + 2) |} = unverified code.
Proof.
  apply (counter_never_reused sample_challenge (sample_credential 40) (sample_assertion 41) (Some (noon + 1)) sample_verified []
    sample_challenge (sample_assertion 41) (Some (noon + 2))); [vm_compute; reflexivity|vm_compute; discriminate|vm_compute; discriminate].
Defined.

Definition sample_input (count : option jsnum) : TestAssertionInput :=
  {| ti_secret := "a secret of the test"; ti_challenge := sample_challenge; ti_credential := sample_credential 40; ti_origin := None;
     ti_signCount := count; ti_userPresent := None; ti_userVerified := None |}.
Lemma test_assertion_round_trip_witness :
  test_verifyAssertion "a secret of the test" {| rq_challenge := sample_challenge; rq_credential := sample_credential 40;
    rq_assertion := createDeterministicTestAssertion (sample_input None); rq_now := Some (noon + 1) |} = verified sample_verified.
Proof.
  assert (Hsmall : forall s : jstr, forallb (fun c => (c <? 128)%N) s = true -> good_text s).
  { intros s Hs%forallb_Forall. apply good_text_small. eapply Forall_impl; [exact Hs|]. cbv beta. intros c Hc%N.ltb_lt. lia. }
  apply (test_assertion_round_trip (sample_input None) (noon + 1) noon (noon + 60000) "https://example.com" 41);
    [by vm_compute|by vm_compute|lia|lia|done|done|done|done|apply Hsmall; by vm_compute|apply Hsmall; by vm_compute|apply Hsmall; by vm_compute
    |done|left|done|done|by vm_compute|by vm_compute|right; right; by vm_compute].
Defined.

(** The double takes an assertion whose counter fell to zero, which the
    WebAuthn verifier refuses. *)
Example double_accepts_counter_reset :
  is_passed (test_request "a secret of the test" {| rq_challenge := sample_challenge; rq_credential := sample_credential 40;
    rq_assertion := createDeterministicTestAssertion (sample_input (Some (NInt 0))); rq_now := Some (noon + 1) |}) = true /\
  verifyAssertion {| rq_challenge := sample_challenge; rq_credential := sample_credential 40; rq_assertion := sample_assertion 0; rq_now := Some (noon + 1) |} =
    unverified counter_rollback.
Proof. by vm_compute. Qed.
