(* ===== verification/AccessToken.v ===== *)
(** AccessToken: packages/identity/oidcAccessTokenVerifier.ts.  The key set is
    fetched, bounded, checked and cached; a token is verified by the jose
    library under it; its claims become an identity, once per token identifier
    where that is required.  A verification is a program whose clock readings,
    cache accesses and requests interleave with those of others. *)
From S2P Require Import Prelude JsString Host JsTime JsJson JsParse JsNumber Url CredentialVerifier.
#[local] Open Scope string_scope.
#[local] Open Scope list_scope.
#[local] Open Scope Z_scope.
#[local] Open Scope js_scope.

Inductive IdentityFailureCode : Type := invalid_token | jwks_unavailable | jwks_invalid | claim_invalid | replay_rejected.

Record VerifiedIdentity : Type := {
  principalId : jstr; tenantId : jstr; roles : list jstr; vi_issuer : jstr; vi_audience : list jsval; tokenId : option jsval;
  issuedAt : jsnum; expiresAt : jsnum;
}.

(** The argument of [JtiReplayStore.consume]. *)
Record JtiInput : Type := { ji_issuer : jstr; ji_tenantId : jstr; ji_jti : jstr; ji_expiresAt : jsnum }.

Inductive Audience : Type := One (a : jstr) | Many (l : list jstr).

Record OidcVerifierOptions : Type := {
  issuer : jstr; audience : Audience; jwksUri : jstr; algorithms : list jstr; allowedRoles : list jstr;
  tenantClaim : option jstr; rolesClaim : option jstr; maxTokenAgeSeconds : jsnum; clockToleranceSeconds : option jsnum;
  requireJtiReplayProtection : bool; hasReplayStore : bool;
  jwksCacheTtlMs : option jsnum; jwksRefreshCooldownMs : option jsnum; jwksFetchTimeoutMs : option jsnum;
  maxJwksBytes : option jsnum; maxJwksKeys : option jsnum; maxTokenBytes : option jsnum;
}.

(** The options with their defaults, as the constructor admits them. *)
Record Settings : Type := {
  s_issuer : jstr; s_audience : Audience; s_jwksUri : jstr; s_algorithms : list jstr; s_allowedRoles : list jstr;
  s_tenantClaim : jstr; s_rolesClaim : jstr; s_maxTokenAgeSeconds : Z; s_clockToleranceSeconds : Z; s_requireJti : bool;
  s_jwksCacheTtlMs : Z; s_jwksRefreshCooldownMs : Z; s_jwksFetchTimeoutMs : Z; s_maxJwksBytes : Z; s_maxJwksKeys : Z; s_maxTokenBytes : Z;
}.

(** [/^[A-Za-z][A-Za-z0-9_.:-]{0,127}$/] *)
Definition CLAIM_NAME (s : jstr) : bool :=
  match s with c :: r => (is_upper c || is_lower c) && forallb is_id_char r && (len r <=? 127) | [] => false end.
(** [/^[A-Za-z0-9][A-Za-z0-9._:@/-]{0,255}$/] *)
Definition ID_VALUE (s : jstr) : bool :=
  match s with c :: r => is_alnum c && forallb (fun c => is_id_char c || (c =? 64)%N || (c =? 47)%N) r && (len r <=? 255) | [] => false end.
(** [/^[\x21-\x7e]{1,256}$/] *)
Definition KID (s : jstr) : bool := (1 <=? len s) && (len s <=? 256) && forallb (in_range 33 126) s.

Definition distinct (l : list jstr) : bool := bool_decide (NoDup l).

Definition exactHttpsUrl `{UrlParser} (value label : jstr) : result unit :=
  match url_parse value with
  | None => Throw "Invalid URL"
  | Some u =>
      throw_if (negb (protocol u =s? "https:") || negb (username u =s? []) || negb (password u =s? []) || negb (search u =s? []) ||
                negb (hash u =s? []) || negb (value =s? href u)) (label +:+ " must be an exact HTTPS URL")
  end.

Definition bad_audience (a : Audience) : bool :=
  match a with
  | One a => negb (ID_VALUE a)
  | Many l => (len l <? 1) || (16 <? len l) || negb (distinct l) || existsb (fun a => negb (ID_VALUE a)) l
  end.

(** A bound, at least [least]. *)
Definition verifier_bound (value : jsnum) (least : Z) : result Z :=
  match safe_between value least MAX_SAFE_INTEGER with Some z => Ok z | None => Throw "invalid verifier bound" end.

Definition constructor `{UrlParser} (o : OidcVerifierOptions) : result Settings :=
  exactHttpsUrl (issuer o) "issuer" ≫= fun _ =>
  exactHttpsUrl (jwksUri o) "jwksUri" ≫= fun _ =>
  throw_if (bool_decide (algorithms o = []) || negb (distinct (algorithms o)) || bad_audience (audience o)) "invalid OIDC verification policy" ≫= fun _ =>
  match safe_between (maxTokenAgeSeconds o) 1 MAX_SAFE_INTEGER with
  | None => Throw "invalid OIDC verification policy"
  | Some age =>
      let tenantClaim := default (js "tid") (tenantClaim o) in
      let rolesClaim := default (js "roles") (rolesClaim o) in
      throw_if (negb (CLAIM_NAME tenantClaim) || negb (CLAIM_NAME rolesClaim)) "invalid signed-claim mapping" ≫= fun _ =>
      throw_if (bool_decide (allowedRoles o = []) || existsb (fun r => negb (ID_VALUE r)) (allowedRoles o)) "invalid role allowlist" ≫= fun _ =>
      throw_if (requireJtiReplayProtection o && negb (hasReplayStore o)) "jti replay protection requires a replay store" ≫= fun _ =>
      verifier_bound (default (NInt 5) (clockToleranceSeconds o)) 0 ≫= fun tolerance =>
      verifier_bound (default (NInt 300000) (jwksCacheTtlMs o)) 1 ≫= fun ttl =>
      verifier_bound (default (NInt 5000) (jwksRefreshCooldownMs o)) 0 ≫= fun cooldown =>
      verifier_bound (default (NInt 5000) (jwksFetchTimeoutMs o)) 1 ≫= fun timeout =>
      verifier_bound (default (NInt 262144) (maxJwksBytes o)) 1 ≫= fun maxBytes =>
      verifier_bound (default (NInt 32) (maxJwksKeys o)) 1 ≫= fun maxKeys =>
      verifier_bound (default (NInt 16384) (maxTokenBytes o)) 1 ≫= fun maxToken =>
      Ok {| s_issuer := issuer o; s_audience := audience o; s_jwksUri := jwksUri o; s_algorithms := algorithms o; s_allowedRoles := allowedRoles o;
            s_tenantClaim := tenantClaim; s_rolesClaim := rolesClaim; s_maxTokenAgeSeconds := age; s_clockToleranceSeconds := tolerance;
            s_requireJti := requireJtiReplayProtection o; s_jwksCacheTtlMs := ttl; s_jwksRefreshCooldownMs := cooldown;
            s_jwksFetchTimeoutMs := timeout; s_maxJwksBytes := maxBytes; s_maxJwksKeys := maxKeys; s_maxTokenBytes := maxToken |}
  end.

(** ** Responses *)

(** A body as the chunks it is read in, ending well or with an error. *)
Record Response : Type := { ok : bool; content_length : option jstr; content_type : option jstr; body : option (list (list N) * bool) }.

(** [while (true) { ... }]: [None] past [maximum] or where the stream fails. *)
Fixpoint read_chunks (maximum length : Z) (chunks : list (list N)) (ends : bool) : option (list (list N)) :=
  match chunks with
  | [] => if ends then Some [] else None
  | part :: chunks =>
      let length := length + len part in
      if maximum <? length then None else cons part <$> read_chunks maximum length chunks ends
  end.

(** [new TextDecoder("utf-8", { fatal: true }).decode(bytes)] *)
Definition decode_fatal (bs : list N) : option jstr :=
  let text := utf8_decode bs in
  if bool_decide (utf8_encode text = bs) then Some (match text with c :: r => if (c =? 65279)%N then r else text | [] => [] end) else None.

(** The declared length, when it is a number at most [maximum]. *)
Definition declared_ok (maximum : Z) (declared : option jstr) : bool :=
  match declared with
  | None => true
  | Some d => negb (len d =? 0) && forallb is_digit d && (Z.of_N (digits_value d) <=? maximum)
  end.

(** Every failure of it is reported as [jwks_invalid]. *)
Definition boundedResponseBody (r : Response) (maximum : Z) : option jstr :=
  if declared_ok maximum (content_length r) then
    '(chunks, ends) ← body r;
    chunks ← read_chunks maximum 0 chunks ends;
    decode_fatal (concat chunks)
  else None.

(** The body in one piece: the bytes of a stream that ends well, when they are
    no more than the maximum. *)
Definition whole_body (r : Response) (maximum : Z) : option jstr :=
  match body r with
  | Some (chunks, true) => if len (concat chunks) <=? maximum then decode_fatal (concat chunks) else None
  | _ => None
  end.

Lemma read_chunks_whole maximum length chunks ends : length <= maximum ->
  read_chunks maximum length chunks ends = if ends && (length + len (concat chunks) <=? maximum) then Some chunks else None.
Proof.
  revert length. induction chunks as [|part chunks IH]; intros length Hl; cbn [read_chunks concat].
  - replace (_ <=? maximum) with true by (symmetry; apply Z.leb_le; unfold len; cbn; lia). by destruct ends.
  - assert (El : len (part ++ concat chunks) = len part + len (concat chunks)) by (unfold len; rewrite length_app; lia).
    rewrite El, Z.add_assoc. assert (0 <= len (concat chunks)) by (unfold len; lia).
    destruct (Z.ltb_spec maximum (length + len part)).
    + replace (_ <=? maximum) with false by (symmetry; apply Z.leb_gt; lia). by rewrite andb_false_r.
    + rewrite IH by done. by destruct (ends && _).
Qed.

(** However a response's body is cut into chunks, reading it with the running
    bound gives what decoding the whole body gives: text exactly when the stream
    ends well, the declared length is a number within the maximum, the bytes
    that came are within it too, and they are UTF-8. *)
Theorem body_in_chunks r maximum : 0 <= maximum ->
  boundedResponseBody r maximum = if declared_ok maximum (content_length r) then whole_body r maximum else None.
Proof.
  intros Hm. unfold boundedResponseBody, whole_body. destruct (declared_ok _ _); [|done].
  destruct (body r) as [[chunks ends]|]; [|done]. cbn. rewrite read_chunks_whole by done. rewrite Z.add_0_l.
  destruct ends; [|done]. cbn. by destruct (len (concat chunks) <=? maximum).
Qed.

Lemma body_in_chunks_witness :
  boundedResponseBody {| ok := true; content_length := Some (js "4"); content_type := None; body := Some ([[123; 34]; []; [34; 125]]%N, true) |} 4 =
  (if declared_ok 4 (Some (js "4")) then
     whole_body {| ok := true; content_length := Some (js "4"); content_type := None; body := Some ([[123; 34]; []; [34; 125]]%N, true) |} 4
   else None).
Proof. apply (body_in_chunks {| ok := true; content_length := Some (js "4"); content_type := None; body := Some ([[123; 34]; []; [34; 125]]%N, true) |} 4). lia. Defined.

(** [response.headers.get("content-type")?.split(";", 1)[0]?.trim().toLowerCase()] *)
Definition media_type (header : jstr) : jstr :=
  map (fun c => if is_upper c then (c + 32)%N else c) (trim (default [] (head (split_at 59 header)))).

(** ** The key set *)

Inductive thrown : Type := Failed (code : IdentityFailureCode) | JWKSNoMatchingKey | OtherError.
Abbreviation outcome A := (A + thrown)%type.

Definition has_member (key : jstr) (v : jsval) : bool :=
  match v with JObj props => existsb (fun p => p.1 =s? key) props | _ => false end.
Definition text_of (v : jsval) : jstr := match v with JStr s => s | _ => [] end.

(** Of a key that is not [null]. *)
Definition validShape (s : Settings) (key : jsval) : bool :=
  is_object key &&
  (match member "kid" key with JStr kid => KID kid | _ => false end) &&
  (match member "alg" key with
   | JStr algorithm =>
       includes (s_algorithms s) algorithm && is_text (member "use" key) "sig" &&
       negb (has_member "d" key) && negb (has_member "k" key) &&
       (((algorithm =s? "ES256") && is_text (member "kty" key) "EC" && is_text (member "crv" key) "P-256") ||
        (((algorithm =s? "RS256") || (algorithm =s? "PS256")) && is_text (member "kty" key) "RSA"))
   | _ => false
   end).

(** [for (const key of keys) { ... }]; reading [alg] of [null] throws. *)
Fixpoint check_keys (s : Settings) (kids : list jstr) (keys : list jsval) : outcome unit :=
  match keys with
  | [] => inl tt
  | JNull :: _ => inr OtherError
  | key :: keys =>
      let kid := text_of (member "kid" key) in
      if negb (validShape s key) || includes kids kid then inr (Failed jwks_invalid) else check_keys s (kid :: kids) keys
  end.

Definition keys_of (jwks : jsval) : list jsval := match member "keys" jwks with JArr keys => keys | _ => [] end.

(** The key set of a response. *)
Definition response_jwks `{Host} (s : Settings) (r : Response) : outcome jsval :=
  if negb (ok r) then inr (Failed jwks_unavailable) else
  if negb (bool_decide (media_type <$> content_type r = Some (js "application/json"))) then inr (Failed jwks_invalid) else
  match boundedResponseBody r (s_maxJwksBytes s) with
  | None => inr (Failed jwks_invalid)
  | Some text =>
      match json_parse text with
      | Throw _ => inr (Failed jwks_invalid)
      | Ok value =>
          match member "keys" value with
          | JArr keys =>
              if (len keys <? 1) || (s_maxJwksKeys s <? len keys) then inr (Failed jwks_invalid) else
              match check_keys s [] keys with inl _ => inl value | inr e => inr e end
          | _ => inr (Failed jwks_invalid)
          end
      end
  end.

(** ** The jose library *)

Record JWTVerifyOptions : Type := {
  jv_issuer : jstr; jv_audience : Audience; jv_algorithms : list jstr; jv_requiredClaims : list jstr; jv_maxTokenAge : Z;
  jv_clockTolerance : Z; jv_currentDate : Date;
}.

(** [decodeProtectedHeader] and [jwtVerify] over [createLocalJWKSet(jwks)];
    headers and payloads are objects.  [signature_valid token key] says that
    the key verifies the token's signature. *)
Class Jose := {
  decodeProtectedHeader : jstr -> result (list (jstr * jsval));
  jwtVerify : jstr -> jsval -> JWTVerifyOptions -> outcome (list (jstr * jsval));
  signature_valid : jstr -> jsval -> bool;
}.

(** The issuer, the audience and the times the library checks, in seconds. *)
Definition registered_claims (o : JWTVerifyOptions) (claims : list (jstr * jsval)) : Prop :=
  prop "iss" claims = JStr (jv_issuer o) /\
  (exists a, match jv_audience o with One b => a = b | Many l => a ∈ l end /\
     (prop "aud" claims = JStr a \/ exists l, prop "aud" claims = JArr l /\ JStr a ∈ l)) /\
  (forall exp now, prop "exp" claims = JNum (NInt exp) -> jv_currentDate o = Some now -> now / 1000 - jv_clockTolerance o < exp) /\
  (forall iat now, prop "iat" claims = JNum (NInt iat) -> jv_currentDate o = Some now ->
     now / 1000 - jv_clockTolerance o - jv_maxTokenAge o <= iat <= now / 1000 + jv_clockTolerance o).

Class JoseLaws (J : Jose) := {
  signed_by_key token jwks o claims : jwtVerify token jwks o = inl claims ->
    exists key, key ∈ keys_of jwks /\ signature_valid token key = true;
  registered token jwks o claims : jwtVerify token jwks o = inl claims -> registered_claims o claims;
}.

(** ** Verifications *)

(** [lastJwksFetchAt] is minus infinity before the first fetch. *)
Record Cache : Type := { jwks : option jsval; jwksExpiresAt : Z; lastJwksFetchAt : option Z }.
Definition empty_cache : Cache := {| jwks := None; jwksExpiresAt := 0; lastJwksFetchAt := None |}.

(** The synchronous parts of a verification between its clock readings, its
    accesses to the cache and its requests.  A request for the keys carries the
    clock reading its answer is dated with; it may fail, as may a request to
    the replay store. *)
Inductive prog (A : Type) : Type :=
| Finish (r : outcome A)
| Clock (k : Z -> prog A)
| Read (k : Cache -> prog A)
| Write (c : Cache) (k : prog A)
| Fetch (now : Z) (k : option Response -> prog A)
| Consume (i : JtiInput) (k : option bool -> prog A).
Arguments Finish {A} r.
Arguments Clock {A} k.
Arguments Read {A} k.
Arguments Write {A} c k.
Arguments Fetch {A} now k.
Arguments Consume {A} i k.

(** [try { p } catch], with what follows in either case. *)
Fixpoint attempt {A B} (p : prog A) (k : outcome A -> prog B) : prog B :=
  match p with
  | Finish r => k r
  | Clock c => Clock (fun t => attempt (c t) k)
  | Read c => Read (fun m => attempt (c m) k)
  | Write m c => Write m (attempt c k)
  | Fetch t c => Fetch t (fun r => attempt (c r) k)
  | Consume i c => Consume i (fun b => attempt (c b) k)
  end.

Section verifier.
Context `{Host, Jose}.
Variable s : Settings.

Definition getJwks (forceRefresh : bool) : prog jsval :=
  Clock (fun now =>
  Read (fun cache =>
  match (if forceRefresh then None else if now <? jwksExpiresAt cache then jwks cache else None) with
  | Some cached => Finish (inl cached)
  | None =>
      Fetch now (fun response =>
      match response with
      | None => Finish (inr (Failed jwks_unavailable))
      | Some r =>
          match response_jwks s r with
          | inr e => Finish (inr e)
          | inl value =>
              Write {| jwks := Some value; jwksExpiresAt := num_add now (s_jwksCacheTtlMs s); lastJwksFetchAt := Some now |}
                (Finish (inl value))
          end
      end)
  end)).

Definition verify_options (now : Z) : JWTVerifyOptions :=
  {| jv_issuer := s_issuer s; jv_audience := s_audience s; jv_algorithms := s_algorithms s;
     jv_requiredClaims := [js "sub"; js "iat"; js "exp"; s_tenantClaim s; s_rolesClaim s]; jv_maxTokenAge := s_maxTokenAgeSeconds s;
     jv_clockTolerance := s_clockToleranceSeconds s; jv_currentDate := new_date now |}.

Definition verifyWithCachedKeys (token : jstr) (forceRefresh : bool) : prog (list (jstr * jsval)) :=
  attempt (getJwks forceRefresh) (fun r =>
  match r with
  | inr e => Finish (inr e)
  | inl keys => Clock (fun now => Finish (jwtVerify token keys (verify_options now)))
  end).

(** The strings of a list of strings. *)
Fixpoint role_names (l : list jsval) : option (list jstr) :=
  match l with
  | [] => Some []
  | JStr r :: l => cons r <$> role_names l
  | _ => None
  end.

Definition admitted_roles (roles : jsval) : option (list jstr) :=
  match roles with
  | JArr l =>
      names ← role_names l;
      if (1 <=? len l) && (len l <=? 32) && forallb (includes (s_allowedRoles s)) names && distinct names then Some names else None
  | _ => None
  end.

(** [typeof aud === "string" ? [aud] : aud], when it is a list that is not
    empty; another object with a [length] cannot be spread. *)
Definition audiences (aud : jsval) : outcome (list jsval) :=
  match aud with
  | JStr a => inl [JStr a]
  | JArr (a :: l) => inl (a :: l)
  | JObj props => if truthy (prop "length" props) then inr OtherError else inr (Failed claim_invalid)
  | _ => inr (Failed claim_invalid)
  end.

Record Claims : Type := {
  c_sub : jstr; c_tenant : jstr; c_roles : list jstr; c_iat : jsnum; c_exp : jsnum;
}.

Definition signed_claims (payload : list (jstr * jsval)) : option Claims :=
  match prop "sub" payload, prop (s_tenantClaim s) payload, admitted_roles (prop (s_rolesClaim s) payload),
        prop "iat" payload, prop "exp" payload with
  | JStr sub, JStr tenant, Some roles, JNum iat, JNum exp =>
      if ID_VALUE sub && ID_VALUE tenant
      then Some {| c_sub := sub; c_tenant := tenant; c_roles := roles; c_iat := iat; c_exp := exp |} else None
  | _, _, _, _, _ => None
  end.

Definition identity_of (c : Claims) (aud : list jsval) (jti : jsval) : VerifiedIdentity :=
  {| principalId := c_sub c; tenantId := c_tenant c; roles := c_roles c; vi_issuer := s_issuer s; vi_audience := aud;
     tokenId := if truthy jti then Some jti else None; issuedAt := c_iat c; expiresAt := c_exp c |}.

Definition identityFromPayload (payload : list (jstr * jsval)) : prog VerifiedIdentity :=
  match signed_claims payload with
  | None => Finish (inr (Failed claim_invalid))
  | Some c =>
      let jti := prop "jti" payload in
      let identity := fun aud => identity_of c aud jti in
      let aud := audiences (prop "aud" payload) in
      match aud with
      | inr (Failed code) => Finish (inr (Failed code))
      | _ =>
          if s_requireJti s then
            match jti with
            | JStr id =>
                if ID_VALUE id then
                  Consume {| ji_issuer := s_issuer s; ji_tenantId := c_tenant c; ji_jti := id; ji_expiresAt := c_exp c |} (fun answer =>
                  match answer with
                  | Some true => Finish (match aud with inl a => inl (identity a) | inr e => inr e end)
                  | _ => Finish (inr (Failed replay_rejected))
                  end)
                else Finish (inr (Failed claim_invalid))
            | _ => Finish (inr (Failed claim_invalid))
            end
          else Finish (match aud with inl a => inl (identity a) | inr e => inr e end)
      end
  end.

Definition admitted_header (header : list (jstr * jsval)) : bool :=
  match prop "alg" header with JStr alg => includes (s_algorithms s) alg | _ => false end &&
  is_text (prop "typ" header) "at+jwt" &&
  match prop "kid" header with JStr kid => KID kid | _ => false end.

(** The [catch] of the first attempt: one more, under keys fetched again, where
    none matched and the cooldown is over. *)
Definition refresh (token : jstr) (e : thrown) : prog (list (jstr * jsval)) :=
  match e with
  | JWKSNoMatchingKey =>
      Clock (fun now =>
      Read (fun cache =>
      if match lastJwksFetchAt cache with Some last => s_jwksRefreshCooldownMs s <=? num_sub now last | None => true end
      then verifyWithCachedKeys token true
      else Finish (inr (Failed invalid_token))))
  | Failed code => Finish (inr (Failed code))
  | OtherError => Finish (inr (Failed invalid_token))
  end.

Definition verify (token : jstr) : prog VerifiedIdentity :=
  if bool_decide (token = []) || (s_maxTokenBytes s <? len (utf8_encode token)) then Finish (inr (Failed invalid_token)) else
  match decodeProtectedHeader token with
  | Throw _ => Finish (inr (Failed invalid_token))
  | Ok header =>
      if negb (admitted_header header) then Finish (inr (Failed invalid_token)) else
      attempt (verifyWithCachedKeys token false) (fun first =>
      attempt (match first with inl payload => Finish (inl payload) | inr e => refresh token e end) (fun r =>
      match r with
      | inl payload => identityFromPayload payload
      | inr e => Finish (inr e)
      end))
  end.
End verifier.
