(* ===== verification/AccessRuns.v ===== *)
(** AccessRuns: packages/identity/oidcAccessTokenVerifier.ts under interleaved
    verifications.  Clock readings, accesses to the cached key set, requests
    for keys and requests to the replay store of different verifications
    interleave in any order; a rule for one verification carries over to all. *)
From stdpp Require Import gmap.
From S2P Require Import Prelude JsString Host JsTime JsJson JsParse JsNumber Url CredentialVerifier TestHost AccessToken.
#[local] Open Scope string_scope.
#[local] Open Scope list_scope.
#[local] Open Scope Z_scope.
#[local] Open Scope js_scope.

(** ** The replay store *)

(** An accepted request and the second the store took it at. *)
Definition Taken : Type := JtiInput * Z.
Definition same_identifier (a b : JtiInput) : Prop :=
  ji_issuer a = ji_issuer b /\ ji_tenantId a = ji_tenantId b /\ ji_jti a = ji_jti b.
(** The identifier is free from its expiry on. *)
Definition over_at (a : JtiInput) (at_ : Z) : Prop := num_least (ji_expiresAt a) (NInt at_) = true.

(** [JtiReplayStore.consume], by what the store accepted so far. *)
Class ReplayStore := store_answer : list Taken -> JtiInput -> Z -> bool.
Class ReplayStoreLaws (R : ReplayStore) := {
  taken_once h i at_ : store_answer h i at_ = true -> forall j t, (j, t) ∈ h -> same_identifier j i -> over_at j at_;
}.

(** ** Interleaved verifications *)

(** A verification with the clock readings it made, latest first, and where in
    the store's history its identifier was accepted. *)
Record Thread : Type := { th_token : jstr; th_prog : prog VerifiedIdentity; readings : list Z; taken : option nat }.

(** Besides the cache: the key responses with the readings they are dated with. *)
Record Verifier : Type := { cache : Cache; threads : gmap nat Thread; responses : list (Z * Response); history : list Taken }.
Definition new_verifier : Verifier := {| cache := empty_cache; threads := ∅; responses := []; history := [] |}.

(** A new call; a clock reading; an access to the cache; a key request answered
    or failed; a consumption that the store took at a second, answered or not. *)
Inductive action : Type :=
| Begin (i : nat) (token : jstr)
| Tick (i : nat) (now : Z)
| Access (i : nat)
| Answer (i : nat) (r : option Response)
| Ask (i : nat) (at_ : Z) (heard : bool).

Section runs.
Context `{Host, Jose, ReplayStore}.
Variable s : Settings.

Definition with_thread (i : nat) (t : Thread) (g : Verifier) : Verifier :=
  {| cache := cache g; threads := <[i := t]> (threads g); responses := responses g; history := history g |}.
Definition continue (t : Thread) (p : prog VerifiedIdentity) : Thread :=
  {| th_token := th_token t; th_prog := p; readings := readings t; taken := taken t |}.
Definition read_clock (t : Thread) (now : Z) (p : prog VerifiedIdentity) : Thread :=
  {| th_token := th_token t; th_prog := p; readings := now :: readings t; taken := taken t |}.
Definition take_at (t : Thread) (n : nat) (p : prog VerifiedIdentity) : Thread :=
  {| th_token := th_token t; th_prog := p; readings := readings t; taken := Some n |}.

Definition act (a : action) (g : Verifier) : option Verifier :=
  match a with
  | Begin i token =>
      match threads g !! i with
      | Some _ => None
      | None => Some (with_thread i {| th_token := token; th_prog := verify s token; readings := []; taken := None |} g)
      end
  | Tick i now =>
      t ← threads g !! i;
      match th_prog t with Clock k => Some (with_thread i (read_clock t now (k now)) g) | _ => None end
  | Access i =>
      t ← threads g !! i;
      match th_prog t with
      | Read k => Some (with_thread i (continue t (k (cache g))) g)
      | Write c k => Some (with_thread i (continue t k) {| cache := c; threads := threads g; responses := responses g; history := history g |})
      | _ => None
      end
  | Answer i r =>
      t ← threads g !! i;
      match th_prog t with
      | Fetch now k =>
          Some (with_thread i (continue t (k r))
            {| cache := cache g; threads := threads g; history := history g;
               responses := match r with Some r => (now, r) :: responses g | None => responses g end |})
      | _ => None
      end
  | Ask i at_ heard =>
      t ← threads g !! i;
      match th_prog t with
      | Consume input k =>
          let accepted := store_answer (history g) input at_ in
          let t' := if accepted && heard then take_at t (length (history g)) (k (Some true))
                    else continue t (k (if heard then Some accepted else None)) in
          Some (with_thread i t'
            {| cache := cache g; threads := threads g; responses := responses g;
               history := if accepted then history g ++ [(input, at_)] else history g |})
      | _ => None
      end
  end.

Fixpoint acts (l : list action) (g : Verifier) : option Verifier :=
  match l with
  | [] => Some g
  | a :: l => g ← act a g; acts l g
  end.

(** ** The rule for one verification *)

(** A cached key set is that of a response, good for a while from its date. *)
Definition cache_ok (rs : list (Z * Response)) (c : Cache) : Prop :=
  forall keys, jwks c = Some keys -> exists now r, (now, r) ∈ rs /\ response_jwks s r = inl keys /\ jwksExpiresAt c = num_add now (s_jwksCacheTtlMs s).

(** With any clock readings, cached key sets and answers the program ends with
    [Q]; [x] is the consumption accepted for it. *)
Fixpoint good {A} (Q : outcome A -> list (Z * Response) -> list Z -> option JtiInput -> Prop) (rs : list (Z * Response)) (ts : list Z)
    (x : option JtiInput) (p : prog A) : Prop :=
  match p with
  | Finish r => forall rs', rs ⊆ rs' -> Q r rs' ts x
  | Clock k => forall now, good Q rs (now :: ts) x (k now)
  | Read k => forall rs' c, rs ⊆ rs' -> cache_ok rs' c -> good Q rs' ts x (k c)
  | Write c k => cache_ok rs c /\ good Q rs ts x k
  | Fetch now k => forall rs' r, rs ⊆ rs' -> good Q (match r with Some r => (now, r) :: rs' | None => rs' end) ts x (k r)
  | Consume i k => x = None /\ forall b, good Q rs ts (match b with Some true => Some i | _ => None end) (k b)
  end.

Lemma cache_ok_mono rs rs' c : rs ⊆ rs' -> cache_ok rs c -> cache_ok rs' c.
Proof. intros Hs Hc keys Hk. apply Hc in Hk as (now & r & Hr & ?). exists now, r. split; [by apply Hs|done]. Qed.

Section rules.
Context {A : Type}.
Implicit Types (Q : outcome A -> list (Z * Response) -> list Z -> option JtiInput -> Prop) (p : prog A).

Lemma good_more Q p rs rs' ts x : good Q rs ts x p -> rs ⊆ rs' -> good Q rs' ts x p.
Proof.
  revert rs rs' ts x. induction p as [r|k IH|k IH|c k IH|now k IH|i k IH]; cbn [good]; intros rs rs' ts x Hp Hs.
  - intros rs2 H2. apply Hp. by etrans.
  - intros now. by eapply IH.
  - intros rs2 c H2. apply Hp. by etrans.
  - destruct Hp as [Hc Hp]. split; [by eapply cache_ok_mono|by eapply IH].
  - intros rs2 r H2. apply Hp. by etrans.
  - destruct Hp as [Hx Hp]. split; [done|]. intros b. by eapply IH.
Qed.

Lemma good_mono Q Q' p rs ts x : (forall r rs ts x, Q r rs ts x -> Q' r rs ts x) -> good Q rs ts x p -> good Q' rs ts x p.
Proof.
  intros Hq. revert rs ts x. induction p as [r|k IH|k IH|c k IH|now k IH|i k IH]; cbn [good]; intros rs ts x Hp; [auto..|].
  - destruct Hp. split; auto.
  - destruct Hp. auto.
Qed.
End rules.

Lemma good_attempt {A B : Type} (Q : outcome B -> list (Z * Response) -> list Z -> option JtiInput -> Prop) (p : prog A)
    (k : outcome A -> prog B) rs ts x :
  good (fun r rs ts x => good Q rs ts x (k r)) rs ts x p -> good Q rs ts x (attempt p k).
Proof.
  revert rs ts x. induction p as [r|c IH|c IH|m c IH|now c IH|i c IH]; cbn [good attempt]; intros rs ts x Hp.
  - by apply Hp.
  - auto.
  - auto.
  - destruct Hp. auto.
  - auto.
  - destruct Hp. auto.
Qed.

(** ** What a verification establishes *)

(** The keys come from a response that was asked for, or not yet stale, at a
    reading of this verification. *)
Definition key_source (rs : list (Z * Response)) (ts : list Z) (keys : jsval) : Prop :=
  exists t0 r t, (t0, r) ∈ rs /\ response_jwks s r = inl keys /\ t ∈ ts /\ (t = t0 \/ t < num_add t0 (s_jwksCacheTtlMs s)).

Definition verified_under (token : jstr) (claims : list (jstr * jsval)) (rs : list (Z * Response)) (ts : list Z) : Prop :=
  exists keys now, key_source rs ts keys /\ now ∈ ts /\ jwtVerify token keys (verify_options s now) = inl claims.

Definition input_of (c : Claims) (jti : jstr) : JtiInput :=
  {| ji_issuer := s_issuer s; ji_tenantId := c_tenant c; ji_jti := jti; ji_expiresAt := c_exp c |}.

Definition sound (token : jstr) (r : outcome VerifiedIdentity) (rs : list (Z * Response)) (ts : list Z) (x : option JtiInput) : Prop :=
  match r with
  | inr _ => True
  | inl id => (exists header, decodeProtectedHeader token = Ok header /\ admitted_header s header = true) /\
      exists claims c aud, verified_under token claims rs ts /\ signed_claims s claims = Some c /\
      audiences (prop "aud" claims) = inl aud /\ id = identity_of s c aud (prop "jti" claims) /\
      (s_requireJti s = true -> exists jti, prop "jti" claims = JStr jti /\ ID_VALUE jti = true /\ x = Some (input_of c jti))
  end.

Lemma key_source_mono rs rs' ts ts' keys : rs ⊆ rs' -> ts ⊆ ts' -> key_source rs ts keys -> key_source rs' ts' keys.
Proof. intros Hr Ht (t0 & r & t & E1 & E2 & E3 & E4). exists t0, r, t. auto. Qed.
Lemma verified_under_mono token claims rs rs' ts ts' : rs ⊆ rs' -> ts ⊆ ts' ->
  verified_under token claims rs ts -> verified_under token claims rs' ts'.
Proof. intros Hr Ht (keys & now & Hk & Hn & Hj). exists keys, now. split; [by eapply key_source_mono|auto]. Qed.

(** Postconditions of the parts, before anything was consumed. *)
Definition gives {A} (P : A -> list (Z * Response) -> list Z -> Prop) (r : outcome A) rs ts (x : option JtiInput) : Prop :=
  x = None /\ match r with inl a => P a rs ts | inr _ => True end.

Lemma getJwks_good force rs ts : good (gives (fun keys rs ts => key_source rs ts keys)) rs ts None (getJwks s force).
Proof.
  cbn. intros now rs1 c Hs Hc.
  assert (Hf : forall k, k = Fetch now (fun response => match response with
      | None => Finish (inr (Failed jwks_unavailable))
      | Some r => match response_jwks s r with
          | inr e => Finish (inr e)
          | inl value => Write {| jwks := Some value; jwksExpiresAt := num_add now (s_jwksCacheTtlMs s); lastJwksFetchAt := Some now |} (Finish (inl value))
          end
      end) -> good (gives (fun keys rs ts => key_source rs ts keys)) rs1 (now :: ts) None k).
  { intros k ->. cbn. intros rs2 [r|] H2; [|by cbn].
    destruct (response_jwks s r) as [value|e] eqn:Er; [|by cbn]. cbn. split.
    - intros keys [= <-]. exists now, r. split; [left|done].
    - intros rs3 H3. split; [done|]. exists now, r, now. split; [apply H3; left|]. split; [done|]. split; [left|by left]. }
  destruct force; [by apply Hf|]. destruct (now <? jwksExpiresAt c) eqn:Et; [|by apply Hf].
  destruct (jwks c) as [keys|] eqn:Ek; [|by apply Hf]. cbn. intros rs2 H2. split; [done|].
  apply Hc in Ek as (t0 & r & Hr & Hj & He). exists t0, r, now. split; [by apply H2|]. split; [done|]. split; [left|].
  right. rewrite <- He. by apply Z.ltb_lt.
Qed.

Lemma verifyWithCachedKeys_good token force rs ts :
  good (gives (verified_under token)) rs ts None (verifyWithCachedKeys s token force).
Proof.
  apply good_attempt. eapply good_mono; [|apply getJwks_good]. intros [keys|e] rs1 ts1 x [-> Hk]; [|by cbn].
  cbn. intros now rs2 H2. split; [done|]. destruct (jwtVerify token keys (verify_options s now)) as [claims|e] eqn:Ej; [|done].
  exists keys, now. split; [|split; [left|done]]. eapply key_source_mono; [done| |exact Hk]. set_solver.
Qed.

Lemma refresh_good token e rs ts : good (gives (verified_under token)) rs ts None (refresh s token e).
Proof.
  destruct e as [code| |]; cbn [good refresh]; [done| |done]. intros now rs1 c Hs1 Hc.
  destruct (match lastJwksFetchAt c with Some _ => _ | None => _ end); [apply verifyWithCachedKeys_good|by cbn].
Qed.

Lemma identity_good token header payload rs ts : decodeProtectedHeader token = Ok header -> admitted_header s header = true ->
  verified_under token payload rs ts ->
  good (sound token) rs ts None (identityFromPayload s payload).
Proof.
  intros Hd Hh Hv. unfold identityFromPayload. destruct (signed_claims s payload) as [c|] eqn:Ec; [|by cbn].
  assert (Hok : forall aud x rs', audiences (prop "aud" payload) = inl aud -> rs ⊆ rs' ->
      (s_requireJti s = true -> exists jti, prop "jti" payload = JStr jti /\ ID_VALUE jti = true /\ x = Some (input_of c jti)) ->
      sound token (inl (identity_of s c aud (prop "jti" payload))) rs' ts x).
  { intros aud x rs' Ha Hs Hx. split; [by exists header|]. exists payload, c, aud. split; [by eapply verified_under_mono|done]. }
  assert (Hlast : forall x, (s_requireJti s = true -> exists jti, prop "jti" payload = JStr jti /\ ID_VALUE jti = true /\ x = Some (input_of c jti)) ->
      good (sound token) rs ts x (Finish (match audiences (prop "aud" payload) with
        | inl a => inl (identity_of s c a (prop "jti" payload)) | inr e => inr e end))).
  { intros x Hx. cbn. intros rs' Hs. destruct (audiences (prop "aud" payload)) as [aud|e] eqn:Ha; [by apply Hok|done]. }
  assert (Hrest : good (sound token) rs ts None
    (if s_requireJti s then
       match prop "jti" payload with
       | JStr id => if ID_VALUE id then Consume (input_of c id) (fun answer => match answer with
             | Some true => Finish (match audiences (prop "aud" payload) with
                 | inl a => inl (identity_of s c a (prop "jti" payload)) | inr e => inr e end)
             | _ => Finish (inr (Failed replay_rejected)) end)
           else Finish (inr (Failed claim_invalid))
       | _ => Finish (inr (Failed claim_invalid))
       end
     else Finish (match audiences (prop "aud" payload) with inl a => inl (identity_of s c a (prop "jti" payload)) | inr e => inr e end))).
  { destruct (s_requireJti s) eqn:Er; [|by apply Hlast].
    destruct (prop "jti" payload) as [| | | |id| |] eqn:Ej; [by cbn..| |by cbn|by cbn].
    destruct (ID_VALUE id) eqn:Ei; [|by cbn]. cbn [good]. split; [done|]. intros [[]|]; [|by cbn|by cbn].
    apply Hlast. intros _. by exists id. }
  destruct (audiences (prop "aud" payload)) as [aud|[code| |]]; [exact Hrest|by cbn|exact Hrest|exact Hrest].
Qed.

Lemma verify_good token rs : good (sound token) rs [] None (verify s token).
Proof.
  unfold verify. destruct (bool_decide _ || _); [by cbn|]. destruct (decodeProtectedHeader token) as [header|e] eqn:Ed; [|by cbn].
  destruct (admitted_header s header) eqn:Eh; [|by cbn]. cbn [negb]. apply good_attempt.
  eapply good_mono; [|apply verifyWithCachedKeys_good]. intros first rs1 ts1 x [-> Hf]. apply good_attempt.
  eapply good_mono with (Q := gives (verified_under token)).
  - intros [payload|e] rs2 ts2 x [-> Hp]; [by eapply identity_good|by cbn].
  - destruct first as [payload|e]; [|apply refresh_good]. cbn. intros rs2 H2. split; [done|]. by eapply verified_under_mono.
Qed.

(** ** Every interleaving *)

Definition accepted_of (h : list Taken) (t : Thread) : option JtiInput := n ← taken t; fst <$> h !! n.

Record inv (g : Verifier) : Prop := {
  inv_cache : cache_ok (responses g) (cache g);
  inv_good i t : threads g !! i = Some t -> good (sound (th_token t)) (responses g) (readings t) (accepted_of (history g) t) (th_prog t);
  inv_taken i t n : threads g !! i = Some t -> taken t = Some n -> (n < length (history g))%nat;
  inv_own i j t u n : threads g !! i = Some t -> threads g !! j = Some u -> taken t = Some n -> taken u = Some n -> i = j;
  inv_once m n a b : (m < n)%nat -> history g !! m = Some a -> history g !! n = Some b -> same_identifier a.1 b.1 -> over_at a.1 b.2;
}.

Lemma inv_new : inv new_verifier.
Proof. split; cbn; [by intros keys|..]; intros; try done; by simplify_map_eq. Qed.

(** A step that leaves the store's history as it is. *)
Lemma inv_step g i t c rs : inv g -> cache_ok rs c -> responses g ⊆ rs ->
  (forall n, taken t = Some n -> exists t0, threads g !! i = Some t0 /\ taken t0 = Some n) ->
  good (sound (th_token t)) rs (readings t) (accepted_of (history g) t) (th_prog t) ->
  inv {| cache := c; threads := <[i := t]> (threads g); responses := rs; history := history g |}.
Proof.
  intros [Hc Hg Ht Ho Hon] Hc' Hs Hn Hp. split; cbn; [done|..|done].
  - intros j u [[<- <-]|[_ Hu]]%lookup_insert_Some; [done|]. by eapply good_more, Hs; apply (Hg j).
  - intros j u n [[<- <-]|[_ Hu]]%lookup_insert_Some Hn'; [|by eapply Ht]. apply Hn in Hn' as (t0 & ? & ?). by eapply Ht.
  - intros j k u v n [[<- <-]|[? Hu]]%lookup_insert_Some [[<- <-]|[? Hv]]%lookup_insert_Some Eu Ev; [done|..].
    + apply Hn in Eu as (t0 & ? & ?). by eapply Ho.
    + apply Hn in Ev as (t0 & ? & ?). by eapply Ho.
    + by eapply Ho.
Qed.

(** The store accepts the request of a verification, which may not hear it. *)
Lemma inv_accept g i t t' input at_ : inv g -> threads g !! i = Some t -> taken t = None ->
  (forall j u, (j, u) ∈ history g -> same_identifier j input -> over_at j at_) ->
  taken t' = None \/ taken t' = Some (length (history g)) ->
  good (sound (th_token t')) (responses g) (readings t') (accepted_of (history g ++ [(input, at_)]) t') (th_prog t') ->
  inv {| cache := cache g; threads := <[i := t']> (threads g); responses := responses g; history := history g ++ [(input, at_)] |}.
Proof.
  intros [Hc Hg Ht Ho Hon] Hi Hx Hl Hn Hp.
  assert (Hlen : forall n, taken t' = Some n -> n = length (history g)) by (intros n; destruct Hn as [->| ->]; [done|by intros [= <-]]).
  split; cbn; [done|..].
  - intros j u [[<- <-]|[_ Hu]]%lookup_insert_Some; [done|]. specialize (Hg _ _ Hu). unfold accepted_of in *.
    destruct (taken u) as [n|] eqn:En; [|done]. cbn in *. rewrite lookup_app_l by (by eapply Ht). exact Hg.
  - rewrite length_app. cbn. intros j u n [[<- <-]|[_ Hu]]%lookup_insert_Some En; [apply Hlen in En; lia|].
    specialize (Ht _ _ _ Hu En). lia.
  - intros j k u v n [[<- <-]|[? Hu]]%lookup_insert_Some [[<- <-]|[? Hv]]%lookup_insert_Some Eu Ev; [done|..].
    + apply Hlen in Eu. specialize (Ht _ _ _ Hv Ev). lia.
    + apply Hlen in Ev. specialize (Ht _ _ _ Hu Eu). lia.
    + by eapply Ho.
  - intros m n a b Hlt Hm Hb Hsame. apply lookup_app_Some in Hb as [Hb|[Hb1 Hb2]].
    + eapply (Hon m n); [done| |done..]. apply lookup_lt_Some in Hb. rewrite lookup_app_l in Hm by lia. done.
    + apply list_lookup_singleton_Some in Hb2 as [Hb2 <-]. rewrite lookup_app_l in Hm by lia.
      destruct a as [j u]. eapply Hl; [by eapply list_elem_of_lookup_2|done].
Qed.

Lemma act_inv `{!ReplayStoreLaws _} a g g' : act a g = Some g' -> inv g -> inv g'.
Proof.
  intros E Hi. pose proof (inv_cache g Hi) as Hc.
  destruct a as [i token|i now|i|i r|i at_ heard]; cbn in E; destruct (threads g !! i) as [t|] eqn:Et; try done.
  1: { injection E as <-. apply inv_step; [done..|apply verify_good]. }
  all: pose proof (inv_good g Hi _ _ Et) as Hp; cbn in E; destruct (th_prog t) as [res|k|k|c k|at0 k|input k] eqn:Ep; try done;
    injection E as <-; cbn in Hp.
  - apply inv_step; [done..| |apply Hp]. cbn. eauto.
  - apply inv_step; [done..| |by apply Hp]. cbn. eauto.
  - destruct Hp as [Hc' Hp]. apply (inv_step g); [done..| |exact Hp]. cbn. eauto.
  - apply (inv_step g); [done|..].
    + eapply cache_ok_mono; [|done]. destruct r; [set_solver|done].
    + destruct r; [set_solver|done].
    + cbn. eauto.
    + by apply Hp.
  - destruct Hp as [Hx Hp]. assert (Ex : taken t = None).
    { destruct (taken t) as [n|] eqn:En; [|done].
      destruct (lookup_lt_is_Some_2 (history g) n) as [b Hb]; [by eapply (inv_taken g Hi)|].
      assert (Hs : accepted_of (history g) t = Some b.1) by (unfold accepted_of; by simplify_option_eq). congruence. }
    destruct (store_answer (history g) input at_) eqn:Ea.
    + eapply (inv_accept g i t); [done..| | |]; [intros j u Hj Hs; by eapply taken_once|..]; destruct heard; cbn; auto.
      * unfold accepted_of. cbn. rewrite list_lookup_middle by done. apply (Hp (Some true)).
      * unfold accepted_of. cbn. rewrite Ex. apply (Hp None).
    + apply (inv_step g); [done..| |].
      * cbn. rewrite Ex. done.
      * cbn. unfold accepted_of. cbn. rewrite Ex. destruct heard; [apply (Hp (Some false))|apply (Hp None)].
Qed.

Lemma acts_inv `{!ReplayStoreLaws _} l g g' : acts l g = Some g' -> inv g -> inv g'.
Proof.
  revert g. induction l as [|a l IH]; cbn; intros g E Hi; [by injection E as <-|].
  destruct (act a g) as [g1|] eqn:E1; [|done]. eapply IH; [done|by eapply act_inv].
Qed.

Lemma reached_sound `{!ReplayStoreLaws _} l g i t id : acts l new_verifier = Some g -> threads g !! i = Some t ->
  th_prog t = Finish (inl id) -> sound (th_token t) (inl id) (responses g) (readings t) (accepted_of (history g) t).
Proof.
  intros E Ht Hp. apply acts_inv in E; [|apply inv_new]. pose proof (inv_good g E _ _ Ht) as Hg. rewrite Hp in Hg. by apply Hg.
Qed.

(** ** Keys and claims *)

Lemma check_keys_valid kids keys : check_keys s kids keys = inl tt -> Forall (fun key => validShape s key = true) keys.
Proof.
  revert kids. induction keys as [|key keys IH]; intros kids E; [done|].
  assert (Hn : key <> JNull) by (by intros ->).
  assert (Ek : check_keys s kids (key :: keys) =
    if negb (validShape s key) || includes kids (text_of (member "kid" key)) then inr (Failed jwks_invalid)
    else check_keys s (text_of (member "kid" key) :: kids) keys) by (by destruct key).
  rewrite Ek in E. destruct (validShape s key) eqn:Ev; [|done]. cbn [negb orb] in E.
  destruct (includes _ _); [done|]. constructor; [done|by eapply IH].
Qed.

Lemma response_keys_valid r value : response_jwks s r = inl value -> Forall (fun key => validShape s key = true) (keys_of value).
Proof.
  unfold response_jwks, keys_of. destruct (ok r); [|done]. cbn [negb].
  destruct (negb _); [done|]. destruct (boundedResponseBody r _) as [text|]; [|done]. destruct (json_parse text) as [v|]; [|done].
  destruct (member "keys" v) as [| | | | |keys|] eqn:Em; try done. destruct (_ || _); [done|].
  destruct (check_keys s [] keys) as [[]|] eqn:Ec; [|done]. intros [= <-]. rewrite Em. by eapply check_keys_valid.
Qed.

Lemma role_names_spec l names : role_names l = Some names -> l = map JStr names.
Proof.
  revert names. induction l as [|v l IH]; cbn; intros names E; [by injection E as <-|].
  destruct v; try done. destruct (role_names l) as [ns|] eqn:El; [|done]. injection E as <-. cbn. by rewrite <- (IH _ eq_refl).
Qed.

(** The roles an identity may have. *)
Definition granted (names : list jstr) : Prop :=
  NoDup names /\ Forall (fun r => r ∈ s_allowedRoles s) names /\ 1 <= len names <= 32.

Lemma admitted_roles_spec v names : admitted_roles s v = Some names -> v = JArr (map JStr names) /\ granted names.
Proof.
  destruct v as [| | | | |l|]; try done. cbn. destruct (role_names l) as [ns|] eqn:El; [|done]. cbn.
  destruct (_ && _) eqn:Eb; [|done]. intros [= ->]. apply role_names_spec in El as ->.
  rewrite !andb_true_iff in Eb. destruct Eb as [[[E1 E2] E3] E4]. unfold len in *. rewrite length_map in *.
  split; [done|]. split; [by eapply bool_decide_eq_true|]. split; [|unfold len; lia].
  apply forallb_Forall in E3. eapply Forall_impl; [exact E3|]. intros r. apply includes_true.
Qed.

Lemma signed_claims_spec claims c : signed_claims s claims = Some c ->
  prop "sub" claims = JStr (c_sub c) /\ prop (s_tenantClaim s) claims = JStr (c_tenant c) /\
  prop (s_rolesClaim s) claims = JArr (map JStr (c_roles c)) /\ granted (c_roles c) /\
  prop "iat" claims = JNum (c_iat c) /\ prop "exp" claims = JNum (c_exp c) /\ ID_VALUE (c_sub c) = true /\ ID_VALUE (c_tenant c) = true.
Proof.
  unfold signed_claims. destruct (prop "sub" claims) eqn:E1; try done. destruct (prop (s_tenantClaim s) claims) eqn:E2; try done.
  destruct (admitted_roles s (prop (s_rolesClaim s) claims)) as [names|] eqn:E3; [|done].
  destruct (prop "iat" claims) eqn:E4; try done. destruct (prop "exp" claims) eqn:E5; try done.
  destruct (_ && _) eqn:Eb; [|done]. intros [= <-]. apply andb_true_iff in Eb as [? ?]. apply admitted_roles_spec in E3 as [E3 ?].
  cbn. by rewrite E3.
Qed.

Lemma sound_taken g t id : sound (th_token t) (inl id) (responses g) (readings t) (accepted_of (history g) t) -> s_requireJti s = true ->
  exists n x, taken t = Some n /\ history g !! n = Some x /\ ji_issuer x.1 = s_issuer s /\ ji_tenantId x.1 = tenantId id /\
    tokenId id = Some (JStr (ji_jti x.1)) /\ ji_expiresAt x.1 = expiresAt id.
Proof.
  intros (_ & claims & c & aud & _ & _ & _ & -> & Hx) Hr. apply Hx in Hr as (jti & Ej & Ei & Ex).
  unfold accepted_of in Ex. destruct (taken t) as [n|]; [|done]. apply fmap_Some in Ex as (x & Eh & Ex).
  exists n, x. rewrite <- Ex. split; [done|]. split; [done|]. cbn. rewrite Ej. cbn. by destruct jti.
Qed.

(** ** Theorems *)

(** C15: An identity that any verification ends with, however verifications
    interleave, is vouched for by a token with an admitted header whose
    signature a key verifies; that key passed every check, and it comes from a
    response that answered a request of this verification or was younger than
    the cache's lifetime at one of its clock readings.  The principal, the
    tenant, the roles and the times are the token's claims, the issuer, the
    audience and the times hold at a reading of this verification, and the
    roles are distinct, between one and 32, and all on the allowlist. *)
Theorem verified_identity_sound `{!JoseLaws _, !ReplayStoreLaws _} l g i t id :
  acts l new_verifier = Some g -> threads g !! i = Some t -> th_prog t = Finish (inl id) ->
  (exists header, decodeProtectedHeader (th_token t) = Ok header /\ admitted_header s header = true) /\
  exists keys key claims now,
    key_source (responses g) (readings t) keys /\ key ∈ keys_of keys /\ validShape s key = true /\ signature_valid (th_token t) key = true /\
    now ∈ readings t /\ registered_claims (verify_options s now) claims /\
    prop "sub" claims = JStr (principalId id) /\ prop (s_tenantClaim s) claims = JStr (tenantId id) /\
    prop (s_rolesClaim s) claims = JArr (map JStr (roles id)) /\ prop "iat" claims = JNum (issuedAt id) /\ prop "exp" claims = JNum (expiresAt id) /\
    ID_VALUE (principalId id) = true /\ ID_VALUE (tenantId id) = true /\ granted (roles id) /\ vi_issuer id = s_issuer s.
Proof.
  intros E Ht Hp. destruct (reached_sound _ _ _ _ _ E Ht Hp) as (Hh & claims & c & aud & (keys & now & Hk & Hn & Hj) & Hc & _ & -> & _).
  split; [done|]. destruct (signed_by_key _ _ _ _ Hj) as (key & Hin & Hsig).
  apply signed_claims_spec in Hc as (E1 & E2 & E3 & E4 & E5 & E6 & E7 & E8).
  assert (Hv : validShape s key = true).
  { destruct Hk as (t0 & r & t' & _ & Hr & _). apply response_keys_valid in Hr. by eapply Forall_forall in Hr. }
  apply registered in Hj. exists keys, key, claims, now. done.
Qed.

(** C16: Where one-time identifiers are required, two verifications that end with
    the same tenant and token identifier, however they interleave, each took
    their own acceptance of the replay store, and one of them took it when the
    other's token had expired. *)
Theorem identifier_used_once `{!ReplayStoreLaws _} l g i j t u a b :
  acts l new_verifier = Some g -> s_requireJti s = true -> i <> j ->
  threads g !! i = Some t -> th_prog t = Finish (inl a) -> threads g !! j = Some u -> th_prog u = Finish (inl b) ->
  tenantId a = tenantId b -> tokenId a = tokenId b ->
  exists m n x y, taken t = Some m /\ taken u = Some n /\ history g !! m = Some x /\ history g !! n = Some y /\
    ji_expiresAt x.1 = expiresAt a /\ ji_expiresAt y.1 = expiresAt b /\ (over_at x.1 y.2 \/ over_at y.1 x.2).
Proof.
  intros E Hr Hij Ht Hpt Hu Hpu E1 E2.
  destruct (sound_taken g t a) as (m & x & Hm & Hx & X1 & X2 & X3 & X4); [by eapply reached_sound|done|].
  destruct (sound_taken g u b) as (n & y & Hn & Hy & Y1 & Y2 & Y3 & Y4); [by eapply reached_sound|done|].
  exists m, n, x, y. repeat (split; [done|]). apply acts_inv in E; [|apply inv_new].
  assert (Hs : same_identifier x.1 y.1) by (split; [congruence|]; split; congruence).
  destruct (lt_eq_lt_dec m n) as [[Hlt| ->]|Hlt].
  - left. by eapply (inv_once g E m n).
  - by destruct Hij; eapply (inv_own g E).
  - right. eapply (inv_once g E n m); [done..|]. destruct Hs as (? & ? & ?). by repeat split.
Qed.
End runs.
