(* ===== verification/AccessExamples.v ===== *)
(** AccessExamples: runs of the access token verifier: the theorems at a
    concrete verifier, and what its refresh of the keys and its use of the
    replay store let through. *)
From stdpp Require Import gmap.
From S2P Require Import Prelude JsString Host JsTime JsJson JsParse JsNumber Url CredentialVerifier TestHost AccessToken AccessRuns.
#[local] Open Scope string_scope.
#[local] Open Scope list_scope.
#[local] Open Scope Z_scope.
#[local] Open Scope js_scope.

(** ** A token library and a replay store *)

Definition EXPIRES : Z := 1767272400.
Definition ISSUED : Z := 1767268800.

Definition test_claims (o : JWTVerifyOptions) (aud : jsval) : list (jstr * jsval) :=
  [(js "iss", JStr (jv_issuer o)); (js "aud", aud); (js "sub", JStr "user-1"); (js "tid", JStr "tenant-1");
   (js "roles", JArr [JStr "issuer.operator"]); (js "iat", JNum (NInt ISSUED)); (js "exp", JNum (NInt EXPIRES)); (js "jti", JStr "jti-1")].

Definition test_times (o : JWTVerifyOptions) : bool :=
  match jv_currentDate o with
  | Some now => (now / 1000 - jv_clockTolerance o <? EXPIRES) && (now / 1000 - jv_clockTolerance o - jv_maxTokenAge o <=? ISSUED) &&
                (ISSUED <=? now / 1000 + jv_clockTolerance o)
  | None => true
  end.

(** A token is the name of the key that signs it; every token has the same claims. *)
#[local] Instance test_jose : Jose := {|
  decodeProtectedHeader token := Ok [(js "alg", JStr "ES256"); (js "typ", JStr "at+jwt"); (js "kid", JStr token)];
  jwtVerify token jwks o :=
    if existsb (fun key => is_text (member "kid" key) token) (keys_of jwks)
    then match jv_audience o, test_times o with
         | One a, true => inl (test_claims o (JStr a))
         | Many (a :: _), true => inl (test_claims o (JArr [JStr a]))
         | _, _ => inr OtherError
         end
    else inr JWKSNoMatchingKey;
  signature_valid token key := is_text (member "kid" key) token;
|}.

#[local] Instance test_jose_laws : JoseLaws test_jose.
Proof.
  split; intros token jwks o claims; cbn [jwtVerify test_jose]; destruct (existsb _ _) eqn:Ee; try done.
  - intros _. apply existsb_exists in Ee as (key & Hk%list_elem_of_In & Hs). by exists key.
  - destruct (test_times o) eqn:Et; [|by destruct (jv_audience o) as [|[]]].
    assert (Hok : forall aud a, match jv_audience o with One b => a = b | Many l => a ∈ l end -> aud = JStr a \/ aud = JArr [JStr a] ->
      registered_claims o (test_claims o aud)).
    { intros aud a Ha Haud. split; [done|]. split.
      { exists a. split; [done|]. destruct Haud as [-> | ->]; [by left|]. right. eexists. split; [done|left]. }
      unfold test_times in Et. split; intros z now [= <-] En; rewrite En, !andb_true_iff, Z.ltb_lt, !Z.leb_le in Et; lia. }
    destruct (jv_audience o) as [a|[|a l]]; [|done|]; intros [= <-]; eapply Hok; auto. left.
Qed.

#[local] Instance test_store : ReplayStore := fun h i at_ =>
  forallb (fun x => negb ((ji_issuer x.1 =s? ji_issuer i) && (ji_tenantId x.1 =s? ji_tenantId i) && (ji_jti x.1 =s? ji_jti i)) ||
                    num_least (ji_expiresAt x.1) (NInt at_)) h.
#[local] Instance test_store_laws : ReplayStoreLaws test_store.
Proof.
  split. intros h i at_ Hs j t Hj (E1 & E2 & E3). unfold store_answer, test_store in Hs.
  apply forallb_Forall in Hs. rewrite Forall_forall in Hs. apply Hs in Hj. cbn in Hj.
  unfold jeqb in Hj. rewrite E1, E2, E3, !bool_decide_true in Hj by done. exact Hj.
Qed.

(** ** A verifier *)

#[local] Instance sample_host : Host := test_host.
#[local] Instance sample_urls : UrlParser := test_url_parser.

Definition sample_options : OidcVerifierOptions := {|
  issuer := "https://idp.example.com/"; audience := One "airlock"; jwksUri := "https://idp.example.com/jwks"; algorithms := [js "ES256"];
  allowedRoles := [js "issuer.operator"]; tenantClaim := None; rolesClaim := None; maxTokenAgeSeconds := NInt 7200; clockToleranceSeconds := None;
  requireJtiReplayProtection := true; hasReplayStore := true; jwksCacheTtlMs := None; jwksRefreshCooldownMs := None; jwksFetchTimeoutMs := None;
  maxJwksBytes := None; maxJwksKeys := None; maxTokenBytes := None |}.

Definition sample_settings : Settings := {|
  s_issuer := "https://idp.example.com/"; s_audience := One "airlock"; s_jwksUri := "https://idp.example.com/jwks"; s_algorithms := [js "ES256"];
  s_allowedRoles := [js "issuer.operator"]; s_tenantClaim := "tid"; s_rolesClaim := "roles"; s_maxTokenAgeSeconds := 7200;
  s_clockToleranceSeconds := 5; s_requireJti := true; s_jwksCacheTtlMs := 300000; s_jwksRefreshCooldownMs := 5000; s_jwksFetchTimeoutMs := 5000;
  s_maxJwksBytes := 262144; s_maxJwksKeys := 32; s_maxTokenBytes := 16384 |}.

Example sample_constructed : constructor sample_options = Ok sample_settings.
Proof. vm_compute. reflexivity. Qed.

Definition key_text (kid : jstr) : jstr :=
  js "{'kty':'EC','crv':'P-256','use':'sig','alg':'ES256','kid':'" ++ kid ++ js "'}".
(** The text with its apostrophes as quotation marks. *)
Definition quoted (s : jstr) : jstr := map (fun c => if (c =? 39)%N then 34%N else c) s.
Definition sample_response : Response :=
  {| ok := true; content_length := None; content_type := Some (js "Application/JSON; charset=utf-8");
     body := Some ([utf8_encode (quoted (js "{'keys':[" ++ key_text "k1")); utf8_encode (quoted (js "]}"))], true) |}.

(** A verification of a token of the cached key at a time. *)
Definition cached (i : nat) (token : jstr) (t : Z) : list action := [Begin i token; Tick i t; Access i; Tick i t].
(** One that fetches the keys first. *)
Definition fetching (i : nat) (token : jstr) (t : Z) : list action :=
  [Begin i token; Tick i t; Access i; Answer i (Some sample_response); Access i; Tick i t].

Definition ended (i : nat) (g : option Verifier) : option (outcome VerifiedIdentity) :=
  v ← g; t ← threads v !! i; match th_prog t with Finish r => Some r | _ => None end.
Definition run (l : list action) : option Verifier := acts sample_settings l new_verifier.

Definition sample_identity : VerifiedIdentity := {|
  principalId := "user-1"; tenantId := "tenant-1"; roles := [js "issuer.operator"]; vi_issuer := "https://idp.example.com/";
  vi_audience := [JStr "airlock"]; tokenId := Some (JStr "jti-1"); issuedAt := NInt ISSUED; expiresAt := NInt EXPIRES |}.

(** The first verification takes the identifier, the second arrives two seconds
    after the token's expiry, within the clock tolerance. *)
Definition late : Z := (EXPIRES + 2) * 1000.
Definition twice : list action :=
  fetching 0 "k1" (late - 3000) ++ [Ask 0 (EXPIRES - 1) true] ++ cached 1 "k1" late ++ [Ask 1 (EXPIRES + 2) true].

Definition ending (l : list action) : Verifier := default new_verifier (run l).
Definition thread_of (i : nat) (l : list action) : Thread :=
  default {| th_token := []; th_prog := Finish (inr OtherError); readings := []; taken := None |} (threads (ending l) !! i).

Example twice_verified : ended 0 (run twice) = Some (inl sample_identity) /\ ended 1 (run twice) = Some (inl sample_identity).
Proof. split; vm_compute; reflexivity. Qed.

Lemma verified_identity_sound_witness :
  acts sample_settings twice new_verifier = Some (ending twice) /\ th_prog (thread_of 0 twice) = Finish (inl sample_identity) /\
  exists keys key, key_source sample_settings (responses (ending twice)) (readings (thread_of 0 twice)) keys /\ key ∈ keys_of keys /\
    validShape sample_settings key = true /\ signature_valid "k1" key = true.
Proof.
  split; [vm_compute; reflexivity|]. split; [vm_compute; reflexivity|].
  refine (match verified_identity_sound sample_settings twice (ending twice) 0 (thread_of 0 twice) sample_identity _ _ _ with
          | conj _ (ex_intro _ keys (ex_intro _ key (ex_intro _ _ (ex_intro _ _ (conj C1 (conj C2 (conj C3 (conj C4 _)))))))) =>
              ex_intro _ keys (ex_intro _ key (conj C1 (conj C2 (conj C3 C4))))
          end); vm_compute; reflexivity.
Defined.

Lemma identifier_used_once_witness :
  acts sample_settings twice new_verifier = Some (ending twice) /\
  exists m n x y, taken (thread_of 0 twice) = Some m /\ taken (thread_of 1 twice) = Some n /\
    history (ending twice) !! m = Some x /\ history (ending twice) !! n = Some y /\
    ji_expiresAt x.1 = NInt EXPIRES /\ ji_expiresAt y.1 = NInt EXPIRES /\ (over_at x.1 y.2 \/ over_at y.1 x.2).
Proof.
  split; [vm_compute; reflexivity|].
  refine (identifier_used_once sample_settings twice (ending twice) 0 1 (thread_of 0 twice) (thread_of 1 twice) sample_identity sample_identity
            _ _ _ _ _ _ _ _ _); try (vm_compute; reflexivity). discriminate.
Defined.

(** ** What the refresh of the keys lets through *)

(** The failure of the second attempt, under keys fetched again, is not an
    [IdentityVerificationError]. *)
Example refresh_failure_escapes :
  ended 1 (run (fetching 0 "k1" 0 ++ cached 1 "k2" 6000 ++ [Tick 1 6000; Access 1; Tick 1 6000; Access 1; Answer 1 (Some sample_response); Access 1; Tick 1 6000]))
  = Some (inr JWKSNoMatchingKey).
Proof. vm_compute. reflexivity. Qed.

(** A verification waits for an answer to a key request. *)
Definition fetches (i : nat) (g : option Verifier) : bool :=
  match v ← g; threads v !! i with Some t => match th_prog t with Fetch _ _ => true | _ => false end | None => false end.

(** A request for keys that fails does not start the cooldown: at the same
    moment the next token of an unknown key makes another. *)
Definition refused_refresh (i : nat) : list action :=
  cached i "k2" 6000 ++ [Tick i 6000; Access i; Tick i 6000; Access i].
Example failed_refresh_repeats :
  let l1 := fetching 0 "k1" 0 ++ refused_refresh 1 in
  let l2 := l1 ++ [Answer 1 None] ++ refused_refresh 2 in
  fetches 1 (run l1) = true /\ ended 1 (run l2) = Some (inr (Failed jwks_unavailable)) /\ fetches 2 (run l2) = true.
Proof. vm_compute. by repeat split. Qed.
