(* ===== verification/EngineSnapshot.v ===== *)
(** EngineSnapshot: apps/issuer-simulator/airlockEngine.ts, what [restore] admits
    is the snapshot of the engine it makes. *)
From S2P Require Import Prelude JsString JsMap Host JsTime JsJson Transitions Protocol DeviceKeys ChallengeStore AuditLog Engine.
#[local] Open Scope string_scope.
#[local] Open Scope list_scope.
#[local] Open Scope Z_scope.
#[local] Open Scope js_scope.

(** ** Maps filled from a list *)

(** The entries of [l] under their keys. *)
Definition keyed {V} (key : V -> jstr) (l : list V) : list (jstr * V) := map (fun v => (key v, v)) l.

Lemma keyed_values {V} (key : V -> jstr) l : (keyed key l).*2 = l.
Proof. unfold keyed. induction l as [|v l IH]; cbn; [done|by f_equal]. Qed.
Lemma keyed_get {V} (key : V -> jstr) l k v : map_get k (keyed key l) = Some v -> key v = k /\ v ∈ l.
Proof.
  intros E%map_get_in. unfold keyed in E. apply list_elem_of_In, in_map_iff in E as (x & [= <- <-] & Hx). by rewrite list_elem_of_In.
Qed.

(** A loop that adds each element under a key of its own. *)
Lemma restore_all_appends {A B : Type} (f : A -> list B -> result (list B)) (e : A -> B) l m m' :
  (forall x m m', f x m = Ok m' -> m' = m ++ [e x]) -> restore_all f l m = Ok m' -> m' = m ++ map e l.
Proof.
  intros Hf. revert m. induction l as [|x l IH]; intros m; cbn [restore_all map]; [intros [= <-]; by rewrite app_nil_r|].
  rewrite result_bind_Ok. intros (m1 & ->%Hf & Hr). rewrite (IH _ Hr). by rewrite <- app_assoc.
Qed.

Lemma restoreUnique_appends {V} label key (v : V) m m' : restoreUnique label key v m = Ok m' -> m' = m ++ [(key, v)].
Proof. unfold restoreUnique. rewrite throw_if_bind_Ok. intros [E%map_has_false [= <-]]. by apply map_set_fresh. Qed.

Section engine.
Context `{Host}.

(** Each test of a loop body passed, what is left is the insertion. *)
Ltac passes := repeat lazymatch goal with
  | |- throw_if _ _ ≫= _ = Ok _ -> _ => rewrite throw_if_bind_Ok; intros [_ Hrest]; revert Hrest
  | |- _ ≫= _ = Ok _ -> _ => rewrite result_bind_Ok; intros (? & _ & Hrest); revert Hrest
  end.

Lemma restore_device_appends d m m' : restore_device d m = Ok m' -> m' = m ++ [(td_deviceId d, d)].
Proof. unfold restore_device. passes. apply restoreUnique_appends. Qed.
Lemma restore_token_appends t m m' : restore_token t m = Ok m' -> m' = m ++ [(pt_tokenId t, t)].
Proof. unfold restore_token. passes. apply restoreUnique_appends. Qed.
Lemma restore_request_appends s r m m' : restore_request s r m = Ok m' -> m' = m ++ [(pr_requestId r, r)].
Proof. unfold restore_request. cbv zeta. passes. apply restoreUnique_appends. Qed.
Lemma restore_transaction_appends s t m m' : restore_transaction s t m = Ok m' -> m' = m ++ [(tx_transactionId t, t)].
Proof. unfold restore_transaction. destruct (tx_challenge t); [|done]. passes. apply restoreUnique_appends. Qed.
Lemma restore_spend_appends s p m m' : restore_spend s p m = Ok m' -> m' = m ++ [p].
Proof.
  unfold restore_spend. destruct p as [key amount]. destruct (match lastIndexOf 58 key with Some (S i) => _ | _ => _ end) as [tok day].
  rewrite throw_if_bind_Ok. intros [_ Hr]. revert Hr. rewrite result_bind_Ok. intros (iso & _ & Hr). revert Hr.
  rewrite throw_if_bind_Ok. intros [E [= <-]]. apply orb_false_iff in E as [_ E%map_has_false]. by apply map_set_fresh.
Qed.

Lemma restore_records_appends l s s' : restore_records s l = Ok s' -> s' = s ++ keyed (fun r => challengeId (rec_binding r)) l.
Proof.
  revert s. induction l as [|r l IH]; intros s; cbn [restore_records keyed map]; [intros [= <-]; by rewrite app_nil_r|].
  rewrite result_bind_Ok. intros (s1 & Hr & Hl). rewrite (IH _ Hl). revert Hr. unfold restore_record. cbv zeta.
  rewrite throw_if_bind_Ok. intros [_ Hr]. revert Hr. rewrite result_bind_Ok. intros (_ & _ & Hr). revert Hr.
  rewrite throw_if_bind_Ok. intros [E%map_has_false Hr]. revert Hr.
  rewrite !throw_if_bind_Ok. intros (_ & _ & _ & [= <-]). rewrite map_set_fresh by done. by rewrite <- app_assoc.
Qed.

(** The engine [restore] makes, field by field. *)
Lemma restore_fields es e : restore es = Ok e ->
  es_schemaVersion es = 2 /\ as_schemaVersion (es_audit es) = 1 /\ audit e = as_events (es_audit es) /\
  ss_schemaVersion (es_challenges es) = 1 /\ challenges e = keyed (fun r => challengeId (rec_binding r)) (ss_records (es_challenges es)) /\
  devices e = keyed td_deviceId (es_devices es) /\ tokens e = keyed pt_tokenId (es_tokens es) /\
  provisioning e = keyed pr_requestId (es_provisioning es) /\ transactions e = keyed tx_transactionId (es_transactions es) /\
  dailySpend e = es_dailySpend es.
Proof.
  unfold restore. rewrite throw_if_bind_Ok. intros [Hv Hr]. apply negb_false_iff, Z.eqb_eq in Hv. revert Hr.
  rewrite result_bind_Ok. intros (log & (Hav & <- & _)%restore_Ok_plain & Hr). revert Hr.
  rewrite result_bind_Ok. intros (cs & Hcs & Hr). revert Hr. revert Hcs. unfold ChallengeStore.restore. rewrite throw_if_bind_Ok.
  intros [Hcv%negb_false_iff%Z.eqb_eq Hcs%restore_records_appends].
  rewrite result_bind_Ok. intros (ds & Hds%(restore_all_appends _ (fun d => (td_deviceId d, d)) _ _ _ restore_device_appends) & Hr). revert Hr.
  rewrite result_bind_Ok. intros (ts & Hts%(restore_all_appends _ (fun d => (pt_tokenId d, d)) _ _ _ restore_token_appends) & Hr). revert Hr. cbv zeta.
  rewrite result_bind_Ok. intros (rs & Hrs%(restore_all_appends _ (fun d => (pr_requestId d, d)) _ _ _ (restore_request_appends _)) & Hr). revert Hr.
  rewrite result_bind_Ok. intros (xs & Hxs%(restore_all_appends _ (fun d => (tx_transactionId d, d)) _ _ _ (restore_transaction_appends _)) & Hr). revert Hr.
  rewrite result_bind_Ok. intros (sp & Hsp%(restore_all_appends _ (fun p => p) _ _ _ (restore_spend_appends _)) & Hr). revert Hr.
  rewrite result_bind_Ok. intros (res & _ & Hr). revert Hr.
  rewrite throw_if_bind_Ok. intros [_ [= <-]]. cbn. rewrite map_id in Hsp. by subst.
Qed.

Lemma snapshot_restored es e : restore es = Ok e -> snapshot None e = es.
Proof.
  intros (E1 & E2 & E3 & E4 & E5 & E6 & E7 & E8 & E9 & E10)%restore_fields. unfold snapshot, ChallengeStore.snapshot, AuditLog.snapshot.
  rewrite E3, E5, E6, E7, E8, E9, E10, !keyed_values. destruct es as [v [av aev] [cv crs] ? ? ? ? ?]. cbn in *. by subst.
Qed.
End engine.
