(* ===== verification/LabRequest.v ===== *)
(** LabRequest: apps/realtime-lab/server.ts, what the server reads from a
    request before it touches any state: the client's address, the route, the
    origin, the body, its canonical text and the idempotency key, the amounts
    and names in it; and the reason codes of failures. *)
From S2P Require Import Prelude JsString Host JsJson JsParse AuditLog Url JsNumber RateLimiter.
From S2P Require Import CredentialVerifier AccessToken.
#[local] Open Scope string_scope.
#[local] Open Scope list_scope.
#[local] Open Scope Z_scope.
#[local] Open Scope js_scope.

(** ** Text *)

Fixpoint starts_with (p s : jstr) : bool :=
  match p, s with
  | [], _ => true
  | c :: p, d :: s => (c =? d)%N && starts_with p s
  | _, _ => false
  end.
(** [s.includes(p)] *)
Fixpoint contains (p s : jstr) : bool :=
  starts_with p s || match s with [] => false | _ :: s => contains p s end.
(** [s.toLowerCase()] of Latin-1 text, which header values and addresses are. *)
Definition lower_latin1 (c : N) : N :=
  if is_upper c || (in_range 192 222 c && negb (c =? 215)%N) then (c + 32)%N else c.
Definition toLowerCase (s : jstr) : jstr := map lower_latin1 s.

(** ** Requests *)

(** A header field as Node.js gives it. *)
Inductive HeaderValue : Type := Single (s : jstr) | Several (l : list jstr).

(** The body: its chunks, and the message of the error it ends with, if any. *)
Record Request : Type := {
  method : jstr; pathname : jstr; query : jstr; remoteAddress : option jstr;
  x_forwarded_for : option HeaderValue; sec_fetch_site : option HeaderValue; origin_header : option HeaderValue; host : option jstr;
  h_content_length : option jstr; h_content_type : option jstr; idempotency_key : option HeaderValue; cookie : option jstr;
  authorization : option HeaderValue; x_csrf_token : option HeaderValue;
  chunks : list (list N); stream_error : option jstr;
}.

(** The values thrown, with the fields the server looks at. *)
Inductive Thrown : Type :=
| HttpError (status : Z) (message code : jstr)
| DomainError (code message : jstr)
| PlainError (message : jstr).

Inductive fallible (A : Type) : Type := Fine (a : A) | Threw (e : Thrown).
Arguments Fine {A} a.
Arguments Threw {A} e.
#[global] Instance fallible_bind : MBind fallible := fun A B k m => match m with Fine a => k a | Threw e => Threw e end.
Definition fail_if (b : bool) (e : Thrown) : fallible unit := if b then Threw e else Fine tt.

(** ** Reason codes *)

Definition REASON_CODES : list jstr := map js [
  "RESET"; "PROVISIONING_REQUESTED"; "PROVISIONING_APPROVED"; "DEVICE_REVOKED"; "TRANSACTION_PENDING"; "TRANSACTION_CONFIRMED";
  "TRANSACTION_EXPIRED_REVERSED"; "TRANSACTION_SETTLED"; "CLEARING_AFTER_REVERSAL"; "ATTACK_BLOCKED"; "SECURITY_INVARIANT_FAILED";
  "NOT_FOUND"; "INVALID_CONTENT_LENGTH"; "PAYLOAD_TOO_LARGE"; "UNSUPPORTED_MEDIA_TYPE"; "BODY_REQUIRED"; "MALFORMED_JSON";
  "BODY_NOT_OBJECT"; "CROSS_ORIGIN_REJECTED"; "UNTRUSTED_ORIGIN"; "HOST_REQUIRED"; "INVALID_ORIGIN"; "IDEMPOTENCY_KEY_REQUIRED";
  "IDEMPOTENCY_KEY_INVALID"; "IDEMPOTENCY_KEY_TOO_LONG"; "IDEMPOTENCY_CONFLICT"; "PERSISTENCE_CONFLICT"; "PERSISTENCE_UNAVAILABLE";
  "PROVISIONING_ALREADY_REQUESTED"; "PROVISIONING_REQUIRED"; "PROVISIONING_NOT_PENDING"; "DEVICE_ALREADY_REVOKED"; "TOKEN_NOT_SPENDABLE";
  "TRANSACTION_ALREADY_EXISTS"; "TRANSACTION_REQUIRED"; "TRANSACTION_NOT_PENDING"; "CLEARING_NOT_ALLOWED"; "AMOUNT_REQUIRED";
  "AMOUNT_NON_POSITIVE"; "AMOUNT_FORMAT_INVALID"; "AMOUNT_TOO_LARGE"; "MERCHANT_REQUIRED"; "MERCHANT_INVALID"; "AUDIT_EMPTY";
  "UNKNOWN_DEMONSTRATION"; "CHALLENGE_BINDING_MISMATCH"; "CHALLENGE_EXPIRED"; "CHALLENGE_TERMINAL"; "DEVICE_KEY_MISMATCH";
  "DEVICE_NOT_ACTIVE"; "INVALID_STATE_TRANSITION"; "CAP_EXCEEDED"; "DOMAIN_REJECTED"; "INTERNAL_ERROR"; "RATE_LIMITED";
  "AUTHENTICATION_REQUIRED"; "AUTHENTICATION_FAILED"; "CSRF_INVALID"; "SESSION_LIMIT_REACHED"; "TENANT_FORBIDDEN"; "SERVICE_OVERLOADED"]%string.

Inductive Rule : Type := Is (text : string) | Starts (text : string) | Has (text : string).
Definition rule_holds (m : jstr) (r : Rule) : bool :=
  match r with Is t => m =s? js t | Starts t => starts_with (js t) m | Has t => contains (js t) m end.

(** The rules in the order they are tried: any of a row gives its code. *)
Definition REASON_RULES : list (list Rule * string) := [
  ([Is "not found"], "NOT_FOUND"); ([Is "Invalid Content-Length."], "INVALID_CONTENT_LENGTH");
  ([Starts "Request body exceeds"], "PAYLOAD_TOO_LARGE"); ([Has "Content-Type"; Has "content-type"], "UNSUPPORTED_MEDIA_TYPE");
  ([Is "JSON request body is required."], "BODY_REQUIRED"); ([Is "Malformed JSON request body."], "MALFORMED_JSON");
  ([Is "JSON body must be an object."], "BODY_NOT_OBJECT"); ([Is "Cross-origin mutation request rejected."], "CROSS_ORIGIN_REJECTED");
  ([Is "Untrusted mutation origin rejected."], "UNTRUSTED_ORIGIN"); ([Is "Host header is required."], "HOST_REQUIRED");
  ([Is "Invalid mutation origin rejected."], "INVALID_ORIGIN"); ([Has "Idempotency-Key is required"], "IDEMPOTENCY_KEY_REQUIRED");
  ([Has "Idempotency-Key must not exceed"], "IDEMPOTENCY_KEY_TOO_LONG"); ([Has "Idempotency-Key was already used"], "IDEMPOTENCY_CONFLICT");
  ([Starts "Idempotency-Key must"], "IDEMPOTENCY_KEY_INVALID"); ([Has "Persistent simulator state changed"], "PERSISTENCE_CONFLICT");
  ([Has "durably save"; Has "persistence version"], "PERSISTENCE_UNAVAILABLE");
  ([Has "Provisioning was already requested"], "PROVISIONING_ALREADY_REQUESTED"); ([Is "request provisioning first"], "PROVISIONING_REQUIRED");
  ([Has "Provisioning is no longer waiting"], "PROVISIONING_NOT_PENDING"); ([Has "already revoked"], "DEVICE_ALREADY_REVOKED");
  ([Has "payment token is not spendable"], "TOKEN_NOT_SPENDABLE");
  ([Has "transaction already exists"; Has "transaction id already exists"], "TRANSACTION_ALREADY_EXISTS");
  ([Is "request a transaction first"], "TRANSACTION_REQUIRED"); ([Has "awaiting confirmation"; Has "can be confirmed"], "TRANSACTION_NOT_PENDING");
  ([Has "Clearing can only follow"], "CLEARING_NOT_ALLOWED"); ([Starts "Amount is required"], "AMOUNT_REQUIRED");
  ([Is "Amount must be greater than zero."], "AMOUNT_NON_POSITIVE"); ([Has "finite decimal"], "AMOUNT_FORMAT_INVALID");
  ([Has "safe supported limit"], "AMOUNT_TOO_LARGE"); ([Is "Merchant identifier is required."], "MERCHANT_REQUIRED");
  ([Starts "Merchant identifier must"], "MERCHANT_INVALID"); ([Has "No audit event exists"], "AUDIT_EMPTY");
  ([Is "Unknown security demonstration."], "UNKNOWN_DEMONSTRATION"); ([Has "binding mismatch"], "CHALLENGE_BINDING_MISMATCH");
  ([Has "challenge expired"], "CHALLENGE_EXPIRED"); ([Has "challenge already terminal"], "CHALLENGE_TERMINAL");
  ([Has "key id mismatch"], "DEVICE_KEY_MISMATCH"); ([Has "trusted device is revoked"], "DEVICE_NOT_ACTIVE");
  ([Has "invalid transaction transition"; Has "invalid provisioning transition"], "INVALID_STATE_TRANSITION"); ([Has "cap"], "CAP_EXCEEDED")]%string.

Definition reasonCodeFor (message : jstr) (status : Z) : jstr :=
  match List.find (fun r => existsb (rule_holds message) r.1) REASON_RULES with
  | Some (_, code) => js code
  | None => if 500 <=? status then js "INTERNAL_ERROR" else js "DOMAIN_REJECTED"
  end.

Definition httpError (status : Z) (message : jstr) : Thrown := HttpError status message (reasonCodeFor message status).

Definition ACTION_CODES : list (jstr * string) := [
  (js "reset", "RESET"); (js "provision.request", "PROVISIONING_REQUESTED"); (js "provision.approve", "PROVISIONING_APPROVED");
  (js "device.revoke", "DEVICE_REVOKED"); (js "transaction.request", "TRANSACTION_PENDING"); (js "transaction.confirm", "TRANSACTION_CONFIRMED");
  (js "transaction.expire", "TRANSACTION_EXPIRED_REVERSED"); (js "transaction.clear", "TRANSACTION_SETTLED");
  (js "transaction.clear.exception", "CLEARING_AFTER_REVERSAL"); (js "demonstrate.audit-tamper", "ATTACK_BLOCKED")]%string.

Definition legacyResultCode (action message : jstr) (ok : bool) : jstr :=
  if starts_with "demonstrate." action then js "ATTACK_BLOCKED" else
  match List.find (fun p => p.1 =s? action) ACTION_CODES with
  | Some (_, code) => js code
  | None => reasonCodeFor message (if ok then 200 else 409)
  end.

(** ** The client's address *)

(** [ip.slice(0, ip.indexOf("%"))] when there is one. *)
Fixpoint before (c : N) (s : jstr) : jstr :=
  match s with d :: s => if (d =? c)%N then [] else d :: before c s | [] => [] end.

Definition normalizeIp (raw : jstr) : jstr :=
  let ip := before 37 (toLowerCase (trim raw)) in
  if starts_with "::ffff:" ip && existsb (fun c => (c =? 46)%N) ip then drop 7 ip else ip.

(** The text before the first double colon, and what follows it. *)
Fixpoint split_double (s : jstr) : jstr * option jstr :=
  match s with
  | 58%N :: ((58%N :: r) as s') => ([], Some r)
  | c :: s => let '(h, r) := split_double s in (c :: h, r)
  | [] => ([], None)
  end.

Definition colon_groups (s : jstr) : list jstr := match s with [] => [] | _ => split_at 58 s end.

Definition addressBucketKey (ip : jstr) : jstr :=
  if bool_decide (ip = []) then js "unknown" else
  if existsb (fun c => (c =? 58)%N) ip then
    let '(h, rest) := split_double ip in
    let groups :=
      match rest with
      | Some rest =>
          let t := (split_double rest).1 in
          colon_groups h ++ repeat (js "0") (8 - length (colon_groups h) - length (colon_groups t)) ++ colon_groups t
      | None => split_at 58 ip
      end in
    js "v6:" ++ join ":" (map (fun g => match g with [] => js "0" | _ => g end) (firstn 4 groups)) ++ js "::/64"
  else js "v4:" ++ ip.

Definition header_text (h : option HeaderValue) (sep : jstr) : option jstr :=
  match h with Some (Single s) => Some s | Some (Several l) => Some (join sep l) | None => None end.
Definition single (h : option HeaderValue) : option jstr := match h with Some (Single s) => Some s | _ => None end.

Definition trusted_set (proxies : list jstr) : list jstr := List.filter (fun p => negb (bool_decide (p = []))) (map normalizeIp proxies).

Definition resolveClientKey (req : Request) (trustedProxies : list jstr) : jstr :=
  let peer := normalizeIp (default [] (remoteAddress req)) in
  if negb (includes trustedProxies peer) then addressBucketKey peer else
  match header_text (x_forwarded_for req) "," with
  | Some ((_ :: _) as header) =>
      let chain := List.filter (fun ip => negb (bool_decide (ip = []))) (map normalizeIp (split_at 44 header)) in
      match List.find (fun ip => negb (includes trustedProxies ip)) (reverse chain) with
      | Some ip => addressBucketKey ip
      | None => addressBucketKey peer
      end
  | _ => addressBucketKey peer
  end.

(** ** Routes *)

Record RouteManifestEntry : Type := { label : jstr; path : jstr; isPrefix : bool; methods : list jstr }.
Definition exactRoute (label path : jstr) (methods : list jstr) : RouteManifestEntry :=
  {| label := label; path := path; isPrefix := false; methods := methods |}.
Definition prefixRoute (label prefix : jstr) (methods : list jstr) : RouteManifestEntry :=
  {| label := label; path := prefix; isPrefix := true; methods := methods |}.
Definition matches (e : RouteManifestEntry) (pathname : jstr) : bool :=
  if isPrefix e then starts_with (path e) pathname else pathname =s? path e.

Definition sessionLogin : jstr := "/api/session/login".
Definition sessionCurrent : jstr := "/api/session".
Definition sessionLogout : jstr := "/api/session/logout".
Definition health : jstr := "/api/health".
Definition state_route : jstr := "/api/state".
Definition events : jstr := "/api/events".
Definition reset : jstr := "/api/reset".
Definition provisionRequest : jstr := "/api/provision/request".
Definition provisionAttack : jstr := "/api/provision/attack".
Definition provisionApprove : jstr := "/api/provision/approve".
Definition deviceRevoke : jstr := "/api/device/revoke".
Definition transactionRequest : jstr := "/api/transaction/request".
Definition transactionConfirm : jstr := "/api/transaction/confirm".
Definition transactionExpire : jstr := "/api/transaction/expire".
Definition transactionClear : jstr := "/api/transaction/clear".
Definition auditTamper : jstr := "/api/demonstrate/audit-tamper".
Definition demonstrationPrefix : jstr := "/api/demonstrate/".

Definition GET : jstr := "GET".
Definition HEAD : jstr := "HEAD".
Definition POST : jstr := "POST".

Definition ROUTE_MANIFEST : list RouteManifestEntry := [
  exactRoute "root" "/" [GET; HEAD]; exactRoute "app.js" "/app.js" [GET; HEAD]; exactRoute "styles.css" "/styles.css" [GET; HEAD];
  exactRoute "health" health [GET; HEAD]; exactRoute "sessionLogin" sessionLogin [POST]; exactRoute "sessionCurrent" sessionCurrent [GET; HEAD];
  exactRoute "sessionLogout" sessionLogout [POST]; exactRoute "state" state_route [GET; HEAD]; exactRoute "events" events [GET];
  exactRoute "reset" reset [POST]; exactRoute "provisionRequest" provisionRequest [POST]; exactRoute "provisionAttack" provisionAttack [POST];
  exactRoute "provisionApprove" provisionApprove [POST]; exactRoute "deviceRevoke" deviceRevoke [POST];
  exactRoute "transactionRequest" transactionRequest [POST]; exactRoute "transactionConfirm" transactionConfirm [POST];
  exactRoute "transactionExpire" transactionExpire [POST]; exactRoute "transactionClear" transactionClear [POST];
  exactRoute "auditTamper" auditTamper [POST]; prefixRoute "demonstration" demonstrationPrefix [POST] ].

Definition findRouteManifestEntry (pathname : jstr) : option RouteManifestEntry := List.find (fun e => matches e pathname) ROUTE_MANIFEST.

(** ** Origin and body *)

Definition MAX_REQUEST_BODY_BYTES : Z := 16384.

Section request.
Context `{Host}.

(** [Number(text)] *)
Definition decimal_literal (neg : bool) (t : jstr) : jsnum :=
  let '(d, r) := span_digits t in
  let '(point, f, r) := match r with 46%N :: r => let '(f, r) := span_digits r in (true, f, r) | _ => (false, [], r) end in
  let '(e, r) := match r with
    | c :: r' =>
        if (c =? 101)%N || (c =? 69)%N then
          let '(sign, r'') := match r' with 43%N :: q => ([43%N], q) | 45%N :: q => ([45%N], q) | _ => ([], r') end in
          match span_digits r'' with ([], _) => ([], r) | (x, q) => (c :: sign ++ x, q) end
        else ([], r)
    | [] => ([], r)
    end in
  match d ++ f, r with
  | [], _ | _, _ :: _ => NNaN
  | _, [] =>
      match f, e with
      | [], [] => integer_number (if neg then - Z.of_N (digits_value d) else Z.of_N (digits_value d))
      | _, _ => decimalToNumber ((if neg then [45%N] else []) ++ match d with [] => [48%N] | _ => d end ++
                                 (if point then match f with [] => [] | _ => 46%N :: f end else []) ++ e)
      end
  end.

Definition radix_value (base : N) (s : jstr) : jsnum :=
  match s, fold_left (fun a c => v ← a; d ← hex_digit_value c; if (d <? base)%N then Some (v * base + d)%N else None) s (Some 0%N) with
  | _ :: _, Some n => integer_number (Z.of_N n)
  | _, _ => NNaN
  end.

Definition to_number (text : jstr) : jsnum :=
  match trim text with
  | [] => NInt 0
  | 48%N :: c :: r =>
      if (c =? 120)%N || (c =? 88)%N then radix_value 16 r
      else if (c =? 111)%N || (c =? 79)%N then radix_value 8 r
      else if (c =? 98)%N || (c =? 66)%N then radix_value 2 r
      else decimal_literal false (48%N :: c :: r)
  | c :: r =>
      let '(neg, t) := if (c =? 45)%N then (true, r) else if (c =? 43)%N then (false, r) else (false, c :: r) in
      if t =s? "Infinity" then NInf neg else decimal_literal neg t
  end.

Definition enforceMutationSource `{UrlParser} (req : Request) : fallible unit :=
  fail_if (match single (sec_fetch_site req) with Some site => negb (site =s? "same-origin") && negb (site =s? "none") | None => false end)
    (HttpError 403 "Cross-origin mutation request rejected." "CROSS_ORIGIN_REJECTED") ≫= fun _ =>
  match origin_header req with
  | None => Fine tt
  | Some (Several _) => Threw (HttpError 403 "Untrusted mutation origin rejected." "UNTRUSTED_ORIGIN")
  | Some (Single origin) =>
      fail_if (origin =s? "null") (HttpError 403 "Untrusted mutation origin rejected." "UNTRUSTED_ORIGIN") ≫= fun _ =>
      match host req with
      | None | Some [] => Threw (HttpError 400 "Host header is required." "HOST_REQUIRED")
      | Some host =>
          match url_parse origin with
          | Some parsed =>
              fail_if (negb (origin =s? Url.origin parsed) || negb (protocol parsed =s? "http:"))
                (HttpError 403 "Invalid mutation origin rejected." "INVALID_ORIGIN") ≫= fun _ =>
              fail_if (negb (Url.origin parsed =s? js "http://" ++ host))
                (HttpError 403 "Cross-origin mutation request rejected." "CROSS_ORIGIN_REJECTED")
          | None => Threw (HttpError 403 "Invalid mutation origin rejected." "INVALID_ORIGIN")
          end
      end
  end.

Definition too_large : Thrown :=
  HttpError 413 (js "Request body exceeds " ++ decimal_Z MAX_REQUEST_BODY_BYTES ++ js " bytes.") "PAYLOAD_TOO_LARGE".

(** [for await (const chunk of req) { ... }] *)
Fixpoint read_body (total : Z) (chunks : list (list N)) (error : option jstr) : fallible (list N) :=
  match chunks with
  | [] => match error with None => Fine [] | Some e => Threw (PlainError e) end
  | chunk :: chunks =>
      let total := total + len chunk in
      if MAX_REQUEST_BODY_BYTES <? total then Threw too_large
      else read_body total chunks error ≫= fun rest => Fine (chunk ++ rest)
  end.

Definition readBoundedBody (req : Request) : fallible (list N) :=
  (match h_content_length req with
   | None => Fine tt
   | Some declared =>
       match to_number declared with
       | NInt length =>
           fail_if (negb (safe_int length) || (length <? 0)) (HttpError 400 "Invalid Content-Length." "INVALID_CONTENT_LENGTH") ≫= fun _ =>
           fail_if (MAX_REQUEST_BODY_BYTES <? length) too_large
       | _ => Threw (HttpError 400 "Invalid Content-Length." "INVALID_CONTENT_LENGTH")
       end
   end) ≫= fun _ =>
  read_body 0 (chunks req) (stream_error req).

(** [header?.split(";", 1)[0]?.trim().toLowerCase() === "application/json"] *)
Definition is_json (req : Request) : bool := bool_decide (media_type <$> h_content_type req = Some (js "application/json")).

(** An object, as [JSON.parse] gives it. *)
Definition parse_object (body : list N) : fallible jsval :=
  match json_parse (utf8_decode body) with
  | Throw _ => Threw (HttpError 400 "Malformed JSON request body." "MALFORMED_JSON")
  | Ok (JObj props) => Fine (JObj props)
  | Ok _ => Threw (HttpError 400 "JSON body must be an object." "BODY_NOT_OBJECT")
  end.

Definition parseJsonBody (req : Request) (body : list N) : fallible jsval :=
  fail_if (negb (is_json req)) (HttpError 415 "Content-Type must be application/json." "UNSUPPORTED_MEDIA_TYPE") ≫= fun _ =>
  fail_if (bool_decide (body = [])) (HttpError 400 "JSON request body is required." "BODY_REQUIRED") ≫= fun _ =>
  parse_object body.

Definition parseAmountMinor (value : jsval) : fallible Z :=
  match value with
  | JStr text =>
      let input := trim text in
      let '(whole, rest) := span_digits (match input with 45%N :: r => r | _ => input end) in
      let negative := match input with 45%N :: _ => true | _ => false end in
      let fraction := match rest with 46%N :: r => if forallb is_digit r then Some r else None | _ => None end in
      let decimals := match rest with [] => Some [] | _ => match fraction with Some [] => None | f => f end end in
      fail_if (negative && negb (bool_decide (whole = [])) && bool_decide (is_Some decimals)) (DomainError "AMOUNT_NON_POSITIVE" "Amount must be greater than zero.") ≫= fun _ =>
      let canonical := match whole with [] => false | [_] => true | c :: _ => negb (c =? 48)%N end in
      match decimals with
      | Some f =>
          fail_if (negative || negb canonical || (2 <? len f))
            (DomainError "AMOUNT_FORMAT_INVALID" "Amount must be a finite decimal with no more than two fractional digits.") ≫= fun _ =>
          let minor := Z.of_N (digits_value whole) * 100 + Z.of_N (digits_value (f ++ repeat 48%N (2 - length f))) in
          fail_if (minor <=? 0) (DomainError "AMOUNT_NON_POSITIVE" "Amount must be greater than zero.") ≫= fun _ =>
          fail_if (MAX_SAFE_INTEGER <? minor) (DomainError "AMOUNT_TOO_LARGE" "Amount exceeds the safe supported limit.") ≫= fun _ =>
          Fine minor
      | None => Threw (DomainError "AMOUNT_FORMAT_INVALID" "Amount must be a finite decimal with no more than two fractional digits.")
      end
  | _ => Threw (DomainError "AMOUNT_REQUIRED" "Amount is required in decimal form, for example 25.00.")
  end.

Definition parseMerchantId (value : jsval) : fallible jstr :=
  match value with
  | JStr text =>
      let merchantId := trim text in
      fail_if (bool_decide (merchantId = [])) (DomainError "MERCHANT_REQUIRED" "Merchant identifier is required.") ≫= fun _ =>
      fail_if (negb (id_pattern_max 63 merchantId))
        (DomainError "MERCHANT_INVALID" (js "Merchant identifier must be 1" ++ [8211%N] ++
           js "64 letters, numbers, dots, colons, underscores, or hyphens.")) ≫= fun _ =>
      Fine merchantId
  | _ => Threw (DomainError "MERCHANT_REQUIRED" "Merchant identifier is required.")
  end.

(** ** Idempotency *)

(** [stableJson(value)]; [None] where it throws, which it does on [undefined]. *)
Fixpoint stableJson (value : jsval) : option jstr :=
  match value with
  | JArr l => l ← mapM stableJson l; Some (js "[" ++ join "," l ++ js "]")
  | JObj props =>
      props ← mapM (fun p => t ← stableJson p.2; Some (p.1, t)) props;
      Some (js "{" ++ join "," (map (fun p => json_quote p.1 ++ js ":" ++ p.2) (sort_props props)) ++ js "}")
  | v => json_stringify v
  end.

Definition canonicalMutationBody (req : Request) (body : list N) : fallible jstr :=
  if bool_decide (body = []) then Fine (js "{}") else
  fail_if (negb (is_json req)) (HttpError 415 "Mutation bodies must use Content-Type application/json." "UNSUPPORTED_MEDIA_TYPE") ≫= fun _ =>
  parse_object body ≫= fun value =>
  match stableJson value with
  | Some text => Fine text
  | None => Threw (HttpError 400 "JSON value is not canonicalizable." "BODY_NOT_OBJECT")
  end.

Record RequestIdempotency : Type := { key : jstr; requestHash : jstr }.
Definition MAX_IDEMPOTENCY_KEY_LENGTH : Z := 128.

Definition requestIdempotency (req : Request) (path canonicalBody : jstr) (required : bool) : fallible (option RequestIdempotency) :=
  match idempotency_key req with
  | None =>
      fail_if required (HttpError 428 "Idempotency-Key is required for persistent mutating requests." "IDEMPOTENCY_KEY_REQUIRED") ≫= fun _ =>
      Fine None
  | Some (Several _) => Threw (HttpError 400 "Idempotency-Key must be a single header value." "IDEMPOTENCY_KEY_INVALID")
  | Some (Single header) =>
      fail_if (MAX_IDEMPOTENCY_KEY_LENGTH <? len header)
        (HttpError 431 (js "Idempotency-Key must not exceed " ++ decimal_Z MAX_IDEMPOTENCY_KEY_LENGTH ++ js " characters.") "IDEMPOTENCY_KEY_TOO_LONG") ≫= fun _ =>
      fail_if (negb (id_pattern_max (length header) header))
        (HttpError 400 "Idempotency-Key must use only letters, numbers, dots, underscores, colons, or hyphens." "IDEMPOTENCY_KEY_INVALID") ≫= fun _ =>
      Fine (Some {| key := header; requestHash := sha256Hex (utf8_encode (js "POST" ++ [10%N] ++ path ++ [10%N] ++ canonicalBody)) |})
  end.
End request.

(** ** Credentials of a request *)

(** [decodeURIComponent(s)]: the bytes of each run of escapes are UTF-8. *)
Definition flush (bytes : list N) : option jstr :=
  let text := utf8_decode bytes in if bool_decide (utf8_encode text = bytes) then Some text else None.
Fixpoint decode_escapes (s : jstr) (bytes : list N) : option jstr :=
  match s with
  | [] => flush bytes
  | 37%N :: a :: b :: r => x ← hex_digit_value a; y ← hex_digit_value b; decode_escapes r (bytes ++ [x * 16 + y]%N)
  | 37%N :: _ => None
  | c :: r => text ← flush bytes; rest ← decode_escapes r []; Some (text ++ c :: rest)
  end.
Definition decodeURIComponent (s : jstr) : option jstr := decode_escapes s [].

(** Name and value of [name=value]. *)
Fixpoint split_equals (s : jstr) : option (jstr * jstr) :=
  match s with
  | [] => None
  | c :: r => if (c =? 61)%N then Some ([], r) else '(a, b) ← split_equals r; Some (c :: a, b)
  end.
Definition cookieValue (req : Request) (name : jstr) : option jstr :=
  pair ← List.find (fun pair => match split_equals pair with Some (n, _) => trim n =s? name | None => false end)
           (split_at 59 (default [] (cookie req)));
  '(_, value) ← split_equals pair;
  decodeURIComponent (trim value).

(** [/^Bearer ([!-~]{32,4096})$/] *)
Definition bearerToken (req : Request) : option jstr :=
  match single (authorization req) with
  | Some value =>
      let token := drop 7 value in
      if starts_with "Bearer " value && (32 <=? len token) && (len token <=? 4096) && forallb (in_range 33 126) token then Some token else None
  | None => None
  end.

(** ** Settings of the process *)

Definition DEFAULT_BUILD_ID : jstr := "development-unversioned".

Definition parseBuildId (raw : option jstr) : result jstr :=
  match trim (default [] raw) with
  | [] => Ok DEFAULT_BUILD_ID
  | c :: r =>
      if is_alnum c && forallb (fun c => is_alnum c || (c =? 46)%N || (c =? 95)%N || (c =? 45)%N) r && (len r <=? 63) then Ok (c :: r)
      else Throw "AIRLOCK_BUILD_ID must be 1-64 characters: letters, digits, dot, underscore, or hyphen"
  end.

(** [None] is the default limit, [Some None] no limit. *)
Definition parseRateLimitEnv `{Host} (raw : option jstr) : result (option (option RateLimitConfig)) :=
  let value := toLowerCase (trim (default [] raw)) in
  if bool_decide (value = []) then Ok None else
  if (value =s? "off") || (value =s? "disabled") || (value =s? "0") then Ok (Some None) else
  let parts := split_at 58 value in
  let capacity := match parts !! 0%nat with Some p => to_number p | None => NNaN end in
  let refillPerSecond := match parts !! 1%nat with Some p => to_number p | None => NNaN end in
  let maxClients := match parts !! 2%nat with Some p => to_number p | None => maxClients DEFAULT_RATE_LIMIT end in
  if negb (is_num capacity) || num_less capacity (NInt 1) || negb (is_num refillPerSecond) || num_least refillPerSecond (NInt 0) ||
     match maxClients with NInt n => n <? 1 | _ => true end
  then Throw (js "AIRLOCK_RATE_LIMIT must be " ++ [34%N] ++ js "capacity:refillPerSecond[:maxClients]" ++ [34%N] ++ js " or " ++ [34%N] ++ js "off" ++ [34%N])
  else Ok (Some (Some {| capacity := capacity; refillPerSecond := refillPerSecond; maxClients := maxClients |})).
