(* ===== verification/LabIdentity.v ===== *)
(** LabIdentity: what identifies a mutation and its client in
    apps/realtime-lab/server.ts.  The canonical text of a body determines its
    value up to the order of members, so the request hash stored with an
    idempotency key determines the request; and the address a client is limited
    by is not one it can choose. *)
From S2P Require Import Prelude JsString Host JsJson JsParse IsoOrder Url CredentialVerifier TestHost LabRequest.
#[local] Open Scope string_scope.
#[local] Open Scope list_scope.
#[local] Open Scope js_scope.

(** ** Values up to the order of members *)

Inductive same_value : jsval -> jsval -> Prop :=
| same_scalar v : (forall l, v <> JArr l) -> (forall l, v <> JObj l) -> same_value v v
| same_array l l' : Forall2 same_value l l' -> same_value (JArr l) (JArr l')
| same_object ps qs qs' : Permutation ps qs -> Forall2 (fun p q => p.1 = q.1 /\ same_value p.2 q.2) qs qs' -> same_value (JObj ps) (JObj qs').

(** The value with the members of its objects in order. *)
Fixpoint normal (v : jsval) : jsval :=
  match v with
  | JArr l => JArr (map normal l)
  | JObj ps => JObj (sort_props (map (fun p => (p.1, normal p.2)) ps))
  | v => v
  end.

Section sorting.
Context {A : Type}.
Implicit Types (p q : jstr * A) (l : list (jstr * A)).

Lemma insert_prop_perm p l : Permutation (insert_prop p l) (p :: l).
Proof. induction l as [|q l IH]; cbn; [done|]. destruct (jstr_le _ _); [done|]. rewrite IH. apply Permutation_swap. Qed.
Lemma sort_props_perm l : Permutation (sort_props l) l.
Proof. induction l as [|p l IH]; cbn; [done|]. by rewrite insert_prop_perm, IH. Qed.

Lemma insert_prop_comm p q l : p.1 <> q.1 -> insert_prop p (insert_prop q l) = insert_prop q (insert_prop p l).
Proof.
  intros Hne. induction l as [|r l IH]; cbn.
  - destruct (jstr_le p.1 q.1) eqn:E1, (jstr_le q.1 p.1) eqn:E2; try done.
    + by destruct Hne; apply jstr_le_antisym.
    + apply jstr_le_total in E1. congruence.
  - destruct (jstr_le p.1 r.1) eqn:Ep, (jstr_le q.1 r.1) eqn:Eq; cbn; rewrite ?Ep, ?Eq.
    + destruct (jstr_le p.1 q.1) eqn:E1, (jstr_le q.1 p.1) eqn:E2; try done.
      * by destruct Hne; apply jstr_le_antisym.
      * apply jstr_le_total in E1. congruence.
    + destruct (jstr_le q.1 p.1) eqn:E2; [|done]. rewrite (jstr_le_trans _ _ _ E2 Ep) in Eq. done.
    + destruct (jstr_le p.1 q.1) eqn:E2; [|done]. rewrite (jstr_le_trans _ _ _ E2 Eq) in Ep. done.
    + by rewrite IH.
Qed.

Lemma sort_props_unique l l' : Permutation l l' -> NoDup l.*1 -> sort_props l = sort_props l'.
Proof.
  unfold sort_props. induction 1 as [|p l l' Hp IH|p q l|l1 l2 l3 H1 IH1 H2 IH2]; cbn; intros Hd; [done|..].
  - apply NoDup_cons in Hd as [_ Hd]. by rewrite IH.
  - apply NoDup_cons in Hd as [Hd _]. apply insert_prop_comm. intros E. apply Hd. cbn. rewrite E. left.
  - rewrite IH1 by done. apply IH2. by rewrite <- H1.
Qed.

Lemma insert_prop_map {B} (f : A -> B) p l :
  insert_prop (p.1, f p.2) (map (fun p => (p.1, f p.2)) l) = map (fun p => (p.1, f p.2)) (insert_prop p l).
Proof. induction l as [|q l IH]; cbn; [done|]. destruct (jstr_le p.1 q.1); cbn; [done|]. by rewrite IH. Qed.
Lemma sort_props_map {B} (f : A -> B) l : sort_props (map (fun p => (p.1, f p.2)) l) = map (fun p => (p.1, f p.2)) (sort_props l).
Proof. unfold sort_props. induction l as [|p l IH]; cbn [map foldr]; [done|]. rewrite IH. apply insert_prop_map. Qed.
End sorting.

Lemma fst_map {A B} (f : A -> B) (l : list (jstr * A)) : (map (fun p => (p.1, f p.2)) l).*1 = l.*1.
Proof. rewrite <- list_fmap_compose. by apply list_fmap_ext. Qed.

Section canonical.
Context `{Host}.

Lemma normal_clean v : json_clean v -> json_clean (normal v).
Proof.
  induction v as [| | | | |l IH|l IH] using jsval_nested_ind; intros Hv; try done.
  - cbn [normal]. rewrite json_clean_arr in *. apply Forall_map. rewrite Forall_forall in *. auto.
  - cbn [normal]. rewrite json_clean_obj in *. destruct Hv as [Hd Hv]. rewrite !sort_props_perm, fst_map.
    split; [done|]. apply Forall_map. rewrite Forall_forall in *. intros p Hp. destruct (Hv _ Hp). split; [done|by apply IH].
Qed.

Lemma clean_stable v : json_clean v -> stableJson v = Some (value_text (normal v)).
Proof.
  induction v as [| |b|n|s|l IH|l IH] using jsval_nested_ind; intros Hv; try done.
  - rewrite json_clean_arr in Hv. cbn [stableJson normal].
    assert (E : mapM stableJson l = Some (map (fun v => value_text (normal v)) l)).
    { clear -IH Hv. induction l as [|v l IHl]; [done|]. apply Forall_cons in IH as [Hh IH], Hv as [Hw Hv].
      cbn. by rewrite Hh, IHl. }
    rewrite E. cbn [mbind option_bind]. rewrite array_text by (apply json_clean_arr; apply (normal_clean (JArr l)); by apply json_clean_arr).
    by rewrite map_map.
  - pose proof (normal_clean _ Hv) as Hn. cbn [normal] in *. rewrite json_clean_obj in Hv, Hn. destruct Hv as [_ Hv]. cbn [stableJson].
    assert (E : mapM (fun p => t ← stableJson p.2; Some (p.1, t)) l = Some (map (fun p => (p.1, value_text (normal p.2))) l)).
    { clear -IH Hv. induction l as [|p l IHl]; [done|]. apply Forall_cons in IH as [Hh IH], Hv as [[_ Hw] Hv].
      cbn [mapM]. rewrite Hh by done. cbn. by rewrite IHl. }
    refine (eq_trans (f_equal (mbind _) E) _). cbn [mbind option_bind]. rewrite object_text by apply Hn. do 4 f_equal.
    rewrite (sort_props_map normal).
    rewrite (sort_props_map (fun v => value_text (normal v)) l), !map_map. done.
Qed.

Lemma stable_injective v w : json_clean v -> json_clean w -> stableJson v = stableJson w -> normal v = normal w.
Proof.
  intros Hv Hw E. rewrite !clean_stable in E by done. injection E as E.
  pose proof (json_parse_stringify _ _ (normal_clean v Hv) (clean_text _ (normal_clean v Hv))) as Ev.
  pose proof (json_parse_stringify _ _ (normal_clean w Hw) (clean_text _ (normal_clean w Hw))) as Ew.
  rewrite E, Ew in Ev. by injection Ev.
Qed.
End canonical.

Lemma normal_same v w : normal v = normal w -> same_value v w.
Proof.
  revert w. induction v as [| |b|n|s|l IH|l IH] using jsval_nested_ind; intros w E;
    try (destruct w; try discriminate E; cbn in E; rewrite ?E; by apply same_scalar).
  - destruct w as [| | | | |l'|]; try done. injection E as E. apply same_array. revert l' E.
    induction IH as [|v l Hv IH IHl]; intros [|v' l'] E; try done. injection E as E1 E2. constructor; auto.
  - destruct w as [| | | | | |l']; try done. injection E as E.
    assert (Hp : Permutation (map (fun p => (p.1, normal p.2)) l') (map (fun p => (p.1, normal p.2)) l)).
    { by rewrite <- (sort_props_perm (map _ l')), <- E, sort_props_perm. }
    apply Permutation_map_inv in Hp as (qs & Em & Hp). apply (same_object _ qs); [done|].
    assert (IH' : Forall (fun p => forall w, normal p.2 = normal w -> same_value p.2 w) qs) by (by rewrite <- Hp).
    clear -IH' Em. revert l' Em. induction IH' as [|p qs Hp IH' IHq]; intros [|q l'] Em; try done.
    injection Em as E1 E2 E3. constructor; [|by apply IHq]. split; [done|by apply Hp].
Qed.

Lemma same_normal v w : json_clean v -> same_value v w -> normal v = normal w.
Proof.
  revert w. induction v as [| |b|n|s|l IH|l IH] using jsval_nested_ind; intros w Hv E; inversion E as [v' N1 N2|? l' Hl|? qs qs' Hp Hq]; subst; try done.
  - cbn. f_equal. rewrite json_clean_arr in Hv. clear E. induction Hl as [|a b l l' Hab Hl IHl]; [done|].
    apply Forall_cons in IH as [Ha IH], Hv as [Hc Hv]. cbn. f_equal; auto.
  - cbn. f_equal. rewrite json_clean_obj in Hv. destruct Hv as [Hd Hv].
    rewrite (sort_props_unique (map _ l) (map (fun p => (p.1, normal p.2)) qs)); [|by apply Permutation_map|by rewrite fst_map].
    f_equal. rewrite Hp in IH, Hv. clear -IH Hv Hq. induction Hq as [|p q qs qs' [E1 E2] Hq IHq]; [done|].
    apply Forall_cons in IH as [Ha IH], Hv as [[_ Hc] Hv]. cbn. rewrite E1. f_equal; [by f_equal; apply Ha|auto].
Qed.

(** A mutation of a browser on the server's own page. *)
Definition sample_mutation : Request := {|
  method := POST; pathname := transactionRequest; query := []; remoteAddress := Some (js "::ffff:10.0.0.1"); x_forwarded_for := None;
  sec_fetch_site := Some (Single "same-origin"); origin_header := None; host := Some (js "127.0.0.1:8788"); h_content_length := None;
  h_content_type := Some (js "application/json"); idempotency_key := Some (Single "key-1"); cookie := None; authorization := None;
  x_csrf_token := None; chunks := []; stream_error := None |}.

(** ** Requests by their hash *)

(** The value a mutation's body stands for; an empty body is the empty object. *)
Definition mutation_value `{Host} (body : list N) : fallible jsval :=
  if bool_decide (body = []) then Fine (JObj []) else parse_object body.

(** What the hash of a request is taken of. *)
Definition request_text (path canonicalBody : jstr) : jstr := js "POST" ++ [10%N] ++ path ++ [10%N] ++ canonicalBody.

Lemma fail_if_Fine {B} b e (k : unit -> fallible B) r : (fail_if b e ≫= k) = Fine r <-> b = false /\ k tt = Fine r.
Proof. destruct b; cbn; [by split; [|intros []]|]. by split; [|intros []]. Qed.

Lemma line_split (p p' t t' : jstr) : 10%N ∉ p -> 10%N ∉ p' -> p ++ 10%N :: t = p' ++ 10%N :: t' -> p = p' /\ t = t'.
Proof.
  revert p'. induction p as [|c p IH]; intros [|c' p'] Hp Hp' E; cbn in E.
  - by injection E.
  - injection E as <- _. by destruct Hp'; left.
  - injection E as -> _. by destruct Hp; left.
  - injection E as <- E. apply not_elem_of_cons in Hp as [_ Hp], Hp' as [_ Hp']. destruct (IH p' Hp Hp' E) as [-> ->]. done.
Qed.

Section hashes.
Context `{HostLaws}.

Lemma canonical_value req body v text : mutation_value body = Fine v -> json_clean v -> canonicalMutationBody req body = Fine text ->
  text = value_text (normal v).
Proof.
  unfold mutation_value, canonicalMutationBody. destruct (bool_decide _) eqn:Eb; intros Ev Hv.
  - injection Ev as <-. by intros [= <-].
  - rewrite fail_if_Fine, Ev. cbn [mbind fallible_bind]. rewrite clean_stable by done. by intros [_ [= <-]].
Qed.

Lemma idempotency_hash req path text required i : requestIdempotency req path text required = Fine (Some i) ->
  requestHash i = sha256Hex (utf8_encode (request_text path text)).
Proof.
  unfold requestIdempotency. destruct (idempotency_key req) as [[header|l]|]; [|done|by rewrite fail_if_Fine; intros [_ ?]].
  rewrite !fail_if_Fine. by intros (_ & _ & [= <-]).
Qed.

Lemma good_encode_inj s t : good_text s -> good_text t -> utf8_encode s = utf8_encode t -> s = t.
Proof. intros [] []. by apply utf8_encode_inj. Qed.

Lemma request_text_good path text : good_text path -> good_text text -> good_text (request_text path text).
Proof.
  intros Hp Ht. assert (Hn : good_text [10%N]) by by apply good_text_small; repeat constructor.
  unfold request_text. repeat apply good_text_app; try done. apply good_text_small. by repeat constructor.
Qed.

Definition identify (req : Request) (body : list N) (path : jstr) (required : bool) : fallible (option RequestIdempotency) :=
  canonicalMutationBody req body ≫= fun text => requestIdempotency req path text required.

Lemma identify_hash req body path required v i : mutation_value body = Fine v -> json_clean v -> identify req body path required = Fine (Some i) ->
  requestHash i = sha256Hex (utf8_encode (request_text path (value_text (normal v)))).
Proof.
  unfold identify. intros Ev Hv Ei. destruct (canonicalMutationBody req body) as [text|e] eqn:Et; [|done].
  rewrite (canonical_value _ _ _ _ Ev Hv Et) in Ei. by apply idempotency_hash in Ei.
Qed.

(** C23: The hash stored with an idempotency key identifies the request: two
    accepted mutations, on well-formed paths without line feeds and with bodies
    that JSON keeps as they are (numbers that are integers of at most 2^53,
    well-formed strings, distinct member names), have the same hash exactly when
    they are on the same path and their bodies are the same JSON value up to the
    order of members, unless SHA-256 collides on the two. *)
Theorem request_hash_identifies req req' body body' path path' required required' v v' i i' :
  mutation_value body = Fine v -> json_clean v -> mutation_value body' = Fine v' -> json_clean v' ->
  good_text path -> 10%N ∉ path -> good_text path' -> 10%N ∉ path' ->
  identify req body path required = Fine (Some i) -> identify req' body' path' required' = Fine (Some i') ->
  (let text := utf8_encode (request_text path (value_text (normal v))) in
   let text' := utf8_encode (request_text path' (value_text (normal v'))) in sha256 text = sha256 text' -> text = text') ->
  (requestHash i = requestHash i' <-> path = path' /\ same_value v v').
Proof.
  intros Ev Hv Ev' Hv' Gp Np Gp' Np' Ei Ei' Hc. cbn zeta in Hc.
  rewrite (identify_hash _ _ _ _ _ _ Ev Hv Ei), (identify_hash _ _ _ _ _ _ Ev' Hv' Ei'). split.
  - intros E%hexEncode_inj; [|apply sha256_bytes..]. apply Hc in E.
    apply good_encode_inj in E; [|apply request_text_good; [done|by apply clean_text_good, normal_clean]..].
    unfold request_text in E. apply app_inv_head, (app_inv_head [10%N]), line_split in E as [-> E]; [|done..].
    split; [done|]. apply normal_same, stable_injective; [done..|]. rewrite !clean_stable by done. by rewrite E.
  - intros [-> Hs]. by rewrite (same_normal _ _ Hv Hs).
Qed.
End hashes.

Definition quoted_text (s : string) : jstr := map (fun c => if (c =? 39)%N then 34%N else c) (js s).
Definition sample_body : list N := utf8_encode (quoted_text "{'amount':'25.00','merchantId':'m-1'}").
Definition reordered_body : list N := utf8_encode (quoted_text "{ 'merchantId':'m-1', 'amount':'25.00' }").
Definition sample_value : jsval := JObj [(js "amount", JStr "25.00"); (js "merchantId", JStr "m-1")].
Definition reordered_value : jsval := JObj [(js "merchantId", JStr "m-1"); (js "amount", JStr "25.00")].
Definition sample_key : RequestIdempotency :=
  {| key := "key-1"; requestHash := sha256Hex (H := test_host) (utf8_encode (request_text transactionRequest (value_text (H := test_host) sample_value))) |}.

Lemma sample_value_clean : json_clean sample_value /\ json_clean reordered_value.
Proof.
  split; apply json_clean_obj; (split; [eapply bool_decide_eq_true_1; vm_compute; reflexivity|]); repeat constructor; apply good_text_small; repeat constructor.
Qed.
Lemma sample_path : good_text transactionRequest /\ 10%N ∉ transactionRequest.
Proof. split; [apply good_text_small; repeat constructor|]. eapply bool_decide_eq_true_1. vm_compute. reflexivity. Qed.

Lemma request_hash_identifies_witness :
  identify (H := test_host) sample_mutation sample_body transactionRequest true = Fine (Some sample_key) /\
  identify (H := test_host) sample_mutation reordered_body transactionRequest true = Fine (Some sample_key) /\
  (requestHash sample_key = requestHash sample_key <-> transactionRequest = transactionRequest /\ same_value sample_value reordered_value).
Proof.
  split; [vm_compute; reflexivity|]. split; [vm_compute; reflexivity|].
  refine (request_hash_identifies (H := test_host) (H0 := test_host_laws) sample_mutation sample_mutation sample_body reordered_body
    transactionRequest transactionRequest true true sample_value reordered_value sample_key sample_key
    _ (proj1 sample_value_clean) _ (proj2 sample_value_clean) (proj1 sample_path) (proj2 sample_path) (proj1 sample_path) (proj2 sample_path) _ _ _).
  - vm_compute. reflexivity.
  - vm_compute. reflexivity.
  - vm_compute. reflexivity.
  - vm_compute. reflexivity.
  - intros text text' _. subst text text'. vm_compute. reflexivity.
Defined.

(** A number past the doubles is read as an infinity and hashed as null: its body
    is taken for another one. *)
Definition infinite_body : list N := utf8_encode (quoted_text "{'a':1" ++ repeat 48%N 400 ++ quoted_text "}").
Definition null_body : list N := utf8_encode (quoted_text "{'a':null}").
Example infinite_number_hashed_as_null :
  mutation_value (H := test_host) infinite_body = Fine (JObj [(js "a", JNum (NInf false))]) /\
  mutation_value (H := test_host) null_body = Fine (JObj [(js "a", JNull)]) /\
  canonicalMutationBody (H := test_host) sample_mutation infinite_body = canonicalMutationBody (H := test_host) sample_mutation null_body.
Proof. by vm_compute. Qed.

(** ** Addresses *)

Lemma split_at_app c a b : split_at c (a ++ c :: b) = split_at c a ++ split_at c b.
Proof.
  induction a as [|d a IH]; cbn; [by rewrite N.eqb_refl|]. rewrite IH. destruct (d =? c)%N; [done|].
  destruct (split_at c a) as [|l ls] eqn:E; [|done]. exfalso. clear -E. destruct a as [|e a]; [done|]. cbn in E.
  destruct (e =? c)%N; [done|]. by destruct (split_at c a).
Qed.
Lemma split_at_none c a : c ∉ a -> split_at c a = [a].
Proof.
  induction a as [|d a IH]; cbn; intros Hn; [done|]. apply not_elem_of_cons in Hn as [Hd Hn]. rewrite IH by done.
  destruct (N.eqb_spec d c); [congruence|done].
Qed.

(** C24: The address a client is limited by is not one it can choose: the headers
    of a peer that is not a trusted proxy do not matter, and behind one the
    address the proxy added at the end counts, whatever the client put before. *)
Theorem client_address_not_chosen trusted :
  (forall req req', remoteAddress req = remoteAddress req' -> normalizeIp (default [] (remoteAddress req)) ∉ trusted ->
     resolveClientKey req trusted = resolveClientKey req' trusted) /\
  (forall req spoofed seen, x_forwarded_for req = Some (Single (spoofed ++ 44%N :: seen)) ->
     normalizeIp (default [] (remoteAddress req)) ∈ trusted -> 44%N ∉ seen -> normalizeIp seen <> [] -> normalizeIp seen ∉ trusted ->
     resolveClientKey req trusted = addressBucketKey (normalizeIp seen)).
Proof.
  assert (Hn : forall ip, ip ∉ trusted -> includes trusted ip = false) by (intros ip Hi; by apply bool_decide_eq_false_2).
  split; unfold resolveClientKey.
  - intros req req' Er Hi. rewrite <- Er, Hn by done. done.
  - intros req spoofed seen Ef Hp Hc Hs Ht. rewrite includes_in by done. rewrite Ef. cbn [negb header_text].
    destruct (spoofed ++ 44%N :: seen) as [|c r] eqn:Ea; [by destruct spoofed|]. rewrite <- Ea, split_at_app, (split_at_none _ seen) by done.
    rewrite map_app, List.filter_app, reverse_app. cbn [map List.filter].
    rewrite bool_decide_false by done. cbn [negb reverse rev_append List.find app]. by rewrite Hn.
Qed.

(** A request of a peer, with what it claims to forward. *)
Definition forwarding (peer claim : jstr) : Request := {|
  method := POST; pathname := transactionRequest; query := []; remoteAddress := Some peer; x_forwarded_for := Some (Single claim);
  sec_fetch_site := None; origin_header := None; host := None; h_content_length := None; h_content_type := None;
  idempotency_key := None; cookie := None; authorization := None; x_csrf_token := None; chunks := []; stream_error := None |}.

Lemma client_address_not_chosen_witness :
  resolveClientKey (forwarding "10.0.0.9" "1.1.1.1") [js "10.0.0.1"] = resolveClientKey (forwarding "10.0.0.9" "2.2.2.2") [js "10.0.0.1"] /\
  resolveClientKey (forwarding "10.0.0.1" "1.1.1.1, 203.0.113.9") [js "10.0.0.1"] = addressBucketKey (normalizeIp " 203.0.113.9").
Proof.
  split.
  - apply (proj1 (client_address_not_chosen [js "10.0.0.1"])); [reflexivity|]. eapply bool_decide_eq_true_1. vm_compute. reflexivity.
  - apply (proj2 (client_address_not_chosen [js "10.0.0.1"]) _ (js "1.1.1.1") (js " 203.0.113.9")); [reflexivity| | |discriminate|];
      eapply bool_decide_eq_true_1; vm_compute; reflexivity.
Defined.
