(* ===== verification/LabState.v ===== *)
(** LabState: apps/realtime-lab/server.ts, the demonstration the server holds:
    an issuer engine with one enrolled device, the request and the transaction
    under way and the last result; its snapshots, what of it is public, and what
    each mutating route does to it.  A route that throws leaves the changes made
    before; putting the state back is the server's part. *)
From S2P Require Import Prelude JsString JsMap Host JsTime JsJson Transitions Protocol DeviceKeys ChallengeStore AuditLog Engine LabRequest.
#[local] Open Scope string_scope.
#[local] Open Scope list_scope.
#[local] Open Scope Z_scope.
#[local] Open Scope js_scope.

Definition SIMULATOR_KEY_WARNING : jstr :=
  "SIMULATOR ONLY: contains a synthetic exportable private key; never use this storage pattern for production device keys.".
Definition subjectId : jstr := "demo-subject-001".
Definition accountId : jstr := "demo-account-001".
Definition deviceId : jstr := "00000000-0000-4000-8000-000000000001".
Definition tokenId : jstr := "synthetic-token-001".

(** ** State *)

Record Demonstration : Type := { name : jstr; blocked : bool; dm_message : jstr; auditCopyValid : option bool }.
Record LastResult : Type := { lr_ok : bool; outcome : jstr; code : jstr; lr_action : jstr; lr_message : jstr; at_ : jstr }.

Record LabState : Type := {
  engine : AirlockEngine; keys : DeviceKeyPair; provisioning : option ProvisioningRequest; transaction : option TransactionRecord;
  demonstration : option Demonstration; lastResult : LastResult;
}.

Definition set_engine v s := {| engine := v; keys := keys s; provisioning := provisioning s; transaction := transaction s;
  demonstration := demonstration s; lastResult := lastResult s |}.
Definition set_provisioning v s := {| engine := engine s; keys := keys s; provisioning := Some v; transaction := transaction s;
  demonstration := demonstration s; lastResult := lastResult s |}.
Definition set_transaction v s := {| engine := engine s; keys := keys s; provisioning := provisioning s; transaction := Some v;
  demonstration := demonstration s; lastResult := lastResult s |}.
Definition set_demonstration v s := {| engine := engine s; keys := keys s; provisioning := provisioning s; transaction := transaction s;
  demonstration := Some v; lastResult := lastResult s |}.
Definition set_lastResult v s := {| engine := engine s; keys := keys s; provisioning := provisioning s; transaction := transaction s;
  demonstration := demonstration s; lastResult := v |}.

(** A result stored by version 1 of the schema has no code. *)
Record StoredResult : Type := { sr_ok : bool; sr_outcome : jstr; sr_code : option jstr; sr_action : jstr; sr_message : jstr; sr_at : jstr }.

Record PersistedLabSnapshot : Type := {
  schemaVersion : Z; simulatorOnly : bool; keyMaterialWarning : jstr; ps_engine : AirlockEngineSnapshot; ps_keys : DeviceKeyPair;
  provisioningRequestId : option jstr; ps_transactionId : option jstr; ps_demonstration : option Demonstration; ps_lastResult : StoredResult;
}.

(** What a request draws from its environment: for every call of the engine, for
    every date and for every key pair, in the order of the call sites. *)
Record Draw : Type := {
  calls : nat -> Env; dates : nat -> Date; key_pairs : nat -> jstr -> DeviceKeyPair; uuids : nat -> jstr; millis : Z;
}.

(** ** Snapshots *)

(** The SPKI export of a public key. *)
Class PemExport := export_pem : KeyObject -> jstr.

Section state.
Context `{Host, PemExport}.

(** [freshState()]; [i] tells its calls from those of others. *)
Definition freshState (d : Draw) (i : nat) : result LabState :=
  let keys := key_pairs d i "demo-p256-key" in
  let '(r, engine) := enrollTrustedDevice None subjectId {| ek_keyId := dk_keyId keys; ek_algorithm := dk_algorithm keys; ek_publicKeyPem := dk_publicKeyPem keys |}
                        (Some deviceId) (calls d i) {| audit := []; challenges := []; devices := []; tokens := []; Engine.provisioning := [];
                          transactions := []; dailySpend := [] |} in
  r ≫= fun _ =>
  toISOString (dates d i) ≫= fun at_ =>
  Ok {| engine := engine; keys := keys; provisioning := None; transaction := None; demonstration := None;
        lastResult := {| lr_ok := true; outcome := "accepted"; code := "RESET"; lr_action := "reset";
                         lr_message := "Synthetic trusted device enrolled. No payment network was contacted."; at_ := at_ |} |}.

Definition stored_result (r : LastResult) : StoredResult :=
  {| sr_ok := lr_ok r; sr_outcome := outcome r; sr_code := Some (code r); sr_action := lr_action r; sr_message := lr_message r; sr_at := at_ r |}.

Definition snapshotLabState (s : LabState) : PersistedLabSnapshot :=
  {| schemaVersion := 2; simulatorOnly := true; keyMaterialWarning := SIMULATOR_KEY_WARNING; ps_engine := Engine.snapshot None (engine s);
     ps_keys := keys s; provisioningRequestId := pr_requestId <$> provisioning s; ps_transactionId := tx_transactionId <$> transaction s;
     ps_demonstration := demonstration s; ps_lastResult := stored_result (lastResult s) |}.

(** A pointer that is neither missing nor empty. *)
Definition pointer (o : option jstr) : option jstr := match o with Some [] => None | o => o end.

Definition restoreLabState (p : PersistedLabSnapshot) : result LabState :=
  let r := ps_lastResult p in
  let code := match sr_code r with Some c => c | None => legacyResultCode (sr_action r) (sr_message r) (sr_ok r) end in
  throw_if (negb ((schemaVersion p =? 1) || (schemaVersion p =? 2)) || negb (simulatorOnly p) ||
            negb (keyMaterialWarning p =s? SIMULATOR_KEY_WARNING)) "invalid realtime-lab simulator snapshot" ≫= fun _ =>
  throw_if (negb (includes REASON_CODES code)) "invalid realtime-lab simulator snapshot" ≫= fun _ =>
  match createPrivateKey (privateKeyPem (ps_keys p)) with
  | Throw _ => Throw "invalid realtime-lab simulator key material"
  | Ok key =>
      throw_if (negb (export_pem (publicHalf key) =s? dk_publicKeyPem (ps_keys p))) "realtime-lab simulator key pair mismatch" ≫= fun _ =>
      Engine.restore (ps_engine p) ≫= fun engine =>
      throw_if (match getDevice deviceId engine with
                | Some d => negb (td_keyId d =s? dk_keyId (ps_keys p)) || negb (td_publicKeyPem d =s? dk_publicKeyPem (ps_keys p))
                | None => true end) "realtime-lab simulator key does not match restored device" ≫= fun _ =>
      let provisioning := id ← pointer (provisioningRequestId p); List.find (fun r => pr_requestId r =s? id) (es_provisioning (ps_engine p)) in
      throw_if (match pointer (provisioningRequestId p), provisioning with Some _, None => true | _, _ => false end)
        "realtime-lab provisioning pointer is invalid" ≫= fun _ =>
      let transaction := id ← pointer (ps_transactionId p); getTransaction id engine in
      throw_if (match pointer (ps_transactionId p), transaction with Some _, None => true | _, _ => false end)
        "realtime-lab transaction pointer is invalid" ≫= fun _ =>
      Ok {| engine := engine; keys := ps_keys p; provisioning := provisioning; transaction := transaction; demonstration := ps_demonstration p;
            lastResult := {| lr_ok := sr_ok r; outcome := sr_outcome r; code := code; lr_action := sr_action r; lr_message := sr_message r; at_ := sr_at r |} |}
  end.

(** ** The audit copy *)

Definition copy_body (e : AuditEvent) : jsval :=
  match event_body e, authentication e with
  | JObj props, Some a => JObj (props ++ [(js "authentication", JObj [
      (js "algorithm", JStr (algorithm a)); (js "keyId", JStr (keyId a)); (js "keyVersion", JNum (NInt (keyVersion a)));
      (js "previousAuthenticationTag", JStr (previousAuthenticationTag a)); (js "tag", JStr (tag a))])])
  | v, _ => v
  end.

Fixpoint verify_copy (previous : jstr) (l : list AuditEvent) : bool :=
  match l with
  | [] => true
  | e :: l => (previousHash e =s? previous) && (digest (copy_body e) =s? hash e) && verify_copy (hash e) l
  end.
Definition verifyAuditCopy (l : list AuditEvent) : bool := verify_copy "GENESIS" l.

(** ** The public part *)

Record PublicDevice : Type := { pd_deviceId : jstr; pd_subjectId : jstr; pd_keyId : jstr; pd_status : DeviceStatus }.
Record Confirmation : Type := {
  cf_amountMinor : option Z; cf_currency : option jstr; cf_merchantId : option jstr; cf_paymentTokenId : jstr; cf_trustedDeviceId : jstr;
  cf_challengeId : jstr; cf_expiresAt : jstr;
}.
Record Actions : Type := {
  can_requestProvisioning : bool; can_attackProvisioning : bool; can_approveProvisioning : bool; can_revokeDevice : bool; can_requestTransaction : bool;
  can_confirmTransaction : bool; can_expireTransaction : bool; can_receiveClearing : bool; can_negativeBinding : bool;
}.
Record PublicState : Type := {
  pub_device : option PublicDevice; pub_token : option PaymentToken; pub_provisioning : option ProvisioningRequest; pub_transaction : option TransactionRecord;
  pub_confirmation : option Confirmation; pub_actions : Actions; pub_audit_valid : bool; pub_events : list AuditEvent;
  pub_demonstration : option Demonstration; pub_lastResult : LastResult;
}.

Definition confirmation_of (t : TransactionRecord) : option Confirmation :=
  (fun c => {| cf_amountMinor := Protocol.amountMinor c; cf_currency := currency c; cf_merchantId := Protocol.merchantId c; cf_paymentTokenId := paymentTokenId c;
               cf_trustedDeviceId := Protocol.trustedDeviceId c; cf_challengeId := challengeId c; cf_expiresAt := expiresAt c |}) <$> tx_challenge t.

Definition device_active (e : AirlockEngine) : bool := match getDevice deviceId e with Some d => bool_decide (td_status d = d_active) | None => false end.
Definition spendable (e : AirlockEngine) : bool :=
  match getToken tokenId e with Some t => bool_decide (pt_state t = t_active_capped \/ pt_state t = t_active_full) | None => false end.

Definition publicSnapshot (s : LabState) : result PublicState :=
  let e := engine s in
  let transaction := t ← transaction s; getTransaction (tx_transactionId t) e in
  let waiting := match provisioning s with Some p => bool_decide (pr_state p = trusted_device_challenge) | None => false end in
  let pending := match transaction with Some t => bool_decide (tx_state t = confirmation_pending) | None => false end in
  AuditLog.verify None (audit e) ≫= fun valid =>
  Ok {| pub_device := (fun d => {| pd_deviceId := td_deviceId d; pd_subjectId := td_subjectId d; pd_keyId := td_keyId d; pd_status := td_status d |}) <$> getDevice deviceId e;
        pub_token := getToken tokenId e; pub_provisioning := provisioning s; pub_transaction := transaction;
        pub_confirmation := t ← transaction; confirmation_of t;
        pub_actions := {|
          can_requestProvisioning := bool_decide (provisioning s = None) && device_active e; can_attackProvisioning := waiting;
          can_approveProvisioning := waiting && device_active e; can_revokeDevice := device_active e;
          can_requestTransaction := spendable e && device_active e && bool_decide (transaction = None);
          can_confirmTransaction := pending && device_active e; can_expireTransaction := pending;
          can_receiveClearing := match transaction with Some t => bool_decide (tx_state t = confirmed \/ tx_state t = reversed) | None => false end;
          can_negativeBinding := pending && device_active e |};
        pub_audit_valid := valid; pub_events := audit e; pub_demonstration := demonstration s; pub_lastResult := lastResult s |}.
End state.
