(* ===== verification/LabRoutes.v ===== *)
(** LabRoutes: apps/realtime-lab/server.ts, what each mutating route does to the
    state of the demonstration: the calls it makes of the engine, in order, and
    the result it leaves. *)
From S2P Require Import Prelude JsString JsMap Host JsTime JsJson Transitions Protocol DeviceKeys ChallengeStore AuditLog Engine LabRequest LabState.
#[local] Open Scope string_scope.
#[local] Open Scope list_scope.
#[local] Open Scope Z_scope.
#[local] Open Scope js_scope.

(** A step on the state that may throw; what it did before stays done. *)
Definition Act (A : Type) : Type := LabState -> fallible A * LabState.
#[global] Instance act_ret : MRet Act := fun A a s => (Fine a, s).
#[global] Instance act_bind : MBind Act := fun A B k m s => match m s with (Fine a, s) => k a s | (Threw e, s) => (Threw e, s) end.
Definition get_state : Act LabState := fun s => (Fine s, s).
Definition change (f : LabState -> LabState) : Act unit := fun s => (Fine tt, f s).
Definition fails {A} (e : Thrown) : Act A := fun s => (Threw e, s).
Definition check {A} (r : fallible A) : Act A := fun s => (r, s).
Definition demand (b : bool) (message : jstr) : Act unit := check (fail_if (negb b) (PlainError message)).
Definition plain {A} (r : result A) : fallible A := match r with Ok a => Fine a | Throw e => Threw (PlainError e) end.
(** [try { m } catch (error) { h }] *)
Definition catching {A} (m : Act A) (h : Thrown -> Act A) : Act A := fun s => match m s with (Threw e, s) => h e s | r => r end.
(** A call of the engine. *)
Definition calling {A} (m : St AirlockEngine A) : Act A := fun s => let '(r, e) := m (engine s) in (plain r, set_engine e s).

Definition message_of (e : Thrown) : jstr := match e with HttpError _ m _ | DomainError _ m | PlainError m => m end.

Section routes.
Context `{Host, PemExport}.
(** The test options: a fault after an action, and the check of the audit copy. *)
Variable faultInjector : jstr -> option jstr.
Variable auditCopyVerifier : list AuditEvent -> bool.
Variable d : Draw.

Definition record_result (ok : bool) (outcome action message code : jstr) : Act unit :=
  check (plain (toISOString (dates d 2))) ≫= fun at_ =>
  change (set_lastResult {| lr_ok := ok; outcome := outcome; code := code; lr_action := action; lr_message := message; at_ := at_ |}).
Definition inject (action : jstr) : Act unit :=
  match faultInjector action with Some message => fails (PlainError message) | None => mret tt end.
Definition succeed (action message code : jstr) : Act unit := record_result true "accepted" action message code ≫= fun _ => inject action.
Definition warn (action message code : jstr) : Act unit := record_result false "warning" action message code ≫= fun _ => inject action.

Definition authorize_input (transactionId merchantId : jstr) (amountMinor : Z) : AuthorizeInput :=
  {| ai_transactionId := transactionId; ai_tokenId := tokenId; ai_merchantId := merchantId; ai_amountMinor := NInt amountMinor;
     ai_strategy := "pre_authorization_step_up"; ai_trustedDeviceId := deviceId; ai_now := None |}.

(** A binding signed with the enrolled key, or with another. *)
Definition sign_with (ks : DeviceKeyPair) (binding : ChallengeBinding) : Act SignedApproval :=
  check (plain (signApproval binding (dk_keyId ks) (privateKeyPem ks) APPROVAL_ALGORITHM)).

Definition reset_lab : Act Z := fun s => match freshState d 1 with Ok s' => (Fine 200, s') | Throw e => (Threw (PlainError e), s) end.

Definition provision_request : Act Z :=
  get_state ≫= fun s =>
  demand (bool_decide (provisioning s = None)) "Provisioning was already requested. Reset the lab to start a new request." ≫= fun _ =>
  calling (requestProvisioning None {| pi_subjectId := subjectId; pi_accountId := accountId; pi_tokenId := tokenId;
             pi_trustedDeviceId := deviceId; pi_capMinor := NInt 5000; pi_now := None |} (calls d 2)) ≫= fun r =>
  change (set_provisioning r) ≫= fun _ =>
  succeed "provision.request" "Provisioning challenge issued to the trusted device." "PROVISIONING_REQUESTED" ≫= fun _ =>
  mret 200.

Definition provision_attack : Act Z :=
  get_state ≫= fun s =>
  demand (bool_decide (is_Some (provisioning s))) "request provisioning first" ≫= fun _ =>
  calling (authorize None (authorize_input (js "blocked-" ++ uuids d 0) "synthetic-gift-card-store" 4999) (calls d 2)) ≫= fun _ =>
  fails (PlainError "unexpected: pending token became spendable").

Definition provision_approve : Act Z :=
  get_state ≫= fun s =>
  match provisioning s with
  | None => fails (PlainError "request provisioning first")
  | Some p =>
      demand (bool_decide (pr_state p = trusted_device_challenge)) "Provisioning is no longer waiting for approval." ≫= fun _ =>
      sign_with (keys s) (pr_challenge p) ≫= fun approval =>
      calling (approveProvisioning None (pr_requestId p) approval None "full" (calls d 2)) ≫= fun r =>
      change (set_provisioning r) ≫= fun _ =>
      succeed "provision.approve" "Exact challenge binding signed with the enrolled P-256 key." "PROVISIONING_APPROVED" ≫= fun _ =>
      mret 200
  end.

Definition device_revoke : Act Z :=
  get_state ≫= fun s =>
  demand (device_active (engine s)) "Trusted device is already revoked." ≫= fun _ =>
  calling (revokeTrustedDevice None deviceId None (calls d 2)) ≫= fun _ =>
  succeed "device.revoke" "Trusted device revoked; outstanding approvals now fail closed." "DEVICE_REVOKED" ≫= fun _ =>
  mret 200.

Definition transaction_request (req : Request) (body : list N) : Act Z :=
  check (parseJsonBody req body) ≫= fun value =>
  get_state ≫= fun s =>
  demand (bool_decide (transaction s = None)) "A transaction already exists. Reset the lab to start another." ≫= fun _ =>
  check (parseMerchantId (CredentialVerifier.member "merchantId" value)) ≫= fun merchantId =>
  check (parseAmountMinor (CredentialVerifier.member "amount" value)) ≫= fun amountMinor =>
  calling (authorize None (authorize_input (js "synthetic-tx-" ++ decimal_Z (millis d)) merchantId amountMinor) (calls d 2)) ≫= fun t =>
  change (set_transaction t) ≫= fun _ =>
  succeed "transaction.request" "Transaction is pending exact trusted-device confirmation." "TRANSACTION_PENDING" ≫= fun _ =>
  mret 200.

(** The transaction and its challenge. *)
Definition challenged (s : LabState) : option (TransactionRecord * ChallengeBinding) :=
  t ← transaction s; c ← tx_challenge t; Some (t, c).

Definition transaction_confirm : Act Z :=
  get_state ≫= fun s =>
  match challenged s with
  | None => fails (PlainError "request a transaction first")
  | Some (t, c) =>
      demand (bool_decide (tx_state t = confirmation_pending)) "Only a transaction awaiting confirmation can be confirmed." ≫= fun _ =>
      sign_with (keys s) c ≫= fun approval =>
      calling (confirmTransaction None (tx_transactionId t) approval None (calls d 2)) ≫= fun t =>
      change (set_transaction t) ≫= fun _ =>
      succeed "transaction.confirm" "Amount, merchant, token, device, nonce, and expiry binding verified." "TRANSACTION_CONFIRMED" ≫= fun _ =>
      mret 200
  end.

Definition transaction_expire : Act Z :=
  get_state ≫= fun s =>
  match transaction s with
  | None => fails (PlainError "request a transaction first")
  | Some t =>
      demand (bool_decide (tx_state t = confirmation_pending)) "Only a transaction awaiting confirmation can time out." ≫= fun _ =>
      calling (expireAndReverse None (tx_transactionId t) None (calls d 2)) ≫= fun t =>
      change (set_transaction t) ≫= fun _ =>
      succeed "transaction.expire" "Confirmation timed out; reversal requested and recorded." "TRANSACTION_EXPIRED_REVERSED" ≫= fun _ =>
      mret 200
  end.

Definition transaction_clear : Act Z :=
  get_state ≫= fun s =>
  match transaction s with
  | None => fails (PlainError "request a transaction first")
  | Some t =>
      demand (bool_decide (tx_state t = confirmed \/ tx_state t = reversed)) "Clearing can only follow confirmation or reversal in this demonstration." ≫= fun _ =>
      calling (receiveClearing None (tx_transactionId t) None (calls d 2)) ≫= fun t =>
      change (set_transaction t) ≫= fun _ =>
      (if bool_decide (tx_state t = exception)
       then warn "transaction.clear.exception" "Exception detected: clearing arrived after reversal. Partner reconciliation is required; settlement prevention is not claimed." "CLEARING_AFTER_REVERSAL"
       else succeed "transaction.clear" "Synthetic clearing received; transaction settled." "TRANSACTION_SETTLED") ≫= fun _ =>
      mret 200
  end.

(** [{ ...payload, tampered: true }] of the first event of a copy. *)
Definition tamper (l : list AuditEvent) : list AuditEvent :=
  match l with
  | [] => []
  | e :: l =>
      {| sequence := sequence e; eventId := eventId e; AuditLog.type := AuditLog.type e; correlationId := correlationId e; causationId := causationId e;
         occurredAt := occurredAt e;
         payload := match payload e with JObj props => JObj (map_set (js "tampered") (JBool true) props) | _ => JObj [(js "tampered", JBool true)] end;
         previousHash := previousHash e; hash := hash e; authentication := authentication e |} :: l
  end.

(** [engine.audit.append(...)] by the server itself. *)
Definition audit_attack (correlationId : jstr) (props : list (jstr * jsval)) : Act unit :=
  calling (on_audit (AuditLog.append None "security.attack_blocked" correlationId (JObj props) (dates d 3) None (uuids d 1))) ≫= fun _ => mret tt.

Definition audit_tamper : Act Z :=
  get_state ≫= fun s =>
  demand (bool_decide (audit (engine s) <> [])) "No audit event exists to tamper with." ≫= fun _ =>
  let detected := negb (auditCopyVerifier (tamper (audit (engine s)))) in
  let message := if detected then js "Modified audit payload invalidated the hash chain." else js "Tampering was not detected." in
  change (set_demonstration {| name := "audit-tamper"; blocked := detected; dm_message := message; auditCopyValid := Some (negb detected) |}) ≫= fun _ =>
  audit_attack "audit-copy" [(js "attack", JStr "audit-tamper"); (js "reason", JStr message); (js "authoritativeAuditModified", JBool false)] ≫= fun _ =>
  record_result false "blocked" "demonstrate.audit-tamper" (js "Attack blocked: " ++ message ++ js " The authoritative audit remains valid.")
    (if detected then js "ATTACK_BLOCKED" else js "SECURITY_INVARIANT_FAILED") ≫= fun _ =>
  mret (if detected then 200 else 500).

(** *** Attacks on the pending transaction *)

Definition set_amount (v : option Z) (b : ChallengeBinding) : ChallengeBinding :=
  {| protocolVersion := protocolVersion b; purpose := purpose b; challengeId := challengeId b; Protocol.subjectId := Protocol.subjectId b;
     Protocol.accountId := Protocol.accountId b; paymentTokenId := paymentTokenId b; trustedDeviceId := trustedDeviceId b; transactionId := transactionId b;
     merchantId := merchantId b; amountMinor := v; currency := currency b; issuedAt := issuedAt b; expiresAt := expiresAt b; audience := audience b |}.
Definition set_merchant (v : option jstr) (b : ChallengeBinding) : ChallengeBinding :=
  {| protocolVersion := protocolVersion b; purpose := purpose b; challengeId := challengeId b; Protocol.subjectId := Protocol.subjectId b;
     Protocol.accountId := Protocol.accountId b; paymentTokenId := paymentTokenId b; trustedDeviceId := trustedDeviceId b; transactionId := transactionId b;
     merchantId := v; amountMinor := amountMinor b; currency := currency b; issuedAt := issuedAt b; expiresAt := expiresAt b; audience := audience b |}.
Definition set_nonce (v : jstr) (b : ChallengeBinding) : ChallengeBinding :=
  {| protocolVersion := protocolVersion b; purpose := purpose b; challengeId := v; Protocol.subjectId := Protocol.subjectId b;
     Protocol.accountId := Protocol.accountId b; paymentTokenId := paymentTokenId b; trustedDeviceId := trustedDeviceId b; transactionId := transactionId b;
     merchantId := merchantId b; amountMinor := amountMinor b; currency := currency b; issuedAt := issuedAt b; expiresAt := expiresAt b; audience := audience b |}.
Definition set_device (v : jstr) (b : ChallengeBinding) : ChallengeBinding :=
  {| protocolVersion := protocolVersion b; purpose := purpose b; challengeId := challengeId b; Protocol.subjectId := Protocol.subjectId b;
     Protocol.accountId := Protocol.accountId b; paymentTokenId := paymentTokenId b; trustedDeviceId := v; transactionId := transactionId b;
     merchantId := merchantId b; amountMinor := amountMinor b; currency := currency b; issuedAt := issuedAt b; expiresAt := expiresAt b; audience := audience b |}.

(** The altered binding of an attack on the binding. *)
Definition altered (attack : jstr) (b : ChallengeBinding) : option ChallengeBinding :=
  if attack =s? "altered-amount" then Some (set_amount (Some (num_add (default 0 (amountMinor b)) 1)) b)
  else if attack =s? "altered-merchant" then Some (set_merchant (Some (default (js "undefined") (merchantId b) ++ js "-altered")) b)
  else if attack =s? "modified-nonce" then Some (set_nonce (uuids d 0) b)
  else if attack =s? "wrong-device" then Some (set_device "substituted-device" b)
  else None.

(** The body of the [try]: an attack always throws. *)
Definition run_attack (attack : jstr) (t : TransactionRecord) (original : ChallengeBinding) : Act unit :=
  get_state ≫= fun s =>
  let confirm approval now e := calling (confirmTransaction None (tx_transactionId t) approval now e) in
  match altered attack original with
  | Some binding => sign_with (keys s) binding ≫= fun approval => confirm approval None (calls d 2) ≫= fun _ => mret tt
  | None =>
      if attack =s? "wrong-key" then
        sign_with (key_pairs d 2 "wrong-demo-key") original ≫= fun approval => confirm approval None (calls d 2) ≫= fun _ => mret tt
      else if attack =s? "expired-challenge" then
        let expiry := date_parse (expiresAt original) in
        calling (expireAndReverse None (tx_transactionId t) (Some expiry) (calls d 2)) ≫= fun t =>
        change (set_transaction t) ≫= fun _ =>
        sign_with (keys s) original ≫= fun approval => confirm approval (Some expiry) (calls d 3) ≫= fun _ => mret tt
      else if attack =s? "reused-signature" then
        sign_with (keys s) original ≫= fun approval =>
        confirm approval None (calls d 2) ≫= fun t =>
        change (set_transaction t) ≫= fun _ =>
        confirm approval None (calls d 3) ≫= fun _ => mret tt
      else fails (PlainError "Unknown security demonstration.")
  end ≫= fun _ =>
  fails (PlainError "Unexpected: the attack was accepted.").

Definition attack_blocked (attack : jstr) (e : Thrown) : Act unit :=
  let message := message_of e in
  if starts_with "Unexpected:" message then fails e else
  get_state ≫= fun s =>
  match transaction s with
  | None => fails (PlainError "Cannot read properties of undefined")
  | Some t => audit_attack (tx_transactionId t) [(js "attack", JStr attack); (js "reason", JStr message)]
  end ≫= fun _ =>
  change (set_demonstration {| name := attack; blocked := true; dm_message := message; auditCopyValid := None |}) ≫= fun _ =>
  record_result false "blocked" (js "demonstrate." ++ attack) (js "Attack blocked: " ++ message) "ATTACK_BLOCKED".

Definition demonstrate (attack : jstr) : Act Z :=
  get_state ≫= fun s =>
  match challenged s with
  | Some (t, original) =>
      demand (bool_decide (tx_state t = confirmation_pending)) "Request a pending transaction before running a binding attack." ≫= fun _ =>
      catching (run_attack attack t original) (attack_blocked attack) ≫= fun _ =>
      mret 200
  | None => fails (PlainError "Request a pending transaction before running a binding attack.")
  end.

(** The route of a mutation; the ones the server does not know are left to the
    static files. *)
Definition mutate (req : Request) (body : list N) : option (Act Z) :=
  let p := pathname req in
  if p =s? reset then Some reset_lab
  else if p =s? provisionRequest then Some provision_request
  else if p =s? provisionAttack then Some provision_attack
  else if p =s? provisionApprove then Some provision_approve
  else if p =s? deviceRevoke then Some device_revoke
  else if p =s? transactionRequest then Some (transaction_request req body)
  else if p =s? transactionConfirm then Some transaction_confirm
  else if p =s? transactionExpire then Some transaction_expire
  else if p =s? transactionClear then Some transaction_clear
  else if p =s? auditTamper then Some audit_tamper
  else if starts_with demonstrationPrefix p then Some (demonstrate (drop (length demonstrationPrefix) p))
  else None.
End routes.
