(* ===== verification/LabServer.v ===== *)
(** LabServer: apps/realtime-lab/server.ts, the request handler.  It runs without
    a break from the arrival of a request to the body read or the token
    verification it awaits, and from there to its answer; between the two other
    requests are handled.  The state of the demonstration is one variable: in
    authenticated mode it is bound to the tenant of the request at hand, and
    with a database it is saved, together with the answer, under the request's
    idempotency key. *)
From S2P Require Import Prelude JsString JsMap Host JsTime JsJson JsNumber Url DeviceKeys AuditLog Engine SessionBoundary RateLimiter AccessToken.
From S2P Require Import LabRequest LabState LabRoutes.
#[local] Open Scope string_scope.
#[local] Open Scope list_scope.
#[local] Open Scope Z_scope.
#[local] Open Scope js_scope.

(** ** Answers *)

Inductive Body : Type :=
| StateBody (s : PublicState)
| ErrorBody (code error : jstr)
| ErrorStateBody (code error : jstr) (s : PublicState)
| SessionBody (principal : AuthenticatedPrincipal) (csrfToken : option jstr) (expiresAt : jsnum)
| LoggedOutBody
| HealthBody
| AssetBody (name : jstr).

Record PersistedHttpResponse : Type := { status : Z; body : Body }.

Inductive Reply : Type :=
| Answered (r : PersistedHttpResponse)
| AllowOnly (methods : list jstr)
| RetryAfter (seconds : jsnum)
| LoggedIn (session : AuthenticatedSession)
| Streaming (first : PublicState)
| Unhandled (message : jstr).

(** The exceptions the handler tells apart. *)
Inductive Exn : Type :=
| Plain (e : Thrown)
| PersistenceError (status : Z) (message code : jstr) (authoritativeState : option LabState).

(** ** The database *)

Definition LAB_SNAPSHOT_STATUS : jstr := "active".

(** The snapshot record and the recorded answers of packages/storage's store, as
    the server uses it; a call may throw. *)
Class LabStore (S : Type) := {
  (** The status, the version and the value of the snapshot. *)
  store_get : S -> result (option (jstr * Z * PersistedLabSnapshot));
  store_create : PersistedLabSnapshot -> St S Z;
  store_swap : Z -> PersistedLabSnapshot -> St S Z;
  (** What the operation captured is [None] where an answer is replayed. *)
  store_run : forall A, jstr -> jstr -> St S (A * PersistedHttpResponse) -> St S (option A * PersistedHttpResponse);
  store_getIdempotent : jstr -> jstr -> S -> result (option PersistedHttpResponse);
}.

(** ** State *)

Record SseLimitConfig : Type := { maxPerClient : Z; maxTotal : Z }.
Record SseListener : Type := { l_id : nat; l_clientKey : jstr; l_tenantId : jstr }.

Record Access : Type := { allowedOrigins : list jstr; oidc : bool }.
Record LabOptions : Type := {
  access : option Access; trustedProxies : list jstr; sseLimit : option SseLimitConfig;
  faultInjector : jstr -> option jstr; auditCopyVerifier : list AuditEvent -> bool;
}.

Record LabServer (S : Type) : Type := {
  state : LabState; tenantStates : list (jstr * LabState); persistentStore : option S; persistedVersion : option Z;
  sessions : SessionBoundary; limiter : option MutationRateLimiter; database_ready : bool; identityProvider_ready : bool;
  listeners : list SseListener; ssePerClient : list (jstr * Z); sent : list (nat * PublicState);
}.
Arguments state {S} l.
Arguments tenantStates {S} l.
Arguments persistentStore {S} l.
Arguments persistedVersion {S} l.
Arguments sessions {S} l.
Arguments limiter {S} l.
Arguments database_ready {S} l.
Arguments identityProvider_ready {S} l.
Arguments listeners {S} l.
Arguments ssePerClient {S} l.
Arguments sent {S} l.

(** What a request draws: see [LabState.Draw]; its session; the clock. *)
Record Draws : Type := { lab : LabState.Draw; session_draw : SessionBoundary.Draw; now : Z }.

Section server.
Context `{Host, PemExport, UrlParser}.
Context {S : Type} `{LabStore S}.
Variable o : LabOptions.

Abbreviation Server := (LabServer S).

Definition set_state v (g : Server) : Server := {| state := v; tenantStates := tenantStates g; persistentStore := persistentStore g;
  persistedVersion := persistedVersion g; sessions := sessions g; limiter := limiter g; database_ready := database_ready g;
  identityProvider_ready := identityProvider_ready g; listeners := listeners g; ssePerClient := ssePerClient g; sent := sent g |}.
Definition set_tenantStates v (g : Server) : Server := {| state := state g; tenantStates := v; persistentStore := persistentStore g;
  persistedVersion := persistedVersion g; sessions := sessions g; limiter := limiter g; database_ready := database_ready g;
  identityProvider_ready := identityProvider_ready g; listeners := listeners g; ssePerClient := ssePerClient g; sent := sent g |}.
Definition set_store s v (g : Server) : Server := {| state := state g; tenantStates := tenantStates g; persistentStore := Some s;
  persistedVersion := v; sessions := sessions g; limiter := limiter g; database_ready := database_ready g;
  identityProvider_ready := identityProvider_ready g; listeners := listeners g; ssePerClient := ssePerClient g; sent := sent g |}.
Definition set_sessions v (g : Server) : Server := {| state := state g; tenantStates := tenantStates g; persistentStore := persistentStore g;
  persistedVersion := persistedVersion g; sessions := v; limiter := limiter g; database_ready := database_ready g;
  identityProvider_ready := identityProvider_ready g; listeners := listeners g; ssePerClient := ssePerClient g; sent := sent g |}.
Definition set_limiter v (g : Server) : Server := {| state := state g; tenantStates := tenantStates g; persistentStore := persistentStore g;
  persistedVersion := persistedVersion g; sessions := sessions g; limiter := v; database_ready := database_ready g;
  identityProvider_ready := identityProvider_ready g; listeners := listeners g; ssePerClient := ssePerClient g; sent := sent g |}.
Definition set_ready db idp (g : Server) : Server := {| state := state g; tenantStates := tenantStates g; persistentStore := persistentStore g;
  persistedVersion := persistedVersion g; sessions := sessions g; limiter := limiter g; database_ready := db;
  identityProvider_ready := idp; listeners := listeners g; ssePerClient := ssePerClient g; sent := sent g |}.
Definition set_listeners l c (g : Server) : Server := {| state := state g; tenantStates := tenantStates g; persistentStore := persistentStore g;
  persistedVersion := persistedVersion g; sessions := sessions g; limiter := limiter g; database_ready := database_ready g;
  identityProvider_ready := identityProvider_ready g; listeners := l; ssePerClient := c; sent := sent g |}.
Definition set_sent v (g : Server) : Server := {| state := state g; tenantStates := tenantStates g; persistentStore := persistentStore g;
  persistedVersion := persistedVersion g; sessions := sessions g; limiter := limiter g; database_ready := database_ready g;
  identityProvider_ready := identityProvider_ready g; listeners := listeners g; ssePerClient := ssePerClient g; sent := v |}.

(** Steps that may throw. *)
Definition Srv (A : Type) : Type := Server -> (A + Exn) * Server.
#[global] Instance srv_ret : MRet Srv := fun A a g => (inl a, g).
#[global] Instance srv_bind : MBind Srv := fun A B k m g => match m g with (inl a, g) => k a g | (inr e, g) => (inr e, g) end.
Definition server : Srv Server := fun g => (inl g, g).
Definition update (f : Server -> Server) : Srv unit := fun g => (inl tt, f g).
Definition throwing {A} (e : Exn) : Srv A := fun g => (inr e, g).
Definition fallibly {A} (r : fallible A) : Srv A := fun g => (match r with Fine a => inl a | Threw e => inr (Plain e) end, g).
Definition resulting {A} (r : result A) : Srv A := fallibly (plain r).
Definition try_catch {A} (m : Srv A) (h : Exn -> Srv A) : Srv A := fun g => match m g with (inr e, g) => h e g | r => r end.
(** [m], then [k] outside the [try]. *)
Definition try_then {A B} (m : Srv A) (h : Exn -> Srv B) (k : A -> Srv B) : Srv B := fun g =>
  match m g with (inl a, g) => k a g | (inr e, g) => h e g end.
(** A call of the store. *)
Definition storing {A} (s : S) (m : St S A) : Srv (result A) := fun g => let '(r, s') := m s in (inl r, set_store s' (persistedVersion g) g).
(** A route on the bound state. *)
Definition acting {A} (m : Act A) : Srv A := fun g =>
  let '(r, s) := m (state g) in (match r with Fine a => inl a | Threw e => inr (Plain e) end, set_state s g).

(** ** Persistence *)

Definition restored (p : PersistedLabSnapshot) : Srv LabState := resulting (restoreLabState p).

Definition conflict_message : jstr := "Persistent simulator state changed in another process; stale mutation was rolled back.".
Definition unsaved_message : jstr := "Failed to durably save simulator state; mutation was rolled back.".

Definition persist : Srv unit :=
  server ≫= fun g =>
  match persistentStore g with
  | None => mret tt
  | Some s =>
      match persistedVersion g with
      | None => throwing (Plain (PlainError "realtime-lab persistence version is unavailable"))
      | Some version =>
          storing s (store_swap version (snapshotLabState (state g))) ≫= fun r =>
          match r with
          | Ok saved => update (fun g => set_store (default s (persistentStore g)) (Some saved) g)
          | Throw message =>
              server ≫= fun g =>
              (if message =s? "compare-and-swap conflict" then
                 resulting (store_get (default s (persistentStore g))) ≫= fun current =>
                 match current with
                 | Some (_, version, value) =>
                     update (fun g => set_store (default s (persistentStore g)) (Some version) g) ≫= fun _ =>
                     restored value ≫= fun authoritative =>
                     throwing (PersistenceError 409 conflict_message "PERSISTENCE_CONFLICT" (Some authoritative))
                 | None => mret tt
                 end
               else mret tt) ≫= fun _ =>
              throwing (PersistenceError 503 unsaved_message "PERSISTENCE_UNAVAILABLE" None)
          end
      end
  end.

(** The [catch] of [persistResponse]. *)
Definition not_saved (s : S) (message : jstr) : Srv (bool * PersistedHttpResponse) :=
  server ≫= fun g =>
  resulting (store_get (default s (persistentStore g))) ≫= fun current =>
  (match current with
   | Some (_, version, value) =>
       restored value ≫= fun authoritative =>
       update (fun g => set_store (default s (persistentStore g)) (Some version) g) ≫= fun _ => mret (Some authoritative)
   | None => mret None
   end) ≫= fun authoritative =>
  if message =s? "idempotency key reused with a different request" then
    throwing (PersistenceError 409 "Idempotency-Key was already used for a different request." "IDEMPOTENCY_CONFLICT" authoritative)
  else if message =s? "compare-and-swap conflict" then throwing (PersistenceError 409 conflict_message "PERSISTENCE_CONFLICT" authoritative)
  else throwing (PersistenceError 503 unsaved_message "PERSISTENCE_UNAVAILABLE" authoritative).

(** The operation run under the key: the snapshot is swapped, the answer kept. *)
Definition saving (version : Z) (value : PersistedLabSnapshot) (response : PersistedHttpResponse) : St S (Z * PersistedHttpResponse) :=
  store_swap version value ≫= fun saved => mret (saved, response).

Definition persistResponse (idempotency : option RequestIdempotency) (response : PersistedHttpResponse) : Srv (bool * PersistedHttpResponse) :=
  server ≫= fun g =>
  match persistentStore g, idempotency with
  | Some s, Some i =>
      match persistedVersion g with
      | None => throwing (PersistenceError 503 "Persistent simulator version is unavailable; mutation was rolled back." "PERSISTENCE_UNAVAILABLE" None)
      | Some version =>
          storing s (store_run Z (key i) (requestHash i) (saving version (snapshotLabState (state g)) response)) ≫= fun r =>
          match r with
          | Ok (None, value) =>
              try_catch
                (server ≫= fun g =>
                 resulting (store_get (default s (persistentStore g))) ≫= fun current =>
                 match current with
                 | None => throwing (Plain (PlainError "persistent simulator snapshot is missing"))
                 | Some (_, version, stored) =>
                     restored stored ≫= fun st =>
                     update (fun g => set_store (default s (persistentStore g)) (Some version) (set_state st g)) ≫= fun _ =>
                     mret (true, value)
                 end)
                (fun e => not_saved s (match e with Plain e => message_of e | PersistenceError _ m _ _ => m end))
          | Ok (Some committed, value) =>
              update (fun g => set_store (default s (persistentStore g)) (Some committed) g) ≫= fun _ => mret (false, value)
          | Throw message => not_saved s message
          end
      end
  | _, _ => persist ≫= fun _ => mret (false, response)
  end.

(** [broadcast(tenantId)]: every stream of the tenant gets the bound state. *)
Definition broadcast (tenantId : jstr) : Srv unit :=
  server ≫= fun g =>
  resulting (publicSnapshot (state g)) ≫= fun p =>
  update (fun g => set_sent (sent g ++ map (fun l => (l_id l, p)) (List.filter (fun l => l_tenantId l =s? tenantId) (listeners g))) g).

Definition finalize (tenant : jstr) (idempotency : option RequestIdempotency) (response : PersistedHttpResponse) : Srv Reply :=
  persistResponse idempotency response ≫= fun (r : bool * PersistedHttpResponse) => let '(replayed, saved) := r in
  update (fun g => if bool_decide (is_Some (access o)) then set_tenantStates (map_set tenant (state g) (tenantStates g)) g else g) ≫= fun _ =>
  (if replayed then mret tt else broadcast tenant : Srv unit) ≫= fun _ =>
  mret (Answered saved).

Definition answer (status : Z) (body : Body) : Srv Reply := mret (Answered {| status := status; body := body |}).
Definition error (status : Z) (code message : jstr) : Srv Reply := answer status (ErrorBody code message).

(** ** Failures *)

Definition dependencyFailed_database : Srv unit := update (fun g => set_ready false (identityProvider_ready g) g).
Definition dependencyFailed_identityProvider : Srv unit := update (fun g => set_ready (database_ready g) false g).
Definition dependencyRecovered_identityProvider : Srv unit := update (fun g => set_ready (database_ready g) true g).

Definition bind_state (s : LabState) : Srv unit := update (set_state s).
(** The bound state as it was before the route. *)
Definition roll_back (rollback : option PersistedLabSnapshot) : Srv unit :=
  match rollback with Some p => restored p ≫= bind_state | None => mret tt end.

(** The answer to a [PersistenceError]. *)
Definition persistence_failed (rollback : option PersistedLabSnapshot) (status : Z) (message code : jstr) (authoritative : option LabState) : Srv Reply :=
  dependencyFailed_database ≫= fun _ =>
  match authoritative with Some s => bind_state s | None => roll_back rollback end ≫= fun _ =>
  server ≫= fun g =>
  resulting (publicSnapshot (state g)) ≫= fun p =>
  answer status (ErrorStateBody code message p).

(** An error of the domain, or an unexpected one, is answered as the last result. *)
Definition rejected (tenant : jstr) (idempotency : option RequestIdempotency) (rollback : option PersistedLabSnapshot) (d : Draws) (e : Thrown) : Srv Reply :=
  roll_back rollback ≫= fun _ =>
  let message := message_of e in
  let knownCode := match e with DomainError code _ => code | _ => reasonCodeFor message 409 end in
  let known := negb (knownCode =s? "DOMAIN_REJECTED") in
  let publicCode := if known then knownCode else js "INTERNAL_ERROR" in
  let publicMessage := if known then message else js "Internal simulator error." in
  let publicStatus := if known then 409 else 500 in
  resulting (toISOString (dates (lab d) 4)) ≫= fun at_ =>
  update (fun g => set_state (set_lastResult {| lr_ok := false; outcome := "blocked"; code := publicCode; lr_action := "blocked";
                                                lr_message := publicMessage; at_ := at_ |} (state g)) g) ≫= fun _ =>
  try_catch
    (server ≫= fun g =>
     resulting (publicSnapshot (state g)) ≫= fun p =>
     finalize tenant idempotency {| status := publicStatus; body := ErrorStateBody publicCode publicMessage p |})
    (fun e => match e with
              | PersistenceError status message code authoritative => persistence_failed rollback status message code authoritative
              | e => throwing e
              end).

(** The handler's [catch (error)]; what it throws itself is not caught. *)
Definition failed (tenant : jstr) (idempotency : option RequestIdempotency) (rollback : option PersistedLabSnapshot) (d : Draws) (e : Exn) : Srv Reply :=
  match e with
  | Plain (HttpError status message code) => error status code message
  | PersistenceError status message code authoritative => persistence_failed rollback status message code authoritative
  | Plain e => rejected tenant idempotency rollback d e
  end.

(** ** Sessions *)

(** A [login] or [issue] that throws. *)
Definition login_failed (message : jstr) : Srv Reply :=
  if message =s? "session limit reached" then error 429 "SESSION_LIMIT_REACHED" "The bounded session limit has been reached."
  else if (message =s? "identity already expired") || (message =s? "invalid authenticated principal") then
    error 401 "AUTHENTICATION_FAILED" "Authentication failed."
  else dependencyFailed_identityProvider ≫= fun _ => throwing (Plain (PlainError message)).

Definition in_sessions {A} (m : St SessionBoundary A) : Srv (result A) := fun g => let '(r, b) := m (sessions g) in (inl r, set_sessions b g).

Definition logged_in (r : result (option AuthenticatedSession)) : Srv Reply :=
  match r with
  | Ok (Some session) => mret (LoggedIn session)
  | Ok None => error 401 "AUTHENTICATION_FAILED" "Authentication failed."
  | Throw message => login_failed message
  end.

Definition login_bootstrap (token : jstr) (d : Draws) : Srv Reply := in_sessions (login token (session_draw d)) ≫= logged_in.

(** What [oidcVerifier.verify(token)] ends with; [other] is the message of an
    error that is not the verifier's. *)
Definition login_verified (r : AccessToken.outcome VerifiedIdentity) (other : jstr) (d : Draws) : Srv Reply :=
  match r with
  | inl identity =>
      dependencyRecovered_identityProvider ≫= fun _ =>
      in_sessions (issue {| SessionBoundary.principalId := AccessToken.principalId identity; SessionBoundary.tenantId := AccessToken.tenantId identity;
                            SessionBoundary.roles := AccessToken.roles identity |}
                     (Some (num_times (AccessToken.expiresAt identity) (NInt 1000))) (session_draw d)) ≫= fun r =>
      logged_in (r ≫= fun session => Ok (Some session))
  | inr (Failed c) =>
      (if match c with jwks_unavailable | jwks_invalid => true | _ => false end then dependencyFailed_identityProvider else mret tt : Srv unit) ≫= fun _ =>
      error 401 "AUTHENTICATION_FAILED" "Authentication failed."
  | inr _ => login_failed other
  end.

(** ** Streams *)

Definition open_stream (id : nat) (req : Request) (tenant : jstr) : Srv Reply :=
  server ≫= fun g =>
  let clientKey := resolveClientKey req (trustedProxies o) in
  let perClient := default 0 (map_get clientKey (ssePerClient g)) in
  match sseLimit o with
  | Some limit =>
      if (maxTotal limit <=? Z.of_nat (length (listeners g))) || (maxPerClient limit <=? perClient) then mret (RetryAfter (NInt 1)) else
      resulting (publicSnapshot (state g)) ≫= fun p =>
      update (fun g => set_listeners (listeners g ++ [{| l_id := id; l_clientKey := clientKey; l_tenantId := tenant |}])
                         (map_set clientKey (perClient + 1) (ssePerClient g)) g) ≫= fun _ =>
      mret (Streaming p)
  | None =>
      resulting (publicSnapshot (state g)) ≫= fun p =>
      update (fun g => set_listeners (listeners g ++ [{| l_id := id; l_clientKey := []; l_tenantId := tenant |}]) (ssePerClient g) g) ≫= fun _ =>
      mret (Streaming p)
  end.

(** [listener.cleanup()]; it acts once, while the stream is listed. *)
Definition close_stream (id : nat) (g : Server) : Server :=
  match List.find (fun l => (l_id l =? id)%nat) (listeners g) with
  | None => g
  | Some l =>
      let rest := List.filter (fun l => negb (l_id l =? id)%nat) (listeners g) in
      match sseLimit o with
      | None => set_listeners rest (ssePerClient g) g
      | Some _ =>
          let next := default 1 (map_get (l_clientKey l) (ssePerClient g)) - 1 in
          set_listeners rest (if next <=? 0 then map_delete (l_clientKey l) (ssePerClient g) else map_set (l_clientKey l) next (ssePerClient g)) g
      end
  end.

(** ** Requests *)

(** The tenant's state, made where there is none, is bound. *)
Definition select_tenant (tenant : jstr) (d : Draws) : Srv unit :=
  server ≫= fun g =>
  (match map_get tenant (tenantStates g) with Some s => mret s | None => resulting (freshState (lab d) 0) end : Srv LabState) ≫= fun s =>
  update (fun g => set_tenantStates (map_set tenant s (tenantStates g)) (set_state s g)).

(** What a request waits for. *)
Inductive Waiting : Type := ForBody (tenant : jstr) | ForIdentity.

Definition STATIC_ASSET_NAMES : list jstr := [js "index.html"; js "app.js"; js "styles.css"].

(** From the body to the answer, for routes that need none or an empty one too. *)
Definition serve (id : nat) (req : Request) (tenant : jstr) : Srv Reply :=
  server ≫= fun g =>
  let get := (method req =s? GET) || (method req =s? HEAD) in
  if get && (pathname req =s? health) then answer 200 HealthBody
  else if get && (pathname req =s? state_route) then resulting (publicSnapshot (state g)) ≫= fun p => answer 200 (StateBody p)
  else if (method req =s? GET) && (pathname req =s? events) then open_stream id req tenant
  else if get then
    let relative := if pathname req =s? "/" then js "index.html" else drop 1 (pathname req) in
    if includes STATIC_ASSET_NAMES relative then answer 200 (AssetBody relative) else error 404 "NOT_FOUND" "not found"
  else error 404 "NOT_FOUND" "not found".

(** The route of a mutation and its answer. *)
Definition run_route (req : Request) (body : list N) (tenant : jstr) (idempotency : option RequestIdempotency) (d : Draws) : Srv Reply :=
  match mutate (faultInjector o) (auditCopyVerifier o) (lab d) req body with
  | Some route =>
      acting route ≫= fun status =>
      server ≫= fun g =>
      resulting (publicSnapshot (state g)) ≫= fun p =>
      finalize tenant idempotency {| status := status; body := StateBody p |}
  | None => error 404 "NOT_FOUND" "not found"
  end.

Definition replayed (i : RequestIdempotency) : Srv (option PersistedHttpResponse) :=
  server ≫= fun g =>
  match persistentStore g with
  | None => mret None
  | Some s =>
      match store_getIdempotent (key i) (requestHash i) s with
      | Ok r => mret r
      | Throw message =>
          if message =s? "idempotency key reused with a different request"
          then throwing (Plain (httpError 409 "Idempotency-Key was already used for a different request."))
          else throwing (Plain (PlainError message))
      end
  end.

(** [rateLimiter.take(...)]: the delay where the request is refused. *)
Definition rate_limit (req : Request) (d : Draws) : Srv (option jsnum) :=
  server ≫= fun g =>
  match limiter g with
  | None => mret None
  | Some m =>
      let '(decision, m) := RateLimiter.take (resolveClientKey req (trustedProxies o)) (NInt (now d)) m in
      update (set_limiter (Some m)) ≫= fun _ =>
      mret (if allowed decision then None else Some (retryAfterSeconds decision))
  end.

(** What follows the body of a mutation: its tenant is bound, its key looked up
    and the limit taken; the key where the request goes on to its route. *)
Definition prepare (req : Request) (body : list N) (tenant : jstr) (d : Draws) : Srv (Reply + option RequestIdempotency) :=
  (if bool_decide (is_Some (access o)) then select_tenant tenant d else mret tt : Srv unit) ≫= fun _ =>
  fallibly (canonicalMutationBody req body) ≫= fun canonicalBody =>
  server ≫= fun g =>
  fallibly (requestIdempotency req (pathname req ++ query req) canonicalBody (bool_decide (is_Some (persistentStore g)))) ≫= fun idempotency =>
  (match idempotency with Some i => replayed i | None => mret None end : Srv (option PersistedHttpResponse)) ≫= fun replay =>
  match replay with
  | Some r => mret (inl (Answered r))
  | None =>
      rate_limit req d ≫= fun refused =>
      mret (match refused with Some seconds => inl (RetryAfter seconds) | None => inr idempotency end)
  end.

(** The route, with the snapshot for a roll-back. *)
Definition routed (req : Request) (body : list N) (tenant : jstr) (idempotency : option RequestIdempotency) (d : Draws) : Srv Reply := fun g =>
  try_catch (run_route req body tenant idempotency d) (failed tenant idempotency (Some (snapshotLabState (state g))) d) g.

(** The key of the request, as far as the handler has read it when it throws
    before the route. *)
Definition key_read (req : Request) (body : list N) (g : Server) : option RequestIdempotency :=
  match canonicalMutationBody req body with
  | Fine text =>
      match requestIdempotency req (pathname req ++ query req) text (bool_decide (is_Some (persistentStore g))) with Fine i => i | Threw _ => None end
  | Threw _ => None
  end.

(** The session of an API request, its checks and its own routes; [None] where
    the request goes on. *)
Definition authenticated (req : Request) (a : Access) (d : Draws) : Srv (Reply + jstr) :=
  in_sessions (authenticate (default [] (cookieValue req "airlock_session")) (now d)) ≫= fun r =>
  resulting r ≫= fun session =>
  match session with
  | None => error 401 "AUTHENTICATION_REQUIRED" "A valid authenticated session is required." ≫= fun e => mret (inl e)
  | Some s =>
      let post := method req =s? POST in
      let tenant := SessionBoundary.tenantId (principal s) in
      let roles := SessionBoundary.roles (principal s) in
      if post && (negb (includes (allowedOrigins a) (default [] (single (origin_header req)))) || negb (verifyCsrf s (single (x_csrf_token req)))) then
        error 403 "CSRF_INVALID" "CSRF validation failed." ≫= fun e => mret (inl e)
      else if (pathname req =s? sessionCurrent) && ((method req =s? GET) || (method req =s? HEAD)) then
        answer 200 (SessionBody (principal s) None (SessionBoundary.expiresAt s)) ≫= fun e => mret (inl e)
      else if (pathname req =s? sessionLogout) && post then
        in_sessions (revoke (sessionId s)) ≫= fun _ => answer 200 LoggedOutBody ≫= fun e => mret (inl e)
      else if negb (includes roles "operator" || (negb post && includes roles "viewer")) then
        error 403 "TENANT_FORBIDDEN" "The authenticated principal is not authorized for this operation." ≫= fun e => mret (inl e)
      else (if post then mret tt else select_tenant tenant d : Srv unit) ≫= fun _ => mret (inr tenant)
  end.

(** From the arrival of a request to its answer or to what it awaits. *)
Definition arrive (id : nat) (req : Request) (d : Draws) : Srv (Reply + Waiting) :=
  let post := method req =s? POST in
  match findRouteManifestEntry (pathname req) with
  | Some e => if includes (methods e) (method req) then mret (inr tt) else mret (inl (AllowOnly (methods e)))
  | None => mret (inr tt)
  end ≫= fun r =>
  match r with
  | inl reply => mret (inl reply)
  | inr _ =>
      match access o with
      | Some a =>
          if post && (pathname req =s? sessionLogin) then
            if negb (includes (allowedOrigins a) (default [] (single (origin_header req)))) then
              error 403 "UNTRUSTED_ORIGIN" "An exact allowed Origin is required." ≫= fun e => mret (inl e)
            else if oidc a then mret (inr ForIdentity)
            else login_bootstrap (default [] (bearerToken req)) d ≫= fun e => mret (inl e)
          else if starts_with "/api/" (pathname req) && negb (pathname req =s? health) then
            authenticated req a d ≫= fun r =>
            match r with
            | inl reply => mret (inl reply)
            | inr tenant => if post then mret (inr (ForBody tenant)) else serve id req tenant ≫= fun e => mret (inl e)
            end
          else if post && starts_with "/api/" (pathname req) then mret (inr (ForBody []))
          else serve id req [] ≫= fun e => mret (inl e)
      | None =>
          if includes [sessionLogin; sessionCurrent; sessionLogout] (pathname req) then
            error 409 "DOMAIN_REJECTED" "Session endpoints require authenticated access mode." ≫= fun e => mret (inl e)
          else if post && starts_with "/api/" (pathname req) then
            fallibly (enforceMutationSource req) ≫= fun _ => mret (inr (ForBody []))
          else serve id req [] ≫= fun e => mret (inl e)
      end
  end.

(** The tenant of the request, once its session is known; before that, and for
    requests without one, it is the empty name. *)
Definition active_tenant (req : Request) (g : Server) : jstr :=
  if bool_decide (is_Some (access o)) && starts_with "/api/" (pathname req) && negb (pathname req =s? health) &&
     negb ((method req =s? POST) && (pathname req =s? sessionLogin))
  then match map_get (default [] (cookieValue req "airlock_session")) (SessionBoundary.sessions (sessions g)) with
       | Some s => SessionBoundary.tenantId (principal s)
       | None => []
       end
  else [].

(** The handler's [try]; a request whose session has ended does not throw. *)
Definition on_arrival (id : nat) (req : Request) (d : Draws) : Srv (Reply + Waiting) := fun g =>
  try_catch (arrive id req d) (fun e => failed (active_tenant req g) None None d e ≫= fun r => mret (inl r)) g.

(** The body has come, or the read of it has failed. *)
Definition on_body (req : Request) (tenant : jstr) (d : Draws) : Srv Reply :=
  match readBoundedBody req with
  | Threw e => failed tenant None None d (Plain e)
  | Fine body => fun g =>
      try_then (prepare req body tenant d) (failed tenant (key_read req body g) None d)
        (fun r => match r with inl reply => mret reply | inr idempotency => routed req body tenant idempotency d end) g
  end.

(** The access token of a login has been verified, or has not. *)
Definition on_identity (r : AccessToken.outcome VerifiedIdentity) (other : jstr) (d : Draws) : Srv Reply :=
  try_catch (login_verified r other d) (failed [] None None d).

(** The end of a handler: an exception it does not catch is unhandled. *)
Definition handled (m : Srv Reply) (g : Server) : Reply * Server :=
  match m g with (inl r, g) => (r, g) | (inr e, g) => (Unhandled (match e with Plain e => message_of e | PersistenceError _ m _ _ => m end), g) end.
End server.
