(* ===== verification/LabTenants.v ===== *)
(** LabTenants: apps/realtime-lab/server.ts in authenticated mode.  What a
    request of one tenant answers, changes and broadcasts depends on that
    tenant's state alone and leaves the others' as they are, provided its body
    arrives; a body that does not, and a login whose verification fails in an
    unexpected way, get hold of another tenant's state. *)
From S2P Require Import Prelude JsString JsMap Host JsTime JsJson JsNumber Url DeviceKeys AuditLog Engine SessionBoundary RateLimiter AccessToken.
From S2P Require Import LabRequest LabState LabRoutes LabServer.
#[local] Open Scope string_scope.
#[local] Open Scope list_scope.
#[local] Open Scope Z_scope.
#[local] Open Scope js_scope.

Section tenants.
Context `{Host, PemExport, UrlParser}.
Context {S : Type} `{LabStore S}.
Variable o : LabOptions.
Variable T : jstr.

(** ** What a request of the tenant may look at *)

(** Everything but the bound state, the states of other tenants and the events
    sent so far. *)
Definition shared (g : LabServer S) :=
  (map_get T (tenantStates g), persistentStore g, persistedVersion g, sessions g, limiter g, (database_ready g, identityProvider_ready g),
   listeners g, ssePerClient g).
Definition view (g : LabServer S) := (state g, shared g).

Lemma shared_eq g h : shared g = shared h ->
  map_get T (tenantStates g) = map_get T (tenantStates h) /\ persistentStore g = persistentStore h /\ persistedVersion g = persistedVersion h /\
  sessions g = sessions h /\ limiter g = limiter h /\ database_ready g = database_ready h /\ identityProvider_ready g = identityProvider_ready h /\
  listeners g = listeners h /\ ssePerClient g = ssePerClient h.
Proof. unfold shared. intros E. injection E as E1 E2 E3 E4 E5 E6 E7 E8 E9. repeat (split; [done|]). done. Qed.
Lemma view_eq g h : view g = view h -> state g = state h /\ shared g = shared h.
Proof. intros E. split; [exact (f_equal fst E)|exact (f_equal snd E)]. Qed.

(** What changes outside the view: nothing of the other tenants, and events to
    the tenant's own streams. *)
Record contained (out : list (nat * PublicState)) (g g' : LabServer S) : Prop := {
  ct_others T' : T' <> T -> map_get T' (tenantStates g') = map_get T' (tenantStates g);
  ct_sent : sent g' = sent g ++ out;
  ct_streams : Forall (fun x => exists l, l ∈ listeners g' /\ l_id l = x.1 /\ l_tenantId l = T) out;
  ct_listeners l : l ∈ listeners g -> l ∈ listeners g';
}.

Lemma contained_refl g : contained [] g g.
Proof. split; [done|by rewrite app_nil_r|constructor|done]. Qed.
Lemma contained_same g g' : tenantStates g' = tenantStates g -> sent g' = sent g -> listeners g' = listeners g -> contained [] g g'.
Proof. intros E1 E2 E3. split; [by rewrite E1|by rewrite E2, app_nil_r|constructor|by rewrite E3]. Qed.
Lemma contained_trans out out' g1 g2 g3 : contained out g1 g2 -> contained out' g2 g3 -> contained (out ++ out') g1 g3.
Proof.
  intros [A1 A2 A3 A4] [B1 B2 B3 B4]. split.
  - intros T' Hne. by rewrite B1, A1.
  - by rewrite B2, A2, app_assoc.
  - apply Forall_app. split; [|done]. eapply Forall_impl; [exact A3|]. intros x (l & Hl & ?). exists l. auto.
  - auto.
Qed.

(** The step answers the same from any two servers with equal views. *)
Definition steps_alike {A} (V : LabServer S -> LabServer S -> Prop) (m : Srv (S := S) A) : Prop :=
  forall g h, V g h -> exists out, (m g).1 = (m h).1 /\ view (m g).2 = view (m h).2 /\ contained out g (m g).2 /\ contained out h (m h).2.
Definition same_view (g h : LabServer S) : Prop := view g = view h.
Definition local {A} (m : Srv (S := S) A) : Prop := steps_alike same_view m.

(** ** Rules *)

Lemma local_ret {A} (a : A) : local (mret a).
Proof. intros g h E. exists []. split; [done|]. split; [done|]. split; apply contained_refl. Qed.
Lemma local_throwing {A} e : local (throwing (A := A) e).
Proof. intros g h E. exists []. split; [done|]. split; [done|]. split; apply contained_refl. Qed.
Lemma local_fallibly {A} (r : fallible A) : local (fallibly r).
Proof. intros g h E. exists []. split; [done|]. split; [done|]. split; apply contained_refl. Qed.
Lemma local_resulting {A} (r : result A) : local (resulting r).
Proof. apply local_fallibly. Qed.

Lemma alike_bind {A B} V (m : Srv A) (k : A -> Srv B) : steps_alike V m -> (forall a, local (k a)) -> steps_alike V (m ≫= k).
Proof.
  intros Hm Hk g h E. destruct (Hm g h E) as (out & E1 & E2 & C1 & C2). unfold mbind, srv_bind.
  destruct (m g) as [r g1], (m h) as [r' h1]. cbn in *. subst r'. destruct r as [a|e]; [|by exists out].
  destruct (Hk a g1 h1 E2) as (out' & F1 & F2 & D1 & D2). exists (out ++ out').
  split; [done|]. split; [done|]. split; by eapply contained_trans.
Qed.
Lemma alike_catch {A} V (m : Srv A) (k : Exn -> Srv A) : steps_alike V m -> (forall e, local (k e)) -> steps_alike V (try_catch m k).
Proof.
  intros Hm Hk g h E. destruct (Hm g h E) as (out & E1 & E2 & C1 & C2). unfold try_catch.
  destruct (m g) as [r g1], (m h) as [r' h1]. cbn in *. subst r'. destruct r as [a|e]; [by exists out|].
  destruct (Hk e g1 h1 E2) as (out' & F1 & F2 & D1 & D2). exists (out ++ out').
  split; [done|]. split; [done|]. split; by eapply contained_trans.
Qed.
Lemma local_bind {A B} (m : Srv A) (k : A -> Srv B) : local m -> (forall a, local (k a)) -> local (m ≫= k).
Proof. apply alike_bind. Qed.
Lemma local_catch {A} (m : Srv A) (k : Exn -> Srv A) : local m -> (forall e, local (k e)) -> local (try_catch m k).
Proof. apply alike_catch. Qed.

Lemma alike_then {A B : Type} V (m : Srv A) (h : Exn -> Srv B) (k : A -> Srv B) :
  steps_alike V m -> (forall e, local (h e)) -> (forall a, local (k a)) -> steps_alike V (try_then m h k).
Proof.
  intros Hm Hh Hk g h' E. destruct (Hm g h' E) as (out & E1 & E2 & C1 & C2). unfold try_then.
  destruct (m g) as [r g1], (m h') as [r' h1]. cbn in *. subst r'. destruct r as [a|e];
    [destruct (Hk a g1 h1 E2) as (out' & F1 & F2 & D1 & D2)|destruct (Hh e g1 h1 E2) as (out' & F1 & F2 & D1 & D2)];
    (exists (out ++ out'); split; [done|]; split; [done|]; split; by eapply contained_trans).
Qed.

(** The server is read for its view only. *)
Lemma local_server {B} (k : LabServer S -> Srv B) : (forall g h, view g = view h -> k g = k h) -> (forall g, local (k g)) -> local (server ≫= k).
Proof. intros Hk Hl g h E. unfold mbind, srv_bind, server. rewrite (Hk g h E). by apply Hl. Qed.

(** A change within the view that sends nothing. *)
Lemma local_update f : (forall g h, view g = view h -> view (f g) = view (f h)) ->
  (forall g, tenantStates (f g) = tenantStates g) -> (forall g, sent (f g) = sent g) -> (forall g l, l ∈ listeners g -> l ∈ listeners (f g)) ->
  local (update f).
Proof.
  intros Hv Ht Hs Hl g h E. exists []. split; [done|]. split; [by apply Hv|].
  split; (split; cbn; [by rewrite Ht|by rewrite Hs, app_nil_r|constructor|apply Hl]).
Qed.

Lemma local_acting {A} (m : Act A) : local (acting m).
Proof.
  intros g h E. apply view_eq in E as [Es E]. unfold acting. rewrite <- Es. destruct (m (state g)) as [r st]. exists [].
  split; [done|]. split; [unfold view; by cbn; f_equal|]. split; by apply contained_same.
Qed.
Lemma local_in_sessions {A} (m : St SessionBoundary A) : local (in_sessions m).
Proof.
  intros g h E. apply view_eq in E as [Es E]. unfold in_sessions. pose proof (shared_eq _ _ E) as (E1 & E2 & E3 & E4 & E5 & E6 & E7 & E8 & E9).
  rewrite <- E4. destruct (m (sessions g)) as [r b]. exists [].
  split; [done|]. split; [unfold view, shared; cbn; by rewrite Es, E1, E2, E3, E5, E6, E7, E8, E9|]. split; by apply contained_same.
Qed.
Lemma local_storing {A} s (m : St S A) : local (storing s m).
Proof.
  intros g h E. apply view_eq in E as [Es E]. unfold storing. pose proof (shared_eq _ _ E) as (E1 & E2 & E3 & E4 & E5 & E6 & E7 & E8 & E9).
  rewrite <- E3. destruct (m s) as [r s']. exists [].
  split; [done|]. split; [unfold view, shared; cbn; by rewrite Es, E1, E4, E5, E6, E7, E8, E9|]. split; by apply contained_same.
Qed.

Lemma local_save : local (update (fun g => if bool_decide (is_Some (access o)) then set_tenantStates (map_set T (state g) (tenantStates g)) g else g)).
Proof.
  intros g h E. apply view_eq in E as [Es E]. pose proof (shared_eq _ _ E) as (E1 & E2 & E3 & E4 & E5 & E6 & E7 & E8 & E9).
  exists []. destruct (bool_decide _); [|split; [done|]; split; [unfold view; by cbn; f_equal|]; split; apply contained_refl].
  split; [done|]. split; [unfold view, shared; cbn; by rewrite !map_get_set_eq, Es, E2, E3, E4, E5, E6, E7, E8, E9|].
  split; split; cbn; [by intros T' Hne; rewrite map_get_set_ne|by rewrite app_nil_r|constructor|done
                     |by intros T' Hne; rewrite map_get_set_ne|by rewrite app_nil_r|constructor|done].
Qed.

Lemma local_send p : local (update (fun g => set_sent (sent g ++ map (fun l => (l_id l, p)) (List.filter (fun l => l_tenantId l =s? T) (listeners g))) g)).
Proof.
  intros g h E. apply view_eq in E as [Es E]. pose proof (shared_eq _ _ E) as (E1 & E2 & E3 & E4 & E5 & E6 & E7 & E8 & E9).
  exists (map (fun l => (l_id l, p)) (List.filter (fun l => l_tenantId l =s? T) (listeners g))).
  assert (Hf : forall ls, Forall (fun x : nat * PublicState => exists l, l ∈ ls /\ l_id l = x.1 /\ l_tenantId l = T)
      (map (fun l => (l_id l, p)) (List.filter (fun l => l_tenantId l =s? T) ls))).
  { intros ls. apply Forall_forall. intros x Hx%list_elem_of_In. apply in_map_iff in Hx as (l & <- & [Hl Ht]%filter_In). exists l.
    split; [by apply list_elem_of_In|]. split; [done|by apply jeqb_true]. }
  split; [done|]. split; [unfold view, shared; cbn; by rewrite Es, E1, E2, E3, E4, E5, E6, E7, E8, E9|].
  split; (split; cbn; [done|by rewrite ?E8|rewrite <- ?E8; apply Hf|done]).
Qed.

(** Equal views give equal continuations. *)
Ltac same_view :=
  let g := fresh "g" in let h := fresh "h" in let E := fresh "E" in
  intros g h E; apply view_eq in E as [?Es E]; apply shared_eq in E as (?E1 & ?E2 & ?E3 & ?E4 & ?E5 & ?E6 & ?E7 & ?E8 & ?E9);
  repeat match goal with E : _ ?g = _ ?h |- _ => progress rewrite ?E end; done.
Ltac same_update :=
  let g := fresh "g" in let h := fresh "h" in let E := fresh "E" in
  intros g h E; apply view_eq in E as [?Es E]; apply shared_eq in E as (?E1 & ?E2 & ?E3 & ?E4 & ?E5 & ?E6 & ?E7 & ?E8 & ?E9);
  unfold view, shared; cbn; congruence.
Ltac local_step :=
  match goal with
  | |- local (mret _) => apply local_ret
  | |- local (throwing _) => apply local_throwing
  | |- local (fallibly _) => apply local_fallibly
  | |- local (resulting _) => apply local_resulting
  | |- local (restored _) => apply local_resulting
  | |- local (acting _) => apply local_acting
  | |- local (in_sessions _) => apply local_in_sessions
  | |- local (storing _ _) => apply local_storing
  | |- local (answer _ _) => apply local_ret
  | |- local (error _ _ _) => apply local_ret
  | |- local (server ≫= _) => apply local_server; [same_view|intros ?]
  | |- local (update (set_state _)) => apply local_update; [same_update|done|done|done]
  | |- local (update (fun _ => set_sent _ _)) => apply local_send
  | |- local (update (fun _ => if _ then _ else _)) => apply local_save
  | |- local (update _) => apply local_update; [same_update|done|done|intros ? ? ?; cbn; rewrite ?elem_of_app; auto]
  | |- local (_ ≫= _) => apply local_bind; [|intros ?]
  | |- local (try_catch _ _) => apply local_catch; [|intros ?]
  | |- local (match ?x with _ => _ end) => destruct x eqn:?
  | |- local (let '(_, _) := ?x in _) => destruct x eqn:?
  end.
Ltac locally := repeat (cbv beta zeta; local_step).

Lemma persist_local : local persist.
Proof. unfold persist. locally. Qed.
Lemma not_saved_local s message : local (not_saved s message).
Proof. unfold not_saved. locally. Qed.
Lemma persistResponse_local i r : local (persistResponse i r).
Proof. unfold persistResponse. locally; apply persist_local || apply not_saved_local. Qed.
Lemma finalize_local i r : local (finalize o T i r).
Proof. unfold finalize, broadcast. locally. apply persistResponse_local. Qed.
Lemma roll_back_local p : local (roll_back p).
Proof. unfold roll_back, bind_state. locally. Qed.
Lemma persistence_failed_local p st m c a : local (persistence_failed p st m c a).
Proof. unfold persistence_failed, bind_state, dependencyFailed_database. locally. apply roll_back_local. Qed.
Lemma failed_local i p d e : local (failed o T i p d e).
Proof. unfold failed, rejected. locally; apply persistence_failed_local || apply roll_back_local || apply finalize_local. Qed.
Lemma run_route_local req body i d : local (run_route o req body T i d).
Proof. unfold run_route. locally. apply finalize_local. Qed.
Lemma replayed_local i : local (replayed i).
Proof. unfold replayed. locally. Qed.
Lemma rate_limit_local req d : local (rate_limit o req d).
Proof. unfold rate_limit. locally. Qed.
Lemma serve_local id req : local (serve o id req T).
Proof. unfold serve, open_stream. locally. Qed.

(** ** Selecting the tenant *)

(** The step answers the same whatever state is bound when it begins; where it
    throws it has bound the tenant's. *)
Definition alike_at {A} (m : Srv (S := S) A) (g h : LabServer S) : Prop := exists out,
  (m g).1 = (m h).1 /\ shared (m g).2 = shared (m h).2 /\ (forall e, (m g).1 = inr e -> view (m g).2 = view (m h).2) /\
  contained out g (m g).2 /\ contained out h (m h).2.
Definition isolated {A} (m : Srv (S := S) A) : Prop := forall g h, shared g = shared h -> alike_at m g h.

Lemma isolated_ret {A} (a : A) : isolated (mret a).
Proof. intros g h E. exists []. split; [done|]. split; [done|]. split; [done|]. split; apply contained_refl. Qed.

Lemma isolated_bind {A B} (m : Srv A) (k : A -> Srv B) : isolated m -> (forall a, isolated (k a)) -> isolated (m ≫= k).
Proof.
  intros Hm Hk g h E. destruct (Hm g h E) as (out & E1 & E2 & E3 & C1 & C2). unfold alike_at, mbind, srv_bind.
  destruct (m g) as [r g1], (m h) as [r' h1]. cbn in *. subst r'. destruct r as [a|e].
  - destruct (Hk a g1 h1 E2) as (out' & F1 & F2 & F3 & D1 & D2). exists (out ++ out').
    split; [done|]. split; [done|]. split; [done|]. split; by eapply contained_trans.
  - exists out. split; [done|]. split; [done|]. split; [intros _ _; by eapply E3|done].
Qed.
(** The tenant's state is bound whatever was bound before. *)
Definition same_shared (g h : LabServer S) : Prop := shared g = shared h.

Lemma select_alike d : is_ok (freshState (lab d) 0) = true -> steps_alike same_shared (select_tenant T d).
Proof.
  intros Hf g h E. pose proof (shared_eq _ _ E) as (E1 & E2 & E3 & E4 & E5 & E6 & E7 & E8 & E9).
  destruct (freshState (lab d) 0) as [s0|] eqn:Ef; [|done].
  set (s := match map_get T (tenantStates g) with Some s => s | None => s0 end).
  assert (Hs : forall g' : LabServer S, map_get T (tenantStates g') = map_get T (tenantStates g) ->
    select_tenant T d g' = (inl tt, set_tenantStates (map_set T s (tenantStates g')) (set_state s g'))).
  { intros g' Eg. unfold select_tenant, mbind, srv_bind, server, s. rewrite Eg. destruct (map_get T (tenantStates g)) as [s1|]; [done|]. rewrite Ef. done. }
  rewrite (Hs g), (Hs h) by done. exists []. split; [done|].
  split; [unfold view, shared; cbn; by rewrite !map_get_set_eq, E2, E3, E4, E5, E6, E7, E8, E9|].
  split; (split; cbn; [intros T' Hne; by rewrite map_get_set_ne|by rewrite app_nil_r|constructor|done]).
Qed.

Lemma alike_isolated {A} (m : Srv A) : steps_alike same_shared m -> isolated m.
Proof.
  intros Hm g h E. destruct (Hm g h E) as (out & E1 & E2 & C1 & C2). exists out. split; [done|]. split; [by apply view_eq|]. split; [done|]. done.
Qed.

Lemma prepare_alike req body d : is_Some (access o) -> is_ok (freshState (lab d) 0) = true -> steps_alike same_shared (prepare o req body T d).
Proof.
  intros Ha Hf. unfold prepare. rewrite bool_decide_true by done. apply alike_bind; [by apply select_alike|]. intros _.
  locally; try apply replayed_local; apply rate_limit_local.
Qed.

Lemma routed_local req body i d : local (routed o req body T i d).
Proof.
  intros g h E. unfold routed. assert (Es : state h = state g) by (by apply view_eq in E as [-> _]). rewrite Es.
  by apply (local_catch _ _ (run_route_local req body i d) (failed_local i (Some (snapshotLabState (state g))) d)).
Qed.

Lemma isolated_sessions {A} (m : St SessionBoundary A) (P : A -> Prop) (b0 : SessionBoundary) :
  (exists a b, m b0 = (Ok a, b) /\ P a) -> forall (B : Type) (k : result A -> Srv B), (forall a, P a -> isolated (k (Ok a))) ->
  forall g h, sessions g = b0 -> shared g = shared h -> alike_at (in_sessions m ≫= k) g h.
Proof.
  intros (a & b & Em & Ha) B k Hk g h Eb E. pose proof (shared_eq _ _ E) as (E1 & E2 & E3 & E4 & E5 & E6 & E7 & E8 & E9).
  destruct (Hk a Ha (set_sessions b g) (set_sessions b h)) as (out & F1 & F2 & F3 & C1 & C2).
  { unfold shared. cbn. by rewrite E1, E2, E3, E5, E6, E7, E8, E9. }
  unfold alike_at, mbind, srv_bind, in_sessions. rewrite <- E4, Eb, Em. exists out.
  split; [done|]. split; [done|]. split; [done|].
  split; [exact (contained_trans [] out g (set_sessions b g) _ (contained_same g (set_sessions b g) eq_refl eq_refl eq_refl) C1)
         |exact (contained_trans [] out h (set_sessions b h) _ (contained_same h (set_sessions b h) eq_refl eq_refl eq_refl) C2)].
Qed.

(** What the session of a request tells about it. *)
Definition session_id (req : Request) : jstr := default [] (cookieValue req "airlock_session").

Lemma authenticate_spec id t b : exists r b', authenticate id t b = (Ok r, b') /\
  match r with
  | Some s => exists s0, map_get id (SessionBoundary.sessions b) = Some s0 /\ principal s = principal s0
  | None => True
  end.
Proof.
  unfold authenticate, mbind, St_bind, sget. destruct (map_get id (SessionBoundary.sessions b)) as [s0|] eqn:E; [|by exists None, b].
  destruct (stale b t s0); [by eexists None, _|]. eexists (Some (seen_at t s0)), _. split; [done|]. by exists s0.
Qed.

Lemma alike_at_catch {A} (m : Srv A) (k : Exn -> Srv A) g h : alike_at m g h -> (forall e, local (k e)) -> alike_at (try_catch m k) g h.
Proof.
  intros (out & E1 & E2 & E3 & C1 & C2) Hk. unfold alike_at, try_catch.
  destruct (m g) as [r g1], (m h) as [r' h1]. cbn in *. subst r'. destruct r as [a|e].
  - exists out. by split_and!.
  - destruct (Hk e g1 h1 (E3 e eq_refl)) as (out' & F1 & F2 & D1 & D2). exists (out ++ out').
    split; [done|]. split; [by apply view_eq|]. split; [done|]. split; by eapply contained_trans.
Qed.

Lemma isolated_in_sessions {A} (m : St SessionBoundary A) : isolated (in_sessions m).
Proof.
  intros g h E. pose proof (shared_eq _ _ E) as (E1 & E2 & E3 & E4 & E5 & E6 & E7 & E8 & E9).
  unfold alike_at, in_sessions. rewrite <- E4. destruct (m (sessions g)) as [r b]. exists []. cbn.
  split; [done|]. split; [unfold shared; cbn; by rewrite E1, E2, E3, E5, E6, E7, E8, E9|]. split; [done|].
  split; by apply contained_same.
Qed.

Lemma bind_assoc {A B C : Type} (m : Srv (S := S) A) (k : A -> Srv B) (j : B -> Srv C) g : ((m ≫= k) ≫= j) g = (m ≫= (fun a => (k a ≫= j))) g.
Proof. unfold mbind, srv_bind. by destruct (m g) as [[a|e] g']. Qed.
Lemma alike_at_assoc {A B C : Type} (m : Srv (S := S) A) (k : A -> Srv B) (j : B -> Srv C) g h :
  alike_at (m ≫= (fun a => k a ≫= j)) g h -> alike_at ((m ≫= k) ≫= j) g h.
Proof. unfold alike_at. by rewrite !bind_assoc. Qed.

Lemma alike_at_ret_bind {A B : Type} (a : A) (k : A -> Srv (S := S) B) g h : alike_at (k a) g h -> alike_at (mret a ≫= k) g h.
Proof. done. Qed.

(** The step that follows the session of the tenant. *)
Lemma authenticated_alike {B : Type} a req d (k : Reply + jstr -> Srv B) g h : is_ok (freshState (lab d) 0) = true ->
  (forall s, map_get (session_id req) (SessionBoundary.sessions (sessions g)) = Some s -> SessionBoundary.tenantId (principal s) = T) ->
  (forall r, isolated (k (inl r))) -> ((method req =s? POST) = true -> isolated (k (inr T))) -> local (k (inr T)) -> shared g = shared h ->
  alike_at (authenticated req a d ≫= k) g h.
Proof.
  intros Hf HT Hret Hpost Hloc E. unfold authenticated. apply alike_at_assoc.
  pose proof (authenticate_spec (session_id req) (now d) (sessions g)) as (r & b & Er & Hr).
  eapply (isolated_sessions _ (fun r => match r with
    | Some s => exists s0, map_get (session_id req) (SessionBoundary.sessions (sessions g)) = Some s0 /\ principal s = principal s0
    | None => True end) (sessions g)); [exists r, b; split; [exact Er|exact Hr]| |done|done].
  intros [s|] Hs; [|apply Hret]. destruct Hs as (s0 & Es0 & Ep).
  assert (Et : SessionBoundary.tenantId (principal s) = T) by (rewrite Ep; by apply HT).
  intros g1 h1 E1. apply alike_at_assoc.
  lazymatch goal with |- alike_at (_ ≫= ?k) g1 h1 => change (alike_at (k (Some s)) g1 h1) end. cbv beta iota. rewrite Et.
  clear -Hf Hret Hpost Hloc E1.
  destruct (_ && (_ || _)); [by apply Hret|]. destruct (_ && (_ || _)); [by apply Hret|].
  destruct (_ && _).
  { apply alike_at_assoc. refine (isolated_bind _ _ (isolated_in_sessions _) (fun _ => Hret _) g1 h1 E1). }
  destruct (negb (_ || _)); [by apply Hret|].
  destruct (method req =s? POST); [by apply Hpost|].
  apply alike_at_assoc. refine (alike_isolated _ (alike_bind _ _ _ (select_alike d Hf) (fun _ => _)) g1 h1 E1). exact Hloc.
Qed.

Lemma arrive_alike a id req d g h : access o = Some a -> is_ok (freshState (lab d) 0) = true ->
  starts_with "/api/" (pathname req) && negb (pathname req =s? health) = true -> (method req =s? POST) && (pathname req =s? sessionLogin) = false ->
  active_tenant o req g = T -> shared g = shared h -> alike_at (arrive o id req d) g h.
Proof.
  intros Ea Hf Hapi Hlogin HT E. unfold active_tenant in HT. rewrite bool_decide_true in HT by (by rewrite Ea).
  cbn [andb] in HT. rewrite Hapi, Hlogin in HT. cbn [negb andb] in HT.
  assert (Hretn : forall r : Reply + Waiting, alike_at (mret r) g h) by (intros r; by apply isolated_ret).
  unfold arrive. rewrite Ea, Hlogin, Hapi.
  assert (Hgo : alike_at (authenticated req a d ≫= (fun r => match r with
      | inl reply => mret (inl reply)
      | inr tenant => if method req =s? POST then mret (inr (ForBody tenant)) else serve o id req tenant ≫= (fun e => mret (inl e))
      end)) g h).
  { apply authenticated_alike; [done| |by intros; apply isolated_ret|by intros ->; apply isolated_ret| |done].
    - intros s Es. refine (eq_trans _ HT).
      exact (f_equal (fun x => match x with Some s => SessionBoundary.tenantId (principal s) | None => [] end) (eq_sym Es)).
    - destruct (method req =s? POST); [apply local_ret|]. apply local_bind; [apply serve_local|intros; apply local_ret]. }
  destruct (findRouteManifestEntry (pathname req)) as [e|]; [destruct (includes (methods e) (method req))|].
  - by apply alike_at_ret_bind.
  - by apply isolated_ret.
  - by apply alike_at_ret_bind.
Qed.

Lemma on_arrival_alike a id req d g h : access o = Some a -> is_ok (freshState (lab d) 0) = true ->
  starts_with "/api/" (pathname req) && negb (pathname req =s? health) = true -> (method req =s? POST) && (pathname req =s? sessionLogin) = false ->
  active_tenant o req g = T -> shared g = shared h -> alike_at (on_arrival o id req d) g h.
Proof.
  intros Ea Hf Hapi Hlogin HT E.
  assert (HT' : active_tenant o req h = T) by (rewrite <- HT; unfold active_tenant; pose proof (shared_eq _ _ E) as (_ & _ & _ & -> & _); done).
  unfold alike_at, on_arrival. rewrite HT, HT'.
  apply alike_at_catch; [by eapply arrive_alike|]. intros e. apply local_bind; [apply failed_local|intros; apply local_ret].
Qed.

Lemma on_body_alike req body d g h : is_Some (access o) -> is_ok (freshState (lab d) 0) = true ->
  readBoundedBody req = Fine body -> shared g = shared h -> alike_at (on_body o req T d) g h.
Proof.
  intros Ha Hf Eb E. unfold alike_at, on_body. rewrite Eb. cbv beta.
  assert (Ek : key_read req body h = key_read req body g) by (unfold key_read; pose proof (shared_eq _ _ E) as (_ & -> & _); done).
  rewrite Ek. refine (alike_isolated _ (alike_then _ _ _ _ (prepare_alike req body d Ha Hf) (failed_local _ _ _) _) g h E).
  intros [reply|i]; [apply local_ret|apply routed_local].
Qed.
End tenants.

(** C20: in authenticated mode a request of a tenant, from the check of its session
    and from its body on, answers the same and leaves the tenant, the sessions,
    the limiter and the streams the same whatever state is bound when it comes
    and whatever the other tenants hold; those it leaves as they are, and only
    streams of its own tenant are sent anything. *)
Theorem tenant_isolated `{Host, PemExport, UrlParser} {S : Type} `{LabStore S} (o : LabOptions) (T : jstr) (a : Access) (id : nat) (req : Request)
    (d : Draws) (g h : LabServer S) :
  access o = Some a -> is_ok (freshState (lab d) 0) = true -> shared T g = shared T h ->
  (forall body, readBoundedBody req = Fine body -> alike_at T (on_body o req T d) g h) /\
  (starts_with "/api/" (pathname req) && negb (pathname req =s? health) = true -> (method req =s? POST) && (pathname req =s? sessionLogin) = false ->
   active_tenant o req g = T -> alike_at T (on_arrival o id req d) g h).
Proof.
  intros Ea Hf E. split.
  - intros body Eb. by apply (on_body_alike o T req body).
  - intros Hapi Hlogin HT. by apply (on_arrival_alike o T a).
Qed.
