(* ===== verification/LabStoreLaws.v ===== *)
(** LabStoreLaws: what apps/realtime-lab/server.ts relies on in its database, the
    interface its persistence is proved against, and a store that keeps it. *)
From S2P Require Import Prelude JsString JsMap Host Engine AuditLog LabRequest LabState LabServer.
#[local] Open Scope string_scope.
#[local] Open Scope list_scope.
#[local] Open Scope Z_scope.
#[local] Open Scope js_scope.

(** The snapshot and the answers recorded under their keys. *)
Class LabStoreView (S : Type) := {
  st_snapshot : S -> option (jstr * Z * PersistedLabSnapshot);
  st_answer : S -> jstr -> option (jstr * PersistedHttpResponse);
}.

(** Nothing the server can see is different. *)
Definition same_store {S} `{LabStoreView S} (s s' : S) : Prop :=
  st_snapshot s' = st_snapshot s /\ forall k, st_answer s' k = st_answer s k.

(** Reads tell what is stored; a swap makes the version the next one, and needs
    the one it is given; a call that throws has been undone; the operation of an
    idempotent call runs where its key is new, and its answer is then recorded
    together with what it did. *)
Class LabStoreLaws (S : Type) `{LabStore S, LabStoreView S} : Prop := {
  store_get_spec s r : store_get s = Ok r -> r = st_snapshot s;
  store_create_spec value s r s' : store_create value s = (r, s') -> match r with
    | Ok v => st_snapshot s = None /\ st_snapshot s' = Some (LAB_SNAPSHOT_STATUS, v, value) /\ forall k, st_answer s' k = st_answer s k
    | Throw _ => same_store s s'
    end;
  store_swap_spec version value s r s' : store_swap version value s = (r, s') -> match r with
    | Ok v => v = version + 1 /\ (exists old, st_snapshot s = Some (LAB_SNAPSHOT_STATUS, version, old)) /\
              st_snapshot s' = Some (LAB_SNAPSHOT_STATUS, v, value) /\ forall k, st_answer s' k = st_answer s k
    | Throw _ => same_store s s'
    end;
  store_run_spec (A : Type) k h (op : St S (A * PersistedHttpResponse)) s r s' : store_run A k h op s = (r, s') -> match r with
    | Ok (None, v) => st_answer s k = Some (h, v) /\ same_store s s'
    | Ok (Some a, v) => st_answer s k = None /\ exists s0 s1, same_store s s0 /\ op s0 = (Ok (a, v), s1) /\
        st_snapshot s' = st_snapshot s1 /\ forall k', st_answer s' k' = if decide (k' = k) then Some (h, v) else st_answer s1 k'
    | Throw _ => same_store s s'
    end;
  store_getIdempotent_spec k h s r : store_getIdempotent k h s = Ok r -> match r with
    | Some v => st_answer s k = Some (h, v)
    | None => st_answer s k = None
    end;
}.

(** ** A store that never fails of itself *)

Module Memory.
Record t : Type := { snap : option (jstr * Z * PersistedLabSnapshot); answers : list (jstr * (jstr * PersistedHttpResponse)) }.

Definition swap (version : Z) (value : PersistedLabSnapshot) : St t Z := fun s =>
  match snap s with
  | Some (st, v, _) => if (st =s? LAB_SNAPSHOT_STATUS) && (v =? version) then (Ok (v + 1), {| snap := Some (st, v + 1, value); answers := answers s |})
                         else (Throw "compare-and-swap conflict", s)
  | None => (Throw "compare-and-swap conflict", s)
  end.
Definition create (value : PersistedLabSnapshot) : St t Z := fun s =>
  match snap s with
  | None => (Ok 1, {| snap := Some (LAB_SNAPSHOT_STATUS, 1, value); answers := answers s |})
  | Some _ => (Throw "challenge already exists", s)
  end.
Definition run (A : Type) (k h : jstr) (op : St t (A * PersistedHttpResponse)) : St t (option A * PersistedHttpResponse) := fun s =>
  match map_get k (answers s) with
  | Some (h', v) => (if h' =s? h then Ok (None, v) else Throw "idempotency key reused with a different request", s)
  | None => match op s with
            | (Ok (a, v), s1) => (Ok (Some a, v), {| snap := snap s1; answers := map_set k (h, v) (answers s1) |})
            | (Throw e, _) => (Throw e, s)
            end
  end.
Definition getIdempotent (k h : jstr) (s : t) : result (option PersistedHttpResponse) :=
  match map_get k (answers s) with
  | Some (h', v) => if h' =s? h then Ok (Some v) else Throw "idempotency key reused with a different request"
  | None => Ok None
  end.

#[export] Instance store : LabStore t :=
  {| store_get := fun s => Ok (snap s); store_create := create; store_swap := swap; store_run := run; store_getIdempotent := getIdempotent |}.
#[export] Instance store_view : LabStoreView t := {| st_snapshot := snap; st_answer := fun s k => map_get k (answers s) |}.

#[export] Instance store_laws : LabStoreLaws t.
Proof.
  split.
  - intros s r. cbn. by intros [= <-].
  - intros value s r s'. cbn. unfold create. destruct (snap s) as [x|] eqn:E; intros [= <- <-]; done.
  - intros version value s r s'. cbn. unfold swap. destruct (snap s) as [[[st v] old]|] eqn:E; [|by intros [= <- <-]].
    destruct (_ && _) eqn:Ev; intros [= <- <-]; [|done]. apply andb_true_iff in Ev as [->%jeqb_true ->%Z.eqb_eq]. cbn. split_and!; eauto.
  - intros A k h op s r s'. cbn. unfold run. destruct (map_get k (answers s)) as [[h' v]|] eqn:E.
    + destruct (h' =s? h) eqn:Eh; intros [= <- <-]; [|done]. by apply jeqb_true in Eh as ->.
    + destruct (op s) as [[[a v]|e] s1] eqn:Eo; intros [= <- <-]; [|done]. split; [done|]. exists s, s1. split; [done|]. split; [done|].
      split; [done|]. intros k'. cbn. destruct (decide (k' = k)) as [->|Hne]; [by rewrite map_get_set_eq|by rewrite map_get_set_ne].
  - intros k h s r. cbn. unfold getIdempotent. destruct (map_get k (answers s)) as [[h' v]|] eqn:E; [|by intros [= <-]].
    destruct (h' =s? h) eqn:Eh; intros [= <-]. by apply jeqb_true in Eh as ->.
Qed.
End Memory.
