(* ===== verification/LabStartup.v ===== *)
(** LabStartup: apps/realtime-lab/server.ts, [createLabServer] and the start of
    the process: the checks of the access configuration and what becomes of the
    stored snapshot.  Telemetry and static files are left out. *)
From S2P Require Import Prelude JsString JsMap Host JsTime JsJson JsNumber Url DeviceKeys AuditLog Engine SessionBoundary RateLimiter AccessToken.
From S2P Require Import LabRequest LabState LabRoutes LabServer.
#[local] Open Scope string_scope.
#[local] Open Scope list_scope.
#[local] Open Scope Z_scope.
#[local] Open Scope js_scope.

Record ProviderConfig : Type := { type : jstr; pc_credentials : list BootstrapCredential; hasVerifier : bool; pc_options : option OidcVerifierOptions }.

Record AccessConfig : Type := {
  identityProvider : option ProviderConfig; ac_allowedOrigins : list jstr; allowInsecureTestOrigins : bool;
  ac_absoluteTtlMs : option jsnum; ac_idleTtlMs : option jsnum; ac_maxSessions : option jsnum; ac_maxSessionsPerPrincipal : option jsnum;
}.

(** [lc_access] is [Some] in authenticated mode, [lc_store] where there is a
    [dbPath], and [lc_rateLimit] is [None] where it is switched off. *)
Record LabConfig (S : Type) : Type := {
  lc_access : option AccessConfig; lc_store : option S; lc_rateLimit : option RateLimitConfig; lc_trustedProxies : list jstr;
  lc_sseLimit : option SseLimitConfig; lc_faultInjector : jstr -> option jstr; lc_auditCopyVerifier : list AuditEvent -> bool;
}.
Arguments lc_access {S} l.
Arguments lc_store {S} l.
Arguments lc_rateLimit {S} l.
Arguments lc_trustedProxies {S} l.
Arguments lc_sseLimit {S} l.
Arguments lc_faultInjector {S} l.
Arguments lc_auditCopyVerifier {S} l.

Definition BOOTSTRAP : jstr := "bootstrap-controlled-demo".
Definition OIDC : jstr := "oidc".

Section startup.
Context `{Host, PemExport, UrlParser}.
Context {S : Type} `{LabStore S}.

(** The provider of authenticated mode. *)
Definition check_provider (p : option ProviderConfig) : result ProviderConfig :=
  match p with
  | None => Throw "authenticated mode requires one supported identity provider"
  | Some p =>
      throw_if (negb (includes [BOOTSTRAP; OIDC] (type p))) "authenticated mode requires one supported identity provider" ≫= fun _ =>
      throw_if ((type p =s? BOOTSTRAP) && bool_decide (pc_credentials p = [])) "controlled-demo bootstrap provider requires credentials" ≫= fun _ =>
      throw_if ((type p =s? OIDC) && Bool.eqb (hasVerifier p) (bool_decide (is_Some (pc_options p)))) "OIDC provider requires exactly one of verifier or options" ≫= fun _ =>
      (if type p =s? OIDC then match pc_options p with Some options => AccessToken.constructor options ≫= fun _ => Ok tt | None => Ok tt end else Ok tt) ≫= fun _ =>
      Ok p
  end.

Definition check_origin (insecure : bool) (value : jstr) : result unit :=
  match url_parse value with
  | None => Throw "Invalid URL"
  | Some parsed =>
      let insecureTestOrigin := insecure && (protocol parsed =s? "http:") && includes [js "127.0.0.1"; js "localhost"] (hostname parsed) in
      throw_if (negb (value =s? origin parsed) || (negb (protocol parsed =s? "https:") && negb insecureTestOrigin))
        "authenticated origins must be exact HTTPS origins"
  end.

Definition no_sessions : SessionBoundary :=
  {| credentials := []; SessionBoundary.sessions := []; absoluteTtlMs := 0; idleTtlMs := 0; maxSessions := 0; maxSessionsPerPrincipal := 0 |}.

(** Access control and its sessions; the simulator has neither. *)
Definition open_access (a : option AccessConfig) : result (option Access * SessionBoundary) :=
  match a with
  | None => Ok (None, no_sessions)
  | Some a =>
      check_provider (identityProvider a) ≫= fun p =>
      SessionBoundary.constructor {| opt_credentials := if type p =s? BOOTSTRAP then pc_credentials p else []; opt_absoluteTtlMs := ac_absoluteTtlMs a;
        opt_idleTtlMs := ac_idleTtlMs a; opt_maxSessions := ac_maxSessions a; opt_maxSessionsPerPrincipal := ac_maxSessionsPerPrincipal a |} ≫= fun sessions =>
      throw_if (bool_decide (ac_allowedOrigins a = [])) "authenticated mode requires an origin allowlist" ≫= fun _ =>
      for_each (ac_allowedOrigins a) (check_origin (allowInsecureTestOrigins a)) ≫= fun _ =>
      Ok (Some {| allowedOrigins := ac_allowedOrigins a; oidc := type p =s? OIDC |}, sessions)
  end.

(** The state is restored from the store or fresh; a snapshot of the first schema
    is replaced and a missing one written. *)
Definition open_store (s : S) (d : LabState.Draw) : result (LabState * S * Z) :=
  store_get s ≫= fun stored =>
  match stored with
  | Some (status, version, value) =>
      throw_if (negb (status =s? LAB_SNAPSHOT_STATUS)) "invalid realtime-lab snapshot status" ≫= fun _ =>
      restoreLabState value ≫= fun state =>
      if schemaVersion value =? 1 then
        let '(r, s) := store_swap version (snapshotLabState state) s in r ≫= fun version => Ok (state, s, version)
      else Ok (state, s, version)
  | None =>
      freshState d 0 ≫= fun state =>
      let '(r, s) := store_create (snapshotLabState state) s in r ≫= fun version => Ok (state, s, version)
  end.

Definition createLabServer (c : LabConfig S) (d : LabState.Draw) : result (LabOptions * LabServer S) :=
  throw_if (bool_decide (is_Some (lc_access c)) && bool_decide (is_Some (lc_store c)))
    "authenticated multi-tenant mode cannot use the single-tenant simulator database" ≫= fun _ =>
  open_access (lc_access c) ≫= fun '(access, sessions) =>
  (match lc_rateLimit c with Some r => RateLimiter.constructor r ≫= fun m => Ok (Some m) | None => Ok None end) ≫= fun limiter =>
  (match lc_store c with
   | Some s => open_store s d ≫= fun '(state, s, version) => Ok (state, Some s, Some version)
   | None => freshState d 0 ≫= fun state => Ok (state, None, None)
   end) ≫= fun '(state, store, version) =>
  Ok ({| LabServer.access := access; trustedProxies := lc_trustedProxies c; sseLimit := lc_sseLimit c;
         LabServer.faultInjector := lc_faultInjector c; auditCopyVerifier := lc_auditCopyVerifier c |},
      {| LabServer.state := state; tenantStates := []; persistentStore := store; persistedVersion := version; LabServer.sessions := sessions;
         LabServer.limiter := limiter; database_ready := bool_decide (is_Some store); identityProvider_ready := bool_decide (is_Some access);
         listeners := []; ssePerClient := []; sent := [] |}).

(** The process starts in exactly one of the two modes. *)
Definition startup_mode (simulatorMode : bool) (authConfigPath : option jstr) : result (option jstr) :=
  let configured := match authConfigPath with Some (_ :: _) => true | _ => false end in
  throw_if (Bool.eqb simulatorMode configured)
    "Set exactly one of AIRLOCK_SIMULATOR_MODE=true or AIRLOCK_AUTH_CONFIG_PATH; startup fails closed by default." ≫= fun _ =>
  Ok (if simulatorMode then None else authConfigPath).
End startup.
