(* ===== verification/LabPersistence.v ===== *)
(** LabPersistence: apps/realtime-lab/server.ts with a database.  What the
    process holds is what is stored, or the store has been moved on by another
    process and the next write is refused; a keyed mutation is carried out once. *)
From S2P Require Import Prelude JsString JsMap Host JsTime JsJson JsNumber Url DeviceKeys AuditLog Engine EngineSnapshot SessionBoundary RateLimiter AccessToken.
From S2P Require Import LabRequest LabState LabRoutes LabServer LabStoreLaws.
#[local] Open Scope string_scope.
#[local] Open Scope list_scope.
#[local] Open Scope Z_scope.
#[local] Open Scope js_scope.

(** ** Snapshots *)

(** All but the schema's version and the last result. *)
Record same_part (p q : PersistedLabSnapshot) : Prop := {
  sp_engine : ps_engine p = ps_engine q; sp_keys : ps_keys p = ps_keys q;
  sp_provisioning : pointer (provisioningRequestId p) = pointer (provisioningRequestId q);
  sp_transaction : pointer (ps_transactionId p) = pointer (ps_transactionId q);
  sp_demonstration : ps_demonstration p = ps_demonstration q;
}.
#[global] Instance same_part_equivalence : Equivalence same_part.
Proof.
  split.
  - intros p. by split.
  - intros p q [? ? ? ? ?]. by split.
  - intros p q r [? ? ? ? ?] [? ? ? ? ?]. split; by etransitivity.
Qed.

Section snapshots.
Context `{Host, PemExport}.

(** The state is what the snapshot tells. *)
Definition agrees (p : PersistedLabSnapshot) (s : LabState) : Prop := same_part p (snapshotLabState s).

Lemma pointer_some o id : pointer o = Some id -> pointer (Some id) = Some id.
Proof. destruct o as [[|c r]|]; by intros [= <-]. Qed.

Lemma restored_agrees p s : restoreLabState p = Ok s -> agrees p s.
Proof.
  unfold restoreLabState. cbv zeta. rewrite !throw_if_bind_Ok. intros (_ & _ & Hr). revert Hr.
  destruct (createPrivateKey _) as [k|]; [|done]. rewrite throw_if_bind_Ok. intros [_ Hr]. revert Hr.
  rewrite result_bind_Ok. intros (e & He & Hr). revert Hr. rewrite throw_if_bind_Ok. intros [_ Hr]. revert Hr.
  rewrite throw_if_bind_Ok. intros [Hp Hr]. revert Hr. rewrite throw_if_bind_Ok. intros [Ht [= <-]].
  split; cbn; [by rewrite (snapshot_restored _ _ He)|done| | |done].
  - destruct (pointer (provisioningRequestId p)) as [id|] eqn:E; [|done]. cbn in Hp |- *.
    destruct (List.find _ _) as [r|] eqn:F; [|done]. apply List.find_some in F as [_ F%jeqb_true]. cbn. rewrite F. symmetry. by apply (pointer_some _ _ E).
  - destruct (pointer (ps_transactionId p)) as [id|] eqn:E; [|done]. cbn in Ht |- *.
    destruct (getTransaction id e) as [t|] eqn:F; [|done]. unfold getTransaction in F.
    apply restore_fields in He as (_ & _ & _ & _ & _ & _ & _ & _ & E9 & _). rewrite E9 in F. apply keyed_get in F as [F _]. cbn. rewrite F.
    symmetry. by apply (pointer_some _ _ E).
Qed.

Lemma agrees_result p s r : agrees p s -> agrees p (set_lastResult r s).
Proof. intros [? ? ? ? ?]. by split. Qed.
Lemma agrees_trans p q s : same_part p q -> agrees q s -> agrees p s.
Proof. unfold agrees. intros ->. done. Qed.
End snapshots.

(** ** Routes *)

Section routes.
Context `{Host, PemExport}.
Variable faultInjector : jstr -> option jstr.
Variable auditCopyVerifier : list AuditEvent -> bool.
Variable d : LabState.Draw.

Definition is_http (e : Thrown) : bool := match e with HttpError _ _ _ => true | _ => false end.
(** No refusal of the request; none once the state has changed. *)
Definition no_http {A} (m : Act A) : Prop := forall s, match m s with (Threw e, _) => is_http e = false | _ => True end.
Definition early {A} (m : Act A) : Prop := forall s, match m s with (Threw e, s') => is_http e = true -> s' = s | _ => True end.
Definition steady {A} (m : Act A) : Prop := forall s, (m s).2 = s.

Lemma no_http_bind {A B} (m : Act A) (k : A -> Act B) : no_http m -> (forall a, no_http (k a)) -> no_http (m ≫= k).
Proof. intros Hm Hk s. unfold mbind, act_bind. specialize (Hm s). destruct (m s) as [[a|e] s']; [apply Hk|done]. Qed.
Lemma no_http_catching {A} (m : Act A) (h : Thrown -> Act A) : no_http m -> (forall e, is_http e = false -> no_http (h e)) -> no_http (catching m h).
Proof. intros Hm Hh s. unfold catching. specialize (Hm s). destruct (m s) as [[a|e] s']; [done|]. by apply Hh. Qed.
Lemma no_http_ret {A} (a : A) : no_http (mret a).
Proof. done. Qed.
Lemma no_http_fails {A} e : is_http e = false -> no_http (A := A) (fails e).
Proof. intros He s. exact He. Qed.
Lemma no_http_plain {A} (r : result A) : no_http (check (plain r)).
Proof. by destruct r. Qed.
Lemma no_http_demand b m : no_http (demand b m).
Proof. by destruct b. Qed.
Lemma no_http_change f : no_http (change f).
Proof. done. Qed.
Lemma no_http_get : no_http get_state.
Proof. done. Qed.
Lemma no_http_calling {A} (m : St AirlockEngine A) : no_http (calling m).
Proof. intros s. unfold calling. by destruct (m (engine s)) as [[a|e] e']. Qed.
Lemma no_http_sign ks b : no_http (sign_with ks b).
Proof. apply no_http_plain. Qed.

Lemma early_plain {A} (m : Act A) : no_http m -> early m.
Proof. intros Hm s. specialize (Hm s). destruct (m s) as [[a|e] s']; [done|]. by rewrite Hm. Qed.
Lemma early_bind {A B} (m : Act A) (k : A -> Act B) : steady m -> (forall a, early (k a)) -> early (m ≫= k).
Proof.
  intros Hm Hk s. unfold mbind, act_bind. specialize (Hm s). destruct (m s) as [[a|e] s']; cbn in Hm; subst s'; [apply Hk|done].
Qed.

Create HintDb no_http.
#[local] Hint Resolve no_http_ret no_http_plain no_http_demand no_http_change no_http_get no_http_calling no_http_sign : no_http.
Ltac no_http := repeat (cbv beta zeta; lazymatch goal with
  | |- no_http (_ ≫= _) => apply no_http_bind; [|intros ?]
  | |- no_http (fails _) => by apply no_http_fails
  | |- no_http (match ?x with _ => _ end) => destruct x eqn:?
  | |- _ => by auto with no_http
  end).

Lemma record_no_http b x y z w : no_http (record_result d b x y z w).
Proof. unfold record_result. no_http. Qed.
Lemma succeed_no_http x y z : no_http (succeed faultInjector d x y z).
Proof. unfold succeed, inject. apply no_http_bind; [apply record_no_http|intros _; no_http]. Qed.
Lemma warn_no_http x y z : no_http (warn faultInjector d x y z).
Proof. unfold warn, inject. apply no_http_bind; [apply record_no_http|intros _; no_http]. Qed.
#[local] Hint Resolve record_no_http succeed_no_http warn_no_http : no_http.

Lemma reset_no_http : no_http (reset_lab d).
Proof. intros s. unfold reset_lab. by destruct (freshState d 1). Qed.
Lemma audit_attack_no_http c l : no_http (audit_attack d c l).
Proof. unfold audit_attack. no_http. Qed.
#[local] Hint Resolve reset_no_http audit_attack_no_http : no_http.

Lemma demonstrate_no_http a : no_http (demonstrate d a).
Proof.
  unfold demonstrate. apply no_http_bind; [no_http|]. intros s. destruct (challenged s) as [[t original]|]; [|no_http].
  apply no_http_bind; [no_http|]. intros _. apply no_http_bind; [|no_http]. apply no_http_catching.
  - unfold run_attack. no_http.
  - intros e He. unfold attack_blocked. cbv zeta. destruct (starts_with _ _); [by apply no_http_fails|]. no_http.
Qed.

Lemma request_early req body : early (transaction_request faultInjector d req body).
Proof.
  unfold transaction_request. apply early_bind; [done|]. intros v. apply early_bind; [done|]. intros s.
  apply early_bind; [by intros ?; destruct (bool_decide _)|]. intros _. apply early_bind; [done|]. intros mid. apply early_bind; [done|]. intros am.
  apply early_plain. no_http.
Qed.

Lemma mutate_http req body route s st m c s' : mutate faultInjector auditCopyVerifier d req body = Some route ->
  route s = (Threw (HttpError st m c), s') -> s' = s.
Proof.
  intros Em Er. enough (early route) as He by (specialize (He s); rewrite Er in He; by apply He).
  unfold mutate in Em. repeat (destruct (_ =s? _); [injection Em as <-; try apply request_early; apply early_plain|]).
  all: try (destruct (starts_with _ _); [|done]; injection Em as <-; apply early_plain, demonstrate_no_http).
  - apply reset_no_http.
  - unfold provision_request. no_http.
  - unfold provision_attack. no_http.
  - unfold provision_approve. no_http.
  - unfold device_revoke. no_http.
  - unfold transaction_confirm. no_http.
  - unfold transaction_expire. no_http.
  - unfold transaction_clear. no_http.
  - unfold audit_tamper. no_http.
Qed.
End routes.

(** ** Steps *)

Section persistence.
Context `{Host, PemExport, UrlParser}.
Context {S : Type} `{LabStoreLaws S}.
Variable o : LabOptions.
Hypothesis simulator : access o = None.

Abbreviation Server := (LabServer S).
Implicit Types g : LabServer S.

Definition triple {A} (P : Server -> Prop) (m : Srv A) (Q : A -> Server -> Prop) (E : Exn -> Server -> Prop) : Prop :=
  forall g, P g -> match m g with (inl a, g') => Q a g' | (inr e, g') => E e g' end.

Lemma triple_ret {A} (a : A) P Q E : (forall g, P g -> Q a g) -> triple P (mret a) Q E.
Proof. intros Hq g HP. by apply Hq. Qed.
Lemma triple_throwing {A} e P Q E : (forall g, P g -> E e g) -> triple (A := A) P (throwing e) Q E.
Proof. intros Hq g HP. by apply Hq. Qed.
Lemma triple_bind {A B} (m : Srv A) (k : A -> Srv B) P Q R E : triple P m R E -> (forall a, triple (R a) (k a) Q E) -> triple P (m ≫= k) Q E.
Proof.
  intros Hm Hk g HP. specialize (Hm g HP). unfold mbind, srv_bind. destruct (m g) as [[a|e] g']; [|done]. by apply Hk.
Qed.
Lemma triple_catch {A} (m : Srv A) (h : Exn -> Srv A) P Q R E : triple P m Q R -> (forall e, triple (R e) (h e) Q E) -> triple P (try_catch m h) Q E.
Proof. intros Hm Hh g HP. specialize (Hm g HP). unfold try_catch. destruct (m g) as [[a|e] g']; [done|]. by apply Hh. Qed.
Lemma triple_then {A B} (m : Srv A) (h : Exn -> Srv B) (k : A -> Srv B) P Q R R' E :
  triple P m R' R -> (forall e, triple (R e) (h e) Q E) -> (forall a, triple (R' a) (k a) Q E) -> triple P (try_then m h k) Q E.
Proof. intros Hm Hh Hk g HP. specialize (Hm g HP). unfold try_then. destruct (m g) as [[a|e] g']; [by apply Hk|by apply Hh]. Qed.
Lemma triple_conseq {A} (m : Srv A) (P P' : Server -> Prop) (Q Q' : A -> Server -> Prop) (E E' : Exn -> Server -> Prop) :
  triple P' m Q' E' -> (forall g, P g -> P' g) -> (forall a g, Q' a g -> Q a g) -> (forall e g, E' e g -> E e g) -> triple P m Q E.
Proof. intros Hm HP HQ HE g Hg. specialize (Hm g (HP g Hg)). destruct (m g) as [[a|e] g']; auto. Qed.
Lemma triple_server {B} (k : Server -> Srv B) P Q E : (forall g0, triple (fun g => g = g0 /\ P g) (k g0) Q E) -> triple P (server ≫= k) Q E.
Proof. intros Hk g HP. by apply (Hk g). Qed.
Lemma triple_update f (P : Server -> Prop) Q E : (forall g, P g -> Q tt (f g)) -> triple P (update f) Q E.
Proof. intros Hf g HP. by apply Hf. Qed.
Lemma triple_fallibly {A} (r : fallible A) P (Q : A -> Server -> Prop) E :
  (forall a g, r = Fine a -> P g -> Q a g) -> (forall e g, r = Threw e -> P g -> E (Plain e) g) -> triple P (fallibly r) Q E.
Proof. intros HQ HE g HP. unfold fallibly. destruct r; cbn; auto. Qed.
Lemma triple_resulting {A} (r : result A) P (Q : A -> Server -> Prop) E :
  (forall a g, r = Ok a -> P g -> Q a g) -> (forall e g, r = Throw e -> P g -> E (Plain (PlainError e)) g) -> triple P (resulting r) Q E.
Proof. intros HQ HE. apply triple_fallibly; intros x g Er; destruct r; cbn in Er; simplify_eq; auto. Qed.

(** ** What is stored *)

(** Answers recorded so far. *)
Variable known : jstr -> option (jstr * PersistedHttpResponse).
Definition keeps_known (s : S) : Prop := forall k x, known k = Some x -> st_answer s k = Some x.

(** The version the process knows is behind the stored one, or it is that one
    and, unless what is stored cannot be restored, the stored snapshot is as told. *)
Definition holds (P : PersistedLabSnapshot -> Prop) g : Prop := exists s st v v' value,
  persistentStore g = Some s /\ persistedVersion g = Some v /\ st_snapshot s = Some (st, v', value) /\ v <= v' /\
  (v = v' -> is_ok (restoreLabState value) = true -> P value) /\ keeps_known s.
Definition in_step g : Prop := holds (fun value => agrees value (state g)) g.

Lemma holds_impl (P Q : PersistedLabSnapshot -> Prop) g : (forall value, P value -> Q value) -> holds P g -> holds Q g.
Proof. intros HPQ (s & st & v & v' & value & E1 & E2 & E3 & E4 & E5 & E6). exists s, st, v, v', value. by split_and!; auto. Qed.
Lemma holds_same P g g' : persistentStore g' = persistentStore g -> persistedVersion g' = persistedVersion g -> holds P g -> holds P g'.
Proof. intros E1 E2. unfold holds. by rewrite E1, E2. Qed.

Lemma in_step_same g g' : state g' = state g -> persistentStore g' = persistentStore g -> persistedVersion g' = persistedVersion g -> in_step g -> in_step g'.
Proof. intros Es. unfold in_step. rewrite Es. by apply holds_same. Qed.

Lemma same_store_known s s' : same_store s s' -> keeps_known s -> keeps_known s'.
Proof. intros [_ E] Hk k x Ek. rewrite E. by apply Hk. Qed.
(** A call that has been undone. *)
Lemma holds_store P s s' g : persistentStore g = Some s -> same_store s s' -> holds P g -> holds P (set_store s' (persistedVersion g) g).
Proof.
  intros Es Hs (s0 & st & v & v' & value & E1 & E2 & E3 & E4 & E5 & E6). rewrite Es in E1. injection E1 as <-.
  exists s', st, v, v', value. destruct Hs as [Hs1 Hs2]. rewrite Hs1. split_and!; auto. by apply (same_store_known s).
Qed.
(** The version is read again. *)
Lemma holds_read (P Q : PersistedLabSnapshot -> Prop) g s st v value : persistentStore g = Some s -> st_snapshot s = Some (st, v, value) ->
  (is_ok (restoreLabState value) = true -> Q value) -> holds P g -> holds Q (set_store s (Some v) g).
Proof.
  intros Es Hs HQ (s0 & st0 & v0 & v' & value0 & E1 & E2 & E3 & E4 & E5 & E6). rewrite Es in E1. injection E1 as <-.
  exists s, st, v, v, value. split_and!; auto; lia.
Qed.

(** The state has just been stored. *)
Definition saved (s0 : LabState) g : Prop := state g = s0 /\ exists s st v,
  persistentStore g = Some s /\ persistedVersion g = Some v /\ st_snapshot s = Some (st, v, snapshotLabState s0) /\ keeps_known s.
Lemma saved_in_step s0 g : saved s0 g -> in_step g.
Proof. intros (Es & s & st & v & E1 & E2 & E3 & E4). exists s, st, v, v, (snapshotLabState s0). split_and!; auto; [lia|]. by rewrite Es. Qed.

(** A write that throws. *)
Definition aborted (P : PersistedLabSnapshot -> Prop) (s0 : LabState) (e : Exn) g : Prop :=
  match e with
  | PersistenceError _ _ _ (Some a) => holds (fun value => agrees value a) g
  | Plain (HttpError _ _ _) => False
  | _ => holds P g /\ state g = s0
  end.

Lemma swapped_saved P version g s r s' : holds P g -> persistentStore g = Some s -> persistedVersion g = Some version ->
  store_swap version (snapshotLabState (state g)) s = (r, s') ->
  match r with
  | Ok v => saved (state g) (set_store s' (Some v) g)
  | Throw _ => same_store s s'
  end.
Proof.
  intros (s1 & st & v & v' & value & E1 & E2 & E3 & E4 & E5 & E6) Es Ev Hr%store_swap_spec. rewrite Es in E1. injection E1 as <-.
  destruct r as [w|e]; [|done]. destruct Hr as (-> & _ & Hs' & Ha). split; [done|]. exists s', LAB_SNAPSHOT_STATUS, (version + 1).
  split_and!; auto. intros k x Hk. rewrite Ha. auto.
Qed.

Lemma persist_spec P s0 : triple (fun g => holds P g /\ state g = s0) persist (fun _ => saved s0) (aborted P s0).
Proof.
  intros g [HP Es0]. destruct HP as (s & st & v & v' & value & E1 & E2 & E3 & E4 & E5 & E6).
  assert (HP : holds P g) by (exists s, st, v, v', value; split_and!; auto).
  unfold persist. unfold mbind at 1, srv_bind at 1, server. rewrite E1, E2. unfold mbind at 1, srv_bind at 1, storing.
  destruct (store_swap v (snapshotLabState (state g)) s) as [r s'] eqn:Er.
  pose proof (swapped_saved P v g s r s' HP E1 E2 Er) as Hr. destruct r as [w|message].
  - subst s0. exact Hr.
  - pose proof (holds_store P s s' g E1 Hr HP) as HP1. rewrite E2 in HP1.
    unfold mbind, srv_bind, server, throwing, mret, srv_ret, restored, resulting, fallibly, update. rewrite ?E2. cbn [persistentStore set_store default from_option].
    destruct (message =s? _); cbv beta iota; [|by split].
    destruct (store_get (id s')) as [current|e] eqn:Eg; cbn [plain]; [|by split]. cbn [id] in Eg. apply store_get_spec in Eg as ->.
    rewrite (proj1 Hr), E3. cbv beta iota. cbn [persistentStore set_store from_option id]. destruct (restoreLabState value) as [a|e] eqn:Ea; cbn [plain aborted].
    + eapply (holds_read _ _ (set_store s' (Some v) g)); [done|by rewrite (proj1 Hr)| |exact HP1]. intros _. by apply restored_agrees.
    + split; [|done]. eapply (holds_read _ _ (set_store s' (Some v) g)); [done|by rewrite (proj1 Hr)| |exact HP1]. by rewrite Ea.
Qed.

Lemma not_saved_spec P s0 s message : triple (fun g => holds P g /\ state g = s0) (not_saved s message) (fun _ _ => False) (aborted P s0).
Proof.
  intros g [HP Es0]. pose proof HP as (s1 & st & v & v' & value & E1 & E2 & E3 & E4 & E5 & E6).
  unfold not_saved, mbind, srv_bind, server, throwing, mret, srv_ret, restored, resulting, fallibly, update. rewrite E1. cbn [default from_option id].
  destruct (store_get s1) as [current|e] eqn:Eg; cbn [plain]; [|by split]. apply store_get_spec in Eg as ->. rewrite E3. cbv beta iota.
  destruct (restoreLabState value) as [a|e] eqn:Ea; cbn [plain]; [|by split].
  rewrite E1. cbn [default from_option id].
  assert (Ha : holds (fun value => agrees value a) (set_store s1 (Some v') g)).
  { eapply (holds_read P _ g); [done|done| |done]. intros _. by apply restored_agrees. }
  destruct (message =s? _); [done|]. destruct (message =s? _); done.
Qed.

(** The answer is recorded under the key. *)
Definition recorded (i : option RequestIdempotency) (r : PersistedHttpResponse) g : Prop :=
  match i with
  | Some i => exists s, persistentStore g = Some s /\ st_answer s (key i) = Some (requestHash i, r)
  | None => True
  end.

(** A new answer is recorded with the state that goes with it. *)
Definition stored_answer (s0 : LabState) (i : option RequestIdempotency) (response : PersistedHttpResponse) (x : bool * PersistedHttpResponse) g : Prop :=
  recorded i x.2 g /\ if x.1 then in_step g else x.2 = response /\ saved s0 g.

Lemma persistResponse_spec P s0 i response : triple (fun g => holds P g /\ state g = s0) (persistResponse i response) (stored_answer s0 i response) (aborted P s0).
Proof.
  intros g [HP Es0]. pose proof HP as (s & st & v & v' & value & E1 & E2 & E3 & E4 & E5 & E6).
  unfold persistResponse. unfold mbind at 1, srv_bind at 1, server at 1. rewrite E1. destruct i as [i|].
  - rewrite E2. unfold mbind at 1, srv_bind at 1, storing at 1.
    destruct (store_run Z (key i) (requestHash i) _ s) as [r s'] eqn:Er. pose proof (store_run_spec _ _ _ _ _ _ _ Er) as Hr.
    destruct r as [[[committed|] answered]|message].
    + destruct Hr as (Hn & s2 & s1 & Hs2 & Hop & Hsnap & Hans). unfold saving, mbind, St_bind in Hop.
      destruct (store_swap v (snapshotLabState (state g)) s2) as [[w|e] s3] eqn:Ew; [|done]. unfold mret, St_ret in Hop. simplify_eq.
      apply store_swap_spec in Ew as (-> & _ & Hw & Ha). split; [exists s'; split; [done|by rewrite Hans, decide_True]|].
      split; [done|]. split; [done|]. exists s', LAB_SNAPSHOT_STATUS, (v + 1). split_and!; [done|done|by rewrite Hsnap|].
      intros k x Hk. rewrite Hans. destruct (decide (k = key i)) as [->|Hne]; [by rewrite (E6 _ _ Hk) in Hn|].
      rewrite Ha, (proj2 Hs2). auto.
    + destruct Hr as [Ha Hs]. pose proof (holds_store P s s' g E1 Hs HP) as HP1.
      set (g1 := set_store s' (persistedVersion g) g) in *.
      refine (triple_catch _ _ (fun g => g = g1) _ (fun _ g => g = g1) _ _ _ g1 eq_refl).
      * intros ? ->. unfold mbind, srv_bind, server, throwing, mret, srv_ret, restored, resulting, fallibly, update. cbn [persistentStore g1 set_store default from_option id].
        destruct (store_get s') as [current|e] eqn:Eg; cbn [plain]; [|done]. apply store_get_spec in Eg as ->. rewrite (proj1 Hs), E3. cbv beta iota.
        destruct (restoreLabState value) as [a|e] eqn:Ea; cbn [plain]; [|done]. split; cbn.
        -- exists s'. split; [done|]. by rewrite (proj2 Hs).
        -- exists s', st, v', v', value. split_and!; [done|done|by rewrite (proj1 Hs)|lia| |by apply (same_store_known s)].
           intros _ _. by apply restored_agrees.
      * intros e ? ->. pose proof (not_saved_spec P s0 s (match e with Plain e => message_of e | PersistenceError _ m _ _ => m end) g1 (conj HP1 Es0)) as Hn.
        destruct (not_saved _ _ g1) as [[a|e'] g']; done.
    + pose proof (holds_store P s s' g E1 Hr HP) as HP1. pose proof (not_saved_spec P s0 s message _ (conj HP1 Es0)) as Hn.
      destruct (not_saved s message _) as [[a|e'] g']; done.
  - pose proof (persist_spec P s0 g (conj HP Es0)) as Hp. unfold mbind, srv_bind. destruct (persist g) as [[[]|e] g']; [|done]. done.
Qed.

(** The answer that is sent: its state is stored, and it is recorded. *)
Definition answered_with (i : option RequestIdempotency) (reply : Reply) g : Prop := in_step g /\ exists r, reply = Answered r /\ recorded i r g.

Lemma finalize_spec P s0 T i r : is_ok (publicSnapshot s0) = true ->
  triple (fun g => holds P g /\ state g = s0) (finalize o T i r) (answered_with i) (aborted P s0).
Proof.
  intros Hok. unfold finalize. eapply triple_bind; [apply persistResponse_spec|]. intros [b r'].
  apply triple_bind with (R := fun _ => stored_answer s0 i r (b, r')); [|intros []].
  { apply triple_update. intros g Hg. by rewrite simulator. }
  apply triple_bind with (R := fun _ g => in_step g /\ recorded i r' g); [|intros []; apply triple_ret; intros g [Hi Hr]; split; eauto].
  intros g [Hrec Hs]. cbn in Hrec, Hs. destruct b; [by split|]. destruct Hs as [_ Hs]. pose proof (saved_in_step _ _ Hs) as Hi.
  destruct Hs as [Es _]. unfold broadcast, mbind, srv_bind, server, resulting, fallibly, update. rewrite Es.
  destruct (publicSnapshot s0); [|done]. by split.
Qed.

(** An answer that carries the new state has been recorded under its key. *)
Definition acknowledged (i : option RequestIdempotency) (reply : Reply) g : Prop :=
  in_step g /\ forall r p, reply = Answered r -> LabServer.body r = StateBody p -> recorded i r g.
Lemma answered_acknowledged i reply g : answered_with i reply g -> acknowledged i reply g.
Proof. intros (Hi & r & -> & Hr). split; [done|]. by intros r' p [= <-] _. Qed.

(** Where a request may fail: with the state as it was, or to be rolled back to. *)
Definition rollable (rollback : option PersistedLabSnapshot) g : Prop := match rollback with Some p => holds (same_part p) g | None => in_step g end.
Definition failing (rollback : option PersistedLabSnapshot) (e : Exn) g : Prop :=
  match e with
  | PersistenceError _ _ _ (Some a) => holds (fun value => agrees value a) g
  | Plain (HttpError _ _ _) => in_step g
  | _ => rollable rollback g
  end.

(** The state and the snapshot to roll back to are the same. *)
Definition rolled (rollback : option PersistedLabSnapshot) g : Prop := in_step g /\ match rollback with Some p => agrees p (state g) | None => True end.

Lemma roll_back_spec rollback : triple (rollable rollback) (roll_back rollback) (fun _ => rolled rollback) (fun _ _ => True).
Proof.
  intros g Hg. unfold roll_back. destruct rollback as [p|]; [|by split].
  unfold restored, bind_state, mbind, srv_bind, resulting, fallibly, update, plain. destruct (restoreLabState p) as [a|e] eqn:Ea; [|done].
  apply restored_agrees in Ea. split; [|done].
  eapply (holds_impl _ _ (set_state a g)); [|by eapply (holds_same _ g)]. intros value Hv. cbn. eapply agrees_trans; [symmetry; exact Hv|done].
Qed.

Lemma persistence_failed_spec i rollback st m c a : triple (failing rollback (PersistenceError st m c a)) (persistence_failed rollback st m c a) (acknowledged i) (fun _ _ => True).
Proof.
  unfold persistence_failed. apply triple_bind with (R := fun _ => failing rollback (PersistenceError st m c a)); [|intros []].
  { apply triple_update. intros g. cbn. destruct a; [by apply holds_same|]. destruct rollback; by apply holds_same. }
  apply triple_bind with (R := fun _ => in_step); [|intros []].
  { destruct a as [a|]; [|eapply triple_conseq; [apply roll_back_spec|done|by intros ? ? []|done]]. apply triple_update. intros g. by apply (holds_same _ g). }
  apply triple_server. intros g0. apply triple_bind with (R := fun _ => in_step); [apply triple_resulting; [by intros ? ? _ [_ Hg]|done]|].
  intros p. apply triple_ret. intros g Hg. split; [done|]. by intros r p' [= <-].
Qed.

Lemma rejected_spec T i rollback d e : triple (rollable rollback) (rejected o T i rollback d e) (acknowledged i) (fun _ _ => True).
Proof.
  unfold rejected. apply triple_bind with (R := fun _ => rolled rollback); [apply roll_back_spec|intros []]. cbv zeta.
  apply triple_bind with (R := fun _ => rolled rollback); [apply triple_resulting; [by intros ? ? _ Hg|done]|intros at_].
  apply triple_bind with (R := fun _ => rolled rollback); [|intros []].
  { apply triple_update. intros g [Hs Hl]. split; [|destruct rollback; [by apply agrees_result|done]].
    eapply (holds_impl _ _ _); [|by apply (holds_same _ g)]. intros value. cbn. by apply agrees_result. }
  intros g1 [Hs Hl]. set (s1 := state g1).
  refine (triple_catch _ _ (fun g => g = g1) _ (fun e g => match e with PersistenceError _ _ _ _ => failing rollback e g | _ => True end) _ _ _ g1 eq_refl).
  - intros ? ->. unfold mbind, srv_bind, server, resulting, fallibly. fold s1. destruct (publicSnapshot s1) as [p|e'] eqn:Ep; [|done]. cbn [plain].
    lazymatch goal with |- context [finalize o T i ?r] =>
      pose proof (finalize_spec (fun value => agrees value s1) s1 T i r ltac:(by rewrite Ep) g1 (conj Hs eq_refl)) as Hf end.
    destruct (finalize o T i _ g1) as [[reply|e'] g']; [by apply answered_acknowledged|]. destruct e' as [e'|st m c [a|]]; [done|done|]. destruct Hf as [Hf Es].
    cbn. unfold rollable. destruct rollback as [q|]; [|unfold in_step; by rewrite Es].
    eapply (holds_impl _ _ _); [|exact Hf]. intros value Hv. cbn. unfold agrees in *. by rewrite Hl, Hv.
  - intros [e'|st m c a]; [|apply persistence_failed_spec]. by apply triple_throwing.
Qed.

Lemma failed_spec T i rollback d e : triple (failing rollback e) (failed o T i rollback d e) (acknowledged i) (fun _ _ => True).
Proof.
  destruct e as [[st m c|c m|m]|st m c a]; [apply triple_ret; intros g Hg; split; [done|by intros r p [= <-]]|apply rejected_spec|apply rejected_spec|apply persistence_failed_spec].
Qed.

(** ** Requests *)

Lemma aborted_failing p s0 e g : aborted (same_part p) s0 e g -> failing (Some p) e g.
Proof. destruct e as [[st m c|c m|m]|st m c [a|]]; cbn; tauto. Qed.

Lemma run_route_spec req body T i d s0 :
  triple (fun g => in_step g /\ state g = s0) (run_route o req body T i d) (acknowledged i)
    (failing (Some (snapshotLabState s0))).
Proof.
  unfold run_route. destruct (mutate _ _ _ _ _) as [route|] eqn:Em; [|apply triple_ret; intros g [Hg _]; split; [done|by intros r p [= <-]]].
  apply triple_bind with (R := fun _ => holds (same_part (snapshotLabState s0))).
  - intros g [Hg Es]. assert (Hp : forall s, holds (same_part (snapshotLabState s0)) (set_state s g)).
    { intros s. apply (holds_same _ g); [done|done|]. eapply holds_impl; [|exact Hg]. intros value. rewrite Es. unfold agrees. by symmetry. }
    unfold acting. destruct (route (state g)) as [[st|e] s] eqn:Er; [apply Hp|]. destruct e as [st m c|c m|m]; [|apply Hp|apply Hp].
    eapply mutate_http in Er as ->; [|exact Em]. cbn. by apply (holds_same _ g).
  - intros st g1 Hg1. unfold mbind, srv_bind, server, resulting, fallibly. destruct (publicSnapshot (state g1)) as [p|e] eqn:Ep; [|done]. cbn [plain].
    pose proof (finalize_spec (same_part (snapshotLabState s0)) (state g1) T i {| status := st; LabServer.body := StateBody p |} ltac:(by rewrite Ep) g1 (conj Hg1 eq_refl)) as Hf.
    destruct (finalize o T i _ g1) as [[reply|e] g']; [|by apply aborted_failing in Hf]. by apply answered_acknowledged.
Qed.

Lemma routed_spec req body T i d : triple in_step (routed o req body T i d) (acknowledged i) (fun _ _ => True).
Proof.
  intros g Hg. unfold routed.
  exact (triple_catch _ _ _ _ _ _ (run_route_spec req body T i d (state g)) (failed_spec T i (Some (snapshotLabState (state g))) d) g (conj Hg eq_refl)).
Qed.

Lemma replayed_spec i : triple in_step (replayed i) (fun r g => in_step g /\ match r with Some r => recorded (Some i) r g | None => True end) (failing None).
Proof.
  intros g Hg. pose proof Hg as (s & _ & _ & _ & _ & E1 & _). unfold replayed, mbind, srv_bind, server. rewrite E1.
  destruct (store_getIdempotent (key i) (requestHash i) s) as [r|message] eqn:Er; [|by destruct (message =s? _)].
  split; [done|]. apply store_getIdempotent_spec in Er. destruct r as [r|]; [|done]. by exists s.
Qed.

Lemma rate_limit_spec req d : triple in_step (rate_limit o req d) (fun _ => in_step) (failing None).
Proof.
  intros g Hg. unfold rate_limit, mbind, srv_bind, server, update. destruct (limiter g) as [m|]; [|done].
  destruct (RateLimiter.take _ _ m) as [decision m']. by apply (holds_same _ g).
Qed.

(** The key of a request where there is a database. *)
Definition key_of (req : Request) (body : list N) : option RequestIdempotency :=
  match canonicalMutationBody req body with
  | Fine text => match requestIdempotency req (pathname req ++ query req) text true with Fine i => i | Threw _ => None end
  | Threw _ => None
  end.

Lemma in_step_store P g : holds P g -> bool_decide (is_Some (persistentStore g)) = true.
Proof. intros (s & _ & _ & _ & _ & -> & _). done. Qed.
Lemma key_read_eq req body g : in_step g -> key_read req body g = key_of req body.
Proof. intros Hg. unfold key_read. by rewrite (in_step_store _ _ Hg). Qed.

(** A request refused before its route has been answered, or goes on with its key. *)
Lemma prepare_spec req body T d :
  triple in_step (prepare o req body T d)
    (fun r g => match r with inl reply => acknowledged (key_of req body) reply g | inr i => in_step g /\ i = key_of req body end) (failing None).
Proof.
  unfold prepare. rewrite simulator. cbn [bool_decide]. apply triple_bind with (R := fun _ => in_step); [by apply triple_ret|]. intros _.
  apply triple_bind with (R := fun text g => in_step g /\ canonicalMutationBody req body = Fine text).
  { apply triple_fallibly; [done|]. intros e g Ee Hg. by destruct e. }
  intros text. apply triple_server. intros g0.
  apply triple_bind with (R := fun i g => in_step g /\ i = key_of req body).
  { apply triple_fallibly; [|intros e g Ee (_ & Hg & _); by destruct e]. intros i g Ei (<- & Hg & Et). split; [done|].
    rewrite (in_step_store _ _ Hg) in Ei. unfold key_of. by rewrite Et, Ei. }
  intros i. apply triple_bind with (R := fun r g => (in_step g /\ i = key_of req body) /\ match r with Some r => recorded i r g | None => True end).
  { intros g [Hg Ei]. destruct i as [i|]; [|done]. pose proof (replayed_spec i g Hg) as Hr. destruct (replayed i g) as [[r|e] g']; [|done].
    by destruct Hr as [? ?]. }
  intros [r|].
  - apply triple_ret. intros g [[Hg ->] Hr]. split; [done|]. by intros r' p [= <-] _.
  - intros g [[Hg Ei] _]. pose proof (rate_limit_spec req d g Hg) as Hl. unfold mbind, srv_bind. destruct (rate_limit o req d g) as [[[seconds|]|e] g'];
      [split; [done|by intros r p]|done|done].
Qed.

Lemma on_body_spec req T d : triple in_step (on_body o req T d)
  (fun reply g => in_step g /\ forall body, readBoundedBody req = Fine body -> acknowledged (key_of req body) reply g) (fun _ _ => True).
Proof.
  intros g Hg. unfold on_body. destruct (readBoundedBody req) as [body|e].
  - cbv beta. rewrite key_read_eq by done.
    pose proof (triple_then _ _ (fun r => match r with inl reply => mret reply | inr i => routed o req body T i d end) _ _ _ _ _ (prepare_spec req body T d)
      (failed_spec T (key_of req body) None d)) as Ht.
    ospecialize (Ht _ g Hg).
    { intros [reply|i]; [by apply triple_ret|]. intros g1 [Hg1 ->]. by apply routed_spec. }
    destruct (try_then _ _ _ g) as [[reply|e] g']; [|done]. split; [by destruct Ht|]. by intros body' [= <-].
  - pose proof (failed_spec T None None d (Plain e) g) as Hf. assert (Hp : failing None (Plain e) g) by (by destruct e). specialize (Hf Hp).
    destruct (failed o T None None d (Plain e) g) as [[reply|e'] g']; [|done]. split; [by destruct Hf|done].
Qed.

(** Arrivals: without sessions they change streams and limits only. *)
Definition plainly (e : Exn) g : Prop := match e with Plain _ => in_step g | _ => False end.
Definition quiet {A} (m : Srv A) : Prop := triple in_step m (fun _ => in_step) plainly.

Lemma quiet_ret {A} (a : A) : quiet (mret a).
Proof. by apply triple_ret. Qed.
Lemma quiet_fallibly {A} (r : fallible A) : quiet (fallibly r).
Proof. by apply triple_fallibly. Qed.
Lemma quiet_bind {A B} (m : Srv A) (k : A -> Srv B) : quiet m -> (forall a, quiet (k a)) -> quiet (m ≫= k).
Proof. apply triple_bind. Qed.
Lemma quiet_server {B} (k : Server -> Srv B) : (forall g, quiet (k g)) -> quiet (server ≫= k).
Proof. intros Hk g Hg. by apply (Hk g). Qed.
Ltac quietly := repeat (cbv beta zeta; lazymatch goal with
  | |- quiet (mret _) => apply quiet_ret
  | |- quiet (answer _ _) => apply quiet_ret
  | |- quiet (error _ _ _) => apply quiet_ret
  | |- quiet (fallibly _) => apply quiet_fallibly
  | |- quiet (resulting _) => apply quiet_fallibly
  | |- quiet (server ≫= _) => apply quiet_server; intros ?
  | |- quiet (update _) => apply triple_update; intros ?; by apply in_step_same
  | |- quiet (_ ≫= _) => apply quiet_bind; [|intros ?]
  | |- quiet (match ?x with _ => _ end) => destruct x eqn:?
  end).

Lemma open_stream_quiet id req T : quiet (open_stream o id req T).
Proof. unfold open_stream. quietly. Qed.
Lemma serve_quiet id req T : quiet (serve o id req T).
Proof. unfold serve. quietly. apply open_stream_quiet. Qed.
Lemma arrive_quiet id req d : quiet (arrive o id req d).
Proof. unfold arrive. rewrite simulator. quietly. all: apply serve_quiet. Qed.

Lemma on_arrival_spec id req d : triple in_step (on_arrival o id req d) (fun _ => in_step) (fun _ _ => True).
Proof.
  intros g Hg. unfold on_arrival.
  refine (triple_catch _ _ _ _ _ _ (arrive_quiet id req d) _ g Hg). intros e.
  apply triple_bind with (R := fun _ => in_step); [|intros ?; by apply triple_ret].
  eapply triple_conseq; [apply (failed_spec _ None None)| |by intros ? ? [? _]|done]. intros g1 Hg1. destruct e as [[]|]; done.
Qed.

Lemma close_stream_in_step id g : in_step g -> in_step (close_stream o id g).
Proof.
  intros Hg. unfold close_stream. destruct (List.find _ _) as [l|]; [|done]. destruct (sseLimit o); by eapply in_step_same.
Qed.
End persistence.
