(* ===== verification/LabRuns.v ===== *)
(** LabRuns: apps/realtime-lab/server.ts with a database, from its start through
    any sequence of requests and of writes by other processes. *)
From stdpp Require Import relations.
From S2P Require Import Prelude JsString JsMap Host JsTime JsJson JsNumber Url DeviceKeys AuditLog Engine EngineSnapshot SessionBoundary RateLimiter AccessToken.
From S2P Require Import LabRequest LabState LabRoutes LabServer LabStoreLaws LabStartup LabPersistence.
#[local] Open Scope string_scope.
#[local] Open Scope list_scope.
#[local] Open Scope Z_scope.
#[local] Open Scope js_scope.

(** ** A request whose key has been used *)

Section repeated.
Context `{Host, PemExport, UrlParser}.
Context {S : Type} `{LabStoreLaws S}.
Variable o : LabOptions.
Hypothesis simulator : access o = None.
Variable s0 : S.
Variable i : RequestIdempotency.
Variable r0 : PersistedHttpResponse.
Hypothesis used : st_answer s0 (key i) = Some (requestHash i, r0).

(** The store tells what it told. *)
Definition frozen (g : LabServer S) : Prop := exists s, persistentStore g = Some s /\ same_store s0 s.
Definition freezes {A} (m : Srv (S := S) A) : Prop := forall g, frozen g -> frozen (m g).2.

Lemma freezes_ret {A} (a : A) : freezes (mret a).
Proof. by intros g. Qed.
Lemma freezes_throwing {A} e : freezes (throwing (A := A) e).
Proof. by intros g. Qed.
Lemma freezes_fallibly {A} (r : fallible A) : freezes (fallibly r).
Proof. by intros g. Qed.
Lemma freezes_bind {A B} (m : Srv A) (k : A -> Srv B) : freezes m -> (forall a, freezes (k a)) -> freezes (m ≫= k).
Proof. intros Hm Hk g Hg. specialize (Hm g Hg). unfold mbind, srv_bind. destruct (m g) as [[a|e] g']; [by apply Hk|done]. Qed.
Lemma freezes_catch {A} (m : Srv A) (h : Exn -> Srv A) : freezes m -> (forall e, freezes (h e)) -> freezes (try_catch m h).
Proof. intros Hm Hh g Hg. specialize (Hm g Hg). unfold try_catch. destruct (m g) as [[a|e] g']; [done|by apply Hh]. Qed.
Lemma freezes_then {A B} (m : Srv A) (h : Exn -> Srv B) (k : A -> Srv B) :
  freezes m -> (forall e, freezes (h e)) -> (forall a, freezes (k a)) -> freezes (try_then m h k).
Proof. intros Hm Hh Hk g Hg. specialize (Hm g Hg). unfold try_then. destruct (m g) as [[a|e] g']; [by apply Hk|by apply Hh]. Qed.
Lemma freezes_server {B} (k : LabServer S -> Srv B) : (forall g, freezes (k g)) -> freezes (server ≫= k).
Proof. intros Hk g. by apply Hk. Qed.
Lemma freezes_update f : (forall g, persistentStore (f g) = persistentStore g) -> freezes (update f).
Proof. intros Hf g. unfold frozen. cbn. by rewrite Hf. Qed.
(** The version is set with the store as it is. *)
Lemma freezes_version s v : freezes (update (fun g => set_store (default s (persistentStore g)) (v g) g)).
Proof. intros g (s1 & E & Hs). exists s1. cbn. by rewrite E. Qed.
Lemma freezes_version_state s v st : freezes (update (fun g => set_store (default s (persistentStore g)) (v g) (set_state st g))).
Proof. intros g (s1 & E & Hs). exists s1. cbn. by rewrite E. Qed.
Lemma freezes_acting {A} (m : Act A) : freezes (acting m).
Proof. intros g Hg. unfold acting. by destruct (m (state g)) as [[a|e] s]. Qed.

Ltac freezing := repeat (cbv beta zeta; lazymatch goal with
  | |- freezes (mret _) => apply freezes_ret
  | |- freezes (answer _ _) => apply freezes_ret
  | |- freezes (error _ _ _) => apply freezes_ret
  | |- freezes (throwing _) => apply freezes_throwing
  | |- freezes (fallibly _) => apply freezes_fallibly
  | |- freezes (resulting _) => apply freezes_fallibly
  | |- freezes (restored _) => apply freezes_fallibly
  | |- freezes (acting _) => apply freezes_acting
  | |- freezes (server ≫= _) => apply freezes_server; intros ?
  | |- freezes (update (fun g => set_store (default _ (persistentStore g)) _ (set_state _ g))) => apply (freezes_version_state _ (fun _ => _))
  | |- freezes (update (fun g => set_store (default _ (persistentStore g)) _ g)) => apply (freezes_version _ (fun _ => _))
  | |- freezes (update (fun g => if _ then _ else g)) => apply freezes_update; intros ?; by destruct (bool_decide _)
  | |- freezes (update _) => apply freezes_update; done
  | |- freezes (_ ≫= _) => apply freezes_bind; [|intros ?]
  | |- freezes (try_catch _ _) => apply freezes_catch; [|intros ?]
  | |- freezes (match ?x with _ => _ end) => destruct x eqn:?
  end).

Lemma not_saved_freezes s m : freezes (not_saved s m).
Proof. unfold not_saved. freezing. Qed.

Lemma persistResponse_freezes r : freezes (persistResponse (Some i) r).
Proof.
  intros g (s & Es & Hs). unfold persistResponse. unfold mbind at 1, srv_bind at 1, server at 1. rewrite Es.
  destruct (persistedVersion g) as [v|]; [|by exists s]. unfold mbind at 1, srv_bind at 1, storing at 1.
  destruct (store_run Z (key i) (requestHash i) _ s) as [[[[w|] x]|m] s'] eqn:Er; apply store_run_spec in Er.
  - destruct Er as [Hn _]. rewrite (proj2 Hs), used in Hn. done.
  - assert (Hf : frozen (set_store s' (persistedVersion g) g)).
    { exists s'. split; [done|]. destruct Hs as [A1 A2], Er as (_ & B1 & B2). split; [by rewrite B1|]. intros k. by rewrite B2. }
    revert Hf. generalize (set_store s' (persistedVersion g) g). apply freezes_catch; [freezing|]. intros e. apply not_saved_freezes.
  - assert (Hf : frozen (set_store s' (persistedVersion g) g)).
    { exists s'. split; [done|]. destruct Hs as [A1 A2], Er as (B1 & B2). split; [by rewrite B1|]. intros k. by rewrite B2. }
    revert Hf. generalize (set_store s' (persistedVersion g) g). apply not_saved_freezes.
Qed.

Lemma finalize_freezes T r : freezes (finalize o T (Some i) r).
Proof. unfold finalize, broadcast. freezing. apply persistResponse_freezes. Qed.
Lemma persistence_failed_freezes p st m c a : freezes (persistence_failed p st m c a).
Proof. unfold persistence_failed, dependencyFailed_database, roll_back, bind_state. freezing. Qed.
Lemma failed_freezes T p d e : freezes (failed o T (Some i) p d e).
Proof. unfold failed, rejected, roll_back, bind_state. freezing; try apply persistence_failed_freezes; apply finalize_freezes. Qed.
Lemma routed_freezes req body T d : freezes (routed o req body T (Some i) d).
Proof.
  intros g. unfold routed. generalize (snapshotLabState (state g)) as p. intros p. revert g. apply freezes_catch; [|intros e; apply failed_freezes].
  unfold run_route. freezing. apply finalize_freezes.
Qed.
Lemma prepare_freezes req body T d : freezes (prepare o req body T d).
Proof. unfold prepare, replayed, rate_limit. rewrite simulator, bool_decide_false by (by intros []). freezing. Qed.

Lemma on_body_freezes req body T d g : readBoundedBody req = Fine body -> key_of req body = Some i -> in_step (fun _ => None) g -> frozen g -> frozen (on_body o req T d g).2.
Proof.
  intros Eb Ei Hg Hf. unfold on_body. rewrite Eb. cbv beta. rewrite (key_read_eq (fun _ => None)), Ei by done.
  pose proof (prepare_spec o simulator (fun _ => None) req body T d g Hg) as Hp. pose proof (prepare_freezes req body T d g Hf) as Hpf. unfold try_then.
  destruct (prepare o req body T d g) as [[[reply|i']|e] g']; [done| |by apply failed_freezes].
  destruct Hp as [_ ->]. rewrite Ei. by apply routed_freezes.
Qed.
End repeated.

(** ** Runs *)

(** A write of another process: the snapshot moves on, answers are added. *)
Definition other_write {S} `{LabStoreView S} (s s' : S) : Prop :=
  (forall k x, st_answer s k = Some x -> st_answer s' k = Some x) /\
  (st_snapshot s' = st_snapshot s \/
   exists st v value st' v' value', st_snapshot s = Some (st, v, value) /\ st_snapshot s' = Some (st', v', value') /\ v < v').

Section runs.
Context `{Host, PemExport, UrlParser}.
Context {S : Type} `{LabStoreLaws S}.
Variable o : LabOptions.

(** Requests that are answered, streams that end, writes of other processes. *)
Inductive lab_step : LabServer S -> LabServer S -> Prop :=
| step_arrival g id req d r g' : on_arrival o id req d g = (inl r, g') -> lab_step g g'
| step_body g req d reply g' : on_body o req [] d g = (inl reply, g') -> lab_step g g'
| step_close g id : lab_step g (close_stream o id g)
| step_other g s s' : persistentStore g = Some s -> other_write s s' -> lab_step g (set_store s' (persistedVersion g) g).

Lemma other_write_in_step known g s s' : persistentStore g = Some s -> other_write s s' -> in_step known g -> in_step known (set_store s' (persistedVersion g) g).
Proof.
  intros Es [Ha Hs] (s1 & st & v & v' & value & E1 & E2 & E3 & E4 & E5 & E6). rewrite Es in E1. injection E1 as <-.
  assert (Hk : keeps_known known s') by (intros k x Hk; by apply Ha, E6).
  destruct Hs as [Hs|(st1 & v1 & value1 & st2 & v2 & value2 & F1 & F2 & F3)].
  - exists s', st, v, v', value. rewrite Hs. by split_and!.
  - rewrite E3 in F1. injection F1 as <- <- <-. exists s', st2, v, v2, value2. split_and!; try done; lia.
Qed.

Lemma lab_step_in_step known g g' : access o = None -> lab_step g g' -> in_step known g -> in_step known g'.
Proof.
  intros Ho [g1 id req d r g1' E|g1 req d reply g1' E|g1 id|g1 s s' Es Hw] Hg.
  - pose proof (on_arrival_spec o Ho known id req d g1 Hg) as Hs. by rewrite E in Hs.
  - pose proof (on_body_spec o Ho known req [] d g1 Hg) as Hs. rewrite E in Hs. by destruct Hs.
  - by apply close_stream_in_step.
  - by eapply other_write_in_step.
Qed.

Lemma lab_run_in_step known g g' : access o = None -> rtc lab_step g g' -> in_step known g -> in_step known g'.
Proof. intros Ho. induction 1; [done|]. intros Hg. eauto using lab_step_in_step. Qed.
End runs.

(** ** The start *)

Section opened.
Context `{Host, PemExport, UrlParser}.
Context {S : Type} `{LabStoreLaws S}.
Implicit Types (c : LabConfig S) (d : LabState.Draw).

Lemma open_store_spec s d st s' v : open_store s d = Ok (st, s', v) ->
  exists status value, st_snapshot s' = Some (status, v, value) /\ (is_ok (restoreLabState value) = true -> agrees value st).
Proof.
  unfold open_store. rewrite result_bind_Ok. intros (stored & Eg%store_get_spec & Hr). destruct stored as [[[status version] value]|].
  - revert Hr. rewrite throw_if_bind_Ok. intros [_ Hr]. revert Hr. rewrite result_bind_Ok. intros (state & Es & Hr).
    destruct (schemaVersion value =? 1).
    + destruct (store_swap version _ s) as [r s1] eqn:Ew. apply store_swap_spec in Ew. revert Hr. rewrite result_bind_Ok.
      intros (w & -> & [= <- <- <-]). destruct Ew as (_ & _ & Ew & _). by exists LAB_SNAPSHOT_STATUS, (snapshotLabState state).
    + injection Hr as <- <- <-. exists status, value. split; [done|]. intros _. by apply restored_agrees.
  - revert Hr. rewrite result_bind_Ok. intros (state & Es & Hr).
    destruct (store_create _ s) as [r s1] eqn:Ew. apply store_create_spec in Ew. revert Hr. rewrite result_bind_Ok.
    intros (w & -> & [= <- <- <-]). destruct Ew as (_ & Ew & _). by exists LAB_SNAPSHOT_STATUS, (snapshotLabState state).
Qed.

Lemma created_parts c d o g : createLabServer c d = Ok (o, g) ->
  (bool_decide (is_Some (lc_access c)) && bool_decide (is_Some (lc_store c)) = false) /\
  (exists b, open_access (lc_access c) = Ok (access o, b)) /\
  o = {| access := access o; trustedProxies := lc_trustedProxies c; sseLimit := lc_sseLimit c; faultInjector := lc_faultInjector c;
         auditCopyVerifier := lc_auditCopyVerifier c |} /\
  match lc_store c with
  | Some s => exists st s' v, open_store s d = Ok (st, s', v) /\ state g = st /\ persistentStore g = Some s' /\ persistedVersion g = Some v
  | None => persistentStore g = None
  end.
Proof.
  unfold createLabServer. rewrite throw_if_bind_Ok. intros [Hx Hr]. split; [done|]. revert Hr.
  rewrite result_bind_Ok. intros ([a b] & Ha & Hr). revert Hr. rewrite result_bind_Ok. intros (m & _ & Hr). revert Hr.
  rewrite result_bind_Ok. intros ([[st store] version] & Hs & [= <- <-]). split; [by exists b|]. split; [done|]. cbn.
  destruct (lc_store c) as [s|]; revert Hs; rewrite result_bind_Ok.
  - intros ([[st1 s1] v1] & Ho & [= <- <- <-]). by exists st1, s1, v1.
  - by intros (st1 & _ & [= <- <- <-]).
Qed.

Lemma check_provider_spec q p : check_provider q = Ok p -> exists p, q = Some p /\
  (type p = BOOTSTRAP /\ pc_credentials p <> [] \/ type p = OIDC /\ hasVerifier p = negb (bool_decide (is_Some (pc_options p)))).
Proof.
  unfold check_provider. destruct q as [q|]; [|done]. rewrite throw_if_bind_Ok. intros [Ht Hr]. revert Hr.
  rewrite throw_if_bind_Ok. intros [Hb Hr]. revert Hr. rewrite throw_if_bind_Ok. intros [Ho _]. exists q. split; [done|].
  apply negb_false_iff, includes_true in Ht. rewrite !elem_of_cons in Ht. destruct Ht as [Ht|[Ht|[]%not_elem_of_nil]].
  - left. split; [done|]. intros E. rewrite Ht, E in Hb. done.
  - right. split; [done|]. rewrite Ht in Ho. change (OIDC =s? OIDC) with true in Ho. cbn [andb] in Ho. revert Ho. generalize (hasVerifier q) (bool_decide (is_Some (pc_options q))). by intros [] [].
Qed.

Lemma check_origin_spec insecure value : check_origin insecure value = Ok tt -> exists u, url_parse value = Some u /\ origin u = value /\
  (protocol u = js "https:" \/ insecure = true /\ protocol u = js "http:" /\ hostname u ∈ [js "127.0.0.1"; js "localhost"]).
Proof.
  unfold check_origin. destruct (url_parse value) as [u|]; [|done]. unfold throw_if. destruct (_ || _) eqn:E; [done|]. intros _. exists u. split; [done|].
  apply orb_false_iff in E as [E1%negb_false_iff%jeqb_true E2]. split; [done|].
  apply andb_false_iff in E2 as [E2|E2]; apply negb_false_iff in E2; [left; by apply jeqb_true|right].
  apply andb_true_iff in E2 as [[Hi Hp%jeqb_true]%andb_true_iff Hh]. split; [done|]. split; [done|]. by apply includes_true.
Qed.

Lemma simulator_access c d o g : createLabServer c d = Ok (o, g) -> is_Some (lc_store c) -> access o = None.
Proof.
  intros (Hx & (b & Ha) & _ & _)%created_parts Hs. rewrite (bool_decide_true (is_Some (lc_store c))) in Hx by done.
  destruct (lc_access c); [done|]. injection Ha. done.
Qed.

Lemma created_in_step c d o g : createLabServer c d = Ok (o, g) -> is_Some (lc_store c) -> in_step (fun _ => None) g.
Proof.
  intros (_ & _ & _ & Hs)%created_parts [s Es]. rewrite Es in Hs. destruct Hs as (st & s' & v & Ho & Est & Ep & Ev).
  apply open_store_spec in Ho as (status & value & E & Ha). exists s', status, v, v, value. rewrite Est. split_and!; done || lia || auto.
Qed.
End opened.

(** ** Properties *)

(** C21: With a database, from the start through any requests and any writes of other
    processes, the version the process knows is not ahead of the stored one; where
    it is the stored one, the stored snapshot, unless it cannot be restored, is
    that of the state the process holds: its engine, its keys, the provisioning
    and transaction it points to and its demonstration.  The last result shown,
    which the process may have changed since, and the constant fields are left
    aside. *)
Theorem database_in_step `{Host, PemExport, UrlParser} {S : Type} `{LabStoreLaws S} (c : LabConfig S) (d : LabState.Draw) (o : LabOptions) (g0 g : LabServer S) :
  createLabServer c d = Ok (o, g0) -> is_Some (lc_store c) -> rtc (lab_step o) g0 g ->
  exists s status known stored value, persistentStore g = Some s /\ persistedVersion g = Some known /\ st_snapshot s = Some (status, stored, value) /\
    known <= stored /\ (known = stored -> is_ok (restoreLabState value) = true -> agrees value (state g)).
Proof.
  intros Hc Hs Hr. pose proof (lab_run_in_step o (fun _ => None) g0 g (simulator_access c d o g0 Hc Hs) Hr (created_in_step c d o g0 Hc Hs))
    as (s & st & v & v' & value & ? & ? & ? & ? & ? & _). exists s, st, v, v', value. by split_and!.
Qed.

(** C19: With a database, which only the simulator mode may have, a mutation
    acknowledged with its new state under a key has been recorded: whenever a
    request with that key and the same hash is acknowledged with a state again,
    however much happened in between, the answer is the recorded one and the
    stored snapshot and the recorded answers are left as they are. *)
Theorem keyed_mutation_once `{Host, PemExport, UrlParser} {S : Type} `{LabStoreLaws S} (c : LabConfig S) (d : LabState.Draw) (o : LabOptions)
    (g0 g1 g2 g3 g4 : LabServer S) (req1 req2 : Request) (body1 body2 : list N) (d1 d2 : Draws) (i : RequestIdempotency) (r1 r2 : PersistedHttpResponse)
    (p1 p2 : PublicState) :
  createLabServer c d = Ok (o, g0) -> is_Some (lc_store c) -> rtc (lab_step o) g0 g1 ->
  readBoundedBody req1 = Fine body1 -> key_of req1 body1 = Some i -> on_body o req1 [] d1 g1 = (inl (Answered r1), g2) -> body r1 = StateBody p1 ->
  rtc (lab_step o) g2 g3 ->
  readBoundedBody req2 = Fine body2 -> key_of req2 body2 = Some i -> on_body o req2 [] d2 g3 = (inl (Answered r2), g4) -> body r2 = StateBody p2 ->
  r2 = r1 /\ exists s3 s4, persistentStore g3 = Some s3 /\ persistentStore g4 = Some s4 /\ same_store s3 s4.
Proof.
  intros Hc Hs Hr1 Eb1 Ei1 Eo1 Ep1 Hr2 Eb2 Ei2 Eo2 Ep2. pose proof (simulator_access c d o g0 Hc Hs) as Ho.
  pose proof (lab_run_in_step o (fun _ => None) g0 g1 Ho Hr1 (created_in_step c d o g0 Hc Hs)) as Hin1.
  pose proof (on_body_spec o Ho (fun _ => None) req1 [] d1 g1 Hin1) as Hin2. rewrite Eo1 in Hin2. destruct Hin2 as [Hin2 Ha].
  destruct (Ha body1 Eb1) as [_ Hrec]. specialize (Hrec r1 p1 eq_refl Ep1). rewrite Ei1 in Hrec. destruct Hrec as (s2 & Es2 & Er1).
  set (known := fun k => if decide (k = key i) then Some (requestHash i, r1) else None).
  assert (Hin2' : in_step known g2).
  { destruct Hin2 as (s & st & v & v' & value & E1 & E2 & E3 & E4 & E5 & _). rewrite Es2 in E1. injection E1 as <-.
    exists s2, st, v, v', value. split_and!; try done. intros k x. unfold known. destruct (decide (k = key i)) as [->|]; [by intros [= <-]|done]. }
  pose proof (lab_run_in_step o known g2 g3 Ho Hr2 Hin2') as Hin3. pose proof Hin3 as (s3 & _ & _ & _ & _ & Es3 & _ & _ & _ & _ & Hk).
  assert (Hu : st_answer s3 (key i) = Some (requestHash i, r1)) by (apply Hk; unfold known; by rewrite decide_True).
  assert (Hin3' : in_step (fun _ => None) g3).
  { destruct Hin3 as (s & st & v & v' & value & E1 & E2 & E3 & E4 & E5 & _). exists s, st, v, v', value. by split_and!. }
  pose proof (on_body_freezes o Ho s3 i r1 Hu req2 body2 [] d2 g3 Eb2 Ei2 Hin3' (ex_intro _ s3 (conj Es3 (conj eq_refl (fun _ => eq_refl))))) as Hf.
  pose proof (on_body_spec o Ho (fun _ => None) req2 [] d2 g3 Hin3') as Hin4. rewrite Eo2 in Hf, Hin4. destruct Hin4 as [_ Ha2].
  destruct (Ha2 body2 Eb2) as [_ Hrec2]. specialize (Hrec2 r2 p2 eq_refl Ep2). rewrite Ei2 in Hrec2. destruct Hrec2 as (s4 & Es4 & Er2).
  destruct Hf as (s4' & Es4' & Hsame). cbn in Es4'. rewrite Es4 in Es4'. injection Es4' as <-.
  rewrite (proj2 Hsame), Hu in Er2. injection Er2 as <-. split; [done|]. by exists s3, s4.
Qed.

(** C22: the server starts closed: with access control it has no database, one
    supported provider that is configured, and a list of origins each of which is
    its own URL's, over https unless a local test origin is allowed. *)
Theorem startup_fails_closed `{Host, PemExport, UrlParser} {S : Type} `{LabStore S} (c : LabConfig S) (d : LabState.Draw) (o : LabOptions) (g : LabServer S) (a : AccessConfig) :
  createLabServer c d = Ok (o, g) -> lc_access c = Some a ->
  lc_store c = None /\ (exists x, access o = Some x /\ allowedOrigins x = ac_allowedOrigins a) /\ ac_allowedOrigins a <> [] /\
  (exists p, identityProvider a = Some p /\
     (type p = BOOTSTRAP /\ pc_credentials p <> [] \/ type p = OIDC /\ hasVerifier p = negb (bool_decide (is_Some (pc_options p))))) /\
  forall value, value ∈ ac_allowedOrigins a -> exists u, url_parse value = Some u /\ origin u = value /\
    (protocol u = js "https:" \/ allowInsecureTestOrigins a = true /\ protocol u = js "http:" /\ hostname u ∈ [js "127.0.0.1"; js "localhost"]).
Proof.
  intros (Hx & (b & Ha) & _ & _)%created_parts Ea. rewrite Ea in Hx, Ha. split.
  { destruct (lc_store c); [|done]. rewrite !bool_decide_true in Hx by done. done. }
  unfold open_access in Ha. rewrite result_bind_Ok in Ha. destruct Ha as (p & Hp & Ha). revert Ha.
  rewrite result_bind_Ok. intros (b1 & _ & Ha). revert Ha. rewrite throw_if_bind_Ok. intros [Hne%bool_decide_eq_false_1 Ha]. revert Ha.
  rewrite result_bind_Ok. intros ([] & Ho%for_each_Ok & [= Hacc _]). split; [by eexists|]. split; [done|]. split.
  - exact (check_provider_spec _ _ Hp).
  - rewrite Forall_forall in Ho. intros value Hv. by apply check_origin_spec, Ho.
Qed.
