(* ===== verification/LabExamples.v ===== *)
(** LabExamples: runs of the lab server on a test host, at which its theorems are
    instantiated, and runs in which the code does not do what it means to. *)
From stdpp Require Import relations.
From S2P Require Import Prelude JsString JsMap Host TestHost JsTime JsJson JsNumber Url Transitions Protocol DeviceKeys ChallengeStore AuditLog Engine EngineSteps SessionBoundary RateLimiter AccessToken.
From S2P Require Import LabRequest LabIdentity LabState LabRoutes LabServer LabTenants LabStoreLaws LabStartup LabPersistence LabRuns.
#[local] Open Scope string_scope.
#[local] Open Scope list_scope.
#[local] Open Scope Z_scope.
#[local] Open Scope js_scope.

#[local] Existing Instance quick_host.
#[local] Existing Instance test_url_parser.
#[local] Existing Instances Memory.store Memory.store_view Memory.store_laws.
(** The test host imports any text as a key, and exports it again. *)
#[local] Instance test_export : PemExport := fun k => utf8_decode (spki_der k).

(** Draws at a time, marked with a tag. *)
Definition tagged (tag : jstr) (i : nat) : jstr := tag ++ js "-" ++ decimal_Z (Z.of_nat i).
Definition env_at (t : Z) (tag : jstr) : Env :=
  {| env_uuid := tagged tag; env_challengeId := tagged tag 9; env_clock := fun _ => Some t |}.
Definition draw_at (t : Z) (tag : jstr) : LabState.Draw := {|
  calls := fun i => env_at t (tagged tag i); dates := fun _ => Some t;
  key_pairs := fun _ name => {| dk_keyId := name; dk_algorithm := APPROVAL_ALGORITHM; privateKeyPem := name; dk_publicKeyPem := name |};
  uuids := fun i => tagged (tag ++ js "-u") i; millis := t |}.
Definition draws_at (t : Z) (tag : jstr) : Draws :=
  {| lab := draw_at t tag; session_draw := {| dr_prune := t; dr_now := t; dr_sessionId := tag; dr_csrfToken := tag ++ js "-csrf" |}; now := t |}.

(** ** With a database *)

Definition simulator_config : LabConfig Memory.t := {|
  lc_access := None; lc_store := Some {| Memory.snap := None; Memory.answers := [] |}; lc_rateLimit := Some DEFAULT_RATE_LIMIT; lc_trustedProxies := [];
  lc_sseLimit := None; lc_faultInjector := fun _ => None; lc_auditCopyVerifier := verifyAuditCopy;
|}.

Definition simulator_options : LabOptions :=
  {| access := None; trustedProxies := []; sseLimit := None; faultInjector := fun _ => None; auditCopyVerifier := verifyAuditCopy |}.

Definition empty_server : LabServer Memory.t :=
  {| state := {| engine := {| audit := []; challenges := []; devices := []; Engine.tokens := []; Engine.provisioning := []; transactions := []; dailySpend := [] |};
                 keys := key_pairs (draw_at noon []) 0 []; LabState.provisioning := None; transaction := None; demonstration := None;
                 lastResult := {| lr_ok := true; outcome := []; code := []; lr_action := []; lr_message := []; at_ := [] |} |};
     tenantStates := []; persistentStore := None; persistedVersion := None; sessions := no_sessions; limiter := None; database_ready := false;
     identityProvider_ready := false; listeners := []; ssePerClient := []; sent := [] |}.

(** Once started. *)
Definition server_0 : LabServer Memory.t :=
  match createLabServer simulator_config (draw_at noon "start") with Ok (_, g) => g | Throw _ => empty_server end.

Definition post (path key : jstr) : Request := {|
  method := POST; pathname := path; query := []; remoteAddress := Some (js "10.0.0.1"); x_forwarded_for := None;
  sec_fetch_site := Some (Single "same-origin"); origin_header := None; host := Some (js "127.0.0.1:8788"); h_content_length := None;
  h_content_type := Some (js "application/json"); idempotency_key := Some (Single key); cookie := None; authorization := None;
  x_csrf_token := None; chunks := []; stream_error := None |}.
Definition with_chunks (bs : list N) (r : Request) : Request := {|
  method := method r; pathname := pathname r; query := query r; remoteAddress := remoteAddress r; x_forwarded_for := x_forwarded_for r;
  sec_fetch_site := sec_fetch_site r; origin_header := origin_header r; host := host r; h_content_length := h_content_length r;
  h_content_type := h_content_type r; idempotency_key := idempotency_key r; cookie := cookie r; authorization := authorization r;
  x_csrf_token := x_csrf_token r; chunks := [bs]; stream_error := stream_error r |}.

(** A mutation on the simulator, at a time. *)
Definition mutation (path key : jstr) (t : Z) (g : LabServer Memory.t) : (Reply + Exn) * LabServer Memory.t :=
  on_body simulator_options (post path key) [] (draws_at t key) g.
Definition after (r : (Reply + Exn) * LabServer Memory.t) : LabServer Memory.t := r.2.
Definition answer_of (r : (Reply + Exn) * LabServer Memory.t) : PersistedHttpResponse :=
  match r.1 with inl (Answered a) => a | _ => {| status := 0; body := LoggedOutBody |} end.
Definition state_body (r : PersistedHttpResponse) : option PublicState := match body r with StateBody p => Some p | _ => None end.

Definition request_1 := mutation provisionRequest "key-1" (noon + 1000) server_0.
Definition request_2 := mutation provisionApprove "key-2" (noon + 2000) (after request_1).
Definition request_3 := mutation provisionRequest "key-1" (noon + 3000) (after request_2).


(** A transaction is requested, and its demonstration of a reused signature run
    after the thirty seconds of its challenge. *)
Definition request_4 := on_body simulator_options (with_chunks sample_body (post transactionRequest "key-4")) [] (draws_at (noon + 4000) "key-4") (after request_2).
Definition reused_signature : jstr := demonstrationPrefix ++ js "reused-signature".
Definition request_5 := mutation reused_signature "key-5" (noon + 60000) (after request_4).
(** The process is started again on the store it leaves. *)
Definition restarted : result (LabOptions * LabServer Memory.t) :=
  createLabServer {| lc_access := None; lc_store := persistentStore (after request_5); lc_rateLimit := Some DEFAULT_RATE_LIMIT; lc_trustedProxies := [];
    lc_sseLimit := None; lc_faultInjector := fun _ => None; lc_auditCopyVerifier := verifyAuditCopy |} (draw_at (noon + 61000) "restart").
(** Or it goes on, and a request is refused. *)
Definition request_6 := handled (on_body simulator_options (post provisionRequest "key-6") [] (draws_at (noon + 62000) "key-6")) (after request_5).


(** ** Two tenants *)

Definition token_a : jstr := "aaaaaaaaaaaaaaaaaaaaaaaaaaaaaaaa".
Definition token_b : jstr := "bbbbbbbbbbbbbbbbbbbbbbbbbbbbbbbb".
Definition operator (tenant : jstr) : AuthenticatedPrincipal :=
  {| SessionBoundary.principalId := "operator"; SessionBoundary.tenantId := tenant; SessionBoundary.roles := [js "operator"] |}.
Definition access_config : AccessConfig := {|
  identityProvider := Some {| type := BOOTSTRAP; hasVerifier := false; pc_options := None;
    pc_credentials := [{| bc_principal := operator "tenant-a"; SessionBoundary.token := token_a |}; {| bc_principal := operator "tenant-b"; SessionBoundary.token := token_b |}] |};
  ac_allowedOrigins := [js "https://lab.example"]; allowInsecureTestOrigins := false;
  ac_absoluteTtlMs := None; ac_idleTtlMs := None; ac_maxSessions := None; ac_maxSessionsPerPrincipal := None |}.
Definition tenants_config : LabConfig Memory.t := {|
  lc_access := Some access_config; lc_store := None; lc_rateLimit := Some DEFAULT_RATE_LIMIT; lc_trustedProxies := [];
  lc_sseLimit := None; lc_faultInjector := fun _ => None; lc_auditCopyVerifier := verifyAuditCopy |}.
Definition tenants_options : LabOptions := {|
  access := Some {| allowedOrigins := [js "https://lab.example"]; oidc := false |}; trustedProxies := []; sseLimit := None;
  faultInjector := fun _ => None; auditCopyVerifier := verifyAuditCopy |}.
Definition tenants_0 : LabServer Memory.t :=
  match createLabServer tenants_config (draw_at noon "start") with Ok (_, g) => g | Throw _ => empty_server end.

(** A request with a session, from the page of the server. *)
Definition in_session (session : jstr) (verb path key : jstr) : Request := {|
  method := verb; pathname := path; query := []; remoteAddress := Some (js "10.0.0.1"); x_forwarded_for := None;
  sec_fetch_site := Some (Single "same-origin"); origin_header := Some (Single "https://lab.example"); host := Some (js "lab.example");
  h_content_length := None; h_content_type := Some (js "application/json"); idempotency_key := Some (Single key);
  cookie := Some (js "airlock_session=" ++ session); authorization := None; x_csrf_token := Some (Single (session ++ js "-csrf"));
  chunks := []; stream_error := None |}.
Definition login_of (token : jstr) : Request := {|
  method := POST; pathname := sessionLogin; query := []; remoteAddress := Some (js "10.0.0.1"); x_forwarded_for := None;
  sec_fetch_site := None; origin_header := Some (Single "https://lab.example"); host := Some (js "lab.example");
  h_content_length := None; h_content_type := None; idempotency_key := None; cookie := None;
  authorization := Some (Single (js "Bearer " ++ token)); x_csrf_token := None; chunks := []; stream_error := None |}.

(** Both log in; tenant A asks for provisioning. *)
Definition tenants_1 : LabServer Memory.t := (on_arrival tenants_options 1 (login_of token_a) (draws_at noon "session-a") tenants_0).2.
Definition tenants_2 : LabServer Memory.t := (on_arrival tenants_options 2 (login_of token_b) (draws_at noon "session-b") tenants_1).2.
Definition request_a := on_body tenants_options (in_session "session-a" POST provisionRequest "key-a") "tenant-a" (draws_at (noon + 1000) "a") tenants_2.
Definition tenants_3 : LabServer Memory.t := request_a.2.

(** The body of a request of tenant B does not come to its end. *)
Definition broken (r : Request) : Request := {|
  method := method r; pathname := pathname r; query := query r; remoteAddress := remoteAddress r; x_forwarded_for := x_forwarded_for r;
  sec_fetch_site := sec_fetch_site r; origin_header := origin_header r; host := host r; h_content_length := h_content_length r;
  h_content_type := h_content_type r; idempotency_key := idempotency_key r; cookie := cookie r; authorization := authorization r;
  x_csrf_token := x_csrf_token r; chunks := chunks r; stream_error := Some (js "aborted") |}.
Definition arrival_b := on_arrival tenants_options 3 (broken (in_session "session-b" POST provisionRequest "key-b")) (draws_at (noon + 2000) "b") tenants_3.
Definition request_b := on_body tenants_options (broken (in_session "session-b" POST provisionRequest "key-b")) "tenant-b" (draws_at (noon + 2000) "b") arrival_b.2.
Definition provisioning_of (r : (Reply + Exn) * LabServer Memory.t) : option ProvisioningRequest :=
  match body (answer_of r) with StateBody p | ErrorStateBody _ _ p => pub_provisioning p | _ => None end.

(** With an OIDC provider, a login whose verification ends in an error of the
    library, not of the verifier. *)
Definition oidc_options : LabOptions := {|
  access := Some {| allowedOrigins := [js "https://lab.example"]; oidc := true |}; trustedProxies := []; sseLimit := None;
  faultInjector := fun _ => None; auditCopyVerifier := verifyAuditCopy |}.

Definition ok_arrival (r : (Reply + Waiting + Exn) * LabServer Memory.t) : bool := match r.1 with inl (inr (ForBody _)) => true | _ => false end.

(** A login that ends so while the state of tenant A is bound. *)
Definition login_lost := on_identity oidc_options (inr JWKSNoMatchingKey) "no applicable key found in the JSON Web Key Set" (draws_at (noon + 2000) "c") tenants_3.

(** ** Witnesses *)

Lemma answered_eq (r : (Reply + Exn) * LabServer Memory.t) :
  match r.1 with inl (Answered _) => true | _ => false end = true -> r = (inl (Answered (answer_of r)), after r).
Proof. destruct r as [[[]|] g]; done. Qed.

Lemma server_0_opened : createLabServer simulator_config (draw_at noon "start") = Ok (simulator_options, server_0).
Proof.
  assert (Hok : is_ok (createLabServer simulator_config (draw_at noon "start")) = true) by (vm_compute; reflexivity).
  unfold server_0. destruct (createLabServer simulator_config (draw_at noon "start")) as [[o g]|] eqn:E; [|done].
  pose proof (created_parts _ _ _ _ E) as (_ & (b & Ha) & Eo & _). injection Ha as Ha _. rewrite <- Ha in Eo. by subst o.
Qed.

(** The runs unfold before the handler. *)
#[local] Strategy expand [request_1 request_2 request_3 mutation].

(** The requests of the run, as calls of the handler. *)
Definition keyed_call (path key : jstr) (t : Z) (g g' : LabServer Memory.t) (r : PersistedHttpResponse) : Prop :=
  mutation path key t g = (inl (Answered r), g').
Lemma keyed_call_on_body path key t g g' r : keyed_call path key t g g' r ->
  on_body simulator_options (post path key) [] (draws_at t key) g = (inl (Answered r), g').
Proof. done. Qed.
Lemma answered_1 : keyed_call provisionRequest "key-1" (noon + 1000) server_0 (after request_1) (answer_of request_1).
Proof. refine (answered_eq request_1 _). vm_compute. reflexivity. Qed.
Lemma answered_2 : keyed_call provisionApprove "key-2" (noon + 2000) (after request_1) (after request_2) (answer_of request_2).
Proof. refine (answered_eq request_2 _). vm_compute. reflexivity. Qed.
Lemma answered_3 : keyed_call provisionRequest "key-1" (noon + 3000) (after request_2) (after request_3) (answer_of request_3).
Proof. refine (answered_eq request_3 _). vm_compute. reflexivity. Qed.

Lemma keyed_call_step path key t g g' r : keyed_call path key t g g' r -> rtc (lab_step simulator_options) g g'.
Proof. intros E%keyed_call_on_body. eapply rtc_once, step_body, E. Qed.

Lemma database_in_step_witness :
  is_ok (createLabServer simulator_config (draw_at noon "start")) = true /\
  exists s status known stored value, persistentStore (after request_1) = Some s /\ persistedVersion (after request_1) = Some known /\
    st_snapshot s = Some (status, stored, value) /\ known <= stored /\
    (known = stored -> is_ok (restoreLabState value) = true -> agrees value (state (after request_1))).
Proof.
  split; [by rewrite server_0_opened|].
  exact (database_in_step simulator_config (draw_at noon "start") simulator_options server_0 (after request_1) server_0_opened (ex_intro _ _ eq_refl)
    (keyed_call_step _ _ _ _ _ _ answered_1)).
Defined.

Lemma body_of (r : PersistedHttpResponse) : (match body r with StateBody _ => true | _ => false end) = true -> exists p, body r = StateBody p.
Proof. destruct (body r); try done. by eexists. Qed.
Lemma state_1 : exists p, body (answer_of request_1) = StateBody p.
Proof. apply body_of. vm_compute. reflexivity. Qed.
Lemma state_3 : exists p, body (answer_of request_3) = StateBody p.
Proof. apply body_of. vm_compute. reflexivity. Qed.

Definition key_1 : RequestIdempotency :=
  match key_of (post provisionRequest "key-1") [] with Some i => i | None => {| key := []; requestHash := [] |} end.
Lemma key_1_read : key_of (post provisionRequest "key-1") [] = Some key_1.
Proof. vm_compute. reflexivity. Qed.

Lemma keyed_mutation_once_witness : answer_of request_3 = answer_of request_1 /\
  exists s3 s4, persistentStore (after request_2) = Some s3 /\ persistentStore (after request_3) = Some s4 /\ same_store s3 s4.
Proof.
  destruct state_1 as [p1 B1], state_3 as [p3 B3].
  exact (keyed_mutation_once simulator_config (draw_at noon "start") simulator_options server_0 server_0 (after request_1) (after request_2) (after request_3)
    (post provisionRequest "key-1") (post provisionRequest "key-1") [] [] (draws_at (noon + 1000) "key-1") (draws_at (noon + 3000) "key-1")
    key_1 (answer_of request_1) (answer_of request_3) p1 p3 server_0_opened (ex_intro _ _ eq_refl) (rtc_refl _ _)
    eq_refl key_1_read (keyed_call_on_body _ _ _ _ _ _ answered_1) B1 (keyed_call_step _ _ _ _ _ _ answered_2) eq_refl key_1_read (keyed_call_on_body _ _ _ _ _ _ answered_3) B3).
Defined.

Lemma tenants_opened : exists o, createLabServer tenants_config (draw_at noon "start") = Ok (o, tenants_0).
Proof.
  assert (Hok : is_ok (createLabServer tenants_config (draw_at noon "start")) = true) by (vm_compute; reflexivity).
  unfold tenants_0. destruct (createLabServer tenants_config (draw_at noon "start")) as [[o g]|]; [|done]. by exists o.
Qed.

Lemma startup_fails_closed_witness : lc_store tenants_config = None /\ ac_allowedOrigins access_config <> [].
Proof.
  destruct tenants_opened as [o E].
  destruct (startup_fails_closed tenants_config (draw_at noon "start") o tenants_0 access_config E eq_refl) as (E1 & _ & E2 & _). by split.
Defined.

(** The server as it is, and as it would be without tenant A. *)
Definition tenants_3' : LabServer Memory.t := set_tenantStates [] (set_state (state tenants_0) tenants_3).
Definition mutation_b : Request := in_session "session-b" POST provisionRequest "key-b".
Definition read_b : Request := in_session "session-b" GET state_route "key-b".

Lemma shared_without (T : jstr) (s : LabState) (g : LabServer Memory.t) :
  bool_decide (is_Some (map_get T (tenantStates g))) = false -> shared T g = shared T (set_tenantStates [] (set_state s g)).
Proof.
  intros E%bool_decide_eq_false_1. unfold shared. cbn. destruct (map_get T (tenantStates g)); [|done]. by destruct E.
Qed.
Lemma alike_3 : shared "tenant-b" tenants_3 = shared "tenant-b" tenants_3'.
Proof. apply shared_without. vm_compute. reflexivity. Qed.

Lemma fresh_b : is_ok (freshState (lab (draws_at (noon + 2000) "b")) 0) = true.
Proof. vm_compute. reflexivity. Qed.
Lemma body_b : readBoundedBody mutation_b = Fine [].
Proof. vm_compute. reflexivity. Qed.
Lemma route_b : starts_with "/api/" (pathname read_b) && negb (pathname read_b =s? health) = true /\ (method read_b =s? POST) && (pathname read_b =s? sessionLogin) = false.
Proof. vm_compute. split; reflexivity. Qed.
Lemma active_b : active_tenant tenants_options read_b tenants_3 = js "tenant-b".
Proof. vm_compute. reflexivity. Qed.

Lemma tenant_isolated_witness :
  alike_at "tenant-b" (on_body tenants_options mutation_b "tenant-b" (draws_at (noon + 2000) "b")) tenants_3 tenants_3' /\
  alike_at "tenant-b" (on_arrival tenants_options 3 read_b (draws_at (noon + 2000) "b")) tenants_3 tenants_3'.
Proof.
  split.
  - exact (proj1 (tenant_isolated tenants_options "tenant-b" {| allowedOrigins := [js "https://lab.example"]; oidc := false |} 3 mutation_b
      (draws_at (noon + 2000) "b") tenants_3 tenants_3' eq_refl fresh_b alike_3) [] body_b).
  - exact (proj2 (tenant_isolated tenants_options "tenant-b" {| allowedOrigins := [js "https://lab.example"]; oidc := false |} 3 read_b
      (draws_at (noon + 2000) "b") tenants_3 tenants_3' eq_refl fresh_b alike_3) (proj1 route_b) (proj2 route_b) active_b).
Defined.

(** ** Where the code goes wrong *)

(** A body that breaks off fails before the state of its tenant is bound: the
    answer, and the tenant's state from then on, are those of the tenant served
    before. *)
Theorem unread_body_crosses_tenants :
  active_tenant tenants_options (broken mutation_b) tenants_3 = js "tenant-b" /\
  map_get (js "tenant-b") (tenantStates tenants_3) = None /\
  status (answer_of request_b) = 500 /\
  (pr_requestId <$> provisioning_of request_b) = (pr_requestId <$> provisioning_of request_a) /\ bool_decide (is_Some (pr_requestId <$> provisioning_of request_a)) = true /\
  (s ← map_get (js "tenant-b") (tenantStates (after request_b)); pr_requestId <$> LabState.provisioning s) = (pr_requestId <$> provisioning_of request_a).
Proof. do 5 (split; [vm_compute; reflexivity|]). vm_compute. reflexivity. Qed.

(** A login that ends in an error of the token library is answered, without a
    session, with the state bound at the time; its last result is overwritten and
    the identity provider counts as failed. *)
Theorem failed_login_shows_a_tenant :
  status (answer_of login_lost) = 500 /\
  (pr_requestId <$> provisioning_of login_lost) = (pr_requestId <$> provisioning_of request_a) /\ bool_decide (is_Some (pr_requestId <$> provisioning_of request_a)) = true /\
  identityProvider_ready tenants_3 = true /\ identityProvider_ready (after login_lost) = false /\
  LabState.code (lastResult (state tenants_3)) = js "PROVISIONING_REQUESTED" /\ LabState.code (lastResult (state (after login_lost))) = js "INTERNAL_ERROR".
Proof. do 6 (split; [vm_compute; reflexivity|]). vm_compute. reflexivity. Qed.

(** The demonstration of a reused signature, run after its challenge has expired,
    is answered as a success and stores a state that cannot be restored: the
    server does not start again on it, and the next request that is refused ends
    in an error nothing handles. *)
Theorem late_demonstration_wedges :
  status (answer_of request_5) = 200 /\
  match restarted with Ok _ => None | Throw e => Some e end = Some (js "transaction lifecycle/challenge status mismatch") /\
  request_6.1 = Unhandled "transaction lifecycle/challenge status mismatch".
Proof. do 2 (split; [vm_compute; reflexivity|]). vm_compute. reflexivity. Qed.
