(* ===== verification/BackupFiles.v ===== *)
(** BackupFiles: what the backup tool of src/tools uses of its host: POSIX path
    resolution, the files and directories of the machine, the file-system calls
    and the faults they may have, and calls that throw after partial effects. *)
From S2P Require Import Prelude JsString JsMap Host JsTime JsJson LabRequest CredentialVerifier.
#[local] Open Scope string_scope.
#[local] Open Scope list_scope.
#[local] Open Scope Z_scope.
#[local] Open Scope js_scope.

(** ** Paths *)

(** The process, as far as the tool looks at it. *)
Class Process := { cwd : jstr; node_version : jstr; platform : jstr }.

(** The segments of a path, the last one first: empty ones and [.] are skipped,
    [..] takes back the one before. *)
Fixpoint walk (acc segments : list jstr) : list jstr :=
  match segments with
  | [] => acc
  | s :: l =>
      if (s =s? js "") || (s =s? js ".") then walk acc l
      else if s =s? js ".." then walk (tail acc) l
      else walk (s :: acc) l
  end.

Definition segments (path : jstr) : list jstr := reverse (walk [] (split_at 47 path)).
Definition absolute (l : list jstr) : jstr := 47%N :: join [47%N] l.

(** Arguments are taken from the right until the path is absolute. *)
Fixpoint prepend_paths (reversed : list jstr) (tail : jstr) : jstr :=
  match reversed with
  | [] => tail
  | [] :: l => prepend_paths l tail
  | p :: l => let t := p ++ [47%N] ++ tail in if starts_with [47%N] p then t else prepend_paths l t
  end.

(** [path.resolve(...paths)], [path.dirname] and [path.basename] of what it yields. *)
Definition resolve `{Process} (paths : list jstr) : jstr := absolute (segments (prepend_paths (reverse (cwd :: paths)) [])).
Definition dirname (path : jstr) : jstr := absolute (removelast (segments path)).
Definition basename (path : jstr) : jstr := List.last (segments path) [].

(** [join(dir, name)] of a plain name and a directory as the system names it. *)
Definition in_directory (dir name : jstr) : jstr := dir ++ [47%N] ++ name.

(** The directories [mkdir -p path] makes. *)
Definition ancestors (path : jstr) : list jstr :=
  map (fun n => absolute (take n (segments path))) (seq 1 (length (segments path))).

(** ** The machine *)

Record RestoreCheck : Type := { name : jstr; ok : bool; detail : jstr }.

(** What is thrown; a verification error lists the checks. *)
Record Failure : Type := { f_message : jstr; f_checks : option (list RestoreCheck) }.

(** The checks are those the call under way has recorded. *)
Record Disk : Type := { files : list (jstr * list N); directories : list jstr; checks : list RestoreCheck }.

Definition set_files v d := {| files := v; directories := directories d; checks := checks d |}.
Definition set_directories v d := {| files := files d; directories := v; checks := checks d |}.
Definition set_checks v d := {| files := files d; directories := directories d; checks := v |}.

(** The calls that may fail by themselves. *)
Inductive Site : Type :=
| MakeOutput | OpenStore | OpenSource | ClaimCopy | RunBackup | OpenCopy | HashCopy | RemoveCopy | ClaimManifest | WriteManifest
| ReadLockfile | WriteOutput | ReadManifest | HashBackup | MakeTemporary | ClaimTarget | CopyTarget | OpenTarget | RemoveTarget | RemoveTemporary.

(** What a call draws: the clock, the new temporary directory, the failures, what
    a failed write has left in its file, and what other connections make of the
    source while it is copied. *)
Record Draw : Type := {
  clock : Date; store_clock : Env; temporary : jstr; fault : Site -> option jstr; partial : Site -> list N;
  live : list N -> list N; pages_finite : bool;
}.

(** A call yields what it throws or returns and the machine it leaves. *)
Definition Run (A : Type) : Type := Disk -> (Failure + A) * Disk.

#[global] Instance Run_ret : MRet Run := fun A a d => (inr a, d).
#[global] Instance Run_bind : MBind Run := fun A B k m d => match m d with (inr a, d') => k a d' | (inl e, d') => (inl e, d') end.

Definition throws {A} (message : jstr) : Run A := fun d => (inl {| f_message := message; f_checks := None |}, d).
Definition from {A} (r : result A) : Run A := match r with Ok a => mret a | Throw e => throws e end.
Definition looks {A} (f : Disk -> A) : Run A := fun d => (inr (f d), d).
Definition changes (f : Disk -> Disk) : Run unit := fun d => (inr tt, f d).
(** [try { m } catch (e) { cleanup; throw e }] *)
Definition undoing {A} (m : Run A) (cleanup : Run unit) : Run A := fun d =>
  match m d with
  | (inl e, d') => match cleanup d' with (inl e', d'') => (inl e', d'') | (inr _, d'') => (inl e, d'') end
  | r => r
  end.
(** [try { m } finally { cleanup }] *)
Definition ending {A} (m : Run A) (cleanup : Run unit) : Run A := fun d =>
  match m d with (r, d') => match cleanup d' with (inl e', d'') => (inl e', d'') | (inr _, d'') => (r, d'') end end.
(** [try { m } catch (e) { handler(e) }] *)
Definition catching {A} (m : Run A) (handler : Failure -> Run A) : Run A := fun d =>
  match m d with (inl e, d') => handler e d' | r => r end.

(** ** File-system calls *)

Definition has_file (path : jstr) (d : Disk) : bool := map_has path (files d).
Definition existsSync (path : jstr) (d : Disk) : bool := has_file path d || includes (directories d) path.

Section calls.
Context (io : Draw).

Definition may_fail (s : Site) : Run unit := match fault io s with Some e => throws e | None => mret tt end.

Definition mkdirSync (path : jstr) : Run unit :=
  looks (fun d => existsb (fun p => has_file p d) (ancestors path)) ≫= fun blocked =>
  if (blocked : bool) then throws ("EEXIST: file already exists, mkdir '" +:+ path +:+ "'")
  else changes (fun d => set_directories (directories d ++ List.filter (fun p => negb (includes (directories d) p)) (ancestors path)) d).

Definition readFileSync (s : Site) (path : jstr) : Run (list N) :=
  may_fail s ≫= fun _ =>
  looks (fun d => map_get path (files d)) ≫= fun content =>
  match content with Some b => mret b | None => throws ("ENOENT: no such file or directory, open '" +:+ path +:+ "'") end.

(** The file holds [b]; after a failure it holds what was written before. *)
Definition write_as (s : Site) (path : jstr) (b : list N) : Run unit :=
  match fault io s with
  | Some e => changes (fun d => set_files (map_set path (partial io s) (files d)) d) ≫= fun _ => throws e
  | None => changes (fun d => set_files (map_set path b (files d)) d)
  end.

(** [openSync(path, "wx")] and [closeSync] *)
Definition claimNewFile (s : Site) (path : jstr) : Run unit :=
  mkdirSync (dirname path) ≫= fun _ =>
  may_fail s ≫= fun _ =>
  looks (existsSync path) ≫= fun taken =>
  if (taken : bool) then throws ("EEXIST: file already exists, open '" +:+ path +:+ "'")
  else changes (fun d => set_files (map_set path [] (files d)) d).

(** [rmSync(path, { force: true })] of a file *)
Definition removeFile (s : Site) (path : jstr) : Run unit :=
  may_fail s ≫= fun _ => changes (fun d => set_files (map_delete path (files d)) d).
Definition remove_if_there (s : Site) (path : jstr) : Run unit :=
  looks (existsSync path) ≫= fun there => if (there : bool) then removeFile s path else mret tt.

(** [rmSync(dir, { recursive: true, force: true })] *)
Definition below (dir path : jstr) : bool := (path =s? dir) || starts_with (dir ++ [47%N]) path.
Definition removeTree (s : Site) (dir : jstr) : Run unit :=
  may_fail s ≫= fun _ =>
  changes (fun d => set_directories (List.filter (fun p => negb (below dir p)) (directories d))
                      (set_files (List.filter (fun p => negb (below dir p.1)) (files d)) d)).
End calls.
