(* ===== verification/BackupPaths.v ===== *)
(** BackupPaths: resolved paths, and the file of a plain name in a directory. *)
From S2P Require Import Prelude JsString JsMap Host JsTime JsJson LabRequest CredentialVerifier BackupFiles.
#[local] Open Scope string_scope.
#[local] Open Scope list_scope.
#[local] Open Scope Z_scope.
#[local] Open Scope js_scope.

(** A name that is one segment of a path. *)
Definition unslashed (s : jstr) : Prop := 47%N ∉ s.
Definition plain (s : jstr) : Prop := unslashed s /\ s <> [] /\ s <> js "." /\ s <> js "..".

Lemma split_app c s t : split_at c (s ++ c :: t) = split_at c s ++ split_at c t.
Proof.
  induction s as [|d s IH]; cbn [app split_at]; [by rewrite N.eqb_refl|]. destruct (d =? c)%N; [by rewrite IH|].
  rewrite IH. destruct (split_at c s) as [|l ls] eqn:E; [|done]. by destruct s as [|e s]; cbn in E; [|destruct (e =? c)%N; [|destruct (split_at c s)]].
Qed.
Lemma split_unslashed s : unslashed s -> split_at 47 s = [s].
Proof.
  induction s as [|c s IH]; [done|]. intros [Hc Hs]%not_elem_of_cons. cbn. rewrite (IH Hs). by rewrite (proj2 (N.eqb_neq c 47)) by congruence.
Qed.
Lemma split_pieces s : Forall unslashed (split_at 47 s).
Proof.
  induction s as [|c s IH]; cbn; [constructor; [by apply not_elem_of_nil|done]|].
  destruct (N.eqb_spec c 47) as [->|Hc]; [constructor; [by apply not_elem_of_nil|done]|].
  destruct IH as [|l ls Hl IH]; constructor; try done; apply not_elem_of_cons; split; try congruence; try done. apply not_elem_of_nil.
Qed.

Lemma walk_plain acc l : Forall plain acc -> Forall unslashed l -> Forall plain (walk acc l).
Proof.
  intros Ha Hl. revert acc Ha. induction Hl as [|s l Hs Hl IH]; intros acc Ha; cbn [walk]; [done|].
  destruct (_ || _) eqn:E1; [by apply IH|]. apply orb_false_iff in E1 as [E1%jeqb_false E2%jeqb_false].
  destruct (jeqb s (js "..")) eqn:E3; [apply IH; by destruct Ha|]. apply jeqb_false in E3. apply IH. by constructor.
Qed.
Lemma walk_app acc l m : walk acc (l ++ m) = walk (walk acc l) m.
Proof.
  revert acc. induction l as [|s l IH]; intros acc; cbn [walk app]; [done|]. destruct (_ || _); [apply IH|]. destruct (jeqb _ _); apply IH.
Qed.
Lemma walk_plain_names acc l : Forall plain l -> walk acc l = reverse l ++ acc.
Proof.
  intros Hl. revert acc. induction Hl as [|s l (_ & H1 & H2 & H3) Hl IH]; intros acc; cbn [walk]; [done|].
  rewrite (proj2 (jeqb_false s (js ""))), (proj2 (jeqb_false s (js "."))), (proj2 (jeqb_false s (js ".."))) by done.
  cbn [orb]. rewrite IH, reverse_cons. by rewrite <- app_assoc.
Qed.

Lemma segments_plain p : Forall plain (segments p).
Proof. unfold segments. apply Forall_reverse, walk_plain; [done|apply split_pieces]. Qed.

Lemma split_join l : Forall unslashed l -> l <> [] -> split_at 47 (join [47%N] l) = l.
Proof.
  intros Hl Hn. destruct Hl as [|s l Hs Hl]; [done|]. clear Hn. cbn [join]. revert s Hs.
  induction Hl as [|t l Ht Hl IH]; intros s Hs; cbn [map concat]; [rewrite app_nil_r; by apply split_unslashed|].
  rewrite <- app_assoc. cbn [app]. rewrite split_app, (split_unslashed s Hs). cbn [app]. f_equal. by apply IH.
Qed.
Lemma plain_unslashed l : Forall plain l -> Forall unslashed l.
Proof. intros Hl. apply (Forall_impl _ _ _ Hl). by intros s [? _]. Qed.
Lemma split_absolute l : Forall plain l -> exists k, split_at 47 (absolute l) = [] :: k /\ walk [] ([] :: k) = reverse l.
Proof.
  intros Hl. unfold absolute. cbn [split_at]. change (47 =? 47)%N with true. cbv iota. eexists. split; [reflexivity|].
  destruct (decide (l = [])) as [->|Hn]; [done|]. rewrite split_join by (done || by apply plain_unslashed).
  cbn [walk]. change (jeqb [] (js "")) with true. cbn [orb]. rewrite walk_plain_names by done. by rewrite app_nil_r.
Qed.
Lemma segments_absolute l : Forall plain l -> segments (absolute l) = l.
Proof. intros Hl. unfold segments. destruct (split_absolute l Hl) as (k & -> & ->). apply reverse_involutive. Qed.
Lemma absolute_inj l m : Forall plain l -> Forall plain m -> absolute l = absolute m -> l = m.
Proof. intros Hl Hm E. rewrite <- (segments_absolute l), <- (segments_absolute m) by done. by rewrite E. Qed.

Lemma absolute_last l : exists a, forall s, absolute (l ++ [s]) = a ++ s.
Proof.
  unfold absolute. destruct l as [|x l]; cbn [app join map concat]; [exists [47%N]; intros s; by rewrite app_nil_r|].
  exists (47%N :: x ++ concat (map (fun y => [47%N] ++ y) l) ++ [47%N]). intros s. rewrite map_app, concat_app. cbn [map concat]. rewrite app_nil_r.
  cbn [app]. f_equal. by rewrite <- !app_assoc.
Qed.

Section process.
Context `{Process}.

Lemma resolve_plain ps : exists l, Forall plain l /\ resolve ps = absolute l.
Proof. eexists. split; [|reflexivity]. apply segments_plain. Qed.

Lemma resolve_absolute l : Forall plain l -> resolve [absolute l] = absolute l.
Proof.
  intros Hl. unfold resolve. f_equal. change (reverse [cwd; absolute l]) with [absolute l; cwd]. cbn [prepend_paths absolute app starts_with].
  change (47 =? 47)%N with true. cbn [andb]. change (47%N :: join [47%N] l ++ [47%N]) with (absolute l ++ [47%N]).
  unfold segments. rewrite split_app. destruct (split_absolute l Hl) as (k & -> & Hk).
  rewrite walk_app, Hk. cbn. apply reverse_involutive.
Qed.
Lemma resolve_again ps : resolve [resolve ps] = resolve ps.
Proof. destruct (resolve_plain ps) as (l & Hl & ->). by apply resolve_absolute. Qed.

(** A plain name stays in the directory. *)
Lemma resolve_in l s : Forall plain l -> plain s -> resolve [absolute l; s] = absolute (l ++ [s]).
Proof.
  intros Hl Hs. unfold resolve. f_equal. change (reverse [cwd; absolute l; s]) with [s; absolute l; cwd].
  destruct s as [|c s'] eqn:Es; [by destruct Hs as (_ & ? & _)|]. rewrite <- Es in *.
  assert (prepend_paths [s; absolute l; cwd] [] = absolute l ++ 47%N :: s ++ [47%N]) as ->.
  { rewrite Es in *. cbn [prepend_paths absolute app starts_with]. destruct Hs as [[Hc _]%not_elem_of_cons _].
    rewrite (proj2 (N.eqb_neq 47 c)) by congruence. done. }
  unfold segments. rewrite split_app, split_app, (split_unslashed s) by apply Hs. destruct (split_absolute l Hl) as (k & -> & Hk).
  rewrite walk_app, Hk, (walk_app _ [s]), (walk_plain_names _ [s]) by (by repeat constructor || by apply Hs).
  assert (forall acc, walk acc (split_at 47 []) = acc) as -> by done. by rewrite reverse_app, !reverse_involutive.
Qed.
End process.
