(* ===== verification/BackupLib.v ===== *)
(** BackupLib: tools/backup-lib.ts, the backup of a store's SQLite file with its
    manifest, and the verified restore of one. *)
From S2P Require Import Prelude JsString JsMap Host JsTime JsJson JsParse JsPretty LabRequest CredentialVerifier Engine DurableStore BackupFiles.
#[local] Open Scope string_scope.
#[local] Open Scope list_scope.
#[local] Open Scope Z_scope.
#[local] Open Scope js_scope.

(** ** The libraries *)

(** SQLite on the bytes of a file: what the queries of the tool answer, what a
    connection of the store finds and what it leaves, and the online backup.  A
    query throws when the bytes are no database or lack the table. *)
Class SqliteFiles := {
  sq_integrity : list N -> result jstr;
  sq_migrations : list N -> result (list MigrationRow);
  sq_challenges : list N -> result (list ChallengeRow);
  sq_idempotency : list N -> result (list IdempotencyRow);
  sq_outbox : list N -> result (list OutboxRow);
  (** [WHERE challenge_id = ?], for the value bound *)
  sq_challenge : list N -> jsval -> result (option ChallengeRow);
  sq_load : list N -> result DurableStore.File;
  sq_save : list N -> DurableStore.File -> list N;
  sq_backup : list N -> list N;
}.

(** A JSON value read as the snapshot type of the engine. *)
Class EngineJson := engine_snapshot : jsval -> result AirlockEngineSnapshot.

(** ** Constants and data *)

Definition BACKUP_SCHEMA_VERSION : jstr := "airlock.backup.v1".
Definition TOOL_NAME : jstr := "contactless-airlock-lab/backup-lib".
Definition dash : jstr := [8212%N].
Definition POINT_IN_TIME_LIMITATION : jstr :=
  js "Snapshot backup only. Captures every transaction committed at the moment this backup ran (WAL-consistent via SQLite's Online Backup API). Does NOT provide continuous point-in-time recovery " ++ dash ++
  js " writes committed after this backup and before the next one are unrecoverable through this tool if the source database is lost.".
Definition SCOPE_LIMITATION : jstr :=
  "Local-disk backup/restore only. Does not implement off-host replication, encrypted retention, or disaster-recovery orchestration; that remains explicitly open work, not covered by this tool.".
Definition AUTHENTICITY_LIMITATION : jstr :=
  js "The sha256 in this manifest detects ACCIDENTAL corruption (bit rot, truncation, a bad copy) " ++ dash ++
  js " it is not keyed or signed. Anyone who can write to the location holding this .sqlite file can also rewrite this manifest to match, so this checksum provides NO protection against a storage-level attacker: it does not prove who produced this backup or that it has not been deliberately substituted. Authenticity (as opposed to accidental-corruption detection) requires a keyed MAC or signature verified against a secret/key held separately from the backup storage, which this tool does not implement.".

Record LabSnapshotInfo : Type := { ls_id : jstr; ls_version : Z; ls_status : jstr }.
Record TableRowCounts : Type := { n_challenges : nat; n_idempotency : nat; n_outbox : nat }.

Record BackupManifest : Type := {
  createdAt : jstr; sourceLabel : jstr; sqliteFileName : jstr; sqliteFileBytes : nat; sqliteFileSha256 : jstr;
  appMigrations : list (Z * jstr); tableRowCounts : TableRowCounts; labSnapshot : option LabSnapshotInfo;
  mf_node : jstr; mf_platform : jstr;
}.

Definition number_of (n : nat) : jsval := JNum (NInt (Z.of_nat n)).
Definition migration_value (m : Z * jstr) : jsval := JObj [(js "version", JNum (NInt m.1)); (js "name", JStr m.2)].
Definition counts_value (c : TableRowCounts) : jsval :=
  JObj [(js "durable_challenges", number_of (n_challenges c)); (js "idempotency_records", number_of (n_idempotency c)); (js "outbox_events", number_of (n_outbox c))].
Definition snapshot_value (s : option LabSnapshotInfo) : jsval :=
  match s with
  | None => JObj [(js "present", JBool false)]
  | Some i => JObj [(js "present", JBool true); (js "id", JStr (ls_id i)); (js "version", JNum (NInt (ls_version i))); (js "status", JStr (ls_status i))]
  end.
(** The manifest as an object, in the order its properties are written. *)
Definition manifest_value (m : BackupManifest) : jsval :=
  JObj [(js "schemaVersion", JStr BACKUP_SCHEMA_VERSION); (js "tool", JStr TOOL_NAME); (js "createdAt", JStr (createdAt m));
        (js "sourceLabel", JStr (sourceLabel m)); (js "sqliteFileName", JStr (sqliteFileName m)); (js "sqliteFileBytes", number_of (sqliteFileBytes m));
        (js "sqliteFileSha256", JStr (sqliteFileSha256 m)); (js "appMigrations", JArr (map migration_value (appMigrations m)));
        (js "tableRowCounts", counts_value (tableRowCounts m)); (js "labSnapshot", snapshot_value (labSnapshot m)); (js "integrityCheck", JStr "ok");
        (js "environment", JObj [(js "node", JStr (mf_node m)); (js "platform", JStr (mf_platform m))]);
        (js "limitations", JObj [(js "pointInTime", JStr POINT_IN_TIME_LIMITATION); (js "scope", JStr SCOPE_LIMITATION); (js "authenticity", JStr AUTHENTICITY_LIMITATION)])].

(** ** Labels and paths *)

(** [/^[A-Za-z0-9][A-Za-z0-9._-]{0,63}$/] *)
Definition label_pattern (s : jstr) : bool :=
  match s with
  | [] => false
  | c :: r => is_alnum c && (length r <=? 63)%nat && forallb (fun c => is_alnum c || (c =? 46)%N || (c =? 95)%N || (c =? 45)%N) r
  end.

Definition sanitizeLabel (label : jstr) : result jstr :=
  let trimmed := trim label in
  throw_if (trimmed =s? js "") "label must not be empty" ≫= fun _ =>
  throw_if (negb (label_pattern trimmed)) "label must be 1-64 letters, numbers, dots, underscores, or hyphens" ≫= fun _ =>
  throw_if ((trimmed =s? js ".") || (trimmed =s? js "..")) "label must not be a path-traversal token" ≫= fun _ =>
  Ok trimmed.

Definition ends_with (suffix s : jstr) : bool := starts_with (reverse suffix) (reverse s).

Section tool.
Context `{Host, Sqlite, SqliteFiles, EngineJson, Process}.

Definition pathSep : jstr := if platform =s? js "win32" then [92%N] else [47%N].

Definition resolveWithinDirectory (directory fileName : jstr) : result jstr :=
  let absoluteDirectory := resolve [directory] in
  let candidate := resolve [absoluteDirectory; fileName] in
  let prefix := if ends_with pathSep absoluteDirectory then absoluteDirectory else absoluteDirectory ++ pathSep in
  throw_if (negb (candidate =s? absoluteDirectory) && negb (starts_with prefix candidate))
    ("resolved path escapes its directory: " +:+ fileName) ≫= fun _ =>
  Ok candidate.

(** ** Queries *)

Definition countRows {A : Type} (rows : result (list A)) : result nat := rows ≫= fun l => Ok (length l).

Fixpoint insert_migration (r : MigrationRow) (l : list MigrationRow) : list MigrationRow :=
  match l with [] => [r] | x :: l' => if mi_version r <=? mi_version x then r :: l else x :: insert_migration r l' end.
Fixpoint migration_rows (l : list MigrationRow) : result (list (Z * jstr)) :=
  match l with
  | [] => Ok []
  | r :: l => column_int (mi_version r) ≫= fun v => migration_rows l ≫= fun ms => Ok ((v, column_text (mi_name r)) :: ms)
  end.
(** [ORDER BY version] *)
Definition readAppliedMigrations (b : list N) : result (list (Z * jstr)) :=
  sq_migrations b ≫= fun l => migration_rows (foldr insert_migration [] l).

Definition LAB_ROW : jstr := "realtime-lab:simulator-state".
Definition readLabSnapshotInfo (b : list N) : result (option LabSnapshotInfo) :=
  sq_challenge b (JStr LAB_ROW) ≫= fun row =>
  match row with
  | None => Ok None
  | Some r => column_int (ch_version r) ≫= fun v =>
      Ok (Some {| ls_id := column_text (ch_challenge_id r); ls_version := v; ls_status := column_text (ch_status r) |})
  end.

Definition sha256File (io : Draw) (s : Site) (path : jstr) : Run jstr :=
  readFileSync io s path ≫= fun b => mret (sha256Hex b).

(** ** Backup *)

Record CreateBackupOptions : Type := { dbPath : jstr; outputDir : jstr; label : option jstr; now : option Date }.
Record CreateBackupResult : Type := { sqlitePath : jstr; manifestPath : jstr; manifest : BackupManifest }.

(** [new DurableStore(path).close()] *)
Definition open_and_close (io : Draw) (path : jstr) : Run unit :=
  readFileSync io OpenStore path ≫= fun b =>
  from (sq_load b ≫= fun f => DurableStore.constructor (store_clock io) f) ≫= fun s =>
  changes (fun d => set_files (map_set path (sq_save b (DurableStore.close s)) (files d)) d).

(** [await sqliteBackup(raw, target)], others writing to the source meanwhile. *)
Definition run_backup (io : Draw) (source target : jstr) : Run unit :=
  changes (fun d => set_files (match map_get source (files d) with Some b => map_set source (live io b) (files d) | None => files d end) d) ≫= fun _ =>
  looks (fun d => map_get source (files d)) ≫= fun content =>
  write_as io RunBackup target (sq_backup (default [] content)) ≫= fun _ =>
  if pages_finite io then mret tt else throws "SQLite backup API returned an unexpected result".

(** What is read from the finished copy. *)
Definition read_copy (b : list N) : result (list (Z * jstr) * TableRowCounts * option LabSnapshotInfo) :=
  sq_integrity b ≫= fun integrity =>
  throw_if (negb (integrity =s? js "ok")) ("backup copy failed integrity_check: " +:+ integrity) ≫= fun _ =>
  readAppliedMigrations b ≫= fun appliedMigrations =>
  countRows (sq_challenges b) ≫= fun c =>
  countRows (sq_idempotency b) ≫= fun i =>
  countRows (sq_outbox b) ≫= fun o =>
  readLabSnapshotInfo b ≫= fun lab =>
  Ok (appliedMigrations, {| n_challenges := c; n_idempotency := i; n_outbox := o |}, lab).

(** Colons and dots become hyphens. *)
Definition file_stamp (iso : jstr) : jstr := map (fun c => if (c =? 58)%N || (c =? 46)%N then 45%N else c) iso.

Definition describe (io : Draw) (db sqliteName target iso : jstr) : Run BackupManifest :=
  readFileSync io OpenCopy target ≫= fun b =>
  from (read_copy b) ≫= fun found =>
  sha256File io HashCopy target ≫= fun hash =>
  mret {| createdAt := iso; sourceLabel := basename db; sqliteFileName := sqliteName; sqliteFileBytes := length b; sqliteFileSha256 := hash;
          appMigrations := found.1.1; tableRowCounts := found.1.2; labSnapshot := found.2; mf_node := node_version; mf_platform := platform |}.

(** The cleanup is of what follows the claim. *)
Definition createBackup (options : CreateBackupOptions) (io : Draw) : Run CreateBackupResult :=
  let db := resolve [dbPath options] in
  looks (existsSync db) ≫= fun there =>
  if negb there then throws ("source database does not exist: " +:+ db) else
  let out := resolve [outputDir options] in
  may_fail io MakeOutput ≫= fun _ =>
  mkdirSync out ≫= fun _ =>
  from (toISOString (default (clock io) (now options))) ≫= fun iso =>
  from (match label options with Some ((_ :: _) as l) => sanitizeLabel l | _ => Ok (js "backup") end) ≫= fun name =>
  let baseName := file_stamp iso ++ [95%N] ++ name in
  let sqliteName := baseName +:+ ".sqlite" in
  from (resolveWithinDirectory out sqliteName) ≫= fun target =>
  from (resolveWithinDirectory out (baseName +:+ ".manifest.json")) ≫= fun manifestTarget =>
  open_and_close io db ≫= fun _ =>
  may_fail io OpenSource ≫= fun _ =>
  claimNewFile io ClaimCopy target ≫= fun _ =>
  undoing (run_backup io db target ≫= fun _ => describe io db sqliteName target iso) (remove_if_there io RemoveCopy target) ≫= fun m =>
  claimNewFile io ClaimManifest manifestTarget ≫= fun _ =>
  write_as io WriteManifest manifestTarget (utf8_encode (pretty_text 0 (manifest_value m) ++ [10%N])) ≫= fun _ =>
  mret {| sqlitePath := target; manifestPath := manifestTarget; manifest := m |}.

(** ** Reading a manifest *)

Definition is_string (v : jsval) : bool := match v with JStr _ => true | _ => false end.
Definition is_number (v : jsval) : bool := match v with JNum _ => true | _ => false end.
Definition is_array (v : jsval) : bool := match v with JArr _ => true | _ => false end.
Definition hex_text (v : jsval) : bool := match v with JStr s => hex_of_length 64 s | _ => false end.

Definition manifest_shape (v : jsval) : bool :=
  is_text (member (js "schemaVersion") v) BACKUP_SCHEMA_VERSION && is_string (member (js "sqliteFileName") v) && is_number (member (js "sqliteFileBytes") v) &&
  is_string (member (js "sqliteFileSha256") v) && hex_text (member (js "sqliteFileSha256") v) && is_array (member (js "appMigrations") v) &&
  truthy (member (js "tableRowCounts") v) && truthy (member (js "labSnapshot") v) && is_text (member (js "integrityCheck") v) (js "ok").

Definition readManifest (io : Draw) (path : jstr) : Run jsval :=
  looks (existsSync path) ≫= fun there =>
  if negb there then throws ("manifest not found: " +:+ path) else
  catching (readFileSync io ReadManifest path ≫= fun b => from (json_parse (utf8_decode b)))
    (fun _ => throws ("manifest is not valid JSON: " +:+ path)) ≫= fun parsed =>
  match parsed with
  | JNull => throws "Cannot read properties of null (reading 'schemaVersion')"
  | _ => if manifest_shape parsed then mret parsed else throws ("manifest is missing required fields or is the wrong shape: " +:+ path)
  end.

(** ** Restore *)

Record RestoreOptions : Type := { backupSqlitePath : jstr; ro_manifestPath : option jstr; destPath : option jstr; verifyOnly : bool }.
Record RestoreReport : Type := { restoredPath : option jstr; rp_checks : list RestoreCheck; rp_manifest : jsval }.

Definition record (name : jstr) (ok : bool) (detail : jstr) : Run bool :=
  changes (fun d => set_checks (checks d ++ [{| name := name; ok := ok; detail := detail |}]) d) ≫= fun _ => mret ok.
(** [throw new RestoreVerificationError(message, checks)] *)
Definition rejects {A} (message : jstr) : Run A := fun d => (inl {| f_message := message; f_checks := Some (checks d) |}, d).
(** [if (!record(...)) throw new RestoreVerificationError(message, checks)] *)
Definition demand (name : jstr) (ok : bool) (detail message : jstr) : Run unit :=
  record name ok detail ≫= fun ok => if (ok : bool) then mret tt else rejects message.

(** The path with [.sqlite] at its end replaced. *)
Definition default_manifest (path : jstr) : jstr :=
  if ends_with (js ".sqlite") path then take (length path - 7) path +:+ ".manifest.json" else path.

Definition checkManifest (io : Draw) (manifestPath : jstr) : Run jsval :=
  catching (readManifest io manifestPath ≫= fun m => record "manifest-readable" true manifestPath ≫= fun _ => mret m)
    (fun e => record "manifest-readable" false (f_message e) ≫= fun _ => rejects ("manifest verification failed: " +:+ f_message e)).

Definition number_is (v : jsval) (n : nat) : bool := match v with JNum (NInt z) => z =? Z.of_nat n | _ => false end.
Definition shown (v : jsval) : jstr := match v with JNum n => number_string n | JStr s => s | _ => [] end.
Definition count_text (n : nat) : jstr := decimal (N.of_nat n).

(** The bytes of the backup are those the manifest names. *)
Definition checkBytes (io : Draw) (path : jstr) (m : jsval) : Run unit :=
  looks (fun d => default [] (map_get path (files d))) ≫= fun b =>
  demand "byte-length-matches-manifest" (number_is (member (js "sqliteFileBytes") m) (length b))
    (js "expected " ++ shown (member (js "sqliteFileBytes") m) ++ js ", found " ++ count_text (length b))
    "backup file is truncated or grew unexpectedly" ≫= fun _ =>
  sha256File io HashBackup path ≫= fun actualHash =>
  demand "sha256-matches-manifest" (is_text (member (js "sqliteFileSha256") m) actualHash)
    (if is_text (member (js "sqliteFileSha256") m) actualHash then actualHash
     else js "expected " ++ shown (member (js "sqliteFileSha256") m) ++ js ", found " ++ actualHash)
    (js "backup file content does not match its manifest checksum " ++ dash ++ js " corrupted or substituted").

(** Where the copy goes, and the throwaway directory that holds it. *)
Definition restoreTarget (options : RestoreOptions) (io : Draw) : Run (jstr * option jstr) :=
  if verifyOnly options then
    may_fail io MakeTemporary ≫= fun _ =>
    changes (fun d => set_directories (directories d ++ [temporary io]) d) ≫= fun _ =>
    mret (in_directory (temporary io) "restored.sqlite", Some (temporary io))
  else match destPath options with
  | None | Some [] => rejects "destPath is required unless verifyOnly is set"
  | Some dest =>
      let path := resolve [dest] in
      looks (existsSync path) ≫= fun taken =>
      if (taken : bool) then rejects ("restore destination already exists, refusing to overwrite: " +:+ path) else mret (path, None)
  end.

(** ** Verification of the copy *)

Definition migration_text (m : Z * jstr) : jstr := decimal_Z m.1 ++ [58%N] ++ m.2.
Definition hasKnownSchema (applied : list (Z * jstr)) : bool :=
  negb (bool_decide (applied = [])) && forallb (fun m => includes (map migration_text DurableStore.MIGRATIONS) (migration_text m)) applied.
Definition migrations_text (l : list (Z * jstr)) : jstr := default [] (json_stringify (JArr (map migration_value l))).

Definition verifySchema (b : list N) : Run unit :=
  let '(known, detail) := match readAppliedMigrations b with
    | Ok l => (hasKnownSchema l, if hasKnownSchema l then migrations_text l else js "unrecognized or missing schema_migrations: " ++ migrations_text l)
    | Throw e => (false, js "not a recognizable application database: " ++ e)
    end in
  demand "recognized-application-schema" known detail "wrong-source rejection: this file's schema_migrations does not match this application".

Definition count_where {A} (p : A -> bool) (l : list A) : nat := length (List.filter p l).

Definition unparsable (text : list N) : bool := negb (is_ok (DurableStore.parse text)).
Definition verifyIdempotency (b : list N) : Run unit :=
  from (sq_idempotency b) ≫= fun rows =>
  let failures := count_where (fun r => unparsable (id_response_json r)) rows in
  demand "idempotency-records-structurally-valid" (failures =? 0)%nat
    (count_text (length rows) ++ js " rows, " ++ count_text failures ++ js " with unparsable response_json") "idempotency_records verification failed".

(** A column that holds a text that is not empty. *)
Definition given (column : option (list N)) : option jstr :=
  match column_text <$> column with Some ((_ :: _) as s) => Some s | _ => None end.
Definition is_delivered (r : OutboxRow) : bool := bool_decide (is_Some (given (ob_delivered_at r))).
Definition is_claimed (r : OutboxRow) : bool := negb (is_delivered r) && bool_decide (is_Some (given (ob_claimed_until r))).
Definition delivered_early (r : OutboxRow) : bool :=
  match given (ob_delivered_at r) with Some at_ => num_lt (date_parse at_) (date_parse (column_text (ob_created_at r))) | None => false end.
Definition outboxIssues (rows : list OutboxRow) : nat :=
  (count_where (fun r => unparsable (ob_payload_json r)) rows + count_where delivered_early rows)%nat.
Definition verifyOutbox (b : list N) : Run unit :=
  from (sq_outbox b) ≫= fun rows =>
  let issues := outboxIssues rows in
  let delivered := count_where is_delivered rows in
  let claimed := count_where is_claimed rows in
  demand "outbox-events-structurally-valid" (issues =? 0)%nat
    (count_text (length rows) ++ js " rows (delivered=" ++ count_text delivered ++ js ", claimed=" ++ count_text claimed ++
     js ", pending=" ++ count_text (length rows - delivered - claimed) ++ js "), " ++ count_text issues ++ js " issues") "outbox_events verification failed".

(** [AirlockEngine.restore(JSON.parse(record_json).engine)] *)
Definition deep_restore (text : list N) : result AirlockEngine :=
  DurableStore.parse text ≫= fun persisted =>
  match persisted with
  | JNull => Throw "Cannot read properties of null (reading 'engine')"
  | _ => engine_snapshot (member (js "engine") persisted) ≫= Engine.restore
  end.
Definition verifyState (b : list N) (m : jsval) : Run unit :=
  let lab := member (js "labSnapshot") m in
  if truthy (member (js "present") lab) && truthy (member (js "id") lab) then
    from (sq_challenge b (member (js "id") lab)) ≫= fun row =>
    demand "lab-snapshot-row-present" (bool_decide (is_Some row)) (match row with Some _ => js "found" | None => js "expected by manifest but missing after restore" end)
      "lab snapshot row missing after restore" ≫= fun _ =>
    match deep_restore (default [] (ch_record_json <$> row)) with
    | Ok _ => record "application-state-deep-verification" true
        "AirlockEngine.restore succeeded: audit hash chain, every cross-record challenge binding, and daily-spend reconciliation all verified" ≫= fun _ => mret tt
    | Throw e => record "application-state-deep-verification" false e ≫= fun _ => rejects ("application-level state verification failed: " +:+ e)
    end
  else record "application-state-deep-verification" true "no lab snapshot present in this backup; skipped" ≫= fun _ => mret tt.

Definition verifyCopy (io : Draw) (path : jstr) (m : jsval) : Run unit :=
  readFileSync io OpenTarget path ≫= fun b =>
  match sq_integrity b with
  | Throw e => record "sqlite-opens-and-integrity-check" false e ≫= fun _ => rejects "restored file is not a valid SQLite database"
  | Ok integrity => demand "sqlite-integrity-check" (integrity =s? js "ok") integrity "restored database failed PRAGMA integrity_check"
  end ≫= fun _ =>
  verifySchema b ≫= fun _ => verifyIdempotency b ≫= fun _ => verifyOutbox b ≫= fun _ => verifyState b m.

(** [copyFileSync(source, target)] *)
Definition copyFile (io : Draw) (source target : jstr) : Run unit :=
  looks (fun d => default [] (map_get source (files d))) ≫= fun b => write_as io CopyTarget target b.

(** The part within [try ... catch]; the cleanup is of what follows the claim. *)
Definition restore_into (options : RestoreOptions) (io : Draw) (backup path : jstr) (m : jsval) : Run RestoreReport :=
  claimNewFile io ClaimTarget path ≫= fun _ =>
  undoing
    (copyFile io backup path ≫= fun _ =>
     record "copied-to-restore-target" true path ≫= fun _ =>
     verifyCopy io path m ≫= fun _ =>
     looks checks ≫= fun recorded =>
     mret {| restoredPath := if verifyOnly options then None else Some path; rp_checks := recorded; rp_manifest := m |})
    (remove_if_there io RemoveTarget path).

Definition restoreBackup (options : RestoreOptions) (io : Draw) : Run RestoreReport :=
  changes (set_checks []) ≫= fun _ =>
  let backup := resolve [backupSqlitePath options] in
  let manifestPath := resolve [default (default_manifest backup) (ro_manifestPath options)] in
  looks (existsSync backup) ≫= fun there =>
  demand "backup-file-exists" there backup ("backup file does not exist: " +:+ backup) ≫= fun _ =>
  checkManifest io manifestPath ≫= fun m =>
  checkBytes io backup m ≫= fun _ =>
  restoreTarget options io ≫= fun '(path, workingDir) =>
  ending (restore_into options io backup path m)
    (match workingDir with Some dir => removeTree io RemoveTemporary dir | None => mret tt end).
End tool.
