(* ===== verification/BackupRuns.v ===== *)
(** BackupRuns: runs of tools/backup-lib.ts: what a backup leaves of the files it
    finds, and what a restore leaves when it succeeds and when it fails. *)
From S2P Require Import Prelude JsString JsMap Host JsTime JsJson JsParse JsPretty LabRequest CredentialVerifier Engine DurableStore BackupFiles BackupPaths BackupLib.
#[local] Open Scope string_scope.
#[local] Open Scope list_scope.
#[local] Open Scope Z_scope.
#[local] Open Scope js_scope.

(** ** Calls by what they return and throw *)

Definition spec {A} (P : Disk -> Prop) (m : Run A) (Q : A -> Disk -> Prop) (E : Disk -> Prop) : Prop :=
  forall d, P d -> match m d with (inr a, d') => Q a d' | (inl _, d') => E d' end.

Section rules.
Context {A : Type}.
Implicit Types (P E : Disk -> Prop) (Q : A -> Disk -> Prop).

Lemma spec_bind {B : Type} P (m : Run B) (k : B -> Run A) R Q E :
  spec P m R E -> (forall b, spec (R b) (k b) Q E) -> spec P (m ≫= k) Q E.
Proof. intros Hm Hk d Hd. unfold mbind, Run_bind. specialize (Hm d Hd). destruct (m d) as [[e|b] d']; [done|]. by apply Hk. Qed.
Lemma spec_pre P P' (m : Run A) Q E : (forall d, P d -> P' d) -> spec P' m Q E -> spec P m Q E.
Proof. intros HP Hm d Hd. by apply Hm, HP. Qed.
Lemma spec_post P (m : Run A) Q Q' E E' : spec P m Q' E' -> (forall a d, Q' a d -> Q a d) -> (forall d, E' d -> E d) -> spec P m Q E.
Proof. intros Hm HQ HE d Hd. specialize (Hm d Hd). destruct (m d) as [[e|a] d']; auto. Qed.
Lemma spec_ret P (a : A) Q E : (forall d, P d -> Q a d) -> spec P (mret a) Q E.
Proof. intros HP d Hd. by apply HP. Qed.
Lemma spec_throws P message Q E : (forall d, P d -> E d) -> spec P (throws message : Run A) Q E.
Proof. intros HP d Hd. by apply HP. Qed.
Lemma spec_rejects P message Q E : (forall d, P d -> E d) -> spec P (rejects message : Run A) Q E.
Proof. intros HP d Hd. by apply HP. Qed.
Lemma spec_looks P (f : Disk -> A) Q E : (forall d, P d -> Q (f d) d) -> spec P (looks f) Q E.
Proof. intros HP d Hd. by apply HP. Qed.
Lemma spec_from P (r : result A) Q E : (forall d, P d -> E d) -> (forall a d, r = Ok a -> P d -> Q a d) -> spec P (from r) Q E.
Proof. intros HE HQ d Hd. destruct r as [a|e]; [by apply HQ|by apply HE]. Qed.
Lemma spec_assoc {B C : Type} P (m : Run B) (f : B -> Run C) (g : C -> Run A) Q E : spec P ((m ≫= f) ≫= g) Q E -> spec P (m ≫= fun b => f b ≫= g) Q E.
Proof. intros Hs d Hd. specialize (Hs d Hd). unfold mbind, Run_bind in *. by destruct (m d) as [[e|b] d']. Qed.
Lemma spec_undoing P (m : Run A) cleanup Q E E' : spec P m Q E' -> spec E' cleanup (fun _ => E) E -> spec P (undoing m cleanup) Q E.
Proof.
  intros Hm Hc d Hd. unfold undoing. specialize (Hm d Hd). destruct (m d) as [[e|a] d']; [|done].
  specialize (Hc d' Hm). by destruct (cleanup d') as [[e'|[]] d''].
Qed.
Lemma spec_catching P (m : Run A) handler Q E E' : spec P m Q E' -> (forall e, spec E' (handler e) Q E) -> spec P (catching m handler) Q E.
Proof. intros Hm Hh d Hd. unfold catching. specialize (Hm d Hd). destruct (m d) as [[e|a] d']; [by apply Hh|done]. Qed.
End rules.
Lemma spec_changes P f Q E : (forall d, P d -> Q tt (f d)) -> spec P (changes f) Q E.
Proof. intros HP d Hd. by apply HP. Qed.
Lemma spec_may_fail io s P Q E : (forall d, P d -> E d) -> (forall d, P d -> Q tt d) -> spec P (may_fail io s) Q E.
Proof. intros HE HQ. unfold may_fail. destruct (fault io s); [by apply spec_throws|by apply spec_ret]. Qed.
Lemma spec_ending {A : Type} P (m : Run A) cleanup Q E Q' E' :
  spec P m Q' E' -> (forall a, spec (Q' a) cleanup (fun _ => Q a) E) -> spec E' cleanup (fun _ => E) E -> spec P (ending m cleanup) Q E.
Proof.
  intros Hm HQ HE d Hd. unfold ending. specialize (Hm d Hd). destruct (m d) as [[e|a] d'].
  - specialize (HE d' Hm). by destruct (cleanup d') as [[e'|[]] d''].
  - specialize (HQ a d' Hm). by destruct (cleanup d') as [[e'|[]] d''].
Qed.

Lemma spec_pure {A : Type} (p : Prop) P (m : Run A) Q E : (p -> spec P m Q E) -> spec (fun d => p /\ P d) m Q E.
Proof. intros Hm d [Hp Hd]. by apply Hm. Qed.

(** ** Files kept *)

(** The files are [F], and the checks recorded so far satisfy [K]. *)
Definition stands (K : list RestoreCheck -> Prop) (F : list (jstr * list N)) (d : Disk) : Prop := files d = F /\ K (checks d).
Definition left_as (F : list (jstr * list N)) (d : Disk) : Prop := files d = F.
(** Every check recorded has passed. *)
Abbreviation held := (stands (Forall (fun c => ok c = true))).

Lemma held_left K F d : stands K F d -> left_as F d.
Proof. by intros [? _]. Qed.
#[local] Hint Resolve held_left : core.

Section disk.
Context (K : list RestoreCheck -> Prop).
Implicit Types F : list (jstr * list N).

Lemma spec_mkdirSync path F : spec (stands K F) (mkdirSync path) (fun _ => stands K F) (stands K F).
Proof.
  eapply spec_bind; [by apply (spec_looks _ _ (fun _ d => stands K F d))|]. intros []; [by apply spec_throws|]. by apply spec_changes.
Qed.
Lemma spec_readFileSync io s path F : spec (stands K F) (readFileSync io s path) (fun b d => map_get path F = Some b /\ stands K F d) (stands K F).
Proof.
  eapply spec_bind; [by apply (spec_may_fail io s _ (fun _ => stands K F))|intros []].
  eapply spec_bind; [apply (spec_looks _ _ (fun c d => c = map_get path F /\ stands K F d)); by intros d [<- Hd]|].
  intros c. apply spec_pure. intros ->. destruct (map_get path F) eqn:Ef; [by apply spec_ret|by apply spec_throws].
Qed.
Lemma spec_claim io s path F : spec (stands K F) (claimNewFile io s path) (fun _ d => map_get path F = None /\ stands K (map_set path [] F) d) (stands K F).
Proof.
  eapply spec_bind; [apply spec_mkdirSync|intros []]. eapply spec_bind; [by apply (spec_may_fail io s _ (fun _ => stands K F))|intros []].
  eapply spec_bind; [apply (spec_looks _ _ (fun c d => (c = false -> map_get path F = None) /\ stands K F d))|].
  - intros d [<- Hd]. split; [|done]. unfold existsSync. intros [E _]%orb_false_iff. by apply map_has_false.
  - intros []; [apply spec_throws; tauto|]. apply spec_changes. intros d [He [<- Hd]]. split; [by apply He|]. by split.
Qed.
Lemma spec_write io s path b F :
  spec (stands K F) (write_as io s path b) (fun _ => stands K (map_set path b F)) (fun d => exists x, files d = map_set path x F).
Proof.
  unfold write_as. destruct (fault io s).
  - eapply spec_bind; [apply (spec_changes _ _ (fun _ d => files d = map_set path (partial io s) F)); by intros d [<- _]|].
    intros []. apply spec_throws. eauto.
  - apply spec_changes. by intros d [<- Hd].
Qed.
Lemma map_delete_fresh path (x : list N) F : map_get path F = None -> map_delete path (map_set path x F) = F.
Proof.
  intros Hn. rewrite map_set_fresh by done. induction F as [|[k v] F IH]; cbn in *.
  - by rewrite bool_decide_true.
  - case_bool_decide; [done|]. by rewrite IH.
Qed.
Lemma spec_remove io s path F x : fault io s = None -> map_get path F = None ->
  spec (fun d => files d = map_set path x F) (remove_if_there io s path) (fun _ => left_as F) (left_as F).
Proof.
  intros Hf Hn. eapply spec_bind; [apply (spec_looks _ _ (fun c d => c = true /\ files d = map_set path x F))|].
  - intros d Hd. split; [|done]. unfold existsSync, has_file, map_has. by rewrite Hd, map_get_set_eq.
  - intros c. apply spec_pure. intros ->. unfold removeFile, may_fail. rewrite Hf.
    eapply spec_bind; [by apply (spec_ret _ _ (fun _ d => files d = map_set path x F))|intros []].
    apply spec_changes. intros d Hd. unfold left_as. cbn [files set_files]. rewrite Hd. by apply map_delete_fresh.
Qed.
Lemma spec_pure_from {A B : Type} (r : result A) (k : A -> Run B) F Q E :
  (forall d, left_as F d -> E d) -> (forall a, r = Ok a -> spec (stands K F) (k a) Q E) -> spec (stands K F) (from r ≫= k) Q E.
Proof. intros HE Hk. destruct r as [a|e]; [by apply Hk|]. intros d [Hd _]. by apply HE. Qed.
End disk.

(** ** Names *)

(** ASCII without a slash. *)
Definition name_char (c : N) : bool := (c <? 128)%N && negb (c =? 47)%N.
Abbreviation name_text s := (Forall (fun c => name_char c = true) s).

Lemma name_unslashed s : name_text s -> unslashed s.
Proof. intros Hs Hin. rewrite Forall_forall in Hs. by specialize (Hs _ Hin). Qed.
Lemma name_good s : name_text s -> good_text s.
Proof.
  intros Hs. apply good_text_small. apply (Forall_impl _ _ _ Hs). cbn. intros c [Hc%N.ltb_lt _]%andb_true_iff. lia.
Qed.
Lemma name_class (p : N -> bool) s : (forall c, p c = true -> name_char c = true) -> forallb p s = true -> name_text s.
Proof. intros Hp Hs. apply Forall_forall. intros c Hin%list_elem_of_In. rewrite List.forallb_forall in Hs. by apply Hp, Hs. Qed.
Lemma digit_name c : is_digit c = true -> name_char c = true.
Proof. unfold is_digit, in_range, name_char. intros [Hl%N.leb_le Hh%N.leb_le]%andb_true_iff. rewrite (proj2 (N.ltb_lt c 128)), (proj2 (N.eqb_neq c 47)); [done|lia..]. Qed.
Lemma alnum_name c : is_alnum c = true -> name_char c = true.
Proof.
  unfold is_alnum. intros [[Hd|Hu]%orb_true_iff|Hl]%orb_true_iff; [by apply digit_name| |].
  all: unfold is_upper, is_lower, in_range, name_char in *; apply andb_true_iff in Hu as [Ha%N.leb_le Hb%N.leb_le] || apply andb_true_iff in Hl as [Ha%N.leb_le Hb%N.leb_le].
  all: rewrite (proj2 (N.ltb_lt c 128)), (proj2 (N.eqb_neq c 47)); [done|lia..].
Qed.
Lemma label_char_name c : is_alnum c || (c =? 46)%N || (c =? 95)%N || (c =? 45)%N = true -> name_char c = true.
Proof.
  intros E. do 3 (apply orb_true_iff in E as [E|E]; [|apply N.eqb_eq in E; by subst c]). by apply alnum_name.
Qed.
Lemma name_digits w z : name_text (digits w z).
Proof. apply (name_class is_digit); [apply digit_name|apply digits_are_digits]. Qed.
Lemma name_one c : name_char c = true -> name_text [c].
Proof. by constructor. Qed.

(** The text of a date but for its colons, which are name characters here. *)
Lemma name_iso d s : toISOString d = Ok s -> name_text s.
Proof.
  destruct d as [t|]; [|done]. intros [= <-]. unfold iso_string. destruct (civil_from_days _) as [[y m] dd]. cbv zeta.
  assert (name_text (iso_year y)) as Hy.
  { unfold iso_year. destruct (_ && _); [apply name_digits|]. destruct (_ <? _); (constructor; [done|apply name_digits]). }
  repeat (apply Forall_app; split; [first [exact Hy|apply name_digits|by apply name_one]|]). by apply name_one.
Qed.
Lemma name_stamp s : name_text s -> name_text (file_stamp s).
Proof. intros Hs. apply Forall_map. apply (Forall_impl _ _ _ Hs). intros c Hc. cbn. by destruct (_ || _). Qed.
Lemma name_label l s : sanitizeLabel l = Ok s -> name_text s.
Proof.
  unfold sanitizeLabel. cbv zeta. rewrite !throw_if_bind_Ok. intros (_ & Hp%negb_false_iff & _ & [= <-]).
  destruct (trim l) as [|c r]; [done|]. cbn in Hp. apply andb_true_iff in Hp as [[Hc _]%andb_true_iff Hr].
  constructor; [by apply alnum_name|]. eapply name_class; [|exact Hr]. apply label_char_name.
Qed.
(** The part of a file name before its extension. *)
Definition base_name (stamp name : jstr) : jstr := stamp ++ [95%N] ++ name.
Lemma base_text stamp name suffix : name_text stamp -> name_text name -> name_text suffix -> name_text (base_name stamp name ++ suffix).
Proof. intros Ha Hb Hc. apply Forall_app; split; [|done]. apply Forall_app; split; [done|]. by constructor. Qed.
Lemma plain_name stamp name suffix : name_text stamp -> name_text name -> name_text suffix -> plain (base_name stamp name ++ suffix).
Proof.
  intros Ha Hb Hc. split; [by apply name_unslashed, base_text|].
  assert (forall s, 95%N ∉ s -> base_name stamp name ++ suffix <> s) as Hne.
  { intros s Hs <-. apply Hs. unfold base_name. rewrite !elem_of_app. left. right. left. by constructor. }
  split_and!; apply Hne; rewrite list_elem_of_In; vm_compute; intuition discriminate.
Qed.

(** ** Backups *)

Section backup.
Context `{Host, Sqlite, SqliteFiles, Process}.
Implicit Types F : list (jstr * list N).

(** The manifest tells what the bytes of the copy are and hold. *)
Definition describes (m : BackupManifest) (b : list N) : Prop :=
  sqliteFileBytes m = length b /\ sqliteFileSha256 m = sha256Hex b /\ read_copy b = Ok (appMigrations m, tableRowCounts m, labSnapshot m).

(** What it says besides. *)
Definition labelled (db name iso : jstr) (m : BackupManifest) : Prop :=
  createdAt m = iso /\ sourceLabel m = basename db /\ sqliteFileName m = name /\ mf_node m = node_version /\ mf_platform m = platform.

Abbreviation at_files := (stands (fun _ => True)).

Lemma spec_open_and_close io db F :
  spec (at_files F) (open_and_close io db) (fun _ d => exists s, map_get db F <> None /\ at_files (map_set db s F) d) (at_files F).
Proof.
  eapply spec_bind; [apply spec_readFileSync|intros b]. apply spec_pure. intros Hb. apply spec_pure_from; [by intros d|]. intros s _.
  apply spec_changes. intros d [Hd _]. eexists. split; [by rewrite Hb|]. split; [by rewrite <- Hd|done].
Qed.

Lemma spec_describe io db name target iso b F E : map_get target F = Some b -> (forall d, left_as F d -> E d) ->
  spec (at_files F) (describe io db name target iso) (fun m d => (describes m b /\ labelled db name iso m) /\ at_files F d) E.
Proof.
  intros Hb HE. assert (HE' : forall d, at_files F d -> E d) by (intros d Hd; by apply HE, Hd).
  eapply spec_bind; [eapply spec_post; [apply spec_readFileSync|intros ? ? Hq; exact Hq|exact HE']|intros c]. apply spec_pure. intros Hc. rewrite Hb in Hc. injection Hc as <-.
  apply spec_pure_from; [exact HE|]. intros [[ms n] lab] Hf. unfold sha256File. eapply spec_bind.
  - eapply spec_bind; [eapply spec_post; [apply spec_readFileSync|intros ? ? Hq; exact Hq|exact HE']|]. intros c. apply spec_pure. intros Hc.
    apply (spec_ret _ _ (fun h d => h = sha256Hex b /\ at_files F d)). intros d Hd. split; [congruence|done].
  - intros h. apply spec_pure. intros ->. apply spec_ret. intros d Hd. by split_and!.
Qed.

(** The copy is made from what the source then holds. *)
Definition copied (db target : jstr) F (s y : list N) : list (jstr * list N) := map_set target y (map_set db s F).

Lemma spec_run_backup io db target F : db <> target -> map_get db F <> None ->
  spec (at_files F) (run_backup io db target) (fun _ d => exists s, at_files (copied db target F s (sq_backup s)) d) (fun d => exists s y, left_as (copied db target F s y) d).
Proof.
  intros Hne Hs. destruct (map_get db F) as [s0|] eqn:Es; [|done].
  eapply spec_bind; [apply (spec_changes _ _ (fun _ => at_files (map_set db (live io s0) F)))|intros []].
  { intros d [<- _]. rewrite Es. done. }
  eapply spec_bind; [apply (spec_looks _ _ (fun c d => c = Some (live io s0) /\ at_files (map_set db (live io s0) F) d))|].
  { intros d [Hd _]. rewrite Hd, map_get_set_eq. done. }
  intros c. apply spec_pure. intros ->. cbn [from_option]. unfold id.
  eapply spec_bind; [eapply spec_post; [apply spec_write|intros ? ? Hq; exact Hq|]|intros []].
  { intros d (y & Hd). by exists (live io s0), y. }
  destruct (pages_finite io); [apply spec_ret|apply spec_throws].
  - intros d Hd. by exists (live io s0).
  - intros d [Hd _]. by exists (live io s0), (sq_backup (live io s0)).
Qed.

(** The files but the source are those of [F], as far as [F] had them, and a
    file that is new at [target] is a verified copy. *)
Definition found_kept (db : jstr) F (d : Disk) : Prop := forall p b, p <> db -> map_get p F = Some b -> map_get p (files d) = Some b.
Definition copies_verified (db : jstr) F (d : Disk) : Prop :=
  forall p b, map_get p F = None -> map_get p (files d) = Some b -> (exists m, describes m b) \/ ends_with (js ".manifest.json") p = true.
Definition backed_up (db : jstr) F (r : CreateBackupResult) (d : Disk) : Prop :=
  map_get (sqlitePath r) F = None /\ map_get (manifestPath r) F = None /\ sqlitePath r <> manifestPath r /\
  (exists s, map_get db (files d) = Some s /\ map_get (sqlitePath r) (files d) = Some (sq_backup s) /\ describes (manifest r) (sq_backup s)) /\
  map_get (manifestPath r) (files d) = Some (utf8_encode (pretty_text 0 (manifest_value (manifest r)) ++ [10%N])) /\
  forall p, p <> db -> p <> sqlitePath r -> p <> manifestPath r -> map_get p (files d) = map_get p F.
Lemma name_of_label (l : option jstr) s : (match l with Some ((_ :: _) as l) => sanitizeLabel l | _ => Ok (js "backup") end) = Ok s -> name_text s.
Proof. destruct l as [[|c l]|]; [|by apply name_label|]; intros [= <-]; by repeat constructor. Qed.

(** A file of the tool lies in its directory under its name. *)
Lemma within_directory dir name path : plain name -> resolveWithinDirectory (resolve dir) name = Ok path ->
  exists l, Forall plain l /\ resolve dir = absolute l /\ path = absolute (l ++ [name]).
Proof.
  intros Hn. unfold resolveWithinDirectory. cbv zeta. rewrite throw_if_bind_Ok. intros [_ [= <-]].
  destruct (resolve_plain dir) as (l & Hl & E). exists l. split_and!; [done|done|]. rewrite E, resolve_absolute by done. by apply resolve_in.
Qed.
Lemma ends_with_app s a : ends_with s (a ++ s) = true.
Proof. unfold ends_with. rewrite reverse_app. induction (reverse s) as [|c l IH]; cbn; [done|]. by rewrite N.eqb_refl. Qed.

(** The two files of a backup. *)
Lemma two_names dir stamp name target mt : name_text stamp -> name_text name ->
  resolveWithinDirectory (resolve dir) (base_name stamp name +:+ ".sqlite") = Ok target ->
  resolveWithinDirectory (resolve dir) (base_name stamp name +:+ ".manifest.json") = Ok mt ->
  exists l, Forall plain l /\ target = absolute (l ++ [base_name stamp name +:+ ".sqlite"]) /\ mt = absolute (l ++ [base_name stamp name +:+ ".manifest.json"]).
Proof.
  intros Hs Hn Ht Hm. assert (Hp : forall t, name_text t -> plain (base_name stamp name ++ t)) by (intros; by apply plain_name).
  apply within_directory in Ht as (l & Hpl & El & ->); [|apply Hp; by repeat constructor].
  apply within_directory in Hm as (k & Hpk & Ek & ->); [|apply Hp; by repeat constructor].
  exists l. split_and!; [done|done|]. f_equal. f_equal. apply absolute_inj; [done|done|congruence].
Qed.
Lemma two_names_apart stamp name l : name_text stamp -> name_text name -> Forall plain l ->
  absolute (l ++ [base_name stamp name +:+ ".sqlite"]) <> absolute (l ++ [base_name stamp name +:+ ".manifest.json"]) /\
  ends_with (js ".manifest.json") (absolute (l ++ [base_name stamp name +:+ ".manifest.json"])) = true.
Proof.
  intros Hs Hn Hl. assert (Hp : forall t, name_text t -> plain (base_name stamp name ++ t)) by (intros; by apply plain_name). split.
  - intros E%absolute_inj; [|apply Forall_app; split; [done|]; constructor; [|done]; apply Hp; by repeat constructor..].
    apply app_inj_tail in E as [_ E%app_inv_head]. done.
  - destruct (absolute_last l) as [a E]. rewrite E, app_assoc. apply ends_with_app.
Qed.

(** ** The whole backup *)

Lemma map_set_comm (k t : jstr) (v y : list N) F : k <> t -> map_get k F <> None -> map_set k v (map_set t y F) = map_set t y (map_set k v F).
Proof.
  intros Hne. induction F as [|[k' v'] F IH]; cbn [map_get map_set]; [done|]. case_bool_decide as E; [subst k'|].
  - intros _. rewrite (bool_decide_false (t = k)) by congruence. cbn [map_set]. rewrite bool_decide_true by done. by rewrite (bool_decide_false (t = k)) by congruence.
  - intros Hk. case_bool_decide as E'; cbn [map_set]; rewrite (bool_decide_false (k = k')) by done; [by rewrite bool_decide_true by done|].
    by rewrite (bool_decide_false (t = k')), IH by done.
Qed.

Section whole.
Variables (db : jstr) (F : list (jstr * list N)).
Hypothesis there : map_get db F <> None.

(** What a failed backup leaves. *)
Definition kept (d : Disk) : Prop := found_kept db F d /\ copies_verified db F d.

Lemma kept_source s d : left_as (map_set db s F) d -> kept d.
Proof.
  intros Hd. split.
  - intros p b Hp Hb. by rewrite Hd, map_get_set_ne.
  - intros p b Hp. rewrite Hd, map_get_set_ne by congruence. congruence.
Qed.
Lemma kept_copy target s m b d : target <> db -> map_get target F = None -> describes m b -> left_as (map_set target b (map_set db s F)) d -> kept d.
Proof.
  intros Hne Hn Hm Hd. split.
  - intros p c Hp Hc. by rewrite Hd, !map_get_set_ne by congruence.
  - intros p c Hp. rewrite Hd, map_get_set. case_bool_decide; [intros [= <-]; left; by exists m|]. rewrite map_get_set_ne by congruence. congruence.
Qed.
Lemma kept_manifest mt target s m b x d : target <> db -> map_get target F = None -> describes m b -> ends_with (js ".manifest.json") mt = true -> map_get mt F = None ->
  files d = map_set mt x (map_set target b (map_set db s F)) -> kept d.
Proof.
  intros Hne Hn Hm He Hmt Hd. split.
  - intros p c Hp Hc. by rewrite Hd, !map_get_set_ne by congruence.
  - intros p c Hp. rewrite Hd, map_get_set. case_bool_decide; [subst p; by right|].
    rewrite map_get_set. case_bool_decide; [intros [= <-]; left; by exists m|]. rewrite map_get_set_ne by congruence. congruence.
Qed.

(** From the claim of the copy to its description; [E] tells what is wanted of a
    failure. *)
Variable E : Disk -> Prop.
Hypothesis kept_E : forall d, kept d -> E d.

Lemma spec_copy io name target iso s : fault io RemoveCopy = None \/ (forall d, E d) ->
  spec (at_files (map_set db s F))
    (claimNewFile io ClaimCopy target ≫= fun _ => undoing (run_backup io db target ≫= fun _ => describe io db name target iso) (remove_if_there io RemoveCopy target))
    (fun m d => exists s, (target <> db /\ map_get target F = None /\ describes m (sq_backup s) /\ labelled db name iso m) /\ at_files (map_set target (sq_backup s) (map_set db s F)) d)
    E.
Proof.
  intros Hf. eapply spec_bind; [eapply spec_post; [apply spec_claim|intros ? ? Hq; exact Hq|]|intros []].
  { intros d [Hd _]. by apply kept_E, (kept_source s). }
  apply spec_pure. intros Hn.
  assert (Hne : target <> db) by (intros ->; by rewrite map_get_set_eq in Hn). rewrite map_get_set_ne in Hn by done.
  assert (Hdb : map_get db (map_set db s F) <> None) by by rewrite map_get_set_eq.
  assert (Hc : forall s' y, copied db target (map_set target [] (map_set db s F)) s' y = map_set target y (map_set db s' F)).
  { intros s' y. unfold copied. rewrite (map_set_comm db target) by (done || congruence). by rewrite !map_set_set. }
  eapply spec_undoing with (E' := fun d => exists s' y, left_as (map_set target y (map_set db s' F)) d).
  - eapply spec_bind; [eapply spec_post; [apply spec_run_backup; [congruence|rewrite map_get_set_ne by congruence; exact Hdb]|intros ? ? Hq; exact Hq|]|intros []].
    { intros d (s' & y & Hd). rewrite Hc in Hd. by exists s', y. }
    intros d (s' & Hd). rewrite Hc in Hd.
    refine (spec_post _ _ _ _ _ _ (spec_describe io db name target iso (sq_backup s') _ _ (map_get_set_eq _ _ _) (fun d Hd => _)) _ (fun d Hd => Hd) d Hd).
    + by exists s', (sq_backup s').
    + intros m d' [[Hm Hl] Hd']. by exists s'.
  - intros d (s' & y & Hd). destruct Hf as [Hf|Hf]; [|by destruct (remove_if_there _ _ _ _) as [[e|[]] d']; apply Hf].
    pose proof (spec_remove io RemoveCopy target (map_set db s' F) y Hf) as Hr.
    rewrite map_get_set_ne in Hr by done. specialize (Hr Hn d Hd). destruct (remove_if_there _ _ _ _) as [[e|[]] d']; by apply kept_E, (kept_source s').
Qed.
End whole.

(** The two paths of a backup, and the texts of its manifest. *)
Definition named (o : CreateBackupOptions) (r : CreateBackupResult) : Prop :=
  exists l stamp name iso, Forall plain l /\ name_text stamp /\ name_text name /\ name_text iso /\
    sqlitePath r = absolute (l ++ [base_name stamp name +:+ ".sqlite"]) /\ manifestPath r = absolute (l ++ [base_name stamp name +:+ ".manifest.json"]) /\
    labelled (resolve [dbPath o]) (base_name stamp name +:+ ".sqlite") iso (manifest r).

Lemma spec_createBackup o io F (E : Disk -> Prop) : (forall d, kept (resolve [dbPath o]) F d -> E d) -> fault io RemoveCopy = None \/ (forall d, E d) ->
  spec (left_as F) (createBackup o io) (fun r d => backed_up (resolve [dbPath o]) F r d /\ named o r) E.
Proof.
  set (db := resolve [dbPath o]). intros HkE Hf.
  assert (HE : forall d, at_files F d -> E d).
  { intros e [He _]. apply HkE. split; [intros p b _; by rewrite He|]. intros p b Hp. rewrite He. congruence. }
  eapply spec_pre with (P' := at_files F); [by intros|]. unfold createBackup. cbv zeta. fold db.
  eapply spec_bind; [by apply (spec_looks _ _ (fun _ => at_files F))|intros []; [|by apply spec_throws]]. cbn [negb].
  eapply spec_bind; [by apply (spec_may_fail io MakeOutput _ (fun _ => at_files F))|intros []].
  eapply spec_bind; [eapply spec_post; [apply spec_mkdirSync|intros ? ? Hq; exact Hq|exact HE]|intros []].
  apply spec_pure_from; [by intros; apply HE|]. intros iso Hiso0%name_iso. pose proof (name_stamp _ Hiso0) as Hiso.
  apply spec_pure_from; [by intros; apply HE|]. intros name Hname%name_of_label.
  apply spec_pure_from; [by intros; apply HE|]. intros target Ht. apply spec_pure_from; [by intros; apply HE|]. intros mt Hmt.
  destruct (two_names _ _ _ _ _ Hiso Hname Ht Hmt) as (l & Hl & Et & Em). clear Ht Hmt.
  destruct (two_names_apart _ _ l Hiso Hname Hl) as [Hne Hends]. rewrite <- Et, <- Em in Hne. rewrite <- Em in Hends.
  eapply spec_bind; [eapply spec_post; [apply spec_open_and_close|intros ? ? Hq; exact Hq|exact HE]|intros []].
  intros e (s & there & He). revert e He. refine (_ : spec (at_files (map_set db s F)) _ _ _).
  assert (Hk : forall s d, left_as (map_set db s F) d -> E d) by (intros s0 d Hd; exact (HkE d (kept_source db F there s0 d Hd))).
  eapply spec_bind; [apply (spec_may_fail io OpenSource _ (fun _ => at_files (map_set db s F))); [intros ? [He _]; exact (Hk _ _ He)|by intros]|intros []].
  apply spec_assoc. eapply spec_bind; [by apply (spec_copy db F there E HkE)|intros m].
  intros e (s' & Hc & He). revert e He. refine (_ : spec (at_files (map_set target (sq_backup s') (map_set db s' F))) _ _ _).
  destruct Hc as (Hdb & Hn & Hm & Hlab). set (G := map_set target _ _) in *.
  eapply spec_bind; [eapply spec_post; [apply spec_claim|intros ? ? Hq; exact Hq|]|intros []].
  { intros e [He _]. apply HkE. eapply (kept_copy db F); [exact there|exact Hdb|exact Hn|exact Hm|exact He]. }
  apply spec_pure. intros Hg. assert (mt <> db) as Hmdb.
  { intros ->. subst G. by rewrite map_get_set_ne, map_get_set_eq in Hg by congruence. }
  assert (map_get mt F = None) as Hmn by (subst G; by rewrite !map_get_set_ne in Hg by congruence).
  eapply spec_bind; [eapply spec_post; [apply spec_write|intros ? ? Hq; exact Hq|]|intros []].
  { intros e (x & He). rewrite map_set_set in He. apply HkE. eapply (kept_manifest db F); [exact there|exact Hdb|exact Hn|exact Hm|exact Hends|exact Hmn|exact He]. }
  apply spec_ret. intros e [He _]. rewrite map_set_set in He. split; [|exists l, (file_stamp iso), name, iso; exact (conj Hl (conj Hiso (conj Hname (conj Hiso0 (conj Et (conj Em Hlab))))))].
  unfold backed_up. cbn [sqlitePath manifestPath manifest].
  split_and!; [done|done|done| | |].
  - exists s'. rewrite He. subst G. rewrite (map_get_set_ne target mt), (map_get_set_ne db mt), (map_get_set_ne db target), !map_get_set_eq by congruence. done.
  - by rewrite He, map_get_set_eq.
  - intros p Hp1 Hp2 Hp3. rewrite He. subst G. by rewrite !map_get_set_ne by congruence.
Qed.

(** C28: A backup overwrites nothing, as long as its own removal of a failed copy does
    not fail: whether it returns or throws, every file it found, but the source,
    which the store opens and others may write to, holds what it held.  When it
    returns, two files are new, at paths that held nothing: the copy, which is
    SQLite's backup of the source as it stood, and the manifest, which tells the
    length and the SHA-256 of the copy and the migrations, row counts and snapshot
    found in the copy itself.  When it throws, a new file is a manifest or a copy
    that passed every check. *)
Theorem backup_never_overwrites o io d :
  fault io RemoveCopy = None ->
  match createBackup o io d with
  | (inr r, d') => backed_up (resolve [dbPath o]) (files d) r d'
  | (inl _, d') => kept (resolve [dbPath o]) (files d) d'
  end.
Proof.
  intros Hf. pose proof (spec_createBackup o io (files d) (kept (resolve [dbPath o]) (files d)) (fun _ Hd => Hd) (or_introl Hf) d eq_refl) as Hs.
  destruct (createBackup o io d) as [[e|r] d']; [done|apply Hs].
Qed.
End backup.

(** ** Restores *)

Section restore.
Context `{Host, Sqlite, SqliteFiles, EngineJson, Process}.
Implicit Types F : list (jstr * list N).

(** What the manifest at a path says. *)
Definition manifest_read F (path : jstr) (m : jsval) : Prop :=
  exists text, map_get path F = Some text /\ json_parse (utf8_decode text) = Ok m /\ manifest_shape m = true.

(** The bytes are those the manifest describes. *)
Definition bytes_match (m : jsval) (b : list N) : Prop :=
  member (js "sqliteFileBytes") m = number_of (length b) /\ member (js "sqliteFileSha256") m = JStr (sha256Hex b).

(** The bytes are a database of this application, whose rows can be read, and
    the engine of its snapshot, where the manifest names one, can be restored. *)
Definition lab_named (m : jsval) : bool :=
  truthy (member (js "present") (member (js "labSnapshot") m)) && truthy (member (js "id") (member (js "labSnapshot") m)).
Record verified (m : jsval) (b : list N) : Prop := {
  v_integrity : sq_integrity b = Ok (js "ok");
  v_schema : exists l, readAppliedMigrations b = Ok l /\ hasKnownSchema l = true;
  v_answers : exists rows, sq_idempotency b = Ok rows /\ Forall (fun r => unparsable (id_response_json r) = false) rows;
  v_outbox : exists rows, sq_outbox b = Ok rows /\ Forall (fun r => unparsable (ob_payload_json r) = false /\ delivered_early r = false) rows;
  v_state : lab_named m = true -> exists r e, sq_challenge b (member (js "id") (member (js "labSnapshot") m)) = Ok (Some r) /\ deep_restore (ch_record_json r) = Ok e;
}.

Lemma spec_record n det F : spec (held F) (record n true det) (fun _ => held F) (left_as F).
Proof. intros d [Hd Hc]. split; [done|]. apply Forall_app; split; [done|]. by constructor. Qed.
Lemma spec_demand n b det msg F : spec (held F) (demand n b det msg) (fun _ d => b = true /\ held F d) (left_as F).
Proof.
  intros d [Hd Hc]. destruct b; [|exact Hd]. split; [done|]. split; [exact Hd|]. cbn. apply Forall_app; split; [done|]. by constructor.
Qed.
Lemma spec_readManifest io path F : spec (held F) (readManifest io path) (fun m d => manifest_read F path m /\ held F d) (held F).
Proof.
  eapply spec_bind; [by apply (spec_looks _ _ (fun _ d => held F d))|]. intros []; [|by apply spec_throws]. cbn [negb].
  eapply spec_bind; [apply spec_catching with (E' := held F) (Q := fun m d => (exists text, map_get path F = Some text /\ json_parse (utf8_decode text) = Ok m) /\ held F d)|].
  - eapply spec_bind; [apply spec_readFileSync|]. intros b. apply spec_pure. intros Hb. apply spec_from; [done|]. eauto.
  - intros e. by apply spec_throws.
  - intros m. apply spec_pure. intros (text & Ht & Hm). destruct m.
    all: try (by apply spec_throws).
    all: match goal with |- spec _ (if ?b then _ else _) _ _ => destruct b eqn:Hs; [|by apply spec_throws] end.
    all: apply spec_ret; intros d Hd; split; [by exists text|done].
Qed.

Lemma spec_rejects_held {A : Type} message F (Q : A -> Disk -> Prop) : spec (held F) (rejects message) Q (left_as F).
Proof. apply spec_rejects. apply (held_left _). Qed.
Lemma spec_record_rejects {A : Type} n det message F (Q : A -> Disk -> Prop) b : spec (held F) (record n b det ≫= fun _ => rejects message) Q (left_as F).
Proof. by intros d [Hd _]. Qed.

Lemma spec_checkManifest io path F : spec (held F) (checkManifest io path) (fun m d => manifest_read F path m /\ held F d) (left_as F).
Proof.
  eapply spec_catching with (E' := held F).
  - eapply spec_bind; [apply spec_readManifest|]. intros m. apply spec_pure. intros Hm.
    intros d [Hd Hc]. split; [done|]. split; [exact Hd|]. cbn. apply Forall_app; split; [done|]. by constructor.
  - intros e. apply spec_record_rejects.
Qed.

Lemma number_is_of v n : number_is v n = true -> v = number_of n.
Proof. by destruct v as [| | |[z| | |]| | |]; [..| |]; try done; intros ->%Z.eqb_eq. Qed.
Lemma is_text_of v s : is_text v s = true -> v = JStr s.
Proof. destruct v; try done. by intros ->%jeqb_true. Qed.

Lemma spec_checkBytes io path m F :
  spec (held F) (checkBytes io path m) (fun _ d => (exists b, map_get path F = Some b /\ bytes_match m b) /\ held F d) (left_as F).
Proof.
  eapply spec_bind; [apply (spec_looks _ _ (fun c d => c = default [] (map_get path F) /\ held F d)); by intros d [<- Hc]|].
  intros c. apply spec_pure. intros Hc. eapply spec_bind; [apply spec_demand|intros []]. apply spec_pure. intros Hn%number_is_of.
  unfold sha256File. eapply spec_bind.
  - eapply spec_bind; [eapply spec_post; [apply spec_readFileSync|intros ? ? Hq; exact Hq|apply (held_left _)]|].
    intros b. apply spec_pure. intros Hb. apply (spec_ret _ _ (fun h d => (map_get path F = Some c /\ h = sha256Hex c) /\ held F d)).
    intros d Hd. rewrite Hb in Hc. cbn in Hc. by subst.
  - intros h. apply spec_pure. intros [Hb ->]. eapply spec_post; [apply spec_demand| |done].
    intros _ d [Ht%is_text_of Hd]. split; [by exists c|done].
Qed.

Definition target_of (options : RestoreOptions) (io : Draw) (t : jstr * option jstr) : Prop :=
  if verifyOnly options then t = (in_directory (temporary io) "restored.sqlite", Some (temporary io))
  else exists dest, destPath options = Some dest /\ t = (resolve [dest], None).
Lemma spec_restoreTarget options io F : spec (held F) (restoreTarget options io) (fun t d => target_of options io t /\ held F d) (left_as F).
Proof.
  unfold restoreTarget, target_of. destruct (verifyOnly options).
  - eapply spec_bind; [by apply (spec_may_fail io MakeTemporary _ (fun _ => held F)); [apply (held_left _)|]|intros []].
    eapply spec_bind; [by apply (spec_changes _ _ (fun _ => held F))|]. intros u. by apply spec_ret.
  - destruct (destPath options) as [[|c dest]|]; [apply spec_rejects_held| |apply spec_rejects_held].
    eapply spec_bind; [by apply (spec_looks _ _ (fun _ => held F))|]. intros []; [apply spec_rejects_held|].
    apply spec_ret. intros d Hd. split; [|done]. by exists (c :: dest).
Qed.

(** ** The checks of the copy *)

Lemma count_none {A : Type} (p : A -> bool) l : count_where p l = O <-> Forall (fun x => p x = false) l.
Proof.
  unfold count_where. induction l as [|x l IH]; cbn; [by split|]. destruct (p x) eqn:E; cbn; [split; [done|]|].
  - inversion 1; congruence.
  - rewrite Forall_cons, IH. tauto.
Qed.

Lemma spec_verifySchema b F : spec (held F) (verifySchema b) (fun _ d => (exists l, readAppliedMigrations b = Ok l /\ hasKnownSchema l = true) /\ held F d) (left_as F).
Proof.
  unfold verifySchema. destruct (readAppliedMigrations b) as [l|e]; (eapply spec_post; [apply spec_demand| |done]); intros _ d [E Hd]; [|done].
  split; [by exists l|done].
Qed.
Lemma spec_verifyIdempotency b F :
  spec (held F) (verifyIdempotency b) (fun _ d => (exists rows, sq_idempotency b = Ok rows /\ Forall (fun r => unparsable (id_response_json r) = false) rows) /\ held F d) (left_as F).
Proof.
  apply spec_pure_from; [done|]. intros rows Hr. eapply spec_post; [apply spec_demand| |done]. intros _ d [E%Nat.eqb_eq%count_none Hd].
  split; [by exists rows|done].
Qed.
Lemma outboxIssues_none rows : outboxIssues rows = O <-> Forall (fun r => unparsable (ob_payload_json r) = false /\ delivered_early r = false) rows.
Proof. unfold outboxIssues. rewrite Nat.eq_add_0, !count_none. symmetry. apply Forall_and. Qed.
Lemma spec_verifyOutbox b F :
  spec (held F) (verifyOutbox b) (fun _ d => (exists rows, sq_outbox b = Ok rows /\ Forall (fun r => unparsable (ob_payload_json r) = false /\ delivered_early r = false) rows) /\ held F d) (left_as F).
Proof.
  apply spec_pure_from; [done|]. intros rows Hr. eapply spec_post; [apply spec_demand| |done]. intros _ d [E%Nat.eqb_eq%outboxIssues_none Hd].
  split; [by exists rows|done].
Qed.
Lemma spec_verifyState b m F :
  spec (held F) (verifyState b m) (fun _ d => (lab_named m = true -> exists r e, sq_challenge b (member (js "id") (member (js "labSnapshot") m)) = Ok (Some r) /\
    deep_restore (ch_record_json r) = Ok e) /\ held F d) (left_as F).
Proof.
  unfold verifyState, lab_named. cbv zeta. destruct (_ && _); [|eapply spec_bind; [apply spec_record|]; intros u; by apply spec_ret].
  apply spec_pure_from; [done|]. intros row Hr. eapply spec_bind; [apply spec_demand|intros []]. apply spec_pure. intros [r ->]%bool_decide_eq_true. cbn [fmap option_fmap option_map from_option].
  unfold id. destruct (deep_restore _) as [e|e] eqn:Ee; [|apply spec_record_rejects].
  eapply spec_bind; [apply spec_record|]. intros u. apply spec_ret. intros d Hd. split; [|done]. eauto.
Qed.
Lemma spec_verifyCopy io path m F :
  spec (held F) (verifyCopy io path m) (fun _ d => (exists b, map_get path F = Some b /\ verified m b) /\ held F d) (left_as F).
Proof.
  eapply spec_bind; [eapply spec_post; [apply spec_readFileSync|intros ? ? Hq; exact Hq|apply (held_left _)]|].
  intros b. apply spec_pure. intros Hb. eapply spec_bind with (R := fun _ d => sq_integrity b = Ok (js "ok") /\ held F d).
  { destruct (sq_integrity b) as [i|e]; [|apply spec_record_rejects]. eapply spec_post; [apply spec_demand| |done]. intros ? d [->%jeqb_true Hd]. done. }
  intros _. apply spec_pure. intros Hi. eapply spec_bind; [apply spec_verifySchema|intros []]. apply spec_pure. intros Hs.
  eapply spec_bind; [apply spec_verifyIdempotency|intros []]. apply spec_pure. intros Ha.
  eapply spec_bind; [apply spec_verifyOutbox|intros []]. apply spec_pure. intros Ho.
  eapply spec_post; [apply spec_verifyState| |done]. intros _ d [Hl Hd]. split; [|done]. by exists b.
Qed.

(** ** The whole restore *)

(** A successful restore: the report tells what was verified of the bytes. *)
Definition restored_of (options : RestoreOptions) (F : list (jstr * list N)) (r : RestoreReport) (b : list N) : Prop :=
  let backup := resolve [backupSqlitePath options] in
  map_get backup F = Some b /\ manifest_read F (resolve [default (default_manifest backup) (ro_manifestPath options)]) (rp_manifest r) /\
  bytes_match (rp_manifest r) b /\ verified (rp_manifest r) b /\ Forall (fun c => ok c = true) (rp_checks r).
(** What a successful restore leaves of the files [F]. *)
Definition restored_files (options : RestoreOptions) (F : list (jstr * list N)) (r : RestoreReport) (b : list N) (F' : list (jstr * list N)) : Prop :=
  if verifyOnly options then restoredPath r = None /\ F' = F
  else exists dest, destPath options = Some dest /\ restoredPath r = Some (resolve [dest]) /\ map_get (resolve [dest]) F = None /\ F' = F ++ [(resolve [dest], b)].

Lemma below_inside dir name : below dir (in_directory dir name) = true.
Proof.
  unfold below, in_directory. apply orb_true_iff. right. rewrite app_assoc. induction (dir ++ [47%N]) as [|c l IH]; cbn; [done|]. by rewrite N.eqb_refl.
Qed.
Lemma inside_removed dir F G : Forall (fun f => below dir f.1 = false) F -> Forall (fun f => below dir f.1 = true) G ->
  List.filter (fun f => negb (below dir f.1)) (F ++ G) = F.
Proof.
  intros HF HG. induction HF as [|f F Hf HF IH]; cbn; [|by rewrite Hf; cbn; rewrite IH].
  induction HG as [|g G Hg HG IH]; cbn; [done|by rewrite Hg].
Qed.
Lemma spec_removeTree io dir F G : fault io RemoveTemporary = None -> Forall (fun f => below dir f.1 = false) F -> Forall (fun f => below dir f.1 = true) G ->
  spec (left_as (F ++ G)) (removeTree io RemoveTemporary dir) (fun _ => left_as F) (left_as F).
Proof.
  intros Hf HF HG. unfold removeTree, may_fail. rewrite Hf. eapply spec_bind; [by apply (spec_ret _ _ (fun _ => left_as (F ++ G)))|intros []].
  apply spec_changes. intros d Hd. unfold left_as in *. cbn [files set_files set_directories]. rewrite Hd. by apply inside_removed.
Qed.

Lemma spec_restore_into options io backup path m b F : fault io RemoveTarget = None -> map_get backup F = Some b ->
  spec (held F) (restore_into options io backup path m)
    (fun r d => (map_get path F = None /\ rp_manifest r = m /\ restoredPath r = (if verifyOnly options then None else Some path) /\ verified m b /\ Forall (fun c => ok c = true) (rp_checks r)) /\
                left_as (F ++ [(path, b)]) d)
    (left_as F).
Proof.
  intros Hf Hb. eapply spec_bind; [eapply spec_post; [apply spec_claim|intros ? ? Hq; exact Hq|apply (held_left _)]|intros []].
  apply spec_pure. intros Hn. rewrite <- (map_set_fresh _ b) by done.
  eapply spec_undoing with (E' := fun d => exists x, files d = map_set path x F).
  - assert (Hleft : forall d, left_as (map_set path b F) d -> exists x, files d = map_set path x F) by (intros d Hd; by exists b).
    eapply spec_bind with (R := fun _ => held (map_set path b F)).
    { eapply spec_bind; [apply (spec_looks _ _ (fun c d => c = b /\ held (map_set path [] F) d))|].
      - intros d [Hd Hc]. rewrite Hd, map_get_set_ne, Hb; [done|congruence].
      - intros c. apply spec_pure. intros ->. eapply spec_post; [apply spec_write| |].
        + intros u d. by rewrite map_set_set.
        + intros d [x Hx]. exists x. by rewrite map_set_set in Hx. }
    intros []. eapply spec_post; [|intros ? ? Hq; exact Hq|exact Hleft].
    { eapply spec_bind; [apply spec_record|intros r]. eapply spec_bind; [apply spec_verifyCopy|intros u]. apply spec_pure. intros (b' & Hb' & Hv).
      rewrite map_get_set_eq in Hb'. injection Hb' as <-.
      eapply spec_bind; [apply (spec_looks _ _ (fun c d => Forall (fun c => ok c = true) c /\ held (map_set path b F) d)); by intros d [Hd Hc]|].
      intros c. apply spec_pure. intros Hc. apply spec_ret. intros d [Hd _].
      cbn. by split_and!. }
  - intros d (x & Hx). apply (spec_remove io RemoveTarget path F x Hf Hn d Hx).
Qed.

Lemma spec_restoreBackup options io F : fault io RemoveTarget = None -> fault io RemoveTemporary = None ->
  (verifyOnly options = true -> Forall (fun f => below (temporary io) f.1 = false) F) ->
  spec (left_as F) (restoreBackup options io) (fun r d' => exists b, restored_of options F r b /\ restored_files options F r b (files d')) (left_as F).
Proof.
  intros Ht Hr Hfresh.
  eapply spec_bind; [by apply (spec_changes _ _ (fun _ => held F)); intros ? <-|intros []]. cbv zeta.
  eapply spec_bind; [by apply (spec_looks _ _ (fun _ => held F))|intros there].
  eapply spec_bind; [apply spec_demand|intros []]. apply spec_pure. intros _.
  eapply spec_bind; [apply spec_checkManifest|intros m]. apply spec_pure. intros Hm.
  eapply spec_bind; [apply spec_checkBytes|intros []]. apply spec_pure. intros (b & Hb & Hmatch).
  eapply spec_bind; [apply spec_restoreTarget|intros [path w]]. apply spec_pure. intros Hpath.
  eapply spec_ending; [apply (spec_restore_into options io _ path m b F Ht Hb)| |]; unfold target_of in Hpath.
  - intros r. apply spec_pure. intros (Hn & Em & Ep & Hv & Hc).
    assert (restored_of options F r b) as Hof by (unfold restored_of; rewrite Em; by split_and!).
    unfold restored_files. destruct (verifyOnly options) in *.
    + injection Hpath as -> ->. eapply spec_post; [apply (spec_removeTree io (temporary io) F [(in_directory (temporary io) "restored.sqlite", b)] Hr)| |done].
      * by apply Hfresh.
      * constructor; [apply below_inside|done].
      * intros ? d' Hd'. by exists b.
    + destruct Hpath as (dest & Ed & [= -> ->]). apply spec_ret. intros d' Hd'. exists b. split; [done|]. exists dest. by rewrite Ep.
  - destruct (verifyOnly options) in *.
    + injection Hpath as -> ->. rewrite <- (app_nil_r F) at 1. apply spec_removeTree; [done|by apply Hfresh|done].
    + destruct Hpath as (dest & Ed & [= -> ->]). by apply spec_ret.
Qed.

(** C27: A restore verifies or leaves nothing, as long as its own removal of what it
    wrote does not fail and, in a drill, the temporary directory is new: when it
    throws, the files of the machine are those it found; when it returns, the
    report names a manifest whose length and SHA-256 the bytes of the backup have,
    these bytes pass SQLite's integrity check, hold this application's migrations,
    answers and events that can be read and an engine that can be restored where
    the manifest names one, every check recorded has passed, and the one new file
    is a copy of them at a path that held nothing, or no file at all in a drill. *)
Theorem restore_verified_or_nothing options io d :
  fault io RemoveTarget = None -> fault io RemoveTemporary = None ->
  (verifyOnly options = true -> Forall (fun f => below (temporary io) f.1 = false) (files d)) ->
  match restoreBackup options io d with
  | (inr r, d') => exists b, restored_of options (files d) r b /\ restored_files options (files d) r b (files d')
  | (inl _, d') => files d' = files d
  end.
Proof.
  intros Ht Hr Hfresh. pose proof (spec_restoreBackup options io (files d) Ht Hr Hfresh d eq_refl) as Hs.
  by destruct (restoreBackup options io d) as [[e|r] d'].
Qed.
End restore.
