(* ===== verification/BackupRoundTrip.v ===== *)
(** BackupRoundTrip: a backup restores: what createBackup wrote, left as it is,
    passes every check of restoreBackup. *)
From S2P Require Import Prelude JsString JsMap Host JsTime JsJson JsParse JsPretty LabRequest CredentialVerifier Engine DurableStore BackupFiles BackupPaths BackupLib BackupRuns.
#[local] Open Scope string_scope.
#[local] Open Scope list_scope.
#[local] Open Scope Z_scope.
#[local] Open Scope js_scope.

(** What SQLite documents of the online backup: the copy answers every query as
    the source does; and a row found by a text has that text. *)
Class SqliteFilesLaws `{Sqlite} (Q : SqliteFiles) := {
  backup_integrity b : sq_integrity b = Ok (js "ok") -> sq_integrity (sq_backup b) = Ok (js "ok");
  backup_migrations b : sq_migrations (sq_backup b) = sq_migrations b;
  backup_idempotency b : sq_idempotency (sq_backup b) = sq_idempotency b;
  backup_outbox b : sq_outbox (sq_backup b) = sq_outbox b;
  backup_challenge b v : sq_challenge (sq_backup b) v = sq_challenge b v;
  challenge_found b s r : good_text s -> sq_challenge b (JStr s) = Ok (Some r) -> column_text (ch_challenge_id r) = s;
}.

(** ** Calls that return *)

(** From [P] the call returns, and [P] holds again. *)
Definition returns {A} (P : Disk -> Prop) (m : Run A) : Prop := spec P m (fun _ => P) (fun _ => False).

(** The files and the directories, whatever has been recorded. *)
Definition on_disk (F : list (jstr * list N)) (D : list jstr) (d : Disk) : Prop := files d = F /\ directories d = D.

Section returns.
Variables (F : list (jstr * list N)) (D : list jstr).

Lemma returns_record n b det : spec (on_disk F D) (record n b det) (fun r d => r = b /\ on_disk F D d) (fun _ => False).
Proof. intros d [Hf Hd]. done. Qed.
Lemma returns_demand n b det msg : b = true -> returns (on_disk F D) (demand n b det msg).
Proof. intros ->. by intros d [Hf Hd]. Qed.
Lemma returns_exists path b : map_get path F = Some b -> spec (on_disk F D) (looks (existsSync path)) (fun r d => r = true /\ on_disk F D d) (fun _ => False).
Proof. intros Hb. apply spec_looks. intros d [Hf Hd]. split; [|done]. unfold existsSync, has_file, map_has. by rewrite Hf, Hb. Qed.

Section io.
Variable io : Draw.
Hypothesis sound_machine : forall s, fault io s = None.

Lemma returns_may_fail s P : returns P (may_fail io s).
Proof. unfold may_fail. rewrite sound_machine. by apply spec_ret. Qed.
Lemma returns_read s path b : map_get path F = Some b -> spec (on_disk F D) (readFileSync io s path) (fun r d => r = b /\ on_disk F D d) (fun _ => False).
Proof.
  intros Hb. eapply spec_bind; [apply returns_may_fail|intros []].
  eapply spec_bind; [apply (spec_looks _ _ (fun r d => r = Some b /\ on_disk F D d)); intros d [Hf Hd]; by rewrite Hf|].
  intros r. apply spec_pure. intros ->. by apply spec_ret.
Qed.
Lemma returns_write s path b : spec (on_disk F D) (write_as io s path b) (fun _ => on_disk (map_set path b F) D) (fun _ => False).
Proof. unfold write_as. rewrite sound_machine. apply spec_changes. by intros d [<- <-]. Qed.
End io.
End returns.

(** ** Paths and texts of a backup *)

Lemma default_manifest_of a b : default_manifest (a ++ b +:+ ".sqlite") = a ++ b +:+ ".manifest.json".
Proof.
  unfold default_manifest. rewrite app_assoc, ends_with_app. rewrite !length_app, Nat.add_sub, <- length_app, take_app_length. by rewrite app_assoc.
Qed.

Section trip.
Context `{HostLaws} `{Sqlite} {Q : SqliteFiles} `{!SqliteFilesLaws Q} `{EngineJson, Process}.

Lemma name_resolves l stamp name suffix : Forall plain l -> name_text stamp -> name_text name -> name_text suffix ->
  resolve [absolute (l ++ [base_name stamp name ++ suffix])] = absolute (l ++ [base_name stamp name ++ suffix]).
Proof. intros Hl Hs Hn Ht. apply resolve_absolute. apply Forall_app; split; [done|]. constructor; [by apply plain_name|done]. Qed.
Lemma manifest_beside l stamp name :
  default_manifest (absolute (l ++ [base_name stamp name +:+ ".sqlite"])) = absolute (l ++ [base_name stamp name +:+ ".manifest.json"]).
Proof. destruct (absolute_last l) as [a E]. rewrite !E. apply default_manifest_of. Qed.

(** The source is a store of this version of the program, whose texts can be read. *)
Record sound (b : list N) : Prop := {
  so_integrity : sq_integrity b = Ok (js "ok");
  so_migrations : readAppliedMigrations b = Ok DurableStore.MIGRATIONS;
  so_answers : exists rows, sq_idempotency b = Ok rows /\ Forall (fun r => unparsable (id_response_json r) = false) rows;
  so_outbox : exists rows, sq_outbox b = Ok rows /\ Forall (fun r => unparsable (ob_payload_json r) = false /\ delivered_early r = false) rows;
  so_state : forall r, sq_challenge b (JStr LAB_ROW) = Ok (Some r) -> good_text (column_text (ch_status r)) /\ exists e, deep_restore (ch_record_json r) = Ok e;
}.

Lemma sound_backup b : sound b -> sound (sq_backup b).
Proof.
  intros [Hi Hm Ha Ho Hs]. split.
  - by apply backup_integrity.
  - unfold readAppliedMigrations. by rewrite backup_migrations.
  - by rewrite backup_idempotency.
  - by rewrite backup_outbox.
  - intros r. rewrite backup_challenge. apply Hs.
Qed.

(** What the manifest says of a sound copy. *)
Lemma described_parts m b : sound b -> describes m b ->
  appMigrations m = DurableStore.MIGRATIONS /\
  match labSnapshot m with
  | None => True
  | Some i => ls_id i = LAB_ROW /\ safe_int (ls_version i) = true /\ good_text (ls_status i) /\
      exists r e, sq_challenge b (JStr LAB_ROW) = Ok (Some r) /\ deep_restore (ch_record_json r) = Ok e
  end.
Proof.
  intros Hb (_ & _ & Hread). unfold read_copy in Hread. revert Hread. rewrite result_bind_Ok. intros (i & _ & Hr). revert Hr.
  rewrite throw_if_bind_Ok. intros [_ Hr]. revert Hr. rewrite result_bind_Ok. intros (ms & Hms & Hr). rewrite (so_migrations b Hb) in Hms. injection Hms as <-. revert Hr.
  do 3 (rewrite result_bind_Ok; intros (? & _ & Hr); revert Hr). rewrite result_bind_Ok. intros (lab & Hlab & [= <- _ <-]). split; [done|].
  destruct lab as [i'|]; [|done]. revert Hlab. unfold readLabSnapshotInfo. rewrite result_bind_Ok. intros ([r|] & Hrow & Hr); [|done]. revert Hr.
  rewrite result_bind_Ok. intros (v & Hv & [= <-]). cbn [ls_id ls_version ls_status]. destruct (so_state b Hb r Hrow) as (Hst & e & He).
  split_and!; [| |done|by exists r, e].
  - apply (challenge_found b _ r); [|done]. apply good_text_small. by repeat constructor.
  - unfold column_int in Hv. destruct (safe_int (ch_version r)) eqn:Es; [|done]. by injection Hv as <-.
Qed.

(** The manifest's own texts are well formed and its numbers are those a double
    holds exactly. *)
Record writable (m : BackupManifest) : Prop := {
  wr_label : good_text (sourceLabel m);
  wr_node : good_text (mf_node m);
  wr_platform : good_text (mf_platform m);
  wr_bytes : Z.of_nat (sqliteFileBytes m) <= 2 ^ 53;
  wr_counts : Forall (fun n => Z.of_nat n <= 2 ^ 53) [n_challenges (tableRowCounts m); n_idempotency (tableRowCounts m); n_outbox (tableRowCounts m)];
}.

Lemma number_clean n : Z.of_nat n <= 2 ^ 53 -> json_clean (number_of n).
Proof. intros Hn. cbn. rewrite Z.abs_eq by lia. exact Hn. Qed.
Lemma fields_clean l : bool_decide (NoDup l.*1) = true -> Forall (fun p => bool_decide (Forall (fun c => (c < 55296)%N) p.1) = true /\ json_clean p.2) l -> json_clean (JObj l).
Proof.
  intros Hd%bool_decide_eq_true Hl. apply json_clean_obj. split; [done|]. apply (Forall_impl _ _ _ Hl). intros p [Hk%bool_decide_eq_true Hv]. split; [by apply good_text_small|done].
Qed.
Lemma constant_clean s : bool_decide (Forall (fun c => (c < 55296)%N) s) = true -> json_clean (JStr s).
Proof. intros Hs%bool_decide_eq_true. by apply good_text_small. Qed.
Ltac fields := apply fields_clean; [vm_compute; reflexivity|]; repeat (apply Forall_cons; split; [split; [vm_compute; reflexivity|cbn [snd]]|]); [..|apply Forall_nil; exact I].

Lemma snapshot_clean s : match s with None => True | Some i => good_text (ls_id i) /\ safe_int (ls_version i) = true /\ good_text (ls_status i) end -> json_clean (snapshot_value s).
Proof.
  destruct s as [i|]; cbn [snapshot_value]; [|intros _; fields; done]. intros (Hi & Hv%Z.leb_le & Hs). fields; try done.
  cbn. unfold MAX_SAFE_INTEGER in Hv. lia.
Qed.
Lemma counts_clean c : Forall (fun n => Z.of_nat n <= 2 ^ 53) [n_challenges c; n_idempotency c; n_outbox c] -> json_clean (counts_value c).
Proof. rewrite !Forall_cons. intros (Hc & Hi & Ho & _). unfold counts_value. fields; by apply number_clean. Qed.
Lemma hex_name s n : hex_of_length n s = true -> name_text s.
Proof.
  intros [_ Hs]%andb_true_iff. eapply name_class; [|exact Hs]. intros c [Hd|Hr]%orb_true_iff; [by apply digit_name|].
  unfold in_range in Hr. apply andb_true_iff in Hr as [Ha%N.leb_le Hb%N.leb_le]. unfold name_char. rewrite (proj2 (N.ltb_lt c 128)), (proj2 (N.eqb_neq c 47)); [done|lia..].
Qed.

Lemma manifest_clean m b l stamp name iso db : sound b -> describes m b -> writable m ->
  name_text stamp -> name_text name -> name_text iso -> labelled db (base_name stamp name +:+ ".sqlite") iso m -> Forall plain l -> json_clean (manifest_value m).
Proof.
  intros Hb Hm [Hw1 Hw2 Hw3 Hw4 Hw5] Hst Hna Hiso (E1 & _ & E3 & _) _. destruct (described_parts m b Hb Hm) as [Ems Hlab]. destruct Hm as (_ & Eh & _).
  unfold manifest_value. fields.
  - by apply constant_clean; vm_compute.
  - by apply constant_clean; vm_compute.
  - rewrite E1. by apply name_good.
  - exact Hw1.
  - rewrite E3. apply name_good. by apply base_text; [..|by repeat constructor].
  - by apply number_clean.
  - rewrite Eh. eapply name_good, hex_name, sha256Hex_pattern.
  - rewrite Ems. cbn [map DurableStore.MIGRATIONS]. apply json_clean_arr. constructor; [|done]. unfold migration_value. cbn [fst snd]. fields; [done|by apply constant_clean; vm_compute].
  - by apply counts_clean.
  - apply snapshot_clean. destruct (labSnapshot m) as [i|]; [|done]. destruct Hlab as (-> & Hv & Hs & _). split_and!; [|done|done].
    apply good_text_small. by repeat constructor.
  - by apply constant_clean; vm_compute.
  - fields; done.
  - fields; by apply constant_clean; vm_compute.
Qed.

(** The copy has what the manifest asks for. *)
Lemma sound_verified m b : sound b -> describes m b -> verified (manifest_value m) b.
Proof.
  intros Hb Hm. destruct (described_parts m b Hb Hm) as [_ Hlab]. destruct Hb as [Hi Hms Ha Ho _]. split; [done| |done|done|].
  - exists DurableStore.MIGRATIONS. split; [done|]. by vm_compute.
  - unfold lab_named. change (member (js "labSnapshot") (manifest_value m)) with (snapshot_value (labSnapshot m)).
    destruct (labSnapshot m) as [i|]; [|done]. intros _. destruct Hlab as (Ei & _ & _ & r & e & Hr & He). exists r, e.
    change (member (js "id") (snapshot_value (Some i))) with (JStr (ls_id i)). by rewrite Ei.
Qed.
Lemma described_bytes m b : describes m b -> bytes_match (manifest_value m) b.
Proof. intros (En & Eh & _). split; [change (number_of (sqliteFileBytes m) = number_of (length b)); by rewrite En|]. change (JStr (sqliteFileSha256 m) = JStr (sha256Hex b)). by rewrite Eh. Qed.
Lemma described_shape m b : describes m b -> manifest_shape (manifest_value m) = true.
Proof.
  intros (_ & Eh & _). change (hex_text (JStr (sqliteFileSha256 m)) && true && true && truthy (snapshot_value (labSnapshot m)) && true = true).
  cbn [hex_text]. rewrite Eh, sha256Hex_pattern. by destruct (labSnapshot m).
Qed.

(** ** The restore returns *)

(** Nothing stands at the path, and no file on the way to it. *)
Definition free (path : jstr) (d : Disk) : bool := negb (existsSync path d) && forallb (fun p => negb (has_file p d)) (ancestors (dirname path)).

Lemma not_its_directory path : resolve [path] = path -> path ∉ ancestors (dirname path).
Proof.
  destruct (resolve_plain [path]) as (l & Hl & ->). intros <-. unfold ancestors, dirname. rewrite (segments_absolute l) by done.
  rewrite removelast_firstn_len. rewrite segments_absolute by by apply Forall_take.
  intros Hin%list_elem_of_In. apply in_map_iff in Hin as (n & E & Hn).
  apply absolute_inj in E; [|by apply Forall_take, Forall_take|done]. apply (f_equal length) in E. rewrite !length_take in E.
  apply in_seq in Hn. rewrite length_take in Hn. destruct l as [|x l]; cbn in *; lia.
Qed.

Section run.
Variables (F : list (jstr * list N)) (D : list jstr) (io : Draw).
Hypothesis sound_machine : forall s, fault io s = None.

Lemma returns_claim s path (d0 : Disk) : files d0 = F -> directories d0 = D -> resolve [path] = path -> free path d0 = true ->
  spec (on_disk F D) (claimNewFile io s path) (fun _ d => exists D', on_disk (map_set path [] F) D' d) (fun _ => False).
Proof.
  intros Ef Ed Hp [He%negb_true_iff Ha]%andb_true_iff. unfold existsSync in He. apply orb_false_iff in He as [Hn Hd]. rewrite Ed in Hd.
  unfold has_file in Hn, Ha. rewrite Ef in Hn, Ha.
  assert (Hb : existsb (fun p => map_has p F) (ancestors (dirname path)) = false).
  { apply not_true_iff_false. intros (p & Hin & E)%existsb_exists. rewrite List.forallb_forall in Ha. specialize (Ha p Hin). by rewrite E in Ha. }
  eapply spec_bind.
  - unfold mkdirSync. eapply spec_bind; [apply (spec_looks _ _ (fun r d => r = false /\ on_disk F D d))|].
    { intros d [<- Hd']. split; [exact Hb|done]. }
    intros r. apply spec_pure. intros ->. apply (spec_changes _ _ (fun _ d => exists D', includes D' path = false /\ on_disk F D' d)).
    intros d [Hf' Hd']. eexists. split; [|by split]. cbn [set_directories directories]. rewrite Hd'.
    apply bool_decide_eq_false. intros [Hin|Hin]%elem_of_app; [by apply bool_decide_eq_false in Hd|].
    apply list_elem_of_In, filter_In in Hin as [Hin _]. by apply (not_its_directory path Hp), list_elem_of_In.
  - intros [] d (D' & Hnot & Hd'). revert d Hd'. refine (_ : spec (on_disk F D') _ _ _).
    eapply spec_bind; [by apply returns_may_fail|intros []].
    eapply spec_bind; [apply (spec_looks _ _ (fun r d => r = false /\ on_disk F D' d))|].
    { intros d [<- <-]. split; [|done]. unfold existsSync, has_file. by rewrite Hn, Hnot. }
    intros r. apply spec_pure. intros ->. apply spec_changes. intros d [<- <-]. by exists (directories d).
Qed.

Lemma returns_readManifest path text v : map_get path F = Some text -> json_parse (utf8_decode text) = Ok v -> manifest_shape v = true ->
  spec (on_disk F D) (checkManifest io path) (fun r d => r = v /\ on_disk F D d) (fun _ => False).
Proof.
  intros Ht Hj Hs. eapply spec_catching with (E' := fun _ => False); [|by intros e d].
  eapply spec_bind with (R := fun r d => r = v /\ on_disk F D d).
  - eapply spec_bind; [by eapply returns_exists|]. intros r. apply spec_pure. intros ->. cbn [negb].
    eapply spec_bind; [eapply spec_catching with (E' := fun _ => False); [|by intros e d]|].
    + eapply spec_bind; [by apply returns_read|]. intros b. apply spec_pure. intros ->. rewrite Hj.
      by apply (spec_ret _ _ (fun r d => r = v /\ on_disk F D d)).
    + intros r. apply spec_pure. intros ->. rewrite Hs. destruct v; try (by apply spec_ret). done.
  - intros r. apply spec_pure. intros ->. eapply spec_bind; [apply returns_record|]. intros r. apply spec_pure. intros _. by apply spec_ret.
Qed.

Lemma returns_checkBytes path m b : map_get path F = Some b -> bytes_match m b -> returns (on_disk F D) (checkBytes io path m).
Proof.
  intros Hb [Hn Hh]. eapply spec_bind; [apply (spec_looks _ _ (fun r d => r = b /\ on_disk F D d)); intros d [Hf Hd]; by rewrite Hf, Hb|].
  intros r. apply spec_pure. intros ->. eapply spec_bind; [apply returns_demand; rewrite Hn; apply Z.eqb_refl|intros []].
  unfold sha256File. eapply spec_bind.
  - eapply spec_bind; [by apply returns_read|]. intros r. apply spec_pure. intros ->. by apply (spec_ret _ _ (fun r d => r = sha256Hex b /\ on_disk F D d)).
  - intros r. apply spec_pure. intros ->. apply returns_demand. rewrite Hh. by apply jeqb_true.
Qed.

Lemma returns_verifyCopy path m b : map_get path F = Some b -> verified m b -> returns (on_disk F D) (verifyCopy io path m).
Proof.
  intros Hb [Hi (l & Hl & Hk) (ra & Hra & Hpa) (ro & Hro & Hpo) Hs]. eapply spec_bind; [by apply returns_read|]. intros r. apply spec_pure. intros ->.
  eapply spec_bind; [rewrite Hi; by apply returns_demand|intros []].
  eapply spec_bind; [unfold verifySchema; rewrite Hl, Hk; by apply returns_demand|intros []].
  eapply spec_bind; [unfold verifyIdempotency; rewrite Hra; apply returns_demand, Nat.eqb_eq; by apply count_none|intros []].
  eapply spec_bind; [unfold verifyOutbox; rewrite Hro; apply returns_demand, Nat.eqb_eq; by apply outboxIssues_none|intros []].
  unfold verifyState. cbv zeta. unfold lab_named in Hs. destruct (_ && _).
  - destruct (Hs eq_refl) as (r & e & Hr & He). rewrite Hr. cbn [from].
    eapply spec_bind; [by apply (spec_ret _ _ (fun row d => row = Some r /\ on_disk F D d))|]. intros row. apply spec_pure. intros ->.
    eapply spec_bind; [by apply returns_demand|intros []].
    cbn [fmap option_fmap option_map from_option]. unfold id. rewrite He. eapply spec_bind; [apply returns_record|]. intros u. apply spec_pure. intros _. by apply spec_ret.
  - eapply spec_bind; [apply returns_record|]. intros u. apply spec_pure. intros _. by apply spec_ret.
Qed.
End run.

(** The target of a restore is free, also once the temporary directory is made. *)
Definition ready (options : RestoreOptions) (io : Draw) (path : jstr) (d : Disk) : Prop :=
  resolve [path] = path /\ free path d = true /\
  if verifyOnly options then path = in_directory (temporary io) "restored.sqlite" /\ Forall (fun f => below (temporary io) f.1 = false) (files d)
  else exists dest, dest <> [] /\ destPath options = Some dest /\ path = resolve [dest].

Lemma free_with path d D : free path d = true -> includes (D : list jstr) path = false -> free path (set_directories (directories d ++ D) d) = true.
Proof.
  unfold free, existsSync, has_file. cbn [set_directories files directories]. intros [He%negb_true_iff%orb_false_iff Ha]%andb_true_iff Hd. rewrite Ha, andb_true_r.
  destruct He as [-> He]. cbn [orb]. apply negb_true_iff, bool_decide_eq_false. apply bool_decide_eq_false in He, Hd. intros [?|?]%elem_of_app; auto.
Qed.
Lemma not_its_parent dir name : includes [dir] (in_directory dir name) = false.
Proof.
  apply bool_decide_eq_false. intros E%list_elem_of_singleton. apply (f_equal length) in E. unfold in_directory in E. rewrite length_app in E. cbn in E. lia.
Qed.

Section whole.
Variables (options : RestoreOptions) (io : Draw) (d : Disk) (path : jstr).
Hypothesis sound_machine : forall s, fault io s = None.
Hypothesis is_ready : ready options io path d.

Lemma returns_target : spec (on_disk (files d) (directories d)) (restoreTarget options io)
  (fun t d' => t.1 = path /\ (exists d0, files d0 = files d /\ free path d0 = true /\ on_disk (files d) (directories d0) d')) (fun _ => False).
Proof using sound_machine is_ready.
  destruct is_ready as (_ & Hfree & Ht). unfold restoreTarget. destruct (verifyOnly options).
  - destruct Ht as [-> _]. eapply spec_bind; [by apply returns_may_fail|intros []].
    eapply spec_bind; [apply (spec_changes _ _ (fun _ => on_disk (files d) (directories d ++ [temporary io])))|intros []].
    { by intros d' [<- <-]. }
    apply spec_ret. intros d' Hd'. split; [done|]. exists (set_directories (directories d ++ [temporary io]) d). split_and!; [done| |done].
    apply free_with; [done|apply not_its_parent].
  - destruct Ht as ([|c dest] & Hne & -> & ->); [done|]. eapply spec_bind; [apply (spec_looks _ _ (fun r d' => r = false /\ on_disk (files d) (directories d) d'))|].
    + intros d' [Hf Hd]. split; [|done]. apply andb_true_iff in Hfree as [He%negb_true_iff _]. unfold existsSync, has_file in *. by rewrite Hf, Hd.
    + intros taken. apply spec_pure. intros ->. apply spec_ret. intros d' Hd'. split; [done|]. by exists d.
Qed.

Lemma returns_restore_into F D m b backup (d0 : Disk) : F = files d0 -> D = directories d0 -> free path d0 = true -> map_get backup F = Some b -> verified m b ->
  spec (on_disk F D) (restore_into options io backup path m) (fun _ _ => True) (fun _ => False).
Proof using sound_machine is_ready.
  intros -> -> Hfree Hb Hv. destruct is_ready as (Hp & _ & _). assert (Hn : map_get path (files d0) = None).
  { apply andb_true_iff in Hfree as [He%negb_true_iff _]. apply orb_false_iff in He as [He _]. by apply map_has_false. }
  eapply spec_bind; [by apply (returns_claim _ _ io sound_machine _ path d0)|]. intros [] d1 (D' & Hd1). revert d1 Hd1. refine (_ : spec (on_disk (map_set path [] (files d0)) D') _ _ _).
  eapply spec_undoing with (E' := fun _ => False); [|by intros ? []].
  eapply spec_bind with (R := fun _ => on_disk (map_set path b (files d0)) D').
  { eapply spec_bind; [apply (spec_looks _ _ (fun r d => r = b /\ on_disk (map_set path [] (files d0)) D' d))|].
    - intros d1 [Hf Hd]. rewrite Hf, map_get_set_ne, Hb; [done|congruence].
    - intros r. apply spec_pure. intros ->. eapply spec_post; [by apply returns_write| |done]. intros u d1. by rewrite map_set_set. }
  intros []. eapply spec_bind; [apply returns_record|]. intros u. apply spec_pure. intros _.
  eapply spec_bind; [apply (returns_verifyCopy _ _ io sound_machine path m b); [by rewrite map_get_set_eq|done]|intros []].
  eapply spec_bind; [by apply (spec_looks _ _ (fun _ _ => True))|]. intros c. by apply spec_ret.
Qed.

(** The restore of bytes that fit a readable manifest returns. *)
Lemma returns_restoreBackup mp b text v : resolve [backupSqlitePath options] = backupSqlitePath options ->
  resolve [default (default_manifest (backupSqlitePath options)) (ro_manifestPath options)] = mp ->
  map_get (backupSqlitePath options) (files d) = Some b -> map_get mp (files d) = Some text ->
  json_parse (utf8_decode text) = Ok v -> manifest_shape v = true -> bytes_match v b -> verified v b ->
  spec (on_disk (files d) (directories d)) (restoreBackup options io) (fun _ _ => True) (fun _ => False).
Proof using sound_machine is_ready.
  intros Er Em Hb Ht Hj Hs Hm Hv. eapply spec_bind; [apply (spec_changes _ _ (fun _ => on_disk (files d) (directories d))); by intros d' [<- <-]|intros []].
  cbv zeta. rewrite !Er, Em. eapply spec_bind; [by eapply returns_exists|]. intros there. apply spec_pure. intros ->.
  eapply spec_bind; [by apply returns_demand|intros []].
  eapply spec_bind; [by eapply returns_readManifest|]. intros m. apply spec_pure. intros ->.
  eapply spec_bind; [by eapply returns_checkBytes|intros []].
  eapply spec_bind; [apply returns_target|]. intros [t w]. apply spec_pure. cbn [fst]. intros -> d1 (d0 & Ef & Hfree & Hd1). revert d1 Hd1.
  refine (_ : spec (on_disk (files d) (directories d0)) _ _ _).
  eapply spec_ending with (Q' := fun _ _ => True) (E' := fun _ => False); [eapply returns_restore_into; [symmetry; exact Ef|done|done|exact Hb|exact Hv]| |].
  - intros r. destruct w as [dir|]; [|by apply spec_ret]. eapply spec_bind; [by apply returns_may_fail|intros []]. by apply spec_changes.
  - by intros ? [].
Qed.
End whole.

(** C26: a backup restores: a copy and a manifest that [createBackup] wrote from a
    sound store, left as they are, pass every check of [restoreBackup] on a
    machine whose calls do not fail, into any free path or in a drill; the report
    gives back the manifest that was written, and the file restored holds the
    bytes of the copy, which are SQLite's backup of the source. *)
Theorem backup_round_trip o io d r d1 options io' d2 path :
  createBackup o io d = (inr r, d1) ->
  (forall s, map_get (resolve [dbPath o]) (files d1) = Some s -> sound s) -> writable (manifest r) ->
  map_get (sqlitePath r) (files d2) = map_get (sqlitePath r) (files d1) -> map_get (manifestPath r) (files d2) = map_get (manifestPath r) (files d1) ->
  backupSqlitePath options = sqlitePath r -> ro_manifestPath options = None ->
  (forall s, fault io' s = None) -> ready options io' path d2 ->
  exists s report d3,
    map_get (resolve [dbPath o]) (files d1) = Some s /\ restoreBackup options io' d2 = (inr report, d3) /\
    rp_manifest report = manifest_value (manifest r) /\ Forall (fun c => ok c = true) (rp_checks report) /\
    files d3 = files d2 ++ (if verifyOnly options then [] else [(path, sq_backup s)]).
Proof.
  intros Hc Hsound Hw Hk1 Hk2 Eb Eo Hio Hready.
  pose proof (spec_createBackup o io (files d) (fun _ => True) (fun _ _ => I) (or_intror (fun _ => I)) d eq_refl) as Hs. rewrite Hc in Hs.
  destruct Hs as [(_ & _ & _ & (s & Hsrc & Hcopy & Hdesc) & Hmf & _) (l & stamp & name & iso & Hl & Hst & Hna & Hiso & Esp & Emp & Hlab)].
  pose proof (sound_backup s (Hsound s Hsrc)) as Hsnd. exists s.
  assert (Hj : json_parse (utf8_decode (utf8_encode (pretty_text 0 (manifest_value (manifest r)) ++ [10%N]))) = Ok (manifest_value (manifest r))).
  { apply json_parse_pretty. exact (manifest_clean _ _ _ _ _ _ _ Hsnd Hdesc Hw Hst Hna Hiso Hlab Hl). }
  assert (Hb : map_get (backupSqlitePath options) (files d2) = Some (sq_backup s)) by by rewrite Eb, Hk1.
  assert (Ht : map_get (manifestPath r) (files d2) = Some (utf8_encode (pretty_text 0 (manifest_value (manifest r)) ++ [10%N]))) by by rewrite Hk2.
  assert (Esp' : resolve [backupSqlitePath options] = backupSqlitePath options).
  { rewrite Eb, Esp. apply name_resolves; try done. by repeat constructor. }
  assert (Emp' : resolve [default (default_manifest (backupSqlitePath options)) (ro_manifestPath options)] = manifestPath r).
  { rewrite Eo. cbn [default from_option]. unfold id. rewrite Eb, Esp, manifest_beside, Emp. apply name_resolves; try done. by repeat constructor. }
  pose proof (returns_restoreBackup options io' d2 path Hio Hready _ _ _ _ Esp' Emp' Hb Ht Hj (described_shape _ _ Hdesc) (described_bytes _ _ Hdesc) (sound_verified _ _ Hsnd Hdesc) d2 (conj eq_refl eq_refl)) as Hrun.
  assert (Hfresh : verifyOnly options = true -> Forall (fun f => below (temporary io') f.1 = false) (files d2)).
  { intros Ev. destruct Hready as (_ & _ & Hr). rewrite Ev in Hr. apply Hr. }
  pose proof (spec_restoreBackup options io' (files d2) (Hio _) (Hio _) Hfresh d2 eq_refl) as Hspec.
  destruct (restoreBackup options io' d2) as [[e|report] d3]; [done|]. destruct Hspec as (b & (Hb' & (text & Ht' & Hj' & _) & _ & _ & Hchecks) & Hfiles).
  rewrite Esp' in Hb', Ht'. rewrite Hb in Hb'. apply Some_inj in Hb' as <-. rewrite Emp', Ht in Ht'. apply Some_inj in Ht' as <-.
  rewrite Hj in Hj'. assert (rp_manifest report = manifest_value (manifest r)) as Hv by congruence.
  exists report, d3. split_and!; [done|done|done|done|]. unfold restored_files in Hfiles. destruct Hready as (_ & _ & Hr). destruct (verifyOnly options).
  - rewrite app_nil_r. apply Hfiles.
  - destruct Hfiles as (dest & Ed & _ & _ & ->), Hr as (dest' & _ & Ed' & ->). assert (dest = dest') as -> by congruence. done.
Qed.
End trip.
