(* ===== verification/BackupCommands.v ===== *)
(** BackupCommands: tools/backup-create.ts and backup-restore.ts, the two
    commands: their arguments, their output and their exit codes. *)
From S2P Require Import Prelude JsString JsMap Host JsTime JsJson JsParse JsPretty LabRequest CredentialVerifier Engine DurableStore BackupFiles BackupLib BackupRuns.
#[local] Open Scope string_scope.
#[local] Open Scope list_scope.
#[local] Open Scope Z_scope.
#[local] Open Scope js_scope.

(** What a command prints and the code it ends with. *)
Record Exit : Type := { code : Z; stdout : jstr; stderr : jstr }.

(** A string that is given and not empty. *)
Definition set_text (s : option jstr) : option jstr := match s with Some ((_ :: _) as t) => Some t | _ => None end.

(** What parsing ends in; the help text is printed at once, and the process ends. *)
Inductive Parsed (A : Type) : Type :=
| Arguments (a : A)
| Help
| Rejected (message : jstr).
Arguments Arguments {A} a.
Arguments Help {A}.
Arguments Rejected {A} message.

Definition new_line : jstr := [10%N].
Definition printed `{Host} (v : jsval) : jstr := pretty_text 0 v ++ new_line.

Module Create.
Record Args : Type := { db : option jstr; out : option jstr; label : option jstr }.

(** The value of an option is the argument after it, or [undefined]. *)
Fixpoint parse_loop (argv : list jstr) (a : Args) : Parsed Args :=
  match argv with
  | [] => Arguments a
  | arg :: rest =>
      let value := head rest in
      let after (a : Args) := match rest with [] => Arguments a | _ :: rest' => parse_loop rest' a end in
      if arg =s? js "--db" then after {| db := value; out := out a; label := label a |}
      else if arg =s? js "--out" then after {| db := db a; out := value; label := label a |}
      else if arg =s? js "--label" then after {| db := db a; out := out a; label := value |}
      else if (arg =s? js "--help") || (arg =s? js "-h") then Help
      else Rejected ("unknown argument: " +:+ arg)
  end.

Definition parseArgs (argv : list jstr) : Parsed (jstr * jstr * option jstr) :=
  match parse_loop argv {| db := None; out := None; label := None |} with
  | Arguments a =>
      match set_text (db a), set_text (out a) with
      | None, _ => Rejected "--db <path-to-sqlite-file> is required"
      | _, None => Rejected "--out <output-directory> is required"
      | Some d, Some o => Arguments (d, o, label a)
      end
  | Help => Help
  | Rejected e => Rejected e
  end.

Definition USAGE : jstr :=
  js "Usage: backup-create --db <sqlite-file> --out <directory> [--label <name>]

Creates a new, checksummed, WAL-consistent backup of a DurableStore SQLite
file. Never overwrites an existing file " ++ dash ++ js " every run writes to a fresh,
timestamped path under --out and refuses to run if that path is somehow
already taken.

This is a SNAPSHOT, not continuous point-in-time recovery. See
docs/BACKUP_RESTORE.md for exactly what is and is not covered.
".

Section main.
Context `{Host, Sqlite, SqliteFiles, Process}.

Definition report (r : CreateBackupResult) : jsval :=
  JObj [(js "ok", JBool true); (js "sqlitePath", JStr (sqlitePath r)); (js "manifestPath", JStr (manifestPath r));
        (js "sqliteFileBytes", number_of (sqliteFileBytes (manifest r))); (js "sqliteFileSha256", JStr (sqliteFileSha256 (manifest r)));
        (js "tableRowCounts", counts_value (tableRowCounts (manifest r))); (js "labSnapshotPresent", JBool (bool_decide (is_Some (labSnapshot (manifest r)))))].

Definition main (argv : list jstr) (io : Draw) (d : Disk) : Exit * Disk :=
  match parseArgs argv with
  | Help => ({| code := 0; stdout := USAGE; stderr := [] |}, d)
  | Rejected e => ({| code := 2; stdout := USAGE; stderr := e ++ new_line |}, d)
  | Arguments (db, out, label) =>
      match createBackup {| dbPath := resolve [db]; outputDir := resolve [out]; BackupLib.label := label; now := None |} io d with
      | (inr r, d') => ({| code := 0; stdout := printed (report r); stderr := [] |}, d')
      | (inl e, d') => ({| code := 1; stdout := []; stderr := js "backup failed: " ++ f_message e ++ new_line |}, d')
      end
  end.
End main.
End Create.

Module Restore.
Record Args : Type := { backup : option jstr; manifest : option jstr; into : option jstr; verifyOnly : bool }.

Fixpoint parse_loop (argv : list jstr) (a : Args) : Parsed Args :=
  match argv with
  | [] => Arguments a
  | arg :: rest =>
      let value := head rest in
      let after (a : Args) := match rest with [] => Arguments a | _ :: rest' => parse_loop rest' a end in
      if arg =s? js "--backup" then after {| backup := value; manifest := manifest a; into := into a; verifyOnly := verifyOnly a |}
      else if arg =s? js "--manifest" then after {| backup := backup a; manifest := value; into := into a; verifyOnly := verifyOnly a |}
      else if arg =s? js "--into" then after {| backup := backup a; manifest := manifest a; into := value; verifyOnly := verifyOnly a |}
      else if arg =s? js "--verify-only" then parse_loop rest {| backup := backup a; manifest := manifest a; into := into a; verifyOnly := true |}
      else if (arg =s? js "--help") || (arg =s? js "-h") then Help
      else Rejected ("unknown argument: " +:+ arg)
  end.

Definition parseArgs (argv : list jstr) : Parsed (jstr * Args) :=
  match parse_loop argv {| backup := None; manifest := None; into := None; verifyOnly := false |} with
  | Arguments a =>
      match set_text (backup a), set_text (into a), verifyOnly a with
      | None, _, _ => Rejected "--backup <path-to-sqlite-backup> is required"
      | _, None, false => Rejected "either --into <new-path> or --verify-only is required"
      | _, Some _, true => Rejected "--into and --verify-only are mutually exclusive"
      | Some b, _, _ => Arguments (b, a)
      end
  | Help => Help
  | Rejected e => Rejected e
  end.

Definition USAGE : jstr :=
  js "Usage:
  backup-restore --backup <sqlite-file> --verify-only
  backup-restore --backup <sqlite-file> --into <new-path> [--manifest <path>]

Restores a backup to a brand-new path (never overwrites) and runs a full
verification pass: checksum, byte length, SQLite integrity, application
schema recognition, and deep application-state checks (audit hash chain,
challenge cross-references, daily-spend reconciliation, idempotency and
outbox table structure).

--verify-only runs every check against a throwaway temp copy and leaves
nothing behind " ++ dash ++ js " the " ++ [34%N] ++ js "restore drill" ++ [34%N] ++ js " mode for CI or a scheduled health
check. Without it, --into is required and the verified copy is left at
that path for inspection.

This is a snapshot restore, not point-in-time recovery. See
docs/BACKUP_RESTORE.md.
".

Section main.
Context `{Host, Sqlite, SqliteFiles, EngineJson, Process}.

Definition options_of (a : jstr * Args) : RestoreOptions := {|
  backupSqlitePath := resolve [a.1]; ro_manifestPath := (fun p => resolve [p]) <$> set_text (manifest a.2);
  destPath := (fun p => resolve [p]) <$> set_text (into a.2); BackupLib.verifyOnly := verifyOnly a.2 |}.

Definition check_value (c : RestoreCheck) : jsval := JObj [(js "name", JStr (name c)); (js "ok", JBool (ok c)); (js "detail", JStr (detail c))].
Definition text_or_undefined (s : option jstr) : jsval := match s with Some t => JStr t | None => JUndefined end.
Definition report (r : RestoreReport) : jsval :=
  JObj [(js "ok", JBool true); (js "restoredPath", text_or_undefined (restoredPath r)); (js "checks", JArr (map check_value (rp_checks r)))].
(** A verification error is printed with its checks. *)
Definition complaint (e : Failure) : jstr :=
  match f_checks e with
  | Some l => printed (JObj [(js "ok", JBool false); (js "error", JStr (f_message e)); (js "checks", JArr (map check_value l))])
  | None => js "restore failed: " ++ f_message e ++ new_line
  end.

Definition main (argv : list jstr) (io : Draw) (d : Disk) : Exit * Disk :=
  match parseArgs argv with
  | Help => ({| code := 0; stdout := USAGE; stderr := [] |}, d)
  | Rejected e => ({| code := 2; stdout := USAGE; stderr := e ++ new_line |}, d)
  | Arguments a =>
      match restoreBackup (options_of a) io d with
      | (inr r, d') => ({| code := 0; stdout := printed (report r); stderr := [] |}, d')
      | (inl e, d') => ({| code := 1; stdout := []; stderr := complaint e |}, d')
      end
  end.
End main.
End Restore.

(** ** Exit codes *)

Section exits.
Context `{Host, Sqlite, SqliteFiles, EngineJson, Process}.

Lemma complaint_nonempty e : Restore.complaint e <> [].
Proof. unfold Restore.complaint. destruct (f_checks e) as [l|]; [|done]. unfold printed. intros E%(f_equal length). rewrite length_app in E. cbn in E. lia. Qed.

(** the restore command tells success by its exit code: with code 0 it has
    printed its usage, as asked, or the report of a restore whose every check
    passed and whose one new file, or no file in a drill, holds the verified bytes;
    with code 1 or 2 it has printed a complaint and the files are those it found. *)
Theorem restore_command_exit argv io d :
  fault io RemoveTarget = None -> fault io RemoveTemporary = None -> Forall (fun f => below (temporary io) f.1 = false) (files d) ->
  let '(e, d') := Restore.main argv io d in
  (code e = 0 /\ ((Restore.parseArgs argv = Help /\ d' = d) \/
    exists a r b, Restore.parseArgs argv = Arguments a /\ stdout e = printed (Restore.report r) /\
      restored_of (Restore.options_of a) (files d) r b /\ restored_files (Restore.options_of a) (files d) r b (files d'))) \/
  ((code e = 1 \/ code e = 2) /\ stderr e <> [] /\ files d' = files d).
Proof.
  intros Ht Hr Hfresh. unfold Restore.main. destruct (Restore.parseArgs argv) as [a| |m] eqn:Ep.
  - pose proof (spec_restoreBackup (Restore.options_of a) io (files d) Ht Hr (fun _ => Hfresh) d eq_refl) as Hs.
    destruct (restoreBackup (Restore.options_of a) io d) as [[e|r] d'].
    + right. cbn. split; [by left|]. split; [apply complaint_nonempty|exact Hs].
    + left. destruct Hs as (b & Hof & Hfiles). split; [done|]. right. by exists a, r, b.
  - left. split; [done|]. by left.
  - right. cbn. split; [by right|]. split; [|done]. intros E%(f_equal length). rewrite length_app in E. cbn in E. lia.
Qed.
End exits.
