(* ===== verification/BackupExamples.v ===== *)
(** BackupExamples: a backup and its restores on a small machine, at which the
    theorems on backups are instantiated. *)
From S2P Require Import Prelude JsString JsMap Host TestHost JsTime JsJson JsParse JsPretty LabRequest CredentialVerifier AuditLog ChallengeStore Engine DurableStore.
From S2P Require Import BackupFiles BackupPaths BackupLib BackupRuns BackupRoundTrip BackupCommands.
#[local] Open Scope string_scope.
#[local] Open Scope list_scope.
#[local] Open Scope Z_scope.
#[local] Open Scope js_scope.

#[local] Existing Instance quick_host.
#[local] Instance plain_sqlite : Sqlite := {| bind_text := fun s => s; column_text := fun b => b |}.
#[local] Instance sample_process : Process := {| cwd := "/srv"; node_version := "v24.0.0"; platform := "linux" |}.

(** One file is a database: a store with a snapshot, an answer and an event. *)
Definition sample_bytes : list N := [83; 81; 76]%N.
Definition quoted (s : jstr) : jstr := map (fun c => if (c =? 39)%N then 34%N else c) s.
Definition sample_rows {A : Type} (l : list A) (b : list N) : result (list A) := if bool_decide (b = sample_bytes) then Ok l else Throw "file is not a database".
Definition stored_challenge : ChallengeRow :=
  {| ch_challenge_id := LAB_ROW; ch_status := js "active"; ch_version := 3; ch_record_json := quoted "{'engine':{}}"; ch_updated_at := [] |}.
Definition stored_answer : IdempotencyRow :=
  {| id_scope := js "s"; id_idempotency_key := js "k"; id_request_hash := js "h"; id_response_json := js "null"; id_created_at := [] |}.
Definition stored_event : OutboxRow :=
  {| ob_event_id := js "e"; ob_event_key := js "k"; ob_topic := js "t"; ob_aggregate_id := js "a"; ob_payload_json := js "[1]";
     ob_created_at := js "2026-01-01T12:00:00.000Z"; ob_available_at := js "2026-01-01T12:00:00.000Z"; ob_attempts := 1; ob_claimed_by := None; ob_claimed_until := None;
     ob_delivered_at := Some (js "2026-01-01T12:00:01.000Z") |}.
Definition stored_migration : MigrationRow := {| mi_version := 1; mi_name := js "durable_challenges_idempotency_outbox"; mi_applied_at := [] |}.
#[local] Instance sample_files : SqliteFiles := {|
  sq_integrity := fun b => if bool_decide (b = sample_bytes) then Ok (js "ok") else Throw "file is not a database";
  sq_migrations := sample_rows [stored_migration]; sq_challenges := sample_rows [stored_challenge];
  sq_idempotency := sample_rows [stored_answer]; sq_outbox := sample_rows [stored_event];
  sq_challenge := fun b v => if bool_decide (b = sample_bytes) then Ok (if is_text v LAB_ROW then Some stored_challenge else None) else Throw "file is not a database";
  sq_load := fun b => if bool_decide (b = sample_bytes) then Ok {| DurableStore.f_migrations := [stored_migration]; DurableStore.f_tables := Some DurableStore.empty_tables |}
                      else Throw "file is not a database";
  sq_save := fun b f => sample_bytes; sq_backup := fun b => b |}.
#[local] Instance sample_engine : EngineJson := fun v => Ok {|
  es_schemaVersion := 2; es_audit := {| as_schemaVersion := 1; as_events := [] |}; es_challenges := {| ss_schemaVersion := 1; ss_records := [] |};
  es_devices := []; es_tokens := []; es_provisioning := []; es_transactions := []; es_dailySpend := [] |}.

#[local] Instance sample_laws : SqliteFilesLaws sample_files.
Proof.
  split; [done..|]. intros b s r Hs. cbn. case_bool_decide; [|done]. destruct (jeqb s LAB_ROW) eqn:E; [|done]. apply jeqb_true in E as ->. by intros [= <-].
Qed.

Definition sample_env : Env := {| env_uuid := fun _ => js "u"; env_challengeId := js "c"; env_clock := fun _ => Some noon |}.
Definition calm : Draw := {| clock := Some noon; store_clock := sample_env; temporary := js "/tmp/airlock-restore-drill-x1"; fault := fun _ => None; partial := fun _ => [];
  live := fun b => b; pages_finite := true |}.
Definition disk_0 : Disk := {| files := [(js "/srv/lab.sqlite", sample_bytes)]; directories := [js "/srv"]; checks := [] |}.
Definition nightly : CreateBackupOptions := {| dbPath := js "lab.sqlite"; outputDir := js "backups"; label := Some (js " nightly "); now := None |}.
Definition run_0 := createBackup nightly calm disk_0.
Definition copy_path : jstr := js "/srv/backups/2026-01-01T12-00-00-000Z_nightly.sqlite".
Definition disk_1 : Disk := run_0.2.
Definition result_0 : CreateBackupResult :=
  match run_0.1 with inr r => r | inl _ => {| sqlitePath := []; manifestPath := []; manifest := {| createdAt := []; sourceLabel := []; sqliteFileName := []; sqliteFileBytes := 0;
    sqliteFileSha256 := []; appMigrations := []; tableRowCounts := {| n_challenges := 0; n_idempotency := 0; n_outbox := 0 |}; labSnapshot := None; mf_node := []; mf_platform := [] |} |} end.

(** Paths are resolved segment by segment. *)
Example resolved_path : resolve [js "../data//./x/..//lab.sqlite"] = js "/data/lab.sqlite".
Proof. vm_compute. reflexivity. Qed.
Example nightly_path : sqlitePath result_0 = copy_path.
Proof. vm_compute. reflexivity. Qed.

Definition returned {A} (r : (Failure + A) * Disk) : bool := match r.1 with inr _ => true | inl _ => false end.
Lemma run_0_returns : returned run_0 = true.
Proof. vm_compute. reflexivity. Qed.
Lemma run_0_ends : createBackup nightly calm disk_0 = (inr result_0, disk_1).
Proof. pose proof run_0_returns as Hr. unfold result_0, disk_1. fold run_0. destruct run_0 as [[e|r] d]; [done|reflexivity]. Qed.

Lemma sample_sound : sound sample_bytes.
Proof.
  split; [reflexivity|vm_compute; reflexivity|exists [stored_answer]; split; [reflexivity|apply Forall_singleton; vm_compute; reflexivity]|exists [stored_event]|].
  - split; [reflexivity|]. apply Forall_singleton. split; vm_compute; reflexivity.
  - intros r. change (Ok (Some stored_challenge) = Ok (Some r) -> good_text (column_text (ch_status r)) /\ exists e, deep_restore (ch_record_json r) = Ok e).
    intros [= <-]. split; [apply good_text_small; by repeat constructor|]. destruct (deep_restore (ch_record_json stored_challenge)) as [e|e] eqn:E; [by exists e|].
    assert (is_ok (deep_restore (ch_record_json stored_challenge)) = true) as Ho by (vm_compute; reflexivity). by rewrite E in Ho.
Qed.
Lemma sample_writable : writable (manifest result_0).
Proof.
  split; [apply good_text_small, (bool_decide_unpack _); vm_compute; exact I..|vm_compute; discriminate|].
  apply (bool_decide_unpack _). vm_compute. exact I.
Qed.

(** Into a new path, and as a drill. *)
Definition into : RestoreOptions := {| backupSqlitePath := sqlitePath result_0; ro_manifestPath := None; destPath := Some (js "restored/lab.sqlite"); verifyOnly := false |}.
Definition drill : RestoreOptions := {| backupSqlitePath := sqlitePath result_0; ro_manifestPath := None; destPath := None; verifyOnly := true |}.

(** The backup taken once more at the same instant finds its path taken. *)
Lemma backup_never_overwrites_witness :
  fault calm RemoveCopy = None /\ returned (createBackup nightly calm disk_1) = false /\
  match createBackup nightly calm disk_1 with
  | (inr r, d') => backed_up (resolve [dbPath nightly]) (files disk_1) r d'
  | (inl _, d') => kept (resolve [dbPath nightly]) (files disk_1) d'
  end.
Proof. split; [reflexivity|]. split; [vm_compute; reflexivity|]. pose proof (backup_never_overwrites nightly calm disk_1) as Hx. exact (Hx eq_refl). Defined.

Lemma restore_verified_or_nothing_witness :
  fault calm RemoveTarget = None /\ fault calm RemoveTemporary = None /\ Forall (fun f => below (temporary calm) f.1 = false) (files disk_1) /\
  returned (restoreBackup drill calm disk_1) = true /\
  match restoreBackup drill calm disk_1 with
  | (inr r, d') => exists b, restored_of drill (files disk_1) r b /\ restored_files drill (files disk_1) r b (files d')
  | (inl _, d') => files d' = files disk_1
  end.
Proof.
  assert (Hf : Forall (fun f => below (temporary calm) f.1 = false) (files disk_1)) by (apply (bool_decide_unpack _); vm_compute; exact I).
  split; [reflexivity|]. split; [reflexivity|]. split; [exact Hf|]. split; [vm_compute; reflexivity|].
  pose proof (restore_verified_or_nothing drill calm disk_1) as Hx. exact (Hx eq_refl eq_refl (fun _ => Hf)).
Defined.

Lemma source_kept : map_get (resolve [dbPath nightly]) (files disk_1) = Some sample_bytes.
Proof. vm_compute. reflexivity. Qed.
Lemma into_ready : ready into calm (js "/srv/restored/lab.sqlite") disk_1.
Proof. split; [vm_compute; reflexivity|]. split; [vm_compute; reflexivity|]. exists (js "restored/lab.sqlite"). split; [discriminate|]. split; [reflexivity|vm_compute; reflexivity]. Qed.

Lemma backup_round_trip_witness :
  exists s report d3,
    map_get (resolve [dbPath nightly]) (files disk_1) = Some s /\ restoreBackup into calm disk_1 = (inr report, d3) /\
    rp_manifest report = manifest_value (manifest result_0) /\ Forall (fun c => ok c = true) (rp_checks report) /\
    files d3 = files disk_1 ++ [(js "/srv/restored/lab.sqlite", sq_backup s)].
Proof.
  apply (backup_round_trip (Q := sample_files) (H0 := quick_host_laws) nightly calm disk_0 result_0 disk_1 into calm disk_1 (js "/srv/restored/lab.sqlite")).
  - exact run_0_ends.
  - intros s. rewrite source_kept. intros [= <-]. exact sample_sound.
  - exact sample_writable.
  - reflexivity.
  - reflexivity.
  - reflexivity.
  - reflexivity.
  - reflexivity.
  - exact into_ready.
Defined.

(** The commands, on the same machine. *)
Definition drill_line : list jstr := [js "--backup"; sqlitePath result_0; js "--verify-only"].
Example create_command_code : code (Create.main [js "--db"; js "lab.sqlite"; js "--out"; js "backups"] calm disk_0).1 = 0.
Proof. vm_compute. reflexivity. Qed.

Lemma restore_command_exit_witness :
  fault calm RemoveTarget = None /\ fault calm RemoveTemporary = None /\ Forall (fun f => below (temporary calm) f.1 = false) (files disk_1) /\
  code (Restore.main drill_line calm disk_1).1 = 0 /\
  let '(e, d') := Restore.main drill_line calm disk_1 in
  (code e = 0 /\ ((Restore.parseArgs drill_line = Help /\ d' = disk_1) \/
    exists a r b, Restore.parseArgs drill_line = Arguments a /\ stdout e = printed (Restore.report r) /\
      restored_of (Restore.options_of a) (files disk_1) r b /\ restored_files (Restore.options_of a) (files disk_1) r b (files d'))) \/
  ((code e = 1 \/ code e = 2) /\ stderr e <> [] /\ files d' = files disk_1).
Proof.
  assert (Hf : Forall (fun f => below (temporary calm) f.1 = false) (files disk_1)) by (apply (bool_decide_unpack _); vm_compute; exact I).
  split; [reflexivity|]. split; [reflexivity|]. split; [exact Hf|]. split; [vm_compute; reflexivity|].
  pose proof (restore_command_exit drill_line calm disk_1) as Hx. exact (Hx eq_refl eq_refl Hf).
Defined.
