(* ===== verification/ReleaseEvidence.v ===== *)
(** ReleaseEvidence: tools/release-evidence.ts, the evidence of a release: the
    quality commands are run on one commit of a clean tree, and what they say is
    written down with its digest. *)
From S2P Require Import Prelude JsString JsMap Host JsTime JsJson JsParse JsPretty LabRequest CredentialVerifier BackupFiles BackupLib BackupRuns.
#[local] Open Scope string_scope.
#[local] Open Scope list_scope.
#[local] Open Scope Z_scope.
#[local] Open Scope js_scope.

Definition SCHEMA_VERSION : jstr := "airlock.release-evidence.v1".
Definition MAX_BUNDLE_BYTES : Z := 256 * 1024.

(** ** Commands *)

Record CommandResult : Type := { status : Z; stdout : jstr; stderr : jstr }.
(** A command runs in a directory of the machine, and may change its files. *)
Definition CommandRunner : Type := jstr -> list jstr -> jstr -> Run CommandResult.

Record CommandInvocation : Type := { executable : jstr; args : list jstr }.

(** The Node.js executable and the environment, as the tool looks at them. *)
Record NodeProcess : Type := { execPath : jstr; npm_execpath : option jstr; bundled_npm : jstr }.

Definition resolveCommandInvocation `{Process} (node : NodeProcess) (command : jstr) (l : list jstr) (d : Disk) : result CommandInvocation :=
  if negb (platform =s? js "win32") || negb (command =s? js "npm") then Ok {| executable := command; args := l |}
  else
    let npmCli := match trim <$> npm_execpath node with Some ((_ :: _) as p) => p | _ => bundled_npm node end in
    throw_if (negb (existsSync npmCli d)) ("npm CLI entry point not found: " +:+ npmCli) ≫= fun _ =>
    Ok {| executable := execPath node; args := npmCli :: l |}.

(** What [spawnSync] reports. *)
Record Spawned : Type := { sp_error : option jstr; sp_status : option Z; sp_stdout : option jstr; sp_stderr : option jstr }.

(** [text.replaceAll("\r\n", "\n")] *)
Fixpoint unix_lines (s : jstr) : jstr :=
  match s with
  | 13%N :: ((10%N :: _) as r) => unix_lines r
  | c :: r => c :: unix_lines r
  | [] => []
  end.

Definition defaultRunner `{Process} (node : NodeProcess) (spawn : CommandInvocation -> jstr -> Disk -> Spawned * Disk) : CommandRunner := fun command l cwd =>
  looks (resolveCommandInvocation node command l) ≫= fun r =>
  from r ≫= fun invocation =>
  (fun d => let '(s, d') := spawn invocation cwd d in (inr s, d')) ≫= fun s =>
  match sp_error s with
  | Some e => throws e
  | None => mret {| status := default 1 (sp_status s); stdout := unix_lines (default [] (sp_stdout s)); stderr := unix_lines (default [] (sp_stderr s)) |}
  end.

Section evidence.
Context `{Host, Process} (runner : CommandRunner).

(** [s.slice(-2000)] *)
Definition last_2000 (s : jstr) : jstr := drop (length s - 2000) s.

Definition requireSuccess (cwd command : jstr) (l : list jstr) : Run jstr :=
  runner command l cwd ≫= fun r =>
  if status r =? 0 then mret (trim (stdout r))
  else throws (command ++ js " " ++ join (js " ") l ++ js " failed (" ++ decimal_Z (status r) ++ js "): " ++ last_2000 (stderr r)).

(** ** Output *)

Definition is_line_end (c : N) : bool := (c =? 10)%N || (c =? 13)%N || (c =? 8232)%N || (c =? 8233)%N.
Fixpoint text_lines (s : jstr) : list jstr :=
  match s with
  | [] => [[]]
  | c :: r => if is_line_end c then [] :: text_lines r else match text_lines r with l :: ls => (c :: l) :: ls | [] => [[c]] end
  end.

(** [/^ℹ name (\d+)$/m], on one line *)
Definition tap_value (name line : jstr) : option jstr :=
  let head := 8505%N :: js " " ++ name ++ js " " in
  let digits := drop (length head) line in
  if starts_with head line && negb (digits =s? []) && forallb is_digit digits then Some digits else None.
Definition tap_field (name output : jstr) : result jsval :=
  match List.find (fun l => bool_decide (is_Some (tap_value name l))) (text_lines output) with
  | Some l => Ok (JNum (integer_number (Z.of_N (digits_value (default [] (tap_value name l))))))
  | None => Throw ("test output is missing " +:+ name +:+ " summary")
  end.
Fixpoint tap_fields (names : list jstr) (output : jstr) : result (list (jstr * jsval)) :=
  match names with
  | [] => Ok []
  | n :: names => tap_field n output ≫= fun v => tap_fields names output ≫= fun l => Ok ((n, v) :: l)
  end.
Definition parseTapSummary (output : jstr) : result jsval :=
  tap_fields [js "tests"; js "pass"; js "fail"; js "cancelled"; js "skipped"; js "todo"] output ≫= fun l => Ok (JObj l).

(** The text from the first occurrence of [p]. *)
Fixpoint from_index (p s : jstr) : option jstr :=
  if starts_with p s then Some s else match s with [] => None | _ :: r => from_index p r end.

Definition is_boolean (v : jsval) : bool := match v with JBool _ => true | _ => false end.
Definition SHAPE : jstr := "scenario output shape is invalid".
Fixpoint check_results (l : list jsval) : result unit :=
  match l with
  | [] => Ok tt
  | JNull :: _ => Throw "Cannot read properties of null (reading 'scenario')"
  | v :: l => throw_if (negb (is_string (member (js "scenario") v)) || negb (is_boolean (member (js "passed") v))) SHAPE ≫= fun _ => check_results l
  end.
Definition scenario_result (v : jsval) : jsval := JObj [(js "scenario", member (js "scenario") v); (js "passed", member (js "passed") v)].
Definition OPENING : jstr := js "{" ++ [10%N] ++ js "  " ++ [34%N] ++ js "passed" ++ [34%N].
Definition parseScenarioSummary (output : jstr) : result jsval :=
  match from_index OPENING output with
  | None => Throw "scenario output is missing JSON result"
  | Some text =>
      json_parse text ≫= fun parsed =>
      match is_boolean (member (js "passed") parsed), member (js "results") parsed with
      | true, JArr results =>
          check_results results ≫= fun _ =>
          Ok (JObj [(js "passed", member (js "passed") parsed); (js "count", number_of (length results)); (js "results", JArr (map scenario_result results))])
      | _, _ => Throw SHAPE
      end
  end.

Definition pythonVersion (cwd : jstr) : Run jstr :=
  runner "python" [js "--version"] cwd ≫= fun r =>
  if status r =? 0 then mret (trim (stdout r ++ [10%N] ++ stderr r)) else
  runner "python3" [js "--version"] cwd ≫= fun r =>
  if status r =? 0 then mret (trim (stdout r ++ [10%N] ++ stderr r)) else mret (js "unavailable").

(** ** The evidence *)

Record GenerateEvidenceOptions : Type := { repoRoot : jstr; outputPath : option jstr; expectedCommit : option jstr; allowDirty : bool }.

Definition texts (l : list jstr) : jsval := JArr (map JStr l).
Definition BOUNDARY : jsval := JObj [
  (js "realLocalEvidence", texts [js "TypeScript typecheck and Node test execution"; js "local protocol cryptography and state-machine behavior"; js "single-host SQLite durability and separate-process race tests"]);
  (js "simulated", texts [js "issuer and risk decisioning"; js "wallet and token-service-provider integration"; js "processor, network, clearing, and settlement integration"; js "exportable synthetic device keys"]);
  (js "notConnected", texts [js "real cardholder data or payment credentials"; js "production issuer, processor, wallet, network, merchant, or payment rail"])].
Definition PROVENANCE : jsval := JObj [
  (js "signed", JBool false); (js "attested", JBool false);
  (js "statement", JStr "This JSON is reproducible release evidence, not signed provenance or an artifact attestation.")].

Definition evidence_body (commit commitTimestamp : jstr) (expected : option jstr) (clean : bool) (lockfile : list N) (python : jstr) (tests scenarios : jsval) : list (jstr * jsval) := [
  (js "schemaVersion", JStr SCHEMA_VERSION);
  (js "source", JObj [(js "commit", JStr commit); (js "commitTimestamp", JStr commitTimestamp);
     (js "expectedCommit", match expected with Some e => JStr e | None => JNull end); (js "cleanWorktree", JBool clean);
     (js "lockfile", JStr "package-lock.json"); (js "lockfileSha256", JStr (sha256Hex lockfile))]);
  (js "environment", JObj [(js "node", JStr node_version); (js "python", JStr python)]);
  (js "verification", JObj [(js "typecheck", JObj [(js "passed", JBool true)]); (js "tests", tests); (js "scenarios", scenarios)]);
  (js "boundary", BOUNDARY); (js "provenance", PROVENANCE)].

Definition printed (v : jsval) : list N := utf8_encode (pretty_text 0 v ++ [10%N]).
Definition bundle_of (body : list (jstr * jsval)) : jsval := JObj (body ++ [(js "evidenceSha256", JStr (sha256Hex (printed (JObj body))))]).

(** [writeFileSync(path, text, { flag: "wx" })], after its directory is made. *)
Definition write_new (io : Draw) (path : jstr) (b : list N) : Run unit :=
  mkdirSync (dirname path) ≫= fun _ =>
  looks (existsSync path) ≫= fun taken =>
  if (taken : bool) then throws ("EEXIST: file already exists, open '" +:+ path +:+ "'") else write_as io WriteOutput path b.

Definition must_pass (root command : jstr) (l : list jstr) (message : jstr) : Run jstr :=
  runner command l root ≫= fun r => if status r =? 0 then mret (stdout r) else throws message.
Definition git_status (root : jstr) : Run jstr := requireSuccess root "git" [js "status"; js "--porcelain"; js "--untracked-files=all"].

Definition generateReleaseEvidence (options : GenerateEvidenceOptions) (io : Draw) : Run jsval :=
  let root := resolve [repoRoot options] in
  requireSuccess root "git" [js "rev-parse"; js "HEAD"] ≫= fun commit =>
  from (match expectedCommit options with
        | Some ((_ :: _) as e) => throw_if (negb (commit =s? e)) ("commit mismatch: expected " +:+ e +:+ ", checked out " +:+ commit)
        | _ => Ok tt
        end) ≫= fun _ =>
  git_status root ≫= fun initialStatus =>
  from (throw_if (negb (initialStatus =s? []) && negb (allowDirty options)) "release evidence requires a clean Git worktree") ≫= fun _ =>
  readFileSync io ReadLockfile (resolve [root; js "package-lock.json"]) ≫= fun lockfile =>
  requireSuccess root "git" [js "show"; js "-s"; js "--format=%cI"; commit] ≫= fun commitTimestamp =>
  must_pass root "npm" [js "run"; js "typecheck"] "typecheck failed" ≫= fun _ =>
  must_pass root "npm" [js "test"] "test suite failed" ≫= fun tests =>
  must_pass root "npm" [js "run"; js "scenarios"] "scenario suite failed" ≫= fun scenarios =>
  git_status root ≫= fun finalStatus =>
  from (throw_if (negb (finalStatus =s? initialStatus)) "quality commands changed the Git worktree") ≫= fun _ =>
  pythonVersion root ≫= fun python =>
  from (parseTapSummary tests) ≫= fun t =>
  from (parseScenarioSummary scenarios) ≫= fun s =>
  let bundle := bundle_of (evidence_body commit commitTimestamp (expectedCommit options) (initialStatus =s? []) lockfile python t s) in
  from (throw_if (MAX_BUNDLE_BYTES <? len (printed bundle)) ("release evidence exceeds " +:+ decimal_Z MAX_BUNDLE_BYTES +:+ " bytes")) ≫= fun _ =>
  match outputPath options with
  | Some ((_ :: _) as p) => write_new io (resolve [root; p]) (printed bundle)
  | _ => mret tt
  end ≫= fun _ =>
  mret bundle.
End evidence.

(** ** Arguments *)

Record Arguments : Type := { a_output : option jstr; a_expected : option jstr; a_dirty : bool }.
Fixpoint parse_arguments (argv : list jstr) (o : Arguments) : result Arguments :=
  match argv with
  | [] => Ok o
  | a :: rest =>
      let value := head rest in
      let after (o : Arguments) := match rest with [] => Ok o | _ :: rest' => parse_arguments rest' o end in
      if a =s? js "--output" then after {| a_output := value; a_expected := a_expected o; a_dirty := a_dirty o |}
      else if a =s? js "--expected-commit" then after {| a_output := a_output o; a_expected := value; a_dirty := a_dirty o |}
      else if a =s? js "--allow-dirty" then parse_arguments rest {| a_output := a_output o; a_expected := a_expected o; a_dirty := true |}
      else Throw ("unknown argument: " +:+ a)
  end.
Definition parseArguments (argv : list jstr) : result Arguments := parse_arguments argv {| a_output := None; a_expected := None; a_dirty := false |}.

(** ** What evidence says *)

Section sound.
Context `{Host, Process} (runner : CommandRunner).

(** The command has ended with status 0, on a machine that it has left as another. *)
Definition passed (root command : jstr) (l : list jstr) (output : jstr) (d d' : Disk) : Prop := exists r, runner command l root d = (inr r, d') /\ status r = 0 /\ stdout r = output.
Definition answered (root command : jstr) (l : list jstr) (output : jstr) (d d' : Disk) : Prop := exists s, passed root command l s d d' /\ output = trim s.

Lemma Run_bind_inv {A B : Type} (m : Run A) (k : A -> Run B) d b d' : (m ≫= k) d = (inr b, d') -> exists a d1, m d = (inr a, d1) /\ k a d1 = (inr b, d').
Proof. unfold mbind, Run_bind. destruct (m d) as [[e|a] d1]; [done|eauto]. Qed.
Lemma Run_from_inv {A B : Type} (r : result A) (k : A -> Run B) d b d' : (from r ≫= k) d = (inr b, d') -> exists a, r = Ok a /\ k a d = (inr b, d').
Proof. destruct r as [a|e]; [eauto|done]. Qed.
Lemma requireSuccess_inv root command l d s d' : requireSuccess runner root command l d = (inr s, d') -> answered root command l s d d'.
Proof.
  intros (r & d1 & Hr & Hk)%Run_bind_inv. destruct (Z.eqb_spec (status r) 0); [|done]. injection Hk as <- <-. exists (stdout r). split; [|done]. by exists r.
Qed.
Lemma must_pass_inv root command l message d s d' : must_pass runner root command l message d = (inr s, d') -> passed root command l s d d'.
Proof.
  intros (r & d1 & Hr & Hk)%Run_bind_inv. destruct (Z.eqb_spec (status r) 0); [|done]. injection Hk as <- <-. by exists r.
Qed.
Lemma readFileSync_inv io s path d b d' : readFileSync io s path d = (inr b, d') -> d' = d /\ map_get path (files d) = Some b.
Proof.
  intros (u & d1 & Hf & Hk)%Run_bind_inv. unfold may_fail in Hf. destruct (fault io s); [done|]. injection Hf as _ <-.
  apply Run_bind_inv in Hk as (c & d2 & Hc & Hk). injection Hc as <- <-. destruct (map_get path (files d)) as [x|]; [|done]. by injection Hk as <- <-.
Qed.

Definition STATUS : list jstr := [js "status"; js "--porcelain"; js "--untracked-files=all"].
(** The facts behind a body of evidence, from the machine [d] on. *)
Definition witnessed (options : GenerateEvidenceOptions) (d : Disk) (body : list (jstr * jsval)) : Prop :=
  let root := resolve [repoRoot options] in
  exists commit ts lock python checked tests scenarios t s st d1 d2 d3 d4 d5 d6 d7,
    body = evidence_body commit ts (expectedCommit options) (st =s? []) lock python t s /\
    (answered root "git" [js "rev-parse"; js "HEAD"] commit d d1 /\ (forall e, expectedCommit options = Some e -> e <> [] -> commit = e)) /\
    (answered root "git" STATUS st d1 d2 /\ (allowDirty options = false -> st = [])) /\
    map_get (resolve [root; js "package-lock.json"]) (files d2) = Some lock /\
    answered root "git" [js "show"; js "-s"; js "--format=%cI"; commit] ts d2 d3 /\
    passed root "npm" [js "run"; js "typecheck"] checked d3 d4 /\
    (passed root "npm" [js "test"] tests d4 d5 /\ parseTapSummary tests = Ok t) /\
    (passed root "npm" [js "run"; js "scenarios"] scenarios d5 d6 /\ parseScenarioSummary scenarios = Ok s) /\
    answered root "git" STATUS st d6 d7.

(** What is left at the output path. *)
Definition written (options : GenerateEvidenceOptions) (bundle : jsval) (d' : Disk) : Prop :=
  forall p, outputPath options = Some p -> p <> [] -> map_get (resolve [resolve [repoRoot options]; p]) (files d') = Some (printed bundle).

Lemma write_new_inv io path b d u d' : write_new io path b d = (inr u, d') -> map_get path (files d') = Some b.
Proof.
  intros (u1 & d1 & _ & Hk)%Run_bind_inv. apply Run_bind_inv in Hk as (taken & d2 & _ & Hk). destruct taken; [done|].
  unfold write_as in Hk. destruct (fault io WriteOutput); [done|]. injection Hk as _ <-. apply map_get_set_eq.
Qed.

(** C29: evidence is only given for a commit that is the expected one, on a tree that
    is clean unless told otherwise and the same afterwards, whose type check,
    tests and scenarios have ended with status 0; it holds what they said and the
    digest of everything else in it; the file written, if one was asked for, holds
    its text, which reads back as the evidence where that is made of values JSON
    keeps as they are. *)
Theorem release_evidence_sound options io d bundle d' :
  generateReleaseEvidence runner options io d = (inr bundle, d') ->
  exists body, bundle = bundle_of body /\ witnessed options d body /\ len (printed bundle) <= MAX_BUNDLE_BYTES /\ written options bundle d' /\
    (json_clean bundle -> json_parse (utf8_decode (printed bundle)) = Ok bundle).
Proof.
  unfold generateReleaseEvidence. cbv zeta. intros (commit & d1 & Hc%requireSuccess_inv & Hr)%Run_bind_inv.
  apply Run_from_inv in Hr as (u & He & Hr). apply Run_bind_inv in Hr as (st & d2 & Hst%requireSuccess_inv & Hr).
  apply Run_from_inv in Hr as (u1 & Hdirty & Hr). apply Run_bind_inv in Hr as (lock & d2' & [-> Hlock]%readFileSync_inv & Hr).
  apply Run_bind_inv in Hr as (ts & d3 & Hts%requireSuccess_inv & Hr). apply Run_bind_inv in Hr as (o & d4 & Hty%must_pass_inv & Hr).
  apply Run_bind_inv in Hr as (tests & d5 & Hte%must_pass_inv & Hr). apply Run_bind_inv in Hr as (sc & d6 & Hsc%must_pass_inv & Hr).
  apply Run_bind_inv in Hr as (st' & d7 & Hst'%requireSuccess_inv & Hr). apply Run_from_inv in Hr as (u2 & Hsame & Hr).
  apply Run_bind_inv in Hr as (python & d8 & _ & Hr). apply Run_from_inv in Hr as (t & Ht & Hr). apply Run_from_inv in Hr as (s & Hs & Hr).
  apply Run_from_inv in Hr as (u3 & Hlen & Hr). apply Run_bind_inv in Hr as (u4 & d9 & Hw & [= <- <-]).
  assert (st' = st) as -> by (unfold throw_if in Hsame; destruct (st' =s? st) eqn:E; [by apply jeqb_true|done]).
  eexists. split; [reflexivity|]. split; [|split; [|split]].
  - exists commit, ts, lock, python, o, tests, sc, t, s, st, d1, d2, d3, d4, d5, d6, d7. split_and!; [done|done| |done| |done|done|done|done|done|done|done|done].
    + intros e Ee Hne. rewrite Ee in He. destruct e as [|c e]; [done|]. unfold throw_if in He. destruct (commit =s? c :: e) eqn:E; [by apply jeqb_true|done].
    + intros Ed. rewrite Ed in Hdirty. unfold throw_if in Hdirty. destruct (st =s? []) eqn:E; [by apply jeqb_true|done].
  - unfold throw_if in Hlen. destruct (MAX_BUNDLE_BYTES <? _) eqn:E; [discriminate|]. apply Z.ltb_ge in E. exact E.
  - intros p Ep Hne. rewrite Ep in Hw. destruct p as [|c p]; [congruence|]. exact (write_new_inv _ _ _ _ _ _ Hw).
  - intros Hcl. unfold printed. exact (json_parse_pretty _ Hcl).
Qed.
End sound.
