(* ===== verification/ReleaseExamples.v ===== *)
(** ReleaseExamples: evidence of a release from commands that succeed, and none
    from a test run that fails. *)
From S2P Require Import Prelude JsString JsMap Host TestHost JsTime JsJson JsParse JsPretty LabRequest CredentialVerifier BackupFiles BackupLib BackupRuns BackupExamples ReleaseEvidence.
#[local] Open Scope string_scope.
#[local] Open Scope list_scope.
#[local] Open Scope Z_scope.
#[local] Open Scope js_scope.

#[local] Existing Instances quick_host sample_process.

Definition says (s : Z) (out : jstr) : CommandResult := {| status := s; stdout := out; stderr := [] |}.
Definition end_line : jstr := [10%N].
(** A summary line of the test runner. *)
Definition tap (name count : jstr) : jstr := (8505%N :: js " " ++ name ++ js " " ++ count) ++ end_line.
Definition test_output : jstr :=
  js "ok" ++ end_line ++ tap "tests" "3" ++ tap "pass" "3" ++ tap "fail" "0" ++ tap "cancelled" "0" ++ tap "skipped" "0" ++ tap "todo" "0".
Definition scenario_output : jstr :=
  js "running" ++ end_line ++ quoted "{" ++ end_line ++ quoted "  'passed': true, 'results': [{'scenario': 'clone', 'passed': true, 'ms': 3}]}".

(** The commands of a clean checkout; the tests end with a status. *)
Definition commands (test_status : Z) : CommandRunner := fun command l cwd =>
  mret (if command =s? js "git" then
          (if includes l (js "rev-parse") then says 0 (js "c0ffee" ++ end_line) else if includes l (js "show") then says 0 (js "2026-01-01T12:00:00Z" ++ end_line) else says 0 [])
        else if command =s? js "npm" then
          (if includes l (js "test") then says test_status test_output else if includes l (js "scenarios") then says 0 scenario_output else says 0 [])
        else if command =s? js "python3" then says 0 (js "Python 3.12.1" ++ end_line) else says 1 []).

Definition checkout : Disk := {| files := [(js "/srv/repo/package-lock.json", js "{}")]; directories := []; checks := [] |}.
Definition release : GenerateEvidenceOptions :=
  {| repoRoot := js "repo"; outputPath := Some (js "evidence/release.json"); expectedCommit := Some (js "c0ffee"); allowDirty := false |}.
Abbreviation run_release := (generateReleaseEvidence (commands 0) release calm checkout).
Definition release_bundle : jsval := match run_release.1 with inr b => b | inl _ => JNull end.

Example failed_tests_no_evidence : returned (generateReleaseEvidence (commands 1) release calm checkout) = false.
Proof. vm_compute. reflexivity. Qed.
Example evidence_of_tests : parseTapSummary test_output = Ok (JObj [(js "tests", number_of 3); (js "pass", number_of 3); (js "fail", number_of 0); (js "cancelled", number_of 0);
  (js "skipped", number_of 0); (js "todo", number_of 0)]).
Proof. vm_compute. reflexivity. Qed.
Example evidence_of_scenarios : parseScenarioSummary scenario_output =
  Ok (JObj [(js "passed", JBool true); (js "count", number_of 1); (js "results", JArr [JObj [(js "scenario", JStr "clone"); (js "passed", JBool true)]])]).
Proof. vm_compute. reflexivity. Qed.

Lemma run_release_returns : returned run_release = true.
Proof. vm_compute. reflexivity. Qed.
Lemma returned_ends {A : Type} (r : (Failure + A) * Disk) (a : A) : returned r = true -> r = (inr (match r.1 with inr b => b | inl _ => a end), r.2).
Proof. by destruct r as [[e|b] d]. Qed.
Lemma run_release_ends : run_release = (inr release_bundle, run_release.2).
Proof. exact (returned_ends run_release JNull run_release_returns). Qed.

Lemma release_evidence_sound_witness :
  exists body, release_bundle = bundle_of body /\ witnessed (commands 0) release checkout body /\ len (printed release_bundle) <= MAX_BUNDLE_BYTES /\
    written release release_bundle run_release.2 /\ (json_clean release_bundle -> json_parse (utf8_decode (printed release_bundle)) = Ok release_bundle).
Proof.
  pose proof (release_evidence_sound (commands 0) release calm checkout release_bundle run_release.2) as Hx. pose proof run_release_ends as He.
  specialize (Hx He). exact Hx.
Defined.
